(* ===== verification/_CoqProject ===== *)
-Q . S2P
Prelude.v
Net.v
Error.v
Http.v
WsCodec.v
WsSession.v
WsEngine.v
Proxy.v
Planning.v
FastFallback.v
Socks5.v
Scheduler.v
RealConnection.v
Pool.v
PoolLocks.v
PoolRaces.v
PoolInvariant.v
PoolConcurrent.v
Limits.v
Availability.v
ExchangeFinder.v
Policy.v
Request.v
FollowUp.v
ConnectTunnel.v
Connector.v
Outgoing.v
ObservedBody.v
Bodies.v
Sending.v
TransportPool.v
Transport.v
TransportSafety.v
TransportSlots.v
Calls.v
Services.v
WsHandshake.v
WsWriter.v
Compression.v
Bridge.v
WsCall.v
CacheControl.v
Cache.v
AuthChallenge.v
Logging.v
TokioNet.v
WsAdapters.v
Tls.v
Cookies.v
Builder.v
