(* ===== verification/Prelude.v ===== *)
(** * A verification library for OpenWire

    OpenWire is an HTTP and WebSocket client (crates under src/crates/; paths below are written
    crate/file.rs for src/crates/crate/src/file.rs).  A call (client.rs) has a deadline and may be canceled from
    other threads; it enters the follow-up loop
    (openwire/policy), which sends it through the network chain as often as authentication, retries and
    redirects require.  On the way the bridge (bridge.rs) and the decompressor (compression.rs) complete
    its headers and the cache (openwire-cache) may answer it.  Each attempt selects its proxies
    (openwire/proxy.rs), is admitted by the request scheduler (connection/scheduler.rs), finds a pooled
    connection or plans a new one (connection/exchange_finder.rs, pool.rs, planning.rs) under the
    connection limits (connection/limits.rs), and allocates an exchange on it
    (connection/real_connection.rs).  A new connection is the winner of a race over the plan's routes
    (connection/fast_fallback.rs), through a SOCKS5 or CONNECT tunnel where the route has a proxy and
    through TLS where the target asks for it (transport/connect.rs, over openwire-tokio and
    openwire-rustls).  The transport (transport/service.rs, bindings.rs) prepares the request for the connection's protocol (protocol.rs), sends it and wraps both bodies (body.rs); the response body holds a
    lease that gives the connection back.  A WebSocket call (websocket/transport.rs) adds its handshake (websocket/handshake.rs); the upgraded
    connection is driven by the native engine (websocket/native), or by fastwebsockets or tungstenite through their
    adapters, under the session's writer, reader and
    heartbeat tasks (websocket/writer.rs, public.rs).

    ** Files

    - Prelude: outcomes of fallible code ([Ok], [Err], [Panic]), machine integers, bytes, strings and
      list lemmas, the tactics and the [len] hint database.
    - Net, Error, Http, Request: IP and socket addresses with their parser, URIs, [WireError]
      (openwire-core/error.rs), header maps as a class with laws, request bodies, call options and the
      request extensions.
    - WsCodec: native/codec.rs and mask.rs.  WsSession: openwire-core/websocket/message.rs and
      native/session.rs.  WsEngine: native/engine.rs.  WsHandshake: websocket/handshake.rs.  WsWriter:
      websocket/writer.rs, public.rs and instrumented.rs.
    - Proxy: proxy.rs.  Planning: connection/planning.rs and the certificate-name match of
      connection/mod.rs.  FastFallback: connection/fast_fallback.rs.  Socks5, ConnectTunnel: the two
      tunnels of transport/connect.rs.  Connector: the rest of that file, from a route plan to a connection.
    - TokioNet: the resolver cache, the TCP connector, the I/O wrappers, the executor and
      the timer of openwire-tokio/lib.rs.  Tls:
      openwire-rustls/lib.rs and the connection metadata of openwire-core/transport.rs.  WsAdapters:
      openwire-fastwebsockets/lib.rs and openwire-tungstenite/lib.rs.
    - Scheduler, RealConnection, Pool, Limits, ExchangeFinder: the files of those names in
      openwire/connection.  Availability: the waiting and notifying half of limits.rs.  PoolLocks: pool.rs once more,
      as trees of critical sections with the machine that interleaves them; PoolRaces, PoolInvariant,
      PoolConcurrent: what each operation may do at each section, the invariant with the changes that keep it, and
      the theorems.
    - Outgoing: transport/protocol.rs, the request preparation at the end of transport/service.rs and the
      proxy credentials of client.rs.  ObservedBody: the two bodies of transport/body.rs and the flags of
      openwire-core/context.rs.  Bodies: openwire-core/body.rs.  Sending: one send of transport/service.rs with its
      reports, and the mapping of hyper's errors.
    - TransportPool, Transport, TransportSafety, TransportSlots: what the transport needs of the pool as a class with laws and
      Pool.v as its instance; exchanges, leases, bindings and connection tasks as programs
      (transport/service.rs, bindings.rs, body.rs, the reaper of client.rs) with the machine that interleaves
      them; the discipline those programs follow and the theorems; and, for the binding and the sender of a
      connection, who may be without them and when.
    - Policy: openwire-core/policy.rs and openwire/policy/defaults.rs.  FollowUp:
      openwire/policy/follow_up.rs with the parts of client.rs, auth.rs and body.rs it reads.
      AuthChallenge: the challenge parser of openwire-core/auth.rs.
    - Calls: client.rs from a new call to the end of its body, with the service chain and the reaper's controller.
      WsCall: websocket/transport.rs, a WebSocket call up to the running session.  Logging: logging.rs.
      Builder: the setters, defaults and assembly of a client in client.rs, the options of a call, and what
      protocol.rs tells hyper.  Cookies: cookie.rs.  Services: openwire-core/interceptor.rs and the service chain of
      client.rs with the instances it clones and readies, the adapters of openwire-core/transport.rs, and
      openwire-core/runtime.rs.
    - Bridge: bridge.rs.  Compression: compression.rs.  CacheControl, Cache: openwire-cache/lib.rs, the
      header semantics and the store with the interceptor.

    A definition that models code is preceded by a comment with the name and the lines it translates.

    ** How code is modelled

    Pure functions are functions.  A method on [&mut self] takes the record and returns the new one; what
    is shared by reference (connections, the cookie jar, the cache store) lives in a store that is
    threaded through, so a change made through one alias is seen through the others.  A critical section
    under a mutex is one function; Scheduler, Limits, Pool and Cache have a step relation over them, and
    invariants are proved by induction on reachability.  Asynchronous tasks are programs: in WsWriter a
    task is an [act], a tree of the operations it performs on channels, flags and the sink, and a session
    is any interleaving of the tasks, the calls of the user and the answers of the network; in
    FastFallback the attempts and the dialer are the components of one transition system; in Transport a task
    is a [prog], a tree of critical sections, outside answers and await points, at each of which its future
    may be dropped; in PoolLocks an operation of the pool is such a tree over the accesses it makes under each mutex, and a
    ghost state per operation carries the invariant through the interleaving.  Tunnels are
    functions from what the proxy sends, in the pieces and with the faults it arrives with, to the outcome
    and the bytes written.  Errors are values; [Panic] is a panic of the source ([unreachable!], [expect],
    a slab index out of range).  Integers are [Z] with their width written out where the code can reach
    it: counters that the release build wraps use [u32_wrapping_add] and [u64_wrapping_add], casts use
    [as_u8] and [as_u32].  Each reading of a clock is a value of its own: two readings in one function are two
    arguments, and in the resolver cache, where a lock is waited for between them, two moves.  Code outside the repository (tokio's semaphore and its [Notify], the http header map, URL parsing, HTTP
    dates, hashes, decoders, random bytes, hash iteration order, authenticators, custom policies, the
    network) is a parameter.  What
    the code relies on is stated as laws ([SemaphoreLaws], [NotifyLaws],
    [HeaderMapLaws], [BufReadLaws], [CacheStoreLaws], [ConnectionPoolLaws], a vacant slab key, an iteration order that is a
    permutation), each with an instance that satisfies it.

    Fuel.  [WsEngine.poll_next] runs its loop with fuel computed from the buffered bytes and the
    script of reads; each round decodes a frame or consumes an event, and [poll_next_total] proves it
    never runs out.  [FollowUp.run] takes fuel as an argument; [follow_up_terminates] gives the amount
    that is always enough with the built-in policies (custom policies may loop for ever, as in the
    code).  [ConnectTunnel.read_head] has one round for each byte up to the limit of 8192 and
    [connect_loop] one for each authentication attempt; [connect_attempts_bounded] proves neither runs
    out.  [Compression.peek_loop] reads two bytes.  [Outgoing.close_loop] has one round for each character
    and [close_scanner_iff] shows the result is that of the grammar.  The loops of an exchange in Transport
    have no fuel: a task goes round with [Again], as often as the schedule has it.  The operations of PoolLocks are
    finite trees, and [pool_operations_finish] runs them to their end.  [Services.oneshot] bounds the polls of a
    service that is not ready; those of resolvers and connectors are ready at the first.

    ** What the theorems show

    - WebSocket.  The decoder accepts exactly the well-formed frames and waits on every strict prefix of
      one; masking is undone by the peer; reassembly joins fragments and keeps its invariant; the stream
      yields the same items for every way of cutting the input into reads, never panics, and whatever it is sent
      delivers only frames that the client could send itself; the sink
      writes the accepted frames in order; a frame sent is the frame received.  A handshake request is
      built exactly when the request allows it and its answer accepted exactly when RFC 6455 does.  In every
      interleaving of a session the messages reach the wire in the order they were accepted, nothing
      follows a Close frame, and the call ends once.  A call opens only on the answer to its own request, with the heartbeat and the limits it
      was given, is reported as ended once, and never lands on an HTTP/2 connection, whatever the TLS connector offers otherwise.
      The sink of the fastwebsockets adapter keeps the order too, and both adapters keep the frames.
    - Calls and logging.  Whatever the outcome, the drops and the cancellations, a call is reported as ended or
      failed exactly once; a cancellation wakes the task that waits and the canceled call ends.  The logger writes
      no value of a redacted header, and passes requests, responses and errors on as they are.  The settings of a
      call reach the timeouts and policies it runs with, the last one winning and the client's filling in; the
      order in which different knobs of a client are set is without effect.  The service chain does what its parts
      compose to, in the order they were added, and calls only instances that were polled ready for the call, retries
      included.
    - Bodies and cookies.  A retry sends the whole body again however far the first attempt got, and the kinds
      of body the other components reason with are faithful to it; a response is read to exactly its data or its
      first error.  A send that fails is reported as failed once, however its body was polled and dropped, and is
      retried by default only if hyper kept nothing of it or its method is idempotent.  The Cookie header read back gives the cookies of the jar; what is logged of a rejected
      cookie is at most its name and length.
    - Connector, TLS and resolver.  An https call never leaves in the clear: what the race of its routes returns is a
      TLS session with the target, over the tunnel the proxy agreed to.  A connection is shared with another host
      only if its certificate covers that host.  An answer of the resolver cache is the resolver's to
      that lookup, or repeats one whose entry had not expired when the lookup read the clock.
    - Proxies and plans.  Which proxy a request uses, no-proxy and CIDR matching, credentials removed
      from the proxy URL and never shown to the listener, sticky candidates; which address a URI has, the order of fast fallback, the
      default planner, the winner of a connect plan, certificate names.
    - Racing and tunnels.  A race ends, with one winner and every other attempt accounted for, or with the
      last error when all fail or go without a report.  A SOCKS5 tunnel is one both ends agreed on, byte for byte - no length is
      cut to a byte, because longer names and credentials are refused - and the password goes only to a proxy that asks.  The answer to CONNECT is read the same however it arrives, no byte
      after it is lost, no header can be smuggled into the request, the attempts are bounded.
    - Scheduler.  In every reachable state the caps hold, no slot is idle that a queued request could
      use, nothing panics; an acquire and a release decide as the priority and aging rules say.
    - Connections, pool and limits.  Exchanges on a connection are counted exactly; the pool's three
      containers agree after any sequence of operations, and, with operations interleaved at their critical sections, whenever none is in
      progress; its locks never deadlock; pruning evicts the expired and the least
      recently idle and nothing in use, except - when interleaved - an HTTP/2 connection a coalesced request has just been
      given ([coalesced_connection_evicted]); coalescing shares only an HTTP/2 connection with the same port, a
      covering certificate and an overlapping route; the per-address cap survives every interleaving;
      a freed stream wakes those it could serve; a request waits for a permit only while there is none for it
      or a notification is on its way, and a notification reaches a request that waits for its address, at once or
      handed on by one that no longer needs it.
    - Exchanges over connections.  In every interleaving, with futures dropped and connections closed at any
      point, the allocations of a connection are the exchanges holding it, an HTTP/1 sender is in one hand and
      put back before its connection is released, an idle connection of the pool has its binding and its sender unless a task
      is removing it, and once the exchanges have ended the pooled connections are idle, with their senders in place.  The exception is proved too: a send dropped while it waits leaks its allocation
      ([dropped_send_leaks]).  A response body settles its lease once, with the fate and the events its
      reading warrants; a connection is kept exactly when neither side asks to close it; HTTP/2 requests carry
      no connection-specific header; proxy credentials go to the proxy they are for.
    - Exchange finder.  The preparation of a request and the observation of a new connection.
    - Follow-up loop.  It ends within the limits; credentials never reach another origin; https is never
      left; a retry repeats the same request and only when that is safe; the rebuilt redirect request; a
      call that cannot be followed up passes the network's answer through.  Challenges are read back as
      they are written.
    - Bridge and decompression.  A request has exactly one framing, that of its body; the host header is
      that of the URI, after a redirect too; a decoded body never exceeds its limit and decoding undoes
      the encodings listed; looking ahead for a zlib header loses no byte.
    - Cache.  What is served was stored for the same URL, method, selecting headers and credentials, and
      is fresh or allowed to be stale; what is stored is served, unless a response of another variant that also
      matches stands behind it ([newer_entry_shadowed]); the memory store keeps its limits; a 304
      updates the stored headers.

    ** Not modelled

    Hyper, tokio, rustls, cookie_store and the other crates themselves; the declarations of the listener's
    callbacks; tokio's own task scheduling and clock.  Of the modelled files the event
    callbacks and tracing are left out where they decide nothing.  Tests, examples and benchmarks are not part of
    the implementation.

    What would be added next: the composition of the call of Calls.v with the exchanges of Transport.v, and the pool of
    PoolLocks.v as the pool of Transport.v, whose tasks take an operation of the pool as one step. *)

From Stdlib Require Export ZArith Lia Ascii String.
Export Ascii.AsciiSyntax.
From stdpp Require Export base tactics option list gmap strings numbers sets.

#[global] Set Default Proof Using "Type".
#[global] Unset Program Cases.

Open Scope Z_scope.

(** ** Outcomes of fallible Rust code

    A call returns [Ok], returns an error [Err] or panics ([unreachable!],
    [expect], an index out of range).  Keeping [Panic] apart from [Err] lets a
    theorem say that the panicking arms of the source are never taken. *)

Inductive outcome (E A : Type) : Type :=
| Ok (a : A)
| Err (e : E)
| Panic.
Arguments Ok {E A} a.
Arguments Err {E A} e.
Arguments Panic {E A}.

Definition obind {E A B} (m : outcome E A) (k : A → outcome E B) : outcome E B :=
  match m with
  | Ok a => k a
  | Err e => Err e
  | Panic => Panic
  end.

(** The source's [expr?] operator. *)
Declare Scope rust_scope.
Delimit Scope rust_scope with rust.
Notation "'let?' x ':=' m 'in' k" := (obind m (λ x, k))
  (at level 10, x pattern, m at level 100, k at level 200) : rust_scope.
Open Scope rust_scope.

(** [std::task::Poll]. *)
Inductive poll (A : Type) : Type :=
| Ready (a : A)
| Pending.
Arguments Ready {A} a.
Arguments Pending {A}.

#[global] Instance outcome_eq_dec {E A} `{EqDecision E, EqDecision A} : EqDecision (outcome E A).
Proof. solve_decision. Defined.
#[global] Instance poll_eq_dec {A} `{EqDecision A} : EqDecision (poll A).
Proof. solve_decision. Defined.

Definition no_panic {E A} (m : outcome E A) : Prop := m ≠ Panic.

Lemma obind_Ok {E A B} (m : outcome E A) (k : A → outcome E B) b :
  obind m k = Ok b ↔ ∃ a, m = Ok a ∧ k a = Ok b.
Proof.
  destruct m as [a|e|]; simpl; (split; [|intros (?&?&?); congruence]); [eauto|done..].
Qed.

Lemma no_panic_obind {E A B} (m : outcome E A) (k : A → outcome E B) :
  no_panic m → (∀ a, m = Ok a → no_panic (k a)) → no_panic (obind m k).
Proof. destruct m; simpl; intros Hm Hk; [by apply Hk|done|done]. Qed.

(** ** Machine integers

    The model is of a 64-bit target: [usize] and [u64] have the same width. *)

Definition U8_MAX : Z := 255.
Definition U16_MAX : Z := 65535.
Definition U32_MAX : Z := 4294967295.
Definition U64_MAX : Z := 18446744073709551615.
Definition USIZE_MAX : Z := U64_MAX.

(** Release-profile [+=] on a [u64] wraps. *)
Definition u64_wrapping_add (a b : Z) : Z := (a + b) `mod` (U64_MAX + 1).
Definition u32_saturating_add (a b : Z) : Z := Z.min U32_MAX (a + b).
(** [saturating_sub] on an unsigned type. *)
Definition saturating_sub (a b : Z) : Z := Z.max 0 (a - b).
Definition usize_checked_add (a b : Z) : option Z :=
  if a + b <=? USIZE_MAX then Some (a + b) else None.

(** ** Bytes *)

Definition is_byte (b : Z) : Prop := 0 ≤ b < 256.
Abbreviation bytes := (list Z) (only parsing).
Definition bytes_ok (bs : bytes) : Prop := Forall is_byte bs.

(** [len()] as a machine integer. *)
Definition len {A} (l : list A) : Z := Z.of_nat (length l).

Lemma len_nil {A} : len (@nil A) = 0.
Proof. reflexivity. Qed.
Lemma len_cons {A} (x : A) l : len (x :: l) = 1 + len l.
Proof. unfold len; simpl length; lia. Qed.
Lemma len_app {A} (l k : list A) : len (l ++ k) = len l + len k.
Proof. unfold len; rewrite length_app; lia. Qed.
Lemma len_nonneg {A} (l : list A) : 0 ≤ len l.
Proof. unfold len; lia. Qed.
Lemma len_zero {A} (l : list A) : len l = 0 → l = [].
Proof. destruct l; [done|rewrite len_cons; pose proof (len_nonneg l); lia]. Qed.
Lemma len_take {A} (l : list A) n : len (take n l) = Z.min (Z.of_nat n) (len l).
Proof. unfold len; rewrite length_take; lia. Qed.
Lemma len_drop {A} (l : list A) n : len (drop n l) = Z.max 0 (len l - Z.of_nat n).
Proof. unfold len; rewrite length_drop; lia. Qed.

#[export] Instance len_Permutation {A} : Proper ((≡ₚ) ==> (=)) (@len A).
Proof. intros l k H. unfold len. by rewrite H. Qed.

Lemma to_nat_len {A} (l : list A) : Z.to_nat (len l) = length l.
Proof. unfold len; lia. Qed.

Create HintDb ow.
Create Rewrite HintDb len.
#[export] Hint Rewrite @len_nil @len_cons @len_app @len_take @len_drop : len.

(** Normalise lengths, add that each is nonnegative, then linear arithmetic. *)
Ltac len_facts :=
  repeat match goal with
         | |- context [len ?l] =>
           lazymatch goal with H : 0 ≤ len l |- _ => fail | _ => pose proof (len_nonneg l) end
         | _ : context [len ?l] |- _ =>
           lazymatch goal with H : 0 ≤ len l |- _ => fail | _ => pose proof (len_nonneg l) end
         end.
Ltac len_lia := autorewrite with len in *; len_facts; lia.

(** Case analysis on the scrutinee of the innermost [if]/[match] of the goal. *)
Ltac case_goal := case_match; simplify_eq/=.

(** Closed [bytes_ok] goals. *)
Ltac solve_bytes :=
  unfold bytes_ok, is_byte; cbn; repeat (apply Forall_cons_2; [lia|]); apply Forall_nil_2.

Lemma bytes_ok_app a b : bytes_ok (a ++ b) ↔ bytes_ok a ∧ bytes_ok b.
Proof. apply Forall_app. Qed.

(** Truth of the boolean integer tests as propositions. *)
Ltac bool_lia :=
  repeat match goal with
         | H : (_ =? _) = true |- _ => apply Z.eqb_eq in H
         | H : (_ =? _) = false |- _ => apply Z.eqb_neq in H
         | H : (_ <=? _) = true |- _ => apply Z.leb_le in H
         | H : (_ <=? _) = false |- _ => apply Z.leb_gt in H
         | H : (_ <? _) = true |- _ => apply Z.ltb_lt in H
         | H : (_ <? _) = false |- _ => apply Z.ltb_ge in H
         end; try lia.

(** ** Text

    A Rust [&str] is a sequence of bytes; the code modelled here only looks at
    ASCII, so text is a [string] of 8-bit characters. *)

Definition ascii_lower (c : Ascii.ascii) : Ascii.ascii :=
  let n := Ascii.nat_of_ascii c in
  if (65 <=? n)%nat && (n <=? 90)%nat then Ascii.ascii_of_nat (n + 32) else c.

(** [str::to_ascii_lowercase]. *)
Fixpoint to_ascii_lowercase (s : string) : string :=
  match s with
  | EmptyString => EmptyString
  | String c s => String (ascii_lower c) (to_ascii_lowercase s)
  end.

(** [str::eq_ignore_ascii_case]. *)
Definition eq_ignore_ascii_case (a b : string) : bool :=
  bool_decide (to_ascii_lowercase a = to_ascii_lowercase b).

(** [str::strip_prefix]. *)
Fixpoint strip_prefix (p s : string) : option string :=
  match p, s with
  | EmptyString, _ => Some s
  | String a p, String b s => if bool_decide (a = b) then strip_prefix p s else None
  | String _ _, EmptyString => None
  end.

Fixpoint string_rev_app (s acc : string) : string :=
  match s with
  | EmptyString => acc
  | String c s => string_rev_app s (String c acc)
  end.
Definition string_rev (s : string) : string := string_rev_app s EmptyString.

(** [str::strip_suffix]: strip the prefix of the mirrored text. *)
Definition strip_suffix (p s : string) : option string :=
  string_rev <$> strip_prefix (string_rev p) (string_rev s).

(** [str::contains] of one ASCII character. *)
Fixpoint contains_char (c : Ascii.ascii) (s : string) : bool :=
  match s with
  | EmptyString => false
  | String a s => bool_decide (a = c) || contains_char c s
  end.

#[global] Arguments String.append !_ _ / : simpl nomatch.

(** [str::starts_with] and [str::ends_with]. *)
Definition starts_with (p s : string) : bool := bool_decide (is_Some (strip_prefix p s)).
Definition ends_with (p s : string) : bool := bool_decide (is_Some (strip_suffix p s)).

Lemma strip_prefix_Some p s r : strip_prefix p s = Some r ↔ s = (p +:+ r)%string.
Proof.
  revert s; induction p as [|a p IH]; intros s; cbn; [split; [by intros [= ->]|by intros ->]|].
  destruct s as [|b s]; [done|]. case_bool_decide as Hab.
  - rewrite IH. split; [by intros ->; subst|by intros [= _ ->]].
  - split; [done|]. by intros [= Hb _].
Qed.

Lemma string_app_assoc (a b c : string) : ((a +:+ b) +:+ c = a +:+ (b +:+ c))%string.
Proof. induction a; cbn; congruence. Qed.
Lemma string_app_nil_r (a : string) : (a +:+ "" = a)%string.
Proof. induction a; cbn; congruence. Qed.

Lemma string_rev_app_spec s acc : string_rev_app s acc = (string_rev s +:+ acc)%string.
Proof.
  unfold string_rev. revert acc; induction s as [|c s IH]; intros acc; cbn; [done|].
  rewrite (IH (String c acc)), (IH (String c "")). rewrite string_app_assoc. done.
Qed.

Lemma string_rev_cons c s : string_rev (String c s) = (string_rev s +:+ String c "")%string.
Proof. unfold string_rev at 1. cbn. by rewrite string_rev_app_spec. Qed.

Lemma string_rev_append a b : string_rev (a +:+ b) = (string_rev b +:+ string_rev a)%string.
Proof.
  induction a as [|c a IH]; cbn [String.append]; [by rewrite string_app_nil_r|].
  by rewrite !string_rev_cons, IH, string_app_assoc.
Qed.

Lemma string_rev_involutive s : string_rev (string_rev s) = s.
Proof. induction s as [|c s IH]; [done|]. by rewrite string_rev_cons, string_rev_append, IH. Qed.

Lemma strip_suffix_Some p s r : strip_suffix p s = Some r ↔ s = (r +:+ p)%string.
Proof.
  unfold strip_suffix. rewrite fmap_Some. split.
  - intros (t & Ht & ->). apply strip_prefix_Some in Ht.
    rewrite <- (string_rev_involutive s), Ht, string_rev_append, string_rev_involutive. done.
  - intros ->. exists (string_rev r). split; [|by rewrite string_rev_involutive].
    apply strip_prefix_Some. by rewrite string_rev_append.
Qed.

Lemma ends_with_spec p s : ends_with p s = true ↔ ∃ r, s = (r +:+ p)%string.
Proof.
  unfold ends_with. rewrite bool_decide_eq_true. split; intros [r Hr]; exists r; by apply strip_suffix_Some.
Qed.

Lemma starts_with_spec p s : starts_with p s = true ↔ ∃ r, s = (p +:+ r)%string.
Proof.
  unfold starts_with. rewrite bool_decide_eq_true. split; intros [r Hr]; exists r; by apply strip_prefix_Some.
Qed.

Lemma contains_char_app c a b : contains_char c (a +:+ b)%string = contains_char c a || contains_char c b.
Proof. induction a as [|d a IH]; cbn; [done|]. by rewrite IH, orb_assoc. Qed.

Lemma ascii_lower_idemp c : ascii_lower (ascii_lower c) = ascii_lower c.
Proof. destruct c as [[] [] [] [] [] [] [] []]; reflexivity. Qed.

Lemma to_ascii_lowercase_idemp s : to_ascii_lowercase (to_ascii_lowercase s) = to_ascii_lowercase s.
Proof. induction s as [|c s IH]; cbn; [done|]. by rewrite ascii_lower_idemp, IH. Qed.

(** [str::split], [str::trim], [trim_start_matches] and [trim_end_matches] of one
    character, [rsplit_once]; whitespace is ASCII whitespace. *)
Fixpoint split_on (c : Ascii.ascii) (s : string) : list string :=
  match s with
  | EmptyString => [EmptyString]
  | String a s =>
    if bool_decide (a = c) then EmptyString :: split_on c s
    else match split_on c s with
         | [] => [String a EmptyString]
         | w :: ws => String a w :: ws
         end
  end.

Definition is_ws (c : Ascii.ascii) : bool :=
  let n := Ascii.nat_of_ascii c in ((9 <=? n)%nat && (n <=? 13)%nat) || (n =? 32)%nat.

Fixpoint trim_start_by (f : Ascii.ascii → bool) (s : string) : string :=
  match s with
  | EmptyString => EmptyString
  | String a t => if f a then trim_start_by f t else s
  end.
Definition trim_end_by (f : Ascii.ascii → bool) (s : string) : string :=
  string_rev (trim_start_by f (string_rev s)).
Definition trim (s : string) : string := trim_end_by is_ws (trim_start_by is_ws s).
Definition trim_start_matches (c : Ascii.ascii) (s : string) : string :=
  trim_start_by (λ a, bool_decide (a = c)) s.
Definition trim_end_matches (c : Ascii.ascii) (s : string) : string :=
  trim_end_by (λ a, bool_decide (a = c)) s.

(** Split at the first occurrence. *)
Fixpoint split_once (c : Ascii.ascii) (s : string) : option (string * string) :=
  match s with
  | EmptyString => None
  | String a s =>
    if bool_decide (a = c) then Some (EmptyString, s)
    else match split_once c s with
         | Some (l, r) => Some (String a l, r)
         | None => None
         end
  end.
Definition rsplit_once (c : Ascii.ascii) (s : string) : option (string * string) :=
  match split_once c (string_rev s) with
  | Some (r, l) => Some (string_rev l, string_rev r)
  | None => None
  end.

(** [chars().all(f)]. *)
Fixpoint all_chars (f : Ascii.ascii → bool) (s : string) : bool :=
  match s with EmptyString => true | String c t => f c && all_chars f t end.

Lemma all_chars_impl (f g : Ascii.ascii → bool) s :
  (∀ c, f c = true → g c = true) → all_chars f s = true → all_chars g s = true.
Proof. intros Hfg. induction s; simpl; [done|]. rewrite !andb_true_iff. naive_solver. Qed.

Lemma all_chars_app f a b : all_chars f (a +:+ b)%string = all_chars f a && all_chars f b.
Proof. induction a as [|c a IH]; simpl; [done|]. by rewrite IH, andb_assoc. Qed.

(** The characters in front that satisfy [f], and the rest. *)
Fixpoint span (f : Ascii.ascii → bool) (s : string) : string * string :=
  match s with
  | EmptyString => (EmptyString, EmptyString)
  | String c t => if f c then let '(a, b) := span f t in (String c a, b) else (EmptyString, s)
  end.

(** The text does not start with a character that satisfies [f]. *)
Definition stops (f : Ascii.ascii → bool) (s : string) : Prop :=
  match s with EmptyString => True | String c _ => f c = false end.

Lemma span_spec f s a b : span f s = (a, b) → s = (a +:+ b)%string ∧ all_chars f a = true ∧ stops f b.
Proof.
  revert a b. induction s as [|c s IH]; intros a b; cbn [span]; [by intros [= <- <-]|].
  destruct (f c) eqn:E; [|intros [= <- <-]; by split_and!].
  destruct (span f s) as [a' b'] eqn:Es. intros [= <- <-]. destruct (IH a' b' eq_refl) as (-> & Ha & Hb).
  split_and!; [done| |done]. cbn. by rewrite E.
Qed.
Lemma span_app f a b : all_chars f a = true → stops f b → span f (a +:+ b)%string = (a, b).
Proof.
  induction a as [|c a IH]; cbn [all_chars String.append].
  - intros _ Hb. destruct b as [|c b]; [done|]. cbn in *. by rewrite Hb.
  - rewrite andb_true_iff. intros [Hc Ha] Hb. cbn [span]. by rewrite Hc, IH.
Qed.

(** Text without the separator is one piece; a separator ends the first. *)
Lemma split_on_none c s : contains_char c s = false → split_on c s = [s].
Proof.
  induction s as [|d s IH]; cbn [contains_char split_on]; [done|].
  rewrite orb_false_iff. intros [-> Hs]. by rewrite IH.
Qed.
Lemma split_on_app c a s : contains_char c a = false → split_on c (a +:+ String c s)%string = a :: split_on c s.
Proof.
  induction a as [|d a IH]; cbn [contains_char split_on String.append].
  - intros _. by rewrite bool_decide_eq_true_2.
  - rewrite orb_false_iff. intros [-> Ha]. by rewrite IH.
Qed.

(** [char::to_digit]. *)
Definition to_digit (radix : Z) (c : Ascii.ascii) : option Z :=
  let n := Z.of_nat (Ascii.nat_of_ascii c) in
  let v := if (48 <=? n) && (n <=? 57) then Some (n - 48)
           else if (97 <=? n) && (n <=? 122) then Some (n - 87)
           else if (65 <=? n) && (n <=? 90) then Some (n - 55)
           else None in
  match v with Some v => if v <? radix then Some v else None | None => None end.

(** The longest run of digits at the front: the value, how many, and the rest. *)
Fixpoint read_digits (radix acc : Z) (count : nat) (s : string) : Z * nat * string :=
  match s with
  | EmptyString => (acc, count, s)
  | String c t =>
    match to_digit radix c with
    | Some d => read_digits radix (acc * radix + d) (S count) t
    | None => (acc, count, s)
    end
  end.

(** [str::parse::<uN>]: an optional plus sign, then digits only, no overflow. *)
Definition parse_uint (max : Z) (s : string) : option Z :=
  let body := match s with String c t => if bool_decide (c = "+"%char) then t else s | _ => s end in
  match read_digits 10 0 0 body with
  | (v, n, EmptyString) => if (0 <? n)%nat && (v <=? max) then Some v else None
  | _ => None
  end.

(** ** Iterators *)

(** [Iterator::position]. *)
Fixpoint position {A} (f : A → bool) (l : list A) : option nat :=
  match l with
  | [] => None
  | x :: l => if f x then Some O else S <$> position f l
  end.

Lemma position_Some {A} (f : A → bool) l i :
  position f l = Some i →
  ∃ l1 x l2, l = l1 ++ x :: l2 ∧ length l1 = i ∧ f x = true ∧ Forall (λ y, f y = false) l1.
Proof.
  revert i; induction l as [|x l IH]; intros i; cbn; [done|].
  destruct (f x) eqn:E.
  - intros [= <-]. exists [], x, l. done.
  - rewrite fmap_Some. intros (j & Hj & ->). destruct (IH j Hj) as (l1 & y & l2 & -> & <- & Hy & Hl).
    exists (x :: l1), y, l2. split_and!; try done. by constructor.
Qed.

Lemma position_None {A} (f : A → bool) l : position f l = None ↔ Forall (λ y, f y = false) l.
Proof.
  induction l as [|x l IH]; cbn; [split; [constructor|done]|]. rewrite Forall_cons.
  destruct (f x) eqn:E; [naive_solver|]. rewrite fmap_None, IH. naive_solver.
Qed.

(** [Iterator::find]. *)
Definition find_first {A} (f : A → bool) (l : list A) : option A := List.find f l.

Lemma find_first_Some {A} (f : A → bool) l x :
  find_first f l = Some x →
  ∃ l1 l2, l = l1 ++ x :: l2 ∧ f x = true ∧ Forall (λ y, f y = false) l1.
Proof.
  induction l as [|y l IH]; cbn; [done|]. destruct (f y) eqn:E.
  - intros [= <-]. by exists [], l.
  - intros Hf. destruct (IH Hf) as (l1 & l2 & -> & Hx & Hl).
    exists (y :: l1), l2. split_and!; try done. by constructor.
Qed.

Lemma find_first_None {A} (f : A → bool) l : find_first f l = None ↔ Forall (λ y, f y = false) l.
Proof.
  induction l as [|x l IH]; cbn; [split; [constructor|done]|]. rewrite Forall_cons.
  destruct (f x) eqn:E; [naive_solver|]. rewrite IH. naive_solver.
Qed.

Lemma existsb_elem {A} (f : A → bool) l : existsb f l = true ↔ ∃ x, x ∈ l ∧ f x = true.
Proof. rewrite existsb_exists. by setoid_rewrite list_elem_of_In. Qed.

(** [Vec::push] unless already contained. *)
Definition push_unique {A} `{EqDecision A} (l : list A) (x : A) : list A :=
  if decide (x ∈ l) then l else l ++ [x].

Lemma push_unique_NoDup {A} `{EqDecision A} (l : list A) x : NoDup l → NoDup (push_unique l x).
Proof.
  intros Hl. unfold push_unique. case_decide; [done|]. apply NoDup_app. split_and!; [done| |].
  - set_solver.
  - apply NoDup_singleton.
Qed.

Lemma elem_of_push_unique {A} `{EqDecision A} (l : list A) x y :
  y ∈ push_unique l x ↔ y ∈ l ∨ y = x.
Proof. unfold push_unique. case_decide; set_solver. Qed.

Definition dedup {A} `{EqDecision A} (l : list A) : list A := foldl push_unique [] l.

Lemma dedup_snoc {A} `{EqDecision A} (l : list A) x : dedup (l ++ [x]) = push_unique (dedup l) x.
Proof. unfold dedup. by rewrite foldl_app. Qed.

Lemma dedup_NoDup {A} `{EqDecision A} (l : list A) : NoDup (dedup l).
Proof.
  induction l as [|x l IH] using rev_ind; [constructor|]. rewrite dedup_snoc. by apply push_unique_NoDup.
Qed.

Lemma elem_of_dedup {A} `{EqDecision A} (l : list A) x : x ∈ dedup l ↔ x ∈ l.
Proof.
  induction l as [|y l IH] using rev_ind; [done|].
  rewrite dedup_snoc, elem_of_push_unique, IH. set_solver.
Qed.

(** [if let Some(i) = l.iter().position(|y| y == x) { l.remove(i) }]. *)
Definition remove_first {A} `{EqDecision A} (x : A) (l : list A) : list A :=
  match list_find (λ y, y = x) l with
  | Some (i, _) => delete i l
  | None => l
  end.

Lemma remove_first_Permutation {A} `{EqDecision A} (x : A) l :
  x ∈ l → l ≡ₚ x :: remove_first x l.
Proof.
  intros Hx. unfold remove_first. destruct (list_find _ l) as [[i y]|] eqn:Hf.
  - apply list_find_Some in Hf as (Hi & -> & _). by apply delete_Permutation.
  - apply list_find_None in Hf. rewrite Forall_forall in Hf. by destruct (Hf x).
Qed.

Lemma remove_first_subset {A} `{EqDecision A} (x y : A) l : y ∈ remove_first x l → y ∈ l.
Proof.
  unfold remove_first. destruct (list_find _ l) as [[i z]|]; [|done]. apply list_elem_of_delete_inv.
Qed.

(** Filters that agree on the elements of a list. *)
Lemma filter_ext_in {A} (P Q : A → Prop) `{∀ x, Decision (P x), ∀ x, Decision (Q x)} (l : list A) :
  (∀ x, x ∈ l → P x ↔ Q x) → filter P l = filter Q l.
Proof.
  induction l as [|x l IH]; intros HPQ; [done|]. rewrite !filter_cons.
  rewrite IH by (intros; apply HPQ; by constructor).
  destruct (HPQ x) as [H1 H2]; [by constructor|]. repeat case_decide; tauto.
Qed.

Lemma filter_all {A} (P : A → Prop) `{∀ x, Decision (P x)} (l : list A) :
  (∀ x, x ∈ l → P x) → filter P l = l.
Proof.
  induction l as [|x l IH]; intros HP; [done|]. rewrite filter_cons_True by (apply HP; by constructor).
  f_equal. apply IH. intros y Hy. apply HP. by constructor.
Qed.

Lemma filter_nil_all {A} (P : A → Prop) `{∀ x, Decision (P x)} (l : list A) :
  (∀ x, x ∈ l → ¬ P x) → filter P l = [].
Proof.
  induction l as [|x l IH]; intros HP; [done|]. rewrite filter_cons_False by (apply HP; by constructor).
  apply IH. intros y Hy. apply HP. by constructor.
Qed.

(** Release-profile [+=] on a [u32] wraps; [as u32] truncates. *)
Definition u32_wrapping_add (a b : Z) : Z := (a + b) `mod` (U32_MAX + 1).
Definition as_u32 (a : Z) : Z := a `mod` (U32_MAX + 1).
(** [as u8]: a narrowing cast keeps the low eight bits. *)
Definition as_u8 (a : Z) : Z := a `mod` (U8_MAX + 1).
Lemma as_u8_small a : 0 ≤ a ≤ U8_MAX → as_u8 a = a.
Proof. intros Ha. apply Z.mod_small. lia. Qed.
Lemma as_u8_range a : 0 ≤ as_u8 a ≤ U8_MAX.
Proof. unfold as_u8. pose proof (Z.mod_pos_bound a (U8_MAX + 1) ltac:(done)). lia. Qed.

(** [Option::is_some] and [Option::or]. *)
Definition is_some {A} (o : option A) : bool := match o with Some _ => true | None => false end.
Definition option_or {A} (a b : option A) : option A := match a with Some x => Some x | None => b end.
