(* ===== verification/Net.v ===== *)
(** * Network values shared by the components

    The data the [std::net] and [http] types carry, as the rest of the library
    looks at it: IP and socket addresses, and a request URI seen through the
    accessors the client calls on it. *)

From S2P Require Import Prelude.

(** [std::net::IpAddr]: a 32-bit or a 128-bit number. *)
Inductive IpAddr : Type :=
| V4 (bits : Z)
| V6 (bits : Z).

#[global] Instance IpAddr_eq_dec : EqDecision IpAddr.
Proof. solve_decision. Defined.
#[global] Instance IpAddr_countable : Countable IpAddr.
Proof.
  refine (inj_countable' (λ a, match a with V4 b => inl b | V6 b => inr b end)
                         (λ s, match s with inl b => V4 b | inr b => V6 b end) _).
  by intros [].
Defined.

(** [std::net::SocketAddr]; the flow label and scope of a V6 address are not
    looked at by the client and are left out. *)
Record SocketAddr : Type := mkSocketAddr {
  sa_ip : IpAddr;
  sa_port : Z;
}.

#[global] Instance SocketAddr_eq_dec : EqDecision SocketAddr.
Proof. solve_decision. Defined.
#[global] Instance SocketAddr_countable : Countable SocketAddr.
Proof.
  refine (inj_countable' (λ a, (sa_ip a, sa_port a)) (λ p, mkSocketAddr p.1 p.2) _).
  by intros [].
Defined.

(** [std::time::Duration] and [std::time::Instant], in nanoseconds. *)
Abbreviation Duration := Z (only parsing).
Abbreviation Instant := Z (only parsing).
Definition from_millis (n : Z) : Duration := n * 1000000.
Definition from_secs (n : Z) : Duration := n * 1000000000.
(** [Instant + Duration] panics past the largest [Instant], whose seconds are an [i64] on Unix. *)
Definition INSTANT_MAX : Instant := (2 ^ 63 - 1) * 1000000000 + 999999999.
(** [Instant::elapsed]: saturates at zero when the instant is in the future. *)
Definition elapsed (now since : Instant) : Duration := saturating_sub now since.

(** [http::Uri] through its accessors: [scheme_str], [authority], [host],
    [port_u16] and [path_and_query]. *)
Record Uri : Type := mkUri {
  uri_scheme_str : option string;
  uri_authority : option string;
  uri_host : option string;
  uri_port_u16 : option Z;
  uri_path_and_query : string;
}.

#[global] Instance Uri_eq_dec : EqDecision Uri.
Proof. solve_decision. Defined.

(** ** [str::parse::<IpAddr>]

    The textual forms [std::net] accepts: dotted decimal without leading zeros,
    and colon-separated hexadecimal groups with at most one [::] and an optional
    embedded IPv4 tail.  A reader takes text and returns a value and the rest. *)

Abbreviation reader A := (string → option (A * string)) (only parsing).

(** [Parser::read_number]: at most [max_digits] digits, the value at most [max]. *)
Definition read_number (radix : Z) (max_digits : nat) (max : Z) (allow_zero_prefix : bool)
    : reader Z := λ s,
  match read_digits radix 0 0 s with
  | (v, n, rest) =>
    let leading_zero := starts_with "0" s in
    if (n =? 0)%nat || (max_digits <? n)%nat then None
    else if negb allow_zero_prefix && leading_zero && (1 <? n)%nat then None
    else if max <? v then None
    else Some (v, rest)
  end.

Definition read_given_char (c : ascii) : reader unit := λ s,
  match s with
  | String a s => if bool_decide (a = c) then Some (tt, s) else None
  | EmptyString => None
  end.

(** [Parser::read_separator]: the separator is read before every part but the first. *)
Definition read_separator {A} (sep : ascii) (index : nat) (r : reader A) : reader A := λ s,
  if (0 <? index)%nat then
    match read_given_char sep s with Some (_, s) => r s | None => None end
  else r s.

Fixpoint read_octets (n index : nat) (acc : Z) (s : string) : option (Z * string) :=
  match n with
  | O => Some (acc, s)
  | S n =>
    match read_separator "."%char index (read_number 10 3 255 false) s with
    | Some (v, s) => read_octets n (S index) (acc * 256 + v) s
    | None => None
    end
  end.
Definition read_ipv4_addr : reader Z := λ s, read_octets 4 0 0 s.

(** [read_groups]: up to [n] groups from the [index]-th on; the groups read,
    whether they end in an IPv4 address, and the rest of the text. *)
Fixpoint read_groups (n index : nat) (s : string) : list Z * bool * string :=
  match n with
  | O => ([], false, s)
  | S n' =>
    let ipv4 := if (0 <? n')%nat then read_separator ":"%char index read_ipv4_addr s else None in
    match ipv4 with
    | Some (v, s) => ([v / 65536; v `mod` 65536], true, s)
    | None =>
      match read_separator ":"%char index (read_number 16 4 65535 true) s with
      | Some (g, s) =>
        let '(gs, v4, s) := read_groups n' (S index) s in (g :: gs, v4, s)
      | None => ([], false, s)
      end
    end
  end.

Definition groups_value (gs : list Z) : Z := foldl (λ acc g, acc * 65536 + g) 0 gs.

Definition read_ipv6_addr : reader Z := λ s,
  let '(head, head_ipv4, s) := read_groups 8 0 s in
  if (length head =? 8)%nat then Some (groups_value head, s)
  else if head_ipv4 then None
  else
    match read_given_char ":"%char s with
    | None => None
    | Some (_, s) =>
      match read_given_char ":"%char s with
      | None => None
      | Some (_, s) =>
        let '(tail, _, s) := read_groups (8 - (length head + 1)) 0 s in
        Some (groups_value (head ++ replicate (8 - length head - length tail) 0 ++ tail), s)
      end
    end.

Definition parse_ip (s : string) : option IpAddr :=
  match read_ipv4_addr s with
  | Some (v, EmptyString) => Some (V4 v)
  | Some _ => None
  | None =>
    match read_ipv6_addr s with
    | Some (v, EmptyString) => Some (V6 v)
    | _ => None
    end
  end.

Example parse_ip_v4 : parse_ip "127.0.0.1" = Some (V4 0x7F000001).
Proof. reflexivity. Qed.
Example parse_ip_v4_leading_zero : parse_ip "127.0.0.01" = None.
Proof. reflexivity. Qed.
Example parse_ip_v6_loopback : parse_ip "::1" = Some (V6 1).
Proof. reflexivity. Qed.
Example parse_ip_v6_tail : parse_ip "1:2::ffff:1.2.3.4" = Some (V6 0x00010002000000000000ffff01020304).
Proof. reflexivity. Qed.
Example parse_ip_name : parse_ip "example.com" = None.
Proof. reflexivity. Qed.

(** [IpAddr::is_loopback]: [127.0.0.0/8] or [::1]. *)
Definition is_loopback (ip : IpAddr) : bool :=
  match ip with
  | V4 b => Z.shiftr b 24 =? 127
  | V6 b => b =? 1
  end.

(** ** Ranges of parsed addresses *)

Lemma to_digit_range radix c d : to_digit radix c = Some d → 0 ≤ d < radix.
Proof.
  unfold to_digit. set (n := Z.of_nat _). assert (0 ≤ n) by (unfold n; lia).
  repeat case_match; intros; simplify_eq/=;
    repeat match goal with H : (_ && _) = true |- _ => apply andb_true_iff in H as [??] end; bool_lia.
Qed.

Lemma read_digits_nonneg radix acc n s v k rest :
  0 ≤ radix → 0 ≤ acc → read_digits radix acc n s = (v, k, rest) → 0 ≤ v.
Proof.
  intros Hr. revert acc n; induction s as [|c s IH]; intros acc n Ha; cbn; [by intros [= <- _ _]|].
  destruct (to_digit radix c) as [d|] eqn:E; [|by intros [= <- _ _]].
  apply to_digit_range in E. apply IH. nia.
Qed.

Lemma read_number_range radix md max z s v rest :
  0 ≤ radix → read_number radix md max z s = Some (v, rest) → 0 ≤ v ≤ max.
Proof.
  intros Hr. unfold read_number. destruct (read_digits radix 0 0 s) as [[v' k] rest'] eqn:E.
  apply read_digits_nonneg in E; [|lia..]. repeat case_match; intros; simplify_eq/=; bool_lia.
Qed.

Lemma read_separator_inv {A} sep i (r : string → option (A * string)) s v rest :
  read_separator sep i r s = Some (v, rest) → ∃ s', r s' = Some (v, rest).
Proof. unfold read_separator. repeat case_match; naive_solver. Qed.

Lemma read_octets_range n i acc m s v rest :
  0 ≤ acc < m → read_octets n i acc s = Some (v, rest) → 0 ≤ v < m * 256 ^ Z.of_nat n.
Proof.
  revert i acc m s; induction n as [|n IH]; intros i acc m s Ha; cbn [read_octets].
  - intros [= <- _]. change (256 ^ Z.of_nat 0) with 1. lia.
  - destruct (read_separator _ _ _ _) as [[o s']|] eqn:E; [|done].
    apply read_separator_inv in E as [s'' E]. apply read_number_range in E; [|lia].
    intros Hr. apply (IH _ _ (m * 256)) in Hr; [|lia].
    rewrite Nat2Z.inj_succ, Z.pow_succ_r by lia. lia.
Qed.

Lemma read_ipv4_range s v rest : read_ipv4_addr s = Some (v, rest) → 0 ≤ v < 2 ^ 32.
Proof. intros Hr. apply (read_octets_range _ _ _ 1) in Hr; [|lia]. change (256 ^ Z.of_nat 4) with (2 ^ 32) in Hr. lia. Qed.

Lemma read_groups_range n i s gs v4 rest :
  read_groups n i s = (gs, v4, rest) →
  (length gs ≤ n)%nat ∧ Forall (λ g, 0 ≤ g < 65536) gs.
Proof.
  revert i s gs v4 rest; induction n as [|n IH]; intros i s gs v4 rest; cbn [read_groups].
  { intros [= <- _ _]. split; [cbn; lia|constructor]. }
  destruct (if (0 <? n)%nat then _ else _) as [[v s']|] eqn:E.
  - intros [= <- _ _]. destruct (Nat.ltb_spec 0 n) as [Hn|]; [|done].
    apply read_separator_inv in E as [? E]. apply read_ipv4_range in E.
    split; [cbn; lia|]. repeat constructor;
      [apply Z.div_pos; lia|apply Z.div_lt_upper_bound; lia|apply Z.mod_pos_bound; lia..].
  - destruct (read_separator _ _ (read_number _ _ _ _) s) as [[g s']|] eqn:E'.
    + apply read_separator_inv in E' as [? E']. apply read_number_range in E'; [|lia].
      destruct (read_groups n (S i) s') as [[gs' v4'] s''] eqn:Eg. intros [= <- _ _].
      apply IH in Eg as [Hl Hg]. split; [cbn; lia|]. constructor; [lia|done].
    + intros [= <- _ _]. split; [cbn; lia|constructor].
Qed.

Lemma groups_value_range gs :
  Forall (λ g, 0 ≤ g < 65536) gs → 0 ≤ groups_value gs < 65536 ^ len gs.
Proof.
  induction gs as [|g gs IH] using rev_ind; intros Hg.
  - change (65536 ^ len (@nil Z)) with 1. unfold groups_value. cbn. lia.
  - apply Forall_app in Hg as [Hgs Hg]. apply Forall_cons in Hg as [Hg _]. specialize (IH Hgs).
    unfold groups_value in *. rewrite foldl_app, len_app. cbn [foldl].
    replace (len gs + len [g]) with (Z.succ (len gs)) by (unfold len; cbn; lia).
    rewrite Z.pow_succ_r by apply len_nonneg. lia.
Qed.

Lemma read_ipv6_range s v rest : read_ipv6_addr s = Some (v, rest) → 0 ≤ v < 2 ^ 128.
Proof.
  assert (H8 : ∀ gs, Forall (λ g, 0 ≤ g < 65536) gs → length gs = 8%nat → 0 ≤ groups_value gs < 2 ^ 128).
  { intros gs Hgs Hl. apply groups_value_range in Hgs. unfold len in Hgs. rewrite Hl in Hgs.
    change (65536 ^ Z.of_nat 8) with (2 ^ 128) in Hgs. lia. }
  unfold read_ipv6_addr. destruct (read_groups 8 0 s) as [[hd h4] s1] eqn:Eh.
  apply read_groups_range in Eh as [Hl Hg].
  destruct (Nat.eqb_spec (length hd) 8); [intros [= <- _]; by apply H8|].
  destruct h4; [done|]. destruct (read_given_char _ s1) as [[? s2]|]; [|done].
  destruct (read_given_char _ s2) as [[? s3]|]; [|done].
  destruct (read_groups _ 0 s3) as [[tl t4] s4] eqn:Et. apply read_groups_range in Et as [Hlt Hgt].
  intros [= <- _]. apply H8.
  - apply Forall_app. split; [done|]. apply Forall_app. split; [|done].
    apply Forall_replicate. lia.
  - rewrite !length_app, length_replicate. lia.
Qed.

Lemma parse_ip_range s ip :
  parse_ip s = Some ip →
  match ip with V4 a => 0 ≤ a < 2 ^ 32 | V6 a => 0 ≤ a < 2 ^ 128 end.
Proof.
  unfold parse_ip. destruct (read_ipv4_addr s) as [[v [|]]|] eqn:E4; [|done|].
  - intros [= <-]. by eapply read_ipv4_range.
  - destruct (read_ipv6_addr s) as [[v [|]]|] eqn:E6; [|done..]. intros [= <-]. by eapply read_ipv6_range.
Qed.
