(* ===== verification/Error.v ===== *)
(** * [WireError]: kinds, phases and the builders (openwire-core/src/error.rs)

    A source error is kept as the text it displays; the [dyn Error] value itself
    is opaque to the client. *)

From S2P Require Import Prelude Net.

(** [WireErrorKind], openwire-core/error.rs:12-26. *)
Inductive WireErrorKind : Type :=
| Kind_InvalidRequest | Kind_Timeout | Kind_Canceled | Kind_Dns | Kind_Connect | Kind_Tls
| Kind_Protocol | Kind_Redirect | Kind_Body | Kind_Interceptor | Kind_Capacity | Kind_Internal.

(** [FailurePhase], openwire-core/error.rs:49-64. *)
Inductive FailurePhase : Type :=
| Phase_RequestValidation | Phase_Admission | Phase_Dns | Phase_Tcp | Phase_ProxyTunnel
| Phase_Tls | Phase_ProtocolBinding | Phase_RequestExchange | Phase_ResponseHeaders
| Phase_ResponseBody | Phase_Policy | Phase_Interceptor | Phase_Internal.

(** [EstablishmentStage], openwire-core/error.rs:88-96. *)
Inductive EstablishmentStage : Type :=
| Stage_Dns | Stage_Tcp | Stage_Tls | Stage_ProtocolBinding | Stage_ProxyTunnel
| Stage_RouteExhausted.

#[global] Instance WireErrorKind_eq_dec : EqDecision WireErrorKind.
Proof. solve_decision. Defined.
#[global] Instance FailurePhase_eq_dec : EqDecision FailurePhase.
Proof. solve_decision. Defined.
#[global] Instance EstablishmentStage_eq_dec : EqDecision EstablishmentStage.
Proof. solve_decision. Defined.

(** [Display for WireErrorKind], openwire-core/error.rs:28-47. *)
Definition kind_label (k : WireErrorKind) : string :=
  match k with
  | Kind_InvalidRequest => "invalid request"
  | Kind_Timeout => "timeout"
  | Kind_Canceled => "canceled"
  | Kind_Dns => "dns"
  | Kind_Connect => "connect"
  | Kind_Tls => "tls"
  | Kind_Protocol => "protocol"
  | Kind_Redirect => "redirect"
  | Kind_Body => "body"
  | Kind_Interceptor => "interceptor"
  | Kind_Capacity => "capacity"
  | Kind_Internal => "internal"
  end.

(** [Display for FailurePhase], openwire-core/error.rs:66-86. *)
Definition phase_label (p : FailurePhase) : string :=
  match p with
  | Phase_RequestValidation => "request_validation"
  | Phase_Admission => "admission"
  | Phase_Dns => "dns"
  | Phase_Tcp => "tcp"
  | Phase_ProxyTunnel => "proxy_tunnel"
  | Phase_Tls => "tls"
  | Phase_ProtocolBinding => "protocol_binding"
  | Phase_RequestExchange => "request_exchange"
  | Phase_ResponseHeaders => "response_headers"
  | Phase_ResponseBody => "response_body"
  | Phase_Policy => "policy"
  | Phase_Interceptor => "interceptor"
  | Phase_Internal => "internal"
  end.

(** [EstablishmentContext], openwire-core/error.rs:98-103. *)
Record EstablishmentContext : Type := mkEstablishmentContext {
  stage : EstablishmentStage;
  retryable : bool;
  connect_timeout_flag : bool;
}.

(** [WireErrorDiagnostics], openwire-core/error.rs:105-111. *)
Record WireErrorDiagnostics : Type := mkWireErrorDiagnostics {
  diag_authority : option string;
  diag_proxy_addr : option SocketAddr;
  diag_response_status : option Z;
  diag_request_committed : bool;
}.

Definition default_diagnostics : WireErrorDiagnostics :=
  mkWireErrorDiagnostics None None None false.

(** [WireError], openwire-core/error.rs:131-139. *)
Record WireError : Type := mkWireError {
  kind : WireErrorKind;
  phase : FailurePhase;
  message : string;
  diagnostics : WireErrorDiagnostics;
  establishment : option EstablishmentContext;
  source : option string;
}.

#[global] Instance EstablishmentContext_eq_dec : EqDecision EstablishmentContext.
Proof. solve_decision. Defined.
#[global] Instance WireErrorDiagnostics_eq_dec : EqDecision WireErrorDiagnostics.
Proof. solve_decision. Defined.
#[global] Instance WireError_eq_dec : EqDecision WireError.
Proof. solve_decision. Defined.

(** [default_phase], openwire-core/error.rs:449-464. *)
Definition default_phase (k : WireErrorKind) : FailurePhase :=
  match k with
  | Kind_InvalidRequest => Phase_RequestValidation
  | Kind_Timeout => Phase_RequestExchange
  | Kind_Canceled => Phase_RequestExchange
  | Kind_Dns => Phase_Dns
  | Kind_Connect => Phase_Tcp
  | Kind_Tls => Phase_Tls
  | Kind_Protocol => Phase_RequestExchange
  | Kind_Redirect => Phase_Policy
  | Kind_Body => Phase_ResponseBody
  | Kind_Interceptor => Phase_Interceptor
  | Kind_Capacity => Phase_Admission
  | Kind_Internal => Phase_Internal
  end.

(** [phase_for_establishment], openwire-core/error.rs:466-474. *)
Definition phase_for_establishment (s : EstablishmentStage) : FailurePhase :=
  match s with
  | Stage_Dns => Phase_Dns
  | Stage_Tcp | Stage_RouteExhausted => Phase_Tcp
  | Stage_Tls => Phase_Tls
  | Stage_ProtocolBinding => Phase_ProtocolBinding
  | Stage_ProxyTunnel => Phase_ProxyTunnel
  end.

(** [Display for WireError], openwire-core/error.rs:141-149. *)
Definition display (e : WireError) : string :=
  (kind_label (kind e) +:+ ": " +:+ message e +:+
   match source e with Some s => ": " +:+ s | None => "" end)%string.

(** [WireError::new], openwire-core/error.rs:160-169. *)
Definition error_new (k : WireErrorKind) (m : string) : WireError :=
  mkWireError k (default_phase k) m default_diagnostics None None.

(** [WireError::with_source], openwire-core/error.rs:171-187. *)
Definition with_source (k : WireErrorKind) (m src : string) : WireError :=
  mkWireError k (default_phase k) m default_diagnostics None (Some src).

(** [WireError::request_committed], openwire-core/error.rs:217-219. *)
Definition request_committed (e : WireError) : bool := diag_request_committed (diagnostics e).

(** [WireError::establishment_stage], openwire-core/error.rs:221-223. *)
Definition establishment_stage (e : WireError) : option EstablishmentStage :=
  stage <$> establishment e.

(** [WireError::is_retryable_establishment], openwire-core/error.rs:225-227. *)
Definition is_retryable_establishment (e : WireError) : bool :=
  match establishment e with Some c => retryable c | None => false end.

(** [WireError::is_connect_timeout], openwire-core/error.rs:229-232. *)
Definition is_connect_timeout (e : WireError) : bool :=
  match establishment e with Some c => connect_timeout_flag c | None => false end.

(** [WireError::is_non_retryable_connect], openwire-core/error.rs:234-237. *)
Definition is_non_retryable_connect (e : WireError) : bool :=
  match establishment e with
  | Some c => bool_decide (stage c = Stage_Tcp) && negb (retryable c)
  | None => false
  end.

(** [WireError::with_phase], openwire-core/error.rs:369-372. *)
Definition with_phase (p : FailurePhase) (e : WireError) : WireError :=
  mkWireError (kind e) p (message e) (diagnostics e) (establishment e) (source e).

Definition with_diagnostics (d : WireErrorDiagnostics) (e : WireError) : WireError :=
  mkWireError (kind e) (phase e) (message e) d (establishment e) (source e).

(** [WireError::with_authority], openwire-core/error.rs:374-377. *)
Definition with_authority (a : string) (e : WireError) : WireError :=
  let d := diagnostics e in
  with_diagnostics (mkWireErrorDiagnostics (Some a) (diag_proxy_addr d)
    (diag_response_status d) (diag_request_committed d)) e.

(** [WireError::with_authority_from_uri], openwire-core/error.rs:379-384. *)
Definition with_authority_from_uri (u : Uri) (e : WireError) : WireError :=
  match uri_authority u with Some a => with_authority a e | None => e end.

(** [WireError::with_proxy_addr], openwire-core/error.rs:386-389. *)
Definition with_proxy_addr (a : SocketAddr) (e : WireError) : WireError :=
  let d := diagnostics e in
  with_diagnostics (mkWireErrorDiagnostics (diag_authority d) (Some a)
    (diag_response_status d) (diag_request_committed d)) e.

(** [WireError::with_response_status], openwire-core/error.rs:391-394. *)
Definition with_response_status (s : Z) (e : WireError) : WireError :=
  let d := diagnostics e in
  with_diagnostics (mkWireErrorDiagnostics (diag_authority d) (diag_proxy_addr d)
    (Some s) (diag_request_committed d)) e.

(** [WireError::with_request_committed], openwire-core/error.rs:396-399. *)
Definition with_request_committed (e : WireError) : WireError :=
  let d := diagnostics e in
  with_diagnostics (mkWireErrorDiagnostics (diag_authority d) (diag_proxy_addr d)
    (diag_response_status d) true) e.

(** [WireError::with_establishment], openwire-core/error.rs:401-409. *)
Definition with_establishment (s : EstablishmentStage) (r : bool) (e : WireError) : WireError :=
  mkWireError (kind e) (phase_for_establishment s) (message e) (diagnostics e)
    (Some (mkEstablishmentContext s r false)) (source e).

(** [WireError::with_connect_timeout], openwire-core/error.rs:411-416. *)
Definition with_connect_timeout (e : WireError) : WireError :=
  mkWireError (kind e) (phase e) (message e) (diagnostics e)
    ((λ c, mkEstablishmentContext (stage c) (retryable c) true) <$> establishment e) (source e).

(** [WireError::invalid_request], openwire-core/error.rs:239-241. *)
Definition invalid_request (m : string) : WireError := error_new Kind_InvalidRequest m.
(** [WireError::timeout], openwire-core/error.rs:243-245. *)
Definition timeout (m : string) : WireError := error_new Kind_Timeout m.
(** [WireError::body_timeout], openwire-core/error.rs:247-251. *)
Definition body_timeout (m : string) : WireError :=
  with_request_committed (with_phase Phase_ResponseBody (error_new Kind_Timeout m)).
(** [WireError::connect_timeout], openwire-core/error.rs:253-257. *)
Definition connect_timeout (m : string) : WireError :=
  with_connect_timeout (with_establishment Stage_Tcp true (error_new Kind_Timeout m)).
(** [WireError::canceled], openwire-core/error.rs:259-261. *)
Definition canceled (m : string) : WireError := error_new Kind_Canceled m.
(** [WireError::dns], openwire-core/error.rs:263-269. *)
Definition dns (m src : string) : WireError :=
  with_establishment Stage_Dns true (with_source Kind_Dns m src).
(** [WireError::connect], openwire-core/error.rs:271-276. *)
Definition connect (m src : string) : WireError := with_source Kind_Connect m src.
(** [WireError::tcp_connect], openwire-core/error.rs:278-284. *)
Definition tcp_connect (m src : string) : WireError :=
  with_establishment Stage_Tcp true (with_source Kind_Connect m src).
(** [WireError::connect_non_retryable], openwire-core/error.rs:286-289. *)
Definition connect_non_retryable (m : string) : WireError :=
  with_establishment Stage_Tcp false (error_new Kind_Connect m).
(** [WireError::tls], openwire-core/error.rs:291-297. *)
Definition tls (m src : string) : WireError :=
  with_establishment Stage_Tls true (with_source Kind_Tls m src).
(** [WireError::tls_non_retryable], openwire-core/error.rs:299-305. *)
Definition tls_non_retryable (m src : string) : WireError :=
  with_establishment Stage_Tls false (with_source Kind_Tls m src).
(** [WireError::protocol], openwire-core/error.rs:307-312. *)
Definition protocol (m src : string) : WireError := with_source Kind_Protocol m src.
(** [WireError::protocol_binding], openwire-core/error.rs:314-320. *)
Definition protocol_binding (m src : string) : WireError :=
  with_establishment Stage_ProtocolBinding true (with_source Kind_Protocol m src).
(** [WireError::proxy_tunnel], openwire-core/error.rs:322-328. *)
Definition proxy_tunnel (m src : string) : WireError :=
  with_establishment Stage_ProxyTunnel true (with_source Kind_Connect m src).
(** [WireError::proxy_tunnel_non_retryable], openwire-core/error.rs:330-333. *)
Definition proxy_tunnel_non_retryable (m : string) : WireError :=
  with_establishment Stage_ProxyTunnel false (error_new Kind_Connect m).
(** [WireError::route_exhausted], openwire-core/error.rs:335-338. *)
Definition route_exhausted (m : string) : WireError :=
  with_establishment Stage_RouteExhausted true (error_new Kind_Connect m).
(** [WireError::redirect], openwire-core/error.rs:340-342. *)
Definition redirect (m : string) : WireError := error_new Kind_Redirect m.
(** [WireError::body], openwire-core/error.rs:344-349. *)
Definition body (m src : string) : WireError :=
  with_request_committed (with_source Kind_Body m src).
(** [WireError::interceptor], openwire-core/error.rs:351-356. *)
Definition interceptor (m src : string) : WireError := with_source Kind_Interceptor m src.
(** [WireError::capacity], openwire-core/error.rs:358-360. *)
Definition capacity (m : string) : WireError := error_new Kind_Capacity m.
(** [WireError::internal], openwire-core/error.rs:362-367. *)
Definition internal (m src : string) : WireError := with_source Kind_Internal m src.
