(* ===== verification/Http.v ===== *)
(** * HTTP values

    What the components look at of the http crate - header maps, methods, status codes - and the
    request body of openwire-core/src/body.rs.  The header map belongs to the crate: it is the class
    [HeaderMap], with the documented meaning of its operations as [HeaderMapLaws].  A header value is its
    text as bytes; whether it is visible ASCII ([HeaderValue::to_str]) is a parameter where it matters. *)

From S2P Require Import Prelude Net Error.

(** [http::Method]: the two methods the code names, and any other. *)
Inductive Method : Type := Method_GET | Method_HEAD | Method_Other (name : string).

#[global] Instance Method_eq_dec : EqDecision Method.
Proof. solve_decision. Defined.

(** The [StatusCode]s the code names. *)
Definition MOVED_PERMANENTLY : Z := 301.
Definition FOUND : Z := 302.
Definition SEE_OTHER : Z := 303.
Definition TEMPORARY_REDIRECT : Z := 307.
Definition PERMANENT_REDIRECT : Z := 308.
Definition UNAUTHORIZED : Z := 401.
Definition PROXY_AUTHENTICATION_REQUIRED : Z := 407.
Definition REQUEST_TIMEOUT : Z := 408.
Definition MISDIRECTED_REQUEST : Z := 421.
Definition SERVICE_UNAVAILABLE : Z := 503.

Definition SWITCHING_PROTOCOLS : Z := 101.
Definition STATUS_OK : Z := 200.
Definition NOT_MODIFIED : Z := 304.
Definition GATEWAY_TIMEOUT : Z := 504.

(** [StatusCode::is_success] and [StatusCode::is_redirection]. *)
Definition is_success (s : Z) : bool := (200 <=? s) && (s <? 300).
Definition is_redirection (s : Z) : bool := (300 <=? s) && (s <? 400).

(** ** Header maps *)

(** [http::HeaderMap], by lower-case names. *)
Class HeaderMap (H : Type) : Type := {
  hm_get_all : string → H → list string;
  hm_insert : string → string → H → H;
  hm_remove : string → H → H;
  hm_append : string → string → H → H;
  hm_keys : H → list string;
}.

Class HeaderMapLaws (H : Type) `{HeaderMap H} : Prop := {
  hm_remove_eq : ∀ k h, hm_get_all k (hm_remove k h) = [];
  hm_remove_ne : ∀ k k' h, k ≠ k' → hm_get_all k' (hm_remove k h) = hm_get_all k' h;
  hm_insert_eq : ∀ k v h, hm_get_all k (hm_insert k v h) = [v];
  hm_insert_ne : ∀ k k' v h, k ≠ k' → hm_get_all k' (hm_insert k v h) = hm_get_all k' h;
  hm_append_eq : ∀ k v h, hm_get_all k (hm_append k v h) = hm_get_all k h ++ [v];
  hm_append_ne : ∀ k k' v h, k ≠ k' → hm_get_all k' (hm_append k v h) = hm_get_all k' h;
  hm_keys_spec : ∀ k h, k ∈ hm_keys h ↔ hm_get_all k h ≠ [];
  hm_keys_NoDup : ∀ h, NoDup (hm_keys h);
}.

(** [HeaderMap::get] and [HeaderMap::contains_key]. *)
Definition hm_get {H} `{HeaderMap H} (k : string) (h : H) : option string := head (hm_get_all k h).
Definition hm_contains {H} `{HeaderMap H} (k : string) (h : H) : bool := negb (bool_decide (hm_get_all k h = [])).

(** A list of fields is a header map. *)
#[global] Instance list_header_map : HeaderMap (list (string * string)) := {|
  hm_get_all k h := snd <$> filter (λ f, f.1 = k) h;
  hm_insert k v h := (k, v) :: filter (λ f, f.1 ≠ k) h;
  hm_remove k h := filter (λ f, f.1 ≠ k) h;
  hm_append k v h := h ++ [(k, v)];
  hm_keys h := dedup (fst <$> h);
|}.
#[global] Instance list_header_map_laws : HeaderMapLaws (list (string * string)).
Proof.
  assert (Hne : ∀ (k k' : string) (h : list (string * string)), k ≠ k' →
            filter (λ f, f.1 = k') (filter (λ f, f.1 ≠ k) h) = filter (λ f, f.1 = k') h).
  { intros k k' h Hk. rewrite list_filter_filter. apply filter_ext_in. intros f _. naive_solver. }
  assert (Heq : ∀ (k : string) (h : list (string * string)), filter (λ f, f.1 = k) (filter (λ f, f.1 ≠ k) h) = []).
  { intros k h. apply filter_nil_all. intros f Hf. apply list_elem_of_filter in Hf. tauto. }
  constructor; unfold hm_get_all, hm_insert, hm_remove, hm_append, hm_keys; cbn [list_header_map]; intros.
  - by rewrite Heq.
  - by rewrite Hne.
  - rewrite filter_cons_True by done. by rewrite Heq.
  - rewrite filter_cons_False by done. by rewrite Hne.
  - rewrite filter_app, filter_cons_True, filter_nil by done. by rewrite fmap_app.
  - rewrite filter_app, filter_cons_False, filter_nil by done. by rewrite app_nil_r.
  - rewrite elem_of_dedup, list_elem_of_fmap. split.
    + intros ([k' v] & -> & Hin) Hnil. apply fmap_nil_inv in Hnil.
      apply (not_elem_of_nil (k', v)). rewrite <- Hnil. by apply list_elem_of_filter.
    + destruct (filter _ h) as [|f l] eqn:E; [done|]. intros _. exists f.
      assert (f ∈ filter (λ f, f.1 = k) h) as Hf by (rewrite E; left).
      apply list_elem_of_filter in Hf as [<- ?]. done.
  - apply dedup_NoDup.
Qed.

Section Headers.
#[local] Set Default Proof Using "Type*".
Context {H : Type} `{HeaderMapLaws H}.

Lemma hm_get_all_remove (name k : string) (h : H) :
  hm_get_all name (hm_remove k h) = if bool_decide (name = k) then [] else hm_get_all name h.
Proof.
  case_bool_decide; [subst; apply hm_remove_eq|]. apply hm_remove_ne. congruence.
Qed.

Lemma hm_get_all_remove_all (name : string) ks (h : H) :
  hm_get_all name (foldl (λ h k, hm_remove k h) h ks) =
  if bool_decide (name ∈ ks) then [] else hm_get_all name h.
Proof.
  revert h. induction ks as [|k ks IH]; intros h; cbn [foldl]; [done|].
  rewrite IH, hm_get_all_remove. repeat case_bool_decide; set_solver.
Qed.

Lemma hm_get_all_insert (name k v : string) (h : H) :
  hm_get_all name (hm_insert k v h) = if bool_decide (name = k) then [v] else hm_get_all name h.
Proof.
  case_bool_decide; [subst; apply hm_insert_eq|]. apply hm_insert_ne. congruence.
Qed.

Lemma hm_get_all_append_all (name k : string) vs (h : H) :
  hm_get_all name (foldl (λ h v, hm_append k v h) h vs) =
  hm_get_all name h ++ (if bool_decide (name = k) then vs else []).
Proof.
  revert h. induction vs as [|v vs IH]; intros h; cbn [foldl].
  - case_bool_decide; by rewrite app_nil_r.
  - rewrite IH. case_bool_decide; [subst|by rewrite hm_append_ne].
    rewrite hm_append_eq, <- app_assoc. done.
Qed.

Lemma hm_contains_spec (k : string) (h : H) : hm_contains k h = true ↔ hm_get_all k h ≠ [].
Proof. unfold hm_contains. rewrite negb_true_iff. apply bool_decide_eq_false. Qed.

End Headers.

(** ** Request bodies *)

(** [RequestBody], openwire-core/body.rs:17-25: absent, explicitly empty, bytes, or a
    stream that can be sent once.  Its constructors [absent], [explicit_empty], [from_bytes] and
    [from_stream] fix [replayable_len] and the presence. *)
Inductive RequestBody : Type :=
| Body_Absent
| Body_ExplicitEmpty
| Body_Bytes (bs : bytes)
| Body_Streaming.

(** [RequestBody::try_clone], openwire-core/body.rs:89-98. *)
Definition try_clone (b : RequestBody) : option RequestBody :=
  match b with
  | Body_Absent => Some Body_Absent
  | Body_ExplicitEmpty => Some Body_ExplicitEmpty
  | Body_Bytes bs => Some (Body_Bytes bs)
  | Body_Streaming => None
  end.

(** [RequestBody::replayable_len], openwire-core/body.rs:100-102. *)
Definition replayable_len (b : RequestBody) : option Z :=
  match b with
  | Body_Absent | Body_ExplicitEmpty => Some 0
  | Body_Bytes bs => Some (len bs)
  | Body_Streaming => None
  end.

(** [RequestBody::is_absent], openwire-core/body.rs:104-106. *)
Definition is_absent (b : RequestBody) : bool := match b with Body_Absent => true | _ => false end.

Lemma try_clone_Some b b' : try_clone b = Some b' → b' = b.
Proof. destruct b; naive_solver. Qed.

Lemma try_clone_None b : try_clone b = None ↔ b = Body_Streaming.
Proof. by destruct b. Qed.
