(* ===== verification/WsCodec.v ===== *)
(** * WebSocket frames: the codec of the native engine

    openwire/src/websocket/native/codec.rs and mask.rs, with the engine error
    type of openwire-core/src/websocket/error.rs.  A buffer is a list of bytes;
    [decode_frame] returns the frame it read together with the buffer it leaves
    behind, since the source splits the payload off a [&mut BytesMut]. *)

From S2P Require Import Prelude Net Error.

(** [WebSocketEngineError], openwire-core/websocket/error.rs:50-69. *)
Inductive WebSocketEngineError : Type :=
| InvalidFrame (m : string)
| InvalidUtf8
| InvalidCloseCode (code : Z)
| PayloadTooLarge (limit received : Z)
| UnsupportedExtension (m : string)
| Io (e : WireError).

(** [Opcode], openwire/websocket/native/codec.rs:5-14. *)
Inductive Opcode : Type :=
| Continuation | Text | Binary | Close | Ping | Pong.

#[global] Instance WebSocketEngineError_eq_dec : EqDecision WebSocketEngineError.
Proof. solve_decision. Defined.
#[global] Instance Opcode_eq_dec : EqDecision Opcode.
Proof. solve_decision. Defined.

(** [Opcode as u8], openwire/websocket/native/codec.rs:8-13. *)
Definition opcode_byte (o : Opcode) : Z :=
  match o with
  | Continuation => 0x0
  | Text => 0x1
  | Binary => 0x2
  | Close => 0x8
  | Ping => 0x9
  | Pong => 0xA
  end.

(** [Opcode::from_byte], openwire/websocket/native/codec.rs:17-27. *)
Definition from_byte (b : Z) : option Opcode :=
  match Z.land b 0x0F with
  | 0x0 => Some Continuation
  | 0x1 => Some Text
  | 0x2 => Some Binary
  | 0x8 => Some Close
  | 0x9 => Some Ping
  | 0xA => Some Pong
  | _ => None
  end.

(** [Opcode::is_control], openwire/websocket/native/codec.rs:29-31. *)
Definition is_control (o : Opcode) : bool :=
  match o with Close | Ping | Pong => true | _ => false end.

(** [FrameHeader], openwire/websocket/native/codec.rs:34-38. *)
Record FrameHeader : Type := mkFrameHeader {
  h_fin : bool;
  h_opcode : Opcode;
}.

(** [DecodedFrame], openwire/websocket/native/codec.rs:40-45. *)
Record DecodedFrame : Type := mkDecodedFrame {
  fin : bool;
  opcode : Opcode;
  payload : bytes;
}.

#[global] Instance DecodedFrame_eq_dec : EqDecision DecodedFrame.
Proof. solve_decision. Defined.

(** A [[u8; 4]] masking key. *)
Record MaskKey : Type := mkMaskKey { k0 : Z; k1 : Z; k2 : Z; k3 : Z }.
Definition key_bytes (k : MaskKey) : bytes := [k0 k; k1 k; k2 k; k3 k].
Definition key_at (k : MaskKey) (i : nat) : Z := key_bytes k !!! i.

(** [mask_in_place], openwire/websocket/native/mask.rs:1-5. *)
Definition mask_in_place (p : bytes) (k : MaskKey) : bytes :=
  imap (λ index byte, Z.lxor byte (key_at k (index `mod` 4)%nat)) p.

(** [put_u16]/[put_u64] and [from_be_bytes]: [n] bytes, most significant first,
    of the low [8 * n] bits. *)
Fixpoint be_bytes (n : nat) (v : Z) : bytes :=
  match n with
  | O => []
  | S n => be_bytes n (v / 256) ++ [v `mod` 256]
  end.
Definition be_value (bs : bytes) : Z := foldl (λ acc b, acc * 256 + b) 0 bs.

Definition flag (b : bool) (v : Z) : Z := if b then v else 0x00.

(** [encode_frame], openwire/websocket/native/codec.rs:47-76. *)
Definition encode_frame (out : bytes) (header : FrameHeader) (pl : bytes)
    (mask : option MaskKey) : bytes :=
  let b0 := Z.lor (flag (h_fin header) 0x80) (opcode_byte (h_opcode header)) in
  let mask_bit := flag (bool_decide (is_Some mask)) 0x80 in
  let n := len pl in
  let head :=
    if n <=? 125 then [Z.lor mask_bit n]
    else if n <=? U16_MAX then Z.lor mask_bit 126 :: be_bytes 2 n
    else Z.lor mask_bit 127 :: be_bytes 8 n in
  out ++ [b0] ++ head ++
  match mask with
  | Some key => key_bytes key ++ mask_in_place pl key
  | None => pl
  end.

Definition bit_set (b m : Z) : bool := negb (Z.land b m =? 0).

(** The length field of [decode_frame], openwire/websocket/native/codec.rs:111-152:
    the header and payload lengths, or [None] when more input is needed. *)
Definition decode_length (buf : bytes) (b1 max_frame_size : Z)
    : outcome WebSocketEngineError (option (Z * Z)) :=
  let len_field := Z.land b1 0x7F in
  if len_field <=? 125 then Ok (Some (2, len_field))
  else if len_field =? 126 then
    if len buf <? 4 then Ok None else
    let payload_len := be_value [buf !!! 2%nat; buf !!! 3%nat] in
    if payload_len <=? 125 then Err (InvalidFrame "non-minimal payload length encoding")
    else Ok (Some (4, payload_len))
  else if len_field =? 127 then
    if len buf <? 10 then Ok None else
    let payload_len := be_value (take 8 (drop 2 buf)) in
    if bit_set payload_len (Z.shiftl 1 63) then
      Err (InvalidFrame "invalid 64-bit payload length")
    else if payload_len <=? U16_MAX then
      Err (InvalidFrame "non-minimal payload length encoding")
    else if USIZE_MAX <? payload_len then
      Err (PayloadTooLarge max_frame_size USIZE_MAX)
    else Ok (Some (10, payload_len))
  else Panic.

(** The checks of [decode_frame] up to the split,
    openwire/websocket/native/codec.rs:82-168. *)
Definition decode_header (buf : bytes) (max_frame_size : Z)
    : outcome WebSocketEngineError (option (bool * Opcode * Z * Z)) :=
  if len buf <? 2 then Ok None else
  let b0 := buf !!! 0%nat in
  let b1 := buf !!! 1%nat in
  let fin := bit_set b0 0x80 in
  let rsv := Z.land b0 0x70 in
  if negb (rsv =? 0) then Err (InvalidFrame "reserved bits set") else
  match from_byte b0 with
  | None => Err (InvalidFrame "unknown opcode")
  | Some opcode =>
    let mask_bit := bit_set b1 0x80 in
    if mask_bit then Err (InvalidFrame "server frames must not be masked") else
    if is_control opcode && negb fin then Err (InvalidFrame "fragmented control frame") else
    let? lens := decode_length buf b1 max_frame_size in
    match lens with
    | None => Ok None
    | Some (header_len, payload_len) =>
      if is_control opcode && (125 <? payload_len) then
        Err (InvalidFrame "control frame > 125 bytes")
      else if max_frame_size <? payload_len then
        Err (PayloadTooLarge max_frame_size payload_len)
      else if len buf <? header_len + payload_len then Ok None
      else Ok (Some (fin, opcode, header_len, payload_len))
    end
  end.

(** [decode_frame], openwire/websocket/native/codec.rs:78-177. *)
Definition decode_frame (buf : bytes) (max_frame_size : Z)
    : outcome WebSocketEngineError (option DecodedFrame) * bytes :=
  match decode_header buf max_frame_size with
  | Ok None => (Ok None, buf)
  | Err e => (Err e, buf)
  | Panic => (Panic, buf)
  | Ok (Some (fin, opcode, header_len, payload_len)) =>
    let buf := drop (Z.to_nat header_len) buf in
    let pl := take (Z.to_nat payload_len) buf in
    (Ok (Some (mkDecodedFrame fin opcode pl)), drop (Z.to_nat payload_len) buf)
  end.

(** ** What is a well-formed frame

    RFC 6455, section 5: control frames are not fragmented and carry at most
    125 bytes; a payload length fits 63 bits. *)
Definition frame_ok (f : DecodedFrame) : Prop :=
  bytes_ok (payload f) ∧ len (payload f) < 2 ^ 63 ∧
  (is_control (opcode f) = true → fin f = true ∧ len (payload f) ≤ 125).

(** The bytes of an unmasked frame. *)
Definition frame_bytes (f : DecodedFrame) : bytes :=
  encode_frame [] (mkFrameHeader (fin f) (opcode f)) (payload f) None.

(** ** Examples *)

Example encodes_short_text_frame :
  encode_frame [] (mkFrameHeader true Text) [104; 105] (Some (mkMaskKey 1 2 3 4))
  = [0x81; 0x82; 1; 2; 3; 4; 105; 107].
Proof. reflexivity. Qed.

Example decodes_unmasked_text_frame :
  decode_frame [0x81; 0x02; 104; 105; 7] 100 = (Ok (Some (mkDecodedFrame true Text [104; 105])), [7]).
Proof. reflexivity. Qed.

(** ** Big-endian integers *)

Lemma be_value_snoc l b : be_value (l ++ [b]) = be_value l * 256 + b.
Proof. unfold be_value. by rewrite foldl_app. Qed.

Lemma length_be_bytes n v : length (be_bytes n v) = n.
Proof. revert v; induction n; intros v; simpl; rewrite ?length_app, ?IHn; simpl; lia. Qed.

Lemma be_bytes_ok n v : bytes_ok (be_bytes n v).
Proof.
  revert v; induction n; intros v; simpl; [constructor|].
  apply bytes_ok_app; split; [done|]. repeat constructor; apply Z.mod_pos_bound; lia.
Qed.

Lemma be_value_be_bytes n v : 0 ≤ v < 256 ^ Z.of_nat n → be_value (be_bytes n v) = v.
Proof.
  revert v; induction n as [|n IH]; intros v Hv; simpl be_bytes.
  - change (256 ^ Z.of_nat 0) with 1 in Hv. unfold be_value; simpl; lia.
  - rewrite be_value_snoc, IH; [pose proof (Z.div_mod v 256 ltac:(done)); lia|].
    rewrite Nat2Z.inj_succ, Z.pow_succ_r in Hv by lia.
    split; [apply Z.div_pos; lia|apply Z.div_lt_upper_bound; lia].
Qed.

Lemma be_value_bound l : bytes_ok l → 0 ≤ be_value l < 256 ^ len l.
Proof.
  induction l as [|b l IH] using rev_ind; intros Hl.
  - change (256 ^ len (@nil Z)) with 1. unfold be_value; simpl; lia.
  - apply bytes_ok_app in Hl as [Hl Hb]. inversion_clear Hb as [|? ? Hb' _].
    unfold is_byte in Hb'. rewrite be_value_snoc, len_app. autorewrite with len.
    replace (len l + (1 + 0)) with (Z.succ (len l)) by lia.
    rewrite Z.pow_succ_r by apply len_nonneg. specialize (IH Hl). lia.
Qed.

Lemma be_bytes_be_value l : bytes_ok l → be_bytes (length l) (be_value l) = l.
Proof.
  induction l as [|b l IH] using rev_ind; intros Hl; [done|].
  apply bytes_ok_app in Hl as [Hl Hb]. inversion_clear Hb as [|? ? Hb' _].
  unfold is_byte in Hb'. rewrite length_app, Nat.add_comm; simpl.
  rewrite be_value_snoc.
  rewrite Z.div_add_l, Z.div_small, Z.add_0_r by lia.
  rewrite (Z.add_comm _ b), Z.mod_add, Z.mod_small by lia.
  by rewrite IH.
Qed.

Lemma bit_set_63 v : 0 ≤ v < 2 ^ 64 → bit_set v (Z.shiftl 1 63) = (2 ^ 63 <=? v).
Proof.
  intros Hv. rewrite Z.shiftl_1_l. unfold bit_set.
  assert (Hland : Z.land v (2 ^ 63) = (v / 2 ^ 63) * 2 ^ 63).
  { apply Z.bits_inj'; intros n Hn. rewrite Z.land_spec.
    rewrite Z.mul_pow2_bits by lia.
    destruct (Z.lt_trichotomy n 63) as [?|[->|?]].
    - rewrite Z.pow2_bits_false, andb_false_r by lia. by rewrite Z.testbit_neg_r by lia.
    - rewrite Z.pow2_bits_true, andb_true_r by lia.
      rewrite Z.div_pow2_bits by lia. f_equal.
    - rewrite Z.pow2_bits_false, andb_false_r by lia.
      rewrite Z.div_pow2_bits by lia. symmetry.
      rewrite <- (Z.mod_small v (2 ^ 64)) by lia. apply Z.mod_pow2_bits_high; lia. }
  rewrite Hland. destruct (2 ^ 63 <=? v) eqn:E; bool_lia.
  - rewrite (proj2 (Z.eqb_neq _ _)); [done|].
    assert (1 ≤ v / 2 ^ 63) by (apply Z.div_le_lower_bound; lia). lia.
  - by rewrite Z.div_small by lia.
Qed.

(** ** Single-byte facts, by evaluation over the 256 bytes *)

Lemma byte_forall (P : Z → bool) :
  forallb P (seqZ 0 256) = true → ∀ b, is_byte b → P b = true.
Proof.
  intros HP b Hb. unfold is_byte in Hb. rewrite forallb_forall in HP. apply HP.
  apply list_elem_of_In, elem_of_seqZ; lia.
Qed.

Lemma first_byte_decode b o :
  is_byte b → (Z.land b 0x70 =? 0) = true → from_byte b = Some o →
  b = Z.lor (flag (bit_set b 0x80) 0x80) (opcode_byte o).
Proof.
  intros Hb Hrsv Ho.
  pose proof (byte_forall (λ b, implb (Z.land b 0x70 =? 0)
    (match from_byte b with
     | Some o => b =? Z.lor (flag (bit_set b 0x80) 0x80) (opcode_byte o)
     | None => true end)) eq_refl b Hb) as HP.
  simpl in HP. rewrite Hrsv, Ho in HP. simpl in HP. by apply Z.eqb_eq in HP.
Qed.

Lemma second_byte_unmasked b :
  is_byte b → bit_set b 0x80 = false → Z.land b 0x7F = b ∧ b ≤ 127.
Proof.
  intros Hb Hm.
  pose proof (byte_forall (λ b, implb (negb (bit_set b 0x80))
    ((Z.land b 0x7F =? b) && (b <=? 127))) eq_refl b Hb) as HP.
  simpl in HP. rewrite Hm in HP. simpl in HP. apply andb_true_iff in HP as [??]. bool_lia.
Qed.

Lemma second_byte_plain b : 0 ≤ b ≤ 127 → bit_set b 0x80 = false ∧ Z.land b 0x7F = b.
Proof.
  intros Hb.
  pose proof (byte_forall (λ b, implb (b <=? 127)
    (negb (bit_set b 0x80) && (Z.land b 0x7F =? b))) eq_refl b ltac:(unfold is_byte; lia)) as HP.
  simpl in HP. rewrite (proj2 (Z.leb_le b 127)) in HP by lia. simpl in HP.
  apply andb_true_iff in HP as [H1 H2]. apply negb_true_iff in H1. bool_lia. done.
Qed.

Lemma first_byte_encode f o :
  let b := Z.lor (flag f 0x80) (opcode_byte o) in
  bit_set b 0x80 = f ∧ (Z.land b 0x70 =? 0) = true ∧ from_byte b = Some o.
Proof. destruct f, o; vm_compute; auto. Qed.

Lemma len_field_bound b1 : 0 ≤ Z.land b1 0x7F ≤ 127.
Proof.
  assert (Z.land b1 0x7F = b1 `mod` 128) as -> by (apply (Z.land_ones b1 7); lia).
  pose proof (Z.mod_pos_bound b1 128 ltac:(lia)). lia.
Qed.

(** ** Masking *)

Lemma mask_in_place_length p k : length (mask_in_place p k) = length p.
Proof. apply length_imap. Qed.

Lemma imap_imap {A B C} (f : nat → B → C) (g : nat → A → B) l :
  imap f (imap g l) = imap (λ i x, f i (g i x)) l.
Proof.
  revert f g; induction l as [|x l IH]; intros f g; [done|].
  cbn. f_equal. apply (IH (f ∘ S) (g ∘ S)).
Qed.

Lemma imap_id {A} (f : nat → A → A) l : (∀ i x, f i x = x) → imap f l = l.
Proof.
  revert f; induction l as [|x l IH]; intros f Hf; [done|].
  cbn. f_equal; [apply Hf|apply (IH (f ∘ S)); intros; apply Hf].
Qed.

(** ** Decoding more input never changes a verdict already reached *)

Lemma lookup_total_app_lt (p q : bytes) i : Z.of_nat i < len p → (p ++ q) !!! i = p !!! i.
Proof. intros Hi. apply lookup_total_app_l. unfold len in Hi. lia. Qed.

Lemma decode_length_mono p q b1 mx :
  decode_length p b1 mx ≠ Ok None → decode_length (p ++ q) b1 mx = decode_length p b1 mx.
Proof.
  unfold decode_length. destruct (_ <=? 125); [done|]. destruct (_ =? 126); [|destruct (_ =? 127)].
  - destruct (len p <? 4) eqn:E; [done|]. intros _. bool_lia.
    rewrite (proj2 (Z.ltb_ge _ _)) by len_lia. by rewrite !lookup_total_app_lt by lia.
  - destruct (len p <? 10) eqn:E; [done|]. intros _. bool_lia.
    rewrite (proj2 (Z.ltb_ge _ _)) by len_lia. unfold len in E.
    by rewrite drop_app_le, take_app_le by (rewrite ?length_drop; lia).
  - done.
Qed.

Lemma decode_header_mono p q mx :
  decode_header p mx ≠ Ok None → decode_header (p ++ q) mx = decode_header p mx.
Proof.
  unfold decode_header. destruct (len p <? 2) eqn:E; [done|]. bool_lia.
  rewrite (proj2 (Z.ltb_ge _ _)) by len_lia. rewrite !lookup_total_app_lt by lia.
  destruct (negb _); [done|]. destruct (from_byte _) as [o|]; [|done].
  destruct (bit_set _ _); [done|]. destruct (_ && _); [done|].
  intros Hne. rewrite decode_length_mono.
  2:{ intros Hl. rewrite Hl in Hne. done. }
  destruct (decode_length p _ mx) as [[[h n]|]| |]; simpl in *; try done.
  destruct (_ && _); [done|]. destruct (_ <? n); [done|].
  destruct (len p <? h + n) eqn:E'; [done|]. bool_lia.
  by rewrite (proj2 (Z.ltb_ge (len (p ++ q)) _)) by len_lia.
Qed.

(** ** The header [encode_frame] writes is the one [decode_header] reads *)

Definition frame_head (f : bool) (o : Opcode) (n : Z) : bytes :=
  Z.lor (flag f 0x80) (opcode_byte o) ::
  (if n <=? 125 then [n] else if n <=? U16_MAX then 126 :: be_bytes 2 n else 127 :: be_bytes 8 n).

Lemma frame_bytes_head f :
  frame_bytes f = frame_head (fin f) (opcode f) (len (payload f)) ++ payload f.
Proof.
  unfold frame_bytes, encode_frame, frame_head. cbn [flag h_fin h_opcode app].
  rewrite bool_decide_false by (intros [? [=]]). cbn [flag].
  rewrite !Z.lor_0_l. by repeat case_match.
Qed.

Lemma len_be_bytes n v : len (be_bytes n v) = Z.of_nat n.
Proof. unfold len. by rewrite length_be_bytes. Qed.
#[export] Hint Rewrite len_be_bytes : len.

Lemma decode_length_head f o n rest mx :
  0 ≤ n < 2 ^ 63 →
  decode_length (frame_head f o n ++ rest) ((frame_head f o n ++ rest) !!! 1%nat) mx =
    Ok (Some (len (frame_head f o n), n)) ∧
  bit_set ((frame_head f o n ++ rest) !!! 1%nat) 0x80 = false ∧
  2 ≤ len (frame_head f o n).
Proof.
  intros Hn. unfold frame_head, decode_length.
  destruct (n <=? 125) eqn:E1; [|destruct (n <=? U16_MAX) eqn:E2]; bool_lia.
  - destruct (second_byte_plain n) as [Hb Hl]; [lia|]. cbn -[Z.land Z.leb bit_set].
    rewrite Hb, Hl, (proj2 (Z.leb_le n 125)) by lia. done.
  - unfold U16_MAX in *. pose proof (length_be_bytes 2 n) as Hlen.
    pose proof (be_value_be_bytes 2 n ltac:(change (256 ^ Z.of_nat 2) with 65536; lia)) as Hv.
    destruct (be_bytes 2 n) as [|a [|b [|]]]; try done. cbn -[len Z.leb Z.ltb be_value].
    rewrite (proj2 (Z.ltb_ge _ 4)) by len_lia.
    change (Z.land 126 127 <=? 125) with false. rewrite Hv, (proj2 (Z.leb_gt n 125)) by lia. done.
  - pose proof (len_be_bytes 8 n) as Hlen.
    pose proof (be_value_be_bytes 8 n ltac:(change (256 ^ Z.of_nat 8) with (2 ^ 64); lia)) as Hv.
    remember (be_bytes 8 n) as l eqn:El. clear El.
    cbn -[len Z.leb Z.ltb be_value take drop bit_set Z.shiftl].
    rewrite (proj2 (Z.ltb_ge _ 10)) by len_lia.
    rewrite !skipn_cons, drop_0, take_app_length' by (unfold len in Hlen; lia).
    rewrite Hv, bit_set_63, (proj2 (Z.leb_gt (2 ^ 63) _)) by lia.
    rewrite (proj2 (Z.leb_gt n _)) by lia.
    rewrite (proj2 (Z.ltb_ge USIZE_MAX _)) by (unfold USIZE_MAX, U64_MAX; lia).
    split_and!; [|done|len_lia]. do 3 f_equal. len_lia.
Qed.

Lemma decode_header_head f o n rest mx :
  0 ≤ n < 2 ^ 63 → (is_control o = true → f = true ∧ n ≤ 125) →
  decode_header (frame_head f o n ++ rest) mx =
    if mx <? n then Err (PayloadTooLarge mx n)
    else if len rest <? n then Ok None
    else Ok (Some (f, o, len (frame_head f o n), n)).
Proof.
  intros Hn Hc. destruct (decode_length_head f o n rest mx Hn) as (Hl & Hm & H2).
  destruct (first_byte_encode f o) as (Hf & Hr & Ho).
  assert (H0 : (frame_head f o n ++ rest) !!! 0%nat = Z.lor (flag f 0x80) (opcode_byte o)) by done.
  unfold decode_header. rewrite (proj2 (Z.ltb_ge _ _)) by len_lia.
  rewrite Hl, Hm, H0, Hr, Ho, Hf. cbn [negb].
  replace (is_control o && negb f) with false by (destruct (is_control o); [destruct Hc as [-> _]|]; done).
  cbn [obind].
  replace (is_control o && (125 <? n)) with false
    by (destruct (is_control o); [symmetry; apply Z.ltb_ge, Hc|]; done).
  destruct (mx <? n); [done|].
  destruct (len rest <? n) eqn:E; bool_lia.
  - by rewrite (proj2 (Z.ltb_lt _ _)) by len_lia.
  - by rewrite (proj2 (Z.ltb_ge _ _)) by len_lia.
Qed.

Lemma lookup_total_ok (l : bytes) i : bytes_ok l → Z.of_nat i < len l → is_byte (l !!! i).
Proof.
  intros Hl Hi. destruct (lookup_lt_is_Some_2 l i) as [x Hx]; [unfold len in Hi; lia|].
  rewrite (list_lookup_total_correct _ _ _ Hx). by eapply Forall_lookup_1 in Hx.
Qed.

Lemma cons2_inv (l : bytes) : 2 ≤ len l → l = l !!! 0%nat :: l !!! 1%nat :: drop 2 l.
Proof. destruct l as [|a [|b l]]; intros Hl; [unfold len in Hl; simpl in Hl; lia..|done]. Qed.

(** What a successful read of the length field says about the bytes read. *)
Lemma decode_length_sound buf mx h n f o :
  bytes_ok buf → 2 ≤ len buf → bit_set (buf !!! 1%nat) 0x80 = false →
  buf !!! 0%nat = Z.lor (flag f 0x80) (opcode_byte o) →
  decode_length buf (buf !!! 1%nat) mx = Ok (Some (h, n)) →
  0 ≤ n < 2 ^ 63 ∧ h = len (frame_head f o n) ∧
  buf = frame_head f o n ++ drop (Z.to_nat h) buf.
Proof.
  intros Hok H2 Hm H0. pose proof (lookup_total_ok buf 1 Hok ltac:(lia)) as Hb1.
  destruct (second_byte_unmasked _ Hb1 Hm) as [Hland Hle].
  pose proof (cons2_inv buf H2) as Hc. unfold is_byte in Hb1.
  unfold decode_length. rewrite Hland.
  set (b1 := buf !!! 1%nat) in *. set (b0 := buf !!! 0%nat) in *.
  assert (Hdrop : bytes_ok (drop 2 buf)) by (by apply Forall_drop).
  destruct (b1 <=? 125) eqn:E1; [|destruct (b1 =? 126) eqn:E2; [|destruct (b1 =? 127) eqn:E3]]; bool_lia.
  - intros [= <- <-]. unfold frame_head. rewrite (proj2 (Z.leb_le _ _)) by lia.
    rewrite <- H0. split_and!; [lia|lia|done|]. exact Hc.
  - destruct (len buf <? 4) eqn:E4; [done|]. bool_lia.
    remember (drop 2 buf) as tl eqn:Etl.
    destruct tl as [|x [|y tl]]; [rewrite Hc in E4; unfold len in E4; simpl in E4; lia..|].
    assert (buf !!! 2%nat = x ∧ buf !!! 3%nat = y) as [-> ->] by (rewrite Hc; done).
    pose proof (be_value_bound [x; y]) as Hv. unfold len in Hv; simpl in Hv.
    assert (Hxy : bytes_ok [x; y]) by (repeat (apply Forall_cons in Hdrop as [? Hdrop]; constructor; [done|]); constructor).
    specialize (Hv Hxy). change (256 ^ 2) with 65536 in Hv.
    destruct (be_value [x; y] <=? 125) eqn:E5; [done|]. bool_lia. intros [= <- <-].
    unfold frame_head, U16_MAX. rewrite (proj2 (Z.leb_gt _ _)), (proj2 (Z.leb_le _ _)) by lia.
    pose proof (be_bytes_be_value [x; y] Hxy) as Hb. simpl length in Hb. rewrite Hb.
    split_and!; [lia|lia|done|]. rewrite <- H0, <- E2. rewrite Hc at 1. rewrite Hc at 1. done.
  - destruct (len buf <? 10) eqn:E4; [done|]. bool_lia.
    set (l := take 8 (drop 2 buf)).
    assert (Hl8 : length l = 8%nat).
    { unfold l. rewrite length_take, length_drop. unfold len in E4. lia. }
    assert (Hlok : bytes_ok l) by (by apply Forall_take).
    pose proof (be_value_bound l Hlok) as Hv. unfold len in Hv. rewrite Hl8 in Hv.
    change (256 ^ Z.of_nat 8) with (2 ^ 64) in Hv.
    rewrite bit_set_63 by done.
    destruct (2 ^ 63 <=? be_value l) eqn:E5; [done|].
    destruct (be_value l <=? U16_MAX) eqn:E6; [done|].
    destruct (USIZE_MAX <? be_value l) eqn:E7; [done|]. bool_lia. intros [= <- <-].
    unfold frame_head. unfold U16_MAX in *.
    rewrite (proj2 (Z.leb_gt _ 125)), (proj2 (Z.leb_gt _ 65535)) by lia.
    pose proof (be_bytes_be_value l Hlok) as Hb. rewrite Hl8 in Hb. rewrite Hb.
    split_and!; [lia|lia|unfold len; simpl; lia|]. rewrite <- H0, <- E3. cbn [app].
    transitivity (b0 :: b1 :: drop 2 buf); [done|]. do 2 f_equal.
    unfold l. rewrite <- (take_drop 8 (drop 2 buf)) at 1. by rewrite drop_drop.
Qed.

Lemma decode_header_sound buf mx f o h n :
  bytes_ok buf → decode_header buf mx = Ok (Some (f, o, h, n)) →
  0 ≤ n < 2 ^ 63 ∧ n ≤ mx ∧ h = len (frame_head f o n) ∧
  buf = frame_head f o n ++ drop (Z.to_nat h) buf ∧ h + n ≤ len buf ∧
  (is_control o = true → f = true ∧ n ≤ 125).
Proof.
  intros Hok. unfold decode_header.
  destruct (len buf <? 2) eqn:E2; [done|]. bool_lia.
  pose proof (lookup_total_ok buf 0 Hok ltac:(lia)) as Hb0.
  destruct (Z.land _ 0x70 =? 0) eqn:Er; [cbn [negb]|done].
  destruct (from_byte _) as [o'|] eqn:Eo; [|done].
  destruct (bit_set (buf !!! 1%nat) 0x80) eqn:Em; [done|].
  destruct (is_control o' && negb _) eqn:Ef; [done|].
  destruct (decode_length _ _ _) as [[[h' n']|]| |] eqn:El; cbn [obind]; try done.
  destruct (is_control o' && (125 <? n')) eqn:Ec; [done|].
  destruct (mx <? n') eqn:Emx; [done|].
  destruct (len buf <? h' + n') eqn:Elen; [done|]. bool_lia. intros [= <- <- <- <-].
  pose proof (first_byte_decode _ _ Hb0 (proj2 (Z.eqb_eq _ _) Er) Eo) as Hbyte.
  destruct (decode_length_sound buf mx h' n' _ o' Hok E2 Em Hbyte El) as (Hn & Hh & Hbuf).
  split_and!; [lia|lia|done|done|done|lia|]. intros Hctl. rewrite Hctl in Ef, Ec. cbn [andb] in Ef, Ec.
  apply negb_false_iff in Ef. bool_lia. done.
Qed.

(** ** Masked client frames, as a server reads them

    RFC 6455, section 5.3, from the receiving side: the key follows the length
    field, and clearing the mask bit and the mask gives the unmasked frame. *)
Definition strip_mask (wire : bytes) : bytes :=
  match wire with
  | b0 :: b1 :: tl =>
    let n := Z.land b1 0x7F in
    let ext := if n =? 126 then 2%nat else if n =? 127 then 8%nat else 0%nat in
    match take 4 (drop ext tl) with
    | [a; b; c; d] =>
      b0 :: n :: take ext tl ++ mask_in_place (drop (ext + 4) tl) (mkMaskKey a b c d)
    | _ => wire
    end
  | _ => wire
  end.

Lemma mask_involutive p k : mask_in_place (mask_in_place p k) k = p.
Proof.
  unfold mask_in_place. rewrite imap_imap. apply imap_id.
  intros i x. by rewrite Z.lxor_assoc, Z.lxor_nilpotent, Z.lxor_0_r.
Qed.

Lemma lor_mask_bit n : 0 ≤ n ≤ 127 → Z.land (Z.lor 0x80 n) 0x7F = n.
Proof.
  intros Hn. pose proof (byte_forall (λ b, implb (b <=? 127) (Z.land (Z.lor 0x80 b) 0x7F =? b))
    eq_refl n ltac:(unfold is_byte; lia)) as HP.
  cbn beta in HP. rewrite (proj2 (Z.leb_le _ _)) in HP by lia. by apply Z.eqb_eq in HP.
Qed.

Lemma lxor_byte a b : is_byte a → is_byte b → is_byte (Z.lxor a b).
Proof.
  unfold is_byte. intros Ha Hb.
  assert (Z.lxor a b = Z.lxor a b `mod` 2 ^ 8) as ->; [|apply Z.mod_pos_bound; lia].
  apply Z.bits_inj'; intros n Hn. destruct (decide (n < 8)).
  - by rewrite Z.mod_pow2_bits_low by lia.
  - rewrite Z.mod_pow2_bits_high, Z.lxor_spec by lia.
    rewrite <- (Z.mod_small a (2 ^ 8)), <- (Z.mod_small b (2 ^ 8)) by lia.
    by rewrite !Z.mod_pow2_bits_high by lia.
Qed.

Lemma strip_mask_encode header pl key :
  len pl < 2 ^ 64 →
  strip_mask (encode_frame [] header pl (Some key)) = encode_frame [] header pl None.
Proof.
  intros Hpl. destruct key as [kA kB kC kD]. pose proof (len_nonneg pl). unfold encode_frame.
  rewrite bool_decide_true by eauto. rewrite (bool_decide_false (is_Some None)) by (by intros [? [=]]).
  cbn [flag app]. rewrite !Z.lor_0_l. unfold strip_mask.
  destruct (len pl <=? 125) eqn:E1; [|destruct (len pl <=? U16_MAX) eqn:E2]; bool_lia;
    cbn [app]; rewrite lor_mask_bit by lia.
  - rewrite (proj2 (Z.eqb_neq _ 126)), (proj2 (Z.eqb_neq _ 127)) by lia. cbn -[mask_in_place].
    by rewrite drop_0, mask_involutive.
  - pose proof (length_be_bytes 2 (len pl)) as Hl.
    destruct (be_bytes 2 (len pl)) as [|a [|b [|]]]; try done. cbn -[mask_in_place].
    by rewrite drop_0, mask_involutive.
  - pose proof (length_be_bytes 8 (len pl)) as Hl.
    destruct (be_bytes 8 (len pl)) as [|x0 [|x1 [|x2 [|x3 [|x4 [|x5 [|x6 [|x7 [|]]]]]]]]]; try done.
    cbn -[mask_in_place]. by rewrite drop_0, mask_involutive.
Qed.

Lemma decode_frame_bytes f rest mx :
  frame_ok f → len (payload f) ≤ mx → decode_frame (frame_bytes f ++ rest) mx = (Ok (Some f), rest).
Proof.
  intros (Hpl & H63 & Hc) Hmx. unfold decode_frame. rewrite frame_bytes_head, <- app_assoc.
  pose proof (len_nonneg (payload f)).
  rewrite decode_header_head by (done || lia).
  rewrite (proj2 (Z.ltb_ge _ _)) by lia.
  rewrite (proj2 (Z.ltb_ge _ _)) by len_lia.
  rewrite !to_nat_len, !drop_app_length, take_app_length. by destruct f.
Qed.

Lemma decode_frame_no_panic buf mx : no_panic (decode_frame buf mx).1.
Proof.
  assert (Hnp : no_panic (decode_header buf mx)).
  { unfold decode_header. repeat (case_match; try done). apply no_panic_obind.
    - unfold decode_length. repeat (case_match; try done).
      pose proof (len_field_bound (buf !!! 1%nat)). bool_lia.
    - intros [[??]|] _; cbn; try done; repeat (case_match; try done). }
  unfold decode_frame, no_panic in *. by repeat case_match; simplify_eq/=.
Qed.

Lemma decode_frame_sound buf mx f rest :
  bytes_ok buf → decode_frame buf mx = (Ok (Some f), rest) →
  buf = frame_bytes f ++ rest ∧ frame_ok f ∧ len (payload f) ≤ mx.
Proof.
  intros Hok. unfold decode_frame. destruct (decode_header buf mx) as [[[[[f' o'] h] n]|]| |] eqn:E; try done.
  intros [= <- <-]. apply decode_header_sound in E as (Hn & Hmx & Hh & Hbuf & Hlen & Hc); [|done].
  assert (Hpl : len (take (Z.to_nat n) (drop (Z.to_nat h) buf)) = n).
  { pose proof (len_nonneg (frame_head f' o' n)). autorewrite with len. lia. }
  unfold frame_ok. rewrite frame_bytes_head. cbn [payload fin opcode]. rewrite Hpl.
  split_and!; try done; [|by apply Forall_take, Forall_drop|lia].
  by rewrite <- app_assoc, take_drop.
Qed.

(** ** Properties of the codec *)

(** C28.  The decoder reads exactly the well-formed frames: on any buffer of
    bytes, [decode_frame] yields the frame [f] and leaves [rest] if and only if
    the buffer is the encoding of [f] followed by [rest], [f] obeys the RFC's
    limits and fits the configured frame size.  In particular there is one
    encoding per frame (no non-minimal length, no reserved bit), and decoding
    what the encoder wrote gives the frame back. *)
Theorem decode_frame_iff buf mx f rest :
  bytes_ok buf →
  decode_frame buf mx = (Ok (Some f), rest) ↔
  buf = frame_bytes f ++ rest ∧ frame_ok f ∧ len (payload f) ≤ mx.
Proof.
  intros Hok. split.
  - by apply decode_frame_sound.
  - intros (-> & Hf & Hmx). by apply decode_frame_bytes.
Qed.
Lemma decode_frame_iff_witness :
  decode_frame [0x82; 0x01; 9; 1] 10 = (Ok (Some (mkDecodedFrame true Binary [9])), [1]) ↔
  [0x82; 0x01; 9; 1] = frame_bytes (mkDecodedFrame true Binary [9]) ++ [1] ∧
  frame_ok (mkDecodedFrame true Binary [9]) ∧ len [9] ≤ 10.
Proof.
  apply (decode_frame_iff [0x82; 0x01; 9; 1] 10 (mkDecodedFrame true Binary [9]) [1]).
  solve_bytes.
Defined.

(** A frame that has arrived only in part is never misread: on every
    strict prefix of a well-formed frame within the size limit, the decoder asks
    for more input and leaves the buffer as it was. *)
Theorem decode_frame_strict_prefix f p q mx :
  frame_ok f → len (payload f) ≤ mx → frame_bytes f = p ++ q → q ≠ [] →
  decode_frame p mx = (Ok None, p).
Proof.
  intros (Hpl & H63 & Hc) Hmx Hpq Hq. pose proof (len_nonneg (payload f)).
  assert (Hfull : decode_header (p ++ q) mx =
    Ok (Some (fin f, opcode f, len (frame_head (fin f) (opcode f) (len (payload f))), len (payload f)))).
  { rewrite <- Hpq, frame_bytes_head, decode_header_head by (done || lia).
    by rewrite !(proj2 (Z.ltb_ge _ _)) by lia. }
  assert (Hnone : decode_header p mx = Ok None); [|unfold decode_frame; by rewrite Hnone].
  destruct (decide (decode_header p mx = Ok None)) as [|Hne]; [done|exfalso].
  pose proof (decode_header_mono p q mx Hne) as Hmono. rewrite Hfull in Hmono. symmetry in Hmono.
  assert (Hlen : len (frame_bytes f) ≤ len p).
  { rewrite frame_bytes_head. autorewrite with len. revert Hmono. unfold decode_header.
    repeat (case_match; try done). bool_lia. unfold obind. repeat (case_match; try done).
    intros [= <- <- <- <-]. bool_lia. }
  rewrite Hpq in Hlen. apply Hq, len_zero. len_lia.
Qed.
Lemma decode_frame_strict_prefix_witness :
  decode_frame [0x82; 0x02; 9] 10 = (Ok None, [0x82; 0x02; 9]).
Proof.
  apply (decode_frame_strict_prefix (mkDecodedFrame true Binary [9; 8]) [0x82; 0x02; 9] [8] 10);
    [split_and!; [solve_bytes|done|done]|done|done|done].
Defined.

(** What the client sends is the masked form of the same frame: clearing
    the mask of an encoded client frame the way the RFC tells a server to gives
    the unmasked encoding, whatever the key, so by C1 the server reads exactly
    the header and payload that were sent. *)
Theorem encode_masked_strip header pl key :
  len pl < 2 ^ 64 →
  strip_mask (encode_frame [] header pl (Some key)) = encode_frame [] header pl None.
Proof. apply strip_mask_encode. Qed.
Lemma encode_masked_strip_witness :
  strip_mask (encode_frame [] (mkFrameHeader true Text) [104; 105] (Some (mkMaskKey 1 2 3 4)))
  = [0x81; 0x02; 104; 105].
Proof. apply (encode_masked_strip (mkFrameHeader true Text) [104; 105] (mkMaskKey 1 2 3 4)). done. Defined.

(** [decode_frame] never reaches its [unreachable!] arm, whatever the bytes
    and the limit, and unless it returns a frame it consumes nothing. *)
Theorem decode_frame_total buf mx :
  no_panic (decode_frame buf mx).1 ∧
  ((∃ f, (decode_frame buf mx).1 = Ok (Some f)) ∨ (decode_frame buf mx).2 = buf).
Proof.
  split; [apply decode_frame_no_panic|].
  unfold decode_frame. repeat case_match; simplify_eq/=; eauto.
Qed.

(** [encode_frame] only writes bytes: no header field overflows its eight
    bits, for every payload a 64-bit machine can hold. *)
Theorem encode_frame_bytes out header pl mask :
  bytes_ok out → bytes_ok pl → (∀ k, mask = Some k → bytes_ok (key_bytes k)) →
  bytes_ok (encode_frame out header pl mask).
Proof.
  intros Hout Hpl Hk. pose proof (len_nonneg pl). unfold encode_frame.
  assert (Hb1 : ∀ n, 0 ≤ n ≤ 127 → is_byte (Z.lor (flag (bool_decide (is_Some mask)) 0x80) n)).
  { intros n Hn. pose proof (byte_forall (λ b, implb (b <=? 127) ((Z.lor 0x80 b) <? 256)) eq_refl n
      ltac:(unfold is_byte; lia)) as HP. cbn beta in HP.
    rewrite (proj2 (Z.leb_le _ _)) in HP by lia. cbn [implb] in HP. bool_lia.
    destruct (bool_decide _); cbn [flag]; [|rewrite Z.lor_0_l; unfold is_byte; lia].
    split; [apply Z.lor_nonneg; lia|done]. }
  rewrite !bytes_ok_app. split_and!; [done| | |].
  - constructor; [|constructor]. by destruct (h_fin header), (h_opcode header).
  - destruct (_ <=? 125) eqn:E; [|destruct (_ <=? U16_MAX)]; bool_lia;
      constructor; try (apply Hb1; lia); try apply be_bytes_ok. constructor.
  - destruct mask as [k|]; [|done]. specialize (Hk k eq_refl). apply bytes_ok_app. split; [done|].
    apply Forall_lookup_2. intros i x. unfold mask_in_place. rewrite list_lookup_imap.
    destruct (pl !! i) as [y|] eqn:Ey; intros [= <-]. apply lxor_byte.
    + by eapply Forall_lookup_1 in Ey.
    + apply lookup_total_ok; [done|]. pose proof (Nat.mod_upper_bound i 4 ltac:(lia)).
      unfold len; cbn. lia.
Qed.
Lemma encode_frame_bytes_witness :
  bytes_ok (encode_frame [] (mkFrameHeader true Text) [255] (Some (mkMaskKey 1 2 3 4))).
Proof.
  apply (encode_frame_bytes [] (mkFrameHeader true Text) [255] (Some (mkMaskKey 1 2 3 4)));
    [constructor|solve_bytes|intros k [= <-]; unfold key_bytes; solve_bytes].
Defined.
