(* ===== verification/WsSession.v ===== *)
(** * WebSocket messages and reassembly

    openwire-core/src/websocket/message.rs (message kinds, close codes and the
    checks on what is sent) and openwire/src/websocket/native/session.rs
    ([ReassemblyState], which turns decoded frames into messages).  A Rust
    [String] is the list of its UTF-8 bytes; [std::str::from_utf8] is
    [utf8_valid]. *)

From S2P Require Import Prelude Net Error WsCodec.

(** ** UTF-8, as [std::str::from_utf8] checks it *)

Definition in_range (lo hi b : Z) : bool := (lo <=? b) && (b <=? hi).
Definition is_cont (b : Z) : bool := in_range 0x80 0xBF b.

Fixpoint utf8_valid (bs : bytes) : bool :=
  match bs with
  | [] => true
  | b0 :: tl =>
    if in_range 0 0x7F b0 then utf8_valid tl
    else match tl with
    | [] => false
    | b1 :: tl1 =>
      if in_range 0xC2 0xDF b0 then is_cont b1 && utf8_valid tl1
      else match tl1 with
      | [] => false
      | b2 :: tl2 =>
        if in_range 0xE0 0xEF b0 then
          (if b0 =? 0xE0 then in_range 0xA0 0xBF b1
           else if b0 =? 0xED then in_range 0x80 0x9F b1 else is_cont b1)
          && is_cont b2 && utf8_valid tl2
        else match tl2 with
        | [] => false
        | b3 :: tl3 =>
          in_range 0xF0 0xF4 b0 &&
          (if b0 =? 0xF0 then in_range 0x90 0xBF b1
           else if b0 =? 0xF4 then in_range 0x80 0x8F b1 else is_cont b1)
          && is_cont b2 && is_cont b3 && utf8_valid tl3
        end
      end
    end
  end.

(** ** Messages *)

(** [EngineFrame], openwire-core/websocket/engine.rs:29-42. *)
Inductive EngineFrame : Type :=
| EF_Text (text : bytes)
| EF_Binary (b : bytes)
| EF_Ping (b : bytes)
| EF_Pong (b : bytes)
| EF_Close (code : Z) (reason : bytes).

(** [Message], openwire-core/websocket/message.rs:10-17. *)
Inductive Message : Type :=
| Msg_Text (text : bytes)
| Msg_Binary (b : bytes)
| Msg_Ping (b : bytes)
| Msg_Pong (b : bytes)
| Msg_Close (code : Z) (reason : bytes).

(** [MessageKind], openwire-core/websocket/message.rs:19-23. *)
Inductive MessageKind : Type := MK_Text | MK_Binary.

#[global] Instance EngineFrame_eq_dec : EqDecision EngineFrame.
Proof. solve_decision. Defined.
#[global] Instance Message_eq_dec : EqDecision Message.
Proof. solve_decision. Defined.

Definition MAX_CONTROL_FRAME_PAYLOAD_BYTES : Z := 125.
Definition MAX_CLOSE_REASON_BYTES : Z := 123.
Definition CLOSE_NO_STATUS_CODE : Z := 1005.

(** [Message::kind], openwire-core/websocket/message.rs:32-38. *)
Definition message_kind (m : Message) : option MessageKind :=
  match m with
  | Msg_Text _ => Some MK_Text
  | Msg_Binary _ => Some MK_Binary
  | _ => None
  end.

(** [Message::payload_len], openwire-core/websocket/message.rs:40-46. *)
Definition payload_len (m : Message) : Z :=
  match m with
  | Msg_Text s => len s
  | Msg_Binary b | Msg_Ping b | Msg_Pong b => len b
  | Msg_Close _ reason => 2 + len reason
  end.

(** [From<Message> for EngineFrame], openwire-core/websocket/message.rs:49-59. *)
Definition frame_of_message (m : Message) : EngineFrame :=
  match m with
  | Msg_Text t => EF_Text t
  | Msg_Binary b => EF_Binary b
  | Msg_Ping b => EF_Ping b
  | Msg_Pong b => EF_Pong b
  | Msg_Close code reason => EF_Close code reason
  end.

(** [From<EngineFrame> for Message], openwire-core/websocket/message.rs:61-71. *)
Definition message_of_frame (f : EngineFrame) : Message :=
  match f with
  | EF_Text t => Msg_Text t
  | EF_Binary b => Msg_Binary b
  | EF_Ping b => Msg_Ping b
  | EF_Pong b => Msg_Pong b
  | EF_Close code reason => Msg_Close code reason
  end.

(** [close_code_is_valid], openwire-core/websocket/message.rs:76-81. *)
Definition close_code_is_valid (code : Z) : bool :=
  in_range 1000 1003 code || in_range 1007 1014 code || in_range 3000 4999 code.

(** [validate_close_frame], openwire-core/websocket/message.rs:83-96. *)
Definition validate_close_frame (code : Z) (reason : bytes) : outcome WebSocketEngineError unit :=
  if negb (close_code_is_valid code) then Err (InvalidCloseCode code)
  else if MAX_CLOSE_REASON_BYTES <? len reason then
    Err (InvalidFrame "close reason exceeds 123 bytes")
  else Ok tt.

(** [validate_control_payload_len], openwire-core/websocket/message.rs:121-128. *)
Definition validate_control_payload_len (knd : string) (n : Z) : outcome WebSocketEngineError unit :=
  if MAX_CONTROL_FRAME_PAYLOAD_BYTES <? n then
    Err (InvalidFrame (knd +:+ " control frame exceeds 125 bytes")%string)
  else Ok tt.

(** [validate_outbound_message], openwire-core/websocket/message.rs:98-105. *)
Definition validate_outbound_message (m : Message) : outcome WebSocketEngineError unit :=
  match m with
  | Msg_Ping p => validate_control_payload_len "ping" (len p)
  | Msg_Pong p => validate_control_payload_len "pong" (len p)
  | Msg_Close code reason => validate_close_frame code reason
  | Msg_Text _ | Msg_Binary _ => Ok tt
  end.

(** [validate_outbound_engine_frame], openwire-core/websocket/message.rs:107-119. *)
Definition validate_outbound_engine_frame (f : EngineFrame) : outcome WebSocketEngineError unit :=
  match f with
  | EF_Ping p => validate_control_payload_len "ping" (len p)
  | EF_Pong p => validate_control_payload_len "pong" (len p)
  | EF_Close code reason =>
    if (code =? CLOSE_NO_STATUS_CODE) && (len reason =? 0) then Ok tt
    else validate_close_frame code reason
  | EF_Text _ | EF_Binary _ => Ok tt
  end.

(** ** Reassembly *)

(** [InProgress], openwire/websocket/native/session.rs:12-15. *)
Record InProgress : Type := mkInProgress {
  ip_opcode : Opcode;
  ip_buffer : bytes;
}.

(** [ReassemblyState], openwire/websocket/native/session.rs:7-10. *)
Record ReassemblyState : Type := mkReassemblyState {
  max_message_size : Z;
  in_progress : option InProgress;
}.

(** [ReassemblyState::new], openwire/websocket/native/session.rs:18-23. *)
Definition reassembly_new (mx : Z) : ReassemblyState := mkReassemblyState mx None.

(** [ReassemblyState::check_message_size], openwire/websocket/native/session.rs:97-109. *)
Definition check_message_size (mx received : Z) : outcome WebSocketEngineError unit :=
  if mx <? received then Err (PayloadTooLarge mx received) else Ok tt.

(** [ReassemblyState::deliver_single], openwire/websocket/native/session.rs:111-127. *)
Definition deliver_single (st : ReassemblyState) (op : Opcode) (pl : bytes)
    : outcome WebSocketEngineError (option EngineFrame) :=
  let? _ := check_message_size (max_message_size st) (len pl) in
  match op with
  | Text => if utf8_valid pl then Ok (Some (EF_Text pl)) else Err InvalidUtf8
  | Binary => Ok (Some (EF_Binary pl))
  | _ => Panic
  end.

(** [ReassemblyState::parse_control], openwire/websocket/native/session.rs:129-156. *)
Definition parse_control (frame : DecodedFrame) : outcome WebSocketEngineError EngineFrame :=
  match opcode frame with
  | Ping => Ok (EF_Ping (payload frame))
  | Pong => Ok (EF_Pong (payload frame))
  | Close =>
    match payload frame with
    | [] => Ok (EF_Close 1005 [])
    | [_] => Err (InvalidFrame "close payload of length 1")
    | c0 :: c1 :: rest =>
      let code := be_value [c0; c1] in
      if negb (close_code_is_valid code) then Err (InvalidCloseCode code)
      else if utf8_valid rest then Ok (EF_Close code rest)
      else Err InvalidUtf8
    end
  | _ => Panic
  end.

(** [ReassemblyState::append_continuation], openwire/websocket/native/session.rs:69-95. *)
Definition append_continuation (st : ReassemblyState) (frame : DecodedFrame)
    : outcome WebSocketEngineError (option EngineFrame) * ReassemblyState :=
  match in_progress st with
  | None => (Panic, st)
  | Some state =>
    match usize_checked_add (len (ip_buffer state)) (len (payload frame)) with
    | None => (Err (PayloadTooLarge (max_message_size st) USIZE_MAX), st)
    | Some new_len =>
      match check_message_size (max_message_size st) new_len with
      | Err e => (Err e, st)
      | Panic => (Panic, st)
      | Ok _ =>
        let buffer := ip_buffer state ++ payload frame in
        if fin frame then
          let st' := mkReassemblyState (max_message_size st) None in
          (deliver_single st' (ip_opcode state) buffer, st')
        else
          (Ok None, mkReassemblyState (max_message_size st)
                      (Some (mkInProgress (ip_opcode state) buffer)))
      end
    end
  end.

(** [ReassemblyState::feed], openwire/websocket/native/session.rs:25-57. *)
Definition feed (st : ReassemblyState) (frame : DecodedFrame)
    : outcome WebSocketEngineError (option EngineFrame) * ReassemblyState :=
  if is_control (opcode frame) then ((let? f := parse_control frame in Ok (Some f)), st) else
  match opcode frame, in_progress st with
  | Continuation, None => (Err (InvalidFrame "orphan continuation frame"), st)
  | Continuation, Some _ => append_continuation st frame
  | (Text | Binary) as op, None =>
    if fin frame then (deliver_single st op (payload frame), st)
    else match check_message_size (max_message_size st) (len (payload frame)) with
         | Err e => (Err e, st)
         | Panic => (Panic, st)
         | Ok _ => (Ok None, mkReassemblyState (max_message_size st)
                               (Some (mkInProgress op (payload frame))))
         end
  | (Text | Binary), Some _ => (Err (InvalidFrame "nested data frame while reassembling"), st)
  | (Close | Ping | Pong), _ => (Panic, st)
  end.

(** [ReassemblyState::end_of_stream], openwire/websocket/native/session.rs:59-67. *)
Definition end_of_stream (st : ReassemblyState) : outcome WebSocketEngineError unit :=
  match in_progress st with
  | Some _ => Err (InvalidFrame "incomplete fragmented message")
  | None => Ok tt
  end.

(** Feeding a sequence of frames, stopping at the first error. *)
Fixpoint feed_list (st : ReassemblyState) (frames : list DecodedFrame)
    : outcome WebSocketEngineError (list EngineFrame) * ReassemblyState :=
  match frames with
  | [] => (Ok [], st)
  | f :: fs =>
    match feed st f with
    | (Ok o, st') =>
      match feed_list st' fs with
      | (Ok os, st'') => (Ok (option_list o ++ os), st'')
      | r => r
      end
    | (Err e, st') => (Err e, st')
    | (Panic, st') => (Panic, st')
    end
  end.

(** ** The invariant of a reassembly state

    The message being assembled is a text or binary one and fits the limit. *)
Definition is_data (o : Opcode) : bool := match o with Text | Binary => true | _ => false end.

Definition reassembly_ok (st : ReassemblyState) : Prop :=
  match in_progress st with
  | Some ip => is_data (ip_opcode ip) = true ∧ len (ip_buffer ip) ≤ max_message_size st
  | None => True
  end.

(** The message a data opcode and a complete payload stand for. *)
Definition message_for (o : Opcode) (pl : bytes) : EngineFrame :=
  match o with Text => EF_Text pl | _ => EF_Binary pl end.

(** What may appear between the first and the last fragment of a message: a
    non-final continuation, or a ping or pong. *)
Inductive mid_item : Type :=
| Chunk (b : bytes)
| MidPing (b : bytes)
| MidPong (b : bytes).

Definition mid_frame (i : mid_item) : DecodedFrame :=
  match i with
  | Chunk b => mkDecodedFrame false Continuation b
  | MidPing b => mkDecodedFrame true Ping b
  | MidPong b => mkDecodedFrame true Pong b
  end.
Definition mid_chunk (i : mid_item) : bytes := match i with Chunk b => b | _ => [] end.
Definition mid_output (i : mid_item) : list EngineFrame :=
  match i with
  | Chunk _ => []
  | MidPing b => [EF_Ping b]
  | MidPong b => [EF_Pong b]
  end.

Definition fragmented (o : Opcode) (c0 : bytes) (mid : list mid_item) (cl : bytes)
    : list DecodedFrame :=
  mkDecodedFrame false o c0 :: (mid_frame <$> mid) ++ [mkDecodedFrame true Continuation cl].
Definition whole_payload (c0 : bytes) (mid : list mid_item) (cl : bytes) : bytes :=
  c0 ++ concat (mid_chunk <$> mid) ++ cl.

Example hello_fragmented :
  feed_list (reassembly_new 100) (fragmented Text [104] [Chunk [101]; MidPing [1]] [108])
  = (Ok [EF_Ping [1]; EF_Text [104; 101; 108]], reassembly_new 100).
Proof. reflexivity. Qed.

(** ** Lemmas *)

Lemma check_message_size_Ok mx n : n ≤ mx → check_message_size mx n = Ok tt.
Proof. intros ?. unfold check_message_size. by rewrite (proj2 (Z.ltb_ge _ _)). Qed.

Lemma check_message_size_cases mx n :
  (check_message_size mx n = Ok tt ∧ n ≤ mx) ∨ check_message_size mx n = Err (PayloadTooLarge mx n).
Proof. unfold check_message_size. destruct (mx <? n) eqn:E; bool_lia; auto. Qed.

Lemma usize_checked_add_Some a b : a + b ≤ USIZE_MAX → usize_checked_add a b = Some (a + b).
Proof. intros ?. unfold usize_checked_add. by rewrite (proj2 (Z.leb_le _ _)). Qed.

Lemma deliver_single_Ok st o pl :
  is_data o = true → len pl ≤ max_message_size st → (o = Text → utf8_valid pl = true) →
  deliver_single st o pl = Ok (Some (message_for o pl)).
Proof.
  intros Ho Hl Hu. unfold deliver_single. rewrite check_message_size_Ok by done. cbn [obind].
  destruct o; try done. cbn. by rewrite Hu.
Qed.

Lemma feed_continuation st o buf b f :
  is_data o = true → len buf + len b ≤ max_message_size st → max_message_size st ≤ USIZE_MAX →
  in_progress st = Some (mkInProgress o buf) →
  (f = true → o = Text → utf8_valid (buf ++ b) = true) →
  feed st (mkDecodedFrame f Continuation b) =
    if f then (Ok (Some (message_for o (buf ++ b))), reassembly_new (max_message_size st))
    else (Ok None, mkReassemblyState (max_message_size st) (Some (mkInProgress o (buf ++ b)))).
Proof.
  intros Ho Hl Hm Hip Hu. unfold feed; cbn [opcode is_control]. rewrite Hip.
  unfold append_continuation. rewrite Hip. cbn [payload fin ip_buffer ip_opcode].
  rewrite usize_checked_add_Some, check_message_size_Ok by lia.
  destruct f; [|done]. rewrite deliver_single_Ok; [done|done|cbn; len_lia|auto].
Qed.

Lemma feed_middle st o buf mid rest os st' :
  is_data o = true → in_progress st = Some (mkInProgress o buf) →
  len buf + len (concat (mid_chunk <$> mid)) ≤ max_message_size st →
  max_message_size st ≤ USIZE_MAX →
  feed_list (mkReassemblyState (max_message_size st)
    (Some (mkInProgress o (buf ++ concat (mid_chunk <$> mid))))) rest = (Ok os, st') →
  feed_list st ((mid_frame <$> mid) ++ rest) = (Ok (concat (mid_output <$> mid) ++ os), st').
Proof.
  revert st buf; induction mid as [|i mid IH]; intros [mx ip] buf Ho Hip Hl Hm Hrest.
  - cbn in *. rewrite app_nil_r in Hrest. by rewrite Hip.
  - cbn in Hip. subst ip. cbn -[feed] in *. rewrite app_assoc in Hrest.
    destruct i as [b|b|b]; cbn [mid_frame mid_output mid_chunk] in *.
    + rewrite (feed_continuation _ o buf) by (done || (cbn; len_lia)).
      erewrite (IH _ (buf ++ b)); eauto; cbn; len_lia.
    + cbn. rewrite app_nil_r in Hrest. erewrite (IH _ buf); eauto.
    + cbn. rewrite app_nil_r in Hrest. erewrite (IH _ buf); eauto.
Qed.

Ltac naive := try done; try exact I; intros; simplify_eq/=; auto.

Lemma deliver_single_output st o pl :
  is_data o = true →
  no_panic (deliver_single st o pl) ∧
  (∀ t, deliver_single st o pl = Ok (Some (EF_Text t)) → utf8_valid t = true ∧ len t ≤ max_message_size st) ∧
  (∀ b, deliver_single st o pl = Ok (Some (EF_Binary b)) → len b ≤ max_message_size st).
Proof.
  intros Ho. unfold deliver_single.
  destruct (check_message_size_cases (max_message_size st) (len pl)) as [[-> ?]| ->]; cbn;
    [|split_and!; naive].
  destruct o; try done; [destruct (utf8_valid pl) eqn:?|]; split_and!; naive.
Qed.

Lemma parse_control_output f :
  is_control (opcode f) = true →
  no_panic (parse_control f) ∧ (∀ t, parse_control f ≠ Ok (EF_Text t)) ∧
  (∀ b, parse_control f ≠ Ok (EF_Binary b)).
Proof.
  intros Hc. unfold parse_control. destruct (opcode f); try done.
  repeat case_match; split_and!; done.
Qed.

Lemma feed_facts st f :
  reassembly_ok st →
  reassembly_ok (feed st f).2 ∧ max_message_size (feed st f).2 = max_message_size st ∧
  no_panic (feed st f).1 ∧
  (∀ t, (feed st f).1 = Ok (Some (EF_Text t)) → utf8_valid t = true ∧ len t ≤ max_message_size st) ∧
  (∀ b, (feed st f).1 = Ok (Some (EF_Binary b)) → len b ≤ max_message_size st).
Proof.
  intros Hst. destruct st as [mx ip]. destruct f as [fi o pl]. unfold feed; cbn [opcode fin payload].
  destruct (is_control o) eqn:Ec.
  { pose proof (parse_control_output (mkDecodedFrame fi o pl) Ec) as (Hp & Ht & Hb).
    destruct (parse_control _) as [[]| |]; split_and!; naive; exfalso; naive_solver. }
  destruct ip as [[io ib]|]; unfold reassembly_ok in Hst; cbn in Hst.
  - destruct Hst as [Hio Hib]. destruct o; try done; cbn -[append_continuation];
      [|split_and!; naive..]. unfold append_continuation; cbn.
    unfold usize_checked_add. destruct (_ <=? USIZE_MAX); [|split_and!; naive].
    destruct (check_message_size_cases mx (len ib + len pl)) as [[-> ?]| ->]; [|split_and!; naive].
    destruct fi; cbn -[deliver_single].
    + destruct (deliver_single_output (mkReassemblyState mx None) io (ib ++ pl) Hio) as (?&?&?).
      by split_and!.
    + split_and!; naive; cbn; len_lia.
  - destruct o; try done; cbn -[deliver_single].
    all: destruct fi; cbn -[deliver_single];
      [match goal with |- context [deliver_single _ ?o _] =>
         destruct (deliver_single_output (mkReassemblyState mx None) o pl eq_refl) as (?&?&?) end;
       by split_and!|].
    all: destruct (check_message_size_cases mx (len pl)) as [[-> ?]| ->]; cbn; split_and!; naive.
Qed.

(** ** Properties of reassembly *)

(** Fragmentation is invisible: a text or binary message cut into any
    number of fragments, with pings and pongs interleaved anywhere, is delivered
    exactly once, whole and after the control frames that preceded its last
    fragment, and the state is ready for the next message. *)
Theorem feed_fragmented mx o c0 mid cl :
  is_data o = true → mx ≤ USIZE_MAX → len (whole_payload c0 mid cl) ≤ mx →
  (o = Text → utf8_valid (whole_payload c0 mid cl) = true) →
  feed_list (reassembly_new mx) (fragmented o c0 mid cl) =
    (Ok (concat (mid_output <$> mid) ++ [message_for o (whole_payload c0 mid cl)]),
     reassembly_new mx).
Proof.
  intros Ho Hm Hl Hu. unfold fragmented, whole_payload in *. cbn -[feed feed_list].
  set (st1 := mkReassemblyState mx (Some (mkInProgress o c0))).
  assert (feed (reassembly_new mx) (mkDecodedFrame false o c0) = (Ok None, st1)) as Hf.
  { unfold feed. cbn. rewrite check_message_size_Ok by len_lia. by destruct o. }
  cbn [feed_list]. rewrite Hf.
  erewrite (feed_middle st1 o c0 mid [mkDecodedFrame true Continuation cl]); [done|done|done| |done|].
  - cbn. len_lia.
  - cbn [feed_list]. rewrite (feed_continuation _ o (c0 ++ concat (mid_chunk <$> mid)));
      rewrite <- ?app_assoc; [done|done|cbn; len_lia|done|done|auto].
Qed.
Lemma feed_fragmented_witness :
  feed_list (reassembly_new 100) (fragmented Text [104] [Chunk [101]; MidPing [1]] [108])
  = (Ok ([EF_Ping [1]] ++ [EF_Text [104; 101; 108]]), reassembly_new 100).
Proof.
  apply (feed_fragmented 100 Text [104] [Chunk [101]; MidPing [1]] [108]); done.
Defined.

(** Feeding any frame to a well-formed state keeps it well-formed (the
    partial message is data and within the limit), reaches none of the
    [unreachable!]/[expect] arms, and a data message that comes out is within the
    size limit and, if it is text, valid UTF-8. *)
Theorem feed_invariant st f :
  reassembly_ok st →
  reassembly_ok (feed st f).2 ∧ max_message_size (feed st f).2 = max_message_size st ∧
  no_panic (feed st f).1 ∧
  (∀ t, (feed st f).1 = Ok (Some (EF_Text t)) → utf8_valid t = true ∧ len t ≤ max_message_size st) ∧
  (∀ b, (feed st f).1 = Ok (Some (EF_Binary b)) → len b ≤ max_message_size st).
Proof. apply feed_facts. Qed.
Lemma feed_invariant_witness :
  utf8_valid [104] = true ∧ len [104] ≤ 5.
Proof.
  destruct (feed_invariant (reassembly_new 5) (mkDecodedFrame true Text [104])) as (_ & _ & _ & Ht & _);
    [exact I|]. apply Ht. reflexivity.
Defined.
