(* ===== verification/WsEngine.v ===== *)
(** * The native WebSocket engine: sink and stream

    openwire/src/websocket/native/engine.rs.  The transport under the engine is
    the environment: what [poll_write], [poll_flush] and [poll_read] answer is a
    script of events, one per call, and a script that has run out answers
    [Pending].  The bytes the transport accepted are kept in [wire]. *)

From S2P Require Import Prelude Net Error WsCodec WsSession.

(** ** Configuration and upgrade *)

(** [Role], openwire-core/websocket/engine.rs:12-18. *)
Inductive Role : Type := Client | Server.

(** [WebSocketEngineConfig], openwire-core/websocket/engine.rs:20-27. *)
Record WebSocketEngineConfig : Type := mkWebSocketEngineConfig {
  role : Role;
  subprotocol : option string;
  extensions : list string;
  cfg_max_frame_size : Z;
  cfg_max_message_size : Z;
}.

(** [NativeSink], openwire/websocket/native/engine.rs:78-81. *)
Record NativeSink : Type := mkNativeSink {
  wire : bytes;
  sink_buf : bytes;
}.

(** [NativeStream], openwire/websocket/native/engine.rs:188-194. *)
Record NativeStream : Type := mkNativeStream {
  stream_buf : bytes;
  reassembly : ReassemblyState;
  max_frame_size : Z;
  done : bool;
}.

(** [NativeSink::new], openwire/websocket/native/engine.rs:84-89. *)
Definition sink_new : NativeSink := mkNativeSink [] [].

(** [NativeStream::new], openwire/websocket/native/engine.rs:197-205. *)
Definition stream_new (mx_frame mx_message : Z) : NativeStream :=
  mkNativeStream [] (reassembly_new mx_message) mx_frame false.

(** [NativeEngine::upgrade], openwire/websocket/native/engine.rs:40-72. *)
Definition upgrade (config : WebSocketEngineConfig)
    : outcome WebSocketEngineError (NativeSink * NativeStream) :=
  match role config with
  | Server => Err (UnsupportedExtension "native engine only supports client role in v1")
  | Client =>
    if existsb (λ e, negb (bool_decide (e = ""%string))) (extensions config) then
      Err (UnsupportedExtension (String.concat ", " (extensions config)))
    else Ok (sink_new, stream_new (cfg_max_frame_size config) (cfg_max_message_size config))
  end.

(** ** The sink *)

(** What the transport answers to one write or flush. *)
Inductive write_event : Type :=
| WritePending
| WriteOk (n : Z)
| WriteErr (m : string).
Inductive flush_event : Type :=
| FlushPending
| FlushOk
| FlushErr (m : string).

(** [NativeSink::drain] after the buffer is empty, openwire/websocket/native/engine.rs:111-121. *)
Definition flush (f : option flush_event) : poll (outcome WebSocketEngineError unit) :=
  match f with
  | None | Some FlushPending => Pending
  | Some FlushOk => Ready (Ok tt)
  | Some (FlushErr m) => Ready (Err (Io (with_source Kind_Protocol "websocket flush failed" m)))
  end.

(** [NativeSink::drain], openwire/websocket/native/engine.rs:91-122; also
    [poll_flush] and [poll_close], which call it. *)
Fixpoint drain (me : NativeSink) (writes : list write_event) (fl : option flush_event)
    : poll (outcome WebSocketEngineError unit) * NativeSink :=
  match sink_buf me with
  | [] => (flush fl, me)
  | _ =>
    match writes with
    | [] | WritePending :: _ => (Pending, me)
    | WriteErr m :: _ =>
      (Ready (Err (Io (with_source Kind_Protocol "websocket write failed" m))), me)
    | WriteOk n :: writes =>
      if n =? 0 then
        (Ready (Err (Io (internal "websocket peer closed write half" "write zero"))), me)
      else if len (sink_buf me) <? n then (Ready Panic, me)
      else
        let k := Z.to_nat n in
        drain (mkNativeSink (wire me ++ take k (sink_buf me)) (drop k (sink_buf me))) writes fl
    end
  end.

(** The header [start_send] writes for an item, openwire/websocket/native/engine.rs:137-158. *)
Definition outbound_header (item : EngineFrame) : FrameHeader :=
  mkFrameHeader true
    match item with
    | EF_Text _ => Text
    | EF_Binary _ => Binary
    | EF_Ping _ => Ping
    | EF_Pong _ => Pong
    | EF_Close _ _ => Close
    end.

(** The payload [start_send] writes for an item, openwire/websocket/native/engine.rs:159-171. *)
Definition outbound_payload (item : EngineFrame) : bytes :=
  match item with
  | EF_Text t => t
  | EF_Binary b | EF_Ping b | EF_Pong b => b
  | EF_Close code reason =>
    if (code =? 1005) && (len reason =? 0) then []
    else be_bytes 2 code ++ reason
  end.

(** [random_mask_key], openwire/websocket/native/mask.rs:7-16: the system's random
    source is the environment; [None] is its failure. *)
Definition random_mask_key (rnd : option MaskKey) : outcome WebSocketEngineError MaskKey :=
  match rnd with
  | Some k => Ok k
  | None => Err (Io (internal "failed to generate WebSocket mask key" "getrandom"))
  end.

(** [NativeSink::start_send], openwire/websocket/native/engine.rs:132-174. *)
Definition start_send (me : NativeSink) (item : EngineFrame) (rnd : option MaskKey)
    : outcome WebSocketEngineError unit * NativeSink :=
  match validate_outbound_engine_frame item with
  | Err e => (Err e, me)
  | Panic => (Panic, me)
  | Ok _ =>
    match random_mask_key rnd with
    | Err e => (Err e, me)
    | Panic => (Panic, me)
    | Ok key =>
      (Ok tt, mkNativeSink (wire me)
        (encode_frame (sink_buf me) (outbound_header item) (outbound_payload item) (Some key)))
    end
  end.

(** ** The stream *)

(** What the transport answers to one read; [ReadOk []] is end of file. *)
Inductive read_event : Type :=
| ReadPending
| ReadOk (filled : bytes)
| ReadErr (m : string).

(** [NativeStream::poll_fill], openwire/websocket/native/engine.rs:207-229. *)
Definition poll_fill (me : NativeStream) (reads : list read_event)
    : poll (outcome WebSocketEngineError bool) * NativeStream * list read_event :=
  match reads with
  | [] => (Pending, me, [])
  | ReadPending :: reads => (Pending, me, reads)
  | ReadOk [] :: reads => (Ready (Ok true), me, reads)
  | ReadOk filled :: reads =>
    (Ready (Ok false),
     mkNativeStream (stream_buf me ++ filled) (reassembly me) (max_frame_size me) (done me), reads)
  | ReadErr m :: reads =>
    (Ready (Err (Io (with_source Kind_Protocol "websocket read failed" m))), me, reads)
  end.

(** An item of the stream; [Panic] stands for a panic of the polling task. *)
Abbreviation item := (outcome WebSocketEngineError EngineFrame) (only parsing).

Inductive step_result : Type :=
| Continue (me : NativeStream) (reads : list read_event)
| Return (r : poll (option (outcome WebSocketEngineError EngineFrame)))
    (me : NativeStream) (reads : list read_event).

Definition finish (me : NativeStream) (buf : bytes) (rs : ReassemblyState) : NativeStream :=
  mkNativeStream buf rs (max_frame_size me) true.

(** The end-of-file arm of [poll_next], openwire/websocket/native/engine.rs:269-280. *)
Definition at_eof (buf : bytes) (rs : ReassemblyState)
    : option (outcome WebSocketEngineError EngineFrame) :=
  if negb (len buf =? 0) then Some (Err (InvalidFrame "truncated websocket frame")) else
  match end_of_stream rs with
  | Err e => Some (Err e)
  | Panic => Some Panic
  | Ok _ => None
  end.

(** One turn of the loop of [NativeStream::poll_next],
    openwire/websocket/native/engine.rs:235-285. *)
Definition stream_step (me : NativeStream) (reads : list read_event) : step_result :=
  if done me then Return (Ready None) me reads else
  match decode_frame (stream_buf me) (max_frame_size me) with
  | (Err e, buf) => Return (Ready (Some (Err e))) (finish me buf (reassembly me)) reads
  | (Panic, buf) => Return (Ready (Some Panic)) (finish me buf (reassembly me)) reads
  | (Ok (Some frame), buf) =>
    let was_close := bool_decide (opcode frame = Close) in
    match feed (reassembly me) frame with
    | (Err e, rs) => Return (Ready (Some (Err e))) (finish me buf rs) reads
    | (Panic, rs) => Return (Ready (Some Panic)) (finish me buf rs) reads
    | (Ok (Some engine_frame), rs) =>
      Return (Ready (Some (Ok engine_frame)))
        (mkNativeStream buf rs (max_frame_size me) (was_close || done me)) reads
    | (Ok None, rs) => Continue (mkNativeStream buf rs (max_frame_size me) (done me)) reads
    end
  | (Ok None, buf) =>
    match poll_fill me reads with
    | (Pending, me, reads) => Return Pending me reads
    | (Ready (Err e), me, reads) =>
      Return (Ready (Some (Err e))) (finish me (stream_buf me) (reassembly me)) reads
    | (Ready Panic, me, reads) =>
      Return (Ready (Some Panic)) (finish me (stream_buf me) (reassembly me)) reads
    | (Ready (Ok true), me, reads) =>
      Return (Ready (at_eof (stream_buf me) (reassembly me)))
        (finish me (stream_buf me) (reassembly me)) reads
    | (Ready (Ok false), me, reads) => Continue me reads
    end
  end.

(** The loop, with fuel. *)
Fixpoint poll_loop (fuel : nat) (me : NativeStream) (reads : list read_event)
    : option (poll (option (outcome WebSocketEngineError EngineFrame)) *
              NativeStream * list read_event) :=
  match fuel with
  | O => None
  | S fuel =>
    match stream_step me reads with
    | Continue me reads => poll_loop fuel me reads
    | Return r me reads => Some (r, me, reads)
    end
  end.

(** Bytes buffered or still to be read, plus the reads still to be made: every
    turn that continues takes one away. *)
Definition read_weight (e : read_event) : nat :=
  match e with ReadOk b => S (length b) | _ => 1%nat end.
Definition stream_measure (me : NativeStream) (reads : list read_event) : nat :=
  (length (stream_buf me) + sum_list (read_weight <$> reads))%nat.

(** [NativeStream::poll_next], openwire/websocket/native/engine.rs:235-285. *)
Definition poll_next (me : NativeStream) (reads : list read_event) :=
  poll_loop (S (stream_measure me reads)) me reads.

(** Polling the stream to its end: the items it yields. *)
Inductive stream_run : NativeStream → list read_event →
    list (outcome WebSocketEngineError EngineFrame) → Prop :=
| run_end me reads me' reads' :
    poll_next me reads = Some (Ready None, me', reads') → stream_run me reads []
| run_item me reads i me' reads' items :
    poll_next me reads = Some (Ready (Some i), me', reads') →
    stream_run me' reads' items → stream_run me reads (i :: items)
| run_pending me reads me' reads' items :
    poll_next me reads = Some (Pending, me', reads') →
    stream_run me' reads' items → stream_run me reads items.

(** ** The reference: what a whole byte sequence means

    Frames are decoded from the complete input, with no notion of chunks. *)
Fixpoint parse_items (fuel : nat) (mx : Z) (rs : ReassemblyState) (bs : bytes)
    : list (outcome WebSocketEngineError EngineFrame) :=
  match fuel with
  | O => []
  | S fuel =>
    match decode_frame bs mx with
    | (Err e, _) => [Err e]
    | (Panic, _) => [Panic]
    | (Ok None, _) => option_list (at_eof bs rs)
    | (Ok (Some frame), rest) =>
      match feed rs frame with
      | (Err e, _) => [Err e]
      | (Panic, _) => [Panic]
      | (Ok (Some ef), rs) =>
        Ok ef :: (if bool_decide (opcode frame = Close) then [] else parse_items fuel mx rs rest)
      | (Ok None, rs) => parse_items fuel mx rs rest
      end
    end
  end.

Definition items_of_bytes (mx_frame mx_message : Z) (bs : bytes) :=
  parse_items (S (length bs)) mx_frame (reassembly_new mx_message) bs.

(** The bytes a script of reads delivers. *)
Definition read_bytes (e : read_event) : bytes := match e with ReadOk b => b | _ => [] end.

(** A script that delivers data in nonempty chunks, with [Pending]s anywhere. *)
Definition chunked (reads : list read_event) : Prop :=
  Forall (λ e, match e with ReadOk [] | ReadErr _ => False | _ => True end) reads.

(** ** Decoding and the loop measure *)

Lemma decode_header_lens buf mx f o h n :
  decode_header buf mx = Ok (Some (f, o, h, n)) → 2 ≤ h ∧ 0 ≤ n ∧ h + n ≤ len buf.
Proof.
  unfold decode_header. destruct (_ <? 2); [naive|]. destruct (negb _); [naive|].
  destruct (from_byte _); [|naive]. destruct (bit_set _ _); [naive|]. destruct (_ && _); [naive|].
  destruct (decode_length _ _ _) as [[[h' n']|]| |] eqn:El; cbn; try done.
  destruct (_ && _); [naive|]. destruct (mx <? _); [naive|].
  destruct (len buf <? _) eqn:Elen; [naive|]. intros [= <- <- <- <-]. bool_lia.
  revert El. unfold decode_length. pose proof (len_field_bound (buf !!! 1%nat)).
  repeat (case_match; try done); intros; simplify_eq/=; bool_lia; unfold U16_MAX in *; lia.
Qed.

Lemma decode_frame_shrinks buf mx f rest :
  decode_frame buf mx = (Ok (Some f), rest) → (length rest + 2 ≤ length buf)%nat.
Proof.
  unfold decode_frame. destruct (decode_header buf mx) as [[[[[f' o'] h] n]|]| |] eqn:E; try done.
  intros [= <- <-]. apply decode_header_lens in E. rewrite !length_drop. unfold len in E. lia.
Qed.

Lemma decode_frame_None buf mx buf' : decode_frame buf mx = (Ok None, buf') → buf' = buf.
Proof. unfold decode_frame. repeat case_match; intros; by simplify_eq/=. Qed.

Lemma decode_frame_mono p q mx :
  (decode_frame p mx).1 ≠ Ok None →
  (decode_frame (p ++ q) mx).1 = (decode_frame p mx).1 ∧
  (∀ f rest, decode_frame p mx = (Ok (Some f), rest) →
             decode_frame (p ++ q) mx = (Ok (Some f), rest ++ q)).
Proof.
  intros Hne.
  assert (Hh : decode_header p mx ≠ Ok None).
  { intros Hh. apply Hne. unfold decode_frame. by rewrite Hh. }
  unfold decode_frame. rewrite (decode_header_mono p q mx Hh).
  destruct (decode_header p mx) as [[[[[f o] h] n]|]| |] eqn:E; try (by split; naive).
  apply decode_header_lens in E. unfold len in E.
  rewrite (drop_app_le p q) by lia. rewrite take_app_le, drop_app_le by (rewrite length_drop; lia).
  split; [done|]. by intros ? ? [= <- <-].
Qed.

Lemma stream_step_measure me reads me' reads' :
  stream_step me reads = Continue me' reads' →
  (stream_measure me' reads' < stream_measure me reads)%nat.
Proof.
  unfold stream_step, stream_measure. destruct (done me); [done|].
  destruct (decode_frame _ _) as [[[f|]| |] buf] eqn:E; try done.
  - apply decode_frame_shrinks in E.
    destruct (feed _ f) as [[[ef|]| |] rs]; try done. intros [= <- <-]. cbn. lia.
  - unfold poll_fill. destruct reads as [|[|[|b bs]|m] reads]; try done. intros [= <- <-].
    cbn. rewrite length_app. cbn. lia.
Qed.

Lemma poll_loop_enough fuel1 fuel2 me reads :
  (stream_measure me reads < fuel1)%nat → (stream_measure me reads < fuel2)%nat →
  poll_loop fuel1 me reads = poll_loop fuel2 me reads ∧ is_Some (poll_loop fuel1 me reads).
Proof.
  revert fuel2 me reads; induction fuel1 as [|fuel1 IH]; intros [|fuel2] me reads H1 H2; try lia.
  cbn. destruct (stream_step me reads) as [me' reads'|r me' reads'] eqn:E; [|by eauto].
  apply stream_step_measure in E. apply IH; lia.
Qed.

Lemma poll_next_unfold me reads :
  poll_next me reads =
    match stream_step me reads with
    | Continue me' reads' => poll_next me' reads'
    | Return r me' reads' => Some (r, me', reads')
    end.
Proof.
  unfold poll_next at 1. cbn [poll_loop].
  destruct (stream_step me reads) as [me' reads'|] eqn:E; [|done].
  apply stream_step_measure in E. apply (poll_loop_enough _ (S (stream_measure me' reads'))); lia.
Qed.

Lemma stream_run_continue me reads me' reads' items :
  stream_step me reads = Continue me' reads' →
  stream_run me' reads' items → stream_run me reads items.
Proof.
  intros Hs Hr. assert (Hp : poll_next me reads = poll_next me' reads') by (by rewrite poll_next_unfold, Hs).
  destruct Hr; [eapply run_end|eapply run_item|eapply run_pending]; rewrite ?Hp; eauto.
Qed.

Lemma stream_run_done me reads : done me = true → stream_run me reads [].
Proof. intros Hd. eapply run_end. rewrite poll_next_unfold. unfold stream_step. by rewrite Hd. Qed.

Lemma stream_run_last me reads o me' reads' :
  stream_step me reads = Return (Ready o) me' reads' → done me' = true →
  stream_run me reads (option_list o).
Proof.
  intros Hs Hd. assert (Hp : poll_next me reads = Some (Ready o, me', reads'))
    by (by rewrite poll_next_unfold, Hs).
  destruct o; [eapply run_item|eapply run_end]; eauto using stream_run_done.
Qed.

Lemma stream_run_det me reads items1 items2 :
  stream_run me reads items1 → stream_run me reads items2 → items1 = items2.
Proof.
  intros H1; revert items2.
  induction H1 as [???? Hp|?????? Hp _ IH|????? Hp _ IH]; intros items2 H2; destruct H2; try congruence.
  - f_equal; [congruence|]. apply IH. rewrite Hp in H. by simplify_eq.
  - apply IH. rewrite Hp in H. by simplify_eq.
Qed.

(** ** The reference parser *)

Lemma parse_items_enough fuel1 fuel2 mx rs bs :
  (length bs < fuel1)%nat → (length bs < fuel2)%nat →
  parse_items fuel1 mx rs bs = parse_items fuel2 mx rs bs.
Proof.
  revert fuel2 rs bs; induction fuel1 as [|fuel1 IH]; intros [|fuel2] rs bs H1 H2; try lia.
  cbn. destruct (decode_frame bs mx) as [[[f|]| |] rest] eqn:E; try done.
  apply decode_frame_shrinks in E.
  destruct (feed rs f) as [[[ef|]| |] rs']; try done; [case_match; [done|f_equal]|]; apply IH; lia.
Qed.

Definition parse_all (mx : Z) (rs : ReassemblyState) (bs : bytes) :=
  parse_items (S (length bs)) mx rs bs.

Lemma parse_all_unfold mx rs bs :
  parse_all mx rs bs =
    match decode_frame bs mx with
    | (Err e, _) => [Err e]
    | (Panic, _) => [Panic]
    | (Ok None, _) => option_list (at_eof bs rs)
    | (Ok (Some frame), rest) =>
      match feed rs frame with
      | (Err e, _) => [Err e]
      | (Panic, _) => [Panic]
      | (Ok (Some ef), rs) =>
        Ok ef :: (if bool_decide (opcode frame = Close) then [] else parse_all mx rs rest)
      | (Ok None, rs) => parse_all mx rs rest
      end
    end.
Proof.
  unfold parse_all at 1. cbn [parse_items].
  destruct (decode_frame bs mx) as [[[f|]| |] rest] eqn:E; try done.
  apply decode_frame_shrinks in E.
  destruct (feed rs f) as [[[ef|]| |] rs']; try done; [case_match; [done|f_equal]|];
    apply parse_items_enough; lia.
Qed.

(** From any state, chunked input then end of file runs to the items the
    reference reads from the buffered bytes followed by the rest of the input. *)
Lemma stream_run_parse n me reads :
  (stream_measure me reads < n)%nat → done me = false → chunked reads →
  stream_run me (reads ++ [ReadOk []])
    (parse_all (max_frame_size me) (reassembly me) (stream_buf me ++ concat (read_bytes <$> reads))).
Proof.
  revert me reads; induction n as [|n IH]; intros me reads Hm Hd Hc; [lia|].
  set (data := concat (read_bytes <$> reads)).
  destruct (decode_frame (stream_buf me) (max_frame_size me)) as [[[f|]|e|] buf] eqn:E.
  - (* a frame *)
    pose proof (decode_frame_shrinks _ _ _ _ E) as Hs.
    assert (E' : decode_frame (stream_buf me ++ data) (max_frame_size me) = (Ok (Some f), buf ++ data))
      by (apply decode_frame_mono; rewrite ?E; done).
    rewrite parse_all_unfold, E'.
    destruct (feed (reassembly me) f) as [[[ef|]|e|] rs] eqn:Ef.
    + set (me' := mkNativeStream buf rs (max_frame_size me) (bool_decide (opcode f = Close))).
      eapply (run_item _ _ _ me').
      { rewrite poll_next_unfold. unfold stream_step. rewrite Hd, E, Ef, orb_false_r. done. }
      destruct (bool_decide (opcode f = Close)) eqn:Eb; [by apply stream_run_done|].
      apply (IH me' reads); [unfold stream_measure in *; cbn; lia|done|done].
    + eapply (stream_run_continue _ _ (mkNativeStream buf rs (max_frame_size me) false)).
      { unfold stream_step. by rewrite Hd, E, Ef. }
      apply (IH (mkNativeStream buf rs _ false) reads); [unfold stream_measure in *; cbn; lia|done|done].
    + by eapply (stream_run_last _ _ (Some (Err e))); [unfold stream_step; by rewrite Hd, E, Ef|].
    + by eapply (stream_run_last _ _ (Some Panic)); [unfold stream_step; by rewrite Hd, E, Ef|].
  - (* more input needed *)
    pose proof (decode_frame_None _ _ _ E) as ->.
    unfold chunked in Hc. destruct reads as [|r reads]; [|apply Forall_cons in Hc as [Hr Hc]].
    + unfold data; cbn [fmap list_fmap concat app]. rewrite app_nil_r, parse_all_unfold, E.
      by eapply stream_run_last; [unfold stream_step; by rewrite Hd, E|].
    + destruct r as [|[|b bs]|m]; try done.
      * eapply run_pending; [|apply (IH me reads); [unfold stream_measure in *; cbn in *; lia|done|done]].
        rewrite poll_next_unfold. unfold stream_step. by rewrite Hd, E.
      * set (me' := mkNativeStream (stream_buf me ++ b :: bs) (reassembly me) (max_frame_size me) (done me)).
        eapply (stream_run_continue _ _ me' (reads ++ [ReadOk []])).
        { unfold stream_step. by rewrite Hd, E. }
        unfold data. cbn [fmap list_fmap read_bytes concat]. rewrite app_assoc.
        apply (IH me' reads); [|done|done].
        unfold stream_measure in *; cbn in *. rewrite length_app; cbn. lia.
  - destruct (decode_frame_mono (stream_buf me) data (max_frame_size me)) as [Hf _]; [by rewrite E|].
    rewrite E in Hf. rewrite parse_all_unfold.
    destruct (decode_frame (_ ++ data) _) as [r rest]; cbn in Hf; subst r.
    by eapply (stream_run_last _ _ (Some (Err e))); [unfold stream_step; by rewrite Hd, E|].
  - pose proof (decode_frame_no_panic (stream_buf me) (max_frame_size me)) as Hp. by rewrite E in Hp.
Qed.

Lemma parse_items_no_panic fuel mx rs bs :
  reassembly_ok rs → Panic ∉ parse_items fuel mx rs bs.
Proof.
  revert rs bs; induction fuel as [|fuel IH]; intros rs bs Hrs; [by apply not_elem_of_nil|]. cbn.
  pose proof (decode_frame_no_panic bs mx) as Hp.
  destruct (decode_frame bs mx) as [[[f|]|e|] rest]; try done.
  - destruct (feed_facts rs f Hrs) as (Hrs' & _ & Hnp & _).
    destruct (feed rs f) as [[[ef|]|e|] rs']; cbn in *; try done; [|by auto|set_solver].
    apply not_elem_of_cons. split; [done|]. case_match; [set_solver|auto].
  - unfold at_eof, end_of_stream. repeat case_match; cbn; set_solver.
  - set_solver.
Qed.

(** ** Properties of the engine *)

(** C6.  The stream is independent of how the bytes arrive: for every way of
    cutting the input into reads, with any number of [Pending]s in between, the
    stream ends, and the items it yields are the ones the reference parser reads
    from the concatenated input. *)
Theorem stream_chunking_independent mx_frame mx_message reads items :
  chunked reads →
  stream_run (stream_new mx_frame mx_message) (reads ++ [ReadOk []]) items ↔
  items = items_of_bytes mx_frame mx_message (concat (read_bytes <$> reads)).
Proof.
  intros Hc.
  pose proof (stream_run_parse _ (stream_new mx_frame mx_message) reads (Nat.lt_succ_diag_r _)
    eq_refl Hc) as Hrun.
  split; [intros Hr; by eapply stream_run_det|by intros ->].
Qed.
Lemma stream_chunking_independent_witness :
  stream_run (stream_new 100 100) ([ReadOk [0x81]; ReadPending; ReadOk [0x01; 104; 0x88]; ReadOk [0]] ++ [ReadOk []])
    [Ok (EF_Text [104]); Ok (EF_Close 1005 [])].
Proof.
  apply (stream_chunking_independent 100 100 [ReadOk [0x81]; ReadPending; ReadOk [0x01; 104; 0x88]; ReadOk [0]]).
  - repeat constructor.
  - reflexivity.
Defined.

(** One call of [poll_next] always returns: the loop terminates on every state
    and every script of reads. *)
Theorem poll_next_total me reads : is_Some (poll_next me reads).
Proof. apply (poll_loop_enough _ (S (stream_measure me reads))); lia. Qed.

(** A run of the stream never hits a panicking arm of the decoder or of the
    reassembly. *)
Theorem stream_never_panics mx_frame mx_message reads items :
  chunked reads →
  stream_run (stream_new mx_frame mx_message) (reads ++ [ReadOk []]) items → Panic ∉ items.
Proof.
  intros Hc Hr.
  pose proof (stream_run_parse _ (stream_new mx_frame mx_message) reads (Nat.lt_succ_diag_r _)
    eq_refl Hc) as Hrun.
  rewrite (stream_run_det _ _ _ _ Hr Hrun). by apply parse_items_no_panic.
Qed.
Lemma stream_never_panics_witness : (Panic : outcome WebSocketEngineError EngineFrame) ∉ [Err InvalidUtf8].
Proof.
  apply (stream_never_panics 100 100 [ReadOk [0x81; 0x01; 0xFF]]); [repeat constructor|].
  by eapply run_item; [reflexivity|]; eapply run_end; reflexivity.
Defined.

(** *** The sink *)

(** What the session asks of the sink. *)
Inductive sink_op : Type :=
| Send (item : EngineFrame) (rnd : option MaskKey)
| Drain (writes : list write_event) (fl : option flush_event).

Definition run_op (me : NativeSink) (op : sink_op) : NativeSink :=
  match op with
  | Send item rnd => (start_send me item rnd).2
  | Drain writes fl => (drain me writes fl).2
  end.
Definition run_sink (ops : list sink_op) : NativeSink := foldl run_op sink_new ops.

(** The bytes an operation adds to the outgoing byte sequence. *)
Definition accepted (op : sink_op) : bytes :=
  match op with
  | Send item (Some key) =>
    match validate_outbound_engine_frame item with
    | Ok _ => encode_frame [] (outbound_header item) (outbound_payload item) (Some key)
    | _ => []
    end
  | _ => []
  end.

Lemma drain_conserves me writes fl :
  wire (drain me writes fl).2 ++ sink_buf (drain me writes fl).2 = wire me ++ sink_buf me.
Proof.
  revert me; induction writes as [|w writes IH]; intros [w0 b0]; destruct b0 as [|b b0]; cbn; try done.
  destruct w as [|n|m]; try done. destruct (n =? 0); [done|]. destruct (_ <? n); [done|].
  rewrite IH. cbn [wire sink_buf]. by rewrite <- app_assoc, take_drop.
Qed.

Lemma drain_flushed me writes fl me' :
  drain me writes fl = (Ready (Ok tt), me') → sink_buf me' = [].
Proof.
  revert me; induction writes as [|w writes IH]; intros [w0 b0]; destruct b0 as [|b b0]; cbn; try done.
  1,2: by intros [= _ <-].
  destruct w as [|n|m]; try done. destruct (n =? 0); [done|]. destruct (_ <? n); [done|]. apply IH.
Qed.

Lemma encode_frame_append out h pl m : encode_frame out h pl m = out ++ encode_frame [] h pl m.
Proof. reflexivity. Qed.

Lemma run_op_conserves me op :
  wire (run_op me op) ++ sink_buf (run_op me op) = (wire me ++ sink_buf me) ++ accepted op.
Proof.
  destruct op as [item rnd|writes fl]; cbn [run_op accepted].
  - unfold start_send. destruct (validate_outbound_engine_frame item), rnd; cbn [random_mask_key snd];
      rewrite ?app_nil_r; try done.
    cbn [wire sink_buf]. rewrite encode_frame_append. by rewrite app_assoc.
  - by rewrite drain_conserves, app_nil_r.
Qed.

Lemma run_sink_conserves ops :
  wire (run_sink ops) ++ sink_buf (run_sink ops) = concat (accepted <$> ops).
Proof.
  induction ops as [|op ops IH] using rev_ind; [done|].
  unfold run_sink in *. rewrite foldl_snoc, run_op_conserves, IH, fmap_app, concat_app.
  cbn. by rewrite app_nil_r.
Qed.

(** The sink loses, duplicates and reorders nothing: after any sequence of
    sends and (partial, failing or completed) drains, the bytes the transport
    took followed by the bytes still buffered are the encodings of the accepted
    frames in the order they were sent; and a drain that reports success has
    written all of them. *)
Theorem sink_in_order ops :
  wire (run_sink ops) ++ sink_buf (run_sink ops) = concat (accepted <$> ops) ∧
  ∀ writes fl me', drain (run_sink ops) writes fl = (Ready (Ok tt), me') →
    sink_buf me' = [] ∧ wire me' = concat (accepted <$> ops).
Proof.
  split; [apply run_sink_conserves|]. intros writes fl me' Hd.
  pose proof (drain_flushed _ _ _ _ Hd) as Hb. split; [done|].
  pose proof (drain_conserves (run_sink ops) writes fl) as Hc.
  rewrite Hd in Hc. cbn [snd] in Hc. rewrite Hb, app_nil_r in Hc. by rewrite Hc, run_sink_conserves.
Qed.

(** A frame as the application may hand it over: [String]s are UTF-8 and a close
    code is a [u16]. *)
Definition outbound_ok (f : EngineFrame) : Prop :=
  match f with
  | EF_Text t => bytes_ok t ∧ utf8_valid t = true
  | EF_Binary b | EF_Ping b | EF_Pong b => bytes_ok b
  | EF_Close code reason => 0 ≤ code ≤ U16_MAX ∧ bytes_ok reason ∧ utf8_valid reason = true
  end.

Lemma validate_control_Ok knd n u :
  validate_control_payload_len knd n = Ok u → n ≤ 125.
Proof. unfold validate_control_payload_len, MAX_CONTROL_FRAME_PAYLOAD_BYTES. case_match; [done|]. bool_lia. Qed.

Lemma close_code_bound code : close_code_is_valid code = true → 1000 ≤ code ≤ 4999.
Proof.
  unfold close_code_is_valid, in_range. rewrite !orb_true_iff, !andb_true_iff, !Z.leb_le. lia.
Qed.

Lemma outbound_frame_ok item u :
  outbound_ok item → validate_outbound_engine_frame item = Ok u → len (outbound_payload item) < 2 ^ 63 →
  frame_ok (mkDecodedFrame true (h_opcode (outbound_header item)) (outbound_payload item)).
Proof.
  intros Hok Hv Hl. unfold frame_ok. cbn [payload opcode fin].
  destruct item as [t|b|b|b|code reason];
    cbn [outbound_ok outbound_header h_opcode outbound_payload is_control
         validate_outbound_engine_frame] in *;
    split_and!; try done; try (by destruct Hok).
  - intros _. by apply validate_control_Ok in Hv.
  - intros _. by apply validate_control_Ok in Hv.
  - destruct (_ && _); [by constructor|]. apply bytes_ok_app.
    by split; [apply be_bytes_ok|destruct Hok as (_ & ? & _)].
  - intros _. split; [done|]. destruct (_ && _); [done|]. revert Hv.
    unfold validate_close_frame, MAX_CLOSE_REASON_BYTES. repeat case_match; try done. intros _.
    bool_lia. len_lia.
Qed.

Lemma feed_outbound mx item u :
  outbound_ok item → validate_outbound_engine_frame item = Ok u →
  len (outbound_payload item) ≤ mx →
  feed (reassembly_new mx) (mkDecodedFrame true (h_opcode (outbound_header item)) (outbound_payload item))
    = (Ok (Some item), reassembly_new mx).
Proof.
  intros Hok Hv Hl. unfold feed. cbn [opcode].
  destruct item as [t|b|b|b|code reason]; cbn [outbound_header h_opcode is_control outbound_payload] in *.
  - unfold deliver_single. cbn. rewrite check_message_size_Ok by done. cbn. by destruct Hok as [_ ->].
  - unfold deliver_single. cbn. by rewrite check_message_size_Ok.
  - done.
  - done.
  - unfold parse_control. cbn [opcode payload]. cbn in Hv. unfold CLOSE_NO_STATUS_CODE in Hv.
    destruct ((code =? 1005) && (len reason =? 0)) eqn:E.
    + apply andb_true_iff in E as [E1 E2]. bool_lia. apply len_zero in E2. by subst.
    + destruct Hok as (Hcode & _ & Hu). revert Hv. unfold validate_close_frame.
      destruct (close_code_is_valid code) eqn:Ec; [|done]. cbn [negb]. intros _.
      pose proof (be_value_be_bytes 2 code ltac:(change (256 ^ Z.of_nat 2) with 65536; unfold U16_MAX in *; lia)) as Hb.
      pose proof (length_be_bytes 2 code) as Hlen.
      destruct (be_bytes 2 code) as [|c0 [|c1 [|]]]; try done. cbn [app]. rewrite Hb, Ec. cbn [negb].
      by rewrite Hu.
Qed.

(** Send then receive: a frame the sink accepts, unmasked and decoded by a
    peer that applies the same limits, is delivered as the very frame that was
    sent (a close without status travels as an empty payload and comes back as
    one). *)
Theorem send_receive_roundtrip w item key me' mx_frame mx_message :
  outbound_ok item → len (outbound_payload item) < 2 ^ 63 →
  len (outbound_payload item) ≤ mx_frame → len (outbound_payload item) ≤ mx_message →
  start_send (mkNativeSink w []) item (Some key) = (Ok tt, me') →
  ∃ f, decode_frame (strip_mask (sink_buf me')) mx_frame = (Ok (Some f), []) ∧
       feed (reassembly_new mx_message) f = (Ok (Some item), reassembly_new mx_message).
Proof.
  intros Hok H63 Hf Hm. unfold start_send.
  destruct (validate_outbound_engine_frame item) as [u| |] eqn:Hv; try done. cbn [random_mask_key].
  intros [= <-]. cbn [sink_buf].
  eexists. split; [|by eapply feed_outbound]. cbn [wire sink_buf].
  pose proof (outbound_frame_ok item u Hok Hv H63) as Hfr.
  rewrite strip_mask_encode by lia.
  pose proof (decode_frame_bytes _ [] mx_frame Hfr Hf) as Hd. by rewrite app_nil_r in Hd.
Qed.
Lemma send_receive_roundtrip_witness :
  ∃ f, decode_frame (strip_mask (sink_buf (start_send sink_new (EF_Close 1000 [98]) (Some (mkMaskKey 1 2 3 4))).2)) 200
         = (Ok (Some f), []) ∧
       feed (reassembly_new 200) f = (Ok (Some (EF_Close 1000 [98])), reassembly_new 200).
Proof.
  apply (send_receive_roundtrip [] (EF_Close 1000 [98]) (mkMaskKey 1 2 3 4)); try done.
  split_and!; [lia|unfold U16_MAX; lia|solve_bytes|done].
Defined.

(** *** What the stream delivers *)

(** A frame that its Rust type can hold, within the limit for messages, and that the client could send in turn. *)
Definition frame_typed (mx : Z) (f : EngineFrame) : Prop :=
  outbound_ok f ∧ validate_outbound_engine_frame f = Ok tt ∧
  match f with EF_Text b | EF_Binary b => len b ≤ mx | _ => True end.

Definition reassembly_typed (mx : Z) (st : ReassemblyState) : Prop :=
  reassembly_ok st ∧ max_message_size st = mx ∧ from_option (λ ip, bytes_ok (ip_buffer ip)) True (in_progress st).
Definition stream_typed (mx : Z) (me : NativeStream) : Prop := bytes_ok (stream_buf me) ∧ reassembly_typed mx (reassembly me).
Definition item_typed (mx : Z) (i : outcome WebSocketEngineError EngineFrame) : Prop :=
  match i with Ok f => frame_typed mx f | Err _ => True | Panic => False end.

Lemma deliver_single_typed st o pl f :
  bytes_ok pl → is_data o = true → deliver_single st o pl = Ok (Some f) → frame_typed (max_message_size st) f.
Proof.
  intros Hpl Ho. unfold deliver_single. destruct (check_message_size_cases (max_message_size st) (len pl)) as [[-> ?]| ->]; [|done].
  cbn. destruct o; try done; [destruct (utf8_valid pl) eqn:?; [|done]|]; intros [= <-]; by repeat split.
Qed.

Lemma parse_control_typed mx fr f :
  frame_ok fr → is_control (opcode fr) = true → parse_control fr = Ok f → frame_typed mx f.
Proof.
  intros (Hb & _ & Hc) Ho. destruct (Hc Ho) as [_ Hl]. clear Hc.
  assert (Hlen : ∀ knd, validate_control_payload_len knd (len (payload fr)) = Ok tt).
  { intros knd. unfold validate_control_payload_len, MAX_CONTROL_FRAME_PAYLOAD_BYTES. case_match; [bool_lia|done]. }
  unfold parse_control. destruct (opcode fr); try done; [|intros [= <-]; split_and!; [done|apply Hlen|done]..].
  destruct (payload fr) as [|c0 [|c1 rest]]; [by intros [= <-]|done|].
  destruct (close_code_is_valid _) eqn:Ec; [|done]. cbn [negb]. destruct (utf8_valid rest) eqn:Eu; [|done]. intros [= <-].
  apply close_code_bound in Ec as Hr. apply Forall_cons in Hb as [_ Hb]. apply Forall_cons in Hb as [_ Hb].
  split_and!; [cbn [outbound_ok]; split; [unfold U16_MAX; lia|done]| |done].
  cbn [validate_outbound_engine_frame]. destruct (_ && _); [done|]. unfold validate_close_frame, MAX_CLOSE_REASON_BYTES. rewrite Ec. cbn [negb].
  destruct (Z.ltb_spec 123 (len rest)); [exfalso; len_lia|done].
Qed.

Lemma feed_typed mx st fr :
  reassembly_typed mx st → frame_ok fr →
  reassembly_typed mx (feed st fr).2 ∧ (∀ f, (feed st fr).1 = Ok (Some f) → frame_typed mx f).
Proof.
  intros (Hok & Hmx & Hb) Hfr. pose proof (feed_facts st fr Hok) as (Hok' & Hmx' & _). rewrite <- Hmx.
  split.
  - split_and!; [done|done|]. destruct st as [m ip], fr as [fi o pl]. destruct Hfr as (Hpl & _). unfold feed, append_continuation in *. cbn in *.
    destruct (is_control o); [done|]. destruct o, ip as [[io ib]|]; cbn in *; try done; repeat case_match; cbn; try done. by apply bytes_ok_app.
  - intros f. destruct st as [m ip]. unfold feed. cbn [max_message_size in_progress]. destruct (is_control (opcode fr)) eqn:Ec.
    { cbn. destruct (parse_control fr) eqn:E; [|done..]. cbn. intros [= <-]. by eapply parse_control_typed. }
    destruct fr as [fi o pl]. destruct Hfr as (Hpl & _). cbn [opcode fin payload] in *. unfold reassembly_ok in Hok. cbn in Hok, Hb.
    destruct ip as [[io ib]|]; cbn in Hok, Hb.
    + destruct o; try done. unfold append_continuation. cbn. repeat case_match; try done. cbn. intros Hd.
      eapply deliver_single_typed in Hd; [done|by apply bytes_ok_app|apply Hok].
    + destruct o; try done; destruct fi; cbn -[deliver_single]; try (by repeat case_match); intros Hd; by eapply deliver_single_typed in Hd.
Qed.

Definition reads_ok (reads : list read_event) : Prop := Forall (λ e, bytes_ok (read_bytes e)) reads.

Lemma step_typed mx me reads :
  stream_typed mx me → reads_ok reads →
  match stream_step me reads with
  | Continue me' reads' => stream_typed mx me' ∧ reads_ok reads'
  | Return r me' reads' => stream_typed mx me' ∧ reads_ok reads' ∧ match r with Ready (Some i) => item_typed mx i | _ => True end
  end.
Proof.
  intros [Hbuf Hrs] Hreads. unfold stream_step. destruct (done me); [done|].
  pose proof (decode_frame_no_panic (stream_buf me) (max_frame_size me)) as Hnp.
  destruct (decode_frame (stream_buf me) (max_frame_size me)) as [[[fr|]|e|] buf] eqn:E; [| | |done].
  - apply decode_frame_sound in E as (Hsplit & Hfr & _); [|done]. rewrite Hsplit in Hbuf. apply bytes_ok_app in Hbuf as [_ Hbuf].
    destruct (feed_typed mx (reassembly me) fr Hrs Hfr) as [Hrs' Hf]. pose proof (feed_facts (reassembly me) fr (proj1 Hrs)) as (_ & _ & Hp & _).
    destruct (feed (reassembly me) fr) as [[[f|]|e|] rs]; cbn in *; [|done..]. split; [done|]. split; [done|]. by apply Hf.
  - apply decode_frame_None in E as ->. unfold poll_fill. destruct reads as [|[|[|b bs]|m] reads]; try done.
    + by apply Forall_cons in Hreads as [_ ?].
    + apply Forall_cons in Hreads as [_ ?]. split; [done|]. split; [done|]. unfold at_eof, end_of_stream.
      by destruct (negb _), (in_progress (reassembly me)).
    + apply Forall_cons in Hreads as [Hb ?]. split; [|done]. split; [|done]. by apply bytes_ok_app.
    + by apply Forall_cons in Hreads as [_ ?].
  - assert (buf = stream_buf me) as ->; [|done]. revert E. unfold decode_frame. by repeat case_match; intros; simplify_eq.
Qed.

Lemma poll_typed mx n me reads r me' reads' :
  stream_typed mx me → reads_ok reads → poll_loop n me reads = Some (r, me', reads') →
  stream_typed mx me' ∧ reads_ok reads' ∧ match r with Ready (Some i) => item_typed mx i | _ => True end.
Proof.
  revert me reads. induction n as [|n IH]; intros me reads Hme Hreads; [done|]. cbn.
  pose proof (step_typed mx me reads Hme Hreads) as Hs. destruct (stream_step me reads); [destruct Hs; by apply IH|by intros [= <- <- <-]].
Qed.

(** C38.  Whatever bytes the peer sends, in whatever chunks and with whatever read errors, every frame the native engine delivers is a
    value of its type that the client could itself send: the text of a message and of a close reason is valid UTF-8, a message is
    within the configured size, a ping or pong carries at most 125 bytes, a close has a code that may be sent, or none, and a reason
    of at most 123 bytes; what does not fit is an error and never a panic. *)
Theorem stream_frames_typed mx_frame mx_message reads items :
  reads_ok reads → stream_run (stream_new mx_frame mx_message) reads items → Forall (item_typed mx_message) items.
Proof.
  intros Hreads Hrun. assert (Hme : stream_typed mx_message (stream_new mx_frame mx_message)) by (by repeat split; try constructor).
  revert Hreads Hme. generalize (stream_new mx_frame mx_message), Hrun. clear Hrun. intros me Hrun.
  induction Hrun as [|me reads i me' reads' items Hp Hr IH|me reads me' reads' items Hp Hr IH]; intros Hreads Hme; [done|..].
  - destruct (poll_typed _ _ _ _ _ _ _ Hme Hreads Hp) as (? & ? & ?). constructor; [done|by apply IH].
  - destruct (poll_typed _ _ _ _ _ _ _ Hme Hreads Hp) as (? & ? & _). by apply IH.
Qed.
Lemma stream_frames_typed_witness :
  Forall (item_typed 100) [Ok (EF_Text [104]); Ok (EF_Close 1005 [])].
Proof.
  apply (stream_frames_typed 100 100 [ReadOk [0x81]; ReadPending; ReadOk [0x01; 104; 0x88]; ReadOk [0]]).
  - unfold reads_ok. repeat (apply Forall_cons_2; [cbn; solve_bytes|]). apply Forall_nil_2.
  - eapply run_pending; [reflexivity|]. eapply run_item; [reflexivity|]. eapply run_item; [reflexivity|]. eapply run_end; reflexivity.
Defined.
