(* ===== verification/Proxy.v ===== *)
(** * Proxy selection

    openwire/src/proxy.rs: proxy rules, the no-proxy list with its CIDR blocks,
    the environment lookup and the candidate list with its sticky proxy.  A
    [url::Url] is seen through the accessors the client calls; parsing one
    ([Url::parse]) is third-party code and a parameter of the operations that
    need it. *)

From S2P Require Import Prelude Net Error.

(** [url::Url] through its accessors; [url_rest] is what none of them shows. *)
Record Url : Type := mkUrl {
  url_scheme : string;
  url_username : string;
  url_password : option string;
  url_host_str : option string;
  url_port_or_known_default : option Z;
  url_rest : string;
}.

(** [ProxyIntercept], openwire/proxy.rs:72-77. *)
Inductive ProxyIntercept : Type := Intercept_Http | Intercept_Https | Intercept_All.

(** [CidrBlock], openwire/proxy.rs:79-83. *)
Record CidrBlock : Type := mkCidrBlock {
  network : IpAddr;
  prefix : Z;
}.

(** [ProxyCredentials], openwire/proxy.rs:85-89. *)
Record ProxyCredentials : Type := mkProxyCredentials {
  cred_username : string;
  cred_password : string;
}.

(** [NoProxy], openwire/proxy.rs:63-70. *)
Record NoProxy : Type := mkNoProxy {
  matches_all : bool;
  exact_hosts : list string;
  domain_suffixes : list string;
  cidr_blocks : list CidrBlock;
  bypass_loopback : bool;
}.

(** [Proxy], openwire/proxy.rs:11-17. *)
Record Proxy : Type := mkProxy {
  proxy_target : Url;
  proxy_intercept : ProxyIntercept;
  proxy_no_proxy : option NoProxy;
  proxy_credentials : option ProxyCredentials;
}.

(** [ProxyRules], openwire/proxy.rs:37-41. *)
Record ProxyRules : Type := mkProxyRules {
  proxies : list Proxy;
  use_system_proxy : bool;
}.

(** [ProxyChoice], openwire/proxy.rs:50-54. *)
Inductive ProxyChoice : Type :=
| Choice_Direct
| Choice_Proxy (p : Proxy).

(** [ProxySelection], openwire/proxy.rs:44-47. *)
Record ProxySelection : Type := mkProxySelection { choices : list ProxyChoice }.

(** [SelectedProxy], openwire/proxy.rs:56-61. *)
Record SelectedProxy : Type := mkSelectedProxy {
  sel_target : Url;
  sel_intercept : ProxyIntercept;
  sel_credentials : option ProxyCredentials;
}.

#[global] Instance Url_eq_dec : EqDecision Url.
Proof. solve_decision. Defined.
#[global] Instance ProxyIntercept_eq_dec : EqDecision ProxyIntercept.
Proof. solve_decision. Defined.
#[global] Instance ProxyCredentials_eq_dec : EqDecision ProxyCredentials.
Proof. solve_decision. Defined.
#[global] Instance ProxyCredentials_countable : Countable ProxyCredentials.
Proof.
  refine (inj_countable' (λ c, (cred_username c, cred_password c)) (λ p, mkProxyCredentials p.1 p.2) _).
  by intros [].
Defined.
#[global] Instance CidrBlock_eq_dec : EqDecision CidrBlock.
Proof. solve_decision. Defined.
#[global] Instance NoProxy_eq_dec : EqDecision NoProxy.
Proof. solve_decision. Defined.
#[global] Instance Proxy_eq_dec : EqDecision Proxy.
Proof. solve_decision. Defined.
#[global] Instance ProxyChoice_eq_dec : EqDecision ProxyChoice.
Proof. solve_decision. Defined.
#[global] Instance SelectedProxy_eq_dec : EqDecision SelectedProxy.
Proof. solve_decision. Defined.

(** ** Hosts and address blocks *)

(** [normalize_host], openwire/proxy.rs:653-655. *)
Definition normalize_host (host : string) : string :=
  to_ascii_lowercase (trim_end_matches "."%char host).

(** [normalize_domain_suffix], openwire/proxy.rs:657-659. *)
Definition normalize_domain_suffix (suffix : string) : string :=
  normalize_host (trim_start_matches "."%char suffix).

(** [u32::MAX << k] and [u128::MAX << k] keep the low 32 and 128 bits. *)
Definition shl_max (width k : Z) : Z := Z.land (Z.shiftl (Z.ones width) k) (Z.ones width).

(** [canonicalize_ipv4_network], openwire/proxy.rs:621-628. *)
Definition canonicalize_ipv4_network (address prefix : Z) : Z :=
  let mask := if prefix =? 0 then 0 else shl_max 32 (32 - prefix) in
  Z.land address mask.

(** [canonicalize_ipv6_network], openwire/proxy.rs:630-637. *)
Definition canonicalize_ipv6_network (address prefix : Z) : Z :=
  let mask := if prefix =? 0 then 0 else shl_max 128 (128 - prefix) in
  Z.land address mask.

(** [CidrBlock::matches], openwire/proxy.rs:640-650. *)
Definition cidr_matches (b : CidrBlock) (candidate : IpAddr) : bool :=
  match network b, candidate with
  | V4 net, V4 c => canonicalize_ipv4_network c (prefix b) =? net
  | V6 net, V6 c => canonicalize_ipv6_network c (prefix b) =? net
  | _, _ => false
  end.

(** [parse_cidr_block], openwire/proxy.rs:591-619; the text of the [std] parse error
    that ends two of the messages is left out. *)
Definition parse_cidr_block (token : string) : outcome WireError CidrBlock :=
  match rsplit_once "/"%char token with
  | None => Err (invalid_request ("invalid no_proxy CIDR entry: " +:+ token)%string)
  | Some (address, pfx) =>
    match parse_ip address with
    | None => Err (invalid_request ("invalid no_proxy CIDR address " +:+ token)%string)
    | Some address =>
      match parse_uint U8_MAX pfx with
      | None => Err (invalid_request ("invalid no_proxy CIDR prefix " +:+ token)%string)
      | Some prefix =>
        match address with
        | V4 a => if prefix <=? 32 then Ok (mkCidrBlock (V4 (canonicalize_ipv4_network a prefix)) prefix)
                  else Err (invalid_request ("invalid no_proxy CIDR prefix " +:+ token +:+
                                             ": IPv4 prefixes must be <= 32")%string)
        | V6 a => if prefix <=? 128 then Ok (mkCidrBlock (V6 (canonicalize_ipv6_network a prefix)) prefix)
                  else Err (invalid_request ("invalid no_proxy CIDR prefix " +:+ token +:+
                                             ": IPv6 prefixes must be <= 128")%string)
        end
      end
    end
  end.

(** ** The no-proxy list *)

(** [NoProxy::new], openwire/proxy.rs:332-334. *)
Definition no_proxy_new : NoProxy := mkNoProxy false [] [] [] false.

(** [NoProxy::host], openwire/proxy.rs:337-340. *)
Definition no_proxy_host (np : NoProxy) (host : string) : NoProxy :=
  mkNoProxy (matches_all np) (exact_hosts np ++ [normalize_host host]) (domain_suffixes np)
    (cidr_blocks np) (bypass_loopback np).

(** [NoProxy::domain], openwire/proxy.rs:343-347. *)
Definition no_proxy_domain (np : NoProxy) (suffix : string) : NoProxy :=
  mkNoProxy (matches_all np) (exact_hosts np) (domain_suffixes np ++ [normalize_domain_suffix suffix])
    (cidr_blocks np) (bypass_loopback np).

(** [NoProxy::localhost], openwire/proxy.rs:350-353. *)
Definition no_proxy_localhost (np : NoProxy) : NoProxy :=
  mkNoProxy (matches_all np) (exact_hosts np) (domain_suffixes np) (cidr_blocks np) true.

(** [NoProxy::all], openwire/proxy.rs:355-358. *)
Definition no_proxy_all (np : NoProxy) : NoProxy :=
  mkNoProxy true (exact_hosts np) (domain_suffixes np) (cidr_blocks np) (bypass_loopback np).

Definition no_proxy_cidr (np : NoProxy) (b : CidrBlock) : NoProxy :=
  mkNoProxy (matches_all np) (exact_hosts np) (domain_suffixes np) (cidr_blocks np ++ [b])
    (bypass_loopback np).

(** [NoProxy::matches], openwire/proxy.rs:360-385. *)
Definition no_proxy_matches (np : NoProxy) (host : string) : bool :=
  if matches_all np then true else
  let host := normalize_host host in
  let ip := parse_ip host in
  if existsb (λ c, bool_decide (c = host)) (exact_hosts np) then true
  else if existsb (λ suffix, bool_decide (host = suffix) || ends_with ("." +:+ suffix)%string host)
            (domain_suffixes np) then true
  else if bypass_loopback np &&
          (bool_decide (host = "localhost"%string) ||
           match ip with Some ip => is_loopback ip | None => false end) then true
  else match ip with
       | Some ip => existsb (λ c, cidr_matches c ip) (cidr_blocks np)
       | None => false
       end.

(** One token of [parse_no_proxy], openwire/proxy.rs:560-585. *)
Definition parse_no_proxy_token (np : NoProxy) (token : string) : outcome WireError NoProxy :=
  if bool_decide (token = "*"%string) then Ok (no_proxy_all np)
  else if eq_ignore_ascii_case token "localhost" then
    Ok (no_proxy_host (no_proxy_localhost np) "localhost")
  else if contains_char "/"%char token then
    let? b := parse_cidr_block token in Ok (no_proxy_cidr np b)
  else if bool_decide (is_Some (parse_ip token)) then Ok (no_proxy_host np token)
  else if starts_with "." token then Ok (no_proxy_domain np token)
  else Ok (no_proxy_domain np token).

Fixpoint parse_no_proxy_tokens (np : NoProxy) (tokens : list string) : outcome WireError NoProxy :=
  match tokens with
  | [] => Ok np
  | t :: ts => let? np := parse_no_proxy_token np t in parse_no_proxy_tokens np ts
  end.

(** [parse_no_proxy], openwire/proxy.rs:553-589. *)
Definition parse_no_proxy (value : string) : outcome WireError NoProxy :=
  parse_no_proxy_tokens no_proxy_new
    (filter (λ t, t ≠ ""%string) (trim <$> split_on ","%char value)).

(** ** Proxies *)

(** [ProxyCredentials::from_url], openwire/proxy.rs:294-311. *)
Definition credentials_from_url (target : Url) : outcome WireError (option ProxyCredentials) :=
  let username := url_username target in
  let password := url_password target in
  if bool_decide (username = ""%string) && bool_decide (password = None) then Ok None
  else if bool_decide (username = ""%string) then
    Err (invalid_request "proxy URL credentials must include a username")
  else Ok (Some (mkProxyCredentials username (default ""%string password))).

(** [Proxy::from_target], openwire/proxy.rs:92-104. *)
Definition from_target (target : Url) (intercept : ProxyIntercept) : outcome WireError Proxy :=
  let? credentials := credentials_from_url target in
  let target :=
    match credentials with
    | Some _ => mkUrl (url_scheme target) "" None (url_host_str target)
                  (url_port_or_known_default target) (url_rest target)
    | None => target
    end in
  Ok (mkProxy target intercept None credentials).

(** [Proxy::no_proxy], openwire/proxy.rs:131-134. *)
Definition with_no_proxy (p : Proxy) (np : NoProxy) : Proxy :=
  mkProxy (proxy_target p) (proxy_intercept p) (Some np) (proxy_credentials p).

(** [Proxy::matches], openwire/proxy.rs:136-152. *)
Definition proxy_matches (p : Proxy) (uri : Uri) : bool :=
  let scheme_ok :=
    match proxy_intercept p, uri_scheme_str uri with
    | Intercept_Http, Some s => bool_decide (s = "http"%string)
    | Intercept_Https, Some s => bool_decide (s = "https"%string)
    | Intercept_All, Some s => bool_decide (s = "http"%string) || bool_decide (s = "https"%string)
    | _, None => false
    end in
  match proxy_no_proxy p with
  | Some np =>
    match uri_host uri with
    | None => false
    | Some host => if no_proxy_matches np host then false else scheme_ok
    end
  | None => scheme_ok
  end.

(** [Proxy::selected_proxy], openwire/proxy.rs:164-170; [SelectedProxy::from_proxy]. *)
Definition selected_proxy (p : Proxy) : SelectedProxy :=
  mkSelectedProxy (proxy_target p) (proxy_intercept p) (proxy_credentials p).

(** [SelectedProxy::intercepts_http], openwire/proxy.rs:226-228. *)
Definition intercepts_http (p : SelectedProxy) : bool :=
  match sel_intercept p with Intercept_Http | Intercept_All => true | _ => false end.

(** [SelectedProxy::intercepts_https], openwire/proxy.rs:230-232. *)
Definition intercepts_https (p : SelectedProxy) : bool :=
  match sel_intercept p with Intercept_Https | Intercept_All => true | _ => false end.

(** [SelectedProxy::same_endpoint], openwire/proxy.rs:234-236. *)
Definition same_endpoint (a b : SelectedProxy) : bool :=
  bool_decide (sel_target a = sel_target b) && bool_decide (sel_credentials a = sel_credentials b).

(** ** Selection *)

(** [matching_proxies], openwire/proxy.rs:433-439. *)
Definition matching_proxies (ps : list Proxy) (uri : Uri) : list Proxy :=
  filter (λ p, proxy_matches p uri = true) ps.

(** [ProxySelection::from_proxies], openwire/proxy.rs:283-290. *)
Definition from_proxies (ps : list Proxy) : ProxySelection := mkProxySelection (Choice_Proxy <$> ps).

(** [ProxySelection::direct], openwire/proxy.rs:245-254. *)
Definition selection_direct : ProxySelection := mkProxySelection [Choice_Direct].

(** [ProxySelector for ProxyRules], openwire/proxy.rs:194-211; [system] is what
    [system_proxies_from_env] returns. *)
Definition select (rules : ProxyRules) (system : outcome WireError (list Proxy)) (uri : Uri)
    : outcome WireError ProxySelection :=
  let explicit := matching_proxies (proxies rules) uri in
  if negb (bool_decide (explicit = [])) then Ok (from_proxies explicit)
  else if use_system_proxy rules then
    let? system_proxies := system in
    let system_matches := matching_proxies system_proxies uri in
    if negb (bool_decide (system_matches = [])) then Ok (from_proxies system_matches)
    else Ok selection_direct
  else Ok selection_direct.

(** The candidate a choice stands for, openwire/proxy.rs:404-407; [None] is a
    direct connection. *)
Definition candidate_of (c : ProxyChoice) : option SelectedProxy :=
  match c with
  | Choice_Direct => None
  | Choice_Proxy p => Some (selected_proxy p)
  end.

(** The candidates before the sticky proxy is considered, openwire/proxy.rs:401-415. *)
Definition base_candidates (selection : ProxySelection) : list (option SelectedProxy) :=
  let candidates := dedup (candidate_of <$> choices selection) in
  if bool_decide (candidates = []) then [None] else candidates.

Definition is_sticky (sticky : SelectedProxy) (c : option SelectedProxy) : bool :=
  match c with Some c => same_endpoint c sticky | None => false end.

(** [resolved_proxy_candidates_with_sticky], openwire/proxy.rs:397-431. *)
Definition resolved_proxy_candidates_with_sticky (selection : ProxySelection)
    (sticky_proxy : option SelectedProxy) : list (option SelectedProxy) :=
  let candidates := base_candidates selection in
  let sticky_index :=
    match sticky_proxy with
    | Some s => position (is_sticky s) candidates
    | None => None
    end in
  match sticky_index with
  | Some i =>
    if (0 <? i)%nat then
      match candidates !! i with
      | Some c => c :: delete i candidates
      | None => candidates
      end
    else candidates
  | None => candidates
  end.

(** ** Proxy URLs and the environment *)

Section parse.

(** [url::Url::parse], third-party: [inl] is the error's text. *)
Variable url_parse : string → string + Url.

(** [parse_proxy_target], openwire/proxy.rs:449-469. *)
Definition parse_proxy_target (target : string) (allowed_schemes : list string)
    (unsupported_message : string) : outcome WireError Url :=
  match url_parse target with
  | inl error => Err (invalid_request ("invalid proxy URL: " +:+ error)%string)
  | inr target =>
    if negb (existsb (λ s, eq_ignore_ascii_case (url_scheme target) s) allowed_schemes) then
      Err (invalid_request unsupported_message)
    else if bool_decide (url_host_str target = None) then
      Err (invalid_request "proxy URL is missing a host")
    else Ok target
  end.

(** [parse_http_proxy_target], openwire/proxy.rs:388-390. *)
Definition parse_http_proxy_target (target : string) : outcome WireError Url :=
  parse_proxy_target target ["http"%string] "only http proxy endpoints are supported".

(** [parse_socks5_proxy_target], openwire/proxy.rs:441-447. *)
Definition parse_socks5_proxy_target (target : string) : outcome WireError Url :=
  parse_proxy_target target ["socks5"%string] "only socks5 proxy endpoints are supported".

(** [Proxy::http], openwire/proxy.rs:107-110. *)
Definition proxy_http (target : string) : outcome WireError Proxy :=
  let? t := parse_http_proxy_target target in from_target t Intercept_Http.

(** [Proxy::https], openwire/proxy.rs:113-116. *)
Definition proxy_https (target : string) : outcome WireError Proxy :=
  let? t := parse_http_proxy_target target in from_target t Intercept_Https.

(** [Proxy::all], openwire/proxy.rs:119-122. *)
Definition proxy_all (target : string) : outcome WireError Proxy :=
  let? t := parse_http_proxy_target target in from_target t Intercept_All.

(** [Proxy::socks5], openwire/proxy.rs:125-128. *)
Definition proxy_socks5 (target : string) : outcome WireError Proxy :=
  let? t := parse_socks5_proxy_target target in from_target t Intercept_All.

(** [proxy_from_env], openwire/proxy.rs:532-547. *)
Definition proxy_from_env (target : string) (intercept : ProxyIntercept) : outcome WireError Proxy :=
  match url_parse target with
  | inl error => Err (invalid_request ("invalid proxy URL: " +:+ error)%string)
  | inr parsed =>
    if bool_decide (url_host_str parsed = None) then
      Err (invalid_request "proxy URL is missing a host")
    else if bool_decide (url_scheme parsed = "http"%string) || bool_decide (url_scheme parsed = "socks5"%string)
    then from_target parsed intercept
    else if bool_decide (url_scheme parsed = "https"%string) then
      Err (invalid_request "https proxy endpoints are not supported")
    else Err (invalid_request "only http and socks5 proxy endpoints are supported")
  end.

(** [lookup_proxy_var], openwire/proxy.rs:549-551. *)
Fixpoint lookup_proxy_var (vars : gmap string string) (names : list string) : option string :=
  match names with
  | [] => None
  | n :: ns => match vars !! n with Some v => Some v | None => lookup_proxy_var vars ns end
  end.

(** [apply_no_proxy], openwire/proxy.rs:525-530. *)
Definition apply_no_proxy (p : Proxy) (np : option NoProxy) : Proxy :=
  match np with Some np => with_no_proxy p np | None => p end.

(** The environment as a map: later bindings win, empty values are dropped,
    openwire/proxy.rs:481-491. *)
Definition env_map (vars : list (string * string)) : gmap string string :=
  foldl (λ m kv, if bool_decide (kv.2 = ""%string) then m else <[kv.1 := kv.2]> m) ∅ vars.

(** One of the three proxy variables, openwire/proxy.rs:501-506. *)
Definition env_proxy (value : option string) (intercept : ProxyIntercept) (np : option NoProxy)
    : outcome WireError (list Proxy) :=
  match value with
  | Some v => let? p := proxy_from_env v intercept in Ok [apply_no_proxy p np]
  | None => Ok []
  end.

(** [system_proxies_from_iter], openwire/proxy.rs:475-523. *)
Definition system_proxies_from_iter (vars : list (string * string)) : outcome WireError (list Proxy) :=
  let vars := env_map vars in
  let http_proxy := lookup_proxy_var vars ["http_proxy"%string; "HTTP_PROXY"%string] in
  let https_proxy := lookup_proxy_var vars ["https_proxy"%string; "HTTPS_PROXY"%string] in
  let all_proxy := lookup_proxy_var vars ["all_proxy"%string; "ALL_PROXY"%string] in
  let no_proxy := lookup_proxy_var vars ["NO_PROXY"%string; "no_proxy"%string] in
  let? no_proxy :=
    match no_proxy with
    | Some v => let? np := parse_no_proxy v in Ok (Some np)
    | None => Ok None
    end in
  let? http := env_proxy http_proxy Intercept_Http no_proxy in
  let? https := env_proxy https_proxy Intercept_Https no_proxy in
  let? all := env_proxy all_proxy Intercept_All no_proxy in
  Ok (http ++ https ++ all).

End parse.

Example no_proxy_example :
  (np ← match parse_no_proxy " .Example.com , 10.0.0.0/8,localhost" with Ok np => Some np | _ => None end;
   Some (no_proxy_matches np "api.example.com", no_proxy_matches np "evilexample.com",
         no_proxy_matches np "10.1.2.3", no_proxy_matches np "11.1.2.3", no_proxy_matches np "127.0.0.1"))
  = Some (true, false, true, false, true).
Proof. reflexivity. Qed.

(** ** Network masks *)

Lemma shl_max_bits w k n : 0 ≤ k ≤ w → 0 ≤ n →
  Z.testbit (shl_max w k) n = (k <=? n) && (n <? w).
Proof.
  intros Hk Hn. unfold shl_max. rewrite Z.land_spec, Z.shiftl_spec by lia.
  destruct (k <=? n) eqn:E1; destruct (n <? w) eqn:E2; bool_lia; cbn [andb].
  - rewrite !Z.ones_spec_low by lia. done.
  - rewrite (Z.ones_spec_high w n), andb_false_r by lia. done.
  - rewrite Z.testbit_neg_r by lia. done.
Qed.

(** Masking with a network mask clears the host part. *)
Lemma land_shl_max w k a : 0 ≤ k ≤ w → 0 ≤ a < 2 ^ w → Z.land a (shl_max w k) = a / 2 ^ k * 2 ^ k.
Proof.
  intros Hk Ha. apply Z.bits_inj'; intros n Hn.
  rewrite Z.land_spec, shl_max_bits, Z.mul_pow2_bits by lia.
  destruct (k <=? n) eqn:E1; bool_lia; cbn [andb].
  - rewrite Z.div_pow2_bits by lia. replace (n - k + k) with n by lia.
    destruct (n <? w) eqn:E2; bool_lia; [apply andb_true_r|]. rewrite andb_false_r. symmetry.
    rewrite <- (Z.mod_small a (2 ^ w)) by lia. apply Z.mod_pow2_bits_high. lia.
  - rewrite andb_false_r. symmetry. apply Z.testbit_neg_r. lia.
Qed.

Lemma mask_div w p a : 0 ≤ p ≤ w → 0 ≤ a < 2 ^ w →
  Z.land a (if p =? 0 then 0 else shl_max w (w - p)) = a / 2 ^ (w - p) * 2 ^ (w - p).
Proof.
  intros Hp Ha. destruct (p =? 0) eqn:E; bool_lia.
  - subst. rewrite Z.land_0_r, Z.sub_0_r, Z.div_small by lia. done.
  - apply land_shl_max; lia.
Qed.

Lemma same_prefix_iff k a c : 0 ≤ k → (c / 2 ^ k * 2 ^ k =? a / 2 ^ k * 2 ^ k) = true ↔ c / 2 ^ k = a / 2 ^ k.
Proof. intros Hk. rewrite Z.eqb_eq. pose proof (Z.pow_pos_nonneg 2 k ltac:(lia) Hk). nia. Qed.

Lemma parse_uint_range mx s v : parse_uint mx s = Some v → 0 ≤ v ≤ mx.
Proof.
  unfold parse_uint. set (b := match s with EmptyString => _ | String _ _ => _ end).
  destruct (read_digits 10 0 0 b) as [[v' n] [|]] eqn:E; [|done].
  apply read_digits_nonneg in E; [|lia..]. case_match; [|done]. intros [= <-].
  apply andb_true_iff in H as [_ H]. bool_lia.
Qed.

(** ** Properties of proxy selection *)

Lemma base_candidates_NoDup sel : NoDup (base_candidates sel).
Proof. unfold base_candidates. case_bool_decide; [apply NoDup_singleton|apply dedup_NoDup]. Qed.

Lemma base_candidates_nonempty sel : base_candidates sel ≠ [].
Proof. unfold base_candidates. by case_bool_decide. Qed.

Lemma elem_of_base_candidates sel c :
  c ∈ base_candidates sel ↔ c ∈ candidate_of <$> choices sel ∨ (choices sel = [] ∧ c = None).
Proof.
  unfold base_candidates. case_bool_decide as Hd.
  - assert (choices sel = []) as ->.
    { destruct (choices sel) as [|x l]; [done|]. exfalso.
      assert (candidate_of x ∈ dedup (candidate_of <$> x :: l)) as Hin by (apply elem_of_dedup; set_solver).
      rewrite Hd in Hin. set_solver. }
    set_solver.
  - rewrite elem_of_dedup. split; [by left|]. intros [|[Hn _]]; [done|]. by rewrite Hn in Hd.
Qed.

Lemma candidates_Permutation sel sticky :
  resolved_proxy_candidates_with_sticky sel sticky ≡ₚ base_candidates sel.
Proof.
  unfold resolved_proxy_candidates_with_sticky. repeat case_match; try done.
  symmetry. by apply delete_Permutation.
Qed.

(** The proxy candidates of a request: never empty, without duplicates,
    exactly the candidates of the selection (a direct connection when it names
    none), in the selection's order, except that the first candidate with the
    sticky proxy's endpoint is moved to the front. *)
Theorem candidates_sticky_first sel sticky :
  let r := resolved_proxy_candidates_with_sticky sel sticky in
  r ≠ [] ∧ NoDup r ∧
  (∀ c, c ∈ r ↔ c ∈ candidate_of <$> choices sel ∨ (choices sel = [] ∧ c = None)) ∧
  ((r = base_candidates sel ∧
    ∀ s, sticky = Some s → Forall (λ c, is_sticky s c = false) r ∨ ∃ c, head r = Some c ∧ is_sticky s c = true) ∨
   ∃ s l c k, sticky = Some s ∧ is_sticky s c = true ∧ Forall (λ c, is_sticky s c = false) l ∧
     base_candidates sel = l ++ c :: k ∧ r = c :: l ++ k).
Proof.
  cbn zeta. unfold resolved_proxy_candidates_with_sticky.
  pose proof (base_candidates_NoDup sel) as Hnd. pose proof (base_candidates_nonempty sel) as Hne.
  pose proof (elem_of_base_candidates sel) as Hel.
  destruct sticky as [s|]; [|split_and!; try done; left; split; done].
  destruct (position (is_sticky s) (base_candidates sel)) as [i|] eqn:Ei.
  - apply position_Some in Ei as (l & c & k & Hb & Hi & Hc & Hl). rewrite Hb in *.
    destruct (Nat.ltb_spec 0 i) as [Hpos|Hz].
    + rewrite lookup_app_r, Hi, Nat.sub_diag by lia. cbn [lookup list_lookup].
      rewrite <- Hi, delete_middle.
      assert (Hp : c :: l ++ k ≡ₚ l ++ c :: k) by apply Permutation_middle.
      split_and!; [done|by rewrite Hp|intros x; by rewrite Hp|].
      right. exists s, l, c, k. done.
    + destruct l; [|cbn in Hi; lia]. split_and!; try done. left. split; [done|].
      intros s' [= <-]. right. by exists c.
  - apply position_None in Ei. split_and!; try done. left. split; [done|]. intros s' [= <-]. by left.
Qed.

(** A CIDR entry matches exactly the addresses that share its first
    [prefix] bits, for both families and every legal prefix length, 0 included;
    an address of the other family never matches. *)
Theorem cidr_block_semantics token b :
  parse_cidr_block token = Ok b →
  ∃ address pfx p, rsplit_once "/"%char token = Some (address, pfx) ∧ parse_uint U8_MAX pfx = Some p ∧
    match parse_ip address with
    | Some (V4 a) => p ≤ 32 ∧ (∀ c, cidr_matches b (V6 c) = false) ∧
        ∀ c, 0 ≤ c < 2 ^ 32 → cidr_matches b (V4 c) = true ↔ c / 2 ^ (32 - p) = a / 2 ^ (32 - p)
    | Some (V6 a) => p ≤ 128 ∧ (∀ c, cidr_matches b (V4 c) = false) ∧
        ∀ c, 0 ≤ c < 2 ^ 128 → cidr_matches b (V6 c) = true ↔ c / 2 ^ (128 - p) = a / 2 ^ (128 - p)
    | None => False
    end.
Proof.
  unfold parse_cidr_block. destruct (rsplit_once _ token) as [[address pfx]|]; [|done].
  destruct (parse_ip address) as [ip|] eqn:Eip; [|done].
  destruct (parse_uint U8_MAX pfx) as [p|] eqn:Ep; [|done].
  apply parse_ip_range in Eip as Hr. apply parse_uint_range in Ep as Hp.
  intros Hb. exists address, pfx, p. split_and!; [done|done|]. rewrite Eip. destruct ip as [a|a].
  - destruct (p <=? 32) eqn:E; [|done]. simplify_eq/=. bool_lia. split_and!; [done|done|].
    intros c Hc. unfold cidr_matches. cbn [network prefix]. unfold canonicalize_ipv4_network.
    rewrite !mask_div by lia. apply same_prefix_iff. lia.
  - destruct (p <=? 128) eqn:E; [|done]. simplify_eq/=. bool_lia. split_and!; [done|done|].
    intros c Hc. unfold cidr_matches. cbn [network prefix]. unfold canonicalize_ipv6_network.
    rewrite !mask_div by lia. apply same_prefix_iff. lia.
Qed.
Lemma cidr_block_semantics_witness :
  cidr_matches (mkCidrBlock (V4 0x0A000000) 8) (V4 0x0A010203) = true.
Proof.
  destruct (cidr_block_semantics "10.0.0.7/8" (mkCidrBlock (V4 0x0A000000) 8) eq_refl)
    as (address & pfx & p & Ha & Hp & Hm).
  injection Ha as <- <-. injection Hp as <-. apply Hm; done.
Defined.

(** When a no-proxy list bypasses a host: exactly when it matches
    everything, or names the host, or names a domain the host is or is below (on
    a label boundary, never a mere textual suffix), or bypasses loopback and the
    host is loopback, or contains a block with the host's address. *)
Theorem no_proxy_matches_iff np host :
  let h := normalize_host host in
  no_proxy_matches np host = true ↔
  matches_all np = true ∨ h ∈ exact_hosts np ∨
  (∃ s, s ∈ domain_suffixes np ∧ (h = s ∨ ∃ r, h = (r +:+ "." +:+ s)%string)) ∨
  (bypass_loopback np = true ∧
    (h = "localhost"%string ∨ ∃ ip, parse_ip h = Some ip ∧ is_loopback ip = true)) ∨
  (∃ ip b, parse_ip h = Some ip ∧ b ∈ cidr_blocks np ∧ cidr_matches b ip = true).
Proof.
  cbn zeta. set (h := normalize_host host). unfold no_proxy_matches. fold h.
  destruct (matches_all np); [split; auto|].
  assert (He : existsb (λ c, bool_decide (c = h)) (exact_hosts np) = true ↔ h ∈ exact_hosts np).
  { rewrite existsb_elem. setoid_rewrite bool_decide_eq_true. naive_solver. }
  assert (Hd : existsb (λ suffix, bool_decide (h = suffix) || ends_with ("." +:+ suffix)%string h)
                 (domain_suffixes np) = true ↔
               ∃ s, s ∈ domain_suffixes np ∧ (h = s ∨ ∃ r, h = (r +:+ "." +:+ s)%string)).
  { rewrite existsb_elem. split; intros (s & Hs & Hx); exists s; (split; [done|]).
    - apply orb_true_iff in Hx as [Hx|Hx]; [left; by apply bool_decide_eq_true in Hx|].
      right. by apply ends_with_spec.
    - apply orb_true_iff. destruct Hx as [Hx|Hx]; [left; by apply bool_decide_eq_true|].
      right. by apply ends_with_spec. }
  assert (Hl : bypass_loopback np && (bool_decide (h = "localhost"%string) ||
                 match parse_ip h with Some ip => is_loopback ip | None => false end) = true ↔
               bypass_loopback np = true ∧
               (h = "localhost"%string ∨ ∃ ip, parse_ip h = Some ip ∧ is_loopback ip = true)).
  { rewrite andb_true_iff, orb_true_iff, bool_decide_eq_true.
    destruct (parse_ip h); naive_solver. }
  assert (Hc : match parse_ip h with Some ip => existsb (λ c, cidr_matches c ip) (cidr_blocks np) | None => false end
               = true ↔ ∃ ip b, parse_ip h = Some ip ∧ b ∈ cidr_blocks np ∧ cidr_matches b ip = true).
  { destruct (parse_ip h) as [ip|]; [rewrite existsb_elem|]; naive_solver. }
  rewrite <- He, <- Hd, <- Hl, <- Hc. clear He Hd Hl Hc.
  repeat match goal with |- context [if ?b then true else _] => destruct b; [tauto|] end.
  split; [by repeat right|]. intros [|[|[|[|]]]]; done.
Qed.

(** Credentials never stay in the URL a proxy keeps: whatever the target,
    the kept URL has neither user name nor password, and they are exactly the
    proxy's credentials; a password without a user name is refused. *)
Theorem from_target_credentials target i :
  match from_target target i with
  | Ok p =>
      url_username (proxy_target p) = ""%string ∧ url_password (proxy_target p) = None ∧
      proxy_intercept p = i ∧ proxy_no_proxy p = None ∧
      proxy_credentials p =
        (if bool_decide (url_username target = ""%string) then None
         else Some (mkProxyCredentials (url_username target) (default ""%string (url_password target))))
  | Err _ => url_username target = ""%string ∧ is_Some (url_password target)
  | Panic => False
  end.
Proof.
  unfold from_target, credentials_from_url.
  destruct (url_password target) as [pw|] eqn:Ep;
    destruct (bool_decide (url_username target = ""%string)) eqn:Eu; cbn;
    try apply bool_decide_eq_true in Eu; naive_solver.
Qed.

Lemma matching_proxies_spec ps uri p :
  p ∈ matching_proxies ps uri ↔ p ∈ ps ∧ proxy_matches p uri = true.
Proof. unfold matching_proxies. rewrite list_elem_of_filter. tauto. Qed.

(** Proxy rules: explicit rules that match the request take precedence over
    the environment (which is then not even read, so its errors cannot surface);
    otherwise the matching system proxies are used if enabled; otherwise the
    connection is direct.  Every selected proxy applies to the request. *)
Theorem select_spec rules system uri :
  let explicit := matching_proxies (proxies rules) uri in
  (explicit ≠ [] → select rules system uri = Ok (from_proxies explicit)) ∧
  (explicit = [] → use_system_proxy rules = false → select rules system uri = Ok selection_direct) ∧
  (∀ e, system = Err e → explicit = [] → use_system_proxy rules = true → select rules system uri = Err e) ∧
  (∀ sel, select rules system uri = Ok sel → choices sel ≠ [] ∧
     ∀ p, Choice_Proxy p ∈ choices sel → proxy_matches p uri = true ∧
       (p ∈ proxies rules ∨ ∃ sys, system = Ok sys ∧ p ∈ sys)).
Proof.
  cbn zeta. unfold select. set (explicit := matching_proxies (proxies rules) uri).
  split_and!.
  - intros He. by rewrite bool_decide_false.
  - intros -> ->. done.
  - intros e -> -> ->. done.
  - assert (Hfrom : ∀ ps q, Choice_Proxy q ∈ choices (from_proxies ps) ↔ q ∈ ps).
    { intros ps q. unfold from_proxies; cbn. rewrite list_elem_of_fmap. naive_solver. }
    intros sel. case_bool_decide as He; cbn [negb].
    2:{ intros [= <-]. split; [cbn; by destruct explicit|].
        intros p Hp%Hfrom%matching_proxies_spec. naive_solver. }
    destruct (use_system_proxy rules); [|intros [= <-]; split; [done|set_solver]].
    destruct system as [sys|e|]; cbn [obind]; [|done..]. case_bool_decide as Hs; cbn [negb].
    + intros [= <-]. split; [done|set_solver].
    + intros [= <-]. split; [cbn; by destruct (matching_proxies sys uri)|].
      intros p Hp%Hfrom%matching_proxies_spec. naive_solver.
Qed.

(** ** Building rules and selections *)

(** [ProxyRules::new], openwire/proxy.rs:176-178. *)
Definition rules_new : ProxyRules := mkProxyRules [] false.
(** [ProxyRules::proxy], openwire/proxy.rs:181-184. *)
Definition rules_proxy (r : ProxyRules) (p : Proxy) : ProxyRules := mkProxyRules (proxies r ++ [p]) (use_system_proxy r).
(** [ProxyRules::use_system_proxy], openwire/proxy.rs:188-191. *)
Definition rules_use_system_proxy (r : ProxyRules) (enabled : bool) : ProxyRules := mkProxyRules (proxies r) enabled.

(** [ProxySelection::push_direct], openwire/proxy.rs:251-254. *)
Definition push_direct (s : ProxySelection) : ProxySelection := mkProxySelection (choices s ++ [Choice_Direct]).
(** [ProxySelection::push_proxy], openwire/proxy.rs:257-260. *)
Definition push_proxy (s : ProxySelection) (p : Proxy) : ProxySelection := mkProxySelection (choices s ++ [Choice_Proxy p]).

(** [ProxyEvent], openwire-core/event.rs:14-18: the text of a URL is the url crate's. *)
Inductive ProxyEvent : Type := Event_Direct | Event_Url (target : Url).

(** [ProxySelection::to_events], openwire/proxy.rs:270-281. *)
Definition to_events (s : ProxySelection) : list ProxyEvent :=
  if bool_decide (choices s = []) then [Event_Direct]
  else (λ c, match c with Choice_Direct => Event_Direct | Choice_Proxy p => Event_Url (proxy_target p) end) <$> choices s.

(** [resolved_proxy_candidates], openwire/proxy.rs:393-395. *)
Definition resolved_proxy_candidates (s : ProxySelection) : list (option SelectedProxy) := resolved_proxy_candidates_with_sticky s None.

(** *** The listener is not told of credentials *)

Definition clean_url (u : Url) : Prop := url_username u = ""%string ∧ url_password u = None.
Definition clean (p : Proxy) : Prop := clean_url (proxy_target p).

Lemma from_target_clean target i p : from_target target i = Ok p → clean p.
Proof. intros Hp. pose proof (from_target_credentials target i) as Ht. rewrite Hp in Ht. split; apply Ht. Qed.

Section Clean.
Variable url_parse : string → string + Url.

(** A proxy a program can make: by one of the four constructors, perhaps with exceptions. *)
Inductive made : Proxy → Prop :=
| made_http t p : proxy_http url_parse t = Ok p → made p
| made_https t p : proxy_https url_parse t = Ok p → made p
| made_all t p : proxy_all url_parse t = Ok p → made p
| made_socks5 t p : proxy_socks5 url_parse t = Ok p → made p
| made_no_proxy p np : made p → made (with_no_proxy p np).

Lemma made_clean p : made p → clean p.
Proof.
  induction 1 as [t p Hp|t p Hp|t p Hp|t p Hp|p np _ IH]; [apply obind_Ok in Hp as (u & _ & Hp); by eapply from_target_clean..|exact IH].
Qed.

Lemma env_proxy_clean v i np ps : env_proxy url_parse v i np = Ok ps → Forall clean ps.
Proof.
  unfold env_proxy. destruct v as [v|]; [|by intros [= <-]]. intros (p & Hp & [= <-])%obind_Ok. apply Forall_singleton.
  assert (Hc : clean p).
  { unfold proxy_from_env in Hp. destruct (url_parse v) as [e|u]; [done|]. repeat case_match; try done. by eapply from_target_clean. }
  by destruct np.
Qed.

Lemma system_proxies_clean vars ps : system_proxies_from_iter url_parse vars = Ok ps → Forall clean ps.
Proof.
  unfold system_proxies_from_iter. intros (np & _ & (h & Hh & (hs & Hhs & (a & Ha & [= <-])%obind_Ok)%obind_Ok)%obind_Ok)%obind_Ok.
  repeat apply Forall_app_2; by eapply env_proxy_clean.
Qed.

(** What the listener hears of a selection never shows the credentials of a proxy, wherever it comes from; and it hears of as many
    choices as there are, of a direct connection when there is none. *)
Lemma events_hide_credentials rules vars uri selection :
  Forall made (proxies rules) → select rules (system_proxies_from_iter url_parse vars) uri = Ok selection →
  Forall (λ e, match e with Event_Url u => clean_url u | Event_Direct => True end) (to_events selection) ∧
  length (to_events selection) = length (choices selection).
Proof.
  intros Hr Hs. destruct (select_spec rules (system_proxies_from_iter url_parse vars) uri) as (_ & _ & _ & Hsel).
  destruct (Hsel _ Hs) as [Hne Hin]. unfold to_events. rewrite bool_decide_false by done. split; [|apply length_fmap].
  apply Forall_fmap, Forall_forall. intros [|p] Hp; [done|]. cbn. destruct (Hin p Hp) as [_ [Hex|(sys & Hsys & Hex)]].
  - apply made_clean. by eapply (proj1 (Forall_forall _ _) Hr).
  - by eapply (proj1 (Forall_forall _ _) (system_proxies_clean _ _ Hsys)).
Qed.
End Clean.
