(* ===== verification/Planning.v ===== *)
(** * Addresses, routes and connect plans

    openwire/src/connection/planning.rs, and the host-name match of
    openwire/src/connection/mod.rs that HTTP/2 coalescing uses. *)

From S2P Require Import Prelude Net Error Proxy.

(** ** Addresses *)

(** [UriScheme], openwire/connection/planning.rs:13-17. *)
Inductive UriScheme : Type := Scheme_Http | Scheme_Https.

(** [AuthorityKey], openwire/connection/planning.rs:19-23. *)
Record AuthorityKey : Type := mkAuthorityKey { host : string; port : Z }.

(** [TlsIdentity], openwire/connection/planning.rs:42-45. *)
Record TlsIdentity : Type := mkTlsIdentity { server_name : string }.

(** [ProtocolPolicy], openwire/connection/planning.rs:59-64. *)
Inductive ProtocolPolicy : Type := Http1Only | Http2Only | Http1OrHttp2.

(** [DnsPolicy], openwire/connection/planning.rs:79-84. *)
Inductive DnsPolicy : Type :=
| Dns_System
| Dns_Custom (resolver : string)
| Dns_Deferred.

(** [ProxyScheme], openwire/connection/planning.rs:86-90. *)
Inductive ProxyScheme : Type := ProxyScheme_Http | ProxyScheme_Socks5.

(** [ProxyMode], openwire/connection/planning.rs:92-97. *)
Inductive ProxyMode : Type := Forward | Connect | SocksTunnel.

(** [ProxyEndpoint], openwire/connection/planning.rs:99-104. *)
Record ProxyEndpoint : Type := mkProxyEndpoint {
  pe_scheme : ProxyScheme;
  pe_authority : AuthorityKey;
  pe_credentials : option ProxyCredentials;
}.

(** [ProxyConfig], openwire/connection/planning.rs:133-137. *)
Record ProxyConfig : Type := mkProxyConfig {
  mode : ProxyMode;
  endpoint : ProxyEndpoint;
}.

(** [Address], openwire/connection/planning.rs:153-161. *)
Record Address : Type := mkAddress {
  scheme : UriScheme;
  authority : AuthorityKey;
  proxy : option ProxyConfig;
  tls_identity : option TlsIdentity;
  protocol_policy : ProtocolPolicy;
  dns_policy : DnsPolicy;
}.

#[global] Instance UriScheme_eq_dec : EqDecision UriScheme.
Proof. solve_decision. Defined.
#[global] Instance AuthorityKey_eq_dec : EqDecision AuthorityKey.
Proof. solve_decision. Defined.
#[global] Instance TlsIdentity_eq_dec : EqDecision TlsIdentity.
Proof. solve_decision. Defined.
#[global] Instance ProtocolPolicy_eq_dec : EqDecision ProtocolPolicy.
Proof. solve_decision. Defined.
#[global] Instance DnsPolicy_eq_dec : EqDecision DnsPolicy.
Proof. solve_decision. Defined.
#[global] Instance ProxyScheme_eq_dec : EqDecision ProxyScheme.
Proof. solve_decision. Defined.
#[global] Instance ProxyMode_eq_dec : EqDecision ProxyMode.
Proof. solve_decision. Defined.
#[global] Instance ProxyEndpoint_eq_dec : EqDecision ProxyEndpoint.
Proof. solve_decision. Defined.
#[global] Instance ProxyConfig_eq_dec : EqDecision ProxyConfig.
Proof. solve_decision. Defined.
#[global] Instance Address_eq_dec : EqDecision Address.
Proof. solve_decision. Defined.

(** Addresses are map keys. *)
#[global] Instance UriScheme_countable : Countable UriScheme.
Proof.
  refine (inj_countable' (λ s, match s with Scheme_Http => true | Scheme_Https => false end)
                         (λ b, if b then Scheme_Http else Scheme_Https) _). by intros [].
Defined.
#[global] Instance AuthorityKey_countable : Countable AuthorityKey.
Proof.
  refine (inj_countable' (λ a, (host a, port a)) (λ p, mkAuthorityKey p.1 p.2) _). by intros [].
Defined.
#[global] Instance TlsIdentity_countable : Countable TlsIdentity.
Proof. refine (inj_countable' server_name mkTlsIdentity _). by intros []. Defined.
#[global] Instance ProtocolPolicy_countable : Countable ProtocolPolicy.
Proof.
  refine (inj_countable' (λ p, match p with Http1Only => None | Http2Only => Some true | Http1OrHttp2 => Some false end)
            (λ o, match o with None => Http1Only | Some true => Http2Only | Some false => Http1OrHttp2 end) _).
  by intros [].
Defined.
#[global] Instance DnsPolicy_countable : Countable DnsPolicy.
Proof.
  refine (inj_countable' (λ p, match p with Dns_System => inl true | Dns_Deferred => inl false | Dns_Custom s => inr s end)
            (λ o, match o with inl true => Dns_System | inl false => Dns_Deferred | inr s => Dns_Custom s end) _).
  by intros [].
Defined.
#[global] Instance ProxyScheme_countable : Countable ProxyScheme.
Proof.
  refine (inj_countable' (λ s, match s with ProxyScheme_Http => true | ProxyScheme_Socks5 => false end)
                         (λ b, if b then ProxyScheme_Http else ProxyScheme_Socks5) _). by intros [].
Defined.
#[global] Instance ProxyMode_countable : Countable ProxyMode.
Proof.
  refine (inj_countable' (λ p, match p with Forward => None | Connect => Some true | SocksTunnel => Some false end)
            (λ o, match o with None => Forward | Some true => Connect | Some false => SocksTunnel end) _).
  by intros [].
Defined.
#[global] Instance ProxyEndpoint_countable : Countable ProxyEndpoint.
Proof.
  refine (inj_countable' (λ e, (pe_scheme e, pe_authority e, pe_credentials e))
            (λ t, match t with (s, a, c) => mkProxyEndpoint s a c end) _). by intros [].
Defined.
#[global] Instance ProxyConfig_countable : Countable ProxyConfig.
Proof. refine (inj_countable' (λ c, (mode c, endpoint c)) (λ p, mkProxyConfig p.1 p.2) _). by intros []. Defined.
#[global] Instance Address_countable : Countable Address.
Proof.
  refine (inj_countable'
    (λ a, (authority a, ((proxy a, tls_identity a), (scheme a, (protocol_policy a, dns_policy a)))))
    (λ t, match t with (a, ((p, i), (s, (pp, d)))) => mkAddress s a p i pp d end) _). by intros [].
Defined.

(** [normalize_host], openwire/connection/planning.rs:832-834. *)
Definition normalize_host (h : string) : string := to_ascii_lowercase h.

(** [AuthorityKey::new], openwire/connection/planning.rs:26-31. *)
Definition authority_new (h : string) (p : Z) : AuthorityKey := mkAuthorityKey (normalize_host h) p.

(** [TlsIdentity::new], openwire/connection/planning.rs:48-52. *)
Definition tls_identity_new (name : string) : TlsIdentity := mkTlsIdentity (normalize_host name).

(** [ProxyEndpoint::new], openwire/connection/planning.rs:107-113. *)
Definition proxy_endpoint_new (s : ProxyScheme) (h : string) (p : Z) : ProxyEndpoint :=
  mkProxyEndpoint s (authority_new h p) None.

(** [ProxyEndpoint::with_credentials], openwire/connection/planning.rs:123-126. *)
Definition with_credentials (e : ProxyEndpoint) (c : ProxyCredentials) : ProxyEndpoint :=
  mkProxyEndpoint (pe_scheme e) (pe_authority e) (Some c).

(** [default_port], openwire/connection/planning.rs:825-830. *)
Definition default_port (uri : Uri) (s : UriScheme) : Z :=
  match uri_port_u16 uri with
  | Some p => p
  | None => match s with Scheme_Http => 80 | Scheme_Https => 443 end
  end.

(** [ProxyConfig::from_runtime_proxy], openwire/connection/planning.rs:244-286. *)
Definition from_runtime_proxy (s : UriScheme) (p : SelectedProxy) : outcome WireError ProxyConfig :=
  let? endpoint_scheme :=
    if bool_decide (url_scheme (sel_target p) = "http"%string) then Ok ProxyScheme_Http
    else if bool_decide (url_scheme (sel_target p) = "socks5"%string) then Ok ProxyScheme_Socks5
    else Err (invalid_request ("unsupported proxy URL scheme: " +:+ url_scheme (sel_target p))%string) in
  let? h := match url_host_str (sel_target p) with
            | Some h => Ok h
            | None => Err (invalid_request "proxy URL is missing a host")
            end in
  let? prt := match url_port_or_known_default (sel_target p) with
            | Some n => Ok n
            | None => Err (invalid_request "proxy URL is missing a port and has no known default")
            end in
  let endpoint := proxy_endpoint_new endpoint_scheme h prt in
  let endpoint := match sel_credentials p with
                  | Some c => with_credentials endpoint c
                  | None => endpoint
                  end in
  let? mode :=
    match endpoint_scheme, s with
    | ProxyScheme_Http, Scheme_Http =>
      if intercepts_http p then Ok Forward
      else Err (invalid_request "proxy does not apply to the request scheme")
    | ProxyScheme_Http, Scheme_Https =>
      if intercepts_https p then Ok Connect
      else Err (invalid_request "proxy does not apply to the request scheme")
    | ProxyScheme_Socks5, Scheme_Http =>
      if intercepts_http p then Ok SocksTunnel
      else Err (invalid_request "proxy does not apply to the request scheme")
    | ProxyScheme_Socks5, Scheme_Https =>
      if intercepts_https p then Ok SocksTunnel
      else Err (invalid_request "proxy does not apply to the request scheme")
    end in
  Ok (mkProxyConfig mode endpoint).

(** [Address::from_uri], openwire/connection/planning.rs:182-216. *)
Definition from_uri (uri : Uri) (p : option SelectedProxy) : outcome WireError Address :=
  let? s :=
    match uri_scheme_str uri with
    | Some sch =>
      if eq_ignore_ascii_case sch "https" then Ok Scheme_Https
      else if eq_ignore_ascii_case sch "http" then Ok Scheme_Http
      else Err (invalid_request ("unsupported URI scheme for address derivation: " +:+ sch)%string)
    | None => Err (invalid_request "request URI is missing a scheme")
    end in
  let? h := match uri_host uri with
            | Some h => Ok h
            | None => Err (invalid_request "request URI is missing a host")
            end in
  let prt := default_port uri s in
  let auth := authority_new h prt in
  let tls := match s with Scheme_Https => Some (tls_identity_new h) | Scheme_Http => None end in
  let? prx := match p with
              | Some p => let? c := from_runtime_proxy s p in Ok (Some c)
              | None => Ok None
              end in
  Ok (mkAddress s auth prx tls Http1OrHttp2 Dns_System).

(** ** Routes *)

(** [RouteFamily], openwire/connection/planning.rs:289-293. *)
Inductive RouteFamily : Type := Ipv4 | Ipv6.

#[global] Instance RouteFamily_eq_dec : EqDecision RouteFamily.
Proof. solve_decision. Defined.

(** [RouteFamily::from_socket_addr], openwire/connection/planning.rs:296-301. *)
Definition from_socket_addr (a : SocketAddr) : RouteFamily :=
  match sa_ip a with V4 _ => Ipv4 | V6 _ => Ipv6 end.

(** [DnsResolution], openwire/connection/planning.rs:304-308. *)
Inductive DnsResolution : Type :=
| Local (a : SocketAddr)
| Deferred (h : string) (p : Z).

(** [RouteKind], openwire/connection/planning.rs:310-327. *)
Inductive RouteKind : Type :=
| Direct (target : SocketAddr)
| HttpForwardProxy (prx : SocketAddr) (credentials : option ProxyCredentials)
| ConnectProxy (prx : SocketAddr) (credentials : option ProxyCredentials)
| SocksProxy (prx : SocketAddr) (credentials : option ProxyCredentials).

(** [Route], openwire/connection/planning.rs:329-336. *)
Record Route : Type := mkRoute {
  route_address : Address;
  family : RouteFamily;
  route_kind : RouteKind;
  target_dns : DnsResolution;
  proxy_dns : option DnsResolution;
}.

#[global] Instance DnsResolution_eq_dec : EqDecision DnsResolution.
Proof. solve_decision. Defined.
#[global] Instance RouteKind_eq_dec : EqDecision RouteKind.
Proof. solve_decision. Defined.
#[global] Instance Route_eq_dec : EqDecision Route.
Proof. solve_decision. Defined.

(** [Route::direct], openwire/connection/planning.rs:339-358; [direct_shared] differs
    only in sharing the address allocation. *)
Definition direct (a : Address) (target : SocketAddr) : Route :=
  mkRoute a (from_socket_addr target) (Direct target) (Local target) None.

(** [Route::proxy_route_shared], openwire/connection/planning.rs:422-434. *)
Definition proxy_route (a : Address) (prx : SocketAddr) (k : RouteKind) : Route :=
  mkRoute a (from_socket_addr prx) k
    (Deferred (host (authority a)) (port (authority a))) (Some (Local prx)).

Definition proxy_creds (a : Address) : option ProxyCredentials :=
  c ← proxy a; pe_credentials (endpoint c).

(** [Route::http_forward], openwire/connection/planning.rs:360-374. *)
Definition http_forward (a : Address) (prx : SocketAddr) : Route :=
  proxy_route a prx (HttpForwardProxy prx (proxy_creds a)).

(** [Route::connect_proxy], openwire/connection/planning.rs:376-390. *)
Definition connect_proxy (a : Address) (prx : SocketAddr) : Route :=
  proxy_route a prx (ConnectProxy prx (proxy_creds a)).

(** [Route::socks_proxy], openwire/connection/planning.rs:392-402. *)
Definition socks_proxy (a : Address) (prx : SocketAddr) : Route :=
  proxy_route a prx (SocksProxy prx (proxy_creds a)).

(** [Route::from_observed], openwire/connection/planning.rs:404-420. *)
Definition from_observed (a : Address) (remote_addr : option SocketAddr) : Route :=
  let fallback_addr :=
    match remote_addr with
    | Some r => r
    | None =>
      let p := match proxy a with
               | Some c => port (pe_authority (endpoint c))
               | None => port (authority a)
               end in
      mkSocketAddr (V4 0) p
    end in
  match mode <$> proxy a with
  | Some Forward => http_forward a fallback_addr
  | Some Connect => connect_proxy a fallback_addr
  | Some SocksTunnel => socks_proxy a fallback_addr
  | None => direct a fallback_addr
  end.

(** ** Route plans *)

(** [RoutePlan], openwire/connection/planning.rs:457-461. *)
Record RoutePlan : Type := mkRoutePlan {
  routes : list Route;
  plan_stagger : Duration;
}.

(** One turn of the loop of [order_for_fast_fallback],
    openwire/connection/planning.rs:800-820: the queues of the next family and of
    the other one. *)
Definition pop_preferred (primary secondary : list SocketAddr)
    : option (SocketAddr * list SocketAddr * list SocketAddr) :=
  match primary with
  | x :: primary => Some (x, primary, secondary)
  | [] => match secondary with
          | y :: secondary => Some (y, [], secondary)
          | [] => None
          end
  end.

(** The loop; the next family's queue comes first and the roles swap each turn.
    The fuel is the number of queued addresses plus one. *)
Fixpoint interleave (fuel : nat) (primary secondary : list SocketAddr) : list SocketAddr :=
  match fuel with
  | O => []
  | S fuel =>
    match pop_preferred primary secondary with
    | None => []
    | Some (x, primary, secondary) => x :: interleave fuel secondary primary
    end
  end.

Definition of_family (f : RouteFamily) (addrs : list SocketAddr) : list SocketAddr :=
  filter (λ a, from_socket_addr a = f) addrs.

(** [order_for_fast_fallback], openwire/connection/planning.rs:776-823. *)
Definition order_for_fast_fallback (addrs : list SocketAddr) : list SocketAddr :=
  let v4 := of_family Ipv4 addrs in
  let v6 := of_family Ipv6 addrs in
  if bool_decide (v6 = []) then interleave (S (length addrs)) v4 v6
  else interleave (S (length addrs)) v6 v4.

(** [DefaultRoutePlanner], openwire/connection/planning.rs:659-662. *)
Record DefaultRoutePlanner : Type := mkDefaultRoutePlanner { fast_fallback_stagger : Duration }.

Definition DEFAULT_FAST_FALLBACK_STAGGER : Duration := from_millis 250.

(** [DefaultRoutePlanner::plan_direct], openwire/connection/planning.rs:681-695. *)
Definition plan_direct (pl : DefaultRoutePlanner) (a : Address) (resolved : list SocketAddr) : RoutePlan :=
  mkRoutePlan (direct a <$> order_for_fast_fallback resolved) (fast_fallback_stagger pl).

(** [DefaultRoutePlanner::plan_http_forward], openwire/connection/planning.rs:697-711. *)
Definition plan_http_forward (pl : DefaultRoutePlanner) (a : Address) (resolved : list SocketAddr) : RoutePlan :=
  mkRoutePlan (http_forward a <$> order_for_fast_fallback resolved) (fast_fallback_stagger pl).

(** [DefaultRoutePlanner::plan_connect_proxy], openwire/connection/planning.rs:713-727. *)
Definition plan_connect_proxy (pl : DefaultRoutePlanner) (a : Address) (resolved : list SocketAddr) : RoutePlan :=
  mkRoutePlan (connect_proxy a <$> order_for_fast_fallback resolved) (fast_fallback_stagger pl).

(** [DefaultRoutePlanner::plan_socks_proxy], openwire/connection/planning.rs:729-743. *)
Definition plan_socks_proxy (pl : DefaultRoutePlanner) (a : Address) (resolved : list SocketAddr) : RoutePlan :=
  mkRoutePlan (socks_proxy a <$> order_for_fast_fallback resolved) (fast_fallback_stagger pl).

(** [RoutePlanner], openwire/connection/planning.rs:632-640. *)
Class RoutePlanner (P : Type) : Type := {
  dns_target : P → Address → string * Z;
  plan : P → Address → list SocketAddr → outcome WireError RoutePlan;
}.

(** [dns_target] of the default planner, openwire/connection/planning.rs:747-759. *)
Definition default_dns_target (pl : DefaultRoutePlanner) (a : Address) : string * Z :=
  match proxy a with
  | Some c => (host (pe_authority (endpoint c)), port (pe_authority (endpoint c)))
  | None => (host (authority a), port (authority a))
  end.

(** [plan] of the default planner, openwire/connection/planning.rs:761-773. *)
Definition default_plan (pl : DefaultRoutePlanner) (a : Address) (resolved : list SocketAddr)
    : outcome WireError RoutePlan :=
  Ok match mode <$> proxy a with
     | Some Forward => plan_http_forward pl a resolved
     | Some Connect => plan_connect_proxy pl a resolved
     | Some SocksTunnel => plan_socks_proxy pl a resolved
     | None => plan_direct pl a resolved
     end.

#[global] Instance default_route_planner : RoutePlanner DefaultRoutePlanner :=
  {| dns_target := default_dns_target; plan := default_plan |}.

(** ** Connect plans *)

(** [ConnectFailureStage], openwire/connection/planning.rs:492-498. *)
Inductive ConnectFailureStage : Type :=
| Failure_Tcp | Failure_Tls | Failure_ProtocolBinding | Failure_ProxyTunnel.

(** [ConnectFailure], openwire/connection/planning.rs:500-504. *)
Record ConnectFailure : Type := mkConnectFailure {
  failure_stage : ConnectFailureStage;
  failure_message : string;
}.

(** [ConnectAttemptState], openwire/connection/planning.rs:523-530. *)
Inductive ConnectAttemptState : Type :=
| Attempt_Pending
| Attempt_Running
| Attempt_Won
| Attempt_Lost (winner_index : nat)
| Attempt_Failed (f : ConnectFailure).

(** [ConnectAttempt], openwire/connection/planning.rs:532-537. *)
Record ConnectAttempt : Type := mkConnectAttempt {
  attempt_route : Route;
  scheduled_after : Duration;
  attempt_state : ConnectAttemptState;
}.

(** [ConnectPlan], openwire/connection/planning.rs:553-557. *)
Record ConnectPlan : Type := mkConnectPlan {
  attempts : list ConnectAttempt;
  cp_stagger : Duration;
}.

#[global] Instance ConnectFailureStage_eq_dec : EqDecision ConnectFailureStage.
Proof. solve_decision. Defined.
#[global] Instance ConnectFailure_eq_dec : EqDecision ConnectFailure.
Proof. solve_decision. Defined.
#[global] Instance ConnectAttemptState_eq_dec : EqDecision ConnectAttemptState.
Proof. solve_decision. Defined.

(** [Duration::MAX]; [Duration * u32] panics beyond it. *)
Definition DURATION_MAX : Duration := from_secs (U64_MAX + 1) - 1.

(** [ConnectPlan::from_route_plan], openwire/connection/planning.rs:560-576. *)
Definition from_route_plan (rp : RoutePlan) : outcome WireError ConnectPlan :=
  let delay (i : nat) := plan_stagger rp * (Z.of_nat i `mod` (U32_MAX + 1)) in
  let ats := imap (λ i r, mkConnectAttempt r (delay i) Attempt_Pending) (routes rp) in
  if forallb (λ a, scheduled_after a <=? DURATION_MAX) ats
  then Ok (mkConnectPlan ats (plan_stagger rp)) else Panic.

Definition set_state (st : ConnectAttemptState) (a : ConnectAttempt) : ConnectAttempt :=
  mkConnectAttempt (attempt_route a) (scheduled_after a) st.

(** [ConnectPlan::transition], openwire/connection/planning.rs:623-629. *)
Definition transition (cp : ConnectPlan) (index : nat) (st : ConnectAttemptState) : bool * ConnectPlan :=
  match attempts cp !! index with
  | None => (false, cp)
  | Some a => (true, mkConnectPlan (<[index := set_state st a]> (attempts cp)) (cp_stagger cp))
  end.

(** [ConnectPlan::mark_running], openwire/connection/planning.rs:590-592. *)
Definition mark_running (cp : ConnectPlan) (index : nat) : bool * ConnectPlan :=
  transition cp index Attempt_Running.

(** [ConnectPlan::mark_failed], openwire/connection/planning.rs:594-596. *)
Definition mark_failed (cp : ConnectPlan) (index : nat) (f : ConnectFailure) : bool * ConnectPlan :=
  transition cp index (Attempt_Failed f).

(** [ConnectPlan::mark_lost], openwire/connection/planning.rs:598-600. *)
Definition mark_lost (cp : ConnectPlan) (index winner_index : nat) : bool * ConnectPlan :=
  transition cp index (Attempt_Lost winner_index).

Definition is_open (st : ConnectAttemptState) : bool :=
  match st with Attempt_Pending | Attempt_Running => true | _ => false end.

(** [ConnectPlan::promote_winner], openwire/connection/planning.rs:602-621. *)
Definition promote_winner (cp : ConnectPlan) (winner_index : nat) : bool * ConnectPlan :=
  match transition cp winner_index Attempt_Won with
  | (false, cp) => (false, cp)
  | (true, cp) =>
    (true, mkConnectPlan
      (imap (λ i a, if (i =? winner_index)%nat then a
                    else if is_open (attempt_state a) then set_state (Attempt_Lost winner_index) a
                    else a) (attempts cp))
      (cp_stagger cp))
  end.

(** ** Certificate names *)

(** [verified_server_name_matches], openwire/connection/mod.rs:78-91. *)
Definition verified_server_name_matches (pattern h : string) : bool :=
  if bool_decide (pattern = h) then true else
  match strip_prefix "*." pattern with
  | None => false
  | Some suffix =>
    match strip_suffix suffix h with
    | None => false
    | Some pre =>
      match strip_suffix "." pre with
      | None => false
      | Some label => negb (contains_char "."%char label)
      end
    end
  end.

(** ** Fast-fallback order *)

Lemma interleave_families (f g : RouteFamily) fuel p s :
  f ≠ g → Forall (λ a, from_socket_addr a = f) p → Forall (λ a, from_socket_addr a = g) s →
  (length p + length s < fuel)%nat →
  of_family f (interleave fuel p s) = p ∧ of_family g (interleave fuel p s) = s.
Proof.
  unfold of_family. revert f g p s; induction fuel as [|fuel IH]; intros f g p s Hfg Hp Hs Hf; [lia|].
  destruct p as [|x p]; [destruct s as [|y s]|]; simpl in *; [done| |].
  - apply Forall_cons in Hs as [Hy Hs].
    destruct (IH g f s []) as [Ig If]; [done|done|constructor|simpl; lia|].
    rewrite !filter_cons, Ig, If. destruct (decide (from_socket_addr y = f)); [congruence|].
    by rewrite decide_True.
  - apply Forall_cons in Hp as [Hx Hp].
    destruct (IH g f s p) as [Ig If]; [done|done|done|simpl; lia|].
    rewrite !filter_cons, Ig, If. rewrite decide_True by done. by rewrite decide_False by congruence.
Qed.

Lemma interleave_lookup fuel p s :
  (length p + length s < fuel)%nat →
  (∀ k x, (k ≤ length s)%nat → p !! k = Some x → interleave fuel p s !! (2 * k)%nat = Some x) ∧
  (∀ k x, (k < length p)%nat → s !! k = Some x → interleave fuel p s !! (2 * k + 1)%nat = Some x).
Proof.
  revert p s; induction fuel as [|fuel IH]; intros p s Hf; [lia|].
  destruct p as [|x p]; [split; intros k z Hk Hz; [done|simpl in Hk; lia]|].
  simpl in Hf. destruct (IH s p) as [I0 I1]; [lia|]. cbn [interleave pop_preferred].
  split; intros k z Hk Hz.
  - destruct k as [|k]; [done|]. replace (2 * S k)%nat with (S (2 * k + 1)) by lia.
    simpl in Hz |- *. apply I1; [lia|done].
  - replace (2 * k + 1)%nat with (S (2 * k)) by lia. simpl in Hk |- *. apply I0; [lia|done].
Qed.

Lemma of_family_Forall f l : Forall (λ a, from_socket_addr a = f) (of_family f l).
Proof. apply Forall_forall. intros a. unfold of_family. rewrite list_elem_of_filter. tauto. Qed.

Lemma of_family_split l : of_family Ipv6 l ++ of_family Ipv4 l ≡ₚ l.
Proof.
  unfold of_family. induction l as [|a l IH]; [done|]. rewrite !filter_cons.
  destruct (from_socket_addr a); simpl; [rewrite <-Permutation_middle|]; by f_equiv.
Qed.

Lemma of_family_length l : (length (of_family Ipv6 l) + length (of_family Ipv4 l) = length l)%nat.
Proof. rewrite <-length_app. by rewrite of_family_split. Qed.

Lemma order_families f l : of_family f (order_for_fast_fallback l) = of_family f l.
Proof.
  unfold order_for_fast_fallback. pose proof (of_family_length l).
  case_bool_decide;
    [pose proof (interleave_families Ipv4 Ipv6 (S (length l)) (of_family Ipv4 l) (of_family Ipv6 l)) as I
    |pose proof (interleave_families Ipv6 Ipv4 (S (length l)) (of_family Ipv6 l) (of_family Ipv4 l)) as I];
    (destruct I as [I0 I1]; [done|apply of_family_Forall..|lia|]); by destruct f.
Qed.

(** [order_for_fast_fallback] loses, invents and duplicates no address and keeps the
    resolver's order inside each family; IPv6 comes first, and the two families
    alternate for as long as both have addresses left. *)
Theorem fast_fallback_order (addrs : list SocketAddr) :
  let o := order_for_fast_fallback addrs in
  let v6 := of_family Ipv6 addrs in
  let v4 := of_family Ipv4 addrs in
  o ≡ₚ addrs ∧ (∀ f, of_family f o = of_family f addrs) ∧
  (∀ k x, (k ≤ length v4)%nat → v6 !! k = Some x → o !! (2 * k)%nat = Some x) ∧
  (∀ k x, (k < length v6)%nat → v4 !! k = Some x → o !! (2 * k + 1)%nat = Some x).
Proof.
  split_and!.
  - etrans; [symmetry; apply of_family_split|]. rewrite !order_families. apply of_family_split.
  - intros f; apply order_families.
  - unfold order_for_fast_fallback. pose proof (of_family_length addrs).
    case_bool_decide as Hb; [by rewrite Hb|]. apply interleave_lookup; lia.
  - unfold order_for_fast_fallback. pose proof (of_family_length addrs).
    case_bool_decide as Hb; [rewrite Hb; simpl; lia|]. apply interleave_lookup; lia.
Qed.

(** ** Address derivation *)

Definition scheme_of (uri : Uri) : option UriScheme :=
  sch ← uri_scheme_str uri;
  if eq_ignore_ascii_case sch "https" then Some Scheme_Https
  else if eq_ignore_ascii_case sch "http" then Some Scheme_Http
  else None.

Definition intercepts (s : UriScheme) (p : SelectedProxy) : bool :=
  match s with Scheme_Http => intercepts_http p | Scheme_Https => intercepts_https p end.

(** The mode a proxy URL's scheme and the request's scheme ask for. *)
Definition proxy_mode (s : UriScheme) (proxy_url_scheme : string) : option (ProxyScheme * ProxyMode) :=
  if bool_decide (proxy_url_scheme = "socks5"%string) then Some (ProxyScheme_Socks5, SocksTunnel)
  else if bool_decide (proxy_url_scheme = "http"%string)
       then Some (ProxyScheme_Http, match s with Scheme_Http => Forward | Scheme_Https => Connect end)
       else None.

Lemma from_runtime_proxy_Ok s p c :
  from_runtime_proxy s p = Ok c ↔
  ∃ ps m h prt,
    proxy_mode s (url_scheme (sel_target p)) = Some (ps, m) ∧
    url_host_str (sel_target p) = Some h ∧
    url_port_or_known_default (sel_target p) = Some prt ∧
    intercepts s p = true ∧
    c = mkProxyConfig m (mkProxyEndpoint ps (authority_new h prt) (sel_credentials p)).
Proof.
  unfold from_runtime_proxy, proxy_mode, intercepts. split.
  - intros H. repeat case_match; simplify_eq/=; repeat case_bool_decide; simplify_eq/=;
      repeat case_match; simplify_eq/=; try congruence; by repeat esplit.
  - intros (ps & m & h & prt & Hm & -> & -> & Hi & ->).
    repeat case_bool_decide; simplify_eq/=; try congruence;
      destruct s; rewrite Hi; simpl; by destruct (sel_credentials p).
Qed.

(** [Address::from_uri] derives an address exactly when the URI has an http or https scheme
    (in any case) and a host, and the chosen proxy, if any, is an http or socks5 URL with a host
    and a port that intercepts that scheme.  The address then has the lower-cased host, the
    explicit or default port, a TLS identity exactly for https, and the proxy mode: forwarding
    for http over an HTTP proxy, CONNECT for https over one, a tunnel over SOCKS. *)
Theorem from_uri_spec (uri : Uri) (p : option SelectedProxy) (a : Address) :
  from_uri uri p = Ok a ↔
  ∃ s h,
    scheme_of uri = Some s ∧ uri_host uri = Some h ∧
    scheme a = s ∧
    authority a = mkAuthorityKey (to_ascii_lowercase h) (default (match s with Scheme_Http => 80 | Scheme_Https => 443 end) (uri_port_u16 uri)) ∧
    tls_identity a = match s with Scheme_Http => None | Scheme_Https => Some (mkTlsIdentity (to_ascii_lowercase h)) end ∧
    protocol_policy a = Http1OrHttp2 ∧ dns_policy a = Dns_System ∧
    match p with
    | None => proxy a = None
    | Some sp =>
      ∃ ps m ph prt,
        proxy_mode s (url_scheme (sel_target sp)) = Some (ps, m) ∧
        url_host_str (sel_target sp) = Some ph ∧
        url_port_or_known_default (sel_target sp) = Some prt ∧
        intercepts s sp = true ∧
        proxy a = Some (mkProxyConfig m (mkProxyEndpoint ps (authority_new ph prt) (sel_credentials sp)))
    end.
Proof.
  unfold from_uri, scheme_of. split.
  - intros H. apply obind_Ok in H as (s & Hs & H). apply obind_Ok in H as (h & Hh & H).
    apply obind_Ok in H as (prx & Hp & H). simplify_eq/=. exists s, h.
    split_and!; try done.
    + destruct (uri_scheme_str uri); simpl; repeat case_match; by simplify_eq/=.
    + by destruct (uri_host uri); simplify_eq.
    + destruct p as [sp|]; [|congruence]. apply obind_Ok in Hp as (c & Hc & ?). simplify_eq.
      apply from_runtime_proxy_Ok in Hc as (ps & m & ph & prt & ?). destruct_and?. subst.
      by exists ps, m, ph, prt.
  - destruct a as [a1 a2 a3 a4 a5 a6]. intros (s & h & Hs & -> & Hr). simpl in Hr.
    destruct Hr as (-> & -> & -> & -> & -> & Hp).
    apply bind_Some in Hs as (sch & -> & Hs).
    assert (obind (match p with Some p => let? c := from_runtime_proxy s p in Ok (Some c) | None => Ok None end)
              (λ prx, Ok (mkAddress s (authority_new h (default_port uri s)) prx
                 (match s with Scheme_Https => Some (tls_identity_new h) | Scheme_Http => None end)
                 Http1OrHttp2 Dns_System)) = Ok
              (mkAddress s (authority_new h (default_port uri s)) a3
                 (match s with Scheme_Https => Some (tls_identity_new h) | Scheme_Http => None end)
                 Http1OrHttp2 Dns_System)) as Hgoal.
    { destruct p as [sp|]; [|simpl; by rewrite Hp].
      destruct Hp as (ps & m & ph & prt & ? & ? & ? & ? & ->).
      erewrite (proj2 (from_runtime_proxy_Ok s sp _)); [done|by eauto 10]. }
    destruct (eq_ignore_ascii_case sch "https"); [|destruct (eq_ignore_ascii_case sch "http")];
      simplify_eq/=; rewrite Hgoal; unfold authority_new, tls_identity_new, default_port;
      by destruct (uri_port_u16 uri).
Qed.

(** ** Route plans *)

(** The kind of route each way of reaching the origin asks for. *)
Definition kind_for (a : Address) (next_hop : SocketAddr) : RouteKind :=
  match mode <$> proxy a with
  | None => Direct next_hop
  | Some Forward => HttpForwardProxy next_hop (proxy_creds a)
  | Some Connect => ConnectProxy next_hop (proxy_creds a)
  | Some SocksTunnel => SocksProxy next_hop (proxy_creds a)
  end.

Lemma default_plan_routes pl a resolved :
  default_plan pl a resolved =
    Ok (mkRoutePlan (from_observed a ∘ Some <$> order_for_fast_fallback resolved)
          (fast_fallback_stagger pl)).
Proof. unfold default_plan, from_observed. by destruct (proxy a) as [[[] ?]|]. Qed.

(** The default planner makes one route per resolved address, in fast-fallback order, each of
    the kind its address's proxy asks for.  A proxied route leaves the origin's name to the
    proxy and never resolves it locally; a direct route has no proxy hop.  The planner resolves
    the proxy's own name exactly when there is a proxy. *)
Theorem default_planner_spec (pl : DefaultRoutePlanner) (a : Address) (resolved : list SocketAddr) :
  dns_target pl a = match proxy a with
                    | Some c => (host (pe_authority (endpoint c)), port (pe_authority (endpoint c)))
                    | None => (host (authority a), port (authority a))
                    end ∧
  ∃ rp, plan pl a resolved = Ok rp ∧ plan_stagger rp = fast_fallback_stagger pl ∧
    Forall2 (λ r next_hop,
      route_address r = a ∧ family r = from_socket_addr next_hop ∧
      route_kind r = kind_for a next_hop ∧
      (target_dns r, proxy_dns r) =
        match proxy a with
        | None => (Local next_hop, None)
        | Some _ => (Deferred (host (authority a)) (port (authority a)), Some (Local next_hop))
        end) (routes rp) (order_for_fast_fallback resolved).
Proof.
  split; [by cbn; unfold default_dns_target; destruct (proxy a)|].
  eexists; split; [apply default_plan_routes|]. split; [done|]. cbn [routes].
  apply Forall2_fmap_l, Forall_Forall2_diag, Forall_true. intros x.
  cbn. unfold from_observed, kind_for. by destruct (proxy a) as [[[] ?]|].
Qed.

(** ** Connect plans *)

(** An https origin without a proxy, used by the examples. *)
Definition example_address : Address :=
  mkAddress Scheme_Https (mkAuthorityKey "example.com" 443) None
    (Some (mkTlsIdentity "example.com")) Http1OrHttp2 Dns_System.

(** Building a connect plan does not panic and schedules attempt [i] at [i] staggers, all pending,
    when the last delay fits a [Duration] (and there are at most [u32::MAX] routes). *)
Theorem from_route_plan_spec (rp : RoutePlan) :
  0 ≤ plan_stagger rp → len (routes rp) ≤ U32_MAX →
  plan_stagger rp * len (routes rp) ≤ DURATION_MAX →
  ∃ cp, from_route_plan rp = Ok cp ∧ length (attempts cp) = length (routes rp) ∧
    ∀ i a, attempts cp !! i = Some a →
      routes rp !! i = Some (attempt_route a) ∧
      scheduled_after a = plan_stagger rp * Z.of_nat i ∧ attempt_state a = Attempt_Pending.
Proof.
  intros Hs Hn Hd. unfold from_route_plan.
  set (ats := imap _ _).
  assert (Hi : ∀ i a, ats !! i = Some a →
      routes rp !! i = Some (attempt_route a) ∧
      scheduled_after a = plan_stagger rp * Z.of_nat i ∧ attempt_state a = Attempt_Pending).
  { intros i a. unfold ats. rewrite list_lookup_imap, fmap_Some.
    intros (r & Hr & ->). split_and!; [done| |done]. cbn.
    apply lookup_lt_Some in Hr. unfold len, U32_MAX in *. rewrite Z.mod_small; lia. }
  assert (Hf : forallb (λ a, scheduled_after a <=? DURATION_MAX) ats = true).
  { apply forallb_forall. intros a Ha. apply list_elem_of_In, list_elem_of_lookup in Ha as [i Ha].
    destruct (Hi i a Ha) as (Hr & -> & _). apply Z.leb_le. apply lookup_lt_Some in Hr.
    unfold len in *. nia. }
  rewrite Hf. eexists; split; [done|]. split; [apply length_imap|done].
Qed.

Lemma from_route_plan_spec_witness :
  let r := direct example_address (mkSocketAddr (V4 2130706433) 443) in
  ∃ cp, from_route_plan (mkRoutePlan [r; r; r] DEFAULT_FAST_FALLBACK_STAGGER) = Ok cp ∧
    scheduled_after <$> attempts cp = [from_millis 0; from_millis 250; from_millis 500].
Proof.
  intros r.
  destruct (from_route_plan_spec (mkRoutePlan [r; r; r] DEFAULT_FAST_FALLBACK_STAGGER))
    as (cp & H & _ & _); [by vm_compute|by vm_compute|by vm_compute|].
  exists cp. split; [done|]. vm_compute in H. by simplify_eq.
Defined.

(** [promote_winner] refuses an index outside the plan and changes nothing; otherwise the winner
    is the plan's only attempt marked won by this call, every attempt still pending or running
    becomes lost to it, and attempts that already failed, lost or won keep their outcome; routes
    and delays are untouched. *)
Lemma promote_winner_spec (cp : ConnectPlan) (w : nat) :
  let '(ok, cp') := promote_winner cp w in
  (ok = true ↔ (w < length (attempts cp))%nat) ∧ (ok = false → cp' = cp) ∧
  length (attempts cp') = length (attempts cp) ∧ cp_stagger cp' = cp_stagger cp ∧
  ∀ i a, attempts cp !! i = Some a → ok = true →
    ∃ a', attempts cp' !! i = Some a' ∧
      attempt_route a' = attempt_route a ∧ scheduled_after a' = scheduled_after a ∧
      attempt_state a' =
        (if decide (i = w) then Attempt_Won
         else if is_open (attempt_state a) then Attempt_Lost w else attempt_state a).
Proof.
  unfold promote_winner, transition. destruct (attempts cp !! w) as [aw|] eqn:Hw.
  - pose proof (lookup_lt_Some _ _ _ Hw) as Hlt. split_and!; try done; cbn [attempts cp_stagger].
    + by rewrite length_imap, length_insert.
    + intros i a Ha _. rewrite list_lookup_imap.
      destruct (decide (i = w)) as [->|Hne].
      * rewrite list_lookup_insert_eq by done. rewrite Nat.eqb_refl. simplify_eq.
        by eexists.
      * rewrite list_lookup_insert_ne, Ha by done. rewrite (proj2 (Nat.eqb_neq i w)) by done.
        eexists; split; [done|]. by destruct (is_open (attempt_state a)).
  - apply lookup_ge_None in Hw. split_and!; try done. split; [done|lia].
Qed.

(** ** Certificate names *)

(** A verified certificate name covers a host exactly when it is the host itself, or is [*.suffix]
    and the host is one dot-free (possibly empty) label in front of [.suffix]; in particular a wildcard never
    covers its own suffix nor a name two labels deeper. *)
Theorem verified_server_name_matches_iff (pattern h : string) :
  verified_server_name_matches pattern h = true ↔
  pattern = h ∨
  ∃ suffix label, pattern = ("*." +:+ suffix)%string ∧ h = (label +:+ "." +:+ suffix)%string ∧
    contains_char "."%char label = false.
Proof.
  unfold verified_server_name_matches. case_bool_decide as Hp; [by split; [left|]|].
  split.
  - intros H. repeat case_match; try done. right.
    repeat match goal with
           | H : strip_prefix _ _ = Some _ |- _ => apply strip_prefix_Some in H
           | H : strip_suffix _ _ = Some _ |- _ => apply strip_suffix_Some in H
           end; subst.
    eexists _, _. split_and!; [done| |by apply negb_true_iff]. by rewrite string_app_assoc.
  - intros [?|(suffix & label & -> & -> & Hl)]; [done|].
    rewrite (proj2 (strip_prefix_Some "*." _ suffix)) by done.
    rewrite (proj2 (strip_suffix_Some suffix _ (label +:+ ".")%string))
      by (by rewrite string_app_assoc).
    rewrite (proj2 (strip_suffix_Some "." _ label)) by done. by rewrite Hl.
Qed.
