(* ===== verification/FastFallback.v ===== *)
(** * Racing the routes of a plan

    openwire/src/connection/fast_fallback.rs: one task per route, started after its delay, connects,
    finalizes and reports over a channel; the dialer takes the reports in order, returns the first
    connection and aborts the other tasks, returns at once on an error that is not worth another route, and
    otherwise the last error once every task has reported.

    What connecting and finalizing a route gives is decided outside: any result at any time.  A task's
    delay, like the rest of it, may take arbitrarily long; and a task may go without a report, when connecting
    panics or the executor drops it.  Aborting takes effect at once: what an aborted
    task might still report is dropped with the channel. *)

From S2P Require Import Prelude Net Error Planning.

(** [FastFallbackOutcome], openwire/connection/fast_fallback.rs:71-77, without the race's number. *)
Record FastFallbackOutcome : Type := mkRaceOutcome {
  route_count : nat;
  winner_index : nat;
  fast_fallback_enabled : bool;
}.

(** [failure_stage], openwire/connection/fast_fallback.rs:481-488. *)
Definition failure_stage_of (e : WireError) : ConnectFailureStage :=
  match establishment_stage e with
  | Some Stage_Tls => Failure_Tls
  | Some Stage_ProtocolBinding => Failure_ProtocolBinding
  | Some Stage_ProxyTunnel => Failure_ProxyTunnel
  | _ => Failure_Tcp
  end.

(** [loss_reason], openwire/connection/fast_fallback.rs:490-497. *)
Definition loss_reason (s : ConnectFailureStage) : string :=
  match s with
  | Failure_Tcp => "connect_failed"
  | Failure_Tls => "tls_failed"
  | Failure_ProtocolBinding => "protocol_failed"
  | Failure_ProxyTunnel => "proxy_failed"
  end.

(** [route_family_label], openwire/connection/fast_fallback.rs:520-525. *)
Definition route_family_label (f : RouteFamily) : string := match f with Ipv4 => "ipv4" | Ipv6 => "ipv6" end.

(** What the listener is told of the race. *)
Inductive RaceEvent : Type :=
| Race_Plan (route_count : nat) (fast_fallback_enabled : bool)
| Race_Start (index : nat) (family : string)
| Race_Won (index : nat)
| Race_Lost (index : nat) (reason : string).

Section Race.
Context {C : Type}.

(** [FastFallbackMessage], openwire/connection/fast_fallback.rs:499-510. *)
Inductive FastFallbackMessage : Type :=
| Started (route_index : nat) (family : string)
| Finished (route_index : nat) (result : WireError + C).

(** What the dialer keeps: the connect plan, the last error, and the events it reported. *)
Record Dialer : Type := mkDialer {
  dl_plan : ConnectPlan;
  dl_last_error : option WireError;
  dl_events : list RaceEvent;
}.

Abbreviation Result := (WireError + C * FastFallbackOutcome)%type.

(** [emit_canceled_loss_if_needed], openwire/connection/fast_fallback.rs:554-586. *)
Definition emit_canceled_loss_if_needed (winner : nat) (st : ConnectPlan * list bool * list RaceEvent) (index : nat)
    : ConnectPlan * list bool * list RaceEvent :=
  let '(plan, canceled, events) := st in
  if (index =? winner)%nat || default false (canceled !! index) then st else
  let '(should_emit, plan) :=
    match attempt_state <$> attempts plan !! index with
    | Some Attempt_Pending | Some Attempt_Running => (true, (mark_lost plan index winner).2)
    | Some (Attempt_Lost w) => ((w =? winner)%nat, plan)
    | _ => (false, plan)
    end in
  if should_emit then (plan, <[index := true]> canceled, events ++ [Race_Lost index "canceled"])
  else (plan, canceled, events).

(** [cleanup_losers], openwire/connection/fast_fallback.rs:527-552; the tasks are aborted in [abort_others]. *)
Definition cleanup_losers (n winner : nat) (plan : ConnectPlan) (events : list RaceEvent) : ConnectPlan * list RaceEvent :=
  let '(plan, _, events) :=
    foldl (emit_canceled_loss_if_needed winner) (plan, replicate n false, events) (seq 0 n) in (plan, events).

(** One turn of the dialer's loop, openwire/connection/fast_fallback.rs:275-363: go on, or return. *)
Definition receive (n : nat) (d : Dialer) (m : FastFallbackMessage) : Dialer * option Result :=
  match m with
  | Started i family =>
    (mkDialer (mark_running (dl_plan d) i).2 (dl_last_error d) (dl_events d ++ [Race_Start i family]), None)
  | Finished i (inr c) =>
    let plan := (promote_winner (dl_plan d) i).2 in
    let '(plan, events) := cleanup_losers n i plan (dl_events d ++ [Race_Won i]) in
    (mkDialer plan (dl_last_error d) events, Some (inr (c, mkRaceOutcome n i (1 <? n)%nat)))
  | Finished i (inl e) =>
    let stage := failure_stage_of e in
    let plan := (mark_failed (dl_plan d) i (mkConnectFailure stage (message e))).2 in
    let events := dl_events d ++ [Race_Lost i (loss_reason stage)] in
    if is_retryable_establishment e then (mkDialer plan (Some e) events, None)
    else (mkDialer plan (dl_last_error d) events, Some (inl e))
  end.

(** The end of the loop, openwire/connection/fast_fallback.rs:366-369. *)
Definition exhausted (d : Dialer) : Result :=
  inl (default (route_exhausted "no fast-fallback route could be connected") (dl_last_error d)).

(** ** The race *)

(** A route's task: before its delay has passed, connecting, having reported, aborted, gone before it reported - dropped
    by the executor or panicking ([RouteTaskLifecycle::drop] without an outcome, openwire/connection/fast_fallback.rs:56-69). *)
Inductive TaskState : Type := Task_Waiting | Task_Connecting | Task_Ended | Task_Aborted | Task_Dropped.

#[global] Instance TaskState_eq_dec : EqDecision TaskState.
Proof. solve_decision. Defined.

(** The dialer, the tasks, the messages on their way, what the dialer returned, and every message sent. *)
Record Race : Type := mkRace {
  rc_dialer : Dialer;
  rc_tasks : list TaskState;
  rc_queue : list FastFallbackMessage;
  rc_result : option Result;
  rc_sent : list FastFallbackMessage;
}.

(** A task that has gone, with its sender. *)
Definition gone (t : TaskState) : bool := match t with Task_Ended | Task_Dropped => true | _ => false end.
Definition abort (t : TaskState) : TaskState := if gone t then t else Task_Aborted.
(** [abort_all], openwire/connection/fast_fallback.rs:588-592. *)
Definition abort_all (ts : list TaskState) : list TaskState := abort <$> ts.
(** The aborts of [cleanup_losers], openwire/connection/fast_fallback.rs:536-540. *)
Definition abort_others (winner : nat) (ts : list TaskState) : list TaskState :=
  imap (λ i t, if (i =? winner)%nat then t else abort t) ts.

Definition abort_after (r : Result) (ts : list TaskState) : list TaskState :=
  match r with inr (_, o) => abort_others (winner_index o) ts | inl _ => abort_all ts end.

(** The tasks of [dial_route_plan], openwire/connection/fast_fallback.rs:154-271; [spawn i] is what the
    executor answers for the i-th. *)
Fixpoint spawn_all (spawn : nat → option WireError) (i n : nat) (tasks : list TaskState) : WireError * list TaskState + list TaskState :=
  match n with
  | O => inr tasks
  | S n =>
    match spawn i with
    | Some e => inl (e, abort_all tasks)
    | None => spawn_all spawn (S i) n (tasks ++ [Task_Waiting])
    end
  end.

(** [dial_route_plan] up to the loop, openwire/connection/fast_fallback.rs:133-271. *)
Definition dial_route_plan (spawn : nat → option WireError) (rp : RoutePlan) : outcome WireError Race :=
  let n := length (routes rp) in
  let events := [Race_Plan n (1 <? n)%nat] in
  if bool_decide (routes rp = []) then Err (route_exhausted "route plan produced no routes")
  else let? plan := from_route_plan rp in
  match spawn_all spawn 0 n [] with
  | inl (e, _) => Err e
  | inr tasks => Ok (mkRace (mkDialer plan None events) tasks [] None [])
  end.

Inductive RaceMove : Type :=
| Move_Start (i : nat)
| Move_Finish (i : nat) (result : WireError + C)
| Move_Drop (i : nat)
| Move_Dialer.

(** A message is dropped once the dialer has returned. *)
Definition send (m : FastFallbackMessage) (r : Race) : Race :=
  match rc_result r with
  | Some _ => r
  | None => mkRace (rc_dialer r) (rc_tasks r) (rc_queue r ++ [m]) None (rc_sent r ++ [m])
  end.

Definition with_task (i : nat) (t : TaskState) (r : Race) : Race :=
  mkRace (rc_dialer r) (<[i := t]> (rc_tasks r)) (rc_queue r) (rc_result r) (rc_sent r).

Definition family_of (plan : ConnectPlan) (i : nat) : string :=
  from_option (λ a, route_family_label (family (attempt_route a))) ""%string (attempts plan !! i).

(** What can happen next: a route's task of [dial_route_plan], openwire/connection/fast_fallback.rs:173-260, starts, reports its result or
    goes without one, and the loop takes a message or ends with the channel. *)
Definition race_move (m : RaceMove) (r : Race) : option Race :=
  match m with
  | Move_Start i =>
    if decide (rc_tasks r !! i = Some Task_Waiting)
    then Some (send (Started i (family_of (dl_plan (rc_dialer r)) i)) (with_task i Task_Connecting r)) else None
  | Move_Finish i result =>
    if decide (rc_tasks r !! i = Some Task_Connecting) then Some (send (Finished i result) (with_task i Task_Ended r)) else None
  | Move_Drop i =>
    if decide (rc_tasks r !! i = Some Task_Waiting ∨ rc_tasks r !! i = Some Task_Connecting)
    then Some (with_task i Task_Dropped r) else None
  | Move_Dialer =>
    match rc_result r with
    | Some _ => None
    | None =>
      match rc_queue r with
      | msg :: q =>
        let '(d, out) := receive (length (rc_tasks r)) (rc_dialer r) msg in
        Some (match out with
              | Some res => mkRace d (abort_after res (rc_tasks r)) q (Some res) (rc_sent r)
              | None => mkRace d (rc_tasks r) q None (rc_sent r)
              end)
      | [] =>
        if forallb gone (rc_tasks r)
        then let res := exhausted (rc_dialer r) in Some (mkRace (rc_dialer r) (abort_after res (rc_tasks r)) [] (Some res) (rc_sent r))
        else None
      end
    end
  end.

Inductive race_reachable (start : Race) : Race → Prop :=
| Race_begin : race_reachable start start
| Race_step r m r' : race_reachable start r → race_move m r = Some r' → race_reachable start r'.

(** ** The dialer's view *)

(** The routes that have reported, in order. *)
Definition finishes (ms : list FastFallbackMessage) : list nat :=
  omap (λ m, match m with Finished i _ => Some i | Started _ _ => None end) ms.
Definition losts (es : list RaceEvent) : list nat := omap (λ e, match e with Race_Lost i _ => Some i | _ => None end) es.
Definition wons (es : list RaceEvent) : list nat := omap (λ e, match e with Race_Won i => Some i | _ => None end) es.
Definition errors (ms : list FastFallbackMessage) : list WireError :=
  omap (λ m, match m with Finished _ (inl e) => Some e | _ => None end) ms.

Definition state_at (plan : ConnectPlan) (i : nat) : option ConnectAttemptState := attempt_state <$> attempts plan !! i.
Definition is_failed (st : ConnectAttemptState) : bool := match st with Attempt_Failed _ => true | _ => false end.

(** After the messages [ms], none of which ended the race: the plan's failed attempts, the reported
    losses and the last error are those of the messages. *)
Record dialer_ok (n : nat) (ms : list FastFallbackMessage) (d : Dialer) : Prop := mkDialerOk {
  do_length : length (attempts (dl_plan d)) = n;
  do_states : ∀ i st, state_at (dl_plan d) i = Some st →
    (i ∈ finishes ms ∧ is_failed st = true) ∨ (i ∉ finishes ms ∧ is_open st = true);
  do_losts : losts (dl_events d) = finishes ms;
  do_wons : wons (dl_events d) = [];
  do_errors : length (errors ms) = length (finishes ms);
  do_retryable : Forall (λ e, is_retryable_establishment e = true) (errors ms);
  do_last : dl_last_error d = last (errors ms);
}.

Lemma state_transition plan i st j :
  state_at (transition plan i st).2 j =
  if decide (j = i) then (λ _, st) <$> attempts plan !! i else state_at plan j.
Proof.
  unfold transition, state_at. destruct (attempts plan !! i) as [a|] eqn:E; cbn.
  - destruct (decide (j = i)) as [->|Hne].
    + rewrite list_lookup_insert_eq by (by eapply lookup_lt_Some). done.
    + by rewrite list_lookup_insert_ne by congruence.
  - destruct (decide (j = i)) as [->|Hne]; [by rewrite E|done].
Qed.

Lemma transition_length plan i st : length (attempts (transition plan i st).2) = length (attempts plan).
Proof. unfold transition. destruct (attempts plan !! i); cbn; [by rewrite length_insert|done]. Qed.

Lemma finishes_snoc ms m : finishes (ms ++ [m]) = finishes ms ++ match m with Finished i _ => [i] | Started _ _ => [] end.
Proof. unfold finishes. rewrite omap_app. f_equal. by destruct m. Qed.
Lemma errors_snoc ms m : errors (ms ++ [m]) = errors ms ++ match m with Finished _ (inl e) => [e] | _ => [] end.
Proof. unfold errors. rewrite omap_app. f_equal. by destruct m as [|i [e|c]]. Qed.
Lemma losts_snoc es e : losts (es ++ [e]) = losts es ++ match e with Race_Lost i _ => [i] | _ => [] end.
Proof. unfold losts. rewrite omap_app. f_equal. by destruct e. Qed.
Lemma wons_snoc es e : wons (es ++ [e]) = wons es ++ match e with Race_Won i => [i] | _ => [] end.
Proof. unfold wons. rewrite omap_app. f_equal. by destruct e. Qed.

Lemma receive_started n ms d i fam :
  dialer_ok n ms d → i ∉ finishes ms → dialer_ok n (ms ++ [Started i fam]) (receive n d (Started i fam)).1.
Proof.
  intros [Hlen Hst Hl Hw He Hr Hla] Hi.
  constructor; cbn [receive fst dl_plan dl_events dl_last_error]; rewrite ?finishes_snoc, ?errors_snoc, ?losts_snoc, ?wons_snoc, ?app_nil_r; try done.
  - unfold mark_running. by rewrite transition_length.
  - intros j st. unfold mark_running. rewrite state_transition. destruct (decide (j = i)) as [->|Hne]; [|by apply Hst].
    destruct (attempts (dl_plan d) !! i); cbn; [|done]. intros [= <-]. by right.
Qed.

Lemma receive_failed n ms d i e :
  dialer_ok n ms d → is_retryable_establishment e = true →
  (receive n d (Finished i (inl e))).2 = None ∧
  dialer_ok n (ms ++ [Finished i (inl e)]) (receive n d (Finished i (inl e))).1.
Proof.
  intros [Hlen Hst Hl Hw He Hr Hla] Hret. unfold receive. rewrite Hret. split; [done|].
  constructor; cbn [fst dl_plan dl_events dl_last_error]; rewrite ?finishes_snoc, ?errors_snoc, ?losts_snoc, ?wons_snoc, ?app_nil_r.
  - unfold mark_failed. by rewrite transition_length.
  - intros j st. unfold mark_failed. rewrite state_transition. destruct (decide (j = i)) as [->|Hne].
    + destruct (attempts (dl_plan d) !! i); cbn; [|done]. intros [= <-]. left. split; [|done]. apply elem_of_app. right. left.
    + intros [[? ?]|[Hn ?]]%Hst; [left|right]; (split; [|done]).
      * apply elem_of_app. by left.
      * intros [?|?%list_elem_of_singleton]%elem_of_app; done.
  - by rewrite Hl.
  - done.
  - rewrite !length_app. cbn. lia.
  - apply Forall_app. split; [done|]. by repeat constructor.
  - by rewrite last_snoc.
Qed.

(** *** The winner *)

(** After a promotion every attempt is the winner, lost to it or failed. *)
Definition decided (winner : nat) (plan : ConnectPlan) : Prop :=
  ∀ i st, i ≠ winner → state_at plan i = Some st → st = Attempt_Lost winner ∨ is_failed st = true.

Definition canceled (n winner : nat) (plan : ConnectPlan) (l : list nat) : list nat :=
  filter (λ i, i ≠ winner ∧ state_at plan i = Some (Attempt_Lost winner)) l.

Lemma cleanup_fold n winner plan cs es l :
  decided winner plan → NoDup l → (∀ i, i ∈ l → cs !! i = Some false) →
  ∃ cs', foldl (emit_canceled_loss_if_needed winner) (plan, cs, es) l =
    (plan, cs', es ++ ((λ i, Race_Lost i "canceled"%string) <$> canceled n winner plan l)).
Proof.
  intros Hd Hnd. revert cs es. induction Hnd as [|i l Hi Hnd IH]; intros cs es Hcs; cbn [foldl].
  { exists cs. by rewrite app_nil_r. }
  assert (Hrest : ∀ j, j ∈ l → cs !! j = Some false) by (intros j Hj; apply Hcs; by right).
  unfold emit_canceled_loss_if_needed at 2. fold (state_at plan i). rewrite (Hcs i) by left. cbn [default].
  rewrite orb_false_r. unfold canceled. rewrite filter_cons.
  destruct (Nat.eqb_spec i winner) as [->|Hne].
  { rewrite decide_False by (by intros [? _]). by apply IH. }
  destruct (state_at plan i) as [st|] eqn:E.
  - destruct (Hd i st Hne E) as [->|Hf].
    + rewrite Nat.eqb_refl, decide_True by done. cbn [fmap list_fmap].
      destruct (IH (<[i:=true]> cs) (es ++ [Race_Lost i "canceled"])) as [cs' ->].
      { intros j Hj. rewrite list_lookup_insert_ne by (by intros ->). by apply Hrest. }
      exists cs'. by rewrite <- app_assoc.
    + destruct st; try done. rewrite decide_False by (by intros [_ ?]). by apply IH.
  - rewrite decide_False by (by intros [_ ?]). by apply IH.
Qed.

Lemma promoted_state plan w i st :
  (w < length (attempts plan))%nat → state_at plan i = Some st →
  state_at (promote_winner plan w).2 i =
  Some (if decide (i = w) then Attempt_Won else if is_open st then Attempt_Lost w else st).
Proof.
  intros Hw. unfold state_at. destruct (attempts plan !! i) as [a|] eqn:E; [|done]. cbn. intros [= <-].
  pose proof (promote_winner_spec plan w) as Hs. destruct (promote_winner plan w) as [ok plan']. cbn.
  destruct Hs as (Hok & _ & _ & _ & Hi). destruct (Hi i a E) as (a' & -> & _ & _ & Hst); [by apply Hok|]. cbn. by rewrite Hst.
Qed.

Lemma promoted_length plan w : length (attempts (promote_winner plan w).2) = length (attempts plan).
Proof.
  pose proof (promote_winner_spec plan w) as Hs. destruct (promote_winner plan w) as [ok plan']. cbn. apply Hs.
Qed.

Lemma state_at_lt plan i : (i < length (attempts plan))%nat ↔ is_Some (state_at plan i).
Proof. unfold state_at. rewrite fmap_is_Some. symmetry. apply lookup_lt_is_Some. Qed.

Lemma losts_app es es' : losts (es ++ es') = losts es ++ losts es'.
Proof. apply omap_app. Qed.
Lemma wons_app es es' : wons (es ++ es') = wons es ++ wons es'.
Proof. apply omap_app. Qed.
Lemma losts_canceled l : losts ((λ i, Race_Lost i "canceled"%string) <$> l) = l.
Proof. unfold losts. induction l as [|i l IH]; [done|]. cbn. by f_equal. Qed.
Lemma wons_canceled l : wons ((λ i, Race_Lost i "canceled"%string) <$> l) = [].
Proof. unfold wons. induction l as [|i l IH]; [done|]. exact IH. Qed.

(** The winner and the reported losers are all the routes, each once. *)
Lemma receive_won n ms d w c :
  dialer_ok n ms d → (w < n)%nat → w ∉ finishes ms → NoDup (finishes ms) → (∀ i, i ∈ finishes ms → (i < n)%nat) →
  let out := receive n d (Finished w (inr c)) in
  out.2 = Some (inr (c, mkRaceOutcome n w (1 <? n)%nat)) ∧ wons (dl_events out.1) = [w] ∧
  w :: losts (dl_events out.1) ≡ₚ seq 0 n.
Proof.
  intros [Hlen Hst Hl Hwn He Hr Hla] Hlt Hw Hnd Hb. cbn [receive].
  set (plan := (promote_winner (dl_plan d) w).2).
  assert (Hps : ∀ i, (i < n)%nat → ∃ st, state_at (dl_plan d) i = Some st).
  { intros i Hi. apply state_at_lt. lia. }
  assert (Hplan : ∀ i st, state_at (dl_plan d) i = Some st →
    state_at plan i = Some (if decide (i = w) then Attempt_Won else if is_open st then Attempt_Lost w else st)).
  { intros i st. apply promoted_state. lia. }
  assert (Hdec : decided w plan).
  { intros i st Hne Hs. destruct (Hps i) as [st0 Hs0].
    { rewrite <- Hlen, <- (promoted_length _ w). apply state_at_lt. by eexists. }
    rewrite (Hplan i st0 Hs0), decide_False in Hs by done. injection Hs as <-.
    destruct (Hst i st0 Hs0) as [[_ Hf]|[_ Ho]]; [right|left; by rewrite Ho]. by destruct st0. }
  unfold cleanup_losers.
  destruct (cleanup_fold n w plan (replicate n false) (dl_events d ++ [Race_Won w]) (seq 0 n)) as [cs' ->].
  { done. } { apply NoDup_seq. } { intros i [_ Hi]%elem_of_seq. by apply lookup_replicate_2. }
  cbn [fst snd dl_events]. split; [done|].
  rewrite !wons_app, !losts_app, losts_canceled, wons_canceled, Hl, Hwn. split; [done|]. cbn [app losts wons omap list_omap].
  set (cl := canceled n w plan (seq 0 n)).
  assert (Hcl : ∀ i, i ∈ cl ↔ (i < n)%nat ∧ i ≠ w ∧ i ∉ finishes ms).
  { intros i. unfold cl, canceled. rewrite list_elem_of_filter, elem_of_seq. split.
    - intros [[Hne Hs] [_ Hi]]. split_and!; [done|done|]. destruct (Hps i Hi) as [st0 Hs0].
      rewrite (Hplan i st0 Hs0), decide_False in Hs by done. destruct (Hst i st0 Hs0) as [[_ Hf]|[? _]]; [|done].
      by destruct st0.
    - intros (Hi & Hne & Hnf). split_and!; [done| |lia|lia]. destruct (Hps i Hi) as [st0 Hs0].
      rewrite (Hplan i st0 Hs0), decide_False by done. destruct (Hst i st0 Hs0) as [[? _]|[_ ->]]; done. }
  apply NoDup_Permutation.
  - apply NoDup_cons. split.
    + rewrite app_nil_r. intros [?|(_ & ? & _)%Hcl]%elem_of_app; done.
    + rewrite app_nil_r. apply NoDup_app. split_and!; [done|by intros i Hi (_ & _ & ?)%Hcl|]. apply NoDup_filter, NoDup_seq.
  - apply NoDup_seq.
  - intros i. rewrite app_nil_r, elem_of_cons, elem_of_app, Hcl, elem_of_seq. split.
    + intros [->|[Hi%Hb|[? _]]]; lia.
    + intros [_ Hi]. destruct (decide (i = w)); [by left|right]. destruct (decide (i ∈ finishes ms)); [by left|right]. done.
Qed.

(** *** The whole race *)

Definition over (t : TaskState) : Prop := t = Task_Ended ∨ t = Task_Aborted ∨ t = Task_Dropped.
(** The routes whose tasks went without a report. *)
Definition dropped (r : Race) : list nat := filter (λ i, rc_tasks r !! i = Some Task_Dropped) (seq 0 (length (rc_tasks r))).

(** While the race is on. *)
Record running (n : nat) (r : Race) (taken : list FastFallbackMessage) : Prop := mkRunning {
  ru_tasks : length (rc_tasks r) = n;
  ru_sent : rc_sent r = taken ++ rc_queue r;
  ru_dialer : dialer_ok n taken (rc_dialer r);
  ru_once : NoDup (finishes (rc_sent r));
  ru_ended : ∀ i, i ∈ finishes (rc_sent r) ↔ rc_tasks r !! i = Some Task_Ended;
  ru_order : ∀ pre i fam post, rc_sent r = pre ++ Started i fam :: post → i ∉ finishes pre;
  ru_alive : Task_Aborted ∉ rc_tasks r;
}.

(** When it is over. *)
Definition won (n : nat) (c : C) (o : FastFallbackOutcome) (r : Race) : Prop :=
  let w := winner_index o in
  route_count o = n ∧ Finished w (inr c) ∈ rc_sent r ∧
  wons (dl_events (rc_dialer r)) = [w] ∧ w :: losts (dl_events (rc_dialer r)) ≡ₚ seq 0 n.
Definition lost (n : nat) (e : WireError) (r : Race) : Prop :=
  wons (dl_events (rc_dialer r)) = [] ∧
  ((is_retryable_establishment e = false ∧ ∃ i, Finished i (inl e) ∈ rc_sent r) ∨
   (losts (dl_events (rc_dialer r)) ++ dropped r ≡ₚ seq 0 n ∧
    length (errors (rc_sent r)) = length (losts (dl_events (rc_dialer r))) ∧
    Forall (λ e, is_retryable_establishment e = true) (errors (rc_sent r)) ∧
    e = default (route_exhausted "no fast-fallback route could be connected") (last (errors (rc_sent r))))).

Definition race_ok (n : nat) (r : Race) : Prop :=
  match rc_result r with
  | None => ∃ taken, running n r taken
  | Some res => Forall over (rc_tasks r) ∧ match res with inr (c, o) => won n c o r | inl e => lost n e r end
  end.

Lemma finishes_app a b : finishes (a ++ b) = finishes a ++ finishes b.
Proof. apply omap_app. Qed.
Lemma errors_app a b : errors (a ++ b) = errors a ++ errors b.
Proof. apply omap_app. Qed.

Lemma abort_over ts : Forall over (abort_all ts).
Proof. unfold abort_all. apply Forall_fmap, Forall_true. intros []; cbn; unfold over; tauto. Qed.

Lemma abort_others_over w ts : ts !! w = Some Task_Ended → Forall over (abort_others w ts).
Proof.
  intros Hw. apply Forall_lookup_2. intros i t. unfold abort_others. rewrite list_lookup_imap.
  destruct (ts !! i) as [t0|] eqn:E; [|done]. cbn. intros [= <-]. destruct (Nat.eqb_spec i w) as [->|_].
  - left. congruence.
  - destruct t0; cbn; unfold over; tauto.
Qed.

Lemma not_aborted_insert (ts : list TaskState) i t : Task_Aborted ∉ ts → t ≠ Task_Aborted → Task_Aborted ∉ <[i := t]> ts.
Proof.
  intros Hal Ht [j Hj]%list_elem_of_lookup_1. apply list_lookup_insert_Some in Hj as [(_ & ? & _)|[_ Hj]]; [congruence|].
  apply Hal. by eapply list_elem_of_lookup_2.
Qed.

(** A task sends its next message. *)
Lemma running_send n r taken m i t t' :
  running n r taken → rc_result r = None → rc_tasks r !! i = Some t → t ≠ Task_Ended → t' ≠ Task_Aborted →
  (match m with Started j _ => j = i ∧ t' ≠ Task_Ended | Finished j _ => j = i ∧ t' = Task_Ended end) →
  running n (send m (with_task i t' r)) taken.
Proof.
  intros [Hlen Hsent Hd Hnd Hend Hord Hal] Hres Hi Ht Ht' Hm. unfold send. cbn [with_task rc_result]. rewrite Hres.
  assert (Hni : i ∉ finishes (rc_sent r)) by (rewrite Hend, Hi; congruence).
  assert (Hfin : finishes (rc_sent r ++ [m]) = finishes (rc_sent r) ++ match m with Finished j _ => [j] | Started _ _ => [] end)
    by apply finishes_snoc.
  constructor; cbn [rc_tasks rc_sent rc_queue rc_dialer with_task].
  - by rewrite length_insert.
  - by rewrite Hsent, app_assoc.
  - done.
  - rewrite Hfin. destruct m as [j fam|j res]; [by rewrite app_nil_r|]. destruct Hm as [-> _].
    apply NoDup_app. split_and!; [done|by intros j Hj ->%list_elem_of_singleton|apply NoDup_singleton].
  - intros j. rewrite Hfin, elem_of_app, Hend. pose proof (lookup_lt_Some _ _ _ Hi) as Hlt.
    destruct (decide (j = i)) as [->|Hne].
    + rewrite list_lookup_insert_eq by done. rewrite Hi. destruct m as [j fam|j res]; destruct Hm as [-> Hm'].
      * split; [by intros [[= ?]|?%elem_of_nil]|]. intros [= ?]. done.
      * split; [by rewrite Hm'|]. intros _. right. apply list_elem_of_singleton. done.
    + rewrite list_lookup_insert_ne by done. split; [|by left]. intros [?|Hj]; [done|]. exfalso.
      destruct m as [k fam|k res]; [by apply elem_of_nil in Hj|]. apply list_elem_of_singleton in Hj. destruct Hm. congruence.
  - intros pre k fam post Heq. destruct post as [|x post _] using rev_ind.
    + apply app_inj_tail in Heq as [<- ->]. by destruct Hm as [-> _].
    + rewrite app_comm_cons, app_assoc in Heq. apply app_inj_tail in Heq as [Heq _]. by eapply Hord.
  - by apply not_aborted_insert.
Qed.

Lemma running_bound n r taken i : running n r taken → i ∈ finishes (rc_sent r) → (i < n)%nat.
Proof. intros Hr Hi%(ru_ended _ _ _ Hr). apply lookup_lt_Some in Hi. by rewrite (ru_tasks _ _ _ Hr) in Hi. Qed.

(** The dialer takes a message. *)
Lemma running_receive n r taken msg q :
  running n r taken → rc_queue r = msg :: q →
  let '(d, out) := receive n (rc_dialer r) msg in
  match out with
  | None => running n (mkRace d (rc_tasks r) q None (rc_sent r)) (taken ++ [msg])
  | Some (inl e) => lost n e (mkRace d (abort_all (rc_tasks r)) q (Some (inl e)) (rc_sent r))
  | Some (inr (c, o)) =>
    won n c o (mkRace d (abort_others (winner_index o) (rc_tasks r)) q (Some (inr (c, o))) (rc_sent r)) ∧
    rc_tasks r !! winner_index o = Some Task_Ended
  end.
Proof.
  intros Hrun Hq. pose proof Hrun as [Hlen Hsent Hd Hnd Hend Hord Hal]. rewrite Hq in Hsent.
  assert (Hsent' : rc_sent r = (taken ++ [msg]) ++ q) by by rewrite <- app_assoc.
  assert (Hgo : ∀ d, dialer_ok n (taken ++ [msg]) d → running n (mkRace d (rc_tasks r) q None (rc_sent r)) (taken ++ [msg]))
    by (intros d Hd'; by constructor).
  destruct msg as [i fam|i [e|c]].
  - apply Hgo, receive_started; [done|]. by eapply Hord.
  - destruct (is_retryable_establishment e) eqn:Hret.
    + destruct (receive_failed n taken (rc_dialer r) i e Hd Hret) as [Hout Hok].
      destruct (receive _ _ _) as [d out]. cbn in Hout. subst out. by apply Hgo.
    + cbn [receive]. rewrite Hret. split; [cbn; rewrite wons_snoc, app_nil_r; apply Hd|]. left. split; [done|].
      exists i. cbn. rewrite Hsent. apply elem_of_app. right. left.
  - assert (Hi : i ∈ finishes (rc_sent r)) by (rewrite Hsent, finishes_app; apply elem_of_app; right; left).
    pose proof Hnd as Hnd'. rewrite Hsent', !finishes_app in Hnd'.
    apply NoDup_app in Hnd' as (Hnd1 & _ & _). apply NoDup_app in Hnd1 as (Hnd1 & Hdis & _).
    destruct (receive_won n taken (rc_dialer r) i c Hd) as (Hout & Hw & Hperm).
    { by eapply running_bound. } { intros Hin. eapply Hdis; [exact Hin|left]. } { done. }
    { intros j Hj. eapply running_bound; [done|]. rewrite Hsent, finishes_app. apply elem_of_app. by left. }
    destruct (receive _ _ _) as [d out]. cbn in Hout. subst out. cbn [fst winner_index] in *. split; [|by apply Hend].
    split_and!; [done| |done|done]. cbn. rewrite Hsent. apply elem_of_app. right. left.
Qed.

(** A task goes without a report. *)
Lemma running_drop n r taken i t :
  running n r taken → rc_tasks r !! i = Some t → t ≠ Task_Ended → running n (with_task i Task_Dropped r) taken.
Proof.
  intros [Hlen Hsent Hd Hnd Hend Hord Hal] Hi Ht. pose proof (lookup_lt_Some _ _ _ Hi) as Hlt.
  constructor; cbn [rc_tasks rc_sent rc_queue rc_dialer with_task]; try done.
  - by rewrite length_insert.
  - intros j. rewrite Hend. destruct (decide (j = i)) as [->|Hne]; [|by rewrite list_lookup_insert_ne].
    rewrite list_lookup_insert_eq, Hi by done. split; congruence.
  - by apply not_aborted_insert.
Qed.

(** The tasks that had gone stay as they were. *)
Lemma dropped_aborted d ts q res sent r :
  ts = rc_tasks r → dropped (mkRace d (abort_all ts) q res sent) = dropped r.
Proof.
  intros ->. unfold dropped, abort_all. cbn. rewrite length_fmap. apply list_filter_iff. intros i. rewrite list_lookup_fmap.
  destruct (rc_tasks r !! i) as [[]|]; cbn; split; congruence.
Qed.

(** The channel has ended: every route has failed or its task has gone. *)
Lemma running_exhausted n r taken :
  running n r taken → rc_queue r = [] → forallb gone (rc_tasks r) = true →
  ∃ e, exhausted (rc_dialer r) = inl e ∧ lost n e (mkRace (rc_dialer r) (abort_all (rc_tasks r)) [] (Some (inl e)) (rc_sent r)).
Proof.
  intros Hrun Hq Hall. pose proof Hrun as [Hlen Hsent [Hdl Hst Hl Hw He Hr Hla] Hnd Hend Hord Hal].
  rewrite Hq, app_nil_r in Hsent. subst taken. eexists. split; [done|]. split; [exact Hw|]. right.
  rewrite (dropped_aborted _ _ _ _ _ r) by done. cbn [rc_dialer rc_sent]. rewrite Hl, <-He, <-Hla. split_and!; [|done..].
  apply NoDup_Permutation; [|apply NoDup_seq|].
  - apply NoDup_app. split_and!; [done| |apply NoDup_filter, NoDup_seq]. intros i Hi%Hend [Hd _]%list_elem_of_filter. congruence.
  - intros i. rewrite elem_of_app, Hend. unfold dropped. rewrite list_elem_of_filter, !elem_of_seq, Hlen. split.
    + intros [Hi%lookup_lt_Some|[_ Hi]]; lia.
    + intros [_ Hi]. destruct (lookup_lt_is_Some_2 (rc_tasks r) i) as [t Ht]; [lia|]. rewrite Ht.
      rewrite forallb_forall in Hall. assert (Hg : gone t = true) by (eapply Hall, list_elem_of_In; by eapply list_elem_of_lookup_2).
      destruct t; [done..|by left|done|]. right. split; [done|lia].
Qed.

Lemma race_ok_move n m r r' : race_ok n r → race_move m r = Some r' → race_ok n r'.
Proof.
  intros Hok Hm. unfold race_ok in Hok. destruct (rc_result r) as [res|] eqn:Hres.
  - destruct Hok as [Hover _]. unfold race_move in Hm. rewrite Hres in Hm. rewrite Forall_lookup in Hover.
    destruct m as [i|i x|i|]; [| | |done]; (destruct (decide _) as [Hi|_]; [|done]); [| |destruct Hi as [Hi|Hi]];
      destruct (Hover _ _ Hi) as [|[|]]; done.
  - destruct Hok as [taken Hrun]. pose proof (ru_tasks _ _ _ Hrun) as Hlen. unfold race_move in Hm. rewrite Hres in Hm.
    destruct m as [i|i x|i|].
    + destruct (decide _) as [Hi|_]; [|done]. injection Hm as <-. unfold race_ok, send. cbn [with_task rc_result]. rewrite Hres.
      exists taken. pose proof (running_send n r taken (Started i (family_of (dl_plan (rc_dialer r)) i)) i _ Task_Connecting Hrun Hres Hi) as Hs.
      unfold send in Hs. cbn [with_task rc_result] in Hs. rewrite Hres in Hs. by apply Hs.
    + destruct (decide _) as [Hi|_]; [|done]. injection Hm as <-. unfold race_ok, send. cbn [with_task rc_result]. rewrite Hres.
      exists taken. pose proof (running_send n r taken (Finished i x) i _ Task_Ended Hrun Hres Hi) as Hs.
      unfold send in Hs. cbn [with_task rc_result] in Hs. rewrite Hres in Hs. by apply Hs.
    + destruct (decide _) as [Hi|_]; [|done]. injection Hm as <-. unfold race_ok. cbn [with_task rc_result]. rewrite Hres.
      exists taken. destruct Hi as [Hi|Hi]; by eapply running_drop.
    + destruct (rc_queue r) as [|msg q] eqn:Hq.
      * destruct (forallb _ _) eqn:Hall; [|done]. injection Hm as <-.
        destruct (running_exhausted n r taken Hrun Hq Hall) as (e & -> & Hlost).
        split; [apply abort_over|exact Hlost].
      * rewrite Hlen in Hm. pose proof (running_receive n r taken msg q Hrun Hq) as Hrc.
        destruct (receive n (rc_dialer r) msg) as [d [[e|[c o]]|]]; injection Hm as <-; cbn.
        -- split; [apply abort_over|exact Hrc].
        -- destruct Hrc as [Hwon Hw]. split; [by apply abort_others_over|exact Hwon].
        -- by eexists.
Qed.

Lemma spawn_all_tasks spawn i n ts ts' : spawn_all spawn i n ts = inr ts' → ts' = ts ++ replicate n Task_Waiting.
Proof.
  revert i ts. induction n as [|n IH]; intros i ts; cbn [spawn_all replicate].
  - intros [= <-]. by rewrite app_nil_r.
  - destruct (spawn i); [done|]. intros ->%IH. by rewrite <- app_assoc.
Qed.

Lemma dial_route_plan_ok spawn rp r :
  dial_route_plan spawn rp = Ok r → (0 < length (routes rp))%nat ∧ race_ok (length (routes rp)) r ∧ rc_result r = None.
Proof.
  unfold dial_route_plan. case_bool_decide as Hne; [done|]. intros (plan & Hplan & Hr)%obind_Ok.
  assert (Hn : (0 < length (routes rp))%nat) by (destruct (routes rp); cbn; [done|lia]). split; [done|].
  destruct (spawn_all _ _ _ _) as [[e ?]|ts] eqn:Hs; [done|]. injection Hr as <-. apply spawn_all_tasks in Hs as ->. split; [|done].
  unfold from_route_plan in Hplan. destruct (forallb _ _); [|done]. injection Hplan as <-.
  exists []. constructor; cbn [rc_tasks rc_sent rc_queue rc_dialer app].
  - apply length_replicate.
  - done.
  - constructor; cbn; try done.
    + apply length_imap.
    + intros i st. unfold state_at. cbn. rewrite list_lookup_imap. destruct (routes rp !! i); cbn; [|done].
      intros [= <-]. right. split; [apply not_elem_of_nil|done].
  - constructor.
  - intros i. split; [by intros ?%elem_of_nil|]. by intros [? _]%lookup_replicate.
  - intros pre i fam post Heq. by destruct pre.
  - by intros [? _]%elem_of_replicate.
Qed.

Lemma race_reachable_ok n start r : race_ok n start → race_reachable start r → race_ok n r.
Proof. intros Hs. induction 1 as [|r m r' _ IH Hm]; [done|]. by eapply race_ok_move. Qed.

(** C16.  What dialing a plan returns and reports, however the routes' tasks interleave: a connection is
    the one some route reported, that route is reported as the winner and every other route as having lost,
    each exactly once; an error is either one that made trying further routes pointless, or the last
    one after every route has failed and been reported once, save those whose tasks went without a report - a panic, or the
    executor dropped them - which are not reported, and if no task reported it is the error of exhausted routes.
    Either way no task is left running. *)
Theorem race_outcome spawn rp start r res :
  dial_route_plan spawn rp = Ok start → race_reachable start r → rc_result r = Some res →
  Forall over (rc_tasks r) ∧
  match res with
  | inr (c, o) => won (length (routes rp)) c o r
  | inl e => lost (length (routes rp)) e r
  end.
Proof.
  intros (Hn & Hok & _)%dial_route_plan_ok Hr Hres. pose proof (race_reachable_ok _ _ _ Hok Hr) as Hf.
  unfold race_ok in Hf. by rewrite Hres in Hf.
Qed.

(** ** Dialing ends *)

Definition task_weight (t : TaskState) : nat := match t with Task_Waiting => 4 | Task_Connecting => 2 | _ => 0 end.
(** How many steps a race can still make. *)
Definition race_measure (r : Race) : nat :=
  match rc_result r with Some _ => 0 | None => sum_list_with task_weight (rc_tasks r) + length (rc_queue r) + 1 end.

Lemma weight_insert ts i t t' :
  ts !! i = Some t →
  (sum_list_with task_weight (<[i := t']> ts) + task_weight t = sum_list_with task_weight ts + task_weight t')%nat.
Proof.
  intros Hi. rewrite (insert_take_drop ts i t') by by eapply lookup_lt_Some.
  rewrite <- (take_drop_middle ts i t Hi) at 3. rewrite !sum_list_with_app. cbn. lia.
Qed.

(** Something can happen. *)
Lemma running_can_move n r taken : running n r taken → rc_result r = None → ∃ m r', race_move m r = Some r'.
Proof.
  intros Hrun Hres. destruct (rc_queue r) as [|msg q] eqn:Hq.
  - destruct (forallb gone (rc_tasks r)) eqn:Hall.
    { exists Move_Dialer. unfold race_move. rewrite Hres, Hq, Hall. eauto. }
    assert (∃ i t, rc_tasks r !! i = Some t ∧ gone t = false) as (i & t & Hi & Ht).
    { destruct (decide (Forall (λ t, gone t = true) (rc_tasks r))) as [Hf|Hf].
      - exfalso. rewrite (proj2 (forallb_forall _ _)) in Hall; [done|]. intros t Ht%list_elem_of_In.
        rewrite Forall_forall in Hf. by apply Hf.
      - apply not_Forall_Exists, Exists_exists in Hf as (t & Ht & Hne); [|apply _].
        apply list_elem_of_lookup_1 in Ht as [i Hi]. exists i, t. split; [done|]. by apply not_true_is_false. }
    destruct t; try done.
    + exists (Move_Start i). unfold race_move. rewrite decide_True by done. eauto.
    + exists (Move_Finish i (inl (route_exhausted ""))). unfold race_move. rewrite decide_True by done. eauto.
    + destruct (ru_alive _ _ _ Hrun). by eapply list_elem_of_lookup_2.
  - exists Move_Dialer. unfold race_move. rewrite Hres, Hq. destruct (receive _ _ _) as [d out]. eauto.
Qed.

Lemma race_move_measure r : rc_result r = None → ∀ m r', race_move m r = Some r' → (race_measure r' < race_measure r)%nat.
Proof.
  intros Hres m r'. unfold race_move, race_measure. rewrite Hres. destruct m as [i|i x|i|].
  - destruct (decide _) as [Hi|_]; [|done]. intros [= <-]. unfold send. cbn [with_task rc_result]. rewrite Hres. cbn.
    rewrite length_app. cbn. pose proof (weight_insert _ _ _ Task_Connecting Hi) as Hw. cbn in Hw. lia.
  - destruct (decide _) as [Hi|_]; [|done]. intros [= <-]. unfold send. cbn [with_task rc_result]. rewrite Hres. cbn.
    rewrite length_app. cbn. pose proof (weight_insert _ _ _ Task_Ended Hi) as Hw. cbn in Hw. lia.
  - destruct (decide _) as [Hi|_]; [|done]. intros [= <-]. cbn [with_task rc_result rc_tasks rc_queue]. rewrite Hres.
    destruct Hi as [Hi|Hi]; pose proof (weight_insert _ _ _ Task_Dropped Hi) as Hw; cbn in Hw; lia.
  - destruct (rc_queue r) as [|msg q].
    + destruct (forallb _ _); [|done]. intros [= <-]. cbn. lia.
    + destruct (receive _ _ _) as [d [res|]]; intros [= <-]; cbn; lia.
Qed.

Lemma start_measure spawn rp start : dial_route_plan spawn rp = Ok start → race_measure start = (4 * length (routes rp) + 1)%nat.
Proof.
  unfold dial_route_plan. case_bool_decide; [done|]. intros (plan & _ & Hr)%obind_Ok.
  destruct (spawn_all _ _ _ _) as [[e ?]|ts] eqn:Hs; [done|]. injection Hr as <-. apply spawn_all_tasks in Hs as ->.
  unfold race_measure. cbn [rc_result rc_tasks rc_queue app length]. generalize (length (routes rp)). intros n.
  induction n as [|n IH]; [done|]. cbn [replicate sum_list_with task_weight]. lia.
Qed.

(** Dialing always returns: as long as it has not, something can happen - a task can go on or the
    dialer has a message, or all tasks have ended - and no sequence of such steps is longer than four for
    each route and one. *)
Theorem race_terminates spawn rp start r :
  dial_route_plan spawn rp = Ok start → race_reachable start r → rc_result r = None →
  (∃ m r', race_move m r = Some r') ∧
  (∀ m r', race_move m r = Some r' → (race_measure r' < race_measure r)%nat) ∧
  (race_measure start = 4 * length (routes rp) + 1)%nat.
Proof.
  intros Hstart Hr Hres. pose proof (dial_route_plan_ok _ _ _ Hstart) as (Hn & Hok & Hres0).
  pose proof (race_reachable_ok _ _ _ Hok Hr) as Hok'. unfold race_ok in Hok'. rewrite Hres in Hok'.
  destruct Hok' as [taken Hrun]. split_and!; [by eapply running_can_move|by apply race_move_measure|].
  by eapply start_measure.
Qed.
End Race.

(** ** Connecting one direct route *)

Section Direct.
Context {C : Type} (debug : Duration → string) (debug_route : RouteKind → string).

(** [with_connect_timeout], openwire/connection/fast_fallback.rs:453-479; [result] is what the future gave, or
    [None] when the timer was first. *)
Definition with_connect_timeout (timeout : option Duration) (result : option (WireError + C)) (stage : string)
    : option (WireError + C) :=
  match timeout with
  | None => result
  | Some t =>
    if t =? 0 then Some (inl (connect_timeout ("connect timed out before " +:+ stage)))
    else match result with
    | Some r => Some r
    | None => Some (inl (connect_timeout ("connect timed out after " +:+ debug t +:+ " during " +:+ stage)))
    end
  end.

(** [finalize_direct_connection], openwire/connection/fast_fallback.rs:421-450: [tls] is the TLS connector, if
    one is configured, and what its handshake over the stream gives. *)
Definition finalize_direct_connection (uri : Uri) (stream : C) (tls_connector : option (option (WireError + C)))
    (timeout : option Duration) : option (WireError + C) :=
  if negb (from_option (λ s, eq_ignore_ascii_case s "https") false (uri_scheme_str uri)) then Some (inr stream)
  else match tls_connector with
  | None => Some (inl (tls "HTTPS requested but no TLS connector is configured" "missing TLS connector"))
  | Some handshake => with_connect_timeout timeout handshake "TLS handshake"
  end.

(** The connect closure of [dial_direct], openwire/connection/fast_fallback.rs:387-401. *)
Definition connect_direct (tcp : SocketAddr → option Duration → WireError + C) (timeout : option Duration) (k : RouteKind)
    : WireError + C :=
  match k with
  | Direct target => tcp target timeout
  | other => inl (internal ("unexpected non-direct route in direct dialer: " +:+ debug_route other) "unexpected non-direct route")
  end.
End Direct.

(** A timeout bounds the stage: with one configured the stage always ends, and an expired timer is an error
    that may be retried on another route. *)
Lemma connect_timeout_ends {C} debug t (result : option (WireError + C)) stage :
  ∃ r, with_connect_timeout debug (Some t) result stage = Some r ∧
    (result = None → ∃ e, r = inl e ∧ is_connect_timeout e = true ∧ is_retryable_establishment e = true).
Proof.
  unfold with_connect_timeout. destruct (t =? 0); [|destruct result as [r|]]; eexists; (split; [done|]); try done;
    intros _; eexists; (split; [done|]); split; reflexivity.
Qed.

(** ** A race of two routes *)

Module RaceDemo.
Definition address : SocketAddr := mkSocketAddr (V4 2130706433) 80.
Definition plan : RoutePlan := mkRoutePlan [direct example_address address; direct example_address address] (from_millis 250).
Definition start : Race (C := Z) :=
  match dial_route_plan (λ _, None) plan with Ok r => r | _ => mkRace (mkDialer (mkConnectPlan [] 0) None []) [] [] None [] end.
Definition go (ms : list (RaceMove (C := Z))) : Race := foldl (λ r m, default r (race_move m r)) start ms.
Definition second_wins : list (RaceMove (C := Z)) :=
  [Move_Start 0; Move_Start 1; Move_Finish 1 (inr 7); Move_Dialer; Move_Dialer; Move_Dialer].
Definition both_fail : list (RaceMove (C := Z)) :=
  [Move_Start 1; Move_Finish 1 (inl (tcp_connect "a" "b")); Move_Start 0; Move_Dialer; Move_Dialer; Move_Dialer;
   Move_Finish 0 (inl (tcp_connect "c" "d")); Move_Dialer; Move_Dialer].

Lemma go_reachable ms : race_reachable start (go ms).
Proof.
  unfold go. induction ms as [|m ms IH] using rev_ind; [constructor|]. rewrite foldl_snoc.
  destruct (race_move m _) as [r|] eqn:E; [by eapply Race_step|done].
Qed.

Example second_wins_events :
  rc_result (go second_wins) = Some (inr (7, mkRaceOutcome 2 1 true)) ∧
  dl_events (rc_dialer (go second_wins)) =
    [Race_Plan 2 true; Race_Start 0 "ipv4"; Race_Start 1 "ipv4"; Race_Won 1; Race_Lost 0 "canceled"].
Proof. vm_compute. done. Qed.

(** One route fails and the task of the other panics: the error is the one that was reported; and with none reported the
    routes are exhausted. *)
Example dropped_not_reported :
  let r := go [Move_Start 0; Move_Start 1; Move_Finish 1 (inl (tcp_connect "a" "b")); Move_Drop 0;
               Move_Dialer; Move_Dialer; Move_Dialer; Move_Dialer] in
  rc_result r = Some (inl (tcp_connect "a" "b")) ∧ losts (dl_events (rc_dialer r)) = [1%nat] ∧ dropped r = [0%nat] ∧
  rc_result (go [Move_Drop 1; Move_Start 0; Move_Drop 0; Move_Dialer; Move_Dialer]) =
    Some (inl (route_exhausted "no fast-fallback route could be connected")).
Proof. vm_compute. done. Qed.

Example both_fail_result : rc_result (go both_fail) = Some (inl (tcp_connect "c" "d")).
Proof. vm_compute. done. Qed.
End RaceDemo.

Lemma race_outcome_witness :
  1%nat :: losts (dl_events (rc_dialer (RaceDemo.go RaceDemo.second_wins))) ≡ₚ seq 0 2.
Proof.
  destruct (race_outcome (λ _, None) RaceDemo.plan RaceDemo.start (RaceDemo.go RaceDemo.second_wins)
              (inr (7, mkRaceOutcome 2 1 true))) as (_ & _ & _ & _ & Hp).
  - vm_compute. reflexivity.
  - apply RaceDemo.go_reachable.
  - vm_compute. reflexivity.
  - exact Hp.
Defined.

Lemma race_terminates_witness : ∃ m r', race_move m RaceDemo.start = Some r'.
Proof.
  destruct (race_terminates (λ _, None) RaceDemo.plan RaceDemo.start RaceDemo.start) as [Hm _].
  - vm_compute. reflexivity.
  - constructor.
  - reflexivity.
  - exact Hm.
Defined.
