(* ===== verification/Socks5.v ===== *)
(** * SOCKS5 tunnels

    The SOCKS5 client of openwire/src/transport/connect.rs: the greeting, the optional password exchange and
    the connect request, byte for byte, and the checks of the proxy's answers.

    The connection to the proxy is a [Wire]: the bytes the proxy will send until it closes, the bytes
    written so far, and for each exchange whether it fails or times out.  A text is its bytes. *)

From stdpp Require Import pretty.
From S2P Require Import Prelude Net Error WsCodec Proxy.

(** How an exchange with the proxy can fail: while writing (after some bytes), flushing or reading, or
    because the time that is left runs out. *)
Inductive Fault : Type :=
| Fault_Write (written : nat) (error : string)
| Fault_Flush (error : string)
| Fault_Read (error : string)
| Fault_Timeout (written : nat) (left : Duration).

Record Wire : Type := mkWire {
  wi_in : bytes;
  wi_out : bytes;
  wi_faults : list (option Fault);
}.

Definition exchange (A : Type) : Type := Wire → outcome WireError A * Wire.
Definition ret {A} (a : A) : exchange A := λ w, (Ok a, w).
Definition throw {A} (e : WireError) : exchange A := λ w, (Err e, w).
Definition bind {A B} (m : exchange A) (k : A → exchange B) : exchange B := λ w,
  match m w with
  | (Ok a, w) => k a w
  | (Err e, w) => (Err e, w)
  | (Panic, w) => (Panic, w)
  end.
Notation "'do!' x ':=' m 'in' k" := (bind m (λ x, k)) (at level 10, x pattern, m at level 100, k at level 200) : rust_scope.

(** The bytes of a text. *)
Definition text_bytes (s : string) : bytes := (λ c, Z.of_nat (Ascii.nat_of_ascii c)) <$> list_ascii_of_string s.

(** [Socks5AuthMethod], openwire/transport/connect.rs:919-923. *)
Inductive Socks5AuthMethod : Type := NoAuth | UsernamePassword.

(** [socks5_reply_reason], openwire/transport/connect.rs:1176-1188. *)
Definition socks5_reply_reason (code : Z) : string :=
  if code =? 1 then "general SOCKS server failure"
  else if code =? 2 then "connection not allowed by ruleset"
  else if code =? 3 then "network unreachable"
  else if code =? 4 then "host unreachable"
  else if code =? 5 then "connection refused"
  else if code =? 6 then "TTL expired"
  else if code =? 7 then "command not supported"
  else if code =? 8 then "address type not supported"
  else "unknown failure".

Section Socks5.
(** The Debug text of a duration, [{:#04x}] of a byte, and whether there is a deadline. *)
Context (debug : Duration → string) (hex : Z → string) (deadline : bool).

(** [socks5_timeout], the error, openwire/transport/connect.rs:1137-1156. *)
Definition socks5_timeout_error (t : Duration) : WireError :=
  with_connect_timeout (with_establishment Stage_ProxyTunnel true
    (with_phase Phase_ProxyTunnel (error_new Kind_Timeout ("SOCKS5 handshake timed out after " +:+ debug t)))).

Definition next_fault (w : Wire) : option Fault * Wire :=
  (match mjoin (head (wi_faults w)) with
   | Some (Fault_Timeout n t) => if deadline then Some (Fault_Timeout n t) else None
   | f => f
   end, mkWire (wi_in w) (wi_out w) (tail (wi_faults w))).

(** [write_all] and [flush] under one timeout. *)
Definition write_all (what : string) (bs : bytes) : exchange unit := λ w,
  let '(fault, w) := next_fault w in
  match fault with
  | Some (Fault_Write n e) => (Err (proxy_tunnel ("failed to write " +:+ what) e), mkWire (wi_in w) (wi_out w ++ take n bs) (wi_faults w))
  | Some (Fault_Flush e) => (Err (proxy_tunnel ("failed to flush " +:+ what) e), mkWire (wi_in w) (wi_out w ++ bs) (wi_faults w))
  | Some (Fault_Timeout n t) => (Err (socks5_timeout_error t), mkWire (wi_in w) (wi_out w ++ take n bs) (wi_faults w))
  | Some (Fault_Read _) | None => (Ok (), mkWire (wi_in w) (wi_out w ++ bs) (wi_faults w))
  end.

(** [read_exact] under a timeout. *)
Definition read_exact (what : string) (n : Z) : exchange bytes := λ w,
  let '(fault, w) := next_fault w in
  match fault with
  | Some (Fault_Read e) => (Err (proxy_tunnel ("failed to read " +:+ what) e), w)
  | Some (Fault_Timeout _ t) => (Err (socks5_timeout_error t), w)
  | _ =>
    if n <=? len (wi_in w)
    then (Ok (take (Z.to_nat n) (wi_in w)), mkWire (drop (Z.to_nat n) (wi_in w)) (wi_out w) (wi_faults w))
    else (Err (proxy_tunnel ("failed to read " +:+ what) "unexpected end of file"), mkWire [] (wi_out w) (wi_faults w))
  end.

(** The bytes of a greeting, openwire/transport/connect.rs:897-905. *)
Definition greeting (allow_username_password : bool) : bytes :=
  let methods := if allow_username_password then [0x00; 0x02] else [0x00] in 0x05 :: as_u8 (len methods) :: methods.
(** [socks5_write_client_greeting], openwire/transport/connect.rs:891-917. *)
Definition socks5_write_client_greeting (allow : bool) : exchange unit := write_all "SOCKS5 greeting" (greeting allow).

(** [socks5_read_server_choice], openwire/transport/connect.rs:925-958. *)
Definition socks5_read_server_choice (offered : bool) : exchange Socks5AuthMethod :=
  do! response := read_exact "SOCKS5 greeting response" 2 in
  let version := nth 0 response 0 in
  let method := nth 1 response 0 in
  if negb (version =? 0x05) then
    throw (proxy_tunnel_non_retryable ("SOCKS5 proxy returned unsupported version " +:+ pretty version))
  else if method =? 0x00 then ret NoAuth
  else if method =? 0x02 then ret UsernamePassword
  else if method =? 0xFF then
    throw (proxy_tunnel_non_retryable
      (if offered then "SOCKS5 proxy did not accept no-auth or username/password authentication"
       else "SOCKS5 proxy does not support no-auth authentication"))
  else throw (proxy_tunnel_non_retryable ("SOCKS5 proxy selected unsupported authentication method " +:+ hex method)).

(** The bytes of a login, openwire/transport/connect.rs:977-984. *)
Definition password_request (username password : bytes) : bytes :=
  0x01 :: as_u8 (len username) :: username ++ as_u8 (len password) :: password.
(** [socks5_write_password_auth_request], openwire/transport/connect.rs:960-995. *)
Definition socks5_write_password_auth_request (c : ProxyCredentials) : exchange unit :=
  let username := text_bytes (cred_username c) in
  let password := text_bytes (cred_password c) in
  if U8_MAX <? len username then throw (invalid_request "SOCKS5 proxy username exceeds 255 bytes")
  else if U8_MAX <? len password then throw (invalid_request "SOCKS5 proxy password exceeds 255 bytes")
  else write_all "SOCKS5 username/password request" (password_request username password).

(** [socks5_read_password_auth_response], openwire/transport/connect.rs:997-1023. *)
Definition socks5_read_password_auth_response : exchange unit :=
  do! response := read_exact "SOCKS5 username/password response" 2 in
  if negb (nth 0 response 0 =? 0x01) then
    throw (proxy_tunnel_non_retryable
      ("SOCKS5 username/password auth returned unsupported version " +:+ pretty (nth 0 response 0)))
  else if negb (nth 1 response 0 =? 0x00) then
    throw (proxy_tunnel_non_retryable "SOCKS5 username/password authentication failed")
  else ret ().

(** The address of a connect request, openwire/transport/connect.rs:1033-1052. *)
Definition socks5_address (host : string) : outcome WireError bytes :=
  match parse_ip host with
  | Some (V4 ip) => Ok (0x01 :: be_bytes 4 ip)
  | Some (V6 ip) => Ok (0x04 :: be_bytes 16 ip)
  | None =>
    let name := text_bytes host in
    if U8_MAX <? len name then Err (invalid_request "SOCKS5 target host exceeds 255 bytes")
    else Ok (0x03 :: as_u8 (len name) :: name)
  end.
(** [socks5_write_connect_request], openwire/transport/connect.rs:1025-1064. *)
Definition socks5_write_connect_request (host : string) (port : Z) : exchange unit :=
  match socks5_address host with
  | Ok address => write_all "SOCKS5 connect request" ([0x05; 0x01; 0x00] ++ address ++ be_bytes 2 port)
  | Err e => throw e
  | Panic => λ w, (Panic, w)
  end.

(** [socks5_read_connect_response], openwire/transport/connect.rs:1066-1135. *)
Definition socks5_read_connect_response : exchange unit :=
  do! head := read_exact "SOCKS5 connect response" 4 in
  if negb (nth 0 head 0 =? 0x05) then
    throw (proxy_tunnel_non_retryable ("SOCKS5 proxy returned unsupported version " +:+ pretty (nth 0 head 0)))
  else if negb (nth 1 head 0 =? 0x00) then
    throw (proxy_tunnel_non_retryable ("SOCKS5 connect failed: " +:+ socks5_reply_reason (nth 1 head 0)))
  else
    let atyp := nth 3 head 0 in
    if atyp =? 0x01 then do! _ := read_exact "SOCKS5 IPv4 bind address" 6 in ret ()
    else if atyp =? 0x03 then
      do! n := read_exact "SOCKS5 bind host length" 1 in
      do! _ := read_exact "SOCKS5 bind host" (nth 0 n 0 + 2) in ret ()
    else if atyp =? 0x04 then do! _ := read_exact "SOCKS5 IPv6 bind address" 18 in ret ()
    else throw (proxy_tunnel_non_retryable ("SOCKS5 proxy returned unknown address type " +:+ pretty atyp)).

(** The port a tunnel is asked for, openwire/transport/connect.rs:631-637. *)
Definition target_port (uri : Uri) : Z :=
  default (if bool_decide (uri_scheme_str uri = Some "https"%string) then 443 else 80) (uri_port_u16 uri).

(** [establish_socks5_tunnel], openwire/transport/connect.rs:619-682. *)
Definition establish_socks5_tunnel (uri : Uri) (credentials : option ProxyCredentials) : exchange unit :=
  match uri_host uri with
  | None => throw (invalid_request "request URI is missing a host")
  | Some host =>
    let offered := is_some credentials in
    do! _ := socks5_write_client_greeting offered in
    do! choice := socks5_read_server_choice offered in
    do! _ := match choice with
             | NoAuth => ret ()
             | UsernamePassword =>
               match credentials with
               | None => throw (proxy_tunnel_non_retryable
                   "SOCKS5 proxy requested username/password authentication but no credentials were configured")
               | Some c =>
                 do! _ := socks5_write_password_auth_request c in socks5_read_password_auth_response
               end
             end in
    do! _ := socks5_write_connect_request host (target_port uri) in
    socks5_read_connect_response
  end.

(** *** The exchanges *)

Lemma bind_ok {A B} (m : exchange A) (k : A → exchange B) w b w' :
  bind m k w = (Ok b, w') → ∃ a w1, m w = (Ok a, w1) ∧ k a w1 = (Ok b, w').
Proof. unfold bind. destruct (m w) as [[a|e|] w1]; intros H; [by eauto|done..]. Qed.

Lemma bind_cong {A B} (m : exchange A) (k1 k2 : A → exchange B) w :
  (∀ a w', m w = (Ok a, w') → k1 a w' = k2 a w') → bind m k1 w = bind m k2 w.
Proof. unfold bind. destruct (m w) as [[a|e|] w1]; intros H; [by apply H|done..]. Qed.

Lemma write_all_ok what bs w w' :
  write_all what bs w = (Ok (), w') → wi_in w' = wi_in w ∧ wi_out w' = wi_out w ++ bs.
Proof. unfold write_all, next_fault. repeat case_match; intros; by simplify_eq/=. Qed.

Lemma read_exact_ok what n w bs w' :
  0 ≤ n → read_exact what n w = (Ok bs, w') →
  wi_in w = bs ++ wi_in w' ∧ len bs = n ∧ wi_out w' = wi_out w.
Proof.
  intros Hn. unfold read_exact, next_fault. repeat case_match; intros; simplify_eq/=; try done;
    (split; [by rewrite take_drop|split; [|done]]; unfold len; rewrite length_take; unfold len in *; bool_lia).
Qed.

(** Every exchange only appends to what was written. *)
Lemma write_all_prefix what bs w :
  ∃ k, wi_out (write_all what bs w).2 = wi_out w ++ take k bs.
Proof.
  unfold write_all, next_fault. repeat case_match; cbn; simplify_eq/=;
    first [by eexists|by exists (length bs); rewrite firstn_all].
Qed.
Lemma read_exact_out what n w : wi_out (read_exact what n w).2 = wi_out w.
Proof. unfold read_exact, next_fault. by repeat case_match; simplify_eq/=. Qed.

(** *** The other end: RFC 1928 and RFC 1929 as a proxy reads and writes them *)

Inductive Address : Type := Addr_V4 (bits : Z) | Addr_V6 (bits : Z) | Addr_Name (name : bytes).

Definition decode_connect (bs : bytes) : option (Address * Z) :=
  match bs with
  | 0x05 :: 0x01 :: 0x00 :: 0x01 :: rest =>
    if len rest =? 6 then Some (Addr_V4 (be_value (take 4 rest)), be_value (drop 4 rest)) else None
  | 0x05 :: 0x01 :: 0x00 :: 0x04 :: rest =>
    if len rest =? 18 then Some (Addr_V6 (be_value (take 16 rest)), be_value (drop 16 rest)) else None
  | 0x05 :: 0x01 :: 0x00 :: 0x03 :: n :: rest =>
    if len rest =? n + 2 then Some (Addr_Name (take (Z.to_nat n) rest), be_value (drop (Z.to_nat n) rest)) else None
  | _ => None
  end.

Definition decode_login (bs : bytes) : option ((bytes * bytes) * bytes) :=
  match bs with
  | 0x01 :: n :: rest =>
    match drop (Z.to_nat n) rest with
    | k :: rest' => Some ((take (Z.to_nat n) rest, take (Z.to_nat k) rest'), drop (Z.to_nat k) rest')
    | [] => None
    end
  | _ => None
  end.

(** All a client sends, as a proxy that answered [method] reads it: the methods offered, the login and
    the address asked for. *)
Definition decode_client (method : Z) (bs : bytes) : option (bytes * option (bytes * bytes) * (Address * Z)) :=
  match bs with
  | 0x05 :: n :: rest =>
    let methods := take (Z.to_nat n) rest in
    let rest := drop (Z.to_nat n) rest in
    if method =? 0x02 then
      '(login, rest) ← decode_login rest; a ← decode_connect rest; Some (methods, Some login, a)
    else a ← decode_connect rest; Some (methods, None, a)
  | _ => None
  end.

Definition bind_address (bs : bytes) : bool :=
  match bs with
  | 0x01 :: rest => len rest =? 6
  | 0x03 :: n :: rest => (0 <=? n) && (len rest =? n + 2)
  | 0x04 :: rest => len rest =? 18
  | _ => false
  end.

(** All a proxy answers when it takes the client on with [method]. *)
Definition accepts (method : Z) (replies : bytes) : Prop :=
  ∃ reserved bound, bind_address bound = true ∧
    replies = [0x05; method] ++ (if method =? 0x02 then [0x01; 0x00] else []) ++ [0x05; 0x00; reserved] ++ bound.

Definition address_of (host : string) : Address :=
  match parse_ip host with
  | Some (V4 ip) => Addr_V4 ip
  | Some (V6 ip) => Addr_V6 ip
  | None => Addr_Name (text_bytes host)
  end.
Definition login_of (c : ProxyCredentials) : bytes * bytes := (text_bytes (cred_username c), text_bytes (cred_password c)).

Lemma decode_connect_address host port a :
  0 ≤ port ≤ U16_MAX → socks5_address host = Ok a →
  decode_connect ([0x05; 0x01; 0x00] ++ a ++ be_bytes 2 port) = Some (address_of host, port).
Proof.
  intros Hp. unfold socks5_address, address_of.
  assert (Hport : be_value (be_bytes 2 port) = port) by (apply be_value_be_bytes; unfold U16_MAX in *; cbn; lia).
  pose proof (length_be_bytes 2 port) as Hpl. revert Hport Hpl. generalize (be_bytes 2 port) as pb. intros pb Hport Hpl.
  destruct (parse_ip host) as [[b|b]|] eqn:E; [apply parse_ip_range in E..|].
  - pose proof (length_be_bytes 4 b) as Hl. pose proof (be_value_be_bytes 4 b ltac:(cbn; lia)) as Hv.
    revert Hl Hv. generalize (be_bytes 4 b) as ab. intros ab Hl Hv [= <-]. cbn [app decode_connect].
    rewrite (proj2 (Z.eqb_eq _ _)) by (unfold len; rewrite length_app; lia).
    by rewrite take_app_length', drop_app_length', Hv, Hport by done.
  - pose proof (length_be_bytes 16 b) as Hl. pose proof (be_value_be_bytes 16 b ltac:(cbn; lia)) as Hv.
    revert Hl Hv. generalize (be_bytes 16 b) as ab. intros ab Hl Hv [= <-]. cbn [app decode_connect].
    rewrite (proj2 (Z.eqb_eq _ _)) by (unfold len; rewrite length_app; lia).
    by rewrite take_app_length', drop_app_length', Hv, Hport by done.
  - destruct (Z.ltb_spec U8_MAX (len (text_bytes host))) as [|Hle]; [done|]. intros [= <-]. cbn [app decode_connect].
    rewrite as_u8_small by (pose proof (len_nonneg (text_bytes host)); lia).
    rewrite (proj2 (Z.eqb_eq _ _)) by (unfold len; rewrite length_app; lia).
    by rewrite take_app_length', drop_app_length', Hport by (unfold len; lia).
Qed.

Lemma decode_login_request u p rest :
  len u ≤ U8_MAX → len p ≤ U8_MAX → decode_login (password_request u p ++ rest) = Some ((u, p), rest).
Proof.
  intros Hu Hp. unfold password_request. rewrite !as_u8_small by (split; [apply len_nonneg|done]). cbn [app decode_login]. rewrite <-app_assoc.
  rewrite take_app_length', drop_app_length' by (unfold len; lia). cbn [app].
  by rewrite take_app_length', drop_app_length' by (unfold len; lia).
Qed.

Lemma decode_client_request method allow login a :
  decode_client method (greeting allow ++ login ++ a)
  = if method =? 0x02 then
      '(l, rest) ← decode_login (login ++ a); x ← decode_connect rest;
      Some (if allow then [0x00; 0x02] else [0x00], Some l, x)
    else x ← decode_connect (login ++ a); Some (if allow then [0x00; 0x02] else [0x00], None, x).
Proof. by destruct allow. Qed.

(** *** What each answer must be *)

Definition method_of (m : Socks5AuthMethod) : Z := match m with NoAuth => 0x00 | UsernamePassword => 0x02 end.

Lemma len_2_inv (bs : bytes) : len bs = 2 → bs = [nth 0 bs 0; nth 1 bs 0].
Proof. unfold len. destruct bs as [|a [|b [|]]]; cbn; intros; (done || lia). Qed.
Lemma len_4_inv (bs : bytes) : len bs = 4 → bs = [nth 0 bs 0; nth 1 bs 0; nth 2 bs 0; nth 3 bs 0].
Proof. unfold len. destruct bs as [|a [|b [|c [|d [|]]]]]; cbn; intros; (done || lia). Qed.

Lemma server_choice_ok offered w m w' :
  socks5_read_server_choice offered w = (Ok m, w') →
  wi_in w = [0x05; method_of m] ++ wi_in w' ∧ wi_out w' = wi_out w.
Proof.
  intros (bs & w1 & Hr & H)%bind_ok. apply read_exact_ok in Hr as (-> & Hl & <-); [|lia].
  apply len_2_inv in Hl as ->. cbn [nth] in H. unfold throw, ret in H.
  repeat case_match; simplify_eq/=; (split; [|done]); repeat f_equal; bool_lia.
Qed.

Lemma password_response_ok w w' :
  socks5_read_password_auth_response w = (Ok (), w') →
  wi_in w = [0x01; 0x00] ++ wi_in w' ∧ wi_out w' = wi_out w.
Proof.
  intros (bs & w1 & Hr & H)%bind_ok. apply read_exact_ok in Hr as (-> & Hl & <-); [|lia].
  apply len_2_inv in Hl as ->. cbn [nth] in H. unfold throw, ret in H.
  repeat case_match; simplify_eq/=; (split; [|done]); repeat f_equal; bool_lia.
Qed.

Lemma connect_response_ok w w' :
  bytes_ok (wi_in w) → socks5_read_connect_response w = (Ok (), w') →
  ∃ reserved bound, bind_address bound = true ∧
    wi_in w = [0x05; 0x00; reserved] ++ bound ++ wi_in w' ∧ wi_out w' = wi_out w.
Proof.
  intros Hb (bs & w1 & Hr & H)%bind_ok. apply read_exact_ok in Hr as (Hin & Hl & <-); [|lia].
  rewrite Hin in *. apply Forall_app in Hb as [_ Hb].
  apply len_4_inv in Hl. rewrite Hl. exists (nth 2 bs 0).
  destruct (Z.eqb_spec (nth 0 bs 0) 5) as [->|]; [|done]. destruct (Z.eqb_spec (nth 1 bs 0) 0) as [->|]; [|done].
  cbn [negb] in H. destruct (Z.eqb_spec (nth 3 bs 0) 1) as [->|]; [|destruct (Z.eqb_spec (nth 3 bs 0) 3) as [->|]];
    [| |destruct (Z.eqb_spec (nth 3 bs 0) 4) as [->|]; [|done]].
  - apply bind_ok in H as (b & w2 & Hr & [= <-]). apply read_exact_ok in Hr as (-> & Hlb & ->); [|lia].
    exists (1 :: b). split; [cbn [bind_address]; lia|done].
  - apply bind_ok in H as (nb & w2 & Hr & H). apply read_exact_ok in Hr as (Hin2 & Hln & Ho2); [|lia].
    rewrite Hin2 in *. apply Forall_app in Hb as [Hn _].
    destruct nb as [|k [|]]; [done| |by unfold len in Hln; cbn in Hln; lia].
    apply Forall_cons in Hn as [Hn _]. unfold is_byte in Hn. cbn [nth] in H.
    apply bind_ok in H as (b & w3 & Hr & [= <-]). apply read_exact_ok in Hr as (-> & Hlb & ->); [|lia].
    exists (3 :: k :: b). split; [cbn [bind_address]; apply andb_true_iff; lia|]. split; [done|congruence].
  - apply bind_ok in H as (b & w2 & Hr & [= <-]). apply read_exact_ok in Hr as (-> & Hlb & ->); [|lia].
    exists (4 :: b). split; [cbn [bind_address]; lia|done].
Qed.

Lemma password_request_ok c w w' :
  socks5_write_password_auth_request c w = (Ok (), w') →
  wi_in w' = wi_in w ∧ wi_out w' = wi_out w ++ password_request (login_of c).1 (login_of c).2 ∧
  len (login_of c).1 ≤ U8_MAX ∧ len (login_of c).2 ≤ U8_MAX.
Proof.
  unfold socks5_write_password_auth_request. destruct (Z.ltb_spec U8_MAX (len (text_bytes (cred_username c)))); [done|].
  destruct (Z.ltb_spec U8_MAX (len (text_bytes (cred_password c)))); [done|]. intros [? ?]%write_all_ok. by split_and!.
Qed.

Lemma connect_request_ok host port w w' :
  socks5_write_connect_request host port w = (Ok (), w') →
  wi_in w' = wi_in w ∧
  ∃ a, socks5_address host = Ok a ∧ wi_out w' = wi_out w ++ ([0x05; 0x01; 0x00] ++ a ++ be_bytes 2 port).
Proof.
  unfold socks5_write_connect_request. destruct (socks5_address host) as [a|e|]; [|done..].
  intros [-> ->]%write_all_ok. eauto.
Qed.

(** *** Tunnels *)

(** C29.  A tunnel that is established was agreed by both ends, byte for byte: the proxy sent exactly one
    complete acceptance, which selected a method that was offered, and every later byte is still to be
    read by whoever uses the tunnel; and what was sent is, as the proxy reads it, the methods offered, the
    configured user name and password if it asked for them, and the host and port of the request. *)
Theorem socks5_tunnel_agreed uri credentials w w' host :
  uri_host uri = Some host → 0 ≤ target_port uri ≤ U16_MAX → bytes_ok (wi_in w) →
  establish_socks5_tunnel uri credentials w = (Ok (), w') →
  ∃ m sent replies,
    wi_in w = replies ++ wi_in w' ∧ accepts (method_of m) replies ∧
    wi_out w' = wi_out w ++ sent ∧
    decode_client (method_of m) sent
    = Some (if is_some credentials then [0x00; 0x02] else [0x00],
            match m with NoAuth => None | UsernamePassword => login_of <$> credentials end,
            (address_of host, target_port uri)).
Proof.
  intros Hh Hp Hb. unfold establish_socks5_tunnel. rewrite Hh.
  intros ([] & w1 & [Hi1 Ho1]%write_all_ok & (m & w2 & [Hi2 Ho2]%server_choice_ok & H)%bind_ok)%bind_ok.
  apply bind_ok in H as ([] & w4 & Hauth & ([] & w5 & (Hi5 & a & Ha & Ho5)%connect_request_ok & Hlast)%bind_ok).
  rewrite Hi1 in Hi2. rewrite Hi2 in *. apply Forall_app in Hb as [_ Hb].
  assert (∃ login ask, wi_in w2 = ask ++ wi_in w4 ∧ wi_out w4 = wi_out w2 ++ login ∧
            ask = (if method_of m =? 0x02 then [0x01; 0x00] else []) ∧
            match m with
            | NoAuth => login = []
            | UsernamePassword => ∃ c, credentials = Some c ∧ login = password_request (login_of c).1 (login_of c).2 ∧
                                  len (login_of c).1 ≤ U8_MAX ∧ len (login_of c).2 ≤ U8_MAX
            end) as (login & ask & Hi4 & Ho4 & -> & Hlogin).
  { destruct m; [injection Hauth as <-; by exists [], []; rewrite app_nil_r|].
    destruct credentials as [c|]; [|done].
    apply bind_ok in Hauth as ([] & w3 & (Hi3 & Ho3 & Hlu & Hlp)%password_request_ok & [Hi4 Ho4]%password_response_ok).
    eexists _, _. split; [by rewrite <-Hi3, Hi4|]. split; [by rewrite Ho4, Ho3|]. split; [done|]. by exists c. }
  rewrite Hi4, <-Hi5 in Hb. apply Forall_app in Hb as [_ Hb].
  apply connect_response_ok in Hlast as (r & bound & Hbound & Hi6 & Ho6); [|done].
  eexists m, (greeting (is_some credentials) ++ login ++ _), _. repeat split.
  - rewrite Hi4, <-Hi5, Hi6, !app_assoc. done.
  - exists r, bound. split; [done|]. by rewrite !app_assoc.
  - by rewrite Ho6, Ho5, Ho4, Ho2, Ho1, <-!app_assoc.
  - rewrite decode_client_request. destruct m; cbn [method_of]; [subst login|destruct Hlogin as (c & -> & -> & Hlu & Hlp)].
    + by rewrite app_nil_l, (decode_connect_address _ _ _ Hp Ha).
    + cbn [Z.eqb Pos.eqb]. rewrite decode_login_request by done. cbn [mbind option_bind].
      by rewrite (decode_connect_address _ _ _ Hp Ha).
Qed.

(** The user name and password reach only a proxy that asked for them: unless its first answer
    selects the password method, the whole exchange (every byte sent, whatever faults occur, and the
    outcome) is the same for any two credentials. *)
Theorem credentials_only_on_request uri c1 c2 w :
  ~ ([0x05; 0x02] `prefix_of` wi_in w) →
  establish_socks5_tunnel uri (Some c1) w = establish_socks5_tunnel uri (Some c2) w.
Proof.
  intros Hn. unfold establish_socks5_tunnel. destruct (uri_host uri) as [host|]; [|done].
  apply bind_cong. intros [] w1 [Hi _]%write_all_ok. rewrite <-Hi in Hn.
  apply bind_cong. intros [] w2 [Hi2 _]%server_choice_ok; [done|]. destruct Hn. rewrite Hi2. by eexists.
Qed.

Lemma read_exact_none what n w bs rest :
  wi_faults w = [] → wi_in w = bs ++ rest → len bs = n →
  read_exact what n w = (Ok bs, mkWire rest (wi_out w) []).
Proof.
  intros Hf Hi Hl. unfold read_exact, next_fault. rewrite Hf. cbn [head mjoin option_join wi_in]. rewrite Hi.
  rewrite (proj2 (Z.leb_le n _)) by (rewrite len_app; pose proof (len_nonneg rest); lia).
  by rewrite take_app_length', drop_app_length' by (unfold len in Hl; lia).
Qed.
Lemma write_all_none what bs w :
  wi_faults w = [] → write_all what bs w = (Ok (), mkWire (wi_in w) (wi_out w ++ bs) []).
Proof. intros Hf. unfold write_all, next_fault. by rewrite Hf. Qed.

Lemma connect_response_none i o r bound rest :
  i = [0x05; 0x00; r] ++ bound ++ rest → bind_address bound = true →
  socks5_read_connect_response (mkWire i o []) = (Ok (), mkWire rest o []).
Proof.
  intros -> Hb. destruct bound as [|t bound]; [done|].
  unfold socks5_read_connect_response, bind at 1.
  rewrite (read_exact_none _ _ _ [5; 0; r; t] (bound ++ rest)) by done. cbn [nth Z.eqb Pos.eqb negb].
  destruct (Z.eqb_spec t 1) as [->|]; [|destruct (Z.eqb_spec t 3) as [->|]; [|destruct (Z.eqb_spec t 4) as [->|]]];
    cbn [bind_address] in Hb.
  - unfold bind. by rewrite (read_exact_none _ _ _ bound rest) by solve [done|lia].
  - destruct bound as [|k bound]; [done|]. apply andb_true_iff in Hb as [??]. unfold bind at 1.
    rewrite (read_exact_none _ _ _ [k] (bound ++ rest)) by done. cbn [nth].
    unfold bind. by rewrite (read_exact_none _ _ _ bound rest) by solve [done|lia].
  - unfold bind. by rewrite (read_exact_none _ _ _ bound rest) by solve [done|lia].
  - exfalso. revert Hb. repeat (case_match; try done); lia.
Qed.

(** The limits of the protocol: a name has a length of one byte. *)
Definition fits (text : string) : Prop := len (text_bytes text) ≤ U8_MAX.

Lemma socks5_address_fits host : fits host → ∃ a, socks5_address host = Ok a.
Proof.
  intros Hf. unfold socks5_address. destruct (parse_ip host) as [[]|]; eauto.
  destruct (Z.ltb_spec U8_MAX (len (text_bytes host))); [unfold fits in *; lia|eauto].
Qed.
Lemma password_request_none c w :
  fits (cred_username c) → fits (cred_password c) → wi_faults w = [] →
  socks5_write_password_auth_request c w
  = (Ok (), mkWire (wi_in w) (wi_out w ++ password_request (login_of c).1 (login_of c).2) []).
Proof.
  unfold fits, socks5_write_password_auth_request. intros Hu Hp Hf.
  do 2 rewrite (proj2 (Z.ltb_ge _ _)) by lia. by apply write_all_none.
Qed.

(** Every proxy that accepts is used: over a connection without faults, with a host and credentials
    whose lengths fit a byte, any acceptance of an offered method establishes the tunnel, and consumes the
    acceptance and nothing else. *)
Theorem socks5_tunnel_completes uri credentials host i o m replies rest :
  uri_host uri = Some host → fits host →
  from_option (λ c, fits (cred_username c) ∧ fits (cred_password c)) True credentials →
  accepts (method_of m) replies → (m = UsernamePassword → is_Some credentials) → i = replies ++ rest →
  ∃ sent, establish_socks5_tunnel uri credentials (mkWire i o []) = (Ok (), mkWire rest (o ++ sent) []).
Proof.
  intros Hh Hfit Hc (r & bound & Hb & ->) Hm ->. apply socks5_address_fits in Hfit as [a Ha].
  unfold establish_socks5_tunnel. rewrite Hh. unfold socks5_write_client_greeting.
  unfold bind at 1. rewrite write_all_none by done. unfold bind at 1. unfold socks5_read_server_choice at 1.
  unfold bind at 1.
  rewrite (read_exact_none _ _ _ [5; method_of m]
             ((if method_of m =? 2 then [1; 0] else []) ++ [5; 0; r] ++ bound ++ rest)); [|done| |done].
  2: by rewrite <-!app_assoc.
  assert (Hend : ∀ o', ∃ sent, bind (socks5_write_connect_request host (target_port uri))
      (λ _, socks5_read_connect_response) (mkWire ([5; 0; r] ++ bound ++ rest) o' []) = (Ok (), mkWire rest (o' ++ sent) [])).
  { intros o'. unfold bind, socks5_write_connect_request. rewrite Ha, write_all_none by done.
    rewrite (connect_response_none _ _ r bound rest) by done. eauto. }
  destruct m; cbn [method_of nth Z.eqb Pos.eqb negb app]; unfold ret at 1; unfold bind at 1.
  - unfold ret at 1. edestruct Hend as [sent He]. rewrite He. cbn [wi_out]. rewrite <-app_assoc. eauto.
  - destruct Hm as [c ->]; [done|]. destruct Hc as [Hu Hp]. unfold bind at 1.
    rewrite password_request_none by done. unfold socks5_read_password_auth_response. unfold bind at 1.
    rewrite (read_exact_none _ _ _ [1; 0] ([5; 0; r] ++ bound ++ rest)) by done. cbn [nth Z.eqb Pos.eqb negb].
    unfold ret at 1. edestruct Hend as [sent He]. rewrite He. cbn [wi_out]. rewrite <-!app_assoc. eauto.
Qed.

(** An IPv6 literal keeps its brackets in the host of a URI, so a proxy is asked to look up the text
    in brackets as a name instead of being given the address. *)
Theorem bracketed_ipv6_sent_as_name (literal : string) :
  let host := String "["%char literal in
  fits host → socks5_address host = Ok (0x03 :: len (text_bytes host) :: text_bytes host).
Proof.
  intros host Hf. unfold socks5_address. change (parse_ip host) with (@None IpAddr).
  destruct (Z.ltb_spec U8_MAX (len (text_bytes host))); [unfold fits in *; lia|].
  rewrite as_u8_small; [done|]. split; [apply len_nonneg|done].
Qed.

End Socks5.

Module SocksDemo.
Definition uri : Uri := mkUri (Some "https") (Some "example.com") (Some "example.com") None "/".
Definition credentials : ProxyCredentials := mkProxyCredentials "user" "pass".
Definition replies : bytes := [5; 2; 1; 0; 5; 0; 0; 1; 10; 0; 0; 1; 0x1f; 0x90].
Definition established := establish_socks5_tunnel (λ _, ""%string) (λ _, ""%string) true uri (Some credentials).

Example tunnel_established :
  established (mkWire (replies ++ [0x16; 0x03]) [] [])
  = (Ok (), mkWire [0x16; 0x03]
       ([5; 2; 0; 2] ++ [1; 4; 117; 115; 101; 114; 4; 112; 97; 115; 115]
        ++ [5; 1; 0; 3; 11; 101; 120; 97; 109; 112; 108; 101; 46; 99; 111; 109; 0x01; 0xbb]) []).
Proof. vm_compute. reflexivity. Qed.
End SocksDemo.

Lemma accepts_demo : accepts 2 SocksDemo.replies.
Proof. by exists 0, [1; 10; 0; 0; 1; 0x1f; 0x90]. Qed.

Lemma socks5_tunnel_agreed_witness :
  let w := mkWire (SocksDemo.replies ++ [0x16; 0x03]) [] [] in
  let w' := (SocksDemo.established w).2 in
  ∃ m sent replies,
    wi_in w = replies ++ wi_in w' ∧ accepts (method_of m) replies ∧ wi_out w' = wi_out w ++ sent ∧
    decode_client (method_of m) sent
    = Some ([0x00; 0x02], match m with NoAuth => None | UsernamePassword => Some (login_of SocksDemo.credentials) end,
            (address_of "example.com", 443)).
Proof.
  intros w w'.
  apply (socks5_tunnel_agreed (λ _, ""%string) (λ _, ""%string) true SocksDemo.uri (Some SocksDemo.credentials) w w' "example.com").
  - reflexivity.
  - vm_compute. by split.
  - repeat (constructor; [unfold is_byte; lia|]). constructor.
  - vm_compute. reflexivity.
Defined.

Lemma credentials_only_on_request_witness :
  SocksDemo.established (mkWire [5; 0; 5; 0] [] [None; None; None; Some (Fault_Write 3 "reset")])
  = establish_socks5_tunnel (λ _, ""%string) (λ _, ""%string) true SocksDemo.uri
      (Some (mkProxyCredentials "other" "secret")) (mkWire [5; 0; 5; 0] [] [None; None; None; Some (Fault_Write 3 "reset")]).
Proof. apply credentials_only_on_request. intros [k Hk]. discriminate Hk. Defined.

Lemma socks5_tunnel_completes_witness :
  ∃ sent, SocksDemo.established (mkWire (SocksDemo.replies ++ [0x16]) [] []) = (Ok (), mkWire [0x16] ([] ++ sent) []).
Proof.
  apply (socks5_tunnel_completes (λ _, ""%string) (λ _, ""%string) true SocksDemo.uri (Some SocksDemo.credentials)
           "example.com" _ [] UsernamePassword SocksDemo.replies [0x16]).
  - reflexivity.
  - by vm_compute.
  - by vm_compute.
  - exact accepts_demo.
  - eauto.
  - reflexivity.
Defined.

Lemma bracketed_ipv6_sent_as_name_witness : socks5_address "[::1]" = Ok [3; 5; 91; 58; 58; 49; 93].
Proof. apply (bracketed_ipv6_sent_as_name "::1]"). by vm_compute. Defined.
