(* ===== verification/Scheduler.v ===== *)
(** * Request admission

    openwire/src/connection/scheduler.rs: the scheduler that admits requests under a
    global cap, a per-address cap and a bounded priority queue.

    Every operation runs under the scheduler's mutex, so it is one function of the
    [GlobalState]; it returns the new state, its result and the wakers it wakes after
    the lock is dropped.  [Panic] is an out-of-range slab index.  The key
    [Slab::insert] hands out is an argument ([fresh]), of which the theorems assume what
    the slab documents: it is vacant.  Clocks are read as the argument [now].  The
    permits handed out and the live [WaiterGuard]s are the [System] the step relation
    runs over. *)

From stdpp Require Import sorting.
From S2P Require Import Prelude Net Error Planning.

Abbreviation may_panic A := (outcome Empty_set A) (only parsing).

(** A task's waker; [will_wake] is equality of the tasks. *)
Abbreviation Waker := nat (only parsing).

Definition HIGH_URGENCY_PROMOTIONS_BEFORE_AGING : Z := 8.
Definition AGING_WAIT : Duration := from_millis 250.
Definition HIGH_URGENCY_MAX : Z := 2.

(** ** Data *)

(** [RequestPriority], openwire/connection/scheduler.rs:26-29. *)
Record RequestPriority : Type := mkPriority { urgency : Z }.

(** [RequestPriority::from_urgency], openwire/connection/scheduler.rs:52-56. *)
Definition from_urgency (u : Z) : RequestPriority := mkPriority (if 7 <? u then 7 else u).

(** [RequestPriority::is_high_urgency], openwire/connection/scheduler.rs:62-64. *)
Definition is_high_urgency (p : RequestPriority) : bool := urgency p <=? HIGH_URGENCY_MAX.

(** [Waiter], openwire/connection/scheduler.rs:95-103. *)
Record Waiter : Type := mkWaiter {
  w_waker : option Waker;
  w_address : Address;
  w_priority : RequestPriority;
  w_seq : Z;
  w_enqueued_at : Instant;
  w_admitted : bool;
}.

(** The scheduler's limits, openwire/connection/scheduler.rs:73-79. *)
Record RequestScheduler : Type := mkScheduler {
  max_total : Z;
  max_per_address : Z;
  max_queued : Z;
}.

(** [GlobalState], openwire/connection/scheduler.rs:81-93.  [ordered], a [BTreeSet] of
    [(urgency, seq, id)], is the sorted list of its elements. *)
Record GlobalState : Type := mkGlobal {
  global_running : Z;
  queued : Z;
  next_seq : Z;
  high_urgency_promotions : Z;
  waiters : gmap nat Waiter;
  ordered : list (Z * Z * nat);
  fifo : list nat;
  running : gmap Address Z;
  ready_waiters : list Waker;
}.

(** [RequestAdmissionPermit], openwire/connection/scheduler.rs:105-109, of a live
    scheduler: the address it releases when dropped. *)
Record Permit : Type := mkPermit { permit_address : Address }.

Definition set_waiters (g : GlobalState) (ws : gmap nat Waiter) : GlobalState :=
  mkGlobal (global_running g) (queued g) (next_seq g) (high_urgency_promotions g) ws
    (ordered g) (fifo g) (running g) (ready_waiters g).

Definition set_running (g : GlobalState) (total : Z) (m : gmap Address Z) : GlobalState :=
  mkGlobal total (queued g) (next_seq g) (high_urgency_promotions g) (waiters g)
    (ordered g) (fifo g) m (ready_waiters g).

Definition set_queue (g : GlobalState) (o : list (Z * Z * nat)) (f : list nat) (q : Z) : GlobalState :=
  mkGlobal (global_running g) q (next_seq g) (high_urgency_promotions g) (waiters g)
    o f (running g) (ready_waiters g).

Definition set_next_seq (g : GlobalState) (s : Z) : GlobalState :=
  mkGlobal (global_running g) (queued g) s (high_urgency_promotions g) (waiters g)
    (ordered g) (fifo g) (running g) (ready_waiters g).

Definition set_promotions (g : GlobalState) (n : Z) : GlobalState :=
  mkGlobal (global_running g) (queued g) (next_seq g) n (waiters g)
    (ordered g) (fifo g) (running g) (ready_waiters g).

Definition set_ready_waiters (g : GlobalState) (l : list Waker) : GlobalState :=
  mkGlobal (global_running g) (queued g) (next_seq g) (high_urgency_promotions g) (waiters g)
    (ordered g) (fifo g) (running g) l.

(** ** The ordered set *)

(** [Ord] on the tuples. *)
Definition key_ltb (a b : Z * Z * nat) : bool :=
  let '(u, s, i) := a in
  let '(v, t, j) := b in
  (u <? v) || ((u =? v) && ((s <? t) || ((s =? t) && (i <? j)%nat))).

(** [BTreeSet::insert]. *)
Fixpoint btree_insert (x : Z * Z * nat) (l : list (Z * Z * nat)) : list (Z * Z * nat) :=
  match l with
  | [] => [x]
  | y :: l' => if key_ltb x y then x :: l
               else if key_ltb y x then y :: btree_insert x l' else l
  end.

(** [BTreeSet::remove]. *)
Definition btree_remove (x : Z * Z * nat) (l : list (Z * Z * nat)) : list (Z * Z * nat) :=
  filter (λ y, y ≠ x) l.

(** ** Operations on the state *)

(** [GlobalState::enqueue_waiter], openwire/connection/scheduler.rs:126-130. *)
Definition enqueue_waiter (g : GlobalState) (u seq : Z) (id : nat) : GlobalState :=
  set_queue g (btree_insert (u, seq, id) (ordered g)) (fifo g ++ [id]) (queued g + 1).

(** [GlobalState::dequeue_waiter], openwire/connection/scheduler.rs:132-138. *)
Definition dequeue_waiter (g : GlobalState) (u seq : Z) (id : nat) : GlobalState :=
  set_queue g (btree_remove (u, seq, id) (ordered g))
    (remove_first id (fifo g)) (saturating_sub (queued g) 1).

(** [GlobalState::address_running], openwire/connection/scheduler.rs:157-159. *)
Definition address_running (g : GlobalState) (a : Address) : Z := default 0 (running g !! a).

(** [GlobalState::bump_address_running], openwire/connection/scheduler.rs:140-143. *)
Definition bump_address_running (g : GlobalState) (a : Address) : GlobalState :=
  set_running g (global_running g + 1) (<[a := address_running g a + 1]> (running g)).

(** [GlobalState::drop_address_running], openwire/connection/scheduler.rs:145-155. *)
Definition drop_address_running (g : GlobalState) (a : Address) : GlobalState :=
  match running g !! a with
  | None => set_running g (saturating_sub (global_running g) 1) (running g)
  | Some n =>
    let n := saturating_sub n 1 in
    let m := if n =? 0 then delete a (running g) else <[a := n]> (running g) in
    set_running g (saturating_sub (global_running g) 1) m
  end.

(** [RequestScheduler::new], openwire/connection/scheduler.rs:163-180. *)
Definition scheduler_new : GlobalState := mkGlobal 0 0 0 0 ∅ [] [] ∅ [].

(** [has_global_capacity], openwire/connection/scheduler.rs:182-184. *)
Definition has_global_capacity (c : RequestScheduler) (n : Z) : bool := n <? max_total c.

(** [has_address_capacity], openwire/connection/scheduler.rs:186-188. *)
Definition has_address_capacity (c : RequestScheduler) (n : Z) : bool := n <? max_per_address c.

(** [address_has_capacity], openwire/connection/scheduler.rs:382-384. *)
Definition address_has_capacity (g : GlobalState) (a : Address) (cap : Z) : bool :=
  address_running g a <? cap.

(** [waiter_is_eligible], openwire/connection/scheduler.rs:386-391. *)
Definition waiter_is_eligible (g : GlobalState) (id : nat) (cap : Z) : bool :=
  match waiters g !! id with
  | Some w => address_has_capacity g (w_address w) cap
  | None => false
  end.

(** [queue_blocks_priority], openwire/connection/scheduler.rs:396-404. *)
Definition queue_blocks_priority (g : GlobalState) (p : RequestPriority) (cap : Z) : bool :=
  existsb (λ '(u, _, id), (u <=? urgency p) && waiter_is_eligible g id cap) (ordered g).

(** [select_waiter], openwire/connection/scheduler.rs:406-430. *)
Definition select_waiter (g : GlobalState) (cap : Z) (now : Instant) : may_panic (option nat) :=
  match List.find (λ id, waiter_is_eligible g id cap) (snd <$> ordered g) with
  | None => Ok None
  | Some best =>
    match List.find (λ id, waiter_is_eligible g id cap) (fifo g) with
    | None => Ok None
    | Some oldest =>
      if (oldest =? best)%nat then Ok (Some best) else
      match waiters g !! oldest, waiters g !! best with
      | Some oldest_waiter, Some best_waiter =>
        let aged_by_time := AGING_WAIT <=? elapsed now (w_enqueued_at oldest_waiter) in
        let aged_by_count :=
          (HIGH_URGENCY_PROMOTIONS_BEFORE_AGING <=? high_urgency_promotions g) &&
          (urgency (w_priority best_waiter) <? urgency (w_priority oldest_waiter)) in
        if aged_by_time || aged_by_count then Ok (Some oldest) else Ok (Some best)
      | _, _ => Panic
      end
    end
  end.

Definition admit_waiter (w : Waiter) : Waiter :=
  mkWaiter None (w_address w) (w_priority w) (w_seq w) (w_enqueued_at w) true.

(** [try_promote], openwire/connection/scheduler.rs:336-356. *)
Definition try_promote (c : RequestScheduler) (g : GlobalState) (now : Instant)
    : may_panic (GlobalState * option Waker) :=
  if negb (has_global_capacity c (global_running g)) then Ok (g, None) else
  let? selected := select_waiter g (max_per_address c) now in
  match selected with
  | None => Ok (g, None)
  | Some id =>
    match waiters g !! id with
    | None => Panic
    | Some w =>
      let g := dequeue_waiter g (urgency (w_priority w)) (w_seq w) id in
      let g := set_waiters g (<[id := admit_waiter w]> (waiters g)) in
      let g := set_promotions g
                 (if is_high_urgency (w_priority w)
                  then u32_saturating_add (high_urgency_promotions g) 1 else 0) in
      Ok (bump_address_running g (w_address w), w_waker w)
    end
  end.

(** [wake_ready_waiters], openwire/connection/scheduler.rs:358-363. *)
Definition wake_ready_waiters (c : RequestScheduler) (g : GlobalState) : GlobalState * option Waker :=
  if negb (has_global_capacity c (global_running g)) then (g, None) else
  match ready_waiters g with
  | [] => (g, None)
  | w :: l => (set_ready_waiters g l, Some w)
  end.

(** [poll_acquire], openwire/connection/scheduler.rs:212-277.  The result is the state, the
    caller's [waiter_id], the poll and the wakers woken. *)
Definition poll_acquire (c : RequestScheduler) (g : GlobalState) (waker : Waker) (now : Instant)
    (fresh : nat) (a : Address) (p : RequestPriority) (waiter_id : option nat)
    : may_panic (GlobalState * option nat * poll (WireError + Permit) * list Waker) :=
  match waiter_id with
  | Some id =>
    match waiters g !! id with
    | Some w =>
      if w_admitted w
      then Ok (set_waiters g (delete id (waiters g)), None, Ready (inr (mkPermit (w_address w))), [])
      else Ok (set_waiters g (<[id := mkWaiter (Some waker) (w_address w) (w_priority w) (w_seq w)
                                        (w_enqueued_at w) (w_admitted w)]> (waiters g)),
               Some id, Pending, [])
    | None => Ok (g, Some id, Pending, [])
    end
  | None =>
    let can_run := has_global_capacity c (global_running g) &&
                   has_address_capacity c (address_running g a) in
    let blocked_by_queue := queue_blocks_priority g p (max_per_address c) in
    if can_run && negb blocked_by_queue
    then Ok (bump_address_running g a, None, Ready (inr (mkPermit a)), [])
    else if max_queued c <=? queued g
    then Ok (g, None, Ready (inl (capacity "request admission queue is full")), [])
    else
      let seq := next_seq g in
      let g := set_next_seq g (u64_wrapping_add seq 1) in
      let id := fresh in
      let g := set_waiters g (<[id := mkWaiter (Some waker) a p seq now false]> (waiters g)) in
      let g := enqueue_waiter g (urgency p) seq id in
      let? (g, promoted) := try_promote c g now in
      match waiters g !! id with
      | Some w =>
        if w_admitted w
        then Ok (set_waiters g (delete id (waiters g)), None, Ready (inr (mkPermit (w_address w))), [])
        else Ok (g, Some id, Pending, option_list promoted)
      | None => Ok (g, Some id, Pending, option_list promoted)
      end
  end.

(** [poll_ready], openwire/connection/scheduler.rs:279-292. *)
Definition poll_ready (c : RequestScheduler) (g : GlobalState) (waker : Waker) : GlobalState * poll unit :=
  if has_global_capacity c (global_running g) then (g, Ready tt) else
  if existsb (Nat.eqb waker) (ready_waiters g) then (g, Pending)
  else (set_ready_waiters g (ready_waiters g ++ [waker]), Pending).

(** [release], openwire/connection/scheduler.rs:294-306. *)
Definition release (c : RequestScheduler) (g : GlobalState) (now : Instant) (a : Address)
    : may_panic (GlobalState * list Waker) :=
  let g := drop_address_running g a in
  let (g, ready) := wake_ready_waiters c g in
  let? (g, promoted) := try_promote c g now in
  Ok (g, option_list ready ++ option_list promoted).

(** [cancel_waiter], openwire/connection/scheduler.rs:308-334. *)
Definition cancel_waiter (c : RequestScheduler) (g : GlobalState) (now : Instant) (id : nat)
    : may_panic (GlobalState * list Waker) :=
  match waiters g !! id with
  | None => Ok (g, [])
  | Some w =>
    let g' := set_waiters g (delete id (waiters g)) in
    if w_admitted w then
      let g := drop_address_running g' (w_address w) in
      let (g, ready) := wake_ready_waiters c g in
      let? (g, promoted) := try_promote c g now in
      Ok (g, option_list ready ++ option_list promoted)
    else Ok (dequeue_waiter g' (urgency (w_priority w)) (w_seq w) id, [])
  end.

(** ** The scheduler and its clients *)

(** The scheduler with the addresses of the permits not yet dropped and the waiter ids
    owned by live acquire futures. *)
Record System : Type := mkSystem {
  sys_state : GlobalState;
  sys_permits : list Address;
  sys_guards : gset nat;
}.

Inductive Action : Type :=
| Acquire (waker : Waker) (now : Instant) (fresh : nat) (a : Address) (p : RequestPriority)
| Repoll (waker : Waker) (now : Instant) (id : nat) (a : Address) (p : RequestPriority)
| DropFuture (now : Instant) (id : nat)
| DropPermit (now : Instant) (a : Address)
| PollReady (waker : Waker).

Definition granted (r : poll (WireError + Permit)) : list Address :=
  match r with Ready (inr pm) => [permit_address pm] | _ => [] end.

(** The [poll_fn] closure of [acquire] with the two [Drop] impls,
    openwire/connection/scheduler.rs:190-210. *)
Definition exec (c : RequestScheduler) (s : System) (act : Action) : may_panic System :=
  let 'mkSystem g ps gs := s in
  match act with
  | Acquire waker now fresh a p =>
    let? (g', id, r, _) := poll_acquire c g waker now fresh a p None in
    Ok (mkSystem g' (granted r ++ ps) (match id with Some i => {[i]} ∪ gs | None => gs end))
  | Repoll waker now id a p =>
    let? (g', id', r, _) := poll_acquire c g waker now 0%nat a p (Some id) in
    Ok (mkSystem g' (granted r ++ ps) (match id' with Some _ => gs | None => gs ∖ {[id]} end))
  | DropFuture now id =>
    let? (g', _) := cancel_waiter c g now id in
    Ok (mkSystem g' ps (gs ∖ {[id]}))
  | DropPermit now a =>
    let? (g', _) := release c g now a in
    Ok (mkSystem g' (remove_first a ps) gs)
  | PollReady waker => Ok (mkSystem (poll_ready c g waker).1 ps gs)
  end.

(** What the slab and Rust's ownership guarantee of an action: the key handed out is
    vacant, only a live future polls or drops its waiter, only a held permit is dropped. *)
Definition enabled (s : System) (act : Action) : Prop :=
  match act with
  | Acquire _ _ fresh _ _ => waiters (sys_state s) !! fresh = None
  | Repoll _ _ id _ _ => id ∈ sys_guards s
  | DropFuture _ id => id ∈ sys_guards s
  | DropPermit _ a => a ∈ sys_permits s
  | PollReady _ => True
  end.

Definition initial : System := mkSystem scheduler_new [] ∅.

Inductive reachable (c : RequestScheduler) : System → Prop :=
| reach_initial : reachable c initial
| reach_step s act s' : reachable c s → enabled s act → exec c s act = Ok s' → reachable c s'.

(** ** The invariant *)

(** The queue key of a waiter not yet admitted. *)
Definition queue_key (ws : gmap nat Waiter) (i : nat) : option (Z * Z) :=
  w ← ws !! i; if w_admitted w then None else Some (urgency (w_priority w), w_seq w).

Definition key_lt (a b : Z * Z * nat) : Prop := key_ltb a b = true.

(** [ordered], [fifo] and [queued] describe exactly the waiters not yet admitted. *)
Record queue_ok (g : GlobalState) : Prop := mkQueueOk {
  q_sorted : StronglySorted key_lt (ordered g);
  q_ordered : ∀ u q i, (u, q, i) ∈ ordered g ↔ queue_key (waiters g) i = Some (u, q);
  q_nodup : NoDup (fifo g);
  q_fifo : ∀ i, i ∈ fifo g ↔ is_Some (queue_key (waiters g) i);
  q_len : queued g = len (fifo g);
}.

Definition admitted_addresses (ws : gmap nat Waiter) : list Address :=
  w_address <$> filter (λ w, w_admitted w = true) (snd <$> map_to_list ws).

(** The slots in use: by permits, and by admitted waiters that have not polled yet. *)
Definition held (g : GlobalState) (ps : list Address) : list Address :=
  ps ++ admitted_addresses (waiters g).

Definition count (a : Address) (l : list Address) : Z := len (filter (λ b, b = a) l).

(** The counters count the slots in use, and the map has no zero entries. *)
Record accounting (g : GlobalState) (ps : list Address) : Prop := mkAccounting {
  acc_total : global_running g = len (held g ps);
  acc_address : ∀ a, running g !! a =
    (if count a (held g ps) =? 0 then None else Some (count a (held g ps)));
}.

Record caps (c : RequestScheduler) (g : GlobalState) : Prop := mkCaps {
  cap_total : global_running g ≤ max_total c;
  cap_address : ∀ a, address_running g a ≤ max_per_address c;
  cap_queue : queued g ≤ max_queued c;
}.

(** No waiter that could run is left waiting while a slot is free. *)
Definition conserving (c : RequestScheduler) (g : GlobalState) : Prop :=
  has_global_capacity c (global_running g) = true →
  ∀ i, is_Some (queue_key (waiters g) i) → waiter_is_eligible g i (max_per_address c) = false.

Record inv (c : RequestScheduler) (s : System) : Prop := mkInv {
  inv_queue : queue_ok (sys_state s);
  inv_accounting : accounting (sys_state s) (sys_permits s);
  inv_caps : caps c (sys_state s);
  inv_conserving : conserving c (sys_state s);
  inv_guards : dom (waiters (sys_state s)) = sys_guards s;
}.

(** The limits are [usize] values. *)
Definition config_ok (c : RequestScheduler) : Prop :=
  0 ≤ max_total c ∧ 0 ≤ max_per_address c ∧ 0 ≤ max_queued c.

(** ** The ordered set *)

Lemma key_ltb_trans a b d : key_lt a b → key_lt b d → key_lt a d.
Proof.
  destruct a as [[u s] i], b as [[v t] j], d as [[w r] k]. unfold key_lt, key_ltb.
  rewrite !orb_true_iff, !andb_true_iff, !orb_true_iff, !andb_true_iff,
    !Z.ltb_lt, !Z.eqb_eq, !Nat.ltb_lt. lia.
Qed.

Lemma key_ltb_total a b : key_ltb a b = false → key_ltb b a = false → a = b.
Proof.
  destruct a as [[u s] i], b as [[v t] j]. unfold key_ltb.
  rewrite !orb_false_iff, !andb_false_iff, !orb_false_iff, !andb_false_iff,
    !Z.ltb_ge, !Z.eqb_neq, !Nat.ltb_ge. intros.
  assert (u = v) by lia. assert (s = t) by lia. assert (i = j) by lia. congruence.
Qed.

Lemma key_ltb_irrefl a : ¬ key_lt a a.
Proof.
  destruct a as [[u s] i]. unfold key_lt, key_ltb.
  rewrite !orb_true_iff, !andb_true_iff, !orb_true_iff, !andb_true_iff,
    !Z.ltb_lt, !Z.eqb_eq, !Nat.ltb_lt. lia.
Qed.

Lemma elem_of_btree_insert x y l : y ∈ btree_insert x l ↔ y = x ∨ y ∈ l.
Proof.
  induction l as [|z l IH]; simpl; [set_solver|].
  destruct (key_ltb x z) eqn:H1; [set_solver|].
  destruct (key_ltb z x) eqn:H2; [set_solver|].
  rewrite (key_ltb_total x z) by done. set_solver.
Qed.

Lemma btree_insert_sorted x l : StronglySorted key_lt l → StronglySorted key_lt (btree_insert x l).
Proof.
  induction 1 as [|y l Hl IH Hy]; simpl; [repeat constructor|].
  destruct (key_ltb x y) eqn:H1; [|destruct (key_ltb y x) eqn:H2].
  - constructor; [by constructor|]. constructor; [done|].
    eapply Forall_impl; [done|]. intros z. by apply key_ltb_trans.
  - constructor; [done|]. rewrite Forall_forall in Hy |- *. intros z.
    rewrite elem_of_btree_insert. intros [->|?]; [done|by apply Hy].
  - by constructor.
Qed.

Lemma btree_remove_sorted x l : StronglySorted key_lt l → StronglySorted key_lt (btree_remove x l).
Proof.
  unfold btree_remove. induction 1 as [|y l Hl IH Hy]; [constructor|].
  rewrite filter_cons. case_decide; [|done]. constructor; [done|].
  rewrite Forall_forall in Hy |- *. intros z. rewrite list_elem_of_filter. intros [_ ?]. by apply Hy.
Qed.

Lemma elem_of_btree_remove x y l : y ∈ btree_remove x l ↔ y ≠ x ∧ y ∈ l.
Proof. unfold btree_remove. by rewrite list_elem_of_filter. Qed.

(** ** Queue lemmas *)

Lemma queue_ok_waiters g ws :
  (∀ i, queue_key ws i = queue_key (waiters g) i) → queue_ok g → queue_ok (set_waiters g ws).
Proof.
  intros Hk [H1 H2 H3 H4 H5]. constructor; simpl; try done.
  - intros u q i. by rewrite Hk.
  - intros i. by rewrite Hk.
Qed.

Lemma queue_key_insert_ne ws i j w : i ≠ j → queue_key (<[i := w]> ws) j = queue_key ws j.
Proof. intros. unfold queue_key. by rewrite lookup_insert_ne. Qed.
Lemma queue_key_insert ws i w :
  queue_key (<[i := w]> ws) i = if w_admitted w then None else Some (urgency (w_priority w), w_seq w).
Proof. unfold queue_key. by rewrite lookup_insert_eq. Qed.
Lemma queue_key_delete_ne ws i j : i ≠ j → queue_key (delete i ws) j = queue_key ws j.
Proof. intros. unfold queue_key. by rewrite lookup_delete_ne. Qed.
Lemma queue_key_delete ws i : queue_key (delete i ws) i = None.
Proof. unfold queue_key. by rewrite lookup_delete_eq. Qed.

Lemma queue_key_Some ws i : is_Some (queue_key ws i) ↔ ∃ w, ws !! i = Some w ∧ w_admitted w = false.
Proof.
  unfold queue_key. destruct (ws !! i) as [w|]; simpl; [|split; [by intros []|by intros (?&?&?)]].
  destruct (w_admitted w) eqn:E; split.
  - by intros [].
  - intros (? & ? & ?). congruence.
  - by eauto.
  - intros _. by eexists.
Qed.

(** Taking a waiter out of the queue, whether it is then admitted or forgotten. *)
Lemma queue_ok_dequeue g ws u q id :
  queue_ok g → queue_key (waiters g) id = Some (u, q) → queue_key ws id = None →
  (∀ j, j ≠ id → queue_key ws j = queue_key (waiters g) j) →
  queue_ok (set_waiters (dequeue_waiter g u q id) ws).
Proof.
  intros [Hs Ho Hn Hf Hl] Hid Hws Hj.
  assert (id ∈ fifo g) as Hin by (apply Hf; by eexists).
  pose proof (remove_first_Permutation id (fifo g) Hin) as Hp.
  assert (NoDup (id :: remove_first id (fifo g))) as Hnd by (by rewrite <-Hp).
  apply NoDup_cons in Hnd as [Hnin Hnd].
  set (rest := remove_first id (fifo g)) in *.
  constructor; cbn [set_waiters dequeue_waiter set_queue ordered fifo waiters queued].
  - by apply btree_remove_sorted.
  - intros v t i. rewrite elem_of_btree_remove, Ho. destruct (decide (i = id)) as [->|Hne].
    + rewrite Hws, Hid. split; [intros [??]; by simplify_eq|done].
    + rewrite Hj by done. split; [by intros []|]. intros; split; [congruence|done].
  - done.
  - intros i. destruct (decide (i = id)) as [->|Hne].
    + fold rest. rewrite Hws. split; [done|by intros []].
    + fold rest. rewrite Hj, <-Hf, Hp by done. set_solver.
  - fold rest. rewrite Hl, Hp, len_cons. unfold saturating_sub. pose proof (len_nonneg rest). lia.
Qed.

Lemma queue_ok_enqueue g w id :
  queue_ok g → waiters g !! id = None → w_admitted w = false →
  queue_ok (enqueue_waiter (set_waiters g (<[id := w]> (waiters g))) (urgency (w_priority w)) (w_seq w) id).
Proof.
  intros [Hs Ho Hn Hf Hl] Hid Hw.
  assert (queue_key (waiters g) id = None) as Hk by (unfold queue_key; by rewrite Hid).
  assert (id ∉ fifo g) as Hnin by (rewrite Hf, Hk; by intros []).
  constructor; cbn [set_waiters enqueue_waiter set_queue ordered fifo waiters queued].
  - by apply btree_insert_sorted.
  - intros v t i. rewrite elem_of_btree_insert, Ho. destruct (decide (i = id)) as [->|Hne].
    + rewrite Hk, queue_key_insert, Hw. split; [intros [?|?]; by simplify_eq|intros ?; simplify_eq; by left].
    + rewrite queue_key_insert_ne by done. split; [intros [?|?]; [congruence|done]|by right].
  - apply NoDup_app. split_and!; [done|set_solver|apply NoDup_singleton].
  - intros i. rewrite elem_of_app, list_elem_of_singleton, Hf. destruct (decide (i = id)) as [->|Hne].
    + rewrite queue_key_insert, Hw. split; [by eexists|by right].
    + rewrite queue_key_insert_ne by done. split; [by intros [|]|by left].
  - rewrite Hl. len_lia.
Qed.

(** ** Accounting lemmas *)


#[export] Instance count_Permutation a : Proper ((≡ₚ) ==> (=)) (count a).
Proof. intros l k H. unfold count. by rewrite H. Qed.

Lemma count_cons a b l : count a (b :: l) = (if decide (b = a) then 1 else 0) + count a l.
Proof. unfold count. rewrite filter_cons. case_decide; len_lia. Qed.
Lemma count_nonneg a l : 0 ≤ count a l.
Proof. apply len_nonneg. Qed.

Lemma admitted_insert ws i w :
  ws !! i = None →
  admitted_addresses (<[i := w]> ws) ≡ₚ
    (if w_admitted w then [w_address w] else []) ++ admitted_addresses ws.
Proof.
  intros Hi. unfold admitted_addresses.
  rewrite map_to_list_insert by done. cbn [fmap list_fmap snd]. rewrite filter_cons.
  by destruct (w_admitted w) eqn:E; case_decide.
Qed.

Lemma admitted_delete ws i w :
  ws !! i = Some w →
  admitted_addresses ws ≡ₚ
    (if w_admitted w then [w_address w] else []) ++ admitted_addresses (delete i ws).
Proof.
  intros Hi. rewrite <-admitted_insert by apply lookup_delete_eq. by rewrite insert_delete_id.
Qed.

Lemma admitted_replace ws i w w' :
  ws !! i = Some w → w_admitted w = false →
  admitted_addresses (<[i := w']> ws) ≡ₚ
    (if w_admitted w' then [w_address w'] else []) ++ admitted_addresses ws.
Proof.
  intros Hi Hw. rewrite <-insert_delete_eq, admitted_insert by apply lookup_delete_eq.
  rewrite (admitted_delete ws i w) by done. by rewrite Hw.
Qed.

Lemma accounting_running g ps a : accounting g ps → address_running g a = count a (held g ps).
Proof.
  intros [_ H]. unfold address_running. rewrite H.
  destruct (Z.eqb_spec (count a (held g ps)) 0) as [E|E]; [by rewrite E|done].
Qed.

Lemma accounting_Permutation g g' ps ps' :
  held g ps ≡ₚ held g' ps' → global_running g' = global_running g → running g' = running g →
  accounting g ps → accounting g' ps'.
Proof.
  intros Hp Ht Hr [H1 H2]. constructor; [by rewrite Ht, <-Hp|]. intros a. rewrite Hr, H2. by rewrite (count_Permutation a _ _ Hp).
Qed.

Lemma accounting_bump g ps a g' ps' :
  accounting g ps → held g' ps' ≡ₚ a :: held g ps →
  global_running g' = global_running g → running g' = running g →
  accounting (bump_address_running g' a) ps'.
Proof.
  intros Hacc Hp Ht Hr. pose proof (accounting_running g ps a Hacc) as Ha. destruct Hacc as [H1 H2].
  unfold held in *. constructor; cbn [bump_address_running set_running global_running running waiters].
  - unfold held; cbn [waiters set_running bump_address_running]. rewrite Ht, Hp, H1. len_lia.
  - intros b. unfold held; cbn [waiters set_running bump_address_running].
    rewrite (count_Permutation b _ _ Hp), count_cons.
    pose proof (count_nonneg b (ps ++ admitted_addresses (waiters g))).
    destruct (decide (a = b)) as [<-|Hne].
    + rewrite lookup_insert_eq. unfold address_running in *. rewrite Hr, Ha.
      rewrite (proj2 (Z.eqb_neq _ 0)) by lia. f_equal. lia.
    + by rewrite lookup_insert_ne, Hr, H2 by done.
Qed.

Lemma accounting_drop g ps a g' ps' :
  accounting g ps → held g ps ≡ₚ a :: held g' ps' →
  global_running g' = global_running g → running g' = running g →
  accounting (drop_address_running g' a) ps' ∧
  global_running (drop_address_running g' a) = global_running g - 1 ∧
  (∀ b, address_running (drop_address_running g' a) b =
        address_running g b - (if decide (a = b) then 1 else 0)).
Proof.
  intros Hacc Hp Ht Hr. pose proof (λ b, accounting_running g ps b Hacc) as Ha. destruct Hacc as [H1 H2].
  set (l := held g' ps') in *.
  assert (Hpos : ∀ b, 0 ≤ count b l) by (intros; apply count_nonneg).
  assert (Hcnt : ∀ b, count b (held g ps) = (if decide (a = b) then 1 else 0) + count b l)
    by (intros; by rewrite Hp, count_cons).
  assert (Htot : global_running g = 1 + len l) by (by rewrite H1, Hp, len_cons).
  pose proof (len_nonneg l) as Hlen.
  assert (Hra : running g' !! a = Some (1 + count a l)).
  { rewrite Hr, H2, Hcnt, decide_True by done. specialize (Hpos a).
    by rewrite (proj2 (Z.eqb_neq _ 0)) by lia. }
  assert (accounting (drop_address_running g' a) ps' ∧
          global_running (drop_address_running g' a) = global_running g - 1) as [Hacc Hg].
  { unfold drop_address_running. rewrite Hra. unfold saturating_sub. specialize (Hpos a) as Hposa.
    replace (Z.max 0 (1 + count a l - 1)) with (count a l) by lia.
    split; [|cbn; lia]. constructor; cbn [set_running global_running running].
    - unfold held; cbn [set_running waiters]. fold (held g' ps'). fold l. lia.
    - intros b. unfold held; cbn [set_running waiters]. fold (held g' ps'). fold l.
      specialize (H2 b). rewrite Hcnt, <-Hr in H2.
      destruct (decide (a = b)) as [<-|Hne]; destruct (Z.eqb_spec (count a l) 0) as [E|E].
      + by rewrite lookup_delete_eq.
      + by rewrite lookup_insert_eq.
      + rewrite lookup_delete_ne by done. rewrite H2. done.
      + rewrite lookup_insert_ne by done. rewrite H2. done. }
  split_and!; [done|done|]. intros b. rewrite (accounting_running _ _ b Hacc), Ha, Hcnt.
  unfold drop_address_running at 1. rewrite Hra.
  change (count b l = (if decide (a = b) then 1 else 0) + count b l - (if decide (a = b) then 1 else 0)). lia.
Qed.

(** ** Selection *)

(** A queued waiter that could take a slot of its address now. *)
Definition eligible (g : GlobalState) (cap : Z) (i : nat) : Prop :=
  is_Some (queue_key (waiters g) i) ∧ waiter_is_eligible g i cap = true.

(** The eligible waiter with the least (urgency, seq, id). *)
Definition is_best (g : GlobalState) (cap : Z) (i : nat) : Prop :=
  eligible g cap i ∧
  ∀ j u q v t, eligible g cap j → queue_key (waiters g) i = Some (u, q) →
    queue_key (waiters g) j = Some (v, t) → j = i ∨ key_lt (u, q, i) (v, t, j).

(** The eligible waiter that entered the queue first. *)
Definition is_oldest (g : GlobalState) (cap : Z) (i : nat) : Prop :=
  ∃ pre post, fifo g = pre ++ i :: post ∧ eligible g cap i ∧
    ∀ j, j ∈ pre → ¬ eligible g cap j.

Lemma find_best g cap :
  queue_ok g →
  match List.find (λ id, waiter_is_eligible g id cap) (snd <$> ordered g) with
  | Some i => is_best g cap i
  | None => ∀ i, ¬ eligible g cap i
  end.
Proof.
  intros [Hs Ho _ _ _]. destruct (List.find _ _) as [i|] eqn:Hf; [apply find_first_Some in Hf|apply find_first_None in Hf].
  - destruct Hf as (pre & post & Heq & Hi & Hpre).
    apply fmap_app_inv in Heq as (kpre & kpost & Hpre' & Hpost' & Heq).
    symmetry in Hpost'. apply fmap_cons_inv in Hpost' as ([[u q] i'] & kpost' & ? & ? & ->). simplify_eq/=.
    assert (Hk : queue_key (waiters g) i' = Some (u, q)) by (apply Ho; rewrite Heq; set_solver).
    split; [by split; [eexists|]|]. intros j u' q' v t [_ Hj] Hui Hvj. simplify_eq.
    apply Ho in Hvj. rewrite Heq in Hvj. apply elem_of_app in Hvj as [Hin|Hin].
    + rewrite Forall_fmap, Forall_forall in Hpre. specialize (Hpre _ Hin). simpl in Hpre. congruence.
    + apply elem_of_cons in Hin as [?|Hin]; [simplify_eq; by left|right].
      rewrite Heq in Hs. apply StronglySorted_app in Hs as (_ & _ & Hs).
      apply StronglySorted_inv in Hs as [_ Hs]. rewrite Forall_forall in Hs. by apply Hs.
  - rewrite Forall_fmap, Forall_forall in Hf. intros i [[[u q] Hk] He].
    apply Ho in Hk. specialize (Hf _ Hk). simpl in Hf. congruence.
Qed.

Lemma find_oldest g cap :
  queue_ok g →
  match List.find (λ id, waiter_is_eligible g id cap) (fifo g) with
  | Some i => is_oldest g cap i
  | None => ∀ i, ¬ eligible g cap i
  end.
Proof.
  intros [_ _ _ Hq _]. destruct (List.find _ _) as [i|] eqn:Hf; [apply find_first_Some in Hf|apply find_first_None in Hf].
  - destruct Hf as (pre & post & Heq & Hi & Hpre). exists pre, post. split_and!; [done| |].
    + split; [|done]. apply Hq. rewrite Heq. set_solver.
    + intros j Hj [_ He]. rewrite Forall_forall in Hpre. specialize (Hpre _ Hj). simpl in Hpre. congruence.
  - rewrite Forall_forall in Hf. intros i [Hk He]. apply Hq in Hk. specialize (Hf _ Hk). simpl in Hf. congruence.
Qed.

(** When the oldest eligible waiter overtakes the most urgent one. *)
Definition aged (g : GlobalState) (now : Instant) (oldest best : nat) : Prop :=
  ∃ wo wb, waiters g !! oldest = Some wo ∧ waiters g !! best = Some wb ∧
    (AGING_WAIT ≤ elapsed now (w_enqueued_at wo) ∨
     HIGH_URGENCY_PROMOTIONS_BEFORE_AGING ≤ high_urgency_promotions g ∧
     urgency (w_priority wb) < urgency (w_priority wo)).

Definition selection_rule (g : GlobalState) (cap : Z) (now : Instant) (r : option nat) : Prop :=
  match r with
  | None => ∀ i, ¬ eligible g cap i
  | Some i => ∃ oldest best, is_oldest g cap oldest ∧ is_best g cap best ∧
      ((i = oldest ∧ (oldest = best ∨ aged g now oldest best)) ∨
       (i = best ∧ oldest ≠ best ∧ ¬ aged g now oldest best))
  end.

Lemma eligible_lookup g cap i : eligible g cap i → ∃ w, waiters g !! i = Some w ∧ w_admitted w = false.
Proof. intros [H _]. by apply queue_key_Some. Qed.

Lemma select_waiter_rule g cap now :
  queue_ok g → ∃ r, select_waiter g cap now = Ok r ∧ selection_rule g cap now r.
Proof.
  intros Hq. unfold select_waiter. pose proof (find_best g cap Hq) as Hb. pose proof (find_oldest g cap Hq) as Ho.
  destruct (List.find _ (snd <$> ordered g)) as [best|]; [|by exists None].
  destruct (List.find _ (fifo g)) as [oldest|]; [|by exists None].
  destruct (Nat.eqb_spec oldest best) as [<-|Hne].
  { exists (Some oldest). split; [done|]. exists oldest, oldest. split_and!; [done|done|by left; split; [|left]]. }
  destruct Ho as (pre & post & Hfifo & Hoe & Hpre).
  destruct (eligible_lookup _ _ _ Hoe) as (wo & Hwo & _).
  destruct (eligible_lookup _ _ _ (proj1 Hb)) as (wb & Hwb & _). rewrite Hwo, Hwb.
  assert (is_oldest g cap oldest) by (by exists pre, post).
  destruct (_ || _) eqn:Hc.
  - eexists; split; [done|]. exists oldest, best. split_and!; [done|done|]. left. split; [done|right].
    exists wo, wb. split_and!; [done|done|]. apply orb_true_iff in Hc as [Hc|Hc]; [left; by bool_lia|right].
    apply andb_true_iff in Hc as [? ?]. bool_lia.
  - eexists; split; [done|]. exists oldest, best. split_and!; [done|done|]. right. split_and!; [done|done|].
    intros (? & ? & ? & ? & Ha). simplify_eq. apply orb_false_iff in Hc as [Hc1 Hc2].
    apply andb_false_iff in Hc2. destruct Ha as [?|[??]]; [bool_lia|]. destruct Hc2; bool_lia.
Qed.

Lemma selection_eligible g cap now i : selection_rule g cap now (Some i) → eligible g cap i.
Proof.
  intros (o & b & (pre & post & _ & Ho & _) & [Hb _] & [[-> _]|[-> _]]); done.
Qed.

(** ** Promotion *)

(** The state after waiter [id] was promoted. *)
Definition promoted (g : GlobalState) (id : nat) (w : Waiter) : GlobalState :=
  let d := dequeue_waiter g (urgency (w_priority w)) (w_seq w) id in
  bump_address_running
    (set_promotions (set_waiters d (<[id := admit_waiter w]> (waiters g)))
       (if is_high_urgency (w_priority w)
        then u32_saturating_add (high_urgency_promotions g) 1 else 0)) (w_address w).

Lemma try_promote_rule c g now :
  queue_ok g →
  ∃ g' wk, try_promote c g now = Ok (g', wk) ∧
    ((g' = g ∧ wk = None ∧
      (has_global_capacity c (global_running g) = true → ∀ i, ¬ eligible g (max_per_address c) i)) ∨
     ∃ id w, has_global_capacity c (global_running g) = true ∧
       selection_rule g (max_per_address c) now (Some id) ∧
       waiters g !! id = Some w ∧ w_admitted w = false ∧ g' = promoted g id w ∧ wk = w_waker w).
Proof.
  intros Hq. unfold try_promote. destruct (has_global_capacity _ _) eqn:Hc; simpl; [|exists g, None; split; [done|by left]].
  destruct (select_waiter_rule g (max_per_address c) now Hq) as (r & -> & Hr). simpl.
  destruct r as [id|]; [|exists g, None; split; [done|by left]].
  destruct (eligible_lookup _ _ _ (selection_eligible _ _ _ _ Hr)) as (w & Hw & Ha).
  rewrite Hw. eexists _, _. split; [done|]. right. exists id, w. split_and!; done.
Qed.

Lemma promoted_queue_ok g id w :
  queue_ok g → waiters g !! id = Some w → w_admitted w = false → queue_ok (promoted g id w).
Proof.
  intros Hq Hw Ha.
  assert (queue_ok (set_waiters (dequeue_waiter g (urgency (w_priority w)) (w_seq w) id)
                      (<[id := admit_waiter w]> (waiters g)))) as [].
  { apply queue_ok_dequeue; [done| |by rewrite queue_key_insert|].
    - unfold queue_key. rewrite Hw. simpl. by rewrite Ha.
    - intros j Hj. by rewrite queue_key_insert_ne. }
  by constructor.
Qed.

Lemma promoted_accounting g ps id w :
  accounting g ps → waiters g !! id = Some w → w_admitted w = false → accounting (promoted g id w) ps.
Proof.
  intros Hacc Hw Ha. unfold promoted. apply (accounting_bump g ps); [done| |done|done].
  unfold held; cbn [set_promotions set_waiters waiters].
  rewrite (admitted_replace _ _ w) by done. simpl. by rewrite Permutation_middle.
Qed.

Lemma promoted_running g id w a :
  address_running (promoted g id w) a =
    address_running g a + (if decide (w_address w = a) then 1 else 0).
Proof.
  unfold address_running, promoted; cbn -[lookup insert].
  destruct (decide (w_address w = a)) as [<-|Hne].
  - by rewrite lookup_insert_eq.
  - rewrite lookup_insert_ne by done. lia.
Qed.

(** ** Work conservation *)

Lemma promoted_caps c g id w now :
  caps c g → has_global_capacity c (global_running g) = true →
  selection_rule g (max_per_address c) now (Some id) → waiters g !! id = Some w →
  queued (promoted g id w) ≤ queued g ∨ queued g ≤ 0 → 0 ≤ max_queued c →
  caps c (promoted g id w).
Proof.
  intros [Ct Ca Cq] Hcap Hsel Hw Hqd Hm. apply Z.ltb_lt in Hcap. constructor.
  - cbn. lia.
  - intros a. rewrite promoted_running. specialize (Ca a). case_decide as Ha; [subst a|lia].
    apply selection_eligible in Hsel as [_ He]. unfold waiter_is_eligible, address_has_capacity in He.
    rewrite Hw in He. bool_lia.
  - cbn in *. unfold saturating_sub in *. lia.
Qed.

Lemma promoted_eligible c g id w i :
  waiters g !! id = Some w → eligible (promoted g id w) (max_per_address c) i →
  eligible g (max_per_address c) i ∧
  ∀ wi, waiters g !! i = Some wi → w_address wi = w_address w →
    address_running g (w_address w) + 1 < max_per_address c.
Proof.
  intros Hw [Hk He]. unfold waiter_is_eligible, address_has_capacity in He.
  change (waiters (promoted g id w)) with (<[id := admit_waiter w]> (waiters g)) in *.
  destruct (decide (id = i)) as [<-|Hne]; [rewrite queue_key_insert in Hk; by destruct Hk|].
  rewrite queue_key_insert_ne in Hk by done. rewrite lookup_insert_ne in He by done.
  destruct (waiters g !! i) as [wi|] eqn:Hi; [|done].
  rewrite promoted_running in He. split.
  - split; [done|]. unfold waiter_is_eligible, address_has_capacity. rewrite Hi.
    apply Z.ltb_lt. case_decide; bool_lia.
  - intros ? ? Heq. simplify_eq. rewrite decide_True in He by done. rewrite Heq in He. bool_lia.
Qed.

(** One promotion restores work conservation when the free slot is the last one, or when only
    waiters of one saturated address could use it. *)
Lemma promote_restores c g ps now a :
  config_ok c → queue_ok g → accounting g ps → caps c g →
  (max_total c ≤ global_running g + 1 ∨
   ∀ i w, eligible g (max_per_address c) i → waiters g !! i = Some w →
     w_address w = a ∧ max_per_address c ≤ address_running g a + 1) →
  ∃ g' wk, try_promote c g now = Ok (g', wk) ∧
    queue_ok g' ∧ accounting g' ps ∧ caps c g' ∧ conserving c g' ∧ dom (waiters g') = dom (waiters g).
Proof.
  intros (_ & _ & Hmq) Hq Hacc Hcaps Hslot.
  destruct (try_promote_rule c g now Hq) as (g' & wk & Hp & Hr). exists g', wk. split; [done|].
  destruct Hr as [(-> & _ & Hno)|(id & w & Hcap & Hsel & Hw & Ha & -> & _)].
  - split_and!; try done. intros Hc i Hi. specialize (Hno Hc i).
    destruct (waiter_is_eligible _ _ _) eqn:E; [|done]. by destruct Hno.
  - split_and!.
    + by apply promoted_queue_ok.
    + by apply promoted_accounting.
    + eapply promoted_caps; [done..| |done]. left. cbn. unfold saturating_sub.
      destruct Hq as [_ _ _ _ ->]. pose proof (len_nonneg (fifo g)). lia.
    + intros Hc i Hi. destruct (waiter_is_eligible _ _ _) eqn:E; [|done]. exfalso.
      destruct (promoted_eligible c g id w i Hw) as [Hel Hlt]; [by split|].
      apply Z.ltb_lt in Hc. cbn in Hc. destruct Hslot as [?|Hslot]; [lia|].
      destruct (Hslot id w) as [Hwa Hfull]; [by eapply selection_eligible|done|].
      destruct (eligible_lookup _ _ _ Hel) as (wi & Hwi & _).
      destruct (Hslot i wi Hel Hwi) as [Hwia _]. specialize (Hlt wi Hwi).
      rewrite Hwa, Hwia in Hlt. specialize (Hlt eq_refl). lia.
    + change (waiters (promoted g id w)) with (<[id := admit_waiter w]> (waiters g)).
      apply dom_insert_lookup_L. by eexists.
Qed.

Lemma wake_ready_same c g :
  ∃ l, (wake_ready_waiters c g).1 = set_ready_waiters g l.
Proof.
  unfold wake_ready_waiters. destruct (negb _); [|destruct (ready_waiters g) eqn:E].
  - exists (ready_waiters g). by destruct g.
  - exists (ready_waiters g). by destruct g.
  - by eexists.
Qed.

(** Giving back the slot of [a]: shared by dropping a permit and by cancelling a waiter that
    was admitted but had not polled. *)
Lemma release_restores c g0 ps0 g ps now a :
  config_ok c → queue_ok g → accounting g0 ps0 → caps c g0 → conserving c g0 →
  held g0 ps0 ≡ₚ a :: held g ps →
  global_running g = global_running g0 → running g = running g0 → queued g = queued g0 →
  (∀ i w, waiters g !! i = Some w → waiters g0 !! i = Some w) →
  ∃ g' wks, release c g now a = Ok (g', wks) ∧
    queue_ok g' ∧ accounting g' ps ∧ caps c g' ∧ conserving c g' ∧ dom (waiters g') = dom (waiters g).
Proof.
  intros Hcfg Hq Hacc [Ct Ca Cq] Hcons Hheld Hgr Hrun Hqd Hsub.
  destruct (accounting_drop g0 ps0 a g ps) as (Hacc' & Htot & Hadr); [done..|].
  set (g1 := drop_address_running g a) in *.
  assert (Hfields : waiters g1 = waiters g ∧ ordered g1 = ordered g ∧ fifo g1 = fifo g ∧ queued g1 = queued g)
    by (unfold g1, drop_address_running; by destruct (running g !! a)).
  destruct Hfields as (Fw & Fo & Ff & Fq).
  destruct (wake_ready_same c g1) as [l Hwake]. unfold release. fold g1.
  destruct (wake_ready_waiters c g1) as [g2 rd]. simpl in Hwake. subst g2. simpl.
  destruct (promote_restores c (set_ready_waiters g1 l) ps now a) as (g' & wk & -> & ? & ? & ? & ? & Hdom).
  - done.
  - destruct Hq. constructor; cbn; rewrite ?Fw, ?Fo, ?Ff, ?Fq; done.
  - eapply accounting_Permutation, Hacc'; done.
  - constructor; cbn [set_ready_waiters global_running queued].
    + lia.
    + intros b. change (address_running g1 b ≤ max_per_address c).
      specialize (Ca b). rewrite Hadr. case_decide; lia.
    + by rewrite Fq, Hqd.
  - cbn [set_ready_waiters global_running]. destruct (has_global_capacity c (global_running g0)) eqn:Hc0.
    + right. intros i w [Hk He] Hw. cbn in Hk, Hw. rewrite Fw in Hk, Hw.
      unfold waiter_is_eligible, address_has_capacity in He. cbn in He. rewrite Fw, Hw in He.
      change (address_running (set_ready_waiters g1 l)) with (address_running g1) in *.
      apply queue_key_Some in Hk as (w' & Hw' & Hadm). rewrite Hw in Hw'. injection Hw' as <-.
      specialize (Hcons Hc0 i). unfold waiter_is_eligible, address_has_capacity in Hcons.
      rewrite (Hsub _ _ Hw) in Hcons. rewrite Hadr in He |- *.
      assert (max_per_address c ≤ address_running g0 (w_address w)) as Hfull.
      { apply Z.ltb_ge, Hcons, queue_key_Some. eauto. }
      destruct (decide (a = w_address w)) as [->|Hne]; [|bool_lia].
      rewrite decide_True by done. split; [done|lia].
    + left. apply Z.ltb_ge in Hc0. lia.
  - eexists _, _. split; [done|]. split_and!; try done. rewrite Hdom. cbn. by rewrite Fw.
Qed.

(** ** Each action keeps the invariant *)

Lemma try_promote_idle c g now : queue_ok g → conserving c g → try_promote c g now = Ok (g, None).
Proof.
  intros Hq Hc. destruct (try_promote_rule c g now Hq) as (g' & wk & -> & [(-> & -> & _)|Hr]); [done|].
  destruct Hr as (id & w & Hcap & Hsel & _). apply selection_eligible in Hsel as [Hk He].
  by rewrite (Hc Hcap id Hk) in He.
Qed.

Lemma conserving_not_blocked c g p :
  queue_ok g → conserving c g → has_global_capacity c (global_running g) = true →
  queue_blocks_priority g p (max_per_address c) = false.
Proof.
  intros Hq Hc Hcap. unfold queue_blocks_priority. apply not_true_iff_false. rewrite existsb_exists.
  intros ([[u q] i] & Hin & Hb). apply andb_true_iff in Hb as [_ He].
  apply list_elem_of_In, q_ordered in Hin; [|done]. rewrite (Hc Hcap i) in He; [done|by eexists].
Qed.

(** The state a request is queued in. *)
Definition enqueued (g : GlobalState) (waker : Waker) (now : Instant) (id : nat) (a : Address)
    (p : RequestPriority) : GlobalState :=
  enqueue_waiter
    (set_waiters (set_next_seq g (u64_wrapping_add (next_seq g) 1))
       (<[id := mkWaiter (Some waker) a p (next_seq g) now false]> (waiters g)))
    (urgency p) (next_seq g) id.

Definition can_run (c : RequestScheduler) (g : GlobalState) (a : Address) : bool :=
  has_global_capacity c (global_running g) && has_address_capacity c (address_running g a).

Lemma enqueued_queue_ok g waker now id a p :
  queue_ok g → waiters g !! id = None → queue_ok (enqueued g waker now id a p).
Proof.
  intros [] Hid.
  apply (queue_ok_enqueue (set_next_seq g (u64_wrapping_add (next_seq g) 1))
           (mkWaiter (Some waker) a p (next_seq g) now false) id); [by constructor|done|done].
Qed.

Lemma enqueued_conserving c g waker now id a p :
  conserving c g → can_run c g a = false → conserving c (enqueued g waker now id a p).
Proof.
  intros Hc Hcan Hcap i Hi. unfold can_run in Hcan. cbn in Hcap. rewrite Hcap in Hcan.
  unfold waiter_is_eligible. cbn [enqueued enqueue_waiter set_queue set_waiters waiters] in *.
  destruct (decide (id = i)) as [<-|Hne]; [by rewrite lookup_insert_eq|].
  rewrite lookup_insert_ne by done. rewrite queue_key_insert_ne in Hi by done. by apply (Hc Hcap).
Qed.

Lemma poll_acquire_new c g waker now fresh a p :
  queue_ok g → conserving c g → waiters g !! fresh = None →
  poll_acquire c g waker now fresh a p None =
    if can_run c g a then Ok (bump_address_running g a, None, Ready (inr (mkPermit a)), [])
    else if max_queued c <=? queued g
    then Ok (g, None, Ready (inl (capacity "request admission queue is full")), [])
    else Ok (enqueued g waker now fresh a p, Some fresh, Pending, []).
Proof.
  intros Hq Hc Hf. unfold poll_acquire. fold (can_run c g a). destruct (can_run c g a) eqn:Hcan.
  - rewrite conserving_not_blocked; [done..|]. by apply andb_true_iff in Hcan as [? _].
  - cbn [andb]. destruct (_ <=? _); [done|].
    change (enqueue_waiter _ (urgency p) (next_seq g) fresh) with (enqueued g waker now fresh a p).
    rewrite try_promote_idle by (by apply enqueued_queue_ok || by apply enqueued_conserving).
    cbn [obind]. cbn [enqueued enqueue_waiter set_queue set_waiters waiters].
    by rewrite lookup_insert_eq.
Qed.

Lemma bump_inv c g ps gs a :
  inv c (mkSystem g ps gs) → can_run c g a = true →
  inv c (mkSystem (bump_address_running g a) (a :: ps) gs).
Proof.
  intros [Hq Hacc [Ct Ca Cq] Hc Hg] Hcan; simpl in *.
  apply andb_true_iff in Hcan as [H1 H2]. apply Z.ltb_lt in H1, H2.
  assert (Hrun : ∀ b, address_running (bump_address_running g a) b =
                      address_running g b + (if decide (a = b) then 1 else 0)).
  { intros b. unfold address_running, bump_address_running; cbn -[lookup insert].
    destruct (decide (a = b)) as [<-|?]; [by rewrite lookup_insert_eq|].
    rewrite lookup_insert_ne by done. lia. }
  constructor; cbn [sys_state sys_permits sys_guards].
  - destruct Hq. by constructor.
  - by apply (accounting_bump g ps).
  - constructor; [cbn; lia| |done]. intros b. rewrite Hrun. specialize (Ca b). case_decide; subst; lia.
  - intros Hcap i Hi. apply Z.ltb_lt in Hcap. cbn in Hcap, Hi.
    assert (waiter_is_eligible g i (max_per_address c) = false) as He.
    { apply Hc; [|done]. apply Z.ltb_lt. lia. }
    unfold waiter_is_eligible, address_has_capacity in *. cbn [waiters bump_address_running set_running].
    destruct (waiters g !! i); [|done]. rewrite Hrun. apply Z.ltb_ge in He. apply Z.ltb_ge. case_decide; lia.
  - done.
Qed.

Lemma enqueued_inv c g ps gs waker now id a p :
  inv c (mkSystem g ps gs) → waiters g !! id = None → can_run c g a = false →
  queued g < max_queued c →
  inv c (mkSystem (enqueued g waker now id a p) ps ({[id]} ∪ gs)).
Proof.
  intros [Hq Hacc [Ct Ca Cq] Hc Hg] Hid Hcan Hlt; simpl in *. constructor; cbn [sys_state sys_permits sys_guards].
  - by apply enqueued_queue_ok.
  - eapply accounting_Permutation, Hacc; [|done|done]. unfold held.
    cbn [enqueued enqueue_waiter set_queue set_waiters waiters]. by rewrite admitted_insert.
  - constructor; cbn; [done|done|lia].
  - by apply enqueued_conserving.
  - cbn [enqueued enqueue_waiter set_queue set_waiters waiters]. by rewrite dom_insert_L, Hg.
Qed.

(** Changing waiters without touching the queue. *)
Lemma set_waiters_inv c g ps gs ws ps' gs' :
  inv c (mkSystem g ps gs) →
  (∀ i, queue_key ws i = queue_key (waiters g) i) →
  (∀ i w', ws !! i = Some w' → ∃ w, waiters g !! i = Some w ∧ w_address w = w_address w') →
  held g ps ≡ₚ ps' ++ admitted_addresses ws → dom ws = gs' →
  inv c (mkSystem (set_waiters g ws) ps' gs').
Proof.
  intros [Hq Hacc [Ct Ca Cq] Hc Hg] Hk Haddr Hheld <-; simpl in *. constructor; cbn [sys_state sys_permits sys_guards].
  - by apply queue_ok_waiters.
  - by eapply accounting_Permutation, Hacc.
  - by constructor.
  - intros Hcap i Hi. cbn in Hi, Hcap. rewrite Hk in Hi. specialize (Hc Hcap i Hi).
    unfold waiter_is_eligible in *. cbn [set_waiters waiters].
    destruct (ws !! i) as [w'|] eqn:E; [|done]. destruct (Haddr i w' E) as (w & Hw & <-). by rewrite Hw in Hc.
  - done.
Qed.

(** A repoll hands over the slot of an admitted waiter, or replaces the waker of one still queued. *)
Lemma repoll_inv c g ps gs waker now fresh a p id :
  inv c (mkSystem g ps gs) → id ∈ gs →
  ∃ g' id' r wks, poll_acquire c g waker now fresh a p (Some id) = Ok (g', id', r, wks) ∧
    inv c (mkSystem g' (granted r ++ ps) (match id' with Some _ => gs | None => gs ∖ {[id]} end)).
Proof.
  intros Hinv Hid. pose proof (inv_guards _ _ Hinv) as Hg. simpl in Hg.
  rewrite <-Hg in Hid. apply elem_of_dom in Hid as [w Hw].
  unfold poll_acquire. rewrite Hw. destruct (w_admitted w) eqn:Ha; eexists _, _, _, _; (split; [done|]).
  - cbn [granted app permit_address]. eapply set_waiters_inv; [done| | | |].
    + intros i. destruct (decide (id = i)) as [<-|?]; [|by rewrite queue_key_delete_ne].
      rewrite queue_key_delete. unfold queue_key. rewrite Hw. simpl. by rewrite Ha.
    + intros i w' Hi. apply lookup_delete_Some in Hi as [_ Hi]. eauto.
    + unfold held. rewrite (admitted_delete _ id w Hw), Ha. simpl. by rewrite <-Permutation_middle.
    + by rewrite dom_delete_L, Hg.
  - cbn [granted app]. set (w' := mkWaiter _ _ _ _ _ _). eapply set_waiters_inv; [done| | | |].
    + intros i. destruct (decide (id = i)) as [<-|?]; [|by rewrite queue_key_insert_ne].
      rewrite queue_key_insert. unfold queue_key. rewrite Hw. simpl. by rewrite Ha.
    + intros i w'' Hi. apply lookup_insert_Some in Hi as [[<- <-]|[_ Hi]]; eauto.
    + unfold held. by rewrite (admitted_replace _ id w).
    + by rewrite dom_insert_lookup_L.
Qed.

Lemma cancel_inv c g ps gs now id :
  config_ok c → inv c (mkSystem g ps gs) → id ∈ gs →
  ∃ g' wks, cancel_waiter c g now id = Ok (g', wks) ∧ inv c (mkSystem g' ps (gs ∖ {[id]})).
Proof.
  intros Hcfg [Hq Hacc Hcaps Hc Hg] Hid; simpl in *. rewrite <-Hg in Hid. apply elem_of_dom in Hid as [w Hw].
  unfold cancel_waiter. rewrite Hw. destruct (w_admitted w) eqn:Ha.
  - change (∃ g' wks, release c (set_waiters g (delete id (waiters g))) now (w_address w) = Ok (g', wks) ∧
              inv c (mkSystem g' ps (gs ∖ {[id]}))).
    destruct (release_restores c g ps (set_waiters g (delete id (waiters g))) ps now (w_address w))
      as (g' & wks & -> & ? & ? & ? & ? & Hdom); try done.
    + apply queue_ok_waiters; [|done]. intros i. destruct (decide (id = i)) as [<-|?];
        [|by rewrite queue_key_delete_ne].
      rewrite queue_key_delete. unfold queue_key. rewrite Hw. simpl. by rewrite Ha.
    + unfold held. cbn [set_waiters waiters]. rewrite (admitted_delete _ id w Hw), Ha.
      simpl. by rewrite <-Permutation_middle.
    + intros i w' Hi. by apply (lookup_delete_Some (waiters g)) in Hi as [_ Hi].
    + eexists _, _. split; [done|]. constructor; try done. simpl. rewrite Hdom. cbn.
      by rewrite dom_delete_L, Hg.
  - eexists _, _. split; [done|].
    assert (Hq' : queue_ok (set_waiters (dequeue_waiter g (urgency (w_priority w)) (w_seq w) id) (delete id (waiters g)))).
    { apply queue_ok_dequeue; [done| |apply queue_key_delete|].
      - unfold queue_key. rewrite Hw. simpl. by rewrite Ha.
      - intros j Hj. by rewrite queue_key_delete_ne. }
    constructor; cbn [sys_state sys_permits sys_guards].
    + destruct Hq'. by constructor.
    + eapply accounting_Permutation, Hacc; [|done|done]. unfold held.
      cbn [dequeue_waiter set_queue set_waiters waiters]. by rewrite (admitted_delete _ id w Hw), Ha.
    + destruct Hcaps. constructor; cbn; [done|done|]. unfold saturating_sub.
      destruct Hcfg as (_ & _ & ?). lia.
    + intros Hcap i Hi. cbn in Hcap, Hi. unfold waiter_is_eligible. cbn [dequeue_waiter set_queue set_waiters waiters].
      destruct (decide (id = i)) as [<-|?]; [by rewrite lookup_delete_eq|].
      rewrite queue_key_delete_ne in Hi by done. rewrite lookup_delete_ne by done. by apply (Hc Hcap).
    + cbn. by rewrite dom_delete_L, Hg.
Qed.

Lemma exec_inv c s act :
  config_ok c → inv c s → enabled s act → ∃ s', exec c s act = Ok s' ∧ inv c s'.
Proof.
  intros Hcfg Hinv Hen. destruct s as [g ps gs].
  destruct act as [waker now fresh a p|waker now id a p|now id|now a|waker]; cbn [exec enabled sys_state] in *.
  - rewrite poll_acquire_new by (done || by destruct Hinv).
    destruct (can_run c g a) eqn:Hcan; [eexists; split; [done|by apply bump_inv]|].
    destruct (Z.leb_spec (max_queued c) (queued g)); eexists; (split; [done|]); [done|by apply enqueued_inv].
  - destruct (repoll_inv c g ps gs waker now 0%nat a p id) as (g' & id' & r & wks & -> & ?); [done..|].
    by eexists.
  - destruct (cancel_inv c g ps gs now id) as (g' & wks & -> & ?); [done..|]. by eexists.
  - destruct Hinv as [Hq Hacc Hcaps Hc Hg]; simpl in *.
    destruct (release_restores c g ps g (remove_first a ps) now a)
      as (g' & wks & -> & ? & ? & ? & ? & Hdom); try done.
    { unfold held. rewrite (remove_first_Permutation a ps) at 1 by done. done. }
    eexists. split; [done|]. constructor; try done. simpl. by rewrite Hdom.
  - eexists. split; [done|]. unfold poll_ready. destruct (has_global_capacity _ _); [done|].
    destruct (existsb _ _); [done|]. destruct Hinv as [Hq Hacc Hcaps Hc Hg]. simpl in *.
    destruct Hq, Hacc, Hcaps. constructor; [by constructor|by constructor|by constructor|exact Hc|done].
Qed.

Lemma initial_inv c : config_ok c → inv c initial.
Proof.
  intros (? & ? & ?). constructor; cbn.
  - constructor; cbn; [constructor|intros; split; [set_solver|done]|constructor|intros; split; [set_solver|by intros []]|done].
  - constructor; [done|]. intros a. apply lookup_empty.
  - constructor; cbn; [done| |done]. intros a. unfold address_running. cbn. by rewrite lookup_empty.
  - intros _ i [? ?]. done.
  - apply dom_empty_L.
Qed.

Lemma reachable_inv c s : config_ok c → reachable c s → inv c s.
Proof.
  intros Hcfg. induction 1 as [|s act s' _ IH Hen Hex]; [by apply initial_inv|].
  destruct (exec_inv c s act) as (s'' & Hex' & ?); [done..|]. rewrite Hex in Hex'. by simplify_eq.
Qed.

(** ** What a release does *)

Lemma drop_fields g a :
  waiters (drop_address_running g a) = waiters g ∧ ordered (drop_address_running g a) = ordered g ∧
  fifo (drop_address_running g a) = fifo g ∧ queued (drop_address_running g a) = queued g.
Proof. unfold drop_address_running. by destruct (running g !! a). Qed.

(** Who gets a freed slot: nobody when no queued request could run in it, otherwise the request the
    selection rule names, whose waker is woken. *)
Definition hands_over (c : RequestScheduler) (g g1 g' : GlobalState) (now : Instant) (wks : list Waker) : Prop :=
  (waiters g' = waiters g ∧
   (has_global_capacity c (global_running g1) = true → ∀ i, ¬ eligible g1 (max_per_address c) i)) ∨
  (∃ id w, has_global_capacity c (global_running g1) = true ∧
     selection_rule g1 (max_per_address c) now (Some id) ∧
     waiters g !! id = Some w ∧ w_admitted w = false ∧
     waiters g' = <[id := admit_waiter w]> (waiters g) ∧ ∀ wk, w_waker w = Some wk → wk ∈ wks).

Lemma release_effect c g now a :
  queue_ok g →
  ∃ g' wks, release c g now a = Ok (g', wks) ∧ hands_over c g (drop_address_running g a) g' now wks.
Proof.
  intros Hq. unfold release, hands_over. destruct (drop_fields g a) as (Fw & Fo & Ff & Fq).
  set (g1 := drop_address_running g a) in *. destruct (wake_ready_same c g1) as [l Hwake].
  destruct (wake_ready_waiters c g1) as [g2 rd]. simpl in Hwake. subst g2. simpl.
  destruct (try_promote_rule c (set_ready_waiters g1 l) now) as (g' & wk & -> & Hr).
  { destruct Hq. constructor; cbn; rewrite ?Fw, ?Fo, ?Ff, ?Fq; done. }
  eexists _, _. split; [done|]. destruct Hr as [(-> & _ & Hno)|(id & w & ? & ? & Hw & ? & -> & ->)].
  - left. by split.
  - right. exists id, w. cbn in Hw. rewrite Fw in Hw. split_and!; try done.
    + cbn. by rewrite Fw.
    + intros wk ->. set_solver.
Qed.

(** Requests in the queue always have a waker to wake. *)
Definition wakers_ok (ws : gmap nat Waiter) : Prop :=
  map_Forall (λ _ w, w_admitted w = false → is_Some (w_waker w)) ws.

Lemma hands_over_wakers c g g1 g' now wks :
  hands_over c g g1 g' now wks → wakers_ok (waiters g) → wakers_ok (waiters g').
Proof.
  intros [[-> _]|(id & w & _ & _ & _ & _ & -> & _)] H; [done|]. by apply map_Forall_insert_2.
Qed.

Lemma exec_wakers c s act s' :
  inv c s → enabled s act → exec c s act = Ok s' →
  wakers_ok (waiters (sys_state s)) → wakers_ok (waiters (sys_state s')).
Proof.
  intros Hinv Hen Hex Hwk. destruct s as [g ps gs]. pose proof (inv_queue _ _ Hinv) as Hq.
  destruct act as [waker now fresh a p|waker now id a p|now id|now a|waker]; cbn [exec enabled sys_state] in *.
  - rewrite poll_acquire_new in Hex by (done || by destruct Hinv).
    destruct (can_run c g a); [by simplify_eq/=|]. destruct (_ <=? _); simplify_eq/=; [done|].
    apply map_Forall_insert_2; [by eexists|done].
  - unfold poll_acquire in Hex. destruct (waiters g !! id) as [w|] eqn:Hw; [|by simplify_eq/=].
    destruct (w_admitted w); simplify_eq/=; [by apply map_Forall_delete|].
    apply map_Forall_insert_2; [by eexists|done].
  - unfold cancel_waiter in Hex. destruct (waiters g !! id) as [w|] eqn:Hw; [|by simplify_eq/=].
    destruct (w_admitted w) eqn:Ha; [|simplify_eq/=; by apply map_Forall_delete].
    set (gd := set_waiters g (delete id (waiters g))) in *.
    assert (queue_ok gd) as Hqd.
    { apply queue_ok_waiters; [|done]. intros i. destruct (decide (id = i)) as [<-|?];
        [|by rewrite queue_key_delete_ne].
      rewrite queue_key_delete. unfold queue_key. rewrite Hw. simpl. by rewrite Ha. }
    destruct (release_effect c gd now (w_address w) Hqd) as (g' & wks & Hr & Hh).
    apply obind_Ok in Hex as ([g'' wks'] & Hr' & ?). simplify_eq/=. fold (release c gd now (w_address w)) in Hr'.
    rewrite Hr in Hr'. simplify_eq. eapply hands_over_wakers; [done|]. by apply map_Forall_delete.
  - destruct (release_effect c g now a Hq) as (g' & wks & Hr & Hh). rewrite Hr in Hex. simplify_eq/=.
    by eapply hands_over_wakers.
  - simplify_eq/=. unfold poll_ready. by repeat case_match.
Qed.

Lemma reachable_wakers c s : config_ok c → reachable c s → wakers_ok (waiters (sys_state s)).
Proof.
  intros Hcfg. induction 1 as [|s act s' Hr IH Hen Hex]; [apply map_Forall_empty|].
  eapply exec_wakers; [by apply reachable_inv|done..].
Qed.

(** ** Theorems *)

(** A plain http origin on a one-letter host, for the examples. *)
Definition origin_a : Address :=
  mkAddress Scheme_Http (mkAuthorityKey "a" 80) None None Http1OrHttp2 Dns_System.

(** One slot, one queued request: the first request runs, the second waits as waiter 0. *)
Definition example_config : RequestScheduler := mkScheduler 1 1 4.

Definition example_system : System :=
  mkSystem
    (enqueued (bump_address_running scheduler_new origin_a) 2%nat 10 0%nat origin_a (mkPriority 3))
    [origin_a] {[ 0%nat ]}.

Lemma example_config_ok : config_ok example_config.
Proof. by vm_compute. Qed.

Lemma example_reachable : reachable example_config example_system.
Proof.
  eapply (reach_step _ (mkSystem (bump_address_running scheduler_new origin_a) [origin_a] ∅)
            (Acquire 2%nat 10 0%nat origin_a (mkPriority 3))).
  - eapply (reach_step _ initial (Acquire 1%nat 5 0%nat origin_a (mkPriority 3)));
      [constructor|reflexivity|vm_compute; reflexivity].
  - reflexivity.
  - vm_compute; reflexivity.
Qed.

(** C4.  In every reachable state the slots in use (permits handed out and waiters admitted that have not
    polled again) never exceed the global limit, those of one address never exceed the per-address
    limit and the queue never exceeds its bound; the counters equal those numbers exactly, so no
    slot is leaked or counted twice across errors, cancellations and drops. *)
Theorem scheduler_limits (c : RequestScheduler) (s : System) :
  config_ok c → reachable c s →
  let g := sys_state s in
  let slots := held g (sys_permits s) in
  len slots ≤ max_total c ∧ global_running g = len slots ∧
  (∀ a, count a slots ≤ max_per_address c ∧ address_running g a = count a slots ∧
        (is_Some (running g !! a) ↔ 0 < count a slots)) ∧
  len (fifo g) ≤ max_queued c ∧ queued g = len (fifo g).
Proof.
  intros Hcfg Hr. destruct (reachable_inv c s Hcfg Hr) as [Hq Hacc [Ct Ca Cq] _ _]. simpl.
  pose proof (q_len _ Hq) as Hl. pose proof (acc_total _ _ Hacc) as Ht.
  split_and!; [by rewrite <-Ht|done| |by rewrite <-Hl|done]. intros a.
  pose proof (accounting_running _ _ a Hacc) as Ha. specialize (Ca a). rewrite Ha in Ca.
  split_and!; [done|done|]. rewrite (acc_address _ _ Hacc).
  pose proof (count_nonneg a (held (sys_state s) (sys_permits s))).
  destruct (Z.eqb_spec (count a (held (sys_state s) (sys_permits s))) 0); split; [by intros []|lia|lia|by eexists].
Qed.

Lemma scheduler_limits_witness :
  len (held (sys_state example_system) (sys_permits example_system)) ≤ 1.
Proof. apply (scheduler_limits example_config example_system example_config_ok example_reachable). Defined.

(** C14.  No reachable state leaves a slot idle that a queued request could use: if a request is waiting,
    the global limit is reached or its own address is at its limit.  With positive limits some
    slot is then in use, whose release will promote a waiter: requests never wait on nothing. *)
Theorem scheduler_work_conserving (c : RequestScheduler) (s : System) (i : nat) (w : Waiter) :
  config_ok c → reachable c s →
  waiters (sys_state s) !! i = Some w → w_admitted w = false →
  let slots := held (sys_state s) (sys_permits s) in
  (len slots = max_total c ∨ count (w_address w) slots = max_per_address c) ∧
  (0 < max_total c → 0 < max_per_address c → slots ≠ []).
Proof.
  intros Hcfg Hr Hw Ha. destruct (reachable_inv c s Hcfg Hr) as [Hq Hacc [Ct Ca Cq] Hc _]. simpl.
  pose proof (acc_total _ _ Hacc) as Ht. pose proof (accounting_running _ _ (w_address w) Hacc) as Hrun.
  specialize (Ca (w_address w)).
  assert (len (held (sys_state s) (sys_permits s)) = max_total c ∨
          count (w_address w) (held (sys_state s) (sys_permits s)) = max_per_address c) as H.
  { destruct (has_global_capacity c (global_running (sys_state s))) eqn:Hcap.
    - right. specialize (Hc Hcap i). unfold waiter_is_eligible, address_has_capacity in Hc. rewrite Hw in Hc.
      assert (address_running (sys_state s) (w_address w) <? max_per_address c = false)
        by (apply Hc, queue_key_Some; eauto). bool_lia.
    - left. apply Z.ltb_ge in Hcap. lia. }
  split; [done|]. intros ? ? Hnil. rewrite Hnil in H.
  change (0 = max_total c ∨ 0 = max_per_address c) in H. lia.
Qed.

Lemma scheduler_work_conserving_witness :
  len (held (sys_state example_system) (sys_permits example_system)) = 1 ∨
  count origin_a (held (sys_state example_system) (sys_permits example_system)) = 1.
Proof.
  apply (scheduler_work_conserving example_config example_system 0%nat
           (mkWaiter (Some 2%nat) origin_a (mkPriority 3) 0 10 false));
    [exact example_config_ok|exact example_reachable|reflexivity|reflexivity].
Defined.

(** Every action a client can take in a reachable state completes: no operation of the scheduler
    indexes a vacant slab entry or otherwise panics. *)
Theorem scheduler_never_panics (c : RequestScheduler) (s : System) (act : Action) :
  config_ok c → reachable c s → enabled s act → ∃ s', exec c s act = Ok s'.
Proof.
  intros Hcfg Hr Hen. destruct (exec_inv c s act) as (s' & ? & _); [done|by apply reachable_inv|done|].
  by exists s'.
Qed.

Lemma scheduler_never_panics_witness :
  ∃ s', exec example_config example_system (DropPermit 20 origin_a) = Ok s'.
Proof.
  apply scheduler_never_panics; [exact example_config_ok|exact example_reachable|].
  apply list_elem_of_In. left. reflexivity.
Defined.

(** A first poll of [acquire] in a reachable state admits the request at once exactly when both limits
    leave room (requests already queued never hold it back), fails with a capacity error exactly when
    they do not and the queue is full, and otherwise queues it, changing nothing else. *)
Theorem acquire_decision (c : RequestScheduler) (s : System) (waker : Waker) (now : Instant) (fresh : nat)
    (a : Address) (p : RequestPriority) :
  config_ok c → reachable c s → waiters (sys_state s) !! fresh = None →
  let g := sys_state s in
  let slots := held g (sys_permits s) in
  let room := (len slots <? max_total c) && (count a slots <? max_per_address c) in
  ∃ g' id r, poll_acquire c g waker now fresh a p None = Ok (g', id, r, []) ∧
    r = (if room then Ready (inr (mkPermit a))
         else if max_queued c <=? len (fifo g) then Ready (inl (capacity "request admission queue is full"))
         else Pending) ∧
    id = (if room then None else if max_queued c <=? len (fifo g) then None else Some fresh) ∧
    waiters g' = (if bool_decide (id = Some fresh)
                  then <[fresh := mkWaiter (Some waker) a p (next_seq g) now false]> (waiters g)
                  else waiters g) ∧
    held g' (granted r ++ sys_permits s) ≡ₚ granted r ++ slots.
Proof.
  intros Hcfg Hr Hf. destruct (reachable_inv c s Hcfg Hr) as [Hq Hacc _ Hc _]. cbv zeta.
  rewrite poll_acquire_new by done. unfold can_run, has_global_capacity, has_address_capacity.
  rewrite (accounting_running _ _ a Hacc), (acc_total _ _ Hacc), (q_len _ Hq).
  destruct (_ && _); [|destruct (_ <=? _)]; eexists _, _, _; (split; [done|]);
    rewrite ?bool_decide_eq_true_2, ?bool_decide_eq_false_2 by done; split_and!; try done.
  cbn [granted app]. unfold held. cbn [enqueued enqueue_waiter set_queue set_waiters waiters].
  by rewrite admitted_insert.
Qed.

Lemma acquire_decision_witness :
  ∃ g' id r, poll_acquire example_config (sys_state example_system) 7%nat 30 1%nat origin_a (mkPriority 0) None
             = Ok (g', id, r, []) ∧ r = Pending.
Proof.
  destruct (acquire_decision example_config example_system 7%nat 30 1%nat origin_a (mkPriority 0)
              example_config_ok example_reachable) as (g' & id & r & H & Hr & _); [reflexivity|].
  exists g', id, r. split; [exact H|]. rewrite Hr. reflexivity.
Defined.

(** Dropping a permit in a reachable state hands its slot to the queued request the selection rule
    names, among those whose address has room: the most urgent, first-come one, unless the
    longest-queued one has waited 250 ms or is less urgent and eight high-urgency requests were
    promoted in a row, in which case the longest-queued one.  The request's task is woken.  Nobody
    is promoted only when no queued request could run. *)
Theorem release_promotes (c : RequestScheduler) (s : System) (now : Instant) (a : Address) :
  config_ok c → reachable c s → a ∈ sys_permits s →
  let g := sys_state s in
  let g1 := drop_address_running g a in
  ∃ g' wks, release c g now a = Ok (g', wks) ∧
    ((waiters g' = waiters g ∧ ∀ i, ¬ eligible g1 (max_per_address c) i) ∨
     ∃ id w wk, selection_rule g1 (max_per_address c) now (Some id) ∧
       waiters g !! id = Some w ∧ w_waker w = Some wk ∧ wk ∈ wks ∧
       waiters g' = <[id := admit_waiter w]> (waiters g)).
Proof.
  intros Hcfg Hr Ha. pose proof (reachable_inv c s Hcfg Hr) as [Hq Hacc Hcaps _ _].
  pose proof (reachable_wakers c s Hcfg Hr) as Hwk.
  destruct (release_effect c (sys_state s) now a Hq) as (g' & wks & Hrel & Hh). simpl.
  exists g', wks. split; [done|].
  destruct (accounting_drop (sys_state s) (sys_permits s) a (sys_state s) (remove_first a (sys_permits s)))
    as (_ & Htot & _); [done| |done|done|].
  { unfold held. by rewrite (remove_first_Permutation a (sys_permits s)) at 1. }
  assert (has_global_capacity c (global_running (drop_address_running (sys_state s) a)) = true) as Hcap.
  { apply Z.ltb_lt. destruct Hcaps. lia. }
  destruct Hh as [[? Hno]|(id & w & _ & ? & Hw & Hadm & ? & Hin)]; [left; by auto|right].
  destruct (Hwk id w Hw Hadm) as [wk Hk]. exists id, w, wk. split_and!; try done. by apply Hin.
Qed.

Lemma release_promotes_witness :
  ∃ g' wks, release example_config (sys_state example_system) 20 origin_a = Ok (g', wks) ∧ wks = [2%nat].
Proof.
  destruct (release_promotes example_config example_system 20 origin_a
              example_config_ok example_reachable) as (g' & wks & H & _).
  - apply list_elem_of_In. left. reflexivity.
  - exists g', wks. split; [exact H|].
    assert (match release example_config (sys_state example_system) 20 origin_a with
            | Ok (_, l) => l = [2%nat] | _ => False end) as Hw by (vm_compute; reflexivity).
    rewrite H in Hw. exact Hw.
Defined.

(** ** The admission of requests *)

(** [RequestAdmissionPermit], with no scheduler when nothing is limited, and [Drop], openwire/connection/scheduler.rs:366-372. *)
Definition drop_permit (c : RequestScheduler) (g : GlobalState) (now : Instant) (p : option Permit) : may_panic (GlobalState * list Waker) :=
  match p with Some p => release c g now (permit_address p) | None => Ok (g, []) end.
(** [Drop for WaiterGuard], openwire/connection/scheduler.rs:374-380, when the future of [acquire] goes. *)
Definition drop_guard (c : RequestScheduler) (g : GlobalState) (now : Instant) (id : option nat) : may_panic (GlobalState * list Waker) :=
  match id with Some id => cancel_waiter c g now id | None => Ok (g, []) end.

(** One poll of [RequestAdmissionLimiter::acquire], openwire/connection/limits.rs:111-120. *)
Definition admission_poll (limiter : option RequestScheduler) (g : GlobalState) (waker : Waker) (now : Instant) (fresh : nat)
    (a : Address) (p : RequestPriority) (id : option nat)
    : may_panic (GlobalState * option nat * poll (WireError + option Permit) * list Waker) :=
  match limiter with
  | None => Ok (g, id, Ready (inr None), [])
  | Some c =>
    let? (g, id, r, woken) := poll_acquire c g waker now fresh a p id in
    Ok (g, id, match r with Ready (inr permit) => Ready (inr (Some permit)) | Ready (inl e) => Ready (inl e) | Pending => Pending end, woken)
  end.
(** [RequestAdmissionLimiter::poll_ready], openwire/connection/limits.rs:122-127. *)
Definition admission_poll_ready (limiter : option RequestScheduler) (g : GlobalState) (waker : Waker) : GlobalState * poll (WireError + unit) :=
  match limiter with
  | None => (g, Ready (inr tt))
  | Some c => let '(g, r) := poll_ready c g waker in (g, match r with Ready _ => Ready (inr tt) | Pending => Pending end)
  end.

(** Dropping a permit undoes its admission: the slots are those before it. *)
Lemma admission_undone g a :
  (∀ n, running g !! a = Some n → 0 < n) → 0 ≤ global_running g →
  let g' := drop_address_running (bump_address_running g a) a in
  running g' = running g ∧ global_running g' = global_running g.
Proof.
  intros Hpos Hg. unfold drop_address_running, bump_address_running, address_running, saturating_sub. cbn.
  rewrite lookup_insert_eq. cbn. split; [|lia].
  destruct (running g !! a) as [n|] eqn:E; cbn.
  - specialize (Hpos n eq_refl). destruct (Z.eqb_spec (Z.max 0 (n + 1 - 1)) 0); [lia|].
    rewrite ?insert_insert_eq. apply insert_id. rewrite E. f_equal. lia.
  - by rewrite delete_insert_id.
Qed.

(** Without limits every request is admitted at once, at no cost, and the permit gives nothing back. *)
Lemma admission_unlimited c g waker now fresh a p id now' :
  admission_poll None g waker now fresh a p id = Ok (g, id, Ready (inr None), []) ∧ drop_permit c g now' None = Ok (g, []) ∧
  admission_poll_ready None g waker = (g, Ready (inr tt)).
Proof. done. Qed.
