(* ===== verification/RealConnection.v ===== *)
(** * Connections

    openwire/src/connection/real_connection.rs: the shared record of one transport
    connection and the operations that allocate exchanges on it.  A [RealConnection] is
    a reference to a mutex-guarded record; here each operation is a function of that
    record, and Pool.v keeps the records in a store indexed by [ConnectionId].  The
    connection permit, which is only released with the last reference, is not part of
    the record. *)

From S2P Require Import Prelude Net Planning.

Abbreviation ConnectionId := nat (only parsing).

(** [ConnectionProtocol], openwire/connection/real_connection.rs:12-16. *)
Inductive ConnectionProtocol : Type := Http1 | Http2.

(** [ConnectionHealth], openwire/connection/real_connection.rs:18-23. *)
Inductive ConnectionHealth : Type := Healthy | Unhealthy | Closed.

(** [ConnectionAllocationState], openwire/connection/real_connection.rs:25-30. *)
Inductive ConnectionAllocationState : Type :=
| Allocation_Idle
| Allocation_InUse (allocations : Z)
| Allocation_Closed.

#[global] Instance ConnectionProtocol_eq_dec : EqDecision ConnectionProtocol.
Proof. solve_decision. Defined.
#[global] Instance ConnectionHealth_eq_dec : EqDecision ConnectionHealth.
Proof. solve_decision. Defined.
#[global] Instance ConnectionAllocationState_eq_dec : EqDecision ConnectionAllocationState.
Proof. solve_decision. Defined.

(** [RealConnectionState], openwire/connection/real_connection.rs:60-66. *)
Record RealConnectionState : Type := mkConnState {
  health : ConnectionHealth;
  allocations : Z;
  idle_since : option Instant;
  completed_exchanges : Z;
}.

(** [RealConnectionInner], openwire/connection/real_connection.rs:47-58; the coalescing
    information is its list of verified server names. *)
Record RealConnection : Type := mkConn {
  conn_route : Route;
  protocol : ConnectionProtocol;
  verified_server_names : list string;
  max_http2_streams : Z;
  created_at : Instant;
  conn_state : RealConnectionState;
}.

(** [address], openwire/connection/real_connection.rs:139-141: the route's, cloned at
    construction. *)
Definition conn_address (c : RealConnection) : Address := route_address (conn_route c).

Definition with_state (c : RealConnection) (s : RealConnectionState) : RealConnection :=
  mkConn (conn_route c) (protocol c) (verified_server_names c) (max_http2_streams c) (created_at c) s.

(** [with_id_permit_coalescing_and_stream_cap],
    openwire/connection/real_connection.rs:103-129. *)
Definition connection_new (now : Instant) (r : Route) (p : ConnectionProtocol) (names : list string)
    (streams : Z) : RealConnection :=
  mkConn r p names (Z.max streams 1) now (mkConnState Healthy 0 (Some now) 0).

(** [allocation_state], openwire/connection/real_connection.rs:243-253. *)
Definition allocation_state (s : RealConnectionState) : ConnectionAllocationState :=
  if bool_decide (health s = Closed) then Allocation_Closed
  else if allocations s =? 0 then Allocation_Idle
  else Allocation_InUse (allocations s).

(** [can_acquire_with], openwire/connection/real_connection.rs:183-196. *)
Definition can_acquire (c : RealConnection) : bool :=
  if negb (bool_decide (health (conn_state c) = Healthy)) then false else
  match protocol c with
  | Http1 => negb (0 <? allocations (conn_state c))
  | Http2 => negb (max_http2_streams c <=? allocations (conn_state c))
  end.

(** [try_acquire], openwire/connection/real_connection.rs:172-181. *)
Definition try_acquire (c : RealConnection) : bool * RealConnection :=
  if negb (can_acquire c) then (false, c) else
  let s := conn_state c in
  (true, with_state c (mkConnState (health s) (allocations s + 1) None (completed_exchanges s))).

(** [release], openwire/connection/real_connection.rs:198-210. *)
Definition conn_release (now : Instant) (c : RealConnection) : bool * RealConnection :=
  let s := conn_state c in
  if bool_decide (health s = Closed) || (allocations s =? 0) then (false, c) else
  let n := allocations s - 1 in
  (true, with_state c (mkConnState (health s) n
           (if n =? 0 then Some now else idle_since s) (u64_wrapping_add (completed_exchanges s) 1))).

(** [mark_unhealthy], openwire/connection/real_connection.rs:212-217. *)
Definition mark_unhealthy (c : RealConnection) : RealConnection :=
  let s := conn_state c in
  if bool_decide (health s = Closed) then c
  else with_state c (mkConnState Unhealthy (allocations s) (idle_since s) (completed_exchanges s)).

(** [is_healthy], openwire/connection/real_connection.rs:219-222. *)
Definition is_healthy (c : RealConnection) : bool := bool_decide (health (conn_state c) = Healthy).

(** [close], openwire/connection/real_connection.rs:224-229. *)
Definition close (c : RealConnection) : RealConnection :=
  with_state c (mkConnState Closed 0 None (completed_exchanges (conn_state c))).

(** [is_closed], openwire/connection/real_connection.rs:231-234. *)
Definition is_closed (c : RealConnection) : bool := bool_decide (health (conn_state c) = Closed).

(** ** Invariant *)

(** How many exchanges the protocol lets a connection carry at once. *)
Definition stream_limit (c : RealConnection) : Z :=
  match protocol c with Http1 => 1 | Http2 => max_http2_streams c end.

(** The idle timestamp is set exactly while the connection is open and carries nothing; a closed
    connection carries nothing; the exchanges in flight respect the protocol's limit. *)
Record conn_ok (c : RealConnection) : Prop := mkConnOk {
  ok_streams : 1 ≤ max_http2_streams c;
  ok_allocations : 0 ≤ allocations (conn_state c) ≤ stream_limit c;
  ok_closed : health (conn_state c) = Closed → allocations (conn_state c) = 0;
  ok_idle : is_Some (idle_since (conn_state c)) ↔
            health (conn_state c) ≠ Closed ∧ allocations (conn_state c) = 0;
}.

Definition idle (c : RealConnection) : Prop := allocation_state (conn_state c) = Allocation_Idle.
Definition in_use (c : RealConnection) : Prop :=
  allocation_state (conn_state c) = Allocation_InUse (allocations (conn_state c)).

Lemma connection_new_ok now r p names streams : conn_ok (connection_new now r p names streams).
Proof.
  constructor; cbn; [lia| |done|split; [done|by eexists]].
  unfold stream_limit; destruct p; cbn; lia.
Qed.

Lemma can_acquire_iff c :
  conn_ok c →
  can_acquire c = true ↔ health (conn_state c) = Healthy ∧ allocations (conn_state c) < stream_limit c.
Proof.
  intros [_ Ha _ _]. unfold can_acquire, stream_limit in *. case_bool_decide; simpl; [|naive_solver].
  destruct (protocol c); rewrite negb_true_iff; [rewrite Z.ltb_ge|rewrite Z.leb_gt]; intuition lia.
Qed.

Lemma try_acquire_ok c : conn_ok c → conn_ok (try_acquire c).2.
Proof.
  intros Hok. unfold try_acquire. destruct (can_acquire c) eqn:Hc; [|done].
  apply can_acquire_iff in Hc as [Hh Hl]; [|done]. destruct Hok as [? ? ? ?].
  constructor; cbn; [done| |congruence|split; [by intros []|intros [_ ?]; lia]].
  unfold stream_limit in *; cbn; lia.
Qed.

Lemma conn_release_ok now c : conn_ok c → conn_ok (conn_release now c).2.
Proof.
  intros Hok. pose proof Hok as [? ? Hcl Hid]. unfold conn_release.
  case_bool_decide as Hh; [done|]. simpl. destruct (Z.eqb_spec (allocations (conn_state c)) 0); [done|].
  constructor; cbn; [done| |done|].
  - unfold stream_limit in *; cbn; lia.
  - destruct (Z.eqb_spec (allocations (conn_state c) - 1) 0); [split; [done|by eexists]|].
    rewrite Hid. split; intros []; lia.
Qed.

Lemma mark_unhealthy_ok c : conn_ok c → conn_ok (mark_unhealthy c).
Proof.
  intros Hok. pose proof Hok as [? ? Hcl Hid]. unfold mark_unhealthy. case_bool_decide as Hh; [done|].
  constructor; cbn; [done|done|done|]. rewrite Hid. by split; intros [].
Qed.

Lemma close_ok c : conn_ok c → conn_ok (close c).
Proof.
  intros [? ? _ _]. constructor; cbn; [done| |done|split; [by intros []|by intros []]].
  unfold stream_limit in *; cbn; destruct (protocol c); lia.
Qed.

#[export] Hint Resolve connection_new_ok try_acquire_ok conn_release_ok mark_unhealthy_ok close_ok : ow.

Lemma idle_iff c : idle c ↔ health (conn_state c) ≠ Closed ∧ allocations (conn_state c) = 0.
Proof.
  unfold idle, allocation_state. case_bool_decide; [naive_solver|].
  destruct (Z.eqb_spec (allocations (conn_state c)) 0); naive_solver.
Qed.

Lemma in_use_iff c : in_use c ↔ health (conn_state c) ≠ Closed ∧ allocations (conn_state c) ≠ 0.
Proof.
  unfold in_use, allocation_state. case_bool_decide; [naive_solver|].
  destruct (Z.eqb_spec (allocations (conn_state c)) 0); naive_solver.
Qed.

#[export] Instance idle_dec c : Decision (idle c).
Proof. unfold idle. apply _. Defined.
#[export] Instance in_use_dec c : Decision (in_use c).
Proof. unfold in_use. apply _. Defined.

(** ** Histories *)

(** What may happen to a connection, in any order, from any task. *)
Inductive ConnOp : Type :=
| Op_TryAcquire
| Op_Release (now : Instant)
| Op_MarkUnhealthy
| Op_Close.

(** One operation: the connection after it, and the exchanges it started and finished. *)
Definition conn_step (c : RealConnection) (op : ConnOp) : RealConnection * Z * Z :=
  match op with
  | Op_TryAcquire => let (ok, c) := try_acquire c in (c, if ok then 1 else 0, 0)
  | Op_Release now => let (ok, c) := conn_release now c in (c, 0, if ok then 1 else 0)
  | Op_MarkUnhealthy => (mark_unhealthy c, 0, 0)
  | Op_Close => (close c, 0, 0)
  end.

Fixpoint conn_run (c : RealConnection) (ops : list ConnOp) : RealConnection * Z * Z :=
  match ops with
  | [] => (c, 0, 0)
  | op :: ops =>
    let '(c, started, finished) := conn_step c op in
    let '(c, started', finished') := conn_run c ops in
    (c, started + started', finished + finished')
  end.

Definition health_rank (h : ConnectionHealth) : Z :=
  match h with Healthy => 0 | Unhealthy => 1 | Closed => 2 end.

Lemma conn_step_facts c op :
  conn_ok c →
  let '(c', started, finished) := conn_step c op in
  conn_ok c' ∧ stream_limit c' = stream_limit c ∧
  health_rank (health (conn_state c)) ≤ health_rank (health (conn_state c')) ∧
  (started = 1 → health (conn_state c) = Healthy) ∧
  (health (conn_state c') ≠ Closed →
   allocations (conn_state c') = allocations (conn_state c) + started - finished).
Proof.
  intros Hok. destruct op as [|now| |]; cbn [conn_step].
  - pose proof (try_acquire_ok c Hok) as Hok'. unfold try_acquire in *.
    destruct (can_acquire c) eqn:Hc; simpl in *; split_and!; try done; intros; try lia.
    by apply can_acquire_iff in Hc as [? _].
  - pose proof (conn_release_ok now c Hok) as Hok'. unfold conn_release in *.
    destruct (_ || _); simpl in *; split_and!; try done; intros; lia.
  - pose proof (mark_unhealthy_ok c Hok) as Hok'. unfold mark_unhealthy in *.
    destruct (bool_decide _) eqn:E; simpl in *; split_and!; try done; intros; try lia.
    apply bool_decide_eq_false in E. by destruct (health (conn_state c)).
  - pose proof (close_ok c Hok). simpl. split_and!; try done. by destruct (health (conn_state c)).
Qed.

Lemma conn_run_facts c ops :
  conn_ok c →
  let '(c', started, finished) := conn_run c ops in
  conn_ok c' ∧ stream_limit c' = stream_limit c ∧
  health_rank (health (conn_state c)) ≤ health_rank (health (conn_state c')) ∧
  (health (conn_state c') ≠ Closed →
   allocations (conn_state c') = allocations (conn_state c) + started - finished).
Proof.
  revert c; induction ops as [|op ops IH]; intros c Hok; cbn [conn_run]; [split_and!; try done; lia|].
  pose proof (conn_step_facts c op Hok) as Hs. destruct (conn_step c op) as [[c1 s1] f1].
  destruct Hs as (Hok1 & Hl1 & Hh1 & _ & Ha1). specialize (IH c1 Hok1).
  destruct (conn_run c1 ops) as [[c2 s2] f2]. destruct IH as (Hok2 & Hl2 & Hh2 & Ha2).
  split_and!; [done|congruence|lia|]. intros Hc.
  rewrite Ha2 by done. rewrite Ha1; [lia|]. intros E. rewrite E in Hh2.
  by destruct (health (conn_state c2)).
Qed.

(** However a new connection's operations interleave, it never carries more exchanges at once than
    its protocol allows - one on HTTP/1, the stream budget (at least one) on HTTP/2 - and while it is
    not closed exactly the exchanges started and not yet finished are in flight; it is idle, with an
    idle timestamp, exactly when open with none in flight; its health only ever degrades, and
    nothing can be started on it once it is unhealthy or closed. *)
Theorem connection_history (now : Instant) (r : Route) (p : ConnectionProtocol) (names : list string)
    (streams : Z) (ops : list ConnOp) :
  let '(c, started, finished) := conn_run (connection_new now r p names streams) ops in
  let s := conn_state c in
  0 ≤ allocations s ≤ (match p with Http1 => 1 | Http2 => Z.max streams 1 end) ∧
  (health s ≠ Closed → allocations s = started - finished) ∧
  (health s = Closed → allocations s = 0) ∧
  (is_Some (idle_since s) ↔ idle c) ∧
  ∀ op, let '(c', started', _) := conn_step c op in
    health_rank (health s) ≤ health_rank (health (conn_state c')) ∧
    (started' = 1 → health s = Healthy).
Proof.
  pose proof (conn_run_facts (connection_new now r p names streams) ops (connection_new_ok _ _ _ _ _)) as H.
  destruct (conn_run _ _) as [[c st] fi]. destruct H as ([? Hal Hcl Hid] & Hlim & _ & Hcount). simpl.
  rewrite Hlim in Hal. split_and!; [apply Hal| |done|done|by rewrite idle_iff|].
  - transitivity (stream_limit (connection_new now r p names streams)); [apply Hal|].
    by unfold stream_limit; destruct p.
  - intros op. pose proof (conn_step_facts c op) as Hs. destruct (conn_step c op) as [[c' s'] f'].
    destruct Hs as (_ & _ & ? & ? & _); [by constructor; try rewrite Hlim|done].
Qed.
