(* ===== verification/Pool.v ===== *)
(** * The connection pool

    openwire/src/connection/pool.rs: connections by address, an id index, an index of
    HTTP/2 connections by socket address for coalescing, and eviction.

    A [RealConnection] is a shared reference: the same connection is reachable from the
    address buckets, the coalescing index and the exchanges using it.  The model keeps
    the records in one [store] and the pool's containers hold [ConnectionId]s, so a
    change made through one alias is seen through the others.  (Ids come from a global
    counter, so an id names one connection.)  The address shards only split the pool's
    lock and are one map here; each operation is one atomic step.  Hash sets and maps
    are iterated in an order [hash_order] the theorems know only to be a permutation.
    The eviction hook is recorded as the list of ids it was called with. *)

From stdpp Require Import sorting.
From S2P Require Import Prelude Net Planning RealConnection.

(** [PoolSettings], openwire/connection/pool.rs:20-25. *)
Record PoolSettings : Type := mkPoolSettings {
  idle_timeout : option Duration;
  max_idle_per_address : Z;
  max_lifetime : option Duration;
}.

(** [PoolSettings::default], openwire/connection/pool.rs:27-35. *)
Definition pool_settings_default : PoolSettings :=
  mkPoolSettings (Some (from_secs 300)) 5 (Some (from_secs 600)).

(** [needs_reaper], openwire/connection/pool.rs:38-40. *)
Definition needs_reaper (s : PoolSettings) : bool :=
  bool_decide (is_Some (idle_timeout s)) || bool_decide (is_Some (max_lifetime s)).

(** [reaper_interval_hint], openwire/connection/pool.rs:42-49. *)
Definition reaper_interval_hint (s : PoolSettings) : Duration :=
  match idle_timeout s, max_lifetime s with
  | Some idle, Some lifetime => Z.min idle lifetime
  | Some idle, None => idle
  | None, Some lifetime => lifetime
  | None, None => from_secs 60
  end.

(** [PoolStats], openwire/connection/pool.rs:52-57. *)
Record PoolStats : Type := mkPoolStats { total : Z; stat_idle : Z; stat_in_use : Z }.

Abbreviation Store := (gmap ConnectionId RealConnection) (only parsing).

(** [ConnectionPool], openwire/connection/pool.rs:59-68, with the store of connections. *)
Record Pool : Type := mkPool {
  store : Store;
  by_address : gmap Address (list ConnectionId);
  coalesced_by_target : gmap SocketAddr (list ConnectionId);
  by_id : gmap ConnectionId Address;
  hook_installed : bool;
  hook_calls : list ConnectionId;
}.

(** [ConnectionPool::new], openwire/connection/pool.rs:76-87, over the connections that exist. *)
Definition pool_new (st : Store) : Pool := mkPool st ∅ ∅ ∅ false [].

(** [set_eviction_hook], openwire/connection/pool.rs:93-95. *)
Definition set_eviction_hook (p : Pool) : Pool :=
  mkPool (store p) (by_address p) (coalesced_by_target p) (by_id p) true (hook_calls p).

Definition set_store (p : Pool) (st : Store) : Pool :=
  mkPool st (by_address p) (coalesced_by_target p) (by_id p) (hook_installed p) (hook_calls p).
Definition set_by_address (p : Pool) (m : gmap Address (list ConnectionId)) : Pool :=
  mkPool (store p) m (coalesced_by_target p) (by_id p) (hook_installed p) (hook_calls p).
Definition set_coalesced (p : Pool) (m : gmap SocketAddr (list ConnectionId)) : Pool :=
  mkPool (store p) (by_address p) m (by_id p) (hook_installed p) (hook_calls p).
Definition set_by_id (p : Pool) (m : gmap ConnectionId Address) : Pool :=
  mkPool (store p) (by_address p) (coalesced_by_target p) m (hook_installed p) (hook_calls p).

(** A bucket that became empty is dropped from its map. *)
Definition set_bucket {K} `{Countable K} (k : K) (l : list ConnectionId) (m : gmap K (list ConnectionId))
    : gmap K (list ConnectionId) :=
  match l with [] => delete k m | _ => <[k := l]> m end.

(** ** Eviction *)

(** [idle_connection_expired], openwire/connection/pool.rs:511-517. *)
Definition idle_connection_expired (now : Instant) (c : RealConnection) (timeout : Duration) : bool :=
  bool_decide (idle c) &&
  match idle_since (conn_state c) with
  | Some t => timeout <=? elapsed now t
  | None => false
  end.

(** [connection_lifetime_expired], openwire/connection/pool.rs:519-524. *)
Definition connection_lifetime_expired (now : Instant) (c : RealConnection) (lifetime : Duration) : bool :=
  bool_decide (idle c) && (lifetime <=? elapsed now (created_at c)).

(** The verdict of the closure that [prune_connections] retains by,
    openwire/connection/pool.rs:454-488. *)
Definition must_evict (s : PoolSettings) (now : Instant) (c : RealConnection) : bool :=
  if negb (is_healthy c) then negb (bool_decide (in_use c))
  else if from_option (connection_lifetime_expired now c) false (max_lifetime s) then true
  else from_option (idle_connection_expired now c) false (idle_timeout s).

(** [retain] with the closing of what it drops. *)
Fixpoint retain (evict : RealConnection → ConnectionId → bool) (st : Store) (l : list ConnectionId)
    : Store * list ConnectionId * list ConnectionId :=
  match l with
  | [] => (st, [], [])
  | i :: l =>
    match st !! i with
    | Some c =>
      if evict c i then
        let '(st, kept, removed) := retain evict (<[i := close c]> st) l in (st, kept, i :: removed)
      else let '(st, kept, removed) := retain evict st l in (st, i :: kept, removed)
    | None => let '(st, kept, removed) := retain evict st l in (st, i :: kept, removed)
    end
  end.

(** [sort_by_key], a stable sort. *)
Fixpoint insert_by_key (x : ConnectionId * Instant) (l : list (ConnectionId * Instant)) :=
  match l with
  | [] => [x]
  | y :: l' => if x.2 <=? y.2 then x :: l else y :: insert_by_key x l'
  end.
Definition sort_by_key (l : list (ConnectionId * Instant)) : list (ConnectionId * Instant) :=
  foldr insert_by_key [] l.

Definition idle_entry (st : Store) (i : ConnectionId) : option (ConnectionId * Instant) :=
  c ← st !! i;
  if bool_decide (idle c) then pair i <$> idle_since (conn_state c) else None.

(** [enforce_max_idle_connections], openwire/connection/pool.rs:582-628. *)
Definition enforce_max_idle_connections (cap : Z) (st : Store) (l : list ConnectionId)
    : Store * list ConnectionId * list ConnectionId :=
  if cap =? USIZE_MAX then (st, l, []) else
  let idle_connections := omap (idle_entry st) l in
  if len idle_connections <=? cap then (st, l, []) else
  let evict_count := Z.to_nat (len idle_connections - cap) in
  let evicted_ids := fst <$> take evict_count (sort_by_key idle_connections) in
  retain (λ _ i, bool_decide (i ∈ evicted_ids)) st l.

(** [prune_connections], openwire/connection/pool.rs:449-496. *)
Definition prune_connections (s : PoolSettings) (now : Instant) (st : Store) (l : list ConnectionId)
    : Store * list ConnectionId * list ConnectionId :=
  let '(st, l, removed) := retain (λ c _, must_evict s now c) st l in
  let '(st, l, removed') := enforce_max_idle_connections (max_idle_per_address s) st l in
  (st, l, removed ++ removed').

(** [prune_address], openwire/connection/pool.rs:428-447. *)
Definition prune_address (s : PoolSettings) (now : Instant) (p : Pool) (a : Address)
    : Pool * list ConnectionId :=
  match by_address p !! a with
  | None => (p, [])
  | Some l =>
    let '(st, l, removed) := prune_connections s now (store p) l in
    (set_by_address (set_store p st) (set_bucket a l (by_address p)), removed)
  end.

(** ** The coalescing index *)

(** [connection_allows_h2_coalescing], openwire/connection/pool.rs:561-564. *)
Definition connection_allows_h2_coalescing (c : RealConnection) : bool :=
  bool_decide (scheme (conn_address c) = Scheme_Https) && bool_decide (proxy (conn_address c) = None).

(** [request_allows_h2_coalescing], openwire/connection/pool.rs:555-559. *)
Definition request_allows_h2_coalescing (a : Address) : bool :=
  bool_decide (scheme a = Scheme_Https) && bool_decide (proxy a = None) &&
  negb (bool_decide (protocol_policy a = Http1Only)).

(** [coalescing_index_target], openwire/connection/pool.rs:679-690. *)
Definition coalescing_index_target (c : RealConnection) : option SocketAddr :=
  if negb (bool_decide (protocol c = Http2)) || negb (connection_allows_h2_coalescing c) then None
  else match route_kind (conn_route c) with Direct target => Some target | _ => None end.

(** [remove_index_connection], openwire/connection/pool.rs:644-660. *)
Definition remove_index_connection (p : Pool) (i : ConnectionId) : Pool :=
  match store p !! i ≫= coalescing_index_target with
  | None => p
  | Some target =>
    match coalesced_by_target p !! target with
    | None => p
    | Some bucket =>
      set_coalesced p (set_bucket target (filter (λ j, j ≠ i) bucket) (coalesced_by_target p))
    end
  end.

(** [index_coalescing], openwire/connection/pool.rs:374-383. *)
Definition index_coalescing (p : Pool) (i : ConnectionId) : Pool :=
  match store p !! i ≫= coalescing_index_target with
  | None => p
  | Some target =>
    set_coalesced p (<[target := default [] (coalesced_by_target p !! target) ++ [i]]> (coalesced_by_target p))
  end.

(** [notify_evictions], openwire/connection/pool.rs:405-416. *)
Definition notify_evictions (p : Pool) (ids : list ConnectionId) : Pool :=
  if hook_installed p
  then mkPool (store p) (by_address p) (coalesced_by_target p) (by_id p) true (hook_calls p ++ ids)
  else p.

(** [finish_removals], openwire/connection/pool.rs:385-403. *)
Definition finish_removals (p : Pool) (removed : list ConnectionId) : Pool :=
  match removed with
  | [] => p
  | _ =>
    let p := set_by_id p (foldl (λ m i, delete i m) (by_id p) removed) in
    let p := foldl remove_index_connection p removed in
    notify_evictions p removed
  end.

(** ** Operations *)

(** [insert], openwire/connection/pool.rs:105-122. *)
Definition pool_insert (s : PoolSettings) (now : Instant) (p : Pool) (i : ConnectionId) : Pool :=
  match store p !! i with
  | None => p
  | Some c =>
    let a := conn_address c in
    let p := set_by_address p (<[a := default [] (by_address p !! a) ++ [i]]> (by_address p)) in
    let '(p, evicted) := prune_address s now p a in
    let p := set_by_id p (<[i := a]> (by_id p)) in
    let p := index_coalescing p i in
    finish_removals p evicted
  end.

(** [connections.iter().find(|conn| conn.try_acquire())]. *)
Fixpoint find_acquire (st : Store) (l : list ConnectionId) : Store * option ConnectionId :=
  match l with
  | [] => (st, None)
  | i :: l =>
    match st !! i with
    | None => find_acquire st l
    | Some c =>
      let (ok, c) := try_acquire c in
      if ok then (<[i := c]> st, Some i) else find_acquire st l
    end
  end.

(** [acquire], openwire/connection/pool.rs:124-134. *)
Definition acquire (s : PoolSettings) (now : Instant) (p : Pool) (a : Address)
    : Pool * option ConnectionId :=
  let '(p, removed) := prune_address s now p a in
  let '(st, result) := find_acquire (store p) (default [] (by_address p !! a)) in
  (finish_removals (set_store p st) removed, result).

(** [has_in_use_connection_unpruned], openwire/connection/pool.rs:498-509. *)
Definition has_in_use_connection_unpruned (st : Store) (l : list ConnectionId)
    (excluded_id : option ConnectionId) : bool :=
  existsb (λ i, negb (bool_decide (excluded_id = Some i)) &&
                match st !! i with Some c => bool_decide (in_use c) | None => false end) l.

(** [acquire_with_in_use_hint], openwire/connection/pool.rs:136-156. *)
Definition acquire_with_in_use_hint (s : PoolSettings) (now : Instant) (p : Pool) (a : Address)
    : Pool * option ConnectionId * bool :=
  let '(p, removed) := prune_address s now p a in
  let '(st, result, hint) :=
    match by_address p !! a with
    | Some l => let '(st, r) := find_acquire (store p) l in
                (st, r, has_in_use_connection_unpruned st l r)
    | None => (store p, None, false)
    end in
  (finish_removals (set_store p st) removed, result, hint).

(** [has_in_use_connection], openwire/connection/pool.rs:158-168. *)
Definition has_in_use_connection (s : PoolSettings) (now : Instant) (p : Pool) (a : Address) : Pool * bool :=
  let '(p, removed) := prune_address s now p a in
  let result := match by_address p !! a with
                | Some l => has_in_use_connection_unpruned (store p) l None
                | None => false
                end in
  (finish_removals p removed, result).

(** [has_acquirable_connection], openwire/connection/pool.rs:172-178. *)
Definition has_acquirable_connection (p : Pool) (a : Address) : bool :=
  match by_address p !! a with
  | Some l => existsb (λ i, match store p !! i with Some c => can_acquire c | None => false end) l
  | None => false
  end.

(** [direct_route_targets], openwire/connection/pool.rs:630-642. *)
Definition direct_route_targets (rp : RoutePlan) : list SocketAddr :=
  dedup (omap (λ r, match route_kind r with Direct t => Some t | _ => None end) (routes rp)).

(** [route_overlap], openwire/connection/pool.rs:566-580. *)
Definition route_overlap (r : Route) (rp : RoutePlan) : bool :=
  match route_kind r with
  | Direct existing_target =>
    existsb (λ r, match route_kind r with Direct t => bool_decide (t = existing_target) | _ => false end) (routes rp)
  | _ => false
  end.

(** [can_coalesce], openwire/connection/pool.rs:526-553. *)
Definition can_coalesce (c : RealConnection) (request : Address) (rp : RoutePlan) : bool :=
  if negb (bool_decide (protocol c = Http2)) || negb (request_allows_h2_coalescing request)
     || negb (connection_allows_h2_coalescing c) then false else
  let existing := conn_address c in
  if negb (bool_decide (port (authority existing) = port (authority request))) then false else
  if bool_decide (authority existing = authority request) then false else
  if negb (existsb (λ n, verified_server_name_matches n (host (authority request))) (verified_server_names c))
  then false else
  route_overlap (conn_route c) rp.

(** [prune_coalescing_bucket], openwire/connection/pool.rs:662-677. *)
Definition prune_coalescing_bucket (p : Pool) (target : SocketAddr) : Pool :=
  match coalesced_by_target p !! target with
  | None => p
  | Some bucket =>
    let keep i := match store p !! i with
                  | Some c => bool_decide (coalescing_index_target c = Some target) && negb (is_closed c)
                  | None => false
                  end in
    set_coalesced p (set_bucket target (filter (λ i, keep i = true) bucket) (coalesced_by_target p))
  end.

(** Prune several addresses, collecting what was removed. *)
Fixpoint prune_addresses (s : PoolSettings) (now : Instant) (p : Pool) (l : list Address)
    : Pool * list ConnectionId :=
  match l with
  | [] => (p, [])
  | a :: l =>
    let '(p, removed) := prune_address s now p a in
    let '(p, removed') := prune_addresses s now p l in
    (p, removed ++ removed')
  end.

(** The candidate loop of [acquire_coalesced], openwire/connection/pool.rs:212-230: the pruned
    pool, the ids seen and the candidates. *)
Fixpoint coalescing_candidates (p : Pool) (request : Address) (rp : RoutePlan) (targets : list SocketAddr)
    (seen : gset ConnectionId) : Pool * list ConnectionId :=
  match targets with
  | [] => (p, [])
  | t :: targets =>
    let p := prune_coalescing_bucket p t in
    let bucket := default [] (coalesced_by_target p !! t) in
    let fresh := filter (λ i, i ∉ seen) (dedup bucket) in
    let found := filter (λ i, from_option (λ c, can_coalesce c request rp) false (store p !! i) = true) fresh in
    let '(p, rest) := coalescing_candidates p request rp targets (seen ∪ list_to_set bucket) in
    (p, found ++ rest)
  end.

(** [acquire_coalesced], openwire/connection/pool.rs:180-235. *)
Definition acquire_coalesced (hash_order : list Address → list Address) (s : PoolSettings) (now : Instant)
    (p : Pool) (a : Address) (rp : RoutePlan) : Pool * option ConnectionId :=
  if negb (request_allows_h2_coalescing a) then (p, None) else
  let direct_targets := direct_route_targets rp in
  match direct_targets with
  | [] => (p, None)
  | _ =>
    let addresses_to_prune :=
      dedup (omap (λ i, conn_address <$> store p !! i)
               (concat ((λ t, default [] (coalesced_by_target p !! t)) <$> direct_targets))) in
    let '(p, removed) := prune_addresses s now p (hash_order addresses_to_prune) in
    let p := finish_removals p removed in
    let '(p, candidates) := coalescing_candidates p a rp direct_targets ∅ in
    let '(st, result) := find_acquire (store p) candidates in
    (set_store p st, result)
  end.

(** [release], openwire/connection/pool.rs:237-248. *)
Definition pool_release (s : PoolSettings) (now : Instant) (p : Pool) (i : ConnectionId) : Pool * bool :=
  match store p !! i with
  | None => (p, false)
  | Some c =>
    match conn_release now c with
    | (false, _) => (p, false)
    | (true, c') =>
      let p := set_store p (<[i := c']> (store p)) in
      let '(p, removed) := prune_address s now p (conn_address c') in
      (finish_removals p removed, true)
    end
  end.

(** [get_by_id], openwire/connection/pool.rs:250-270. *)
Definition get_by_id (s : PoolSettings) (now : Instant) (p : Pool) (a : Address) (i : ConnectionId)
    : Pool * option ConnectionId :=
  let '(p, removed) := prune_address s now p a in
  let result := if negb (bool_decide (by_id p !! i = Some a)) then None
                else l ← by_address p !! a; find_first (λ j, (j =? i)%nat) l in
  (finish_removals p removed, result).

(** [acquire_by_id], openwire/connection/pool.rs:272-292. *)
Definition acquire_by_id (s : PoolSettings) (now : Instant) (p : Pool) (a : Address) (i : ConnectionId)
    : Pool * option ConnectionId :=
  let '(p, removed) := prune_address s now p a in
  let '(st, result) :=
    if negb (bool_decide (by_id p !! i = Some a)) then (store p, None)
    else find_acquire (store p) (filter (λ j, j = i) (default [] (by_address p !! a))) in
  (finish_removals (set_store p st) removed, result).

(** [remove_without_hook], openwire/connection/pool.rs:306-336. *)
Definition remove_without_hook (p : Pool) (i : ConnectionId) : Pool * option ConnectionId :=
  match by_id p !! i with
  | None => (p, None)
  | Some a =>
    let p := set_by_id p (delete i (by_id p)) in
    match by_address p !! a with
    | None => (p, None)
    | Some l =>
      if bool_decide (i ∈ l) then
        let p := set_store p (alter close i (store p)) in
        let p := set_by_address p (set_bucket a (remove_first i l) (by_address p)) in
        (remove_index_connection p i, Some i)
      else (set_by_address p (set_bucket a l (by_address p)), None)
    end
  end.

(** [remove], openwire/connection/pool.rs:294-300. *)
Definition remove (p : Pool) (i : ConnectionId) : Pool * option ConnectionId :=
  match remove_without_hook p i with
  | (p, Some j) => (notify_evictions p [i], Some j)
  | (p, None) => (p, None)
  end.

(** [stats], openwire/connection/pool.rs:338-360. *)
Definition stats (s : PoolSettings) (now : Instant) (p : Pool) (a : Address) : Pool * PoolStats :=
  let '(p, removed) := prune_address s now p a in
  let stats :=
    foldl (λ acc i,
      let acc := mkPoolStats (total acc + 1) (stat_idle acc) (stat_in_use acc) in
      match (allocation_state ∘ conn_state) <$> store p !! i with
      | Some Allocation_Idle => mkPoolStats (total acc) (stat_idle acc + 1) (stat_in_use acc)
      | Some (Allocation_InUse _) => mkPoolStats (total acc) (stat_idle acc) (stat_in_use acc + 1)
      | _ => acc
      end) (mkPoolStats 0 0 0) (default [] (by_address p !! a)) in
  (finish_removals p removed, stats).

(** [prune_all], openwire/connection/pool.rs:362-372. *)
Definition prune_all (hash_order : list Address → list Address) (s : PoolSettings) (now : Instant) (p : Pool) : Pool :=
  let '(p, removed) := prune_addresses s now p (hash_order (fst <$> map_to_list (by_address p))) in
  finish_removals p removed.

(** Marking a connection unhealthy, wherever the reference is held. *)
Definition pool_mark_unhealthy (p : Pool) (i : ConnectionId) : Pool :=
  set_store p (alter mark_unhealthy i (store p)).

(** ** Retaining and sorting *)

Definition evicts (evict : RealConnection → ConnectionId → bool) (st : Store) (i : ConnectionId) : bool :=
  match st !! i with Some c => evict c i | None => false end.

(** [retain] splits a bucket by the verdict and closes what it drops; nothing else changes. *)
Lemma retain_spec evict st l :
  NoDup l →
  let '(st', kept, removed) := retain evict st l in
  kept = filter (λ i, evicts evict st i = false) l ∧
  removed = filter (λ i, evicts evict st i = true) l ∧
  ∀ j, st' !! j = if bool_decide (j ∈ removed) then close <$> st !! j else st !! j.
Proof.
  revert st; induction l as [|i l IH]; intros st; cbn [retain]; [done|].
  intros [Hi Hnd]%NoDup_cons.
  assert (Hv : evicts evict st i = match st !! i with Some c => evict c i | None => false end) by done.
  assert (Hext : ∀ c b, filter (λ j, evicts evict (<[i := close c]> st) j = b) l =
                        filter (λ j, evicts evict st j = b) l).
  { intros c b. apply filter_ext_in. intros j Hj. unfold evicts.
    by rewrite lookup_insert_ne by (intros ->; done). }
  destruct (st !! i) as [c|] eqn:Hc; [destruct (evict c i) eqn:He|].
  - rewrite filter_cons_False, filter_cons_True by congruence.
    specialize (IH (<[i := close c]> st) Hnd). destruct (retain evict _ l) as [[st' kept] removed].
    destruct IH as (-> & -> & Hst). rewrite !Hext in *.
    split_and!; [done|done|]. intros j. rewrite Hst. destruct (decide (j = i)) as [->|Hne].
    + rewrite bool_decide_eq_false_2 by (rewrite list_elem_of_filter; tauto).
      by rewrite lookup_insert_eq, bool_decide_eq_true_2, Hc by constructor.
    + rewrite lookup_insert_ne by done. erewrite bool_decide_ext; [done|]. rewrite elem_of_cons. tauto.
  - rewrite filter_cons_True, filter_cons_False by congruence. specialize (IH st Hnd).
    destruct (retain evict st l) as [[st' kept] removed]. by destruct IH as (-> & -> & Hst).
  - rewrite filter_cons_True, filter_cons_False by congruence. specialize (IH st Hnd).
    destruct (retain evict st l) as [[st' kept] removed]. by destruct IH as (-> & -> & Hst).
Qed.

Lemma insert_by_key_Permutation x l : insert_by_key x l ≡ₚ x :: l.
Proof.
  induction l as [|y l IH]; simpl; [done|]. destruct (_ <=? _); [done|]. rewrite IH. constructor.
Qed.

Lemma sort_by_key_Permutation l : sort_by_key l ≡ₚ l.
Proof. induction l as [|x l IH]; simpl; [done|]. by rewrite insert_by_key_Permutation, IH. Qed.

Definition key_le (x y : ConnectionId * Instant) : Prop := x.2 ≤ y.2.

Lemma sort_by_key_sorted l : StronglySorted key_le (sort_by_key l).
Proof.
  induction l as [|x l IH]; simpl; [constructor|].
  induction IH as [|y k Hk IHk Hy]; simpl; [repeat constructor|].
  destruct (Z.leb_spec x.2 y.2).
  - constructor; [by constructor|]. constructor; [done|].
    eapply Forall_impl; [done|]. intros z. unfold key_le. lia.
  - constructor; [done|]. rewrite insert_by_key_Permutation. constructor; [unfold key_le; lia|done].
Qed.

Lemma sorted_take_drop l n x y :
  x ∈ take n (sort_by_key l) → y ∈ drop n (sort_by_key l) → x.2 ≤ y.2.
Proof.
  intros Hx Hy. pose proof (sort_by_key_sorted l) as Hs. rewrite <-(take_drop n) in Hs.
  apply StronglySorted_app in Hs as (Hs & _ & _). by apply Hs.
Qed.

(** ** Eviction of one bucket *)

Definition idle_count (st : Store) (l : list ConnectionId) : Z := len (omap (idle_entry st) l).

Lemma idle_entry_fst st i x : idle_entry st i = Some x → x.1 = i.
Proof.
  unfold idle_entry. destruct (st !! i) as [c|]; simpl; [|done]. case_bool_decide; [|done].
  destruct (idle_since _); simpl; [|done]. by intros [= <-].
Qed.

Lemma omap_idle_ids st (l : list ConnectionId) :
  fst <$> omap (idle_entry st) l = filter (λ i, is_Some (idle_entry st i)) l.
Proof.
  induction l as [|i l IH]; [done|]. rewrite filter_cons. cbn [omap list_omap].
  destruct (idle_entry st i) as [x|] eqn:E; case_decide as Hd; try done.
  - rewrite fmap_cons, IH. f_equal. by eapply idle_entry_fst.
  - by destruct Hd.
Qed.

Lemma in_idle_list st (l : list ConnectionId) i t :
  (i, t) ∈ omap (idle_entry st) l → idle_entry st i = Some (i, t).
Proof.
  rewrite list_elem_of_omap. intros (j & _ & Hj). pose proof (idle_entry_fst _ _ _ Hj) as Hf.
  simpl in Hf. by subst.
Qed.

Lemma idle_count_filter st (l : list ConnectionId) : idle_count st l = len (filter (λ i, is_Some (idle_entry st i)) l).
Proof. unfold idle_count. rewrite <-omap_idle_ids. unfold len. by rewrite length_fmap. Qed.

(** The least recently idle connections beyond the cap go, and only they. *)
Lemma in_idle_part st l part i t :
  part ⊆ sort_by_key (omap (idle_entry st) l) → i ∈ fst <$> part → idle_entry st i = Some (i, t) → (i, t) ∈ part.
Proof.
  intros Hsub ([i' t'] & Heq & Hi)%list_elem_of_fmap Ht. simpl in Heq. subst i'.
  assert (idle_entry st i = Some (i, t')) as Hx; [|by simplify_eq].
  apply (in_idle_list st l). rewrite <-(sort_by_key_Permutation (omap _ l)). by apply Hsub.
Qed.

(** Removing a set of idle entries leaves the others. *)
Lemma idle_kept st l (removed ev rest kept : list ConnectionId) :
  kept = filter (λ i, i ∉ removed) l → (∀ i, i ∈ removed ↔ i ∈ ev) → (∀ i, i ∈ ev → i ∉ rest) →
  filter (λ i, is_Some (idle_entry st i)) l ≡ₚ ev ++ rest →
  filter (λ i, is_Some (idle_entry st i)) kept ≡ₚ rest.
Proof.
  intros -> Hin Hdisj Hperm. rewrite list_filter_filter.
  rewrite (list_filter_iff _ (λ i, i ∉ removed ∧ is_Some (idle_entry st i))) by tauto.
  rewrite <-list_filter_filter, Hperm, filter_app.
  rewrite (filter_nil_all _ ev) by (intros i Hi; rewrite Hin; tauto).
  rewrite filter_all; [done|]. intros i Hi. rewrite Hin. intros Hi'. by apply (Hdisj i).
Qed.

Lemma enforce_max_idle_spec cap st l :
  0 ≤ cap → NoDup l →
  let '(st', kept, removed) := enforce_max_idle_connections cap st l in
  kept = filter (λ i, i ∉ removed) l ∧ NoDup removed ∧
  (∀ i, i ∈ removed → i ∈ l ∧ is_Some (idle_entry st i)) ∧
  (∀ j, st' !! j = if bool_decide (j ∈ removed) then close <$> st !! j else st !! j) ∧
  (cap ≠ USIZE_MAX → idle_count st kept ≤ cap) ∧ (removed ≠ [] → idle_count st kept = cap) ∧
  (∀ i j t u, i ∈ removed → j ∈ kept → idle_entry st i = Some (i, t) → idle_entry st j = Some (j, u) → t ≤ u).
Proof.
  intros Hcap Hnd. unfold enforce_max_idle_connections.
  assert (Hnone : let '(st', kept, removed) := (st, l, @nil nat) in
    kept = filter (λ i, i ∉ removed) l ∧ NoDup removed ∧
    (∀ i, i ∈ removed → i ∈ l ∧ is_Some (idle_entry st i)) ∧
    (∀ j, st' !! j = if bool_decide (j ∈ removed) then close <$> st !! j else st !! j)).
  { split_and!; [|constructor|set_solver|done]. rewrite filter_all; [done|set_solver]. }
  destruct (Z.eqb_spec cap USIZE_MAX); [cbn in *; destruct_and!; split_and!; try done; set_solver|].
  destruct (Z.leb_spec (len (omap (idle_entry st) l)) cap);
    [cbn in *; destruct_and!; split_and!; try done; set_solver|]. clear Hnone.
  set (L := omap (idle_entry st) l) in *. set (k := Z.to_nat (len L - cap)).
  set (ev := fst <$> take k (sort_by_key L)).
  pose proof (retain_spec (λ _ i, bool_decide (i ∈ ev)) st l Hnd) as Hr.
  destruct (retain _ st l) as [[st' kept] removed]. destruct Hr as (Hk & Hrm & Hst).
  assert (Hperm : filter (λ i, is_Some (idle_entry st i)) l ≡ₚ ev ++ (fst <$> drop k (sort_by_key L))).
  { unfold ev. rewrite <-fmap_app, take_drop, <-omap_idle_ids. by rewrite sort_by_key_Permutation. }
  assert (Hndp : NoDup (ev ++ (fst <$> drop k (sort_by_key L)))) by (rewrite <-Hperm; by apply NoDup_filter).
  apply NoDup_app in Hndp as (Hnd1 & Hdisj & Hnd2).
  assert (Hev : ∀ i, i ∈ ev → i ∈ l ∧ is_Some (idle_entry st i)).
  { intros i Hi. assert (i ∈ filter (λ i, is_Some (idle_entry st i)) l) as Hin by (rewrite Hperm; set_solver).
    apply list_elem_of_filter in Hin. tauto. }
  assert (Hin : ∀ i, i ∈ removed ↔ i ∈ ev).
  { intros i. rewrite Hrm, list_elem_of_filter. unfold evicts. split.
    - intros [Hb _]. destruct (st !! i); [by apply bool_decide_eq_true in Hb|done].
    - intros Hi. destruct (Hev i Hi) as [? [x Hx]]. split; [|done].
      unfold idle_entry in Hx. destruct (st !! i); [by apply bool_decide_eq_true|done]. }
  assert (Hkept : kept = filter (λ i, i ∉ removed) l).
  { rewrite Hk. apply filter_ext_in. intros i Hi. rewrite Hrm, list_elem_of_filter.
    destruct (evicts _ _ _); naive_solver. }
  assert (Hidle : filter (λ i, is_Some (idle_entry st i)) kept ≡ₚ fst <$> drop k (sort_by_key L)).
  { by eapply idle_kept. }
  assert (Hcount : idle_count st kept = cap).
  { rewrite idle_count_filter, Hidle. unfold len.
    rewrite length_fmap, length_drop, (Permutation_length (sort_by_key_Permutation L)). unfold k, len in *. lia. }
  split_and!; [done| | |done|lia|done|].
  - rewrite Hrm. by apply NoDup_filter.
  - intros i Hi. apply Hev. by apply Hin.
  - intros i j t u Hi%Hin Hj Ht Hu. apply (sorted_take_drop L k (i, t) (j, u)).
    + by apply (in_idle_part st l); [apply subseteq_take| |].
    + apply (in_idle_part st l); [apply subseteq_drop| |done].
      rewrite <-Hidle, list_elem_of_filter. split; [by eexists|done].
Qed.

Lemma idle_not_in_use c : idle c → ¬ in_use c.
Proof. rewrite idle_iff, in_use_iff. intros [_ ?] [_ ?]. done. Qed.

Lemma must_evict_not_in_use s now c : must_evict s now c = true → ¬ in_use c.
Proof.
  unfold must_evict, connection_lifetime_expired, idle_connection_expired.
  destruct (is_healthy c); simpl; [|by rewrite negb_true_iff, bool_decide_eq_false].
  intros H. apply idle_not_in_use. destruct (max_lifetime s), (idle_timeout s); simpl in H;
    repeat case_match; try done;
    repeat match goal with
           | H : _ && _ = true |- _ => apply andb_true_iff in H as [H _]
           | H : bool_decide _ = true |- _ => apply bool_decide_eq_true in H
           end; done.
Qed.

Lemma idle_entry_idle st i x : idle_entry st i = Some x → ∃ c, st !! i = Some c ∧ idle c.
Proof.
  unfold idle_entry. destruct (st !! i) as [c|]; simpl; [|done]. case_bool_decide; [|done]. eauto.
Qed.

Lemma idle_count_ext st st' (l : list ConnectionId) :
  (∀ i, i ∈ l → st' !! i = st !! i) → idle_count st' l = idle_count st l.
Proof.
  intros Hl. rewrite !idle_count_filter. f_equal. apply filter_ext_in. intros i Hi.
  unfold idle_entry. by rewrite Hl.
Qed.

(** Everything the pool relies on when it prunes a bucket. *)
Record pruned (s : PoolSettings) (now : Instant) (st : Store) (l : list ConnectionId)
    (st' : Store) (kept removed : list ConnectionId) : Prop := mkPruned {
  pr_kept : kept = filter (λ i, i ∉ removed) l;
  pr_nodup : NoDup removed;
  pr_from : ∀ i, i ∈ removed → i ∈ l ∧ is_Some (st !! i);
  pr_store : ∀ j, st' !! j = if bool_decide (j ∈ removed) then close <$> st !! j else st !! j;
  pr_stale : ∀ i c, i ∈ kept → st !! i = Some c → must_evict s now c = false;
  pr_in_use : ∀ i c, i ∈ removed → st !! i = Some c → ¬ in_use c;
  pr_bound : max_idle_per_address s ≠ USIZE_MAX → idle_count st' kept ≤ max_idle_per_address s;
  pr_lru : ∀ i j c t u, i ∈ removed → st !! i = Some c → must_evict s now c = false → j ∈ kept →
    idle_entry st i = Some (i, t) → idle_entry st j = Some (j, u) →
    t ≤ u ∧ idle_count st' kept = max_idle_per_address s;
}.

Lemma prune_connections_pruned s now st l :
  0 ≤ max_idle_per_address s → NoDup l →
  let '(st', kept, removed) := prune_connections s now st l in pruned s now st l st' kept removed.
Proof.
  intros Hcap Hnd. unfold prune_connections.
  pose proof (retain_spec (λ c _, must_evict s now c) st l Hnd) as H1.
  destruct (retain _ st l) as [[st1 k1] r1]. destruct H1 as (Hk1 & Hr1 & Hst1).
  assert (Hnd1 : NoDup k1) by (rewrite Hk1; by apply NoDup_filter).
  pose proof (enforce_max_idle_spec _ st1 k1 Hcap Hnd1) as H2.
  destruct (enforce_max_idle_connections _ st1 k1) as [[st2 k2] r2].
  destruct H2 as (Hk2 & Hndr2 & Hr2 & Hst2 & Hbound & Hexact & Hlru).
  assert (Hin1 : ∀ i, i ∈ k1 ↔ i ∈ l ∧ i ∉ r1).
  { intros i. rewrite Hk1, Hr1, !list_elem_of_filter. destruct (evicts _ st i); naive_solver. }
  assert (Hsame1 : ∀ i, i ∉ r1 → st1 !! i = st !! i).
  { intros i Hi. by rewrite Hst1, bool_decide_eq_false_2. }
  assert (Hdisj : ∀ i, i ∈ r2 → i ∉ r1) by (intros i Hi; by apply Hr2 in Hi as [?%Hin1 _]; tauto).
  assert (Hev : ∀ i c, st !! i = Some c → i ∉ r1 → i ∈ l → must_evict s now c = false).
  { intros i c Hc Hi Hl. destruct (must_evict s now c) eqn:E; [|done]. destruct Hi.
    rewrite Hr1, list_elem_of_filter. unfold evicts. by rewrite Hc. }
  assert (Hk2in : ∀ i, i ∈ k2 → i ∈ l ∧ i ∉ r1 ∧ i ∉ r2).
  { intros i. rewrite Hk2, list_elem_of_filter, Hin1. tauto. }
  assert (Hcnt : idle_count st2 k2 = idle_count st1 k2).
  { apply idle_count_ext. intros i Hi. rewrite Hst2, bool_decide_eq_false_2; [done|by apply Hk2in]. }
  constructor.
  - rewrite Hk2, Hk1, list_filter_filter. apply filter_ext_in. intros i Hi.
    rewrite elem_of_app, Hr1, list_elem_of_filter. destruct (evicts _ st i); naive_solver.
  - apply NoDup_app. split_and!; [rewrite Hr1; by apply NoDup_filter| |done]. intros i Hi Hi2. by apply (Hdisj i).
  - intros i [Hi|Hi]%elem_of_app.
    + rewrite Hr1, list_elem_of_filter in Hi. destruct Hi as [He ?]. split; [done|].
      unfold evicts in He. by destruct (st !! i); [eexists|].
    + destruct (Hr2 i Hi) as [Hl [x Hx]]. apply Hin1 in Hl as [? Hn]. split; [done|].
      apply idle_entry_idle in Hx as (c & Hc & _). rewrite Hsame1 in Hc by done. by eexists.
  - intros j. rewrite Hst2, Hst1. pose proof (elem_of_app r1 r2 j). specialize (Hdisj j).
    repeat case_bool_decide; try done; tauto.
  - intros i c Hi Hc. destruct (Hk2in i Hi) as (? & ? & ?). by apply (Hev i).
  - intros i c [Hi|Hi]%elem_of_app Hc.
    + rewrite Hr1, list_elem_of_filter in Hi. destruct Hi as [He _]. unfold evicts in He. rewrite Hc in He.
      by eapply must_evict_not_in_use.
    + destruct (Hr2 i Hi) as [_ [x Hx]]. apply idle_entry_idle in Hx as (c' & Hc' & ?).
      rewrite Hsame1 in Hc' by (by apply Hdisj). simplify_eq. by apply idle_not_in_use.
  - intros Hne. rewrite Hcnt. by apply Hbound.
  - intros i j c t u [Hi|Hi]%elem_of_app Hc Hm Hj Ht Hu.
    + rewrite Hr1, list_elem_of_filter in Hi. destruct Hi as [He _]. unfold evicts in He. rewrite Hc in He. congruence.
    + destruct (Hk2in j Hj) as (? & ? & ?).
      split; [|rewrite Hcnt; apply Hexact; intros ->; by apply elem_of_nil in Hi].
      eapply (Hlru i j); [done|done|..]; unfold idle_entry in *; rewrite Hsame1; auto.
Qed.

(** ** The pool's invariant *)

Definition bucket (p : Pool) (a : Address) : list ConnectionId := default [] (by_address p !! a).
Definition index (p : Pool) (t : SocketAddr) : list ConnectionId := default [] (coalesced_by_target p !! t).
Definition target_of (st : Store) (i : ConnectionId) : option SocketAddr := st !! i ≫= coalescing_index_target.

(** The pool in the middle of an operation: [R] are the connections closed and taken out of their
    buckets whose ids [finish_removals] still has to drop from the two indexes. *)
Record pool_inv (R : list ConnectionId) (p : Pool) : Prop := mkPoolInv {
  pi_conn : ∀ i c, store p !! i = Some c → conn_ok c;
  pi_bucket : ∀ a l, by_address p !! a = Some l → l ≠ [] ∧ NoDup l;
  pi_live : ∀ a i, i ∈ bucket p a →
    ∃ c, store p !! i = Some c ∧ conn_address c = a ∧ health (conn_state c) ≠ Closed;
  pi_nodup : NoDup R;
  pi_removed : ∀ i, i ∈ R → ∃ c, store p !! i = Some c ∧ health (conn_state c) = Closed;
  pi_id : ∀ i a, by_id p !! i = Some a ↔
    i ∈ bucket p a ∨ (i ∈ R ∧ conn_address <$> store p !! i = Some a);
  pi_index_bucket : ∀ t l, coalesced_by_target p !! t = Some l → l ≠ [] ∧ NoDup l;
  pi_index : ∀ t i, i ∈ index p t ↔ is_Some (by_id p !! i) ∧ target_of (store p) i = Some t;
}.

(** Between operations. *)
Definition pool_ok (p : Pool) : Prop := pool_inv [] p.

Lemma set_bucket_lookup {K} `{Countable K} (k k' : K) l m :
  default [] (set_bucket k l m !! k') = if decide (k = k') then l else default [] (m !! k').
Proof.
  unfold set_bucket. destruct l; case_decide; subst.
  - by rewrite lookup_delete_eq.
  - by rewrite lookup_delete_ne.
  - by rewrite lookup_insert_eq.
  - by rewrite lookup_insert_ne.
Qed.

Lemma set_bucket_ok {K} `{Countable K} (k : K) l m :
  NoDup l → (∀ k l, m !! k = Some l → l ≠ [] ∧ NoDup l) →
  ∀ k' l', set_bucket k l m !! k' = Some l' → l' ≠ [] ∧ NoDup l'.
Proof.
  intros Hl Hm k' l'. unfold set_bucket. destruct l.
  - intros [_ ?]%lookup_delete_Some. by eapply Hm.
  - intros [[_ <-]|[_ ?]]%lookup_insert_Some; [done|by eapply Hm].
Qed.

Lemma bucket_NoDup R p a : pool_inv R p → NoDup (bucket p a).
Proof.
  intros Hp. unfold bucket. destruct (by_address p !! a) as [l|] eqn:E; [|constructor].
  by apply (pi_bucket _ _ Hp) in E as [_ ?].
Qed.

(** Updates that change only a connection's allocations, health short of closing, or timestamps. *)
Definition same_conn (c c' : RealConnection) : Prop :=
  conn_route c' = conn_route c ∧ protocol c' = protocol c ∧ conn_ok c' ∧
  (health (conn_state c') = Closed ↔ health (conn_state c) = Closed).

Definition same_store (st st' : Store) : Prop :=
  ∀ i, option_relation same_conn (λ _, False) (λ _, False) (st !! i) (st' !! i).

Lemma same_store_target st st' i : same_store st st' → target_of st' i = target_of st i.
Proof.
  intros Hs. specialize (Hs i). unfold target_of.
  destruct (st !! i) as [c|], (st' !! i) as [c'|]; simpl in *; try done.
  destruct Hs as (Hr & Hp & _).
  unfold coalescing_index_target, connection_allows_h2_coalescing, conn_address. by rewrite Hr, Hp.
Qed.

Lemma same_store_address st st' i :
  same_store st st' → conn_address <$> st' !! i = conn_address <$> st !! i.
Proof.
  intros Hs. specialize (Hs i).
  destruct (st !! i) as [c|], (st' !! i) as [c'|]; simpl in *; try done.
  destruct Hs as (Hr & _). unfold conn_address. by rewrite Hr.
Qed.

Lemma same_store_inv R p st' :
  same_store (store p) st' → pool_inv R p → pool_inv R (set_store p st').
Proof.
  intros Hs [H1 H2 H3 Hnd H4 H5 H6 H7]. constructor; cbn [set_store store by_address by_id coalesced_by_target]; try done.
  - intros i c' Hc'. specialize (Hs i). rewrite Hc' in Hs. destruct (store p !! i); [|done]. by destruct Hs as (_ & _ & ? & _).
  - intros a i Hi. destruct (H3 a i Hi) as (c & Hc & <- & Hh). specialize (Hs i). rewrite Hc in Hs.
    destruct (st' !! i) as [c'|]; [|done]. destruct Hs as (Hr & _ & _ & Hcl). exists c'.
    unfold conn_address. rewrite Hr. split_and!; [done|done|by rewrite Hcl].
  - intros i Hi. destruct (H4 i Hi) as (c & Hc & Hh). specialize (Hs i). rewrite Hc in Hs.
    destruct (st' !! i) as [c'|]; [|done]. destruct Hs as (_ & _ & _ & Hcl). exists c'. by rewrite Hcl.
  - intros i a. rewrite (same_store_address _ _ _ Hs). apply H5.
  - intros t i. rewrite (same_store_target _ _ _ Hs). apply H7.
Qed.

Lemma same_store_insert st i c c' :
  st !! i = Some c → same_conn c c' → (∀ i c, st !! i = Some c → conn_ok c) →
  same_store st (<[i := c']> st).
Proof.
  intros Hc Hs Hok j. destruct (decide (i = j)) as [<-|Hne].
  - by rewrite lookup_insert_eq, Hc.
  - rewrite lookup_insert_ne by done. destruct (st !! j) as [d|] eqn:E; [|done]. simpl.
    unfold same_conn. split_and!; try done. by apply (Hok j).
Qed.

Lemma try_acquire_same c : conn_ok c → same_conn c (try_acquire c).2.
Proof.
  intros Hok. pose proof (try_acquire_ok c Hok). unfold try_acquire in *.
  destruct (negb (can_acquire c)); done.
Qed.

Lemma conn_release_same now c : conn_ok c → same_conn c (conn_release now c).2.
Proof.
  intros Hok. pose proof (conn_release_ok now c Hok). unfold conn_release in *.
  destruct (_ || _); done.
Qed.

Lemma mark_unhealthy_same c : conn_ok c → same_conn c (mark_unhealthy c).
Proof.
  intros Hok. pose proof (mark_unhealthy_ok c Hok). unfold mark_unhealthy in *.
  by case_bool_decide.
Qed.

Lemma same_store_refl st : (∀ i c, st !! i = Some c → conn_ok c) → same_store st st.
Proof.
  intros Hok i. destruct (st !! i) as [c|] eqn:E; [|done]. simpl. unfold same_conn. split_and!; try done. by apply (Hok i).
Qed.

(** [find_acquire] takes the first connection of the list with a free stream and touches no other. *)
Lemma find_acquire_spec st l :
  match find_acquire st l with
  | (st', Some i) => ∃ pre post c, l = pre ++ i :: post ∧ st !! i = Some c ∧ can_acquire c = true ∧
      st' = <[i := (try_acquire c).2]> st ∧
      Forall (λ j, from_option can_acquire false (st !! j) = false) pre
  | (st', None) => st' = st ∧ Forall (λ j, from_option can_acquire false (st !! j) = false) l
  end.
Proof.
  induction l as [|i l IH]; cbn [find_acquire]; [done|].
  assert (Hskip : from_option can_acquire false (st !! i) = false →
    match find_acquire st l with
    | (st', Some i0) => ∃ pre post c, i :: l = pre ++ i0 :: post ∧ st !! i0 = Some c ∧ can_acquire c = true ∧
        st' = <[i0 := (try_acquire c).2]> st ∧
        Forall (λ j, from_option can_acquire false (st !! j) = false) pre
    | (st', None) => st' = st ∧ Forall (λ j, from_option can_acquire false (st !! j) = false) (i :: l)
    end).
  { intros Hi. destruct (find_acquire st l) as [st' [j|]].
    - destruct IH as (pre & post & c & -> & ? & ? & ? & ?). exists (i :: pre), post, c.
      split_and!; try done. by constructor.
    - destruct IH as [-> ?]. split; [done|]. by constructor. }
  destruct (st !! i) as [c|] eqn:Hc; [|by apply Hskip].
  destruct (try_acquire c) as [ok c'] eqn:Ht. unfold try_acquire in Ht.
  destruct (can_acquire c) eqn:Hca; simplify_eq/=; [|by apply Hskip].
  exists [], l, c. unfold try_acquire. by rewrite Hca.
Qed.

Lemma find_acquire_same st l :
  (∀ i c, st !! i = Some c → conn_ok c) → same_store st (find_acquire st l).1.
Proof.
  intros Hok. pose proof (find_acquire_spec st l) as H. destruct (find_acquire st l) as [st' [i|]]; simpl.
  - destruct H as (_ & _ & c & _ & Hc & _ & -> & _).
    apply same_store_insert with c; [done| |done]. apply try_acquire_same. by apply (Hok i).
  - destruct H as [-> _]. by apply same_store_refl.
Qed.

Lemma pruned_same_address s now st l st' kept removed i :
  pruned s now st l st' kept removed →
  conn_address <$> st' !! i = conn_address <$> st !! i ∧ target_of st' i = target_of st i.
Proof.
  intros Hp. unfold target_of. rewrite (pr_store _ _ _ _ _ _ _ Hp i).
  case_bool_decide; [|done]. by destruct (st !! i).
Qed.

(** What pruning one address does to the pool. *)
Record address_pruned (s : PoolSettings) (now : Instant) (a : Address) (p p' : Pool)
    (removed : list ConnectionId) : Prop := mkAddressPruned {
  ap_pruned : pruned s now (store p) (bucket p a) (store p') (bucket p' a) removed;
  ap_other : ∀ b, b ≠ a → bucket p' b = bucket p b;
  ap_by_id : by_id p' = by_id p;
  ap_index : coalesced_by_target p' = coalesced_by_target p;
  ap_hook : hook_installed p' = hook_installed p ∧ hook_calls p' = hook_calls p;
}.

Lemma pruned_nothing s now st : 0 ≤ max_idle_per_address s → pruned s now st [] st [] [].
Proof. intros. constructor; try done; try set_solver. constructor. Qed.

(** A pruned bucket is split into what is kept and what is removed. *)
Lemma pruned_split s now st l st' kept removed :
  pruned s now st l st' kept removed →
  (∀ i, i ∈ l ↔ i ∈ kept ∨ i ∈ removed) ∧ (∀ i, i ∈ kept → i ∉ removed).
Proof.
  intros Hpr. split; intros i; rewrite (pr_kept _ _ _ _ _ _ _ Hpr), list_elem_of_filter; [|tauto].
  pose proof (pr_from _ _ _ _ _ _ _ Hpr i). destruct (decide (i ∈ removed)); tauto.
Qed.

Lemma prune_address_effect s now R p a :
  0 ≤ max_idle_per_address s → pool_inv R p →
  let '(p', removed) := prune_address s now p a in
  address_pruned s now a p p' removed ∧ pool_inv (R ++ removed) p'.
Proof.
  intros Hcap Hp. unfold prune_address. destruct (by_address p !! a) as [l|] eqn:Hl.
  2: { rewrite app_nil_r. split; [|done]. constructor; try done. unfold bucket. rewrite Hl.
       by apply pruned_nothing. }
  assert (Hb : bucket p a = l) by (unfold bucket; by rewrite Hl).
  pose proof (bucket_NoDup _ _ a Hp) as Hnd. rewrite Hb in Hnd.
  pose proof (prune_connections_pruned s now (store p) l Hcap Hnd) as Hpr.
  destruct (prune_connections s now (store p) l) as [[st' kept] removed].
  set (p' := set_by_address (set_store p st') (set_bucket a kept (by_address p))).
  assert (Hbk : ∀ b, bucket p' b = if decide (a = b) then kept else bucket p b).
  { intros b. unfold bucket, p'. cbn [set_by_address by_address]. by rewrite set_bucket_lookup. }
  assert (Hba : bucket p' a = kept) by (by rewrite Hbk, decide_True).
  split.
  { constructor; try done; [by rewrite Hb, Hba|]. intros b Hne. by rewrite Hbk, decide_False. }
  destruct Hp as [H1 H2 H3 HndR H4 H5 H6 H7].
  destruct (pruned_split _ _ _ _ _ _ _ Hpr) as [Hkin Hkr].
  assert (Hlive : ∀ i, i ∈ l → ∃ c, store p !! i = Some c ∧ conn_address c = a ∧ health (conn_state c) ≠ Closed)
    by (intros i Hi; apply H3; by rewrite Hb).
  assert (Hrem : ∀ i, i ∈ removed → ∃ c, store p !! i = Some c ∧ conn_address c = a ∧ health (conn_state c) ≠ Closed)
    by (intros i Hi; apply Hlive, Hkin; by right).
  constructor.
  - intros i c. cbn [p' set_by_address set_store store]. rewrite (pr_store _ _ _ _ _ _ _ Hpr).
    case_bool_decide; [|apply H1]. intros (c0 & Hc0 & ->)%fmap_Some. apply close_ok. by apply (H1 i).
  - apply set_bucket_ok; [|done]. rewrite (pr_kept _ _ _ _ _ _ _ Hpr). by apply NoDup_filter.
  - intros b i. rewrite Hbk. cbn [p' set_by_address set_store store]. rewrite (pr_store _ _ _ _ _ _ _ Hpr).
    destruct (decide (a = b)) as [<-|Hne]; intros Hi.
    + rewrite bool_decide_eq_false_2 by (by apply Hkr). apply Hlive, Hkin. by left.
    + rewrite bool_decide_eq_false_2; [by apply H3|]. intros Hr.
      destruct (H3 b i Hi) as (c & Hc & Hab & _). destruct (Hrem i Hr) as (c' & Hc' & Hab' & _).
      congruence.
  - apply NoDup_app. split_and!; [done| |by apply (pr_nodup _ _ _ _ _ _ _ Hpr)].
    intros i HiR Hir. destruct (H4 i HiR) as (c & Hc & Hcl). destruct (Hrem i Hir) as (c' & Hc' & _ & ?). congruence.
  - intros i Hi. cbn [p' set_by_address set_store store]. rewrite (pr_store _ _ _ _ _ _ _ Hpr).
    case_bool_decide as Hr.
    + destruct (Hrem i Hr) as (c & -> & _). by eexists.
    + apply elem_of_app in Hi as [Hi|?]; [by apply H4|done].
  - intros i b. cbn [p' set_by_address set_store store by_id].
    destruct (pruned_same_address _ _ _ _ _ _ _ i Hpr) as [-> _].
    change (mkPool st' _ _ _ _ _) with p'. rewrite H5, Hbk, elem_of_app.
    destruct (decide (a = b)) as [<-|Hne].
    + rewrite Hb, Hkin. split; [|tauto]. intros [[?|Hr]|?]; [tauto| |tauto].
      destruct (Hrem i Hr) as (c & -> & <- & _). tauto.
    + split; [tauto|]. intros [?|[[?|Hr] Ha]]; [tauto..|].
      destruct (Hrem i Hr) as (c & Hc & Hca & _). rewrite Hc in Ha. simpl in Ha. congruence.
  - done.
  - intros t i. cbn [p' set_by_address set_store store by_id].
    destruct (pruned_same_address _ _ _ _ _ _ _ i Hpr) as [_ ->]. apply H7.
Qed.

(** ** Finishing a removal *)

Lemma delete_all_lookup {A} (m : gmap nat A) R i :
  foldl (λ m i, delete i m) m R !! i = if bool_decide (i ∈ R) then None else m !! i.
Proof.
  revert m; induction R as [|j R IH]; intros m; simpl; [done|]. rewrite IH.
  pose proof (elem_of_cons R i j). destruct (decide (j = i)) as [->|Hne].
  - rewrite lookup_delete_eq. repeat case_bool_decide; tauto.
  - rewrite lookup_delete_ne by done. repeat case_bool_decide; naive_solver.
Qed.

Lemma remove_index_fields p i :
  store (remove_index_connection p i) = store p ∧ by_address (remove_index_connection p i) = by_address p ∧
  by_id (remove_index_connection p i) = by_id p ∧
  hook_installed (remove_index_connection p i) = hook_installed p ∧
  hook_calls (remove_index_connection p i) = hook_calls p.
Proof. unfold remove_index_connection. by repeat case_match. Qed.

Definition index_wf (p : Pool) : Prop :=
  (∀ t l, coalesced_by_target p !! t = Some l → l ≠ [] ∧ NoDup l) ∧
  (∀ t i, i ∈ index p t → target_of (store p) i = Some t).

Lemma remove_index_spec p i :
  index_wf p →
  index_wf (remove_index_connection p i) ∧
  ∀ t j, j ∈ index (remove_index_connection p i) t ↔ j ∈ index p t ∧ j ≠ i.
Proof.
  intros [Hb Ht]. assert (Hno : target_of (store p) i = None ∨ (∃ t, target_of (store p) i = Some t ∧ coalesced_by_target p !! t = None) →
    ∀ t j, j ∈ index p t ↔ j ∈ index p t ∧ j ≠ i).
  { intros Hn t j. split; [|tauto]. intros Hj. split; [done|]. intros ->. pose proof (Ht t i Hj) as Hti.
    destruct Hn as [?|(t' & Ht' & Hnone)]; [congruence|]. assert (t' = t) as -> by congruence.
    unfold index in Hj. rewrite Hnone in Hj. by apply elem_of_nil in Hj. }
  unfold remove_index_connection. fold (target_of (store p) i).
  destruct (target_of (store p) i) as [t0|] eqn:E; [|split; [done|apply Hno; by left]].
  destruct (coalesced_by_target p !! t0) as [l|] eqn:El; [|split; [done|apply Hno; right; by exists t0]].
  clear Hno.
  set (p' := set_coalesced p _).
  assert (Hix : ∀ t j, j ∈ index p' t ↔ j ∈ index p t ∧ j ≠ i).
  { intros t j. unfold index, p'. cbn [set_coalesced coalesced_by_target]. rewrite set_bucket_lookup.
    destruct (decide (t0 = t)) as [<-|Hne].
    - rewrite list_elem_of_filter, El. simpl. tauto.
    - split; [|tauto]. intros Hj. split; [done|]. intros ->. pose proof (Ht t i Hj). congruence. }
  split; [|done]. split.
  - apply set_bucket_ok; [|done]. apply NoDup_filter. by apply (Hb t0).
  - intros t j. rewrite Hix. intros [Hj _]. by apply Ht.
Qed.

Lemma remove_indexes_spec p R :
  index_wf p →
  let p' := foldl remove_index_connection p R in
  index_wf p' ∧ (∀ t j, j ∈ index p' t ↔ j ∈ index p t ∧ j ∉ R) ∧
  store p' = store p ∧ by_address p' = by_address p ∧ by_id p' = by_id p ∧
  hook_installed p' = hook_installed p ∧ hook_calls p' = hook_calls p.
Proof.
  revert p; induction R as [|i R IH]; intros p Hwf; simpl; [split_and!; try done; set_solver|].
  destruct (remove_index_spec p i Hwf) as [Hwf' Hi]. destruct (remove_index_fields p i) as (F1 & F2 & F3 & F4 & F5).
  destruct (IH _ Hwf') as (? & Hix & -> & -> & -> & -> & ->). split_and!; try done.
  intros t j. rewrite Hix, Hi, not_elem_of_cons. tauto.
Qed.

(** What a completed removal leaves: the removed ids are out of both indexes, and the hook, if one is
    installed, was called once with each of them, in order. *)
Record removals_finished (p p' : Pool) (R : list ConnectionId) : Prop := mkFinished {
  rf_store : store p' = store p;
  rf_by_address : by_address p' = by_address p;
  rf_by_id : ∀ i, by_id p' !! i = if bool_decide (i ∈ R) then None else by_id p !! i;
  rf_index : ∀ t i, i ∈ index p' t ↔ i ∈ index p t ∧ i ∉ R;
  rf_hook : hook_installed p' = hook_installed p;
  rf_calls : hook_calls p' = hook_calls p ++ (if hook_installed p then R else []);
}.

Lemma finish_removals_effect R p :
  pool_inv R p → removals_finished p (finish_removals p R) R ∧ pool_ok (finish_removals p R).
Proof.
  intros Hp. unfold finish_removals. destruct R as [|i0 R0] eqn:ER.
  { split; [|done]. constructor; try done; [set_solver|]. by destruct (hook_installed p); rewrite app_nil_r. }
  rewrite <-ER in *. clear i0 R0 ER. destruct Hp as [H1 H2 H3 HndR H4 H5 H6 H7].
  set (p1 := set_by_id p _).
  assert (Hwf : index_wf p1) by (split; [done|]; intros t i Hi; by apply H7).
  destruct (remove_indexes_spec p1 R Hwf) as ([Hw1 Hw2] & Hix & F1 & F2 & F3 & F4 & F5).
  set (p2 := foldl remove_index_connection p1 R) in *.
  assert (Hn : store (notify_evictions p2 R) = store p2 ∧ by_address (notify_evictions p2 R) = by_address p2 ∧
    by_id (notify_evictions p2 R) = by_id p2 ∧ coalesced_by_target (notify_evictions p2 R) = coalesced_by_target p2 ∧
    hook_installed (notify_evictions p2 R) = hook_installed p2 ∧
    hook_calls (notify_evictions p2 R) = hook_calls p2 ++ (if hook_installed p2 then R else [])).
  { unfold notify_evictions. destruct (hook_installed p2) eqn:Eh; rewrite ?app_nil_r; by split_and!. }
  destruct Hn as (N1 & N2 & N3 & N4 & N5 & N6). set (p3 := notify_evictions p2 R) in *.
  assert (Hbk : ∀ a, bucket p3 a = bucket p a) by (intros; unfold bucket; by rewrite N2, F2).
  assert (Hid : ∀ i, by_id p3 !! i = if bool_decide (i ∈ R) then None else by_id p !! i)
    by (intros i; rewrite N3, F3; apply delete_all_lookup).
  assert (Hix3 : ∀ t i, i ∈ index p3 t ↔ i ∈ index p t ∧ i ∉ R).
  { intros t i. unfold index at 1. rewrite N4. fold (index p2 t). by rewrite Hix. }
  split; [constructor; [by rewrite N1, F1|by rewrite N2, F2|done|done|by rewrite N5, F4|by rewrite N6, F5, F4]|].
  constructor.
  - rewrite N1, F1. apply H1.
  - rewrite N2, F2. apply H2.
  - intros a i. rewrite Hbk, N1, F1. apply H3.
  - constructor.
  - intros i Hi. by apply elem_of_nil in Hi.
  - intros i a. rewrite Hid, Hbk. case_bool_decide as HiR.
    + split; [done|]. intros [Hi|[Hi _]]; [|by apply elem_of_nil in Hi].
      destruct (H3 a i Hi) as (c & Hc & _ & ?). destruct (H4 i HiR) as (c' & Hc' & ?). congruence.
    + rewrite H5. split; [intros [?|[? _]]; [by left|done]|]. intros [?|[Hi _]]; [by left|by apply elem_of_nil in Hi].
  - intros t l. rewrite N4. apply Hw1.
  - intros t i. rewrite Hix3, H7, Hid, N1, F1. case_bool_decide; [|tauto].
    split; [tauto|]. by intros [[] _].
Qed.

(** ** Every operation keeps the invariant *)

(** Prune, let the caller allocate on a connection, drop what was pruned: the shape of most operations. *)
Lemma prune_finish_ok s now p a st' :
  0 ≤ max_idle_per_address s → pool_ok p →
  let '(p1, removed) := prune_address s now p a in
  same_store (store p1) st' → pool_ok (finish_removals (set_store p1 st') removed).
Proof.
  intros Hcap Hp. pose proof (prune_address_effect s now [] p a Hcap Hp) as H.
  destruct (prune_address s now p a) as [p1 removed]. destruct H as [_ H]. intros Hs.
  by apply finish_removals_effect, same_store_inv.
Qed.

Lemma set_store_id p : set_store p (store p) = p.
Proof. by destruct p. Qed.

Lemma prune_finish_ok' s now p a :
  0 ≤ max_idle_per_address s → pool_ok p →
  let '(p1, removed) := prune_address s now p a in pool_ok (finish_removals p1 removed).
Proof.
  intros Hcap Hp. pose proof (prune_address_effect s now [] p a Hcap Hp) as H.
  destruct (prune_address s now p a) as [p1 removed]. destruct H as [_ H].
  by apply finish_removals_effect.
Qed.

Lemma prune_conn_ok s now p a :
  0 ≤ max_idle_per_address s → pool_ok p →
  ∀ i c, store (prune_address s now p a).1 !! i = Some c → conn_ok c.
Proof.
  intros Hcap Hp. pose proof (prune_address_effect s now [] p a Hcap Hp) as H.
  destruct (prune_address s now p a) as [p1 removed]. destruct H as [_ H]. apply (pi_conn _ _ H).
Qed.

Lemma acquire_ok s now p a :
  0 ≤ max_idle_per_address s → pool_ok p → pool_ok (acquire s now p a).1.
Proof.
  intros Hcap Hp. unfold acquire.
  pose proof (prune_conn_ok s now p a Hcap Hp) as Hok.
  pose proof (λ st, prune_finish_ok s now p a st Hcap Hp) as H.
  destruct (prune_address s now p a) as [p1 removed]. simpl in Hok.
  pose proof (find_acquire_same (store p1) (default [] (by_address p1 !! a)) Hok) as Hs.
  destruct (find_acquire _ _) as [st r]. by apply H.
Qed.

Lemma acquire_with_in_use_hint_ok s now p a :
  0 ≤ max_idle_per_address s → pool_ok p → pool_ok (acquire_with_in_use_hint s now p a).1.1.
Proof.
  intros Hcap Hp. unfold acquire_with_in_use_hint.
  pose proof (prune_conn_ok s now p a Hcap Hp) as Hok.
  pose proof (λ st, prune_finish_ok s now p a st Hcap Hp) as H.
  destruct (prune_address s now p a) as [p1 removed]. simpl in Hok.
  destruct (by_address p1 !! a) as [l|]; [|apply H; by apply same_store_refl].
  pose proof (find_acquire_same (store p1) l Hok) as Hs.
  destruct (find_acquire _ _) as [st r]. by apply H.
Qed.

Lemma acquire_by_id_ok s now p a i :
  0 ≤ max_idle_per_address s → pool_ok p → pool_ok (acquire_by_id s now p a i).1.
Proof.
  intros Hcap Hp. unfold acquire_by_id.
  pose proof (prune_conn_ok s now p a Hcap Hp) as Hok.
  pose proof (λ st, prune_finish_ok s now p a st Hcap Hp) as H.
  destruct (prune_address s now p a) as [p1 removed]. simpl in Hok.
  destruct (negb _); [apply H; by apply same_store_refl|].
  pose proof (find_acquire_same (store p1) (filter (λ j, j = i) (default [] (by_address p1 !! a))) Hok) as Hs.
  destruct (find_acquire _ _) as [st r]. by apply H.
Qed.

Lemma pool_update_ok p i f :
  (∀ c, conn_ok c → same_conn c (f c)) → pool_ok p → pool_ok (set_store p (alter f i (store p))).
Proof.
  intros Hf Hp. apply same_store_inv; [|done]. intros j. pose proof (pi_conn _ _ Hp) as Hok.
  destruct (decide (i = j)) as [<-|Hne].
  - rewrite lookup_alter_eq. destruct (store p !! i) as [c|] eqn:E; [|done]. simpl. by apply Hf, (Hok i).
  - rewrite lookup_alter_ne by done. by apply same_store_refl.
Qed.

Lemma release_ok s now p i :
  0 ≤ max_idle_per_address s → pool_ok p → pool_ok (pool_release s now p i).1.
Proof.
  intros Hcap Hp. unfold pool_release. destruct (store p !! i) as [c|] eqn:Hc; [|done].
  pose proof (conn_release_same now c (pi_conn _ _ Hp i c Hc)) as Hs.
  destruct (conn_release now c) as [[] c']; [|done]. simpl in Hs.
  pose proof (prune_finish_ok' s now (set_store p (<[i := c']> (store p))) (conn_address c') Hcap) as H.
  destruct (prune_address _ _ _ _) as [p1 removed]. apply H.
  apply same_store_inv; [|done]. apply same_store_insert with c; [done|done|apply (pi_conn _ _ Hp)].
Qed.

Lemma prune_addresses_inv s now R p l :
  0 ≤ max_idle_per_address s → pool_inv R p →
  let '(p', removed) := prune_addresses s now p l in pool_inv (R ++ removed) p'.
Proof.
  intros Hcap. revert R p; induction l as [|a l IH]; intros R p Hp; cbn [prune_addresses].
  { by rewrite app_nil_r. }
  pose proof (prune_address_effect s now R p a Hcap Hp) as H.
  destruct (prune_address s now p a) as [p1 r1]. destruct H as [_ H]. specialize (IH _ _ H).
  destruct (prune_addresses s now p1 l) as [p2 r2]. by rewrite app_assoc.
Qed.

Lemma prune_addresses_finish_ok s now p l :
  0 ≤ max_idle_per_address s → pool_ok p →
  let '(p', removed) := prune_addresses s now p l in pool_ok (finish_removals p' removed).
Proof.
  intros Hcap Hp. pose proof (prune_addresses_inv s now [] p l Hcap Hp) as H.
  destruct (prune_addresses s now p l) as [p' removed]. by apply finish_removals_effect.
Qed.

(** A freshly inserted connection, before its address is pruned. *)
Definition inserted (p : Pool) (i : ConnectionId) (a : Address) : Pool :=
  index_coalescing
    (set_by_id (set_by_address p (<[a := bucket p a ++ [i]]> (by_address p))) (<[i := a]> (by_id p))) i.

Lemma inserted_fields p i a :
  store (inserted p i a) = store p ∧ by_address (inserted p i a) = <[a := bucket p a ++ [i]]> (by_address p) ∧
  by_id (inserted p i a) = <[i := a]> (by_id p) ∧
  coalesced_by_target (inserted p i a) =
    match target_of (store p) i with
    | Some t => <[t := index p t ++ [i]]> (coalesced_by_target p)
    | None => coalesced_by_target p
    end.
Proof. unfold inserted, index_coalescing. cbn [set_by_id set_by_address store]. fold (target_of (store p) i). by destruct (target_of (store p) i). Qed.

Lemma inserted_ok p i c :
  pool_ok p → store p !! i = Some c → health (conn_state c) ≠ Closed → by_id p !! i = None →
  pool_ok (inserted p i (conn_address c)).
Proof.
  intros Hp Hc Hh Hid. pose proof (bucket_NoDup _ _ (conn_address c) Hp) as Hnd.
  destruct Hp as [H1 H2 H3 _ _ H5 H6 H7].
  destruct (inserted_fields p i (conn_address c)) as (F1 & F2 & F3 & F4).
  set (a := conn_address c) in *. set (p' := inserted p i a) in *.
  assert (Hnb : ∀ b, i ∉ bucket p b).
  { intros b Hb. assert (by_id p !! i = Some b) by (apply H5; by left). congruence. }
  assert (Hni : ∀ t, i ∉ index p t).
  { intros t Ht. apply H7 in Ht as [[b Hb] _]. congruence. }
  assert (Hb' : ∀ b, bucket p' b = if decide (a = b) then bucket p a ++ [i] else bucket p b).
  { intros b. unfold bucket at 1. rewrite F2. case_decide; subst; [by rewrite lookup_insert_eq|by rewrite lookup_insert_ne]. }
  constructor.
  - by rewrite F1.
  - intros b l. rewrite F2. intros [[_ <-]|[_ ?]]%lookup_insert_Some; [|by eapply H2].
    split; [by destruct (bucket p a)|]. apply NoDup_app. split_and!; [done|set_solver|apply NoDup_singleton].
  - intros b j. rewrite Hb', F1. case_decide as Hab; [|apply H3]. subst b.
    intros [?| ->%list_elem_of_singleton]%elem_of_app; [by apply H3|by exists c].
  - constructor.
  - intros j Hj. by apply elem_of_nil in Hj.
  - intros j b. rewrite Hb', F3, F1. destruct (decide (i = j)) as [<-|Hne].
    + rewrite lookup_insert_eq. case_decide as Hab.
      * subst b. split; [intros _; left; set_solver|done].
      * split; [congruence|]. intros [Hj|[Hj _]]; [by apply Hnb in Hj|by apply elem_of_nil in Hj].
    + rewrite lookup_insert_ne by done. rewrite H5. case_decide; [|done]. subst b. set_solver.
  - intros t l. rewrite F4. destruct (target_of (store p) i) as [t0|]; [|apply H6].
    intros [[_ <-]|[_ ?]]%lookup_insert_Some; [|by eapply H6]. split; [by destruct (index p t0)|].
    apply NoDup_app. split_and!; [|set_solver|apply NoDup_singleton].
    unfold index. destruct (coalesced_by_target p !! t0) as [l0|] eqn:E; [|constructor]. by apply (H6 t0).
  - intros t j. unfold index. rewrite F4, F3, F1. destruct (decide (i = j)) as [<-|Hne].
    + rewrite lookup_insert_eq. destruct (target_of (store p) i) as [t0|].
      * destruct (decide (t0 = t)) as [<-|Ht]; [rewrite lookup_insert_eq; simpl; set_solver|].
        rewrite lookup_insert_ne by done. fold (index p t). split; [by intros ?%Hni|]. intros [_ ?]. congruence.
      * fold (index p t). split; [by intros ?%Hni|by intros [_ ?]].
    + rewrite lookup_insert_ne by done. rewrite <-H7. fold (index p t).
      destruct (target_of (store p) i) as [t0|]; [|done].
      destruct (decide (t0 = t)) as [<-|Ht]; [rewrite lookup_insert_eq; simpl; set_solver|by rewrite lookup_insert_ne].
Qed.

(** Pruning the address first, as [insert] does, or last makes no difference. *)
Lemma insert_as_prune s now p i c :
  0 ≤ max_idle_per_address s → pool_ok p → store p !! i = Some c → health (conn_state c) ≠ Closed →
  by_id p !! i = None →
  pool_insert s now p i =
    let '(p1, evicted) := prune_address s now (inserted p i (conn_address c)) (conn_address c) in
    finish_removals p1 evicted.
Proof.
  intros Hcap Hp Hc Hh Hid. pose proof (inserted_ok p i c Hp Hc Hh Hid) as Hin.
  pose proof (prune_address_effect s now [] _ (conn_address c) Hcap Hin) as Heff.
  destruct (inserted_fields p i (conn_address c)) as (F1 & F2 & F3 & F4).
  unfold pool_insert. rewrite Hc. unfold prune_address in *. fold (bucket p (conn_address c)).
  rewrite F1, F2 in Heff. rewrite F1, F2. cbn [set_by_address by_address store].
  rewrite lookup_insert_eq in Heff |- *.
  destruct (prune_connections s now (store p) _) as [[st' kept] removed].
  destruct Heff as [Hap _]. f_equal.
  assert (target_of st' i = target_of (store p) i) as Ht.
  { destruct (pruned_same_address _ _ _ _ _ _ _ i (ap_pruned _ _ _ _ _ _ Hap)) as [_ Ht].
    by rewrite F1 in Ht. }
  unfold inserted, index_coalescing. cbn [set_by_address set_by_id set_store store coalesced_by_target].
  fold (target_of st' i) (target_of (store p) i). rewrite Ht. by destruct (target_of (store p) i).
Qed.

Lemma insert_ok s now p i c :
  0 ≤ max_idle_per_address s → pool_ok p → store p !! i = Some c → health (conn_state c) ≠ Closed →
  by_id p !! i = None → pool_ok (pool_insert s now p i).
Proof.
  intros Hcap Hp Hc Hh Hid. rewrite (insert_as_prune s now p i c) by done.
  pose proof (prune_finish_ok' s now _ (conn_address c) Hcap (inserted_ok p i c Hp Hc Hh Hid)) as H.
  by destruct (prune_address _ _ _ _).
Qed.

(** The state a removal leaves before the id and its index entry are dropped. *)
Definition detached (p : Pool) (i : ConnectionId) (a : Address) : Pool :=
  set_by_address (set_store p (alter close i (store p))) (set_bucket a (remove_first i (bucket p a)) (by_address p)).

Lemma detached_inv p i a : pool_ok p → by_id p !! i = Some a → pool_inv [i] (detached p i a).
Proof.
  intros Hp Hid. pose proof (bucket_NoDup _ _ a Hp) as Hnd. destruct Hp as [H1 H2 H3 _ _ H5 H6 H7].
  assert (Hi : i ∈ bucket p a) by (apply H5 in Hid as [?|[Hn _]]; [done|by apply elem_of_nil in Hn]).
  destruct (H3 a i Hi) as (c & Hc & Hca & Hcl).
  pose proof (remove_first_Permutation i _ Hi) as Hperm. set (rest := remove_first i (bucket p a)) in *.
  assert (Hin : ∀ j, j ∈ bucket p a ↔ j = i ∨ j ∈ rest) by (intros j; rewrite Hperm; apply elem_of_cons).
  rewrite Hperm in Hnd. apply NoDup_cons in Hnd as [Hir Hnd].
  assert (Hb : ∀ b, bucket (detached p i a) b = if decide (a = b) then rest else bucket p b)
    by (intros b; unfold bucket at 1; apply set_bucket_lookup).
  assert (Hst : ∀ j, store (detached p i a) !! j = if decide (j = i) then Some (close c) else store p !! j).
  { intros j. cbn [detached set_by_address set_store store]. case_decide as E; [subst j|by rewrite lookup_alter_ne].
    by rewrite lookup_alter_eq, Hc. }
  assert (Hadr : ∀ j, conn_address <$> store (detached p i a) !! j = conn_address <$> store p !! j).
  { intros j. rewrite Hst. case_decide; [subst j; by rewrite Hc|done]. }
  assert (Htg : ∀ j, target_of (store (detached p i a)) j = target_of (store p) j).
  { intros j. unfold target_of. rewrite Hst. case_decide; [subst j; by rewrite Hc|done]. }
  assert (Huniq : ∀ b, i ∈ bucket p b → b = a).
  { intros b Hib. destruct (H3 b i Hib) as (c' & Hc' & Hca' & _). congruence. }
  constructor.
  - intros j d. rewrite Hst. case_decide; [|apply H1]. intros [= <-]. apply close_ok. by apply (H1 i).
  - by apply set_bucket_ok.
  - intros b j. rewrite Hb, Hst. destruct (decide (j = i)) as [->|Hne]; case_decide as E; intros Hj.
    + done.
    + by apply Huniq in Hj.
    + subst b. apply H3, Hin. by right.
    + by apply H3.
  - apply NoDup_singleton.
  - intros j ->%list_elem_of_singleton. exists (close c). by rewrite Hst, decide_True.
  - intros j b. rewrite Hb, Hadr. change (by_id (detached p i a)) with (by_id p). rewrite H5.
    rewrite list_elem_of_singleton. case_decide as E; [subst b; rewrite Hin|].
    + split; [|naive_solver]. intros [[->|?]|[Hn _]]; [|by left|by apply elem_of_nil in Hn].
      right. rewrite Hc. simpl. by rewrite Hca.
    + split; [intros [?|[Hn _]]; [by left|by apply elem_of_nil in Hn]|].
      intros [?|[-> Ha]]; [by left|]. rewrite Hc in Ha. simpl in Ha. congruence.
  - done.
  - intros t j. rewrite Htg. apply H7.
Qed.

Lemma remove_without_hook_eq p i a :
  pool_ok p → by_id p !! i = Some a →
  remove_without_hook p i =
    (remove_index_connection (set_by_id (detached p i a) (delete i (by_id p))) i, Some i).
Proof.
  intros Hp Hid. assert (Hi : i ∈ bucket p a).
  { apply (pi_id _ _ Hp) in Hid as [?|[Hn _]]; [done|by apply elem_of_nil in Hn]. }
  unfold remove_without_hook. rewrite Hid. cbn [set_by_id by_address]. unfold detached, bucket in *.
  destruct (by_address p !! a) as [l|]; [|by apply elem_of_nil in Hi]. simpl in Hi.
  by rewrite bool_decide_eq_true_2.
Qed.

(** [remove] is the removal of one connection, finished. *)
Lemma remove_eq p i a :
  pool_ok p → by_id p !! i = Some a → remove p i = (finish_removals (detached p i a) [i], Some i).
Proof. intros Hp Hid. unfold remove. by rewrite (remove_without_hook_eq p i a). Qed.

Lemma remove_none p i : by_id p !! i = None → remove_without_hook p i = (p, None) ∧ remove p i = (p, None).
Proof. intros Hid. unfold remove, remove_without_hook. by rewrite Hid. Qed.

Lemma hook_irrelevant p b k :
  pool_ok p → pool_ok (mkPool (store p) (by_address p) (coalesced_by_target p) (by_id p) b k).
Proof. intros [H1 H2 H3 H4 H5 H6 H7]. by constructor. Qed.

Lemma remove_ok p i : pool_ok p → pool_ok (remove p i).1 ∧ pool_ok (remove_without_hook p i).1.
Proof.
  intros Hp. destruct (by_id p !! i) as [a|] eqn:Hid; [|by destruct (remove_none p i Hid) as [-> ->]].
  destruct (finish_removals_effect [i] (detached p i a)) as [_ H]; [by apply detached_inv|].
  rewrite (remove_eq p i a), (remove_without_hook_eq p i a) by done. split; [done|].
  unfold finish_removals in H. simpl in H. unfold notify_evictions in H. simpl.
  set (q := remove_index_connection _ i) in *. destruct (hook_installed q) eqn:E; [|done].
  apply (hook_irrelevant _ (hook_installed q) (hook_calls q)) in H. simpl in H. by destruct q.
Qed.

(** Between operations the coalescing index holds nothing stale. *)
Lemma prune_coalescing_idle p t : pool_ok p → prune_coalescing_bucket p t = p.
Proof.
  intros Hp. unfold prune_coalescing_bucket. destruct (coalesced_by_target p !! t) as [l|] eqn:E; [|done].
  destruct (pi_index_bucket _ _ Hp t l E) as [Hne _]. rewrite filter_all.
  - unfold set_bucket. destruct l; [done|]. rewrite insert_id by done. by destruct p.
  - intros i Hi. assert (i ∈ index p t) as Hix by (unfold index; by rewrite E).
    apply (pi_index _ _ Hp) in Hix as [[a Ha] Ht].
    apply (pi_id _ _ Hp) in Ha as [Ha|[Hn _]]; [|by apply elem_of_nil in Hn].
    destruct (pi_live _ _ Hp a i Ha) as (c & Hc & _ & Hcl). unfold target_of in Ht. rewrite Hc in Ht |- *. simpl in Ht.
    rewrite Ht, bool_decide_eq_true_2 by done. unfold is_closed. by rewrite bool_decide_eq_false_2.
Qed.

Lemma coalescing_candidates_spec p request rp targets seen :
  pool_ok p →
  ∃ found, coalescing_candidates p request rp targets seen = (p, found) ∧
    ∀ i, i ∈ found ↔ i ∉ seen ∧ (∃ t, t ∈ targets ∧ i ∈ index p t) ∧
                     from_option (λ c, can_coalesce c request rp) false (store p !! i) = true.
Proof.
  intros Hp. revert seen; induction targets as [|t targets IH]; intros seen; cbn [coalescing_candidates].
  { exists []. split; [done|]. intros i. rewrite elem_of_nil. split; [done|].
    by intros (_ & (t & Ht & _) & _); apply elem_of_nil in Ht. }
  rewrite prune_coalescing_idle by done. fold (index p t).
  destruct (IH (seen ∪ list_to_set (index p t))) as (rest & -> & Hrest).
  eexists. split; [done|]. intros i.
  rewrite elem_of_app, !list_elem_of_filter, elem_of_dedup, Hrest, not_elem_of_union, elem_of_list_to_set.
  setoid_rewrite elem_of_cons. split.
  - intros [(? & ? & ?)|((? & ?) & (t' & ? & ?) & ?)]; eauto 10.
  - intros (? & (t' & [->|?] & ?) & ?); [tauto|]. destruct (decide (i ∈ index p t)); [tauto|right; eauto 10].
Qed.

Lemma acquire_coalesced_ok ho s now p a rp :
  0 ≤ max_idle_per_address s → pool_ok p → pool_ok (acquire_coalesced ho s now p a rp).1.
Proof.
  intros Hcap Hp. unfold acquire_coalesced. destruct (negb _); [done|]. destruct (direct_route_targets rp) as [|t0 ts]; [done|].
  match goal with |- context [prune_addresses s now p ?l] =>
    pose proof (prune_addresses_finish_ok s now p l Hcap Hp) as H; destruct (prune_addresses s now p l) as [p1 removed] end.
  destruct (coalescing_candidates_spec (finish_removals p1 removed) a rp (t0 :: ts) ∅ H) as (found & -> & _).
  pose proof (find_acquire_same (store (finish_removals p1 removed)) found (pi_conn _ _ H)) as Hs.
  destruct (find_acquire _ _) as [st r]. by apply same_store_inv.
Qed.

(** ** Histories of the pool *)

Inductive PoolOp : Type :=
| PCreate (now : Instant) (i : ConnectionId) (r : Route) (pr : ConnectionProtocol) (names : list string) (streams : Z)
| PInsert (now : Instant) (i : ConnectionId)
| PAcquire (now : Instant) (a : Address)
| PAcquireHint (now : Instant) (a : Address)
| PAcquireCoalesced (now : Instant) (a : Address) (rp : RoutePlan)
| PAcquireById (now : Instant) (a : Address) (i : ConnectionId)
| PGetById (now : Instant) (a : Address) (i : ConnectionId)
| PHasInUse (now : Instant) (a : Address)
| PStats (now : Instant) (a : Address)
| PRelease (now : Instant) (i : ConnectionId)
| PRemove (i : ConnectionId)
| PRemoveWithoutHook (i : ConnectionId)
| PPruneAll (now : Instant)
| PTryAcquire (i : ConnectionId)
| PMarkUnhealthy (i : ConnectionId)
| PSetHook.

Definition pool_exec (ho : list Address → list Address) (s : PoolSettings) (p : Pool) (op : PoolOp) : Pool :=
  match op with
  | PCreate now i r pr names streams => set_store p (<[i := connection_new now r pr names streams]> (store p))
  | PInsert now i => pool_insert s now p i
  | PAcquire now a => (acquire s now p a).1
  | PAcquireHint now a => (acquire_with_in_use_hint s now p a).1.1
  | PAcquireCoalesced now a rp => (acquire_coalesced ho s now p a rp).1
  | PAcquireById now a i => (acquire_by_id s now p a i).1
  | PGetById now a i => (get_by_id s now p a i).1
  | PHasInUse now a => (has_in_use_connection s now p a).1
  | PStats now a => (stats s now p a).1
  | PRelease now i => (pool_release s now p i).1
  | PRemove i => (remove p i).1
  | PRemoveWithoutHook i => (remove_without_hook p i).1
  | PPruneAll now => prune_all ho s now p
  | PTryAcquire i => set_store p (alter (snd ∘ try_acquire) i (store p))
  | PMarkUnhealthy i => pool_mark_unhealthy p i
  | PSetHook => set_eviction_hook p
  end.

(** New connections get unused ids; a connection enters the pool open, and once. *)
Definition pool_enabled (p : Pool) (op : PoolOp) : Prop :=
  match op with
  | PCreate _ i _ _ _ _ => store p !! i = None
  | PInsert _ i => by_id p !! i = None ∧ ∃ c, store p !! i = Some c ∧ health (conn_state c) ≠ Closed
  | _ => True
  end.

Inductive pool_reachable (ho : list Address → list Address) (s : PoolSettings) : Pool → Prop :=
| pool_reach_new : pool_reachable ho s (pool_new ∅)
| pool_reach_step p op :
    pool_reachable ho s p → pool_enabled p op → pool_reachable ho s (pool_exec ho s p op).

Lemma create_ok p i c : store p !! i = None → conn_ok c → pool_ok p → pool_ok (set_store p (<[i := c]> (store p))).
Proof.
  intros Hi Hc [H1 H2 H3 H4 H5 H6 H7 H8].
  assert (Hne : ∀ j d, store p !! j = Some d → <[i := c]> (store p) !! j = Some d).
  { intros j d Hj. rewrite lookup_insert_ne; [done|]. intros ->. congruence. }
  assert (Hin : ∀ a j, j ∈ bucket p a → j ≠ i).
  { intros a j Hj ->. destruct (H3 a i Hj) as (? & ? & _). congruence. }
  constructor; cbn [set_store store by_address by_id coalesced_by_target]; try done.
  - intros j d [[_ <-]|[_ ?]]%lookup_insert_Some; [done|by eapply H1].
  - intros a j Hj. destruct (H3 a j Hj) as (d & Hd & ?). exists d. auto.
  - intros j Hj. by apply elem_of_nil in Hj.
  - intros j a. rewrite H6. split; (intros [?|[Hj _]]; [by left|by apply elem_of_nil in Hj]).
  - intros t j. unfold index. cbn [set_store coalesced_by_target]. fold (index p t).
    rewrite H8. unfold target_of. split; intros [[a Ha] Ht]; (split; [by eexists|]);
      assert (j ≠ i) by (apply H6 in Ha as [Ha|[Hj _]]; [by eapply Hin|by apply elem_of_nil in Hj]).
    + by rewrite lookup_insert_ne.
    + by rewrite lookup_insert_ne in Ht.
Qed.

Lemma pool_new_ok : pool_ok (pool_new ∅).
Proof.
  constructor; try done; try (by intros ? ?; rewrite ?lookup_empty); try constructor;
    unfold bucket, index; cbn [pool_new by_address coalesced_by_target by_id store]; rewrite ?lookup_empty.
  all: try (intros; set_solver).
  all: try (by intros [[] _]).
  all: try (by intros [Hj|[Hj _]]; apply elem_of_nil in Hj).
Qed.

Lemma pool_exec_ok ho s p op :
  0 ≤ max_idle_per_address s → pool_ok p → pool_enabled p op → pool_ok (pool_exec ho s p op).
Proof.
  intros Hcap Hp Hen.
  destruct op as [now i r pr names streams|now i|now a|now a|now a rp|now a i|now a i|now a|now a|now i|i|i|now|i|i|];
    cbn [pool_exec pool_enabled] in *.
  - by apply create_ok; [|apply connection_new_ok|].
  - destruct Hen as (Hid & c & Hc & Hh). by eapply insert_ok.
  - by apply acquire_ok.
  - by apply acquire_with_in_use_hint_ok.
  - by apply acquire_coalesced_ok.
  - by apply acquire_by_id_ok.
  - unfold get_by_id. pose proof (prune_finish_ok' s now p a Hcap Hp). by destruct (prune_address s now p a).
  - unfold has_in_use_connection. pose proof (prune_finish_ok' s now p a Hcap Hp). by destruct (prune_address s now p a).
  - unfold stats. pose proof (prune_finish_ok' s now p a Hcap Hp). by destruct (prune_address s now p a).
  - by apply release_ok.
  - by apply remove_ok.
  - by apply remove_ok.
  - unfold prune_all. pose proof (prune_addresses_finish_ok s now p (ho (map_to_list (by_address p)).*1) Hcap Hp).
    by destruct (prune_addresses _ _ _ _).
  - apply pool_update_ok; [|done]. apply try_acquire_same.
  - apply pool_update_ok; [|done]. apply mark_unhealthy_same.
  - by apply hook_irrelevant.
Qed.

Lemma pool_reachable_ok ho s p : 0 ≤ max_idle_per_address s → pool_reachable ho s p → pool_ok p.
Proof. intros Hcap. induction 1; [apply pool_new_ok|by apply pool_exec_ok]. Qed.

(** ** Pruning many addresses *)

Lemma must_evict_closed_irrelevant s now st l st' kept removed i c :
  pruned s now st l st' kept removed → i ∉ removed → st' !! i = Some c → st !! i = Some c.
Proof. intros Hp Hi. by rewrite (pr_store _ _ _ _ _ _ _ Hp), bool_decide_eq_false_2. Qed.

Record all_pruned (s : PoolSettings) (now : Instant) (l : list Address) (p p' : Pool)
    (removed : list ConnectionId) : Prop := mkAllPruned {
  al_bucket : ∀ a, bucket p' a = filter (λ i, i ∉ removed) (bucket p a);
  al_from : ∀ i, i ∈ removed → ∃ a, a ∈ l ∧ i ∈ bucket p a;
  al_store : ∀ j, store p' !! j = if bool_decide (j ∈ removed) then close <$> store p !! j else store p !! j;
  al_in_use : ∀ i c, i ∈ removed → store p !! i = Some c → ¬ in_use c;
  al_stale : ∀ a i c, a ∈ l → i ∈ bucket p' a → store p' !! i = Some c → must_evict s now c = false;
  al_bound : max_idle_per_address s ≠ USIZE_MAX → ∀ a, a ∈ l →
    idle_count (store p') (bucket p' a) ≤ max_idle_per_address s;
  al_by_id : by_id p' = by_id p;
  al_hook : hook_installed p' = hook_installed p ∧ hook_calls p' = hook_calls p;
}.

Lemma prune_addresses_effect s now R p l :
  0 ≤ max_idle_per_address s → pool_inv R p → NoDup l →
  let '(p', removed) := prune_addresses s now p l in all_pruned s now l p p' removed.
Proof.
  intros Hcap. revert R p; induction l as [|a l IH]; intros R p Hp; cbn [prune_addresses].
  { intros _. constructor; try done; try set_solver. intros a. rewrite filter_all; [done|set_solver]. }
  intros [Hal Hnd]%NoDup_cons. pose proof (prune_address_effect s now R p a Hcap Hp) as H1.
  destruct (prune_address s now p a) as [p1 r1]. destruct H1 as [[Hpr Hother Hbi _ Hhk] Hp1].
  specialize (IH _ _ Hp1 Hnd). destruct (prune_addresses s now p1 l) as [p2 r2].
  destruct IH as [B F S U E N I K].
  assert (Hr1 : ∀ i b, i ∈ r1 → i ∈ bucket p b → b = a).
  { intros i b Hi Hb. apply (pr_from _ _ _ _ _ _ _ Hpr) in Hi as [Hia _].
    destruct (pi_live _ _ Hp b i Hb) as (c & Hc & Hcb & _). destruct (pi_live _ _ Hp a i Hia) as (c' & Hc' & Hca & _).
    congruence. }
  assert (Hb1 : ∀ b, bucket p1 b = filter (λ i, i ∉ r1) (bucket p b)).
  { intros b. destruct (decide (b = a)) as [->|Hne]; [apply (pr_kept _ _ _ _ _ _ _ Hpr)|].
    rewrite Hother, filter_all; [done| |done]. intros i Hi Hr. by apply (Hr1 i b) in Hr. }
  assert (Hr2 : ∀ i, i ∈ r2 → i ∉ r1 ∧ i ∉ bucket p1 a).
  { intros i Hi. destruct (F i Hi) as (b & Hb & Hib). split.
    - rewrite Hb1, list_elem_of_filter in Hib. tauto.
    - intros Hia. destruct (pi_live _ _ Hp1 b i Hib) as (c & Hc & Hcb & _).
      destruct (pi_live _ _ Hp1 a i Hia) as (c' & Hc' & Hca & _). apply Hal. congruence. }
  assert (Ha2 : bucket p2 a = bucket p1 a).
  { rewrite B, filter_all; [done|]. intros i Hi Hr. by apply Hr2 in Hr as [_ ?]. }
  assert (Hs2 : ∀ i, i ∈ bucket p1 a → store p2 !! i = store p1 !! i).
  { intros i Hi. rewrite S, bool_decide_eq_false_2; [done|]. intros Hr. by apply Hr2 in Hr as [_ ?]. }
  constructor.
  - intros b. rewrite B, Hb1, list_filter_filter. apply filter_ext_in. intros i _. rewrite elem_of_app. tauto.
  - intros i [Hi|Hi]%elem_of_app.
    + exists a. split; [by left|]. by apply (pr_from _ _ _ _ _ _ _ Hpr) in Hi as [? _].
    + destruct (F i Hi) as (b & Hb & Hib). exists b. split; [by right|].
      rewrite Hb1, list_elem_of_filter in Hib. tauto.
  - intros j. rewrite S, (pr_store _ _ _ _ _ _ _ Hpr). pose proof (elem_of_app r1 r2 j). specialize (Hr2 j).
    repeat case_bool_decide; try done; tauto.
  - intros i c [Hi|Hi]%elem_of_app Hc; [by eapply (pr_in_use _ _ _ _ _ _ _ Hpr)|].
    apply (U i c Hi). rewrite (pr_store _ _ _ _ _ _ _ Hpr), bool_decide_eq_false_2; [done|]. by apply Hr2.
  - intros b i c [->|Hb]%elem_of_cons Hi Hc; [|by apply (E b i c)].
    rewrite Ha2 in Hi. rewrite Hs2 in Hc by done. apply (pr_stale _ _ _ _ _ _ _ Hpr i c Hi).
    eapply must_evict_closed_irrelevant; [done| |done].
    rewrite (pr_kept _ _ _ _ _ _ _ Hpr), list_elem_of_filter in Hi. tauto.
  - intros Hne b [->|Hb]%elem_of_cons; [|by apply N].
    rewrite Ha2, (idle_count_ext (store p1)) by done. by apply (pr_bound _ _ _ _ _ _ _ Hpr).
  - by rewrite I.
  - by destruct K as [-> ->].
Qed.

(** ** Theorems *)

(** After any sequence of operations the pool's three containers agree: an id is in the id index
    exactly for the address whose bucket holds it, and in the coalescing index exactly under the
    socket address it is connected to when it is a pooled direct HTTP/2-over-TLS connection; no
    bucket is empty or lists a connection twice; and every pooled connection is open, belongs to
    the address it is filed under and respects its protocol's stream limit. *)
Theorem pool_invariant (ho : list Address → list Address) (s : PoolSettings) (p : Pool) :
  0 ≤ max_idle_per_address s → pool_reachable ho s p →
  (∀ i a, by_id p !! i = Some a ↔ i ∈ bucket p a) ∧
  (∀ t i, i ∈ index p t ↔ is_Some (by_id p !! i) ∧ target_of (store p) i = Some t) ∧
  (∀ a l, by_address p !! a = Some l → l ≠ [] ∧ NoDup l) ∧
  (∀ a i, i ∈ bucket p a → ∃ c, store p !! i = Some c ∧ conn_address c = a ∧
     health (conn_state c) ≠ Closed ∧ 0 ≤ allocations (conn_state c) ≤ stream_limit c).
Proof.
  intros Hcap Hr. pose proof (pool_reachable_ok ho s p Hcap Hr) as [H1 H2 H3 _ _ H5 _ H7].
  split_and!; [|done|done|].
  - intros i a. rewrite H5. split; [|by left]. intros [?|[Hn _]]; [done|by apply elem_of_nil in Hn].
  - intros a i Hi. destruct (H3 a i Hi) as (c & Hc & ? & ?). exists c. split_and!; try done;
      by apply (ok_allocations c (H1 i c Hc)).
Qed.

(** An HTTP/2 connection to the example origin, created, inserted and idle. *)
Definition example_target : SocketAddr := mkSocketAddr (V4 2130706433) 443.
Definition origin_h2 (h : string) : Address :=
  mkAddress Scheme_Https (mkAuthorityKey h 443) None (Some (mkTlsIdentity h)) Http1OrHttp2 Dns_System.
Definition example_pool : Pool :=
  pool_exec id pool_settings_default
    (pool_exec id pool_settings_default (pool_new ∅)
       (PCreate 5 1%nat (direct (origin_h2 "a") example_target) Http2 ["b"%string] 10))
    (PInsert 7 1%nat).

Lemma example_pool_reachable : pool_reachable id pool_settings_default example_pool.
Proof.
  apply pool_reach_step; [apply pool_reach_step; [constructor|done]|]. split; [done|].
  eexists. by split; [vm_compute|].
Qed.

Lemma pool_invariant_witness :
  by_id example_pool !! 1%nat = Some (origin_h2 "a") ↔ 1%nat ∈ bucket example_pool (origin_h2 "a").
Proof. apply (pool_invariant id pool_settings_default example_pool); [done|exact example_pool_reachable]. Defined.

(** [acquire] on any reachable pool first prunes the address's bucket, and then hands out the first
    remaining connection that is healthy and has a free stream, counting exactly one exchange more on
    it and touching no other connection; it returns nothing only when no remaining connection is
    free.  Pruning closes what it removes and never a connection in use, keeps nothing stale or
    idle beyond the limit, and evicts beyond it the least recently idle.  The removed
    connections leave every container and the hook hears of each of them once. *)
Theorem acquire_spec (ho : list Address → list Address) (s : PoolSettings) (p : Pool) (now : Instant) (a : Address) :
  0 ≤ max_idle_per_address s → pool_reachable ho s p →
  let '(p', r) := acquire s now p a in
  ∃ st removed,
    pruned s now (store p) (bucket p a) st (bucket p' a) removed ∧
    (∀ b, b ≠ a → bucket p' b = bucket p b) ∧
    hook_calls p' = hook_calls p ++ (if hook_installed p then removed else []) ∧
    (∀ i, i ∈ removed → by_id p' !! i = None ∧ ∀ t, i ∉ index p' t) ∧
    match r with
    | Some i => ∃ pre post c, bucket p' a = pre ++ i :: post ∧ st !! i = Some c ∧
        health (conn_state c) = Healthy ∧ allocations (conn_state c) < stream_limit c ∧
        store p' = <[i := (try_acquire c).2]> st ∧
        Forall (λ j, from_option can_acquire false (st !! j) = false) pre
    | None => store p' = st ∧ Forall (λ j, from_option can_acquire false (st !! j) = false) (bucket p' a)
    end.
Proof.
  intros Hcap Hr. pose proof (pool_reachable_ok ho s p Hcap Hr) as Hp. unfold acquire.
  pose proof (prune_address_effect s now [] p a Hcap Hp) as H.
  destruct (prune_address s now p a) as [p1 removed]. destruct H as [[Hpr Hother _ _ [Hh1 Hh2]] Hp1].
  fold (bucket p1 a). pose proof (find_acquire_spec (store p1) (bucket p1 a)) as Hfa.
  pose proof (find_acquire_same (store p1) (bucket p1 a) (pi_conn _ _ Hp1)) as Hsame.
  destruct (find_acquire (store p1) (bucket p1 a)) as [st r]. simpl in Hsame.
  destruct (finish_removals_effect removed (set_store p1 st)) as [Hf _]; [by apply same_store_inv|].
  set (p' := finish_removals (set_store p1 st) removed) in *.
  assert (Hb : ∀ b, bucket p' b = bucket p1 b) by (intros b; unfold bucket; by rewrite (rf_by_address _ _ _ Hf)).
  exists (store p1), removed. rewrite Hb. split_and!; [done| | | |].
  - intros b Hne. by rewrite Hb, Hother.
  - rewrite (rf_calls _ _ _ Hf). cbn. by rewrite Hh1, Hh2.
  - intros i Hi. split; [by rewrite (rf_by_id _ _ _ Hf), bool_decide_eq_true_2|].
    intros t. rewrite (rf_index _ _ _ Hf). tauto.
  - rewrite (rf_store _ _ _ Hf). cbn [set_store store]. destruct r as [i|]; [|done].
    destruct Hfa as (pre & post & c & ? & Hc & Hca & ? & ?).
    apply can_acquire_iff in Hca as [? ?]; [|by apply (pi_conn _ _ Hp1 i)]. by exists pre, post, c.
Qed.

Lemma acquire_spec_witness :
  ∃ st removed, pruned pool_settings_default 9 (store example_pool) (bucket example_pool (origin_h2 "a")) st
    (bucket (acquire pool_settings_default 9 example_pool (origin_h2 "a")).1 (origin_h2 "a")) removed.
Proof.
  pose proof (acquire_spec id pool_settings_default example_pool 9 (origin_h2 "a")
                ltac:(done) example_pool_reachable) as H.
  destruct (acquire pool_settings_default 9 example_pool (origin_h2 "a")) as [p' r].
  destruct H as (st & removed & H & _). exists st, removed. exact H.
Defined.

(** The reaper's [prune_all], in whatever order the hash maps iterate, leaves in every bucket exactly
    the connections it did not evict: none of those left is idle past the idle timeout, past its
    lifetime or unhealthy without exchanges in flight, at most [max_idle_per_address] of them are
    idle, and no connection in use is ever evicted; those evicted are closed, out of the id
    index, and reported to the hook once each. *)
Theorem prune_all_spec (ho : list Address → list Address) (s : PoolSettings) (p : Pool) (now : Instant) :
  0 ≤ max_idle_per_address s → (∀ l, ho l ≡ₚ l) → pool_reachable ho s p →
  let p' := prune_all ho s now p in
  ∃ removed, NoDup removed ∧
    hook_calls p' = hook_calls p ++ (if hook_installed p then removed else []) ∧
    (∀ a, bucket p' a = filter (λ i, i ∉ removed) (bucket p a)) ∧
    (∀ i, i ∈ removed → by_id p' !! i = None ∧ ∃ a c, i ∈ bucket p a ∧ store p !! i = Some c ∧ ¬ in_use c ∧
                        store p' !! i = Some (close c)) ∧
    (∀ i, i ∉ removed → store p' !! i = store p !! i) ∧
    (∀ a i c, i ∈ bucket p' a → store p' !! i = Some c → must_evict s now c = false) ∧
    (max_idle_per_address s ≠ USIZE_MAX → ∀ a, idle_count (store p') (bucket p' a) ≤ max_idle_per_address s).
Proof.
  intros Hcap Hho Hr. pose proof (pool_reachable_ok ho s p Hcap Hr) as Hp. unfold prune_all.
  set (l := ho (map_to_list (by_address p)).*1).
  assert (Hnd : NoDup l) by (unfold l; rewrite Hho; apply NoDup_fst_map_to_list).
  assert (Hl : ∀ a i, i ∈ bucket p a → a ∈ l).
  { intros a i. unfold bucket, l. rewrite Hho. destruct (by_address p !! a) as [k|] eqn:E;
      [|by intros ?%elem_of_nil]. intros _. apply list_elem_of_fmap. exists (a, k).
    by rewrite elem_of_map_to_list. }
  pose proof (prune_addresses_effect s now [] p l Hcap Hp Hnd) as He.
  pose proof (prune_addresses_inv s now [] p l Hcap Hp) as Hi.
  destruct (prune_addresses s now p l) as [p1 removed]. destruct He as [B F S U E N I [K1 K2]].
  destruct (finish_removals_effect removed p1 Hi) as [Hf _].
  assert (Hb : ∀ a, bucket (finish_removals p1 removed) a = bucket p1 a)
    by (intros a; unfold bucket; by rewrite (rf_by_address _ _ _ Hf)).
  exists removed. split_and!.
  - apply (pi_nodup _ _ Hi).
  - by rewrite (rf_calls _ _ _ Hf), K1, K2.
  - intros a. by rewrite Hb.
  - intros i Hin. rewrite (rf_by_id _ _ _ Hf), (rf_store _ _ _ Hf), S, !bool_decide_eq_true_2 by done.
    split; [done|]. destruct (F i Hin) as (a & _ & Ha). destruct (pi_live _ _ Hp a i Ha) as (c & Hc & _).
    exists a, c. split_and!; [done|done|by eapply U|by rewrite Hc].
  - intros i Hin. by rewrite (rf_store _ _ _ Hf), S, bool_decide_eq_false_2.
  - intros a i c. rewrite Hb, (rf_store _ _ _ Hf). intros Hi' Hc. apply (E a i c); [|done|done].
    apply (Hl a i). rewrite B, list_elem_of_filter in Hi'. tauto.
  - intros Hne a. rewrite Hb, (rf_store _ _ _ Hf). destruct (decide (a ∈ l)) as [|Hal]; [by apply N|].
    assert (bucket p1 a = []) as ->; [|done]. destruct (bucket p1 a) as [|i k] eqn:Eb; [done|]. destruct Hal.
    apply (Hl a i). assert (i ∈ bucket p1 a) as Hin by (rewrite Eb; by left). rewrite B, list_elem_of_filter in Hin. tauto.
Qed.

Lemma prune_all_spec_witness :
  ∃ removed, NoDup removed ∧
    (∀ a, bucket (prune_all id pool_settings_default 9 example_pool) a = filter (λ i, i ∉ removed) (bucket example_pool a)).
Proof.
  destruct (prune_all_spec id pool_settings_default example_pool 9) as (removed & H1 & _ & H2 & _);
    [done|done|exact example_pool_reachable|]. exists removed. split; [exact H1|exact H2].
Defined.

(** ** Coalescing *)

(** When a request may ride on a connection opened for another host. *)
Definition coalescable (c : RealConnection) (a : Address) (rp : RoutePlan) : Prop :=
  protocol c = Http2 ∧
  (scheme a = Scheme_Https ∧ proxy a = None ∧ protocol_policy a ≠ Http1Only) ∧
  (scheme (conn_address c) = Scheme_Https ∧ proxy (conn_address c) = None) ∧
  port (authority (conn_address c)) = port (authority a) ∧ authority (conn_address c) ≠ authority a ∧
  (∃ n, n ∈ verified_server_names c ∧ verified_server_name_matches n (host (authority a)) = true) ∧
  (∃ t r, route_kind (conn_route c) = Direct t ∧ r ∈ routes rp ∧ route_kind r = Direct t).

Lemma request_allows_iff a :
  request_allows_h2_coalescing a = true ↔ scheme a = Scheme_Https ∧ proxy a = None ∧ protocol_policy a ≠ Http1Only.
Proof.
  unfold request_allows_h2_coalescing.
  rewrite !andb_true_iff, negb_true_iff, bool_decide_eq_false, !bool_decide_eq_true. tauto.
Qed.

Lemma connection_allows_iff c :
  connection_allows_h2_coalescing c = true ↔ scheme (conn_address c) = Scheme_Https ∧ proxy (conn_address c) = None.
Proof. unfold connection_allows_h2_coalescing. by rewrite andb_true_iff, !bool_decide_eq_true. Qed.

Lemma route_overlap_iff r rp :
  route_overlap r rp = true ↔ ∃ t r', route_kind r = Direct t ∧ r' ∈ routes rp ∧ route_kind r' = Direct t.
Proof.
  unfold route_overlap. split.
  - destruct (route_kind r) as [t|? ?|? ?|? ?]; try done. rewrite existsb_exists. intros (r' & Hin & Hr').
    exists t, r'. rewrite list_elem_of_In. split_and!; [done|done|].
    destruct (route_kind r') as [t'|? ?|? ?|? ?]; try done. apply bool_decide_eq_true in Hr'. congruence.
  - intros (t & r' & -> & Hin & Hr'). apply existsb_exists. exists r'. rewrite <-list_elem_of_In, Hr'.
    by rewrite bool_decide_eq_true_2.
Qed.

Lemma can_coalesce_iff c a rp : can_coalesce c a rp = true ↔ coalescable c a rp.
Proof.
  unfold can_coalesce, coalescable.
  rewrite <-request_allows_iff, <-connection_allows_iff, <-route_overlap_iff.
  case_bool_decide; simpl; [|naive_solver].
  destruct (request_allows_h2_coalescing a); simpl; [|naive_solver].
  destruct (connection_allows_h2_coalescing c); simpl; [|naive_solver].
  case_bool_decide; simpl; [|naive_solver]. case_bool_decide; simpl; [naive_solver|].
  destruct (existsb _ _) eqn:Ex; simpl.
  - apply existsb_exists in Ex as (n & Hn & Hm). rewrite <-list_elem_of_In in Hn. naive_solver.
  - split; [done|]. intros (_ & _ & _ & _ & _ & (n & Hn & Hm) & _).
    apply not_true_iff_false in Ex. destruct Ex. apply existsb_exists. exists n. by rewrite <-list_elem_of_In.
Qed.

(** A coalescable connection is indexed under one of the plan's direct targets. *)
Lemma coalescable_target c a rp :
  coalescable c a rp → ∃ t, coalescing_index_target c = Some t ∧ t ∈ direct_route_targets rp.
Proof.
  intros (Hp & _ & Hc & _ & _ & _ & (t & r & Hr & Hin & Hr')). exists t.
  apply connection_allows_iff in Hc. split.
  - unfold coalescing_index_target. by rewrite bool_decide_eq_true_2, Hc, Hr by done.
  - unfold direct_route_targets. rewrite elem_of_dedup, list_elem_of_omap. exists r. by rewrite Hr'.
Qed.

(** C24.  [acquire_coalesced] hands out only a pooled, healthy connection with a free stream, opened over
    HTTP/2 and TLS to another authority on the same port, whose verified certificate covers the
    requested host and whose remote address is one the request's own route plan would dial
    directly, neither side using a proxy; and it fails to find one only when, after
    pruning, no pooled connection with those properties has a free stream. *)
Theorem acquire_coalesced_spec (ho : list Address → list Address) (s : PoolSettings) (p : Pool) (now : Instant)
    (a : Address) (rp : RoutePlan) :
  0 ≤ max_idle_per_address s → (∀ l, ho l ≡ₚ l) → pool_reachable ho s p →
  let '(p', r) := acquire_coalesced ho s now p a rp in
  match r with
  | Some i => ∃ c, is_Some (by_id p !! i) ∧ store p !! i = Some c ∧ coalescable c a rp ∧
      health (conn_state c) = Healthy ∧ allocations (conn_state c) < stream_limit c ∧
      store p' !! i = Some (try_acquire c).2
  | None => ∀ i c, is_Some (by_id p' !! i) → store p' !! i = Some c → coalescable c a rp → can_acquire c = false
  end.
Proof.
  intros Hcap Hho Hr. pose proof (pool_reachable_ok ho s p Hcap Hr) as Hp. unfold acquire_coalesced.
  destruct (request_allows_h2_coalescing a) eqn:Hreq; simpl.
  2: { intros i c _ _ (_ & Hq & _). apply request_allows_iff in Hq. congruence. }
  destruct (direct_route_targets rp) as [|t0 ts] eqn:Htg.
  { intros i c _ _ Hco. apply coalescable_target in Hco as (t & _ & Ht). rewrite Htg in Ht. by apply elem_of_nil in Ht. }
  rewrite <-Htg. clear t0 ts Htg.
  match goal with |- context [ho ?l] => set (l0 := l) end.
  assert (Hnd : NoDup (ho l0)) by (rewrite Hho; apply dedup_NoDup).
  pose proof (prune_addresses_effect s now [] p (ho l0) Hcap Hp Hnd) as He.
  pose proof (prune_addresses_inv s now [] p (ho l0) Hcap Hp) as Hi.
  destruct (prune_addresses s now p (ho l0)) as [p1 removed]. destruct He as [_ _ S _ _ _ I _].
  destruct (finish_removals_effect removed p1 Hi) as [Hf Hok]. set (p2 := finish_removals p1 removed) in *.
  destruct (coalescing_candidates_spec p2 a rp (direct_route_targets rp) ∅ Hok) as (found & -> & Hfound).
  pose proof (find_acquire_spec (store p2) found) as Hfa.
  destruct (find_acquire (store p2) found) as [st [i|]].
  - destruct Hfa as (pre & post & c & Hsplit & Hc & Hca & -> & _).
    assert (i ∈ found) as Hin by (rewrite Hsplit; set_solver).
    apply Hfound in Hin as (_ & (t & _ & Hix) & Hco). rewrite Hc in Hco. simpl in Hco.
    apply (pi_index _ _ Hok) in Hix as [Hid _].
    rewrite (rf_by_id _ _ _ Hf) in Hid. case_bool_decide as Hrm; [by destruct Hid|]. rewrite I in Hid.
    exists c. apply can_acquire_iff in Hca as [? ?]; [|by apply (pi_conn _ _ Hok i)].
    split_and!; [done| |by apply can_coalesce_iff|done|done|apply lookup_insert_eq].
    by rewrite (rf_store _ _ _ Hf), S, bool_decide_eq_false_2 in Hc.
  - destruct Hfa as [-> Hnone]. intros i c Hid Hc Hco. cbn [set_store store by_id] in *.
    rewrite Forall_forall in Hnone. assert (i ∈ found) as Hin.
    { apply Hfound. split; [set_solver|]. split.
      - apply coalescable_target in Hco as (t & Ht & Hin). exists t. split; [done|].
        apply (pi_index _ _ Hok). split; [done|]. unfold target_of. by rewrite Hc.
      - rewrite Hc. simpl. by apply can_coalesce_iff. }
    specialize (Hnone i Hin). by rewrite Hc in Hnone.
Qed.

Lemma acquire_coalesced_spec_witness :
  let rp := mkRoutePlan [direct (origin_h2 "b") example_target] 0 in
  let '(p', r) := acquire_coalesced id pool_settings_default 9 example_pool (origin_h2 "b") rp in
  r = Some 1%nat ∧ ∃ c, store example_pool !! 1%nat = Some c ∧ coalescable c (origin_h2 "b") rp.
Proof.
  intros rp. pose proof (acquire_coalesced_spec id pool_settings_default example_pool 9 (origin_h2 "b") rp
                ltac:(done) ltac:(done) example_pool_reachable) as H.
  assert ((acquire_coalesced id pool_settings_default 9 example_pool (origin_h2 "b") rp).2 = Some 1%nat) as Hr
    by (vm_compute; reflexivity).
  destruct (acquire_coalesced id pool_settings_default 9 example_pool (origin_h2 "b") rp) as [p' r].
  simpl in Hr. subst r. destruct H as (c & _ & H1 & H2 & _). split; [reflexivity|]. exists c. split; [exact H1|exact H2].
Defined.
