(* ===== verification/PoolLocks.v ===== *)
(** * The pool under its locks

    openwire/src/connection/pool.rs once more, at the granularity of its mutexes.  Pool.v takes every operation as one step;
    here an operation is the tree of its critical sections, and any number of operations are interleaved between them.  The
    mutexes are those of the address shards (openwire/src/connection/mod.rs), of the id map, of the coalescing index, and one in
    every connection.  A shard is held across several sections, so its lock is explicit; the others are taken for
    one access at a time.  (The index is pruned of closed connections in one section, which reads the flags of its connections
    at one moment.)

    The containers are those of Pool.v, and a bucket is found through the shard its address hashes to.  The clock moves between
    sections.  Two things are not the pool's: a connection is allocated by whoever made it before it is inserted
    ([bind_fresh_connection], [observe_connection]), and it is released once for each allocation. *)

From S2P Require Import Prelude Net Planning RealConnection Pool.

(** [ADDRESS_SHARDS], openwire/connection/mod.rs:47-47. *)
Definition ADDRESS_SHARDS : nat := 32.

Section Locks.
#[local] Set Default Proof Using "Type".

(** [address_shard], openwire/connection/mod.rs:63-73, for a hash seeded per process. *)
Context (hash : Address → Z).
Definition address_shard (a : Address) : nat := Z.to_nat (hash a mod Z.of_nat ADDRESS_SHARDS).

Context (hash_order : list Address → list Address) (s : PoolSettings).

(** ** Code as critical sections

    [Evict] and [Close] both call [close]: the first from pruning, the second from a removal. *)

Inductive prog : Type :=
| Ret (result : option ConnectionId) (flag : bool)
| Lock (shard : nat) (k : prog)
| Unlock (k : prog)
| Keys (shard : nat) (k : list Address → prog)
| Get_Bucket (a : Address) (k : option (list ConnectionId) → prog)
| Put_Bucket (a : Address) (l : list ConnectionId) (k : prog)
| Look (i : ConnectionId) (k : option (RealConnection * Instant) → prog)
| Evict (i : ConnectionId) (k : prog)
| Close (i : ConnectionId) (k : prog)
| Try_Acquire (i : ConnectionId) (k : bool → prog)
| Get_Id (i : ConnectionId) (k : option Address → prog)
| Put_Id (i : ConnectionId) (a : Address) (k : prog)
| Take_Id (i : ConnectionId) (k : option Address → prog)
| Drop_Ids (ids : list ConnectionId) (k : prog)
| Indexed (targets : list SocketAddr) (k : list Address → prog)
| Candidates (request : Address) (rp : RoutePlan) (targets : list SocketAddr) (k : list ConnectionId → prog)
| Put_Index (i : ConnectionId) (k : prog)
| Drop_Index (ids : list ConnectionId) (k : prog)
| Hook (ids : list ConnectionId) (k : prog).

(** *** Pruning, with the shard held *)

(** A limit that may be unset: [false] goes on to the next question. *)
Definition ask (i : ConnectionId) (limit : option Duration) (expired : Instant → RealConnection → Duration → bool)
    (k : bool → prog) : prog :=
  match limit with
  | None => k false
  | Some d => Look i (λ v, k (match v with Some (c, now) => expired now c d | None => false end))
  end.
(** The closure [prune_connections] retains by, openwire/connection/pool.rs:454-488: the connection is locked for each question. *)
Definition judge (i : ConnectionId) (k : bool → prog) : prog :=
  Look i (λ v,
    match v with
    | None => k false
    | Some (c, _) =>
      if negb (is_healthy c) then
        Look i (λ v, k (match v with Some (c, _) => negb (bool_decide (in_use c)) | None => false end))
      else ask i (max_lifetime s) connection_lifetime_expired (λ expired,
        if expired then k true else ask i (idle_timeout s) idle_connection_expired k)
    end).

(** [connections.retain] in [prune_connections], openwire/connection/pool.rs:453-488. *)
Fixpoint retain_loop (l kept removed : list ConnectionId) (k : list ConnectionId → list ConnectionId → prog) : prog :=
  match l with
  | [] => k kept removed
  | i :: l =>
    judge i (λ evict, if evict then Evict i (retain_loop l kept (removed ++ [i]) k) else retain_loop l (kept ++ [i]) removed k)
  end.

(** The idle connections with their times, openwire/connection/pool.rs:590-602. *)
Fixpoint scan_idle (l : list ConnectionId) (acc : list (ConnectionId * Instant)) (k : list (ConnectionId * Instant) → prog) : prog :=
  match l with
  | [] => k acc
  | i :: l =>
    Look i (λ v,
      let entry := match v with
                   | Some (c, _) => if bool_decide (idle c) then pair i <$> idle_since (conn_state c) else None
                   | None => None
                   end in
      scan_idle l (acc ++ option_list entry) k)
  end.

(** The second [retain], openwire/connection/pool.rs:616-625. *)
Fixpoint close_loop (evicted l kept removed : list ConnectionId) (k : list ConnectionId → list ConnectionId → prog) : prog :=
  match l with
  | [] => k kept removed
  | i :: l =>
    if bool_decide (i ∈ evicted) then Evict i (close_loop evicted l kept (removed ++ [i]) k)
    else close_loop evicted l (kept ++ [i]) removed k
  end.

(** [enforce_max_idle_connections], openwire/connection/pool.rs:582-628. *)
Definition enforce_loop (l removed : list ConnectionId) (k : list ConnectionId → list ConnectionId → prog) : prog :=
  if max_idle_per_address s =? USIZE_MAX then k l removed else
  scan_idle l [] (λ entries,
    if len entries <=? max_idle_per_address s then k l removed else
    let evict_count := Z.to_nat (len entries - max_idle_per_address s) in
    close_loop (fst <$> take evict_count (sort_by_key entries)) l [] removed k).

(** [prune_address], openwire/connection/pool.rs:428-447. *)
Definition prune (a : Address) (k : list ConnectionId → prog) : prog :=
  Get_Bucket a (λ l,
    match l with
    | None => k []
    | Some l => retain_loop l [] [] (λ kept removed, enforce_loop kept removed (λ kept removed, Put_Bucket a kept (k removed)))
    end).

(** [finish_removals], openwire/connection/pool.rs:385-403, after the shard is released. *)
Definition finish (removed : list ConnectionId) (k : prog) : prog :=
  match removed with [] => k | _ => Drop_Ids removed (Drop_Index removed (Hook removed k)) end.

(** *** The operations *)

(** [connections.iter().find(|conn| conn.try_acquire())]. *)
Fixpoint find_loop (l : list ConnectionId) (k : option ConnectionId → prog) : prog :=
  match l with
  | [] => k None
  | i :: l => Try_Acquire i (λ ok, if ok then k (Some i) else find_loop l k)
  end.

(** [has_in_use_connection_unpruned], openwire/connection/pool.rs:498-509. *)
Fixpoint in_use_loop (excluded : option ConnectionId) (l : list ConnectionId) (k : bool → prog) : prog :=
  match l with
  | [] => k false
  | i :: l =>
    if bool_decide (excluded = Some i) then in_use_loop excluded l k
    else Look i (λ v, match v with
                      | Some (c, _) => if bool_decide (in_use c) then k true else in_use_loop excluded l k
                      | None => in_use_loop excluded l k
                      end)
  end.

(** The operations that prune an address, look at its bucket, and tidy up. *)
Definition visit (a : Address) (body : option (list ConnectionId) → (option ConnectionId → bool → prog) → prog) : prog :=
  Lock (address_shard a) (prune a (λ removed, Get_Bucket a (λ l, body l (λ r flag, Unlock (finish removed (Ret r flag)))))).

(** [acquire], openwire/connection/pool.rs:124-134. *)
Definition acquire_code (a : Address) : prog :=
  visit a (λ l k, find_loop (default [] l) (λ r, k r false)).
(** [acquire_with_in_use_hint], openwire/connection/pool.rs:136-156. *)
Definition acquire_with_in_use_hint_code (a : Address) : prog :=
  visit a (λ l k, match l with
                  | Some l => find_loop l (λ r, in_use_loop r l (λ hint, k r hint))
                  | None => k None false
                  end).
(** [has_in_use_connection], openwire/connection/pool.rs:158-168. *)
Definition has_in_use_connection_code (a : Address) : prog :=
  visit a (λ l k, match l with Some l => in_use_loop None l (k None) | None => k None false end).
(** [get_by_id], openwire/connection/pool.rs:250-270. *)
Definition get_by_id_code (a : Address) (i : ConnectionId) : prog :=
  visit a (λ l k, Get_Id i (λ found, if negb (bool_decide (found = Some a)) then k None false
                                     else k (find_first (λ j, (j =? i)%nat) (default [] l)) false)).
(** [acquire_by_id], openwire/connection/pool.rs:272-292. *)
Definition acquire_by_id_code (a : Address) (i : ConnectionId) : prog :=
  visit a (λ l k, Get_Id i (λ found, if negb (bool_decide (found = Some a)) then k None false
                                     else find_loop (filter (λ j, j = i) (default [] l)) (λ r, k r false))).

(** [connections.iter().any(RealConnection::can_acquire)]. *)
Fixpoint acquirable_loop (l : list ConnectionId) (k : bool → prog) : prog :=
  match l with
  | [] => k false
  | i :: l => Look i (λ v, match v with
                           | Some (c, _) => if can_acquire c then k true else acquirable_loop l k
                           | None => acquirable_loop l k
                           end)
  end.
(** [has_acquirable_connection], openwire/connection/pool.rs:172-178. *)
Definition has_acquirable_connection_code (a : Address) : prog :=
  Lock (address_shard a) (Get_Bucket a (λ l, acquirable_loop (default [] l) (λ r, Unlock (Ret None r)))).

(** [insert], openwire/connection/pool.rs:105-122, of a connection of address [a]. *)
Definition insert_code (a : Address) (i : ConnectionId) : prog :=
  Lock (address_shard a) (Get_Bucket a (λ l, Put_Bucket a (default [] l ++ [i])
    (prune a (λ evicted, Unlock (Put_Id i a (Put_Index i (finish evicted (Ret (Some i) false)))))))).

(** [release], openwire/connection/pool.rs:237-248, once the connection itself has been released. *)
Definition release_code (a : Address) : prog :=
  Lock (address_shard a) (prune a (λ removed, Unlock (finish removed (Ret None true)))).

(** [remove_without_hook], openwire/connection/pool.rs:306-336; [k] is told what was removed. *)
Definition remove_without_hook_code (i : ConnectionId) (k : option ConnectionId → prog) : prog :=
  Take_Id i (λ found,
    match found with
    | None => k None
    | Some a =>
      Lock (address_shard a) (Get_Bucket a (λ l,
        match l with
        | None => Unlock (k None)
        | Some l =>
          if bool_decide (i ∈ l) then Close i (Put_Bucket a (remove_first i l) (Drop_Index [i] (Unlock (k (Some i)))))
          else Put_Bucket a l (Unlock (k None))
        end))
    end).
(** [remove], openwire/connection/pool.rs:294-300. *)
Definition remove_code (i : ConnectionId) : prog :=
  remove_without_hook_code i (λ r, match r with Some j => Hook [i] (Ret (Some j) false) | None => Ret None false end).

(** The loops over addresses of [prune_all] and [acquire_coalesced], openwire/connection/pool.rs:367-369. *)
Fixpoint prune_list (l : list Address) (removed : list ConnectionId) (k : list ConnectionId → prog) : prog :=
  match l with
  | [] => k removed
  | a :: l => prune a (λ removed', prune_list l (removed ++ removed') k)
  end.
(** The loop over the shards in [prune_all], openwire/connection/pool.rs:364-370. *)
Fixpoint prune_shards (shards : list nat) (removed : list ConnectionId) : prog :=
  match shards with
  | [] => finish removed (Ret None false)
  | n :: shards => Lock n (Keys n (λ addresses, prune_list addresses removed (λ removed, Unlock (prune_shards shards removed))))
  end.
(** [prune_all], openwire/connection/pool.rs:362-372. *)
Definition prune_all_code : prog := prune_shards (seq 0 ADDRESS_SHARDS) [].

(** The pruning of [acquire_coalesced], openwire/connection/pool.rs:205-209. *)
Fixpoint prune_each (l : list Address) (removed : list ConnectionId) (k : list ConnectionId → prog) : prog :=
  match l with
  | [] => k removed
  | a :: l => Lock (address_shard a) (prune a (λ removed', Unlock (prune_each l (removed ++ removed') k)))
  end.
(** [acquire_coalesced], openwire/connection/pool.rs:180-235. *)
Definition acquire_coalesced_code (a : Address) (rp : RoutePlan) : prog :=
  if negb (request_allows_h2_coalescing a) then Ret None false else
  match direct_route_targets rp with
  | [] => Ret None false
  | targets =>
    Indexed targets (λ addresses_to_prune,
      prune_each (hash_order addresses_to_prune) [] (λ removed,
        finish removed (Candidates a rp targets (λ candidates, find_loop candidates (λ r, Ret r false)))))
  end.

(** ** The machine *)

(** The pool, the shards that are locked and by whom, the operations in progress, the allocations somebody has and may release, the
    connections ever inserted, and the clock. *)
Record World : Type := mkWorld {
  w_pool : Pool;
  w_held : gmap nat nat;
  w_threads : gmap nat prog;
  w_holds : gmap ConnectionId nat;
  w_inserted : gset ConnectionId;
  w_now : Instant;
}.
Definition set_pool (f : Pool → Pool) (w : World) : World :=
  mkWorld (f (w_pool w)) (w_held w) (w_threads w) (w_holds w) (w_inserted w) (w_now w).
Definition set_held (f : gmap nat nat → gmap nat nat) (w : World) : World :=
  mkWorld (w_pool w) (f (w_held w)) (w_threads w) (w_holds w) (w_inserted w) (w_now w).
Definition set_threads (f : gmap nat prog → gmap nat prog) (w : World) : World :=
  mkWorld (w_pool w) (w_held w) (f (w_threads w)) (w_holds w) (w_inserted w) (w_now w).
Definition set_holds (f : gmap ConnectionId nat → gmap ConnectionId nat) (w : World) : World :=
  mkWorld (w_pool w) (w_held w) (w_threads w) (f (w_holds w)) (w_inserted w) (w_now w).
Definition holds (w : World) (i : ConnectionId) : nat := default 0%nat (w_holds w !! i).
Definition hold (n : nat) (i : ConnectionId) (w : World) : World := set_holds (<[i := n]>) w.

(** One section of thread [t]; [None] is waiting for a lock. *)
Definition exec (t : nat) (p : prog) (w : World) : option World :=
  let go k w := set_threads (<[t := k]>) w in
  let pl := w_pool w in
  match p with
  | Ret _ _ => Some (set_threads (delete t) w)
  | Lock n k => match w_held w !! n with Some _ => None | None => Some (go k (set_held (<[n := t]>) w)) end
  | Unlock k => Some (go k (set_held (filter (λ kv, kv.2 ≠ t)) w))
  | Keys n k => Some (go (k (hash_order (filter (λ a, address_shard a = n) (map_to_list (by_address pl)).*1))) w)
  | Get_Bucket a k => Some (go (k (by_address pl !! a)) w)
  | Put_Bucket a l k => Some (go k (set_pool (λ p, set_by_address p (set_bucket a l (by_address p))) w))
  | Look i k => Some (go (k ((., w_now w) <$> store pl !! i)) w)
  | Evict i k | Close i k => Some (go k (set_pool (λ p, set_store p (alter close i (store p))) w))
  | Try_Acquire i k =>
    match store pl !! i with
    | None => Some (go (k false) w)
    | Some c =>
      let '(ok, c) := try_acquire c in
      let w := set_pool (λ p, set_store p (<[i := c]> (store p))) w in
      Some (go (k ok) (if ok then hold (S (holds w i)) i w else w))
    end
  | Get_Id i k => Some (go (k (by_id pl !! i)) w)
  | Put_Id i a k => Some (go k (set_pool (λ p, set_by_id p (<[i := a]> (by_id p))) w))
  | Take_Id i k => Some (go (k (by_id pl !! i)) (set_pool (λ p, set_by_id p (delete i (by_id p))) w))
  | Drop_Ids ids k => Some (go k (set_pool (λ p, set_by_id p (foldl (λ m i, delete i m) (by_id p) ids)) w))
  | Indexed ts k =>
    Some (go (k (dedup (omap (λ i, conn_address <$> store pl !! i) (concat ((λ t, default [] (coalesced_by_target pl !! t)) <$> ts))))) w)
  | Candidates a rp ts k => let '(pl, found) := coalescing_candidates pl a rp ts ∅ in Some (go (k found) (set_pool (λ _, pl) w))
  | Put_Index i k => Some (go k (hold (S (holds w i)) i (set_pool (λ p, index_coalescing p i) w)))
  | Drop_Index ids k => Some (go k (set_pool (λ p, foldl remove_index_connection p ids) w))
  | Hook ids k => Some (go k (set_pool (λ p, notify_evictions p ids) w))
  end.

(** What can be asked of the pool. *)
Inductive Request : Type :=
| Rq_Acquire (a : Address) | Rq_AcquireHint (a : Address) | Rq_HasInUse (a : Address) | Rq_HasAcquirable (a : Address)
| Rq_GetById (a : Address) (i : ConnectionId) | Rq_AcquireById (a : Address) (i : ConnectionId)
| Rq_AcquireCoalesced (a : Address) (rp : RoutePlan)
| Rq_Remove (i : ConnectionId) | Rq_RemoveWithoutHook (i : ConnectionId) | Rq_PruneAll.
Definition request_code (r : Request) : prog :=
  match r with
  | Rq_Acquire a => acquire_code a
  | Rq_AcquireHint a => acquire_with_in_use_hint_code a
  | Rq_HasInUse a => has_in_use_connection_code a
  | Rq_HasAcquirable a => has_acquirable_connection_code a
  | Rq_GetById a i => get_by_id_code a i
  | Rq_AcquireById a i => acquire_by_id_code a i
  | Rq_AcquireCoalesced a rp => acquire_coalesced_code a rp
  | Rq_Remove i => remove_code i
  | Rq_RemoveWithoutHook i => remove_without_hook_code i (λ r, Ret r false)
  | Rq_PruneAll => prune_all_code
  end.

(** A new connection comes allocated; it is inserted once, by whoever has an allocation of it, who keeps it until the insertion is over; an
    allocation is released by whoever has it, which is where the operation starts; a connection is marked unhealthy; an operation is
    started, or goes on; time passes. *)
Inductive Move : Type :=
| Mv_Create (i : ConnectionId) (r : Route) (pr : ConnectionProtocol) (names : list string) (streams : Z)
| Mv_Insert (t : nat) (i : ConnectionId)
| Mv_Release (t : nat) (i : ConnectionId)
| Mv_MarkUnhealthy (i : ConnectionId)
| Mv_Ask (t : nat) (r : Request)
| Mv_Run (t : nat)
| Mv_Tick (now : Instant).

Definition move (w : World) (m : Move) : option World :=
  match m with
  | Mv_Create i r pr names streams =>
    match store (w_pool w) !! i with
    | Some _ => None
    | None =>
      let c := (try_acquire (connection_new (w_now w) r pr names streams)).2 in
      Some (hold 1 i (set_pool (λ p, set_store p (<[i := c]> (store p))) w))
    end
  | Mv_Insert t i =>
    match w_threads w !! t, store (w_pool w) !! i, holds w i with
    | None, Some c, S n =>
      if decide (i ∈ w_inserted w) then None
      else let w := hold n i (set_threads (<[t := insert_code (conn_address c) i]>) w) in
           Some (mkWorld (w_pool w) (w_held w) (w_threads w) (w_holds w) ({[i]} ∪ w_inserted w) (w_now w))
    | _, _, _ => None
    end
  | Mv_Release t i =>
    match w_threads w !! t, store (w_pool w) !! i, holds w i with
    | None, Some c, S n =>
      let '(ok, c') := conn_release (w_now w) c in
      let w := hold n i (set_pool (λ p, set_store p (<[i := c']> (store p))) w) in
      Some (if ok then set_threads (<[t := release_code (conn_address c)]>) w else w)
    | _, _, _ => None
    end
  | Mv_MarkUnhealthy i => Some (set_pool (λ p, pool_mark_unhealthy p i) w)
  | Mv_Ask t r => match w_threads w !! t with None => Some (set_threads (<[t := request_code r]>) w) | Some _ => None end
  | Mv_Run t => p ← w_threads w !! t; exec t p w
  | Mv_Tick now => if w_now w <=? now then Some (mkWorld (w_pool w) (w_held w) (w_threads w) (w_holds w) (w_inserted w) now) else None
  end.

Definition start (now : Instant) : World := mkWorld (pool_new ∅) ∅ ∅ ∅ ∅ now.
Inductive reachable : World → Prop :=
| reach_start now : reachable (start now)
| reach_move w m w' : reachable w → move w m = Some w' → reachable w'.
Fixpoint run (w : World) (ms : list Move) : option World :=
  match ms with [] => Some w | m :: ms => w ← move w m; run w ms end.
End Locks.
