(* ===== verification/PoolRaces.v ===== *)
(** * Interleaved pool operations

    Proofs about the machine of PoolLocks.v.  A ghost state per operation records what the operation knows and owes: the shard it
    has locked, the bucket it has read under that lock, the connections of it that it has seen idle, those it has closed and
    not yet taken out, those it still has to drop from the id map, the insertion or removal it is in the middle of.  [wp]
    says that a tree of critical sections respects its ghost state, by recursion on the tree; [consistent] ties the ghost
    states of all operations to the containers, and every move of the machine preserves it. *)

From S2P Require Import Prelude Net Planning RealConnection Pool PoolLocks.

(** ** Ghost states *)

(** How far an insertion has come: nothing yet, in the bucket, in the id map too. *)
Inductive Phase : Type := Allocated | Pushed | Named.

Record Ghost : Type := mkGhost {
  g_shard : option nat;
  g_view : option (Address * list ConnectionId);
  g_idle : list ConnectionId;
  g_doomed : list ConnectionId;
  g_owed : list ConnectionId;
  g_gone : list ConnectionId;
  g_ins : option (ConnectionId * Address * Phase);
  g_rm : option (ConnectionId * Address);
  g_cand : list ConnectionId;
}.
Definition no_ghost : Ghost := mkGhost None None [] [] [] [] None None [].

Definition see (l : list ConnectionId) (g : Ghost) : Ghost :=
  mkGhost (g_shard g) (g_view g) l (g_doomed g) (g_owed g) (g_gone g) (g_ins g) (g_rm g) (g_cand g).
Definition lock_ghost (n : nat) (g : Ghost) : Ghost :=
  mkGhost (Some n) None [] (g_doomed g) (g_owed g) (g_gone g) (g_ins g) (g_rm g) (g_cand g).
Definition unlock_ghost (g : Ghost) : Ghost :=
  mkGhost None None [] (g_doomed g) (g_owed g) (g_gone g) (g_ins g) None (g_cand g).
Definition view_ghost (a : Address) (l : list ConnectionId) (g : Ghost) : Ghost :=
  mkGhost (g_shard g) (Some (a, l)) [] (g_doomed g) (g_owed g) (g_gone g) (g_ins g) (g_rm g) (g_cand g).
Definition doom_ghost (i : ConnectionId) (g : Ghost) : Ghost :=
  mkGhost (g_shard g) (g_view g) (g_idle g) (g_doomed g ++ [i]) (g_owed g) (g_gone g) (g_ins g) (g_rm g) (g_cand g).
Definition owe_ghost (l : list ConnectionId) (g : Ghost) : Ghost :=
  mkGhost (g_shard g) (g_view g) (g_idle g) [] (g_owed g ++ l) (g_gone g ++ g_doomed g) (g_ins g) (g_rm g) (g_cand g).
Definition pay_ghost (g : Ghost) : Ghost :=
  mkGhost (g_shard g) (g_view g) (g_idle g) (g_doomed g) [] (g_gone g) (g_ins g) (g_rm g) (g_cand g).
Definition ins_ghost (x : option (ConnectionId * Address * Phase)) (g : Ghost) : Ghost :=
  mkGhost (g_shard g) (g_view g) (g_idle g) (g_doomed g) (g_owed g) (g_gone g) x (g_rm g) (g_cand g).
Definition rm_ghost (x : option (ConnectionId * Address)) (g : Ghost) : Ghost :=
  mkGhost (g_shard g) (g_view g) (g_idle g) (g_doomed g) (g_owed g) (g_gone g) (g_ins g) x (g_cand g).
Definition cand_ghost (l : list ConnectionId) (g : Ghost) : Ghost :=
  mkGhost (g_shard g) (g_view g) (g_idle g) (g_doomed g) (g_owed g) (g_gone g) (g_ins g) (g_rm g) l.

Definition viewed (g : Ghost) : list ConnectionId := from_option snd [] (g_view g).

(** Looking at a connection of the bucket and finding it idle. *)
Definition learn (i : ConnectionId) (v : option (RealConnection * Instant)) (g : Ghost) : Ghost :=
  match v with
  | Some (c, _) => if decide (i ∈ viewed g ∧ allocations (conn_state c) = 0) then see (i :: g_idle g) g else g
  | None => g
  end.

(** Of the connections taken out of a bucket, those the id map still has. *)
Definition still_named (g : Ghost) : list ConnectionId := filter (λ i, fst <$> g_rm g ≠ Some i) (g_doomed g).

Section Races.
#[local] Set Default Proof Using "Type".
Context (hash : Address → Z) (s : PoolSettings).
Abbreviation shard := (address_shard hash).

(** ** What an operation may do *)

Fixpoint wp (g : Ghost) (p : prog) : Prop :=
  match p with
  | Ret _ _ => g_shard g = None ∧ g_doomed g = [] ∧ g_owed g = [] ∧ g_ins g = None ∧ g_rm g = None
  | Lock n k => g_shard g = None ∧ wp (lock_ghost n g) k
  | Unlock k =>
    is_Some (g_shard g) ∧ g_doomed g = [] ∧
    (∀ i a, g_rm g = Some (i, a) → ∃ l, g_view g = Some (a, l) ∧ i ∉ l) ∧ wp (unlock_ghost g) k
  | Keys n k => g_shard g = Some n ∧ ∀ l, (∀ a, a ∈ l → shard a = n) → wp g (k l)
  | Get_Bucket a k =>
    g_shard g = Some (shard a) ∧ g_doomed g = [] ∧ ∀ l, NoDup (default [] l) → wp (view_ghost a (default [] l) g) (k l)
  | Put_Bucket a l k =>
    ∃ l0, g_view g = Some (a, l0) ∧
      ((l0 ≡ₚ l ++ g_doomed g ∧ wp (view_ghost a l (owe_ghost (still_named g) g)) k) ∨
       (∃ i, g_ins g = Some (i, a, Allocated) ∧ l = l0 ++ [i] ∧ g_doomed g = [] ∧
             wp (view_ghost a l (ins_ghost (Some (i, a, Pushed)) g)) k))
  | Look i k => ∀ v, (∀ c n, v = Some (c, n) → conn_ok c) → wp (learn i v g) (k v)
  | Evict i k => i ∈ viewed g ∧ i ∈ g_idle g ∧ (i ∉ g_doomed g) ∧ wp (doom_ghost i g) k
  | Close i k => i ∈ viewed g ∧ (∃ a, g_rm g = Some (i, a)) ∧ (i ∉ g_doomed g) ∧ wp (doom_ghost i g) k
  | Try_Acquire i k => (i ∈ viewed g ∨ i ∈ g_cand g) ∧ ∀ ok, wp (see [] g) (k ok)
  | Get_Id i k => ∀ r, wp g (k r)
  | Put_Id i a k => g_ins g = Some (i, a, Pushed) ∧ wp (ins_ghost (Some (i, a, Named)) g) k
  | Take_Id i k => g_rm g = None ∧ ∀ r, wp (rm_ghost (pair i <$> r) g) (k r)
  | Drop_Ids ids k => g_owed g ⊆ ids ∧ ids ⊆ g_gone g ∧ wp (pay_ghost g) k
  | Indexed ts k => ∀ l, wp g (k l)
  | Candidates a rp ts k => ∀ l, wp (cand_ghost l g) (k l)
  | Put_Index i k => (∃ a, g_ins g = Some (i, a, Named)) ∧ wp (ins_ghost None g) k
  | Drop_Index ids k => ids ⊆ g_gone g ∧ wp g k
  | Hook ids k => wp g k
  end.

(** *** Pruning *)

(** Only what is known to be idle has changed, and only to more. *)
Definition sees_more (g g' : Ghost) : Prop := ∃ l, g' = see l g ∧ g_idle g ⊆ l.

Lemma sees_more_refl g : sees_more g g.
Proof. exists (g_idle g). split; [by destruct g|done]. Qed.
Lemma sees_more_trans g g' g'' : sees_more g g' → sees_more g' g'' → sees_more g g''.
Proof. intros (l & -> & Hl) (l' & -> & Hl'). exists l'. split; [done|]. cbn in Hl'. set_solver. Qed.
Lemma learn_more i v g : sees_more g (learn i v g).
Proof.
  unfold learn. destruct v as [[c n]|]; [|apply sees_more_refl]. case_decide; [|apply sees_more_refl].
  exists (i :: g_idle g). split; [done|set_solver].
Qed.
Lemma learn_idle i c n g : i ∈ viewed g → allocations (conn_state c) = 0 → i ∈ g_idle (learn i (Some (c, n)) g).
Proof. intros. unfold learn. rewrite decide_True by done. cbn. set_solver. Qed.
Lemma sees_more_view g g' : sees_more g g' → g_view g' = g_view g ∧ g_doomed g' = g_doomed g ∧ g_idle g ⊆ g_idle g'.
Proof. by intros (l & -> & ?). Qed.

Lemma not_in_use_idle c : conn_ok c → ¬ in_use c → allocations (conn_state c) = 0.
Proof.
  intros Hok Hn. destruct (decide (health (conn_state c) = Closed)) as [E|E]; [by apply (ok_closed _ Hok)|].
  destruct (decide (allocations (conn_state c) = 0)); [done|]. exfalso. apply Hn, in_use_iff. done.
Qed.

Lemma wp_ask g i limit expired k :
  i ∈ viewed g → (∀ now c d, expired now c d = true → allocations (conn_state c) = 0) →
  (∀ g' b, sees_more g g' → (b = true → i ∈ g_idle g') → wp g' (k b)) → wp g (ask i limit expired k).
Proof.
  intros Hi Hexp Hk. destruct limit as [d|]; cbn [ask wp]; [|apply Hk; [apply sees_more_refl|done]].
  intros v _. apply Hk; [apply learn_more|]. destruct v as [[c now]|]; [|done]. intros E. apply learn_idle; [done|by eapply Hexp].
Qed.

Lemma wp_judge g i k :
  i ∈ viewed g → (∀ g' b, sees_more g g' → (b = true → i ∈ g_idle g') → wp g' (k b)) → wp g (judge s i k).
Proof.
  intros Hi Hk. unfold judge. cbn [wp]. intros v1 _. pose proof (learn_more i v1 g) as H1.
  assert (Hv : ∀ g', sees_more g g' → i ∈ viewed g') by (intros g' (E & _)%sees_more_view; unfold viewed in *; by rewrite E).
  destruct v1 as [[c1 n1]|]; [|by apply Hk]. destruct (negb (is_healthy c1)).
  - cbn [wp]. intros v2 Hok. apply Hk; [eapply sees_more_trans; [done|apply learn_more]|].
    destruct v2 as [[c2 n2]|]; [|done]. rewrite negb_true_iff, bool_decide_eq_false. intros Hn.
    apply learn_idle; [by apply Hv|apply not_in_use_idle; [by eapply Hok|done]].
  - apply wp_ask; [by apply Hv| |intros g2 [] Hg2 Hb].
    + intros now c d. unfold connection_lifetime_expired. rewrite andb_true_iff, bool_decide_eq_true, idle_iff. tauto.
    + apply Hk; [by eapply sees_more_trans|done].
    + assert (sees_more g g2) by (by eapply sees_more_trans). apply wp_ask; [by apply Hv| |].
      * intros now c d. unfold idle_connection_expired. rewrite andb_true_iff, bool_decide_eq_true, idle_iff. tauto.
      * intros g3 b Hg3. apply Hk. by eapply sees_more_trans.
Qed.

(** Nothing has changed but what is known to be idle and what has been closed. *)
Definition pruning (g g' : Ghost) : Prop :=
  ∃ l d, g' = mkGhost (g_shard g) (g_view g) l d (g_owed g) (g_gone g) (g_ins g) (g_rm g) (g_cand g).
Lemma pruning_refl g : pruning g g.
Proof. exists (g_idle g), (g_doomed g). by destruct g. Qed.
Lemma pruning_trans g g' g'' : pruning g g' → pruning g' g'' → pruning g g''.
Proof. intros (l & d & ->) (l' & d' & ->). by exists l', d'. Qed.
Lemma pruning_sees g g' : sees_more g g' → pruning g g'.
Proof. intros (l & -> & _). by exists l, (g_doomed g). Qed.
Lemma pruning_doom g i : pruning g (doom_ghost i g).
Proof. by exists (g_idle g), (g_doomed g ++ [i]). Qed.
Lemma pruning_view g g' : pruning g g' → g_view g' = g_view g.
Proof. by intros (l & d & ->). Qed.

Lemma wp_retain a L l kept removed k g :
  g_view g = Some (a, L) → g_doomed g = removed → NoDup L → L ≡ₚ kept ++ l ++ removed →
  (∀ kept' removed' g', L ≡ₚ kept' ++ removed' → pruning g g' → g_doomed g' = removed' → wp g' (k kept' removed')) →
  wp g (retain_loop s l kept removed k).
Proof.
  revert kept removed g. induction l as [|i l IH]; intros kept removed g Hv Hd Hnd HL Hk; cbn [retain_loop].
  { apply Hk; [done|apply pruning_refl|done]. }
  apply wp_judge; [unfold viewed; rewrite Hv; cbn; rewrite HL; set_solver|].
  intros g' b Hm Hb. destruct (sees_more_view _ _ Hm) as (Hv' & Hd' & _).
  destruct b.
  - cbn [wp]. split_and!; [unfold viewed; rewrite Hv', Hv; cbn; rewrite HL; set_solver|by apply Hb| |].
    { rewrite Hd', Hd. rewrite HL in Hnd. apply NoDup_app in Hnd as (_ & _ & Hnd). cbn in Hnd. set_unfold in Hnd.
      apply NoDup_cons in Hnd as [Hnd _]. set_solver. }
    apply IH; [by cbn; rewrite Hv'|by cbn; rewrite Hd', Hd|done|rewrite HL; solve_Permutation|].
    intros kept' removed' g2 H1 H2 H3. apply Hk; [done| |done].
    eapply pruning_trans; [|done]. eapply pruning_trans; [by apply pruning_sees|apply pruning_doom].
  - apply IH; [by rewrite Hv'|by rewrite Hd'|done|rewrite HL; solve_Permutation|].
    intros kept' removed' g2 H1 H2 H3. apply Hk; [done| |done]. eapply pruning_trans; [by apply pruning_sees|done].
Qed.

Lemma wp_scan_idle l acc k g :
  l ⊆ viewed g → (∀ i, i ∈ acc.*1 → i ∈ g_idle g) →
  (∀ acc' g', sees_more g g' → (∀ i, i ∈ acc'.*1 → i ∈ g_idle g') → wp g' (k acc')) → wp g (scan_idle l acc k).
Proof.
  revert acc g. induction l as [|i l IH]; intros acc g Hl Hacc Hk; cbn [scan_idle wp]; [apply Hk; [apply sees_more_refl|done]|].
  intros v _. pose proof (learn_more i v g) as Hm. destruct (sees_more_view _ _ Hm) as (Hv' & _ & Hsub).
  apply IH; [unfold viewed in *; rewrite Hv'; set_solver| |].
  - intros j. rewrite fmap_app, elem_of_app. intros [Hj|Hj]; [by apply Hsub, Hacc|].
    destruct v as [[c n]|]; [|by apply elem_of_nil in Hj]. case_bool_decide as Hidle; [|by apply elem_of_nil in Hj].
    apply idle_iff in Hidle as [_ Ha]. destruct (idle_since (conn_state c)); cbn in Hj; [|by apply elem_of_nil in Hj].
    apply list_elem_of_singleton in Hj as ->. apply learn_idle; [set_solver|done].
  - intros acc' g' H1 H2. apply Hk; [by eapply sees_more_trans|done].
Qed.

Lemma wp_close_loop evicted a L l kept removed k g :
  g_view g = Some (a, L) → g_doomed g = removed → NoDup L → L ≡ₚ kept ++ l ++ removed → evicted ⊆ g_idle g →
  (∀ kept' removed' g', L ≡ₚ kept' ++ removed' → pruning g g' → g_doomed g' = removed' → wp g' (k kept' removed')) →
  wp g (close_loop evicted l kept removed k).
Proof.
  revert kept removed g. induction l as [|i l IH]; intros kept removed g Hv Hd Hnd HL Hev Hk; cbn [close_loop].
  { apply Hk; [done|apply pruning_refl|done]. }
  case_bool_decide as Hi.
  - cbn [wp]. split_and!; [unfold viewed; rewrite Hv; cbn; rewrite HL; set_solver|by apply Hev| |].
    { rewrite Hd. rewrite HL in Hnd. apply NoDup_app in Hnd as (_ & _ & Hnd). cbn in Hnd.
      apply NoDup_cons in Hnd as [Hnd _]. set_solver. }
    apply IH; [done|by cbn; rewrite Hd|done|rewrite HL; solve_Permutation|done|].
    intros kept' removed' g2 H1 H2 H3. apply Hk; [done| |done]. eapply pruning_trans; [apply pruning_doom|done].
  - apply IH; [done|done|done|rewrite HL; solve_Permutation|done|done].
Qed.

Lemma wp_enforce a L l removed k g :
  g_view g = Some (a, L) → g_doomed g = removed → NoDup L → L ≡ₚ l ++ removed →
  (∀ kept' removed' g', L ≡ₚ kept' ++ removed' → pruning g g' → g_doomed g' = removed' → wp g' (k kept' removed')) →
  wp g (enforce_loop s l removed k).
Proof.
  intros Hv Hd Hnd HL Hk. unfold enforce_loop. destruct (_ =? USIZE_MAX); [by apply Hk; [|apply pruning_refl|]|].
  apply wp_scan_idle; [intros i Hi; unfold viewed; rewrite Hv; cbn; rewrite HL; set_solver|set_solver|].
  intros acc g' Hm Hacc. destruct (sees_more_view _ _ Hm) as (Hv' & Hd' & _).
  destruct (_ <=? _); [by apply Hk; [|apply pruning_sees|rewrite Hd']|].
  eapply wp_close_loop; [by rewrite Hv'|by rewrite Hd'|done|done| |].
  - intros i (x & -> & Hx)%list_elem_of_fmap. apply Hacc, list_elem_of_fmap_2. rewrite <- sort_by_key_Permutation.
    by eapply subseteq_take.
  - intros kept' removed' g2 H1 H2 H3. apply Hk; [done| |done]. eapply pruning_trans; [by apply pruning_sees|done].
Qed.

(** An address has been pruned: its bucket is known, and what was removed is owed. *)
Definition pruned_ghost (a : Address) (l removed : list ConnectionId) (g : Ghost) : Ghost :=
  mkGhost (g_shard g) (Some (a, l)) [] [] (g_owed g ++ removed) (g_gone g ++ removed) (g_ins g) (g_rm g) (g_cand g).

Lemma wp_prune a k g :
  g_shard g = Some (shard a) → g_doomed g = [] → g_rm g = None →
  (∀ l removed, wp (pruned_ghost a l removed g) (k removed)) → wp g (prune s a k).
Proof.
  intros Hs Hd Hrm Hk. unfold prune. cbn [wp]. split_and!; [done|done|]. intros [l|] Hnd; cbn [default] in *.
  - eapply wp_retain; [done|done|done|by rewrite app_nil_r|]. intros kept removed g1 HL Hp Hd1.
    eapply wp_enforce; [by rewrite (pruning_view _ _ Hp)|done|done|done|]. intros kept' removed' g2 HL' Hp' Hd2.
    pose proof (pruning_trans _ _ _ Hp Hp') as (I & D & ->). cbn in Hd2. subst D. cbn [wp]. exists l. split; [done|].
    left. split; [done|]. set (g' := mkGhost _ _ _ _ _ _ _ _ _).
    assert (still_named g' = removed') as -> by (unfold still_named; cbn; by rewrite Hrm, filter_all).
    apply (Hk kept' removed').
  - pose proof (Hk [] []) as H0. unfold pruned_ghost in H0. rewrite !app_nil_r in H0. unfold view_ghost. by rewrite Hd.
Qed.

Lemma wp_finish removed k g : g_owed g = removed → removed ⊆ g_gone g → wp (pay_ghost g) k → wp g (finish removed k).
Proof.
  intros Ho Hg Hk. destruct removed as [|i l]; cbn [finish wp].
  - destruct g. cbn in Ho. subst. done.
  - rewrite Ho. split_and!; done.
Qed.

(** *** The operations *)

(** A ghost state that owes nothing but what was pruned, under a lock. *)
Definition inside (g : Ghost) (removed : list ConnectionId) : Prop :=
  is_Some (g_shard g) ∧ g_doomed g = [] ∧ g_owed g = removed ∧ removed ⊆ g_gone g ∧ g_ins g = None ∧ g_rm g = None.

Lemma inside_see g removed l : inside g removed → inside (see l g) removed.
Proof. done. Qed.
Lemma inside_learn g removed i v : inside g removed → inside (learn i v g) removed.
Proof. unfold learn. intros H. by repeat case_match. Qed.

Lemma viewed_learn i v g : viewed (learn i v g) = viewed g.
Proof. unfold learn. by repeat case_match. Qed.

Lemma wp_find_loop l k g :
  (∀ i, i ∈ l → i ∈ viewed g ∨ i ∈ g_cand g) → (∀ g' r, g' = see (g_idle g') g → wp g' (k r)) → wp g (find_loop l k).
Proof.
  revert g. induction l as [|i l IH]; intros g Hl Hk; cbn [find_loop wp]; [apply Hk; by destruct g|].
  split; [apply Hl; set_solver|]. intros []; [by apply Hk|]. apply IH; [intros j Hj; apply Hl; set_solver|].
  intros g' r E. apply Hk. exact E.
Qed.

Lemma inside_eq g g' removed : g' = see (g_idle g') g → inside g removed → inside g' removed.
Proof. intros -> H. exact H. Qed.

Lemma wp_in_use_loop x l k g removed :
  inside g removed → (∀ g' b, inside g' removed → wp g' (k b)) → wp g (in_use_loop x l k).
Proof.
  intros Hin Hk. revert g Hin. induction l as [|i l IH]; intros g Hin; cbn [in_use_loop]; [by apply Hk|].
  case_bool_decide; [by apply IH|]. cbn [wp]. intros v _. pose proof (inside_learn g removed i v Hin).
  destruct v as [[c n]|]; [|by apply IH]. case_bool_decide; [by apply Hk|by apply IH].
Qed.

Lemma wp_acquirable_loop l k g removed :
  inside g removed → (∀ g' b, inside g' removed → wp g' (k b)) → wp g (acquirable_loop l k).
Proof.
  intros Hin Hk. revert g Hin. induction l as [|i l IH]; intros g Hin; cbn [acquirable_loop wp]; [by apply Hk|].
  intros v _. pose proof (inside_learn g removed i v Hin).
  destruct v as [[c n]|]; [|by apply IH]. destruct (can_acquire c); [by apply Hk|by apply IH].
Qed.

Lemma wp_leave g removed r flag : inside g removed → wp g (Unlock (finish removed (Ret r flag))).
Proof.
  intros (Hs & Hd & Ho & Hg & Hi & Hr). cbn [wp]. rewrite Hr. split_and!; [done|done|done|]. by apply wp_finish.
Qed.

Lemma wp_visit a body :
  (∀ g l removed k, viewed g = default [] l → inside g removed →
     (∀ g' r flag, inside g' removed → wp g' (k r flag)) → wp g (body l k)) →
  wp no_ghost (visit hash s a body).
Proof.
  intros Hbody. unfold visit. cbn [wp]. split; [done|]. apply wp_prune; [done..|]. intros l removed. cbn [wp].
  split_and!; [done|done|]. intros l' _. apply (Hbody _ _ removed); [done|by split_and!|].
  intros g' r flag. apply wp_leave.
Qed.

Lemma wp_acquire a : wp no_ghost (acquire_code hash s a).
Proof.
  apply wp_visit. intros g l removed k Hv Hin Hk. apply wp_find_loop; [rewrite Hv; auto|].
  intros g' r E. apply Hk. by eapply inside_eq.
Qed.
Lemma wp_acquire_with_in_use_hint a : wp no_ghost (acquire_with_in_use_hint_code hash s a).
Proof.
  apply wp_visit. intros g l removed k Hv Hin Hk. destruct l as [l|]; [|by apply Hk].
  apply wp_find_loop; [rewrite Hv; auto|]. intros g' r E. apply wp_in_use_loop with removed; [by eapply inside_eq|auto].
Qed.
Lemma wp_has_in_use_connection a : wp no_ghost (has_in_use_connection_code hash s a).
Proof.
  apply wp_visit. intros g l removed k Hv Hin Hk. destruct l as [l|]; [|by apply Hk].
  apply wp_in_use_loop with removed; auto.
Qed.
Lemma wp_get_by_id a i : wp no_ghost (get_by_id_code hash s a i).
Proof.
  apply wp_visit. intros g l removed k Hv Hin Hk. cbn [wp]. intros r. destruct (negb _); by apply Hk.
Qed.
Lemma wp_acquire_by_id a i : wp no_ghost (acquire_by_id_code hash s a i).
Proof.
  apply wp_visit. intros g l removed k Hv Hin Hk. cbn [wp]. intros r. destruct (negb _); [by apply Hk|].
  apply wp_find_loop; [intros j [_ Hj]%list_elem_of_filter; rewrite Hv; auto|].
  intros g' r' E. apply Hk. by eapply inside_eq.
Qed.
Lemma wp_has_acquirable_connection a : wp no_ghost (has_acquirable_connection_code hash a).
Proof.
  unfold has_acquirable_connection_code. cbn [wp]. split_and!; [done..|]. intros l _.
  apply wp_acquirable_loop with []; [by split_and!|]. intros g' b Hin. apply (wp_leave g' []). exact Hin.
Qed.

Lemma wp_insert a i : wp (ins_ghost (Some (i, a, Allocated)) no_ghost) (insert_code hash s a i).
Proof.
  unfold insert_code. cbn [wp]. split_and!; [done..|]. intros l _. eexists. split; [done|]. right. exists i.
  split_and!; [done..|]. apply wp_prune; [done..|]. intros l' removed. cbn [wp].
  split_and!; [by eexists|done|done|done|by eexists|]. by apply wp_finish.
Qed.
Lemma wp_release a : wp no_ghost (release_code hash s a).
Proof.
  unfold release_code. cbn [wp]. split; [done|]. apply wp_prune; [done..|]. intros l removed. by apply wp_leave.
Qed.

Lemma wp_remove i k : (∀ gone, wp (mkGhost None None [] [] [] gone None None []) (k None)) →
  (∀ gone, wp (mkGhost None None [] [] [] gone None None []) (k (Some i))) →
  wp no_ghost (remove_without_hook_code hash i k).
Proof.
  intros Hn Hs. unfold remove_without_hook_code. cbn [wp]. split; [done|]. intros [a|]; [|apply Hn].
  cbn [wp]. split_and!; [done..|]. intros [l|] Hnd; cbn [default] in *.
  - case_bool_decide as Hi.
    + cbn [wp]. split_and!; [done|by eexists|set_solver|]. exists l. split; [done|]. left.
      split; [rewrite (remove_first_Permutation i l Hi) at 1; cbn; solve_Permutation|].
      match goal with |- context [still_named ?g] => assert (still_named g = []) as -> end.
      { unfold still_named. cbn. by rewrite decide_False by (intros ?; congruence). }
      split; [done|]. split_and!; [by eexists|done| |apply Hs].
      intros j b [= <- <-]. eexists. split; [done|]. rewrite (remove_first_Permutation i l Hi) in Hnd.
      by apply NoDup_cons in Hnd as [? _].
    + cbn [wp]. exists l. split; [done|]. left. split; [by rewrite app_nil_r|].
      split_and!; [by eexists|done| |apply Hn]. intros j b [= <- <-]. by eexists.
  - cbn [wp]. split_and!; [by eexists|done| |apply Hn]. intros j b [= <- <-]. eexists. split; [done|set_solver].
Qed.

Lemma wp_prune_list l removed k g n :
  (∀ a, a ∈ l → shard a = n) → inside g removed → g_shard g = Some n →
  (∀ g' removed', inside g' removed' → wp g' (k removed')) → wp g (prune_list s l removed k).
Proof.
  revert removed g. induction l as [|a l IH]; intros removed g Hl Hin Hs Hk; cbn [prune_list]; [by apply Hk|].
  destruct Hin as (_ & Hd & Ho & Hg & Hi & Hr). apply wp_prune; [rewrite Hs; f_equal; symmetry; apply Hl; set_solver|done|done|].
  intros l' removed'. apply IH; [intros b Hb; apply Hl; set_solver| |done|done].
  split_and!; cbn; [by eexists|done|by rewrite Ho|set_solver|done|done].
Qed.

(** Between locks. *)
Definition outside (g : Ghost) (removed : list ConnectionId) : Prop :=
  g_shard g = None ∧ g_doomed g = [] ∧ g_owed g = removed ∧ removed ⊆ g_gone g ∧ g_ins g = None ∧ g_rm g = None.

Lemma wp_unlock g removed k : inside g removed → (∀ g', outside g' removed → wp g' k) → wp g (Unlock k).
Proof.
  intros (Hs & Hd & Ho & Hg & Hi & Hr) Hk. cbn [wp]. rewrite Hr. split_and!; [done|done|done|]. by apply Hk.
Qed.
Lemma inside_lock g removed n : outside g removed → inside (lock_ghost n g) removed.
Proof. intros (Hs & Hd & Ho & Hg & Hi & Hr). split_and!; cbn; try done. Qed.

Lemma wp_prune_shards shards removed g : outside g removed → wp g (prune_shards s shards removed).
Proof.
  revert removed g. induction shards as [|n shards IH]; intros removed g Hout; cbn [prune_shards].
  { destruct Hout as (? & ? & ? & ? & ? & ?). by apply wp_finish. }
  cbn [wp]. split; [apply Hout|]. split; [done|]. intros l Hl. apply (wp_prune_list l removed _ _ n); [done|by apply inside_lock|done|].
  intros g' removed' Hin. eapply wp_unlock; [done|]. intros g2. apply IH.
Qed.

Lemma wp_prune_each l removed k g :
  outside g removed → (∀ g' removed', outside g' removed' → wp g' (k removed')) → wp g (prune_each hash s l removed k).
Proof.
  revert removed g. induction l as [|a l IH]; intros removed g Hout Hk; cbn [prune_each]; [by apply Hk|].
  cbn [wp]. split; [apply Hout|]. 
  apply (wp_prune_list [a] removed (λ rs, Unlock (prune_each hash s l rs k)) _ (shard a)); [set_solver|by apply inside_lock|done|].
  intros g' removed' Hin. eapply wp_unlock; [done|]. intros g2 Hout2. by apply IH.
Qed.

Lemma wp_acquire_coalesced hash_order a rp : wp no_ghost (acquire_coalesced_code hash hash_order s a rp).
Proof.
  unfold acquire_coalesced_code. destruct (negb _); [done|]. destruct (direct_route_targets rp) as [|t ts]; [done|]. cbn [wp].
  intros l. apply wp_prune_each; [done|]. intros g' removed (Hs & Hd & Ho & Hg & Hi & Hr). apply wp_finish; [done|done|].
  cbn [wp]. intros found. apply wp_find_loop; [intros i; by right|]. intros g2 r ->. done.
Qed.

Lemma wp_request hash_order r : wp no_ghost (request_code hash hash_order s r).
Proof.
  destruct r; cbn [request_code].
  - apply wp_acquire.
  - apply wp_acquire_with_in_use_hint.
  - apply wp_has_in_use_connection.
  - apply wp_has_acquirable_connection.
  - apply wp_get_by_id.
  - apply wp_acquire_by_id.
  - apply wp_acquire_coalesced.
  - by apply wp_remove.
  - by apply wp_remove.
  - by apply wp_prune_shards.
Qed.
End Races.
