(* ===== verification/PoolInvariant.v ===== *)
(** * The pool's invariant under interleaving

    What ties the ghost states of PoolRaces.v to the containers ([consistent]), and that every kind of change an operation makes to
    the connections and the containers preserves it. *)

From S2P Require Import Prelude Net Planning RealConnection Pool PoolLocks PoolRaces.

Abbreviation Ghosts := (nat → Ghost) (only parsing).
Definition upd (t : nat) (g : Ghost) (G : Ghosts) : Ghosts := λ t', if decide (t' = t) then g else G t'.

Lemma upd_eq t g G : upd t g G t = g.
Proof. unfold upd. by rewrite decide_True. Qed.
Lemma upd_ne t t' g G : t' ≠ t → upd t g G t' = G t'.
Proof. intros. unfold upd. by rewrite decide_False. Qed.

Lemma upd_same {A} (f : Ghost → A) t g G : f g = f (G t) → ∀ t', f (upd t g G t') = f (G t').
Proof. intros E t'. unfold upd. by case_decide; subst. Qed.
Lemma upd_exists (P : Ghost → Prop) t g G : (P (G t) → P g) → (∃ t', P (G t')) → ∃ t', P (upd t g G t').
Proof.
  intros Hg [t' Ht']. exists t'. unfold upd. case_decide; subst; auto.
Qed.
Lemma upd_forall (P : Ghost → Prop) t g G : P g → (∀ t', t' ≠ t → P (G t')) → ∀ t', P (upd t g G t').
Proof. intros ? Hall t'. unfold upd. case_decide; subst; auto. Qed.

Definition is_shut (c : RealConnection) : Prop := health (conn_state c) = Closed.
Definition closed (p : Pool) (i : ConnectionId) : Prop := ∃ c, store p !! i = Some c ∧ is_shut c.
Definition address_of (p : Pool) (i : ConnectionId) : option Address := conn_address <$> store p !! i.

(** Inserted, and past the point where only its inserter may name it. *)
Definition settled (w : World) (G : Ghosts) (i : ConnectionId) : Prop :=
  i ∈ w_inserted w ∧ ∀ t a ph, g_ins (G t) = Some (i, a, ph) → ph = Named.

Section Invariant.
#[local] Set Default Proof Using "Type".
Context (hash : Address → Z).
Abbreviation shard := (address_shard hash).

Definition insertion_ok (p : Pool) (i : ConnectionId) (a : Address) (ph : Phase) : Prop :=
  match ph with
  | Allocated => ¬ closed p i ∧ by_id p !! i = None ∧ ∀ b, i ∉ bucket p b
  | Pushed => ¬ closed p i ∧ by_id p !! i = None ∧ i ∈ bucket p a
  | Named => i ∈ bucket p a ∨ closed p i
  end.

(** What a ghost state says is so. *)
Record thread_ok (w : World) (G : Ghosts) (g : Ghost) : Prop := mkThreadOk {
  t_view : ∀ a l, g_view g = Some (a, l) → g_shard g = Some (shard a) ∧ bucket (w_pool w) a = l;
  t_doomed : ∀ i, i ∈ g_doomed g → i ∈ viewed g ∧ closed (w_pool w) i ∧ settled w G i;
  t_idle : ∀ i, i ∈ g_idle g → i ∈ viewed g ∧ settled w G i ∧
    ∀ c, store (w_pool w) !! i = Some c → allocations (conn_state c) = 0 ∨ is_Some (coalescing_index_target c);
  t_gone : ∀ i, i ∈ g_gone g → closed (w_pool w) i ∧ settled w G i ∧ ∀ a, i ∉ bucket (w_pool w) a;
  t_owed : g_owed g ⊆ g_gone g;
  t_ins : ∀ i a ph, g_ins g = Some (i, a, ph) →
    i ∈ w_inserted w ∧ address_of (w_pool w) i = Some a ∧ (∀ t, i ∉ index (w_pool w) t) ∧ insertion_ok (w_pool w) i a ph;
  t_rm : ∀ i a, g_rm g = Some (i, a) → settled w G i ∧ by_id (w_pool w) !! i = None ∧ address_of (w_pool w) i = Some a;
  t_cand : ∀ i, i ∈ g_cand g → is_Some (target_of (store (w_pool w)) i);
}.

(** The containers, up to what the operations in progress have still to do. *)
Record consistent (w : World) (G : Ghosts) : Prop := mkConsistent {
  k_conn : ∀ i c, store (w_pool w) !! i = Some c → conn_ok c;
  k_count : ∀ i c, store (w_pool w) !! i = Some c → ¬ is_shut c →
    (∀ t a ph, g_ins (G t) = Some (i, a, ph) → allocations (conn_state c) = Z.of_nat (holds w i) + 1) ∧
    ((∀ t a ph, g_ins (G t) ≠ Some (i, a, ph)) → allocations (conn_state c) = Z.of_nat (holds w i));
  k_inserted : ∀ i, i ∈ w_inserted w → is_Some (store (w_pool w) !! i);
  k_bucket : ∀ a i, i ∈ bucket (w_pool w) a → i ∈ w_inserted w ∧ address_of (w_pool w) i = Some a ∧
    (closed (w_pool w) i → ∃ t, i ∈ g_doomed (G t));
  k_nodup : ∀ a l, by_address (w_pool w) !! a = Some l → l ≠ [] ∧ NoDup l;
  k_id : ∀ i a, by_id (w_pool w) !! i = Some a → settled w G i ∧ address_of (w_pool w) i = Some a ∧
    (i ∈ bucket (w_pool w) a ∨ ∃ t, i ∈ g_owed (G t));
  k_named : ∀ a i, i ∈ bucket (w_pool w) a →
    by_id (w_pool w) !! i = Some a ∨ (∃ t, g_ins (G t) = Some (i, a, Pushed)) ∨ ∃ t, g_rm (G t) = Some (i, a);
  k_index_wf : index_wf (w_pool w);
  k_index : ∀ t i, i ∈ index (w_pool w) t →
    i ∈ w_inserted w ∧ (closed (w_pool w) i ∨ ∃ a, i ∈ bucket (w_pool w) a);
  k_indexed : ∀ a t i, i ∈ bucket (w_pool w) a → target_of (store (w_pool w)) i = Some t →
    i ∈ index (w_pool w) t ∨ closed (w_pool w) i ∨ ∃ t' a ph, g_ins (G t') = Some (i, a, ph);
  k_locks : ∀ t n, g_shard (G t) = Some n ↔ w_held w !! n = Some t;
  k_unique : ∀ t t' i a ph a' ph', g_ins (G t) = Some (i, a, ph) → g_ins (G t') = Some (i, a', ph') → t = t';
  k_shut : ∀ i, closed (w_pool w) i → i ∈ w_inserted w;
  k_thread : ∀ t, thread_ok w G (G t);
}.

(** ** Changes to connections, and to ghost states alone *)

(** The connections that were there are still there, of the same route and protocol, and stay closed once closed. *)
Definition evolves (st st' : Store) : Prop :=
  ∀ i c, st !! i = Some c → ∃ c', st' !! i = Some c' ∧
    conn_route c' = conn_route c ∧ protocol c' = protocol c ∧ (is_shut c → is_shut c').

(** Ghost states that only differ in what they know. *)
Record steady (G G' : Ghosts) : Prop := mkSteady {
  s_shard : ∀ t, g_shard (G' t) = g_shard (G t);
  s_ins : ∀ t, g_ins (G' t) = g_ins (G t);
  s_rm : ∀ t, g_rm (G' t) = g_rm (G t);
  s_owed : ∀ t, g_owed (G' t) = g_owed (G t);
  s_doomed : ∀ t, g_doomed (G t) ⊆ g_doomed (G' t);
}.

Lemma evolves_address st st' i a : evolves st st' → conn_address <$> st !! i = Some a → conn_address <$> st' !! i = Some a.
Proof.
  intros He. destruct (st !! i) as [c|] eqn:E; [|done]. cbn. intros [= <-].
  destruct (He i c E) as (c' & -> & Hr & _). cbn. unfold conn_address. by rewrite Hr.
Qed.
Lemma evolves_target st st' i c c' :
  evolves st st' → st !! i = Some c → st' !! i = Some c' → coalescing_index_target c' = coalescing_index_target c.
Proof.
  intros He Hc Hc'. destruct (He i c Hc) as (c2 & E & Hr & Hp & _). simplify_eq.
  unfold coalescing_index_target, connection_allows_h2_coalescing, conn_address. by rewrite Hr, Hp.
Qed.
Lemma evolves_target_of st st' i : evolves st st' → is_Some (st !! i) → target_of st' i = target_of st i.
Proof.
  intros He [c Hc]. destruct (He i c Hc) as (c' & Hc' & _). unfold target_of. rewrite Hc, Hc'. cbn.
  by eapply evolves_target.
Qed.

Section Store_Change.
Context (w w' : World) (G G' : Ghosts) (st' : Store).
Context (Hpool : w_pool w' = set_store (w_pool w) st') (Hheld : w_held w' = w_held w) (Hinserted : w_inserted w' = w_inserted w).
Context (Hst : evolves (store (w_pool w)) st') (Hsteady : steady G G').
Context (Hopen : ∀ i, closed (w_pool w') i → closed (w_pool w) i ∨ settled w G i).
#[local] Set Default Proof Using "All".

Lemma steady_settled i : settled w' G' i ↔ settled w G i.
Proof. unfold settled. rewrite Hinserted. by setoid_rewrite (s_ins _ _ Hsteady). Qed.

Lemma store_closed i : closed (w_pool w) i → closed (w_pool w') i.
Proof.
  intros (c & Hc & Hs). destruct (Hst i c Hc) as (c' & Hc' & _ & _ & Hsh). exists c'. rewrite Hpool. split; [done|by apply Hsh].
Qed.
Lemma store_address i a : address_of (w_pool w) i = Some a → address_of (w_pool w') i = Some a.
Proof. unfold address_of. rewrite Hpool. by apply evolves_address. Qed.

(** A ghost state stays true if nothing it knows to be idle was allocated. *)
Lemma store_thread t g :
  consistent w G → thread_ok w G g → g_ins g = g_ins (G t) →
  (∀ i c c', i ∈ g_idle g → store (w_pool w) !! i = Some c → st' !! i = Some c' → allocations (conn_state c) = 0 →
     allocations (conn_state c') = 0 ∨ is_Some (coalescing_index_target c')) →
  thread_ok w' G' g.
Proof.
  intros Hw [H1 H2 H3 H4 H5 H6 H7 H8] Hg Hidle.
  assert (Hb : ∀ a, bucket (w_pool w') a = bucket (w_pool w) a) by (intros; by rewrite Hpool).
  assert (Hn : by_id (w_pool w') = by_id (w_pool w)) by (by rewrite Hpool).
  assert (Hx : ∀ t, index (w_pool w') t = index (w_pool w) t) by (intros; by rewrite Hpool).
  constructor; try setoid_rewrite Hb; try setoid_rewrite steady_settled; try done.
  - intros i Hi. destruct (H2 i Hi) as (? & ? & ?). eauto using store_closed.
  - intros i Hi. destruct (H3 i Hi) as (? & Hset & Hc). split_and!; [done|done|]. rewrite Hpool. cbn. intros c' Hc'.
    destruct (k_inserted _ _ Hw i (proj1 Hset)) as [c E].
    destruct (Hc c E) as [?|?]; [by eapply Hidle|]. right. by erewrite evolves_target.
  - intros i Hi. destruct (H4 i Hi) as (? & ? & ?). eauto using store_closed.
  - intros i a ph Hi. destruct (H6 i a ph Hi) as (? & ? & ? & Hph). rewrite Hinserted. setoid_rewrite Hx.
    split_and!; [done|by apply store_address|done|].
    assert (Hno : ph ≠ Named → ¬ closed (w_pool w) i → ¬ closed (w_pool w') i).
    { intros Hne Hcl Hcl'. destruct (Hopen i Hcl') as [?|[_ Hset]]; [done|]. rewrite Hg in Hi. by apply Hset in Hi. }
    destruct ph; cbn in *; rewrite ?Hn, ?Hb; [|naive_solver|].
    + destruct Hph as (? & ? & Hnb). split_and!; [by apply Hno|done|]. intros b. rewrite Hb. apply Hnb.
    + destruct Hph; [by left|right; by apply store_closed].
  - intros i a Hi. destruct (H7 i a Hi) as (? & ? & ?). rewrite Hn. eauto using store_address.
  - intros i Hi. specialize (H8 i Hi). rewrite Hpool. cbn. rewrite (evolves_target_of (store (w_pool w))); [done|done|].
    unfold target_of in H8. destruct (store (w_pool w) !! i); [done|]. by destruct H8.
Qed.

Lemma store_consistent :
  consistent w G →
  (∀ i c, st' !! i = Some c → conn_ok c) →
  (∀ i c, st' !! i = Some c → ¬ is_shut c →
     (∀ t a ph, g_ins (G t) = Some (i, a, ph) → allocations (conn_state c) = Z.of_nat (holds w' i) + 1) ∧
     ((∀ t a ph, g_ins (G t) ≠ Some (i, a, ph)) → allocations (conn_state c) = Z.of_nat (holds w' i))) →
  (∀ a i, i ∈ bucket (w_pool w) a → closed (w_pool w') i → closed (w_pool w) i ∨ ∃ t, i ∈ g_doomed (G' t)) →
  (∀ t, thread_ok w' G' (G' t)) →
  consistent w' G'.
Proof.
  intros [K1 K2 K3 K4 K5 K6 K7 K8 K9 K10 K11 K12 Ks K13] Hok Hcount Hclose Hthreads.
  assert (Hb : ∀ a, bucket (w_pool w') a = bucket (w_pool w) a) by (intros; by rewrite Hpool).
  assert (Hn : by_id (w_pool w') = by_id (w_pool w)) by (by rewrite Hpool).
  assert (Hx : ∀ t, index (w_pool w') t = index (w_pool w) t) by (intros; by rewrite Hpool).
  assert (Hsome : ∀ a i, i ∈ bucket (w_pool w) a → is_Some (store (w_pool w) !! i)) by (intros a i Hi; by eapply K3, K4).
  constructor; try setoid_rewrite Hb; try setoid_rewrite Hx; try setoid_rewrite (s_ins _ _ Hsteady);
    try setoid_rewrite steady_settled; rewrite ?Hn, ?Hinserted, ?Hheld; try done.
  - by rewrite Hpool.
  - by rewrite Hpool.
  - intros i Hi. destruct (K3 i Hi) as [c Hc]. destruct (Hst i c Hc) as (c' & ? & _). rewrite Hpool. by exists c'.
  - intros a i Hi. destruct (K4 a i Hi) as (? & ? & Hd). split_and!; [done|by apply store_address|]. intros Hcl.
    destruct (Hclose a i Hi Hcl) as [?|?]; [|done]. destruct Hd as [t Ht]; [done|]. exists t. by apply (s_doomed _ _ Hsteady).
  - by rewrite Hpool.
  - intros i a Hi. destruct (K6 i a Hi) as (? & ? & Hor). split_and!; [done|by apply store_address|].
    by setoid_rewrite (s_owed _ _ Hsteady).
  - setoid_rewrite (s_rm _ _ Hsteady). done.
  - rewrite Hpool. destruct K8 as [? Hix]. split; [done|]. intros t i Hi. cbn.
    rewrite (evolves_target_of (store (w_pool w))); [by apply Hix|done|]. by eapply K3, K9.
  - intros t i Hi. destruct (K9 t i Hi) as (? & Hor). split; [done|]. destruct Hor; [left; by apply store_closed|by right].
  - intros a t i Hi. rewrite Hpool. cbn. rewrite (evolves_target_of (store (w_pool w))) by eauto. intros Ht.
    destruct (K10 a t i Hi Ht) as [?|[?|?]]; [by left|right; left; rewrite <- Hpool; by apply store_closed|by right; right].
  - setoid_rewrite (s_shard _ _ Hsteady). done.
  - intros i Hi. destruct (Hopen i Hi) as [?|[? _]]; auto.
Qed.
End Store_Change.

Lemma steady_upd t g G :
  g_shard g = g_shard (G t) → g_ins g = g_ins (G t) → g_rm g = g_rm (G t) → g_owed g = g_owed (G t) →
  g_doomed (G t) ⊆ g_doomed g → steady G (upd t g G).
Proof. intros. constructor; [by apply upd_same..|]. intros t'. unfold upd. by case_decide; subst. Qed.
Lemma steady_refl G : steady G G.
Proof. done. Qed.

Lemma evolves_refl st : evolves st st.
Proof. intros i c Hc. by exists c. Qed.

(** An operation learns or forgets something. *)
Lemma local_consistent w w' G t g :
  w_pool w' = w_pool w → w_held w' = w_held w → w_inserted w' = w_inserted w → w_holds w' = w_holds w →
  consistent w G → g_shard g = g_shard (G t) → g_ins g = g_ins (G t) → g_rm g = g_rm (G t) → g_owed g = g_owed (G t) →
  g_doomed (G t) ⊆ g_doomed g → thread_ok w G g → consistent w' (upd t g G).
Proof.
  intros Hp Hh Hi Ho Hw E1 E2 E3 E4 E5 Hg. pose proof (steady_upd t g G E1 E2 E3 E4 E5) as Hs.
  assert (Hp' : w_pool w' = set_store (w_pool w) (store (w_pool w))) by (rewrite Hp; by destruct (w_pool w)).
  eapply store_consistent; [done..|apply evolves_refl|done| |done|by apply (k_conn w G)| | |].
  - intros i. rewrite Hp. by left.
  - unfold holds. rewrite Ho. by apply (k_count w G).
  - intros a i _. rewrite Hp. by left.
  - apply upd_forall.
    + eapply (store_thread w w' G); [done..|apply evolves_refl|done| |done|done|done|naive_solver]. intros i. rewrite Hp. by left.
    + intros t' _. eapply (store_thread w w' G); [done..|apply evolves_refl|done| |done|by apply k_thread|done|naive_solver].
      intros i. rewrite Hp. by left.
Qed.

(** ** Changes to the containers *)

(** A ghost state stays true when the connections do not change and the containers agree with it. *)
Lemma frame_thread w w' G G' g :
  thread_ok w G g → store (w_pool w') = store (w_pool w) → (∀ i, settled w G i → settled w' G' i) → w_inserted w ⊆ w_inserted w' →
  (∀ a l, g_view g = Some (a, l) → bucket (w_pool w') a = bucket (w_pool w) a) →
  (∀ i a, settled w G i → i ∈ bucket (w_pool w') a → i ∈ bucket (w_pool w) a) →
  (∀ i a ph, g_ins g = Some (i, a, ph) → (∀ t, i ∈ index (w_pool w') t → i ∈ index (w_pool w) t) ∧
     (insertion_ok (w_pool w) i a ph → insertion_ok (w_pool w') i a ph)) →
  (∀ i a, g_rm g = Some (i, a) → settled w G i → by_id (w_pool w) !! i = None → by_id (w_pool w') !! i = None) →
  thread_ok w' G' g.
Proof.
  intros [H1 H2 H3 H4 H5 H6 H7 H8] Hst Hset Hins Hview Hgone Hph Hrm.
  assert (Hcl : ∀ i, closed (w_pool w') i ↔ closed (w_pool w) i) by (intros; unfold closed; by rewrite Hst).
  assert (Had : ∀ i, address_of (w_pool w') i = address_of (w_pool w) i) by (intros; unfold address_of; by rewrite Hst).
  constructor; rewrite ?Hst; try setoid_rewrite Hcl; try setoid_rewrite Had; try done.
  - intros a l Hv. rewrite (Hview a l Hv). by apply H1.
  - intros i Hi. destruct (H2 i Hi) as (? & ? & ?). auto.
  - intros i Hi. destruct (H3 i Hi) as (? & ? & ?). auto.
  - intros i Hi. destruct (H4 i Hi) as (? & ? & Hb). split_and!; [auto..|]. intros a Ha. apply (Hb a). by apply Hgone.
  - intros i a ph Hi. destruct (H6 i a ph Hi) as (? & ? & Hix & ?). destruct (Hph i a ph Hi) as [Hix' ?].
    split_and!; [set_solver|done| |auto]. intros t Ht. by apply (Hix t), Hix'.
  - intros i a Hi. destruct (H7 i a Hi) as (? & ? & ?). eauto.
Qed.

Lemma insertion_ok_ext p p' i a ph :
  store p' = store p → by_id p' !! i = by_id p !! i → (∀ b, bucket p' b = bucket p b) → insertion_ok p i a ph → insertion_ok p' i a ph.
Proof.
  intros Hst Hid Hb. unfold insertion_ok, closed. rewrite Hst, Hid, Hb. destruct ph; [|done..].
  intros (? & ? & Hn). split_and!; [done..|]. intros b. rewrite Hb. apply Hn.
Qed.

Lemma same_settled w w' t g G i :
  w_inserted w' = w_inserted w → g_ins g = g_ins (G t) → settled w' (upd t g G) i ↔ settled w G i.
Proof. intros Hi E. unfold settled. rewrite Hi. by setoid_rewrite (upd_same g_ins t g G E). Qed.

(** The parts of a ghost state a step does not touch. *)
Ltac ghosts t g G :=
  try setoid_rewrite (upd_same g_ins t g G eq_refl); try setoid_rewrite (upd_same g_rm t g G eq_refl);
  try setoid_rewrite (upd_same g_owed t g G eq_refl); try setoid_rewrite (upd_same g_doomed t g G eq_refl);
  try setoid_rewrite (upd_same g_shard t g G eq_refl).

(** A shard is locked. *)
Lemma lock_consistent w G t n :
  consistent w G → w_held w !! n = None → g_shard (G t) = None → g_doomed (G t) = [] →
  consistent (set_held (<[n := t]>) w) (upd t (lock_ghost n (G t)) G).
Proof.
  intros Hw Hn Hs Hd. pose proof Hw as [K1 K2 K3 K4 K5 K6 K7 K8 K9 K10 K11 K12 Ks K13].
  set (g := lock_ghost n (G t)). set (w' := set_held _ w).
  assert (Hset : ∀ i, settled w' (upd t g G) i ↔ settled w G i) by (intros; by apply same_settled).
  constructor; try setoid_rewrite Hset; ghosts t g G; try done.
  - intros t' m. unfold w'. cbn. rewrite lookup_insert_Some. unfold upd. case_decide as E; subst; cbn; [|rewrite K11]; naive_solver.
  - apply upd_forall.
    + destruct (K13 t) as [H1 H2 H3 H4 H5 H6 H7 H8]. constructor; cbn; try setoid_rewrite Hset; try done; rewrite ?Hd; set_solver.
    + intros t' _. apply (frame_thread w _ G); try done. intros i. by apply Hset.
Qed.

(** A shard is released; a removal that found nothing to remove is over. *)
Lemma unlock_consistent w G t :
  consistent w G → g_doomed (G t) = [] →
  (∀ i a, g_rm (G t) = Some (i, a) → ∃ l, g_view (G t) = Some (a, l) ∧ i ∉ l) →
  consistent (set_held (filter (λ kv, kv.2 ≠ t)) w) (upd t (unlock_ghost (G t)) G).
Proof.
  intros Hw Hd Hrm. pose proof Hw as [K1 K2 K3 K4 K5 K6 K7 K8 K9 K10 K11 K12 Ks K13].
  set (g := unlock_ghost (G t)). set (w' := set_held _ w).
  assert (Hset : ∀ i, settled w' (upd t g G) i ↔ settled w G i) by (intros; by apply same_settled).
  constructor; try setoid_rewrite Hset; ghosts t g G; try done.
  - intros a i Hi. destruct (K7 a i Hi) as [?|[?|[t' Ht']]]; [by left|by right; left|].
    right; right. exists t'. rewrite upd_ne; [done|]. intros ->. destruct (Hrm i a Ht') as (l & Hv & Hn).
    apply (t_view _ _ _ (K13 t)) in Hv as [_ Hv]. apply Hn. rewrite <- Hv. exact Hi.
  - intros t' m. unfold w'. cbn. rewrite map_lookup_filter_Some, <- K11. unfold upd. case_decide; subst; cbn; naive_solver.
  - apply upd_forall.
    + destruct (K13 t) as [H1 H2 H3 H4 H5 H6 H7 H8]. constructor; cbn; try setoid_rewrite Hset; try done; rewrite ?Hd; set_solver.
    + intros t' _. apply (frame_thread w _ G); try done. intros i. by apply Hset.
Qed.

(** The insertions of the other operations are of other connections. *)
Lemma advance_ins w G t i a ph0 x t' j b ph :
  consistent w G → g_ins (G t) = Some (i, a, ph0) → g_ins (upd t (ins_ghost x (G t)) G t') = Some (j, b, ph) →
  (t' = t ∧ x = Some (j, b, ph)) ∨ (t' ≠ t ∧ j ≠ i ∧ g_ins (G t') = Some (j, b, ph)).
Proof.
  intros Hw Hins. unfold upd. case_decide as E; [by left|]. intros Hj. right. split_and!; [done| |done].
  intros ->. apply E. by eapply k_unique.
Qed.

(** A connection gets its id. *)
Lemma put_id_consistent w G t i a :
  consistent w G → g_ins (G t) = Some (i, a, Pushed) →
  consistent (set_pool (λ p, set_by_id p (<[i := a]> (by_id p))) w) (upd t (ins_ghost (Some (i, a, Named)) (G t)) G).
Proof.
  intros Hw Hins. pose proof Hw as [K1 K2 K3 K4 K5 K6 K7 K8 K9 K10 K11 K12 Ks K13].
  set (g := ins_ghost _ (G t)). set (w' := set_pool _ w).
  destruct (t_ins _ _ _ (K13 t) i a Pushed Hins) as (Hin & Had & Hix & Hcl & Hid & Hb).
  assert (Hins' : ∀ t' j b ph, g_ins (upd t g G t') = Some (j, b, ph) →
    (t' = t ∧ j = i ∧ b = a ∧ ph = Named) ∨ (j ≠ i ∧ g_ins (G t') = Some (j, b, ph))).
  { intros t' j b ph Hj. destruct (advance_ins w G t i a Pushed _ t' j b ph Hw Hins Hj); naive_solver. }
  assert (Hset : ∀ j, settled w G j → settled w' (upd t g G) j).
  { intros j [? Hj]. split; [done|]. intros t' b ph [?|[? ?]]%Hins'; [naive_solver|by eapply Hj]. }
  constructor; ghosts t g G; try done.
  - intros j c Hc Ho. destruct (K2 j c Hc Ho) as [Hj1 Hj2]. split.
    + intros t' b ph [(-> & -> & -> & ->)|[? ?]]%Hins'; [by eapply Hj1|by eapply Hj1].
    + intros Hno. apply Hj2. intros t' b ph E. destruct (decide (t' = t)) as [->|Hne].
      * rewrite Hins in E. simplify_eq. apply (Hno t b Named). by rewrite upd_eq.
      * apply (Hno t' b ph). by rewrite upd_ne.
  - intros j b. unfold w'. cbn. rewrite lookup_insert_Some. intros [[<- <-]|[Hne Hj]].
    + split_and!; [|done|by left]. split; [done|]. intros t' b ph [?|[? ?]]%Hins'; [naive_solver|done].
    + destruct (K6 j b Hj) as (? & ? & ?). auto.
  - intros b j Hj. unfold w'. cbn. destruct (decide (j = i)) as [->|Hne].
    + left. destruct (K4 b i Hj) as (_ & Hb' & _). rewrite lookup_insert_eq. congruence.
    + rewrite lookup_insert_ne by done. destruct (K7 b j Hj) as [?|[[t' Ht']|?]]; [by left|right; left|by right; right].
      exists t'. rewrite upd_ne; [done|]. intros ->. congruence.
  - intros b tg j Hj Ht. destruct (K10 b tg j Hj Ht) as [?|[?|(t' & b' & ph & E)]]; [by left|by right; left|].
    right; right. destruct (decide (t' = t)) as [->|Hne].
    + rewrite Hins in E. simplify_eq. exists t, b', Named. by rewrite upd_eq.
    + exists t', b', ph. by rewrite upd_ne.
  - intros t1 t2 j b ph b' ph' [(-> & -> & _)|[? ?]]%Hins' [(-> & ? & _)|[? ?]]%Hins'; [done|done|naive_solver|by eapply K12].
  - apply upd_forall.
    + destruct (K13 t) as [H1 H2 H3 H4 H5 H6 H7 H8]. constructor; cbn; try done.
      * intros j Hj. destruct (H2 j Hj) as (? & ? & ?). auto.
      * intros j Hj. destruct (H3 j Hj) as (? & ? & ?). auto.
      * intros j Hj. destruct (H4 j Hj) as (? & ? & ?). auto.
      * intros j b ph [= <- <- <-]. split_and!; [done|done|done|by left].
      * intros j b Hj. destruct (H7 j b Hj) as (Hs & ? & ?). split_and!; [auto| |done]. rewrite lookup_insert_ne; [done|].
        intros <-. destruct Hs as [_ Hs]. by apply Hs in Hins.
    + intros t' Ht'. apply (frame_thread w _ G); try done.
      * intros j b ph Hj. split; [done|]. apply insertion_ok_ext; [done| |done]. cbn. rewrite lookup_insert_ne; [done|].
        intros <-. apply Ht'. by eapply K12.
      * intros j b _ [_ Hs] Hn. cbn. rewrite lookup_insert_ne; [done|]. intros <-. by apply Hs in Hins.
Qed.

(** A removal takes an id. *)
Lemma take_id_consistent w G t i a :
  consistent w G → g_rm (G t) = None → by_id (w_pool w) !! i = Some a →
  consistent (set_pool (λ p, set_by_id p (delete i (by_id p))) w) (upd t (rm_ghost (Some (i, a)) (G t)) G).
Proof.
  intros Hw Hrm Hid. pose proof Hw as [K1 K2 K3 K4 K5 K6 K7 K8 K9 K10 K11 K12 Ks K13].
  set (g := rm_ghost _ (G t)). set (w' := set_pool _ w). destruct (K6 i a Hid) as (Hseti & Had & _).
  assert (Hset : ∀ j, settled w' (upd t g G) j ↔ settled w G j) by (intros; by apply same_settled).
  assert (Hdel : ∀ j, by_id (w_pool w) !! j = None → by_id (w_pool w') !! j = None).
  { intros j Hj. unfold w'. cbn. rewrite lookup_delete_None. by right. }
  constructor; try setoid_rewrite Hset; ghosts t g G; try done.
  - intros j b. unfold w'. cbn. intros [_ Hj]%lookup_delete_Some. destruct (K6 j b Hj) as (? & ? & ?). auto.
  - intros b j Hj. unfold w'. cbn. destruct (decide (j = i)) as [->|Hne].
    + right; right. exists t. rewrite upd_eq. cbn. destruct (K4 b i Hj) as (_ & ? & _). congruence.
    + rewrite lookup_delete_ne by done. destruct (K7 b j Hj) as [?|[?|?]]; [by left|by right; left|right; right].
      apply (upd_exists (λ g, g_rm g = Some (j, b))); [congruence|done].
  - apply upd_forall.
    + destruct (K13 t) as [H1 H2 H3 H4 H5 H6 H7 H8]. constructor; cbn [g rm_ghost g_view g_shard g_doomed g_idle g_gone g_owed g_ins g_rm g_cand];
        try setoid_rewrite Hset; try done.
      * intros j b ph Hj. destruct (H6 j b ph Hj) as (? & ? & ? & Hph). split_and!; [done..|]. destruct ph; cbn in *; naive_solver.
      * intros j b [= <- <-]. split_and!; [done| |done]. unfold w'. cbn. by rewrite lookup_delete_eq.
    + intros t' _. apply (frame_thread w _ G); try done; [intros j; by apply Hset| |auto].
      intros j b ph Hj. split; [done|]. destruct ph; cbn; naive_solver.
Qed.

(** Closed connections lose their ids. *)
Lemma drop_ids_consistent w G t ids :
  consistent w G → g_owed (G t) ⊆ ids → ids ⊆ g_gone (G t) →
  consistent (set_pool (λ p, set_by_id p (foldl (λ m i, delete i m) (by_id p) ids)) w) (upd t (pay_ghost (G t)) G).
Proof.
  intros Hw Howed Hids. pose proof Hw as [K1 K2 K3 K4 K5 K6 K7 K8 K9 K10 K11 K12 Ks K13].
  set (g := pay_ghost (G t)). set (w' := set_pool _ w). pose proof (t_gone _ _ _ (K13 t)) as Hgone.
  assert (Hset : ∀ j, settled w' (upd t g G) j ↔ settled w G j) by (intros; by apply same_settled).
  assert (Hlook : ∀ j, by_id (w_pool w') !! j = if bool_decide (j ∈ ids) then None else by_id (w_pool w) !! j).
  { intros j. apply delete_all_lookup. }
  assert (Hdel : ∀ j, by_id (w_pool w) !! j = None → by_id (w_pool w') !! j = None).
  { intros j Hj. rewrite Hlook. by case_bool_decide. }
  constructor; try setoid_rewrite Hset; ghosts t g G; try done.
  - intros j b. rewrite Hlook. case_bool_decide as Hj; [done|]. intros Hb. destruct (K6 j b Hb) as (? & ? & Hor). split_and!; [done..|].
    destruct Hor as [?|[t' Ht']]; [by left|right]. exists t'. rewrite upd_ne; [done|]. intros ->. by apply Hj, Howed.
  - intros b j Hj. rewrite Hlook. rewrite bool_decide_eq_false_2; [by apply K7|]. intros Hin.
    destruct (Hgone j (Hids j Hin)) as (_ & _ & Hn). by apply (Hn b).
  - apply upd_forall.
    + destruct (K13 t) as [H1 H2 H3 H4 H5 H6 H7 H8]. constructor; cbn [g pay_ghost g_view g_shard g_doomed g_idle g_gone g_owed g_ins g_rm g_cand];
        try setoid_rewrite Hset; try done.
      * set_solver.
      * intros j b ph Hj. destruct (H6 j b ph Hj) as (? & ? & ? & Hph). split_and!; [done..|]. destruct ph; cbn in *; naive_solver.
      * intros j b Hj. destruct (H7 j b Hj) as (? & ? & ?). auto.
    + intros t' _. apply (frame_thread w _ G); try done; [intros j; by apply Hset| |auto].
      intros j b ph Hj. split; [done|]. destruct ph; cbn; naive_solver.
Qed.

(** Closed connections leave the index. *)
Lemma index_consistent w p' G t g :
  consistent w G → store p' = store (w_pool w) → by_address p' = by_address (w_pool w) → by_id p' = by_id (w_pool w) →
  index_wf p' → (∀ tg i, i ∈ index p' tg → i ∈ index (w_pool w) tg) →
  (∀ tg i, i ∈ index (w_pool w) tg → i ∉ index p' tg → closed (w_pool w) i) →
  (g = G t ∨ ∃ l, g = cand_ghost l (G t) ∧ ∀ i, i ∈ l → is_Some (target_of (store (w_pool w)) i)) →
  consistent (set_pool (λ _, p') w) (upd t g G).
Proof.
  intros Hw Hst Hba Hid Hwf Hsub Hdrop Hg. pose proof Hw as [K1 K2 K3 K4 K5 K6 K7 K8 K9 K10 K11 K12 Ks K13].
  assert (g_ins g = g_ins (G t) ∧ g_rm g = g_rm (G t) ∧ g_owed g = g_owed (G t) ∧ g_doomed g = g_doomed (G t) ∧ g_shard g = g_shard (G t))
    as (E1 & E2 & E3 & E4 & E5) by (by destruct Hg as [->|(l & -> & _)]).
  set (w' := set_pool _ w).
  assert (Hset : ∀ j, settled w' (upd t g G) j ↔ settled w G j) by (intros; by apply same_settled).
  assert (Hb : ∀ b, bucket (w_pool w') b = bucket (w_pool w) b) by (intros; unfold w', bucket; cbn; by rewrite Hba).
  assert (Hcl : ∀ j, closed (w_pool w') j ↔ closed (w_pool w) j) by (intros; unfold closed; cbn; by rewrite Hst).
  assert (Had : ∀ j, address_of (w_pool w') j = address_of (w_pool w) j) by (intros; unfold address_of; cbn; by rewrite Hst).
  assert (Hfr : ∀ g0, thread_ok w G g0 → thread_ok w' (upd t g G) g0).
  { intros g0 H0. apply (frame_thread w _ G); try done; try setoid_rewrite Hb; try done; [intros j; by apply Hset| |].
    - intros j b ph Hj. split; [intros tg; apply Hsub|]. by apply insertion_ok_ext; [|cbn; rewrite Hid|].
    - cbn. by rewrite Hid. }
  constructor; try setoid_rewrite Hset; try setoid_rewrite Hb; try setoid_rewrite Hcl; try setoid_rewrite Had;
    try setoid_rewrite (upd_same g_ins t g G E1); try setoid_rewrite (upd_same g_rm t g G E2);
    try setoid_rewrite (upd_same g_owed t g G E3); try setoid_rewrite (upd_same g_doomed t g G E4);
    try setoid_rewrite (upd_same g_shard t g G E5); cbn [w' set_pool w_pool w_held w_inserted]; rewrite ?Hst, ?Hba, ?Hid; try done.
  - intros tg j Hj. by apply (K9 tg), Hsub.
  - intros b tg j Hj Ht. destruct (K10 b tg j Hj Ht) as [Hin|[?|?]]; [|by right; left|by right; right].
    destruct (decide (j ∈ index p' tg)); [by left|right; left; by eapply Hdrop].
  - apply upd_forall; [|intros t' _; by apply Hfr]. destruct Hg as [->|(l & -> & Hl)]; [by apply Hfr|].
    pose proof (Hfr _ (K13 t)) as [H1 H2 H3 H4 H5 H6 H7 H8]. constructor; try done. cbn. by rewrite Hst.
Qed.

Lemma set_bucket_pool a l p b : bucket (set_by_address p (set_bucket a l (by_address p))) b = if decide (a = b) then l else bucket p b.
Proof. unfold bucket. cbn. apply set_bucket_lookup. Qed.

(** Two operations do not look at buckets of one shard. *)
Lemma view_exclusive w G t t' a a' l l' :
  consistent w G → g_view (G t) = Some (a, l) → g_view (G t') = Some (a', l') → shard a = shard a' → t = t'.
Proof.
  intros Hw Hv Hv' Hs. apply (t_view _ _ _ (k_thread _ _ Hw t)) in Hv as [Hv _].
  apply (t_view _ _ _ (k_thread _ _ Hw t')) in Hv' as [Hv' _]. rewrite <- Hs in Hv'.
  apply (k_locks _ _ Hw) in Hv, Hv'. congruence.
Qed.

(** What was closed is taken out of the bucket. *)
Lemma shrink_consistent w G t a l0 l :
  consistent w G → g_view (G t) = Some (a, l0) → l0 ≡ₚ l ++ g_doomed (G t) →
  consistent (set_pool (λ p, set_by_address p (set_bucket a l (by_address p))) w)
    (upd t (view_ghost a l (owe_ghost (still_named (G t)) (G t))) G).
Proof.
  intros Hw Hv Hl. pose proof Hw as [K1 K2 K3 K4 K5 K6 K7 K8 K9 K10 K11 K12 Ks K13].
  destruct (t_view _ _ _ (K13 t) a l0 Hv) as [Hsh Hb0]. pose proof (t_doomed _ _ _ (K13 t)) as Hdoom.
  set (g := view_ghost a l _). set (w' := set_pool _ w).
  assert (Hset : ∀ j, settled w' (upd t g G) j ↔ settled w G j) by (intros; by apply same_settled).
  assert (Hb : ∀ b, bucket (w_pool w') b = if decide (a = b) then l else bucket (w_pool w) b) by (intros; apply set_bucket_pool).
  assert (Hnd : NoDup (l ++ g_doomed (G t))).
  { rewrite <- Hl, <- Hb0. unfold bucket. destruct (by_address (w_pool w) !! a) eqn:E; [by eapply K5|constructor]. }
  assert (Hdis : ∀ j, j ∈ l → j ∈ g_doomed (G t) → False) by (intros j H1 H2; apply NoDup_app in Hnd as (_ & Hn & _); by eapply Hn).
  assert (Hin0 : ∀ j, j ∈ bucket (w_pool w) a ↔ j ∈ l ∨ j ∈ g_doomed (G t)) by (intros j; by rewrite Hb0, Hl, elem_of_app).
  assert (Hin : ∀ b j, j ∈ bucket (w_pool w') b ↔ j ∈ bucket (w_pool w) b ∧ j ∉ g_doomed (G t)).
  { intros b j. rewrite Hb. case_decide as E; [subst b; rewrite Hin0; naive_solver|]. split; [|naive_solver]. intros Hj. split; [done|].
    intros Hd. apply E. destruct (K4 b j Hj) as (_ & Ha1 & _). assert (Hj' : j ∈ bucket (w_pool w) a) by (apply Hin0; by right).
    destruct (K4 a j Hj') as (_ & Ha2 & _). congruence. }
  assert (Hph : ∀ t' j b ph, g_ins (G t') = Some (j, b, ph) → insertion_ok (w_pool w) j b ph → insertion_ok (w_pool w') j b ph).
  { intros t' j b ph Hj. assert (Hd : ph ≠ Named → j ∉ g_doomed (G t)).
    { intros Hne Hd. destruct (Hdoom j Hd) as (_ & _ & _ & Hs). by apply Hs in Hj. }
    destruct ph; cbn [insertion_ok].
    - intros (? & ? & ?). split_and!; [done..|]. intros b'. rewrite Hin. naive_solver.
    - intros (? & ? & ?). split_and!; [done..|]. rewrite Hin. split; [done|by apply Hd].
    - rewrite Hin. intros [?|?]; [|by right]. destruct (decide (j ∈ g_doomed (G t))) as [Hj'|]; [right; by apply Hdoom|by left]. }
  constructor; try setoid_rewrite Hset; ghosts t g G; try setoid_rewrite Hin; try done.
  - intros b j [Hj Hd]. destruct (K4 b j Hj) as (? & ? & Hc). split_and!; [done..|]. intros Hcl. destruct (Hc Hcl) as [t' Ht'].
    exists t'. rewrite upd_ne; [done|]. intros ->. done.
  - apply set_bucket_ok; [by apply NoDup_app in Hnd as (? & _)|done].
  - intros j b Hj. change (by_id (w_pool w) !! j = Some b) in Hj.
    destruct (K6 j b Hj) as (? & ? & Hor). split_and!; [done..|]. destruct (decide (j ∈ g_doomed (G t))) as [Hd|Hd].
    + right. exists t. rewrite upd_eq. cbn. rewrite elem_of_app. right. unfold still_named. rewrite list_elem_of_filter. split; [|done].
      destruct (g_rm (G t)) as [[j' b']|] eqn:E; [|done]. intros [= ->]. destruct (t_rm _ _ _ (K13 t) j b' E) as (_ & ? & _). congruence.
    + destruct Hor as [?|?]; [by left|right]. eapply (upd_exists (λ g, j ∈ g_owed g)); [|done]. cbn. set_solver.
  - naive_solver.
  - intros tg j Hj. destruct (K9 tg j Hj) as (? & [?|[b Hjb]]); [naive_solver|]. split; [done|].
    destruct (decide (j ∈ g_doomed (G t))) as [Hd|Hd]; [left; by apply Hdoom|right; by exists b].
  - intros b tg j [Hj _]. by apply (K10 b).
  - apply upd_forall.
    + destruct (K13 t) as [H1 H2 H3 H4 H5 H6 H7 H8].
      constructor; cbn [g view_ghost owe_ghost g_view g_shard g_doomed g_idle g_gone g_owed g_ins g_rm g_cand]; try setoid_rewrite Hset; try done.
      * intros b l' [= <- <-]. split; [done|]. rewrite Hb. by rewrite decide_True.
      * set_solver.
      * set_solver.
      * intros j. rewrite elem_of_app. setoid_rewrite Hin. intros [Hj|Hj].
        -- destruct (H4 j Hj) as (? & ? & ?). naive_solver.
        -- destruct (Hdoom j Hj) as (? & ? & ?). naive_solver.
      * intros j. unfold still_named. rewrite !elem_of_app, list_elem_of_filter. intros [?|[_ ?]]; [left; by apply H5|by right].
      * intros j b ph Hj. destruct (H6 j b ph Hj) as (? & ? & ? & ?). split_and!; [done..|by eapply Hph].
    + intros t' Ht'. apply (frame_thread w _ G); try done; [intros j; by apply Hset| | |].
      * intros b l' Hv'. rewrite Hb. case_decide; [|done]. subst b. exfalso. apply Ht'. by eapply view_exclusive.
      * intros j b _. rewrite Hin. tauto.
      * intros j b ph Hj. split; [done|by eapply Hph].
Qed.

(** A connection is put in its bucket. *)
Lemma push_consistent w G t a l0 i :
  consistent w G → g_view (G t) = Some (a, l0) → g_ins (G t) = Some (i, a, Allocated) →
  consistent (set_pool (λ p, set_by_address p (set_bucket a (l0 ++ [i]) (by_address p))) w)
    (upd t (ins_ghost (Some (i, a, Pushed)) (view_ghost a (l0 ++ [i]) (G t))) G).
Proof.
  intros Hw Hv Hins. pose proof Hw as [K1 K2 K3 K4 K5 K6 K7 K8 K9 K10 K11 K12 Ks K13].
  destruct (t_view _ _ _ (K13 t) a l0 Hv) as [Hsh Hb0].
  destruct (t_ins _ _ _ (K13 t) i a Allocated Hins) as (Hii & Had & Hix & Hcl & Hid & Hnb).
  set (g := ins_ghost _ _). set (w' := set_pool _ w).
  assert (Hins' : ∀ t' j b ph, g_ins (upd t g G t') = Some (j, b, ph) →
    (t' = t ∧ j = i ∧ b = a ∧ ph = Pushed) ∨ (j ≠ i ∧ g_ins (G t') = Some (j, b, ph))).
  { intros t' j b ph Hj. unfold upd in Hj. case_decide as E; [cbn in Hj; naive_solver|]. right. split; [|done].
    intros ->. apply E. by eapply K12. }
  assert (Hset : ∀ j, settled w G j → settled w' (upd t g G) j).
  { intros j [? Hj]. split; [done|]. intros t' b ph [(-> & -> & _)|[? ?]]%Hins'; [by apply Hj in Hins|by eapply Hj]. }
  assert (Hb : ∀ b, bucket (w_pool w') b = if decide (a = b) then l0 ++ [i] else bucket (w_pool w) b) by (intros; apply set_bucket_pool).
  assert (Hin : ∀ b j, j ∈ bucket (w_pool w') b ↔ j ∈ bucket (w_pool w) b ∨ (j = i ∧ b = a)).
  { intros b j. rewrite Hb. case_decide as E; [subst b; rewrite Hb0; set_solver|naive_solver]. }
  assert (Hnot : ¬ settled w G i) by (intros [_ Hs]; by apply Hs in Hins).
  constructor; ghosts t g G; try setoid_rewrite Hin; try done.
  - intros j c Hc Ho. destruct (K2 j c Hc Ho) as [Hj1 Hj2]. split.
    + intros t' b ph [(-> & -> & -> & ->)|[? ?]]%Hins'; [by eapply Hj1|by eapply Hj1].
    + intros Hno. apply Hj2. intros t' b ph E. destruct (decide (t' = t)) as [->|Hne].
      * rewrite Hins in E. simplify_eq. apply (Hno t b Pushed). by rewrite upd_eq.
      * apply (Hno t' b ph). by rewrite upd_ne.
  - intros b j [Hj|[-> ->]]; [by apply K4|done].
  - apply set_bucket_ok; [|done]. apply NoDup_app. split_and!; [|intros j Hj ->%list_elem_of_singleton|apply NoDup_singleton].
    + rewrite <- Hb0. unfold bucket. destruct (by_address (w_pool w) !! a) eqn:E; [by eapply K5|constructor].
    + apply (Hnb a). by rewrite Hb0.
  - intros j b Hj. destruct (K6 j b Hj) as (? & ? & ?). naive_solver.
  - intros b j [Hj|[-> ->]].
    + destruct (K7 b j Hj) as [?|[[t' Ht']|?]]; [by left|right; left|by right; right].
      exists t'. rewrite upd_ne; [done|]. intros ->. congruence.
    + right; left. exists t. by rewrite upd_eq.
  - intros tg j Hj. destruct (K9 tg j Hj) as (? & ?). naive_solver.
  - intros b tg j Hj Ht. assert (Hor : j = i ∨ j ∈ bucket (w_pool w) b ∧ j ≠ i) by (destruct (decide (j = i)); naive_solver).
    destruct Hor as [->|[Hj' Hne]]; [right; right; exists t, a, Pushed; by rewrite upd_eq|].
    destruct (K10 b tg j Hj' Ht) as [?|[?|(t' & b' & ph & E)]]; [by left|by right; left|].
    right; right. exists t', b', ph. rewrite upd_ne; [done|]. intros ->. congruence.
  - intros t1 t2 j b ph b' ph' [(-> & -> & _)|[? ?]]%Hins' [(-> & ? & _)|[? ?]]%Hins'; [done|done|naive_solver|by eapply K12].
  - apply upd_forall.
    + destruct (K13 t) as [H1 H2 H3 H4 H5 H6 H7 H8].
      constructor; cbn [g ins_ghost view_ghost g_view g_shard g_doomed g_idle g_gone g_owed g_ins g_rm g_cand]; try done.
      * intros b l' [= <- <-]. split; [done|]. rewrite Hb. by rewrite decide_True.
      * intros j Hj. destruct (H2 j Hj) as (Hvj & ? & ?). split_and!; [|done|by apply Hset]. unfold viewed in *. rewrite Hv in Hvj. set_solver.
      * set_solver.
      * intros j Hj. destruct (H4 j Hj) as (? & ? & Hn). split_and!; [done|by apply Hset|].
        intros b. rewrite Hin. intros [Hjb|[-> _]]; [by apply (Hn b)|done].
      * intros j b ph [= <- <- <-]. split_and!; [done..|]. cbn [insertion_ok]. split_and!; [done..|]. apply Hin. by right.
      * intros j b Hj. destruct (H7 j b Hj) as (? & ? & ?). auto.
    + intros t' Ht'. apply (frame_thread w _ G); try done.
      * intros b l' Hv'. rewrite Hb. case_decide; [|done]. subst b. exfalso. apply Ht'. by eapply view_exclusive.
      * intros j b Hs. rewrite Hin. intros [?|[-> _]]; done.
      * intros j b ph Hj. split; [done|]. assert (j ≠ i) by (intros ->; apply Ht'; by eapply K12).
        destruct ph; cbn [insertion_ok]; setoid_rewrite Hin; naive_solver.
Qed.

Lemma index_coalescing_spec p i :
  index_wf p → (∀ t, i ∉ index p t) →
  let p' := index_coalescing p i in
  store p' = store p ∧ by_address p' = by_address p ∧ by_id p' = by_id p ∧ index_wf p' ∧
  ∀ t j, j ∈ index p' t ↔ j ∈ index p t ∨ (j = i ∧ target_of (store p) i = Some t).
Proof.
  intros [Hb Ht] Hn. unfold index_coalescing. fold (target_of (store p) i).
  destruct (target_of (store p) i) as [t0|] eqn:E; [|split_and!; try done; naive_solver].
  fold (index p t0). set (p' := set_coalesced p _). cbn zeta.
  assert (Hix : ∀ t j, j ∈ index p' t ↔ j ∈ index p t ∨ (j = i ∧ Some t0 = Some t)).
  { intros t j. unfold index at 1, p'. cbn. destruct (decide (t0 = t)) as [<-|Hne].
    - rewrite lookup_insert_eq. cbn. rewrite elem_of_app, list_elem_of_singleton. naive_solver.
    - rewrite lookup_insert_ne by done. fold (index p t). naive_solver. }
  split_and!; try done. split.
  - intros t l. unfold p'. cbn. rewrite lookup_insert_Some. intros [[_ <-]|[_ Hl]]; [|by apply (Hb t)].
    split; [by destruct (index p t0)|]. apply NoDup_app. split_and!; [|intros j Hj ->%list_elem_of_singleton; by apply (Hn t0)|apply NoDup_singleton].
    unfold index. destruct (coalesced_by_target p !! t0) eqn:El; [by apply (Hb t0)|constructor].
  - intros t j. rewrite Hix. intros [Hj|[-> [= <-]]]; [by apply Ht|done].
Qed.

(** An insertion is over: the connection is indexed, and the inserter's allocation is its own again. *)
Lemma put_index_consistent w G t i a :
  consistent w G → g_ins (G t) = Some (i, a, Named) →
  consistent (hold (S (holds w i)) i (set_pool (λ p, index_coalescing p i) w)) (upd t (ins_ghost None (G t)) G).
Proof.
  intros Hw Hins. pose proof Hw as [K1 K2 K3 K4 K5 K6 K7 K8 K9 K10 K11 K12 Ks K13].
  destruct (t_ins _ _ _ (K13 t) i a Named Hins) as (Hii & Had & Hix & Hph).
  destruct (index_coalescing_spec (w_pool w) i K8 Hix) as (Est & Eba & Eid & Hwf & Hidx).
  set (g := ins_ghost None (G t)). set (w' := hold _ _ _).
  assert (Hins' : ∀ t' j b ph, g_ins (upd t g G t') = Some (j, b, ph) → j ≠ i ∧ g_ins (G t') = Some (j, b, ph)).
  { intros t' j b ph Hj. destruct (advance_ins w G t i a Named _ t' j b ph Hw Hins Hj); naive_solver. }
  assert (Hkeep : ∀ t' j b ph, j ≠ i → g_ins (G t') = Some (j, b, ph) → g_ins (upd t g G t') = Some (j, b, ph)).
  { intros t' j b ph Hne Hj. rewrite upd_ne; [done|]. intros ->. congruence. }
  assert (Hset : ∀ j, settled w G j → settled w' (upd t g G) j).
  { intros j [? Hj]. split; [done|]. intros t' b ph [_ ?]%Hins'. by eapply Hj. }
  assert (Hb : ∀ b, bucket (w_pool w') b = bucket (w_pool w) b) by (intros; unfold bucket; cbn; by rewrite Eba).
  assert (Hcl : ∀ j, closed (w_pool w') j ↔ closed (w_pool w) j) by (intros; unfold closed; cbn; by rewrite Est).
  assert (Had' : ∀ j, address_of (w_pool w') j = address_of (w_pool w) j) by (intros; unfold address_of; cbn; by rewrite Est).
  assert (Hfr : ∀ g0, thread_ok w G g0 → (∀ b ph, g_ins g0 ≠ Some (i, b, ph)) → thread_ok w' (upd t g G) g0).
  { intros g0 H0 Hno. apply (frame_thread w _ G); try done; try setoid_rewrite Hb; try done.
    - intros j b ph Hj. split; [|by apply insertion_ok_ext; [|cbn; rewrite Eid|]].
      intros tg. cbn. rewrite Hidx. intros [?|[-> _]]; [done|]. by destruct (Hno b ph).
    - cbn. by rewrite Eid. }
  constructor; try setoid_rewrite Hb; try setoid_rewrite Hcl; try setoid_rewrite Had'; ghosts t g G;
    cbn [w' hold set_holds set_pool w_pool w_held w_inserted]; rewrite ?Est, ?Eba, ?Eid; try done.
  - intros j c Hc Ho. destruct (K2 j c Hc Ho) as [Hj1 Hj2]. unfold holds at 1 2, w'. cbn. split.
    + intros t' b ph [Hne Hj]%Hins'. rewrite lookup_insert_ne by done. by eapply Hj1.
    + intros Hno. destruct (decide (j = i)) as [->|Hne].
      * rewrite lookup_insert_eq. cbn [default]. rewrite (Hj1 _ _ _ Hins). cbn. lia.
      * rewrite lookup_insert_ne by done. apply Hj2. intros t' b ph Hj. by apply (Hno t' b ph), Hkeep.
  - intros j b Hj. destruct (K6 j b Hj) as (? & ? & ?). auto.
  - intros b j Hj. destruct (K7 b j Hj) as [?|[[t' Ht']|?]]; [by left|right; left|by right; right].
    exists t'. apply Hkeep; [|done]. intros ->. pose proof (K12 _ _ _ _ _ _ _ Hins Ht') as <-. congruence.
  - intros tg j. rewrite Hidx. intros [Hj|[-> _]]; [by apply (K9 tg)|]. split; [done|].
    destruct Hph as [?|?]; [right; by exists a|by left].
  - intros b tg j Hj Ht. destruct (decide (j = i)) as [->|Hne]; [left; rewrite Hidx; by right|].
    destruct (K10 b tg j Hj Ht) as [?|[?|(t' & b' & ph & E)]]; [left; rewrite Hidx; by left|by right; left|].
    right; right. exists t', b', ph. by apply Hkeep.
  - intros t1 t2 j b ph b' ph' [? ?]%Hins' [? ?]%Hins'. by eapply K12.
  - apply upd_forall.
    + apply Hfr; [|done]. destruct (K13 t) as [H1 H2 H3 H4 H5 H6 H7 H8]. by constructor.
    + intros t' Ht'. apply Hfr; [done|]. intros b ph Hj. apply Ht'. by eapply K12.
Qed.

(** An insertion begins. *)
Lemma insert_consistent w w' G t i c n :
  consistent w G → G t = no_ghost → store (w_pool w) !! i = Some c → holds w i = S n → i ∉ w_inserted w →
  w_pool w' = w_pool w → w_held w' = w_held w → w_inserted w' = {[i]} ∪ w_inserted w → w_holds w' = <[i := n]> (w_holds w) →
  consistent w' (upd t (ins_ghost (Some (i, conn_address c, Allocated)) no_ghost) G).
Proof.
  intros Hw Hgt Hc Hn Hnew Ep Eh Ei Eo. pose proof Hw as [K1 K2 K3 K4 K5 K6 K7 K8 K9 K10 K11 K12 Ks K13].
  set (g := ins_ghost _ _). assert (Hsub : w_inserted w ⊆ w_inserted w') by (rewrite Ei; set_solver).
  assert (Hold : ∀ t' j b ph, g_ins (G t') = Some (j, b, ph) → j ≠ i ∧ t' ≠ t).
  { intros t' j b ph Hj. split; [|intros ->; by rewrite Hgt in Hj]. intros ->. by destruct (t_ins _ _ _ (K13 t') _ _ _ Hj). }
  assert (Hins' : ∀ t' j b ph, g_ins (upd t g G t') = Some (j, b, ph) →
    (t' = t ∧ j = i ∧ ph = Allocated) ∨ (j ≠ i ∧ g_ins (G t') = Some (j, b, ph))).
  { intros t' j b ph. unfold upd. case_decide as E; [cbn; naive_solver|]. intros Hj. right. split; [by eapply Hold|done]. }
  assert (Hset : ∀ j, settled w G j → settled w' (upd t g G) j).
  { intros j [? Hj]. split; [set_solver|]. intros t' b ph [(-> & -> & _)|[? ?]]%Hins'; [done|by eapply Hj]. }
  assert (Hkeep : ∀ t' j b ph, g_ins (G t') = Some (j, b, ph) → g_ins (upd t g G t') = Some (j, b, ph)).
  { intros t' j b ph Hj. rewrite upd_ne; [done|by eapply Hold]. }
  assert (E1 : g_rm g = g_rm (G t)) by (by rewrite Hgt). assert (E2 : g_owed g = g_owed (G t)) by (by rewrite Hgt).
  assert (E3 : g_doomed g = g_doomed (G t)) by (by rewrite Hgt). assert (E4 : g_shard g = g_shard (G t)) by (by rewrite Hgt).
  constructor; try setoid_rewrite (upd_same g_rm t g G E1); try setoid_rewrite (upd_same g_owed t g G E2);
    try setoid_rewrite (upd_same g_doomed t g G E3); try setoid_rewrite (upd_same g_shard t g G E4); rewrite ?Ep, ?Eh; try done.
  - intros j d Hd Ho. destruct (K2 j d Hd Ho) as [Hj1 Hj2]. unfold holds. rewrite Eo. split.
    + intros t' b ph [(-> & -> & _)|[Hne Hj]]%Hins'.
      * rewrite lookup_insert_eq. cbn [default]. rewrite Hj2, Hn by (intros t' b' ph' Hj; by apply Hold in Hj as [? _]). cbn. lia.
      * rewrite lookup_insert_ne by done. by eapply Hj1.
    + intros Hno. destruct (decide (j = i)) as [->|Hne]; [exfalso; eapply (Hno t); by rewrite upd_eq|].
      rewrite lookup_insert_ne by done. apply Hj2. intros t' b ph Hj. by apply (Hno t' b ph), Hkeep.
  - intros j. rewrite Ei, elem_of_union, elem_of_singleton. intros [->|?]; [by exists c|auto].
  - intros b j Hj. destruct (K4 b j Hj) as (? & ? & ?). auto.
  - intros j b Hj. destruct (K6 j b Hj) as (? & ? & ?). auto.
  - intros b j Hj. destruct (K7 b j Hj) as [?|[[t' Ht']|?]]; [by left|right; left|by right; right]. exists t'. by apply Hkeep.
  - intros tg j Hj. destruct (K9 tg j Hj) as (? & ?). auto.
  - intros b tg j Hj Ht. destruct (K10 b tg j Hj Ht) as [?|[?|(t' & b' & ph & E)]]; [by left|by right; left|right; right].
    exists t', b', ph. by apply Hkeep.
  - intros t1 t2 j b ph b' ph' [(-> & -> & _)|[? ?]]%Hins' [(-> & ? & _)|[? ?]]%Hins'; [done|done|naive_solver|by eapply K12].
  - intros j Hj. by apply Hsub, Ks.
  - apply upd_forall.
    + constructor; cbn; try done; try by intros j ?%elem_of_nil.
      intros j b ph [= <- <- <-]. rewrite Ep. split_and!; [set_solver|unfold address_of; by rewrite Hc| |].
      * intros tg Htg. by destruct (K9 tg i Htg).
      * cbn. split_and!; [intros ?%Ks; done| |intros b Hb; by destruct (K4 b i Hb)].
        destruct (by_id (w_pool w) !! i) as [b|] eqn:E; [|done]. by destruct (K6 i b E) as [[? _] _].
    + intros t' Ht'. apply (frame_thread w _ G); rewrite ?Ep; try done.
Qed.

(** ** Changes to one connection *)

Lemma evolves_insert st i c c' :
  st !! i = Some c → conn_route c' = conn_route c → protocol c' = protocol c → (is_shut c → is_shut c') → evolves st (<[i := c']> st).
Proof.
  intros Hc Hr Hp Hs j d Hd. destruct (decide (i = j)) as [<-|Hne].
  - rewrite lookup_insert_eq. simplify_eq. by exists c'.
  - rewrite lookup_insert_ne by done. by exists d.
Qed.

Lemma closed_set_store p i c c' j :
  store p !! i = Some c → closed (set_store p (<[i := c']> (store p))) j → closed p j ∨ (j = i ∧ is_shut c').
Proof.
  intros Hc (d & Hd & Hs). cbn in Hd. apply lookup_insert_Some in Hd as [[<- <-]|[_ Hd]]; [by right|left; by exists d].
Qed.

(** Allocated, released or marked unhealthy. *)
Lemma same_consistent w w' G G' i c c' :
  consistent w G → store (w_pool w) !! i = Some c → same_conn c c' →
  w_pool w' = set_store (w_pool w) (<[i := c']> (store (w_pool w))) → w_held w' = w_held w → w_inserted w' = w_inserted w →
  (∀ t, G' t = G t ∨ G' t = see [] (G t)) →
  (∀ j, j ≠ i → holds w' j = holds w j) →
  (¬ is_shut c →
     (∀ t a ph, g_ins (G t) = Some (i, a, ph) → allocations (conn_state c') = Z.of_nat (holds w' i) + 1) ∧
     ((∀ t a ph, g_ins (G t) ≠ Some (i, a, ph)) → allocations (conn_state c') = Z.of_nat (holds w' i))) →
  (∀ t, i ∈ g_idle (G' t) → allocations (conn_state c) = 0 →
     allocations (conn_state c') = 0 ∨ is_Some (coalescing_index_target c')) →
  consistent w' G'.
Proof.
  intros Hw Hc (Hr & Hp & Hok & Hsh) Ep Eh Ei HG Hholds Hcount Hidle.
  assert (Hsteady : steady G G') by (constructor; intros t; by destruct (HG t) as [->| ->]).
  assert (Hev : evolves (store (w_pool w)) (<[i := c']> (store (w_pool w)))) by (eapply evolves_insert; [done..|by apply Hsh]).
  assert (Hcl : ∀ j, closed (w_pool w') j → closed (w_pool w) j).
  { intros j. rewrite Ep. intros [?|[-> Hs]]%(closed_set_store _ _ c); [done| |done]. exists c. split; [done|by apply Hsh]. }
  eapply store_consistent; [done..|by auto|done| | | |].
  - intros j d. rewrite lookup_insert_Some. intros [[<- <-]|[_ Hd]]; [done|by eapply k_conn].
  - intros j d. rewrite lookup_insert_Some. intros [[<- <-]|[Hne Hd]] Ho; [apply Hcount; by rewrite <- Hsh|].
    rewrite Hholds by done. by apply (k_count _ _ Hw).
  - auto.
  - intros t. eapply (store_thread w w' G G'); [done..|by auto|done| |apply (s_ins _ _ Hsteady t)|].
    + destruct (k_thread _ _ Hw t) as [H1 H2 H3 H4 H5 H6 H7 H8]. destruct (HG t) as [->| ->]; [by constructor|].
      constructor; cbn; try done. by intros j ?%elem_of_nil.
    + intros j d d' Hj Hd. rewrite lookup_insert_Some. intros [[<- <-]|[_ Hd']] Ha; simplify_eq; [by eapply Hidle|by left].
Qed.

(** Closed by an operation that has its bucket. *)
Lemma close_consistent w G t i :
  consistent w G → i ∈ viewed (G t) → settled w G i →
  consistent (set_pool (λ p, set_store p (alter close i (store p))) w) (upd t (doom_ghost i (G t)) G).
Proof.
  intros Hw Hi Hset. destruct (k_inserted _ _ Hw i (proj1 Hset)) as [c Hc].
  set (g := doom_ghost i (G t)). set (w' := set_pool _ w).
  assert (Halt : alter close i (store (w_pool w)) = <[i := close c]> (store (w_pool w))).
  { apply map_eq. intros j. destruct (decide (i = j)) as [<-|Hne].
    - by rewrite lookup_alter_eq, lookup_insert_eq, Hc.
    - by rewrite lookup_alter_ne, lookup_insert_ne. }
  assert (Ep : w_pool w' = set_store (w_pool w) (<[i := close c]> (store (w_pool w)))) by (unfold w'; cbn; by rewrite Halt).
  assert (Hsteady : steady G (upd t g G)) by (apply steady_upd; try done; cbn; set_solver).
  assert (Hev : evolves (store (w_pool w)) (<[i := close c]> (store (w_pool w)))) by (by eapply evolves_insert).
  assert (Hopen : ∀ j, closed (w_pool w') j → closed (w_pool w) j ∨ j = i).
  { intros j. rewrite Ep. intros [?|[-> _]]%(closed_set_store _ _ c); auto. }
  assert (Hopen' : ∀ j, closed (w_pool w') j → closed (w_pool w) j ∨ settled w G j).
  { intros j [?| ->]%Hopen; auto. }
  assert (Hfr : ∀ t', thread_ok w' (upd t g G) (G t')).
  { intros t'. eapply (store_thread w w' G _); [done..|by apply k_thread|done|].
    intros j d d' Hj Hd. rewrite lookup_insert_Some. intros [[<- <-]|[_ Hd']] Ha; simplify_eq; by left. }
  eapply store_consistent; [done..| | | |].
  - intros j d. rewrite lookup_insert_Some. intros [[<- <-]|[_ Hd]]; [apply close_ok|]; by eapply k_conn.
  - intros j d. rewrite lookup_insert_Some. intros [[<- <-]|[Hne Hd]] Ho; [by destruct Ho|]. by apply (k_count _ _ Hw).
  - intros a j _ [?| ->]%Hopen; [by left|right]. exists t. rewrite upd_eq. cbn. set_solver.
  - apply upd_forall; [|by auto]. destruct (Hfr t) as [H1 H2 H3 H4 H5 H6 H7 H8]. constructor; try done.
    cbn [g doom_ghost g_doomed]. intros j. rewrite elem_of_app, list_elem_of_singleton. intros [?| ->]; [by apply H2|].
    split; [done|]. split; [|by apply (same_settled w w' t g G)].
    exists (close c). rewrite Ep. cbn. by rewrite lookup_insert_eq.
Qed.

(** What an operation sees idle in its bucket nobody is inserting. *)
Lemma learn_thread w G t i :
  consistent w G → thread_ok w G (learn i ((., w_now w) <$> store (w_pool w) !! i) (G t)).
Proof.
  intros Hw. pose proof (k_thread _ _ Hw t) as Ht. destruct (store (w_pool w) !! i) as [c|] eqn:Hc; [|done]. cbn.
  case_decide as E; [|done]. destruct E as [Hi Ha]. destruct Ht as [H1 H2 H3 H4 H5 H6 H7 H8]. constructor; try done.
  cbn [see g_idle]. intros j [->|Hj]%elem_of_cons; [|by apply H3]. split_and!; [done| |naive_solver].
  unfold viewed in Hi. destruct (g_view (G t)) as [[a l]|] eqn:Hv; [|by apply elem_of_nil in Hi].
  destruct (H1 a l eq_refl) as [_ <-]. destruct (k_bucket _ _ Hw a i Hi) as (Hin & _ & _). split; [done|].
  intros t' b ph Hph. destruct (t_ins _ _ _ (k_thread _ _ Hw t') _ _ _ Hph) as (_ & _ & _ & Hio).
  assert (Hno : ¬ closed (w_pool w) i → False); [|by destruct ph; [destruct Hio|destruct Hio|]].
  intros Hcl. destruct (k_count _ _ Hw i c Hc) as [Hn _]; [intros ?; apply Hcl; by exists c|]. specialize (Hn _ _ _ Hph). lia.
Qed.
End Invariant.
