(* ===== verification/PoolConcurrent.v ===== *)
(** * The pool under concurrent operations

    That every move of the machine of PoolLocks.v preserves the invariant of PoolInvariant.v, and what follows: between
    operations the pool's containers agree however the operations were interleaved, pruning closes a connection in use only if it
    can be coalesced, and the shard locks never deadlock. *)

From S2P Require Import Prelude Net Planning RealConnection Pool PoolLocks PoolRaces PoolInvariant.

Section Concurrent.
#[local] Set Default Proof Using "Type".
Context (hash : Address → Z).
Abbreviation shard := (address_shard hash).
Abbreviation consistent := (consistent hash).

(** ** Every move *)


Definition obeys (w : World) (G : Ghosts) : Prop :=
  ∀ t, match w_threads w !! t with Some p => wp hash (G t) p | None => G t = no_ghost end.

Definition invariant (w : World) : Prop := ∃ G, consistent w G ∧ obeys w G.

(** The operations in progress and the clock do not matter to the containers. *)
Lemma consistent_ext w w' G :
  w_pool w' = w_pool w → w_held w' = w_held w → w_inserted w' = w_inserted w → w_holds w' = w_holds w →
  consistent w G → consistent w' G.
Proof.
  destruct w, w'. cbn. intros -> -> -> -> [K1 K2 K3 K4 K5 K6 K7 K8 K9 K10 K11 K12 Ks K13]. constructor; try done.
  intros t. destruct (K13 t). by constructor.
Qed.

Lemma invariant_step w w' G t g k :
  obeys w G → consistent w' (upd t g G) → w_threads w' = w_threads w → wp hash g k →
  invariant (set_threads (<[t := k]>) w').
Proof.
  intros Ho Hw Et Hk. exists (upd t g G). split; [by apply (consistent_ext w')|].
  intros t'. cbn. rewrite Et. destruct (decide (t' = t)) as [->|Hne].
  - by rewrite lookup_insert_eq, upd_eq.
  - rewrite lookup_insert_ne, upd_ne by done. apply Ho.
Qed.

Lemma same_fields w G t : consistent w G → consistent w (upd t (G t) G).
Proof. intros Hw. by apply (local_consistent hash w w G t (G t)); try done; apply k_thread. Qed.

Lemma holds_hold n i w j : holds (hold n i w) j = if decide (i = j) then n else holds w j.
Proof. unfold holds. cbn. case_decide; subst; [by rewrite lookup_insert_eq|by rewrite lookup_insert_ne]. Qed.

Lemma try_acquire_facts c :
  (try_acquire c).1 = true ∧ allocations (conn_state (try_acquire c).2) = allocations (conn_state c) + 1 ∨
  (try_acquire c).1 = false ∧ (try_acquire c).2 = c.
Proof. unfold try_acquire. destruct (can_acquire c); cbn; auto. Qed.

Lemma try_acquire_consistent w G t i c :
  consistent w G → store (w_pool w) !! i = Some c → i ∈ viewed (G t) ∨ i ∈ g_cand (G t) →
  let w1 := set_pool (λ p, set_store p (<[i := (try_acquire c).2]> (store p))) w in
  consistent (if (try_acquire c).1 then hold (S (holds w i)) i w1 else w1) (upd t (see [] (G t)) G).
Proof.
  intros Hw Hc Hi w1. pose proof (try_acquire_same c (k_conn _ _ _ Hw i c Hc)) as Hsame. pose proof (try_acquire_facts c) as Hf.
  eapply (same_consistent hash w _ G _ i c); [done|done|exact Hsame|by destruct (try_acquire c).1..| | | |].
  - intros t'. unfold upd. case_decide; subst; auto.
  - intros j Hne. destruct (try_acquire c).1; [|done]. by rewrite holds_hold, decide_False.
  - intros Ho. destruct (k_count _ _ _ Hw i c Hc Ho) as [H1 H2]. destruct Hf as [[-> Ha]|[-> ->]]; [|done].
    rewrite Ha, holds_hold, decide_True by done.
    split; intros; [erewrite H1 by done|rewrite H2 by done]; lia.
  - intros t' Ht' Ha. destruct Hf as [[Ef Ha']|[_ Ef]]; [|left; by rewrite Ef]. right.
    destruct (decide (t' = t)) as [->|Hne]; [rewrite upd_eq in Ht'; by apply elem_of_nil in Ht'|]. rewrite upd_ne in Ht' by done.
    assert (Hcoal : is_Some (coalescing_index_target c)).
    { destruct Hi as [Hi|Hi].
      - exfalso. apply Hne. destruct (t_idle _ _ _ _ (k_thread _ _ _ Hw t') i Ht') as (Hi' & _ & _). unfold viewed in *.
        destruct (g_view (G t)) as [[a l]|] eqn:Hv; [|by apply elem_of_nil in Hi].
        destruct (g_view (G t')) as [[a' l']|] eqn:Hv'; [|by apply elem_of_nil in Hi']. cbn in *.
        destruct (t_view _ _ _ _ (k_thread _ _ _ Hw t) a l Hv) as [_ Hb]. destruct (t_view _ _ _ _ (k_thread _ _ _ Hw t') a' l' Hv') as [_ Hb'].
        subst l l'. destruct (k_bucket _ _ _ Hw a i Hi) as (_ & Ha1 & _). destruct (k_bucket _ _ _ Hw a' i Hi') as (_ & Ha2 & _).
        eapply view_exclusive; [done..|]. congruence.
      - pose proof (t_cand _ _ _ _ (k_thread _ _ _ Hw t) i Hi) as Hcand. unfold target_of in Hcand. by rewrite Hc in Hcand. }
    destruct Hsame as (Hr & Hp & _). unfold coalescing_index_target, connection_allows_h2_coalescing, conn_address in *. by rewrite Hr, Hp.
Qed.

(** The index is pruned of closed connections; what is offered can be coalesced. *)
Lemma prune_coalescing_spec p t :
  index_wf p → (∀ t i, i ∈ index p t → is_Some (store p !! i)) →
  let p' := prune_coalescing_bucket p t in
  store p' = store p ∧ by_address p' = by_address p ∧ by_id p' = by_id p ∧ index_wf p' ∧
  (∀ tg i, i ∈ index p' tg → i ∈ index p tg) ∧ (∀ tg i, i ∈ index p tg → i ∉ index p' tg → closed p i).
Proof.
  intros [Hb Ht] Hsome p'. subst p'. unfold prune_coalescing_bucket. destruct (coalesced_by_target p !! t) as [l|] eqn:El; [|split_and!; try done].
  set (keep := λ i : ConnectionId, match store p !! i with Some c => bool_decide (coalescing_index_target c = Some t) && negb (is_closed c) | None => false end).
  fold keep. set (p' := set_coalesced p _).
  assert (Hix : ∀ tg j, j ∈ index p' tg ↔ j ∈ index p tg ∧ (tg = t → keep j = true)).
  { intros tg j. unfold index at 1, p'. cbn. rewrite set_bucket_lookup. case_decide as E.
    - subst tg. rewrite list_elem_of_filter. unfold index. rewrite El. cbn. split; [intros [? ?]; done|intros [? Hk]; auto].
    - fold (index p tg). split; [intros ?; split; [done|intros ->; done]|by intros [? _]]. }
  split_and!; try done.
  - split; [|intros tg j [Hj _]%Hix; by apply Ht]. apply set_bucket_ok; [|done]. apply NoDup_filter. by eapply Hb.
  - intros tg i [? _]%Hix. done.
  - intros tg i Hi Hn. destruct (decide (tg = t)) as [->|Hne]; [|exfalso; apply Hn, Hix; done].
    destruct (keep i) eqn:Hk; [exfalso; apply Hn, Hix; done|]. destruct (Hsome t i Hi) as [c Hc]. exists c. split; [done|].
    specialize (Ht t i Hi). unfold keep, target_of in *. rewrite Hc in Hk, Ht. cbn in Ht.
    rewrite Ht, bool_decide_eq_true_2, andb_true_l, negb_false_iff in Hk by done. by apply bool_decide_eq_true in Hk.
Qed.

Lemma candidates_spec p request rp targets seen :
  index_wf p → (∀ t i, i ∈ index p t → is_Some (store p !! i)) →
  let '(p', found) := coalescing_candidates p request rp targets seen in
  store p' = store p ∧ by_address p' = by_address p ∧ by_id p' = by_id p ∧ index_wf p' ∧
  (∀ tg i, i ∈ index p' tg → i ∈ index p tg) ∧ (∀ tg i, i ∈ index p tg → i ∉ index p' tg → closed p i) ∧
  (∀ i, i ∈ found → is_Some (target_of (store p) i)).
Proof.
  revert p seen. induction targets as [|t targets IH]; intros p seen Hwf Hsome; cbn [coalescing_candidates].
  { split_and!; try done. by intros i ?%elem_of_nil. }
  destruct (prune_coalescing_spec p t Hwf Hsome) as (E1 & E2 & E3 & Hwf1 & Hsub1 & Hdrop1). set (p1 := prune_coalescing_bucket p t) in *.
  specialize (IH p1 (seen ∪ list_to_set (default [] (coalesced_by_target p1 !! t))) Hwf1).
  destruct (coalescing_candidates p1 request rp targets _) as [p2 rest].
  destruct IH as (F1 & F2 & F3 & Hwf2 & Hsub2 & Hdrop2 & Hrest); [intros tg i Hi; rewrite E1; by eapply Hsome, Hsub1|].
  split_and!; try congruence.
  - intros tg i Hi. by apply Hsub1, Hsub2.
  - intros tg i Hi Hn. destruct (decide (i ∈ index p1 tg)) as [Hi1|Hi1]; [|by eapply Hdrop1].
    destruct (Hdrop2 tg i Hi1 Hn) as (c & Hc & ?). exists c. by rewrite <- E1.
  - intros i [Hi|Hi]%elem_of_app; [|rewrite <- E1; by apply Hrest]. apply list_elem_of_filter in Hi as [_ Hi].
    apply list_elem_of_filter in Hi as [_ Hi]. rewrite elem_of_dedup in Hi.
    exists t. rewrite <- E1. exact (proj2 Hwf1 t i Hi).
Qed.

Context (hash_order : list Address → list Address) (s : PoolSettings).
Context (hash_order_Permutation : ∀ l, hash_order l ≡ₚ l).

(** A section that only reads. *)
Lemma local_step w G t g k :
  consistent w G → obeys w G → wp hash g k → g_shard g = g_shard (G t) → g_ins g = g_ins (G t) → g_rm g = g_rm (G t) →
  g_owed g = g_owed (G t) → g_doomed (G t) ⊆ g_doomed g → thread_ok hash w G g → invariant (set_threads (<[t := k]>) w).
Proof. intros Hw Ho Hk ? ? ? ? ? ?. eapply (invariant_step w w G t g); try done. by eapply local_consistent. Qed.

Lemma keep_step w G t k : consistent w G → obeys w G → wp hash (G t) k → invariant (set_threads (<[t := k]>) w).
Proof. intros Hw Ho Hk. by eapply (local_step w G t (G t)); try done; apply k_thread. Qed.

Lemma bucket_nodup w G a : consistent w G → NoDup (default [] (by_address (w_pool w) !! a)).
Proof. intros Hw. destruct (by_address (w_pool w) !! a) eqn:E; [by eapply k_nodup|constructor]. Qed.

Lemma view_thread w G t a :
  consistent w G → g_shard (G t) = Some (shard a) → g_doomed (G t) = [] → thread_ok hash w G (view_ghost a (bucket (w_pool w) a) (G t)).
Proof.
  intros Hw Hs Hd. destruct (k_thread _ _ _ Hw t) as [H1 H2 H3 H4 H5 H6 H7 H8]. constructor; cbn; rewrite ?Hd; try done.
  - by intros b l [= <- <-].
  - by intros i ?%elem_of_nil.
  - by intros i ?%elem_of_nil.
Qed.

Lemma no_ghost_thread w G : thread_ok hash w G no_ghost.
Proof. constructor; cbn; try done; by intros i ?%elem_of_nil. Qed.

Lemma unlocked_doomed w G t : consistent w G → g_shard (G t) = None → g_doomed (G t) = [].
Proof.
  intros Hw Hs. destruct (g_doomed (G t)) as [|i l] eqn:E; [done|]. exfalso.
  destruct (t_doomed _ _ _ _ (k_thread _ _ _ Hw t) i) as (Hi & _); [rewrite E; by constructor|].
  unfold viewed in Hi. destruct (g_view (G t)) as [[a l']|] eqn:Hv; [|by apply elem_of_nil in Hi].
  apply (t_view _ _ _ _ (k_thread _ _ _ Hw t)) in Hv as [? _]. congruence.
Qed.

Lemma evict_settled w G t i :
  consistent w G → i ∈ g_idle (G t) ∨ (∃ a, g_rm (G t) = Some (i, a)) → settled w G i.
Proof.
  intros Hw [Hi|[a Hi]]; [by apply (t_idle _ _ _ _ (k_thread _ _ _ Hw t))|].
  by apply (t_rm _ _ _ _ (k_thread _ _ _ Hw t)) in Hi as [? _].
Qed.

Lemma section_ok w t p w' : invariant w → w_threads w !! t = Some p → exec hash hash_order t p w = Some w' → invariant w'.
Proof using hash_order_Permutation.
  intros (G & Hw & Ho) Hp He. pose proof (Ho t) as Hwp. rewrite Hp in Hwp.
  destruct p as [r f|n k|k|n k|a k|a l k|i k|i k|i k|i k|i k|i a k|i k|ids k|ts k|a rp ts k|i k|ids k|ids k]; cbn [exec wp] in He, Hwp.
  - (* Ret *) simplify_eq. destruct Hwp as (? & ? & ? & ? & ?). exists (upd t no_ghost G). split.
    + apply (local_consistent hash w _ G); try done; [by rewrite H0|apply no_ghost_thread].
    + intros t'. cbn. destruct (decide (t' = t)) as [->|Hne]; [by rewrite lookup_delete_eq, upd_eq|].
      rewrite lookup_delete_ne, upd_ne by done. apply Ho.
  - (* Lock *) destruct Hwp as [Hs Hk]. destruct (w_held w !! n) eqn:En; simplify_eq.
    eapply (invariant_step w _ G); [done|apply lock_consistent; by eauto using unlocked_doomed|done|done].
  - (* Unlock *) simplify_eq. destruct Hwp as (_ & Hd & Hrm & Hk).
    eapply (invariant_step w _ G); [done|by apply unlock_consistent|done|done].
  - (* Keys *) simplify_eq. destruct Hwp as [_ Hk]. eapply (keep_step w G); [done|done|apply Hk]. intros a.
    rewrite hash_order_Permutation, list_elem_of_filter. by intros [? _].
  - (* Get_Bucket *) simplify_eq. destruct Hwp as (Hs & Hd & Hk).
    eapply (local_step w G t (view_ghost a (bucket (w_pool w) a) (G t))); try done; [|by apply view_thread].
    apply Hk. by eapply bucket_nodup.
  - (* Put_Bucket *) simplify_eq. destruct Hwp as (l0 & Hv & [[Hl Hk]|(i & Hi & -> & Hd & Hk)]).
    + eapply (invariant_step w _ G); [done|by eapply shrink_consistent|done|done].
    + eapply (invariant_step w _ G); [done|by eapply push_consistent|done|exact Hk].
  - (* Look *) simplify_eq. set (v := (., w_now w) <$> store (w_pool w) !! i) in *.
    eapply (local_step w G t (learn i v (G t))); try done; [apply Hwp| | | | | |by apply learn_thread].
    1: { intros c m. unfold v. destruct (store (w_pool w) !! i) eqn:E; [|done]. cbn. intros [= <- _]. by eapply k_conn. }
    all: unfold learn; by repeat case_match.
  - (* Evict *) simplify_eq. destruct Hwp as (Hi & Hidle & _ & Hk).
    eapply (invariant_step w _ G); [done|apply close_consistent; [done|done|by eauto using evict_settled]|done|done].
  - (* Close *) simplify_eq. destruct Hwp as (Hi & Hrm & _ & Hk).
    eapply (invariant_step w _ G); [done|apply close_consistent; [done|done|by eauto using evict_settled]|done|done].
  - (* Try_Acquire *) destruct Hwp as [Hi Hk]. destruct (store (w_pool w) !! i) as [c|] eqn:Hc.
    + pose proof (try_acquire_consistent w G t i c Hw Hc Hi) as Hnext. cbn zeta in Hnext.
      destruct (try_acquire c) as [ok c']. cbn [fst snd] in Hnext. simplify_eq.
      eapply (invariant_step w _ G); [done|exact Hnext|by destruct ok|apply Hk].
    + simplify_eq. eapply (local_step w G t (see [] (G t))); try done.
      destruct (k_thread _ _ _ Hw t) as [H1 H2 H3 H4 H5 H6 H7 H8]. constructor; try done. by intros j ?%elem_of_nil.
  - (* Get_Id *) simplify_eq. by eapply (keep_step w G).
  - (* Put_Id *) simplify_eq. destruct Hwp as [Hi Hk]. eapply (invariant_step w _ G); [done|by apply put_id_consistent|done|done].
  - (* Take_Id *) simplify_eq. destruct Hwp as [Hr Hk]. specialize (Hk (by_id (w_pool w) !! i)).
    destruct (by_id (w_pool w) !! i) as [a|] eqn:E.
    + eapply (invariant_step w _ G); [done|by apply take_id_consistent|done|done].
    + assert (rm_ghost None (G t) = G t) as Eg by (destruct (G t); cbn in Hr; by subst).
      eapply (invariant_step w _ G t (G t)); [done| |done|cbn in Hk; by rewrite Eg in Hk].
      apply (local_consistent hash w); try done; [|by apply k_thread]. cbn. rewrite delete_id by done. by destruct (w_pool w).
  - (* Drop_Ids *) simplify_eq. destruct Hwp as (H1 & H2 & Hk).
    eapply (invariant_step w _ G); [done|by apply drop_ids_consistent|done|done].
  - (* Indexed *) simplify_eq. by eapply (keep_step w G).
  - (* Candidates *)
    pose proof (candidates_spec (w_pool w) a rp ts ∅ (k_index_wf _ _ _ Hw)) as Hc.
    destruct (coalescing_candidates _ _ _ _ _) as [pl found]. simplify_eq.
    destruct Hc as (E1 & E2 & E3 & Hwf & Hsub & Hdrop & Hf).
    { intros tg i Hi. by eapply (k_inserted _ _ _ Hw), k_index. }
    eapply (invariant_step w _ G); [done|eapply index_consistent; [done..|right; by exists found]|done|apply Hwp].
  - (* Put_Index *) simplify_eq. destruct Hwp as [[a Hi] Hk].
    eapply (invariant_step w _ G); [done|by eapply put_index_consistent|done|done].
  - (* Drop_Index *) simplify_eq. destruct Hwp as [Hids Hk].
    destruct (remove_indexes_spec (w_pool w) ids (k_index_wf _ _ _ Hw)) as (Hwf & Hidx & E1 & E2 & E3 & _).
    eapply (invariant_step w _ G); [done|eapply (index_consistent hash w (foldl remove_index_connection (w_pool w) ids)); try done; [| |by left]|done|done].
    + intros tg i [? _]%Hidx. done.
    + intros tg i Hi Hn. destruct (decide (i ∈ ids)) as [Hin|Hin]; [|exfalso; apply Hn, Hidx; done].
      by apply (t_gone _ _ _ _ (k_thread _ _ _ Hw t)), Hids.
  - (* Hook *) simplify_eq.
    eapply (invariant_step w _ G t (G t)); [done| |done|done].
    apply (index_consistent hash w (notify_evictions (w_pool w) ids)); try by left.
    all: pose proof (k_index_wf _ _ _ Hw); unfold notify_evictions; by destruct (hook_installed (w_pool w)).
Qed.

(** An operation starts. *)
Lemma ask_ok w G t p : consistent w G → obeys w G → w_threads w !! t = None → wp hash no_ghost p → invariant (set_threads (<[t := p]>) w).
Proof.
  intros Hw Ho Ht Hp. assert (G t = no_ghost) as Eg by (pose proof (Ho t) as H; by rewrite Ht in H).
  apply (keep_step w G); [done|done|by rewrite Eg].
Qed.

Lemma conn_release_facts now c :
  (conn_release now c).1 = true ∧ allocations (conn_state (conn_release now c).2) = allocations (conn_state c) - 1 ∧ allocations (conn_state c) ≠ 0 ∨
  (conn_release now c).1 = false ∧ (conn_release now c).2 = c ∧ (is_shut c ∨ allocations (conn_state c) = 0).
Proof.
  unfold conn_release, is_shut. case_bool_decide as Hh; cbn; [right; auto|].
  destruct (Z.eqb_spec (allocations (conn_state c)) 0); cbn; [right|left]; auto.
Qed.

Lemma create_consistent w G i r pr names streams :
  consistent w G → store (w_pool w) !! i = None →
  let c := (try_acquire (connection_new (w_now w) r pr names streams)).2 in
  consistent (hold 1 i (set_pool (λ p, set_store p (<[i := c]> (store p))) w)) G.
Proof.
  intros Hw Hi c.
  assert (Hc : conn_ok c) by (apply try_acquire_ok, connection_new_ok).
  assert (Hc1 : ¬ is_shut c ∧ allocations (conn_state c) = 1).
  { subst c. unfold try_acquire, can_acquire, is_shut. destruct pr; cbn; [done|].
    destruct (Z.leb_spec (Z.max streams 1) 0); [lia|done]. }
  assert (Hev : evolves (store (w_pool w)) (<[i := c]> (store (w_pool w)))).
  { intros j d Hd. exists d. rewrite lookup_insert_ne; [done|]. intros <-. congruence. }
  assert (Hcl : ∀ j, closed (set_store (w_pool w) (<[i := c]> (store (w_pool w)))) j → closed (w_pool w) j).
  { intros j (d & Hd & Hs). cbn in Hd. apply lookup_insert_Some in Hd as [[<- <-]|[_ Hd]]; [by destruct Hc1|by exists d]. }
  eapply (store_consistent hash w _ G G); try done; [by left; apply Hcl| | |by left; apply Hcl|].
  - intros j d [[<- <-]|[_ Hd]]%lookup_insert_Some; [done|by eapply k_conn].
  - intros j d [[<- <-]|[Hne Hd]]%lookup_insert_Some Ho; rewrite holds_hold.
    + rewrite decide_True by done. split; [|intros _; apply Hc1]. intros t a ph Hph.
      destruct (t_ins _ _ _ _ (k_thread _ _ _ Hw t) _ _ _ Hph) as (Hin & _).
      destruct (k_inserted _ _ _ Hw i Hin). congruence.
    + rewrite decide_False by done. by apply (k_count _ _ _ Hw).
  - intros t. eapply (store_thread hash w _ G G _); try done; [by left; apply Hcl|by apply k_thread|].
    intros j d d' Hj Hd [[<- <-]|[_ Hd']]%lookup_insert_Some Ha; [congruence|]. left. congruence.
Qed.

Lemma pool_move_ok w m w' : invariant w → move hash hash_order s w m = Some w' → invariant w'.
Proof using hash_order_Permutation.
  intros Hinv Hm. destruct m as [i r pr names streams|t i|t i|i|t r|t|now]; cbn [move] in Hm.
  - destruct Hinv as (G & Hw & Ho). destruct (store (w_pool w) !! i) eqn:Hi; simplify_eq. exists G. split; [by apply create_consistent|done].
  - destruct Hinv as (G & Hw & Ho). destruct (w_threads w !! t) eqn:Ht; [done|]. destruct (store (w_pool w) !! i) as [c|] eqn:Hi; [|done].
    destruct (holds w i) as [|n] eqn:Hn; [done|]. case_decide as Hnew; [done|]. simplify_eq.
    assert (G t = no_ghost) as Eg by (pose proof (Ho t) as H; by rewrite Ht in H).
    set (g := ins_ghost (Some (i, conn_address c, Allocated)) no_ghost). exists (upd t g G). split.
    + by eapply (insert_consistent hash w _ G t i c n).
    + intros t'. cbn. destruct (decide (t' = t)) as [->|Hne]; [rewrite lookup_insert_eq, upd_eq; apply wp_insert|].
      rewrite lookup_insert_ne, upd_ne by done. apply Ho.
  - destruct Hinv as (G & Hw & Ho). destruct (w_threads w !! t) eqn:Ht; [done|]. destruct (store (w_pool w) !! i) as [c|] eqn:Hi; [|done].
    destruct (holds w i) as [|n] eqn:Hn; [done|]. pose proof (conn_release_facts (w_now w) c) as Hf.
    pose proof (conn_release_same (w_now w) c (k_conn _ _ _ Hw i c Hi)) as Hsame. destruct (conn_release (w_now w) c) as [ok c'].
    cbn [fst snd] in *. set (w1 := hold n i _) in Hm.
    assert (Hw1 : consistent w1 G).
    { eapply (same_consistent hash w w1 G G i c c'); try done; [by left| | |].
      - intros j Hne. unfold w1. by rewrite holds_hold, decide_False.
      - intros Hopen. unfold w1. rewrite holds_hold, decide_True by done. destruct (k_count _ _ _ Hw i c Hi Hopen) as [H1 H2].
        destruct Hf as [(_ & -> & _)|(_ & -> & [?|Hz])]; [|done|];
          (split; [intros t' a ph Hph; specialize (H1 t' a ph Hph)|intros Hno; specialize (H2 Hno)]; lia).
      - intros t' _ Hz. destruct Hf as [(_ & _ & ?)|(_ & -> & _)]; [done|by left]. }
    destruct ok; simplify_eq; [|by exists G]. apply (ask_ok w1 G); [done|done|done|apply wp_release].
  - simplify_eq. destruct Hinv as (G & Hw & Ho). exists G. split; [|done].
    destruct (store (w_pool w) !! i) as [c|] eqn:Hi.
    + eapply (same_consistent hash w _ G G i c (mark_unhealthy c)); try done.
      * apply mark_unhealthy_same. by eapply k_conn.
      * unfold pool_mark_unhealthy. cbn. f_equal. apply map_eq. intros j. destruct (decide (i = j)) as [<-|Hne].
        -- by rewrite lookup_alter_eq, lookup_insert_eq, Hi.
        -- by rewrite lookup_alter_ne, lookup_insert_ne.
      * by left.
      * intros Hopen. unfold mark_unhealthy. case_bool_decide; [done|]. exact (k_count _ _ _ Hw i c Hi Hopen).
      * intros t _ Hz. left. unfold mark_unhealthy. by case_bool_decide.
    + apply (consistent_ext w); try done. unfold pool_mark_unhealthy. cbn. rewrite alter_id by (intros; congruence). by destruct (w_pool w).
  - destruct Hinv as (G & Hw & Ho). destruct (w_threads w !! t) eqn:Ht; simplify_eq. apply (ask_ok w G); [done|done|done|apply wp_request].
  - destruct (w_threads w !! t) as [p|] eqn:Ht; [|done]. by eapply section_ok.
  - destruct (_ <=? _); simplify_eq. destruct Hinv as (G & Hw & Ho). exists G. split; [by apply (consistent_ext w)|done].
Qed.

Lemma start_ok now : invariant (start now).
Proof.
  exists (λ _, no_ghost). split; [|by intros t; cbn; rewrite lookup_empty].
  constructor; cbn; try done; try (intros a i Hi; unfold bucket, index in Hi; cbn in Hi; rewrite lookup_empty in Hi; by apply elem_of_nil in Hi).
  all: intros; rewrite ?lookup_empty in *; try done; try set_solver.
  - split; [by intros t l; cbn; rewrite lookup_empty|].
    intros t i Hi. unfold index in Hi. cbn in Hi. rewrite lookup_empty in Hi. by apply elem_of_nil in Hi.
  - by destruct H as (c & Hc & _).
  - apply no_ghost_thread.
Qed.

Lemma pool_states_ok w : reachable hash hash_order s w → invariant w.
Proof using hash_order_Permutation. induction 1; [apply start_ok|by eapply pool_move_ok]. Qed.

(** ** Progress *)

(** What a section leaves of the code. *)
Definition child (p' p : prog) : Prop :=
  match p with
  | Ret _ _ => False
  | Lock _ k | Unlock k | Put_Bucket _ _ k | Evict _ k | Close _ k | Put_Id _ _ k | Drop_Ids _ k | Put_Index _ k | Drop_Index _ k | Hook _ k =>
    p' = k
  | Keys _ k => ∃ x, p' = k x
  | Get_Bucket _ k => ∃ x, p' = k x
  | Look _ k => ∃ x, p' = k x
  | Try_Acquire _ k => ∃ x, p' = k x
  | Get_Id _ k | Take_Id _ k => ∃ x, p' = k x
  | Indexed _ k => ∃ x, p' = k x
  | Candidates _ _ _ k => ∃ x, p' = k x
  end.

(** Code is finite whatever the sections answer. *)
Lemma child_wf : well_founded child.
Proof. intros p. induction p; constructor; intros p' Hp; cbn in Hp; try destruct Hp as [x ->]; subst; done. Qed.

Lemma exec_shape w t p w' :
  exec hash hash_order t p w = Some w' →
  match p with
  | Ret _ _ => w_threads w' = delete t (w_threads w) ∧ w_held w' = w_held w
  | Lock n k => w_threads w' = <[t := k]> (w_threads w) ∧ w_held w' = <[n := t]> (w_held w)
  | Unlock k => w_threads w' = <[t := k]> (w_threads w) ∧ w_held w' = filter (λ kv, kv.2 ≠ t) (w_held w)
  | _ => ∃ p', child p' p ∧ w_threads w' = <[t := p']> (w_threads w) ∧ w_held w' = w_held w
  end.
Proof.
  intros He. destruct p; cbn [exec] in He; simplify_eq; try done; try (eexists; split; [|by split]; cbn; by eauto).
  - by repeat case_match; simplify_eq.
  - destruct (store (w_pool w) !! i) as [c|]; [|simplify_eq; eexists; split; [|by split]; cbn; by eauto].
    destruct (try_acquire c) as [ok c']. simplify_eq. eexists. split; [cbn; by eauto|]. by destruct ok.
  - destruct (coalescing_candidates _ _ _ _ _). simplify_eq. eexists. split; [|by split]. cbn. by eauto.
Qed.

(** Only a shard that is held makes an operation wait. *)
Lemma exec_some w t p : (∀ n k, p = Lock n k → w_held w !! n = None) → is_Some (exec hash hash_order t p w).
Proof.
  intros Hl. destruct p; cbn [exec]; try done; repeat case_match; try done. specialize (Hl _ _ eq_refl). congruence.
Qed.

(** By running operations in progress. *)
Definition leads_to (w w' : World) : Prop :=
  ∃ ms, Forall (λ m, ∃ t, m = Mv_Run t) ms ∧ run hash hash_order s w ms = Some w'.

Lemma leads_to_refl w : leads_to w w.
Proof. by exists []. Qed.
Lemma leads_to_exec w t p w1 w2 :
  w_threads w !! t = Some p → exec hash hash_order t p w = Some w1 → leads_to w1 w2 → leads_to w w2.
Proof.
  intros Ht He (ms & Hms & Hr). exists (Mv_Run t :: ms). split; [constructor; [by eexists|done]|]. cbn. rewrite Ht. cbn. by rewrite He.
Qed.
Lemma leads_to_trans w w1 w2 : leads_to w w1 → leads_to w1 w2 → leads_to w w2.
Proof.
  intros (ms & Hms & Hr) (ms' & Hms' & Hr'). exists (ms ++ ms'). split; [by apply Forall_app|].
  clear Hms. revert w Hr. induction ms as [|m ms IH]; intros w Hr; cbn in *; [by simplify_eq|].
  destruct (move _ _ _ w m); [by apply IH|done].
Qed.

(** Whoever holds a shard can go on until it is released. *)
Lemma release_lock p : ∀ w t n,
  invariant w → w_threads w !! t = Some p → w_held w !! n = Some t →
  ∃ w', leads_to w w' ∧ invariant w' ∧ w_held w' = filter (λ kv, kv.2 ≠ t) (w_held w) ∧ dom (w_threads w') = dom (w_threads w).
Proof using hash_order_Permutation.
  induction p as [p IH] using (well_founded_ind child_wf). intros w t n Hinv Ht Hn. pose proof Hinv as (G & Hw & Ho).
  pose proof (Ho t) as Hwp. rewrite Ht in Hwp. apply (k_locks _ _ _ Hw) in Hn as Hs.
  destruct (exec_some w t p) as [w1 He]; [intros m k ->; destruct Hwp; congruence|].
  pose proof (section_ok w t p w1 Hinv Ht He) as Hinv1. pose proof (exec_shape w t p w1 He) as Hsh.
  assert (Hgo : ∀ p', child p' p → w_threads w1 = <[t := p']> (w_threads w) → w_held w1 = w_held w →
    ∃ w', leads_to w w' ∧ invariant w' ∧ w_held w' = filter (λ kv, kv.2 ≠ t) (w_held w) ∧ dom (w_threads w') = dom (w_threads w)).
  { intros p' Hc Et Eh. destruct (IH p' Hc w1 t n) as (w' & Hl & Hi & Hh & Hd); [done|by rewrite Et, lookup_insert_eq|by rewrite Eh|].
    exists w'. split_and!; [by eapply leads_to_exec|done|by rewrite Hh, Eh|]. rewrite Hd, Et, dom_insert_lookup_L; [done|by eexists]. }
  destruct p; try (destruct Hsh as (p' & Hc & Et & Eh); by eapply Hgo).
  - destruct Hwp. congruence.
  - destruct Hwp. congruence.
  - destruct Hsh as [Et Eh]. exists w1. split_and!; [eapply leads_to_exec; [done|done|apply leads_to_refl]|done|done|].
    rewrite Et, dom_insert_lookup_L; [done|by eexists].
Qed.

Lemma release_all w : invariant w → ∃ w', leads_to w w' ∧ invariant w' ∧ w_held w' = ∅ ∧ dom (w_threads w') = dom (w_threads w).
Proof using hash_order_Permutation.
  remember (size (w_held w)) as k eqn:Hk. revert w Hk. induction k as [k IH] using lt_wf_ind. intros w -> Hinv.
  destruct (decide (w_held w = ∅)) as [He|[n [t Hn]]%map_choose]; [exists w; split_and!; [apply leads_to_refl|done..]|].
  pose proof Hinv as (G & Hw & Ho). apply (k_locks _ _ _ Hw) in Hn as Hs. pose proof (Ho t) as Hwp.
  destruct (w_threads w !! t) as [p|] eqn:Ht; [|by rewrite Hwp in Hs].
  destruct (release_lock p w t n Hinv Ht Hn) as (w1 & Hl & Hi & Hh & Hd).
  destruct (IH (size (w_held w1))) with (w := w1) as (w2 & Hl2 & Hi2 & Hh2 & Hd2); [|done|done|].
  - rewrite Hh. apply map_subset_size. split; [apply map_filter_subseteq|]. intros Hsub.
    apply (lookup_weaken _ _ _ _ Hn) in Hsub. apply map_lookup_filter_Some in Hsub as [_ Hsub]. done.
  - exists w2. split_and!; [by eapply leads_to_trans|done|done|congruence].
Qed.

(** Alone with the shards, an operation runs to its end. *)
Lemma complete p : ∀ w t,
  invariant w → w_threads w !! t = Some p → (∀ n t', w_held w !! n = Some t' → t' = t) →
  ∃ w', leads_to w w' ∧ invariant w' ∧ w_held w' = ∅ ∧ w_threads w' = delete t (w_threads w).
Proof using hash_order_Permutation.
  induction p as [p IH] using (well_founded_ind child_wf). intros w t Hinv Ht Honly. pose proof Hinv as (G & Hw & Ho).
  pose proof (Ho t) as Hwp. rewrite Ht in Hwp.
  assert (Hfree : g_shard (G t) = None → w_held w = ∅).
  { intros Hs. apply map_empty. intros n. destruct (w_held w !! n) as [t'|] eqn:E; [|done].
    rewrite (Honly n t' E) in E. apply (k_locks _ _ _ Hw) in E. congruence. }
  destruct (exec_some w t p) as [w1 He]; [intros m k ->; destruct Hwp as [Hs _]; by rewrite (Hfree Hs), lookup_empty|].
  pose proof (section_ok w t p w1 Hinv Ht He) as Hinv1. pose proof (exec_shape w t p w1 He) as Hsh.
  assert (Hgo : ∀ p', child p' p → w_threads w1 = <[t := p']> (w_threads w) → (∀ n t', w_held w1 !! n = Some t' → t' = t) →
    ∃ w', leads_to w w' ∧ invariant w' ∧ w_held w' = ∅ ∧ w_threads w' = delete t (w_threads w)).
  { intros p' Hc Et Eh. destruct (IH p' Hc w1 t) as (w' & Hl & Hi & Hh & Hd); [done|by rewrite Et, lookup_insert_eq|done|].
    exists w'. split_and!; [by eapply leads_to_exec|done|done|]. by rewrite Hd, Et, delete_insert_eq. }
  destruct p; try (destruct Hsh as (p' & Hc & Et & Eh); eapply Hgo; [done|done|by rewrite Eh]).
  - destruct Hwp as [Hs _]. destruct Hsh as [Et Eh]. exists w1. split_and!; [eapply leads_to_exec; [done|done|apply leads_to_refl]|done| |done].
    by rewrite Eh, Hfree.
  - destruct Hwp as [Hs _]. destruct Hsh as [Et Eh]. eapply Hgo; [done|done|]. rewrite Eh, (Hfree Hs). intros n t'.
    rewrite lookup_insert_Some, lookup_empty. naive_solver.
  - destruct Hsh as [Et Eh]. eapply Hgo; [done|done|]. rewrite Eh. intros n t' [? _]%map_lookup_filter_Some. by eapply Honly.
Qed.

Lemma finish_all w : invariant w → w_held w = ∅ → ∃ w', leads_to w w' ∧ invariant w' ∧ w_threads w' = ∅.
Proof using hash_order_Permutation.
  remember (size (w_threads w)) as k eqn:Hk. revert w Hk. induction k as [k IH] using lt_wf_ind. intros w -> Hinv Hh.
  destruct (decide (w_threads w = ∅)) as [He|[t [p Ht]]%map_choose]; [exists w; split_and!; [apply leads_to_refl|done..]|].
  destruct (complete p w t Hinv Ht) as (w1 & Hl & Hi & Hh1 & Hd); [intros n t'; by rewrite Hh, lookup_empty|].
  destruct (IH (size (w_threads w1))) with (w := w1) as (w2 & Hl2 & Hi2 & Ht2); [|done|done|done|].
  - rewrite Hd. apply map_subset_size. by apply delete_subset; eexists.
  - exists w2. split_and!; [by eapply leads_to_trans|done|done].
Qed.
End Concurrent.

(** ** Theorems *)

(** C10.  However the operations of the pool are interleaved between their critical sections - by any number of threads, with any hash of
    addresses and any order of hashed containers, with connections created, inserted, released and marked unhealthy in between
    and the clock moving - whenever no operation is in progress the containers agree: no shard is left locked; a connection is
    in the bucket of an address exactly when the id map gives it that address; the buckets are not empty, have no duplicates, and
    hold open connections of their address, each carrying exactly the exchanges somebody has still to release; a connection
    of a bucket that can be coalesced is in the index under its target; and the index has only connections under their target, in
    their bucket or closed. *)
Theorem pool_interleaved (hash : Address → Z) (hash_order : list Address → list Address) (s : PoolSettings) (w : World) :
  (∀ l, hash_order l ≡ₚ l) → reachable hash hash_order s w → w_threads w = ∅ →
  let p := w_pool w in
  w_held w = ∅ ∧
  (∀ a i, i ∈ bucket p a ↔ by_id p !! i = Some a) ∧
  (∀ a l, by_address p !! a = Some l → l ≠ [] ∧ NoDup l) ∧
  (∀ a i, i ∈ bucket p a → ∃ c, store p !! i = Some c ∧ conn_address c = a ∧ health (conn_state c) ≠ Closed ∧
     allocations (conn_state c) = Z.of_nat (holds w i)) ∧
  (∀ a i t, i ∈ bucket p a → target_of (store p) i = Some t → i ∈ index p t) ∧
  (∀ t i, i ∈ index p t → target_of (store p) i = Some t ∧ (closed p i ∨ ∃ a, i ∈ bucket p a)).
Proof.
  intros Hho Hr Hq p. destruct (pool_states_ok hash hash_order s Hho w Hr) as (G & Hw & Ho).
  assert (Hno : ∀ t, G t = no_ghost) by (intros t; pose proof (Ho t) as H; by rewrite Hq, lookup_empty in H).
  assert (Hopen : ∀ a i, i ∈ bucket p a → ¬ closed p i).
  { intros a i Hi Hc. destruct (k_bucket _ _ _ Hw a i Hi) as (_ & _ & Hd). destruct (Hd Hc) as [t Ht].
    rewrite Hno in Ht. by apply elem_of_nil in Ht. }
  split_and!.
  - apply map_empty. intros n. destruct (w_held w !! n) as [t|] eqn:E; [|done].
    apply (k_locks _ _ _ Hw) in E. by rewrite Hno in E.
  - intros a i. split.
    + intros [?|[[t Ht]|[t Ht]]]%(k_named _ _ _ Hw); [done|by rewrite Hno in Ht|by rewrite Hno in Ht].
    + intros (_ & _ & [?|[t Ht]])%(k_id _ _ _ Hw); [done|]. rewrite Hno in Ht. by apply elem_of_nil in Ht.
  - apply (k_nodup _ _ _ Hw).
  - intros a i Hi. destruct (k_bucket _ _ _ Hw a i Hi) as (_ & Ha & _). unfold address_of in Ha. fold p in Ha.
    destruct (store p !! i) as [c|] eqn:Hc; [|done]. cbn in Ha. simplify_eq. exists c.
    assert (Hcl : ¬ is_shut c) by (intros Hs; eapply (Hopen (conn_address c) i Hi); by exists c).
    split_and!; [done..|]. destruct (k_count _ _ _ Hw i c Hc Hcl) as [_ H2]. apply H2. intros t b ph. by rewrite Hno.
  - intros a i t Hi Ht. destruct (k_indexed _ _ _ Hw a t i Hi Ht) as [?|[?|(t' & b & ph & E)]]; [done|by eapply Hopen in Hi|by rewrite Hno in E].
  - intros t i Hi. split; [by apply (proj2 (k_index_wf _ _ _ Hw))|]. by destruct (k_index _ _ _ Hw t i Hi).
Qed.

(** C11.  Whatever runs at the same time, when pruning is about to close a connection that connection is open, in its bucket, whose shard
    the pruning operation holds, and it carries no exchange - or else it is an HTTP/2 connection that requests of other
    origins may coalesce onto.  An HTTP/1 connection in use is never evicted. *)
Theorem eviction_spares_in_use (hash : Address → Z) (hash_order : list Address → list Address) (s : PoolSettings) (w : World)
    (t : nat) (i : ConnectionId) (k : prog) :
  (∀ l, hash_order l ≡ₚ l) → reachable hash hash_order s w → w_threads w !! t = Some (Evict i k) →
  ∃ c, store (w_pool w) !! i = Some c ∧ health (conn_state c) ≠ Closed ∧
    i ∈ bucket (w_pool w) (conn_address c) ∧ w_held w !! address_shard hash (conn_address c) = Some t ∧
    (allocations (conn_state c) = 0 ∨ (protocol c = Http2 ∧ is_Some (coalescing_index_target c))).
Proof.
  intros Hho Hr Ht. destruct (pool_states_ok hash hash_order s Hho w Hr) as (G & Hw & Ho).
  pose proof (Ho t) as Hwp. rewrite Ht in Hwp. destruct Hwp as (Hi & Hidle & Hnd & _).
  pose proof (k_thread _ _ _ Hw t) as Hth. destruct (t_idle _ _ _ _ Hth i Hidle) as (_ & Hset & Hall).
  destruct (k_inserted _ _ _ Hw i (proj1 Hset)) as [c Hc]. exists c. unfold viewed in Hi.
  destruct (g_view (G t)) as [[a l]|] eqn:Hv; [|by apply elem_of_nil in Hi]. cbn in Hi.
  destruct (t_view _ _ _ _ Hth a l Hv) as [Hs <-]. destruct (k_bucket _ _ _ Hw a i Hi) as (_ & Ha & Hd).
  unfold address_of in Ha. rewrite Hc in Ha. cbn in Ha. simplify_eq. split_and!; [done| |done|by apply (k_locks _ _ _ Hw)|].
  - intros Hsh. destruct Hd as [t' Ht']; [by exists c|]. destruct (decide (t' = t)) as [->|Hne]; [done|]. apply Hne.
    destruct (t_doomed _ _ _ _ (k_thread _ _ _ Hw t') i Ht') as (Hi' & _). unfold viewed in Hi'.
    destruct (g_view (G t')) as [[a' l']|] eqn:Hv'; [|by apply elem_of_nil in Hi']. cbn in Hi'.
    destruct (t_view _ _ _ _ (k_thread _ _ _ Hw t') a' l' Hv') as [_ <-]. destruct (k_bucket _ _ _ Hw a' i Hi') as (_ & Ha' & _).
    unfold address_of in Ha'. rewrite Hc in Ha'. cbn in Ha'. simplify_eq. by eapply view_exclusive.
  - destruct (Hall c Hc) as [?|Hco]; [by left|right]. split; [|done]. unfold coalescing_index_target in Hco.
    destruct (decide (protocol c = Http2)); [done|]. rewrite bool_decide_eq_false_2 in Hco by done. by destruct Hco.
Qed.

(** C32.  The pool's locks cannot deadlock, and no operation runs forever: from any state the operations reach, those in progress can
    all be run to their end, each going on whenever it is its turn. *)
Theorem pool_operations_finish (hash : Address → Z) (hash_order : list Address → list Address) (s : PoolSettings) (w : World) :
  (∀ l, hash_order l ≡ₚ l) → reachable hash hash_order s w →
  (w_threads w ≠ ∅ → ∃ t, is_Some (w_threads w !! t) ∧ is_Some (move hash hash_order s w (Mv_Run t))) ∧
  ∃ ms w', Forall (λ m, ∃ t, m = Mv_Run t) ms ∧ run hash hash_order s w ms = Some w' ∧ w_threads w' = ∅.
Proof.
  intros Hho Hr. pose proof (pool_states_ok hash hash_order s Hho w Hr) as Hinv.
  destruct (release_all hash hash_order s Hho w Hinv) as (w1 & Hl1 & Hi1 & Hh1 & _).
  destruct (finish_all hash hash_order s Hho w1 Hi1 Hh1) as (w2 & Hl2 & _ & Ht2).
  destruct (leads_to_trans hash hash_order s w w1 w2 Hl1 Hl2) as (ms & Hms & Hrun). split; [|by exists ms, w2].
  intros Hne. destruct ms as [|m ms]; cbn in Hrun; [by simplify_eq|]. apply Forall_cons in Hms as [[t ->] _].
  exists t. cbn in *. destruct (w_threads w !! t) as [p|]; [|done]. cbn in *. by destruct (exec _ _ _ _ _).
Qed.

(** ** Examples *)

Lemma pool_run_reachable hash hash_order s w ms w' :
  reachable hash hash_order s w → run hash hash_order s w ms = Some w' → reachable hash hash_order s w'.
Proof.
  revert w. induction ms as [|m ms IH]; intros w Hw Hr; cbn in Hr; [by simplify_eq|].
  destruct (move hash hash_order s w m) as [w1|] eqn:E; [|done]. eapply IH; [by eapply reach_move|done].
Qed.

Definition example_run := run (λ _, 0) id pool_settings_default (start 0).
Definition steps (n t : nat) : list Move := repeat (Mv_Run t) n.

(** An HTTP/2 connection is created, inserted and released. *)
Definition example_idle : list Move :=
  [Mv_Create 1%nat (direct (origin_h2 "a") example_target) Http2 ["b"%string] 10; Mv_Insert 0%nat 1%nat] ++ steps 13 0 ++
  [Mv_Release 0%nat 1%nat] ++ steps 9 0.
(** A request of another origin has found it, and has not acquired it yet; when it has been idle for too long, [acquire] of its own
    origin is about to evict it. *)
Definition example_race : list Move :=
  example_idle ++ [Mv_Ask 2%nat (Rq_AcquireCoalesced (origin_h2 "b") (mkRoutePlan [direct (origin_h2 "b") example_target] 0))] ++
  steps 10 2 ++ [Mv_Tick (from_secs 300); Mv_Ask 3%nat (Rq_Acquire (origin_h2 "a"))] ++ steps 5 3.
Definition evicting (t : nat) (w : World) : option ConnectionId :=
  match w_threads w !! t with Some (Evict i _) => Some i | _ => None end.
Definition returning (t : nat) (w : World) : option ConnectionId :=
  match w_threads w !! t with Some (Ret r _) => r | _ => None end.

Lemma pool_interleaved_witness :
  ∃ w, example_run example_idle = Some w ∧ by_id (w_pool w) !! 1%nat = Some (origin_h2 "a") ∧ w_held w = ∅ ∧
    (1%nat ∈ bucket (w_pool w) (origin_h2 "a") ↔ by_id (w_pool w) !! 1%nat = Some (origin_h2 "a")).
Proof.
  assert (Hc : (w ← example_run example_idle; Some (w_threads w, by_id (w_pool w) !! 1%nat)) = Some (∅, Some (origin_h2 "a")))
    by (vm_compute; reflexivity).
  destruct (example_run example_idle) as [w|] eqn:E; [|discriminate Hc]. cbn in Hc. injection Hc as Ht Hid. exists w.
  destruct (pool_interleaved (λ _, 0) id pool_settings_default w (λ l, reflexivity l)
              (pool_run_reachable _ _ _ _ _ _ (reach_start _ _ _ 0) E) Ht) as (Hh & Hb & _).
  split; [reflexivity|]. split; [exact Hid|]. split; [exact Hh|]. apply Hb.
Defined.

(** The connection about to be evicted has just been allocated: one that can be coalesced. *)
Lemma eviction_spares_in_use_witness :
  ∃ w c, example_run (example_race ++ steps 1 2) = Some w ∧ evicting 3 w = Some 1%nat ∧ store (w_pool w) !! 1%nat = Some c ∧
    allocations (conn_state c) = 1 ∧ (allocations (conn_state c) = 0 ∨ (protocol c = Http2 ∧ is_Some (coalescing_index_target c))).
Proof.
  assert (Hc : (w ← example_run (example_race ++ steps 1 2); i ← evicting 3 w;
                c ← store (w_pool w) !! 1%nat; Some (i, allocations (conn_state c))) = Some (1%nat, 1))
    by (vm_compute; reflexivity).
  destruct (example_run (example_race ++ steps 1 2)) as [w|] eqn:E; [|discriminate Hc]. cbn in Hc.
  unfold evicting in *. destruct (w_threads w !! 3%nat) as [p|] eqn:Ht; [|discriminate Hc].
  destruct p as [| | | | | | |i k| | | | | | | | | | | ]; try discriminate Hc. cbn in Hc.
  destruct (store (w_pool w) !! 1%nat) as [c|] eqn:Hst; [|discriminate Hc]. cbn in Hc. injection Hc as -> Ha.
  destruct (eviction_spares_in_use (λ _, 0) id pool_settings_default w 3 1 k (λ l, reflexivity l)
              (pool_run_reachable _ _ _ _ _ _ (reach_start _ _ _ 0) E) Ht) as (c' & Hc' & _ & _ & _ & Hor).
  rewrite Hst in Hc'. injection Hc' as <-. exists w, c. rewrite Ht. cbn. split_and!; [reflexivity|reflexivity|exact Hst|exact Ha|exact Hor].
Defined.

Lemma pool_operations_finish_witness :
  ∃ w ms w', example_run example_race = Some w ∧ evicting 3 w = Some 1%nat ∧
    run (λ _, 0) id pool_settings_default w ms = Some w' ∧ w_threads w' = ∅.
Proof.
  assert (Hc : (w ← example_run example_race; evicting 3 w) = Some 1%nat) by (vm_compute; reflexivity).
  destruct (example_run example_race) as [w|] eqn:E; [|discriminate Hc]. cbn in Hc.
  destruct (pool_operations_finish (λ _, 0) id pool_settings_default w (λ l, reflexivity l)
              (pool_run_reachable _ _ _ _ _ _ (reach_start _ _ _ 0) E)) as (_ & ms & w' & _ & Hr & Ht).
  exists w, ms, w'. split_and!; [reflexivity|exact Hc|exact Hr|exact Ht].
Defined.

(** And so a coalesced request can be handed a connection that is then closed under it: between looking at an idle connection and
    closing it the pruning operation does not hold the connection's lock, and [acquire_coalesced] does not hold the shard's. *)
Lemma coalesced_connection_evicted :
  ∃ w c, example_run (example_race ++ steps 1 2 ++ steps 1 3) = Some w ∧ returning 2 w = Some 1%nat ∧ holds w 1 = 1%nat ∧
    store (w_pool w) !! 1%nat = Some c ∧ is_closed c = true.
Proof.
  assert (Hc : (w ← example_run (example_race ++ steps 1 2 ++ steps 1 3); i ← returning 2 w;
                c ← store (w_pool w) !! 1%nat; Some (i, holds w 1, is_closed c)) = Some (1%nat, 1%nat, true))
    by (vm_compute; reflexivity).
  destruct (example_run _) as [w|] eqn:E; [|discriminate Hc]. cbn in Hc. destruct (returning 2 w) as [i|] eqn:Hi; [|discriminate Hc].
  cbn in Hc. destruct (store (w_pool w) !! 1%nat) as [c|] eqn:Hst; [|discriminate Hc]. cbn in Hc. injection Hc as -> Hh Hcl.
  exists w, c. by split_and!.
Qed.
