(* ===== verification/Limits.v ===== *)
(** * Connection limits

    openwire/src/connection/limits.rs: the per-address and global caps on connections, and
    which waiting requests a freed HTTP/2 stream wakes.

    tokio's [Semaphore] is not part of the sources: it is the class [Semaphore], with the
    documented meaning of its operations as [SemaphoreLaws].  The per-address semaphores are
    created on demand and reclaimed when unused, and an acquire and a drop each touch the map and
    the semaphore in two separate critical sections.  [set_step] is the step relation of those
    sections, so that every interleaving of tasks is covered: the requests between the two halves
    of an acquire, and the permits between the two halves of a drop, are part of the state, as are
    the reference counts the code looks at. *)

From S2P Require Import Prelude Net Error Proxy Planning RealConnection Pool.

(** ** The semaphore interface *)

Class Semaphore (Sem : Type) : Type := {
  sem_new : Z → Sem;
  sem_available : Sem → Z;
  sem_try_acquire : Sem → option Sem;
  sem_release : Sem → Sem;
}.

Class SemaphoreLaws (Sem : Type) `{Semaphore Sem} : Prop := {
  law_new : ∀ n, 0 ≤ n → sem_available (sem_new n) = n;
  law_try : ∀ s, match sem_try_acquire s with
                 | Some s' => 0 < sem_available s ∧ sem_available s' = sem_available s - 1
                 | None => sem_available s ≤ 0
                 end;
  law_release : ∀ s, sem_available (sem_release s) = sem_available s + 1;
}.

(** A counter is a semaphore. *)
#[global] Instance counter_semaphore : Semaphore Z := {|
  sem_new n := n;
  sem_available s := s;
  sem_try_acquire s := if 0 <? s then Some (s - 1) else None;
  sem_release s := s + 1;
|}.
#[global] Instance counter_laws : SemaphoreLaws Z.
Proof.
  constructor; cbn; [done| |done]. intros s. destruct (Z.ltb_spec 0 s); lia.
Qed.

Section Limits.
#[local] Set Default Proof Using "Type*".
Context {Sem : Type} `{SemaphoreLaws Sem}.

(** [limit_semaphore], openwire/connection/limits.rs:472-474. *)
Definition limit_semaphore (limit : Z) : option Sem :=
  if limit =? USIZE_MAX then None else Some (sem_new limit).

(** ** Per-address semaphores *)

(** [AddressSemaphoreSet], openwire/connection/limits.rs:64-75: the map from addresses to
    semaphores, here by allocation, with the references held outside it: by acquires that have
    looked their semaphore up ([acquiring]), by permits ([live]) and by permits being dropped that
    have given their slot back ([dropping]). *)
Record AddressSemaphoreSet : Type := mkSet {
  limit : Z;
  sems : gmap nat Sem;
  entries : gmap Address nat;
  next_ref : nat;
  acquiring : list (Address * nat);
  live : list (Address * nat);
  dropping : list (Address * nat);
}.

(** [AddressSemaphoreSet::new], openwire/connection/limits.rs:354-366. *)
Definition set_new (n : Z) : option AddressSemaphoreSet :=
  if n =? USIZE_MAX then None else Some (mkSet n ∅ ∅ 0%nat [] [] []).

Definition refs (r : nat) (l : list (Address * nat)) : Z := len (filter (λ x, x.2 = r) l).

(** [Arc::strong_count] of a semaphore. *)
Definition strong_count (st : AddressSemaphoreSet) (r : nat) : Z :=
  refs r (map_to_list (entries st)) + refs r (acquiring st) + refs r (live st) + refs r (dropping st).

(** [semaphore_for], openwire/connection/limits.rs:384-398. *)
Definition semaphore_for (st : AddressSemaphoreSet) (key : Address) : AddressSemaphoreSet * nat :=
  match entries st !! key with
  | Some r => (st, r)
  | None =>
    let r := next_ref st in
    (mkSet (limit st) (<[r := sem_new (limit st)]> (sems st)) (<[key := r]> (entries st))
       (S r) (acquiring st) (live st) (dropping st), r)
  end.

(** First half of [try_acquire], openwire/connection/limits.rs:372-382: look the semaphore up. *)
Definition begin_acquire (st : AddressSemaphoreSet) (key : Address) : AddressSemaphoreSet :=
  let '(st, r) := semaphore_for st key in
  mkSet (limit st) (sems st) (entries st) (next_ref st) ((key, r) :: acquiring st) (live st) (dropping st).

(** Second half of [try_acquire], openwire/connection/limits.rs:372-382: take a slot, or give the
    semaphore's reference up. *)
Definition finish_acquire (st : AddressSemaphoreSet) (x : Address * nat) : AddressSemaphoreSet * bool :=
  let acq := remove_first x (acquiring st) in
  match sems st !! x.2 ≫= sem_try_acquire with
  | Some s => (mkSet (limit st) (<[x.2 := s]> (sems st)) (entries st) (next_ref st) acq
                 (x :: live st) (dropping st), true)
  | None => (mkSet (limit st) (sems st) (entries st) (next_ref st) acq (live st) (dropping st), false)
  end.

(** First half of [AddressSemaphorePermit::drop], openwire/connection/limits.rs:417-419: the
    slot goes back. *)
Definition begin_drop (st : AddressSemaphoreSet) (x : Address * nat) : AddressSemaphoreSet :=
  mkSet (limit st) (alter sem_release x.2 (sems st)) (entries st) (next_ref st) (acquiring st)
    (remove_first x (live st)) (x :: dropping st).

(** The test under the map's lock in [AddressSemaphorePermit::drop],
    openwire/connection/limits.rs:427-432. *)
Definition remove_entry (st : AddressSemaphoreSet) (x : Address * nat) : bool :=
  bool_decide (entries st !! x.1 = Some x.2) &&
  bool_decide (sem_available <$> sems st !! x.2 = Some (limit st)) &&
  (strong_count st x.2 =? 2).

(** Second half of [AddressSemaphorePermit::drop], openwire/connection/limits.rs:421-436: unless an
    early test says there is nothing to reclaim ([skip]), test again under the lock and reclaim
    the entry; then the permit's own reference goes. *)
Definition finish_drop (st : AddressSemaphoreSet) (x : Address * nat) (skip : bool) : AddressSemaphoreSet :=
  let es := if negb skip && remove_entry st x then delete x.1 (entries st) else entries st in
  mkSet (limit st) (sems st) es (next_ref st) (acquiring st) (live st) (remove_first x (dropping st)).

(** [can_acquire], openwire/connection/limits.rs:400-405. *)
Definition set_can_acquire (st : AddressSemaphoreSet) (key : Address) : bool :=
  match entries st !! key with
  | Some r => match sems st !! r with Some s => 0 <? sem_available s | None => true end
  | None => true
  end.

(** One critical section of some task. *)
Inductive set_step : AddressSemaphoreSet → AddressSemaphoreSet → Prop :=
| step_begin_acquire st key : set_step st (begin_acquire st key)
| step_finish_acquire st x : x ∈ acquiring st → set_step st (finish_acquire st x).1
| step_begin_drop st x : x ∈ live st → set_step st (begin_drop st x)
| step_finish_drop st x skip : x ∈ dropping st → set_step st (finish_drop st x skip).

Definition set_reachable (n : Z) (st : AddressSemaphoreSet) : Prop :=
  rtc set_step (mkSet n ∅ ∅ 0%nat [] [] []) st.

(** ** Invariant *)

Definition outside (st : AddressSemaphoreSet) : list (Address * nat) :=
  acquiring st ++ live st ++ dropping st.

Record set_ok (st : AddressSemaphoreSet) : Prop := mkSetOk {
  so_outside : ∀ x, x ∈ outside st → entries st !! x.1 = Some x.2;
  so_sem : ∀ a r, entries st !! a = Some r →
    ∃ s, sems st !! r = Some s ∧ 0 ≤ sem_available s ∧ sem_available s + refs r (live st) = limit st;
  so_inj : ∀ a b r, entries st !! a = Some r → entries st !! b = Some r → a = b;
  so_fresh : ∀ a r, entries st !! a = Some r → (r < next_ref st)%nat;
}.

Lemma refs_cons r x l : refs r (x :: l) = (if decide (x.2 = r) then 1 else 0) + refs r l.
Proof. unfold refs. rewrite filter_cons. case_decide; len_lia. Qed.

#[local] Instance refs_Permutation r : Proper ((≡ₚ) ==> (=)) (refs r).
Proof. intros l k Hlk. unfold refs. by rewrite Hlk. Qed.

Lemma refs_nonneg r l : 0 ≤ refs r l.
Proof. apply len_nonneg. Qed.

Lemma refs_pos r x l : x ∈ l → x.2 = r → 1 ≤ refs r l.
Proof.
  intros [k Hk]%elem_of_Permutation Hr. rewrite Hk, refs_cons, decide_True by done.
  pose proof (refs_nonneg r k). lia.
Qed.

Lemma remove_first_refs r x l : x ∈ l → refs r l = (if decide (x.2 = r) then 1 else 0) + refs r (remove_first x l).
Proof. intros Hx. rewrite (remove_first_Permutation x l Hx) at 1. by rewrite refs_cons. Qed.

(** The entries count of a mapped semaphore is one. *)
Lemma entry_refs st a r : set_ok st → entries st !! a = Some r → refs r (map_to_list (entries st)) = 1.
Proof.
  intros [_ _ Hinj _] Ha. rewrite (refs_Permutation r _ ((a, r) :: map_to_list (delete a (entries st))))
    by (by rewrite map_to_list_delete).
  rewrite refs_cons, decide_True by done. unfold refs. rewrite filter_nil_all; [done|].
  intros [b r'] Hb Heq. simpl in Heq. subst r'. apply elem_of_map_to_list, lookup_delete_Some in Hb as [Hne Hb].
  destruct Hne. by apply (Hinj a b r).
Qed.

Lemma begin_acquire_ok st key : 0 ≤ limit st → set_ok st → set_ok (begin_acquire st key).
Proof.
  intros Hlim Hok. pose proof Hok as [H1 H2 H3 H4]. unfold begin_acquire, semaphore_for.
  destruct (entries st !! key) as [r|] eqn:Hkey.
  { constructor; unfold outside; cbn; try done. intros x [->|Hx]%elem_of_cons; [done|by apply H1]. }
  assert (Hnone : ∀ a r, entries st !! a = Some r → a ≠ key ∧ r ≠ next_ref st).
  { intros a r Ha. split; [congruence|]. apply H4 in Ha. lia. }
  assert (Hrefs : refs (next_ref st) (live st) = 0).
  { unfold refs. rewrite filter_nil_all; [done|]. intros x Hx Heq.
    assert (entries st !! x.1 = Some x.2) as Hent by (apply H1; unfold outside; set_solver).
    apply Hnone in Hent. tauto. }
  constructor; unfold outside; cbn.
  - intros x [->|Hx]%elem_of_cons; [by rewrite lookup_insert_eq|].
    assert (entries st !! x.1 = Some x.2) as Hent by (by apply H1).
    rewrite lookup_insert_ne; [done|]. intros ->. congruence.
  - intros a r [[_ <-]|[Hne Ha]]%lookup_insert_Some.
    + exists (sem_new (limit st)). rewrite lookup_insert_eq, law_new, Hrefs by done. split_and!; [done|done|lia].
    + rewrite lookup_insert_ne; [by apply (H2 a)|]. by apply not_eq_sym, (Hnone a).
  - intros a b r Ha Hb. apply lookup_insert_Some in Ha, Hb.
    destruct Ha as [[Ha Har]|[_ Ha]], Hb as [[Hb Hbr]|[_ Hb]].
    + congruence.
    + apply Hnone in Hb. naive_solver.
    + apply Hnone in Ha. naive_solver.
    + by eapply H3.
  - intros a r [[_ <-]|[_ Ha]]%lookup_insert_Some; [lia|]. apply H4 in Ha. lia.
Qed.

Lemma outside_acquiring st x : x ∈ acquiring st → x ∈ outside st.
Proof. unfold outside. rewrite !elem_of_app. tauto. Qed.
Lemma outside_live st x : x ∈ live st → x ∈ outside st.
Proof. unfold outside. rewrite !elem_of_app. tauto. Qed.
Lemma outside_dropping st x : x ∈ dropping st → x ∈ outside st.
Proof. unfold outside. rewrite !elem_of_app. tauto. Qed.

Lemma finish_acquire_ok st x : x ∈ acquiring st → set_ok st → set_ok (finish_acquire st x).1.
Proof.
  intros Hx Hok. pose proof Hok as [H1 H2 H3 H4]. unfold finish_acquire.
  assert (Hsub : ∀ y, y ∈ remove_first x (acquiring st) → y ∈ outside st)
    by (intros y Hy; by eapply outside_acquiring, remove_first_subset).
  assert (Hxe : entries st !! x.1 = Some x.2) by (by apply H1, outside_acquiring).
  destruct (sems st !! x.2) as [s|] eqn:Hs; simpl; [pose proof (law_try s) as Ht; destruct (sem_try_acquire s) as [s'|]|].
  - constructor; unfold outside; cbn; [| |done|done].
    + intros y. rewrite elem_of_app, elem_of_cons, elem_of_app.
      intros [Hy|[->|[Hy|Hy]]]; [by apply H1, Hsub|done|by apply H1, outside_live|by apply H1, outside_dropping].
    + intros a r Ha. destruct (H2 a r Ha) as (s0 & Hs0 & Hpos & Hcnt). rewrite refs_cons.
      destruct (decide (x.2 = r)) as [<-|Hne].
      * rewrite lookup_insert_eq. rewrite Hs in Hs0. injection Hs0 as <-. exists s'. split_and!; [done|lia|lia].
      * rewrite lookup_insert_ne by done. exists s0. split_and!; [done|done|lia].
  - constructor; unfold outside; cbn; [|done|done|done].
    intros y. rewrite !elem_of_app. intros [Hy|[Hy|Hy]]; [by apply H1, Hsub|by apply H1, outside_live|by apply H1, outside_dropping].
  - destruct (H2 x.1 x.2 Hxe) as (? & ? & _). congruence.
Qed.

Lemma begin_drop_ok st x : x ∈ live st → set_ok st → set_ok (begin_drop st x).
Proof.
  intros Hx [H1 H2 H3 H4]. unfold begin_drop. constructor; unfold outside; cbn; [| |done|done].
  - intros y. rewrite !elem_of_app, elem_of_cons. intros [Hy|[Hy|[->|Hy]]].
    + by apply H1, outside_acquiring.
    + apply H1, outside_live. by eapply remove_first_subset.
    + by apply H1, outside_live.
    + by apply H1, outside_dropping.
  - intros a r Ha. destruct (H2 a r Ha) as (s & Hs & Hpos & Hcnt).
    rewrite (remove_first_refs r x (live st) Hx) in Hcnt. destruct (decide (x.2 = r)) as [<-|Hne].
    + exists (sem_release s). rewrite lookup_alter_eq, Hs, law_release. split_and!; [done|lia|lia].
    + exists s. rewrite lookup_alter_ne by done. split_and!; [done|done|lia].
Qed.

(** Reclaiming an entry is safe: a reference count of two is the map's and the dropper's own, so
    nobody else holds the semaphore. *)
Lemma finish_drop_ok st x skip : x ∈ dropping st → set_ok st → set_ok (finish_drop st x skip).
Proof.
  intros Hx Hok. pose proof Hok as [H1 H2 H3 H4]. unfold finish_drop.
  assert (Hsub : ∀ y, y ∈ acquiring st ++ live st ++ remove_first x (dropping st) → y ∈ outside st).
  { intros y. unfold outside. rewrite !elem_of_app. intros [?|[?|?%remove_first_subset]]; tauto. }
  destruct (negb skip && remove_entry st x) eqn:Hrm.
  2: { constructor; unfold outside; cbn; [|done|done|done]. intros y Hy. by apply H1, Hsub. }
  apply andb_true_iff in Hrm as [_ Hrm]. unfold remove_entry in Hrm.
  rewrite !andb_true_iff, !bool_decide_eq_true, Z.eqb_eq in Hrm. destruct Hrm as [[Hent _] Hcount].
  unfold strong_count in Hcount. rewrite (entry_refs st x.1 x.2 Hok Hent) in Hcount.
  rewrite (remove_first_refs x.2 x (dropping st) Hx), decide_True in Hcount by done.
  pose proof (refs_nonneg x.2 (acquiring st)). pose proof (refs_nonneg x.2 (live st)).
  pose proof (refs_nonneg x.2 (remove_first x (dropping st))).
  assert (Hno : ∀ y, y ∈ acquiring st ++ live st ++ remove_first x (dropping st) → y.2 ≠ x.2).
  { intros y. rewrite !elem_of_app. intros [Hy|[Hy|Hy]] Heq; apply (refs_pos x.2) in Hy; try done; lia. }
  constructor; unfold outside; cbn.
  - intros y Hy. rewrite lookup_delete_ne; [by apply H1, Hsub|]. intros Heq. apply (Hno y Hy).
    pose proof (H1 y (Hsub y Hy)) as Hye. rewrite <-Heq in Hye. congruence.
  - intros a r [_ Ha]%lookup_delete_Some. by apply (H2 a).
  - intros a b r [_ Ha]%lookup_delete_Some [_ Hb]%lookup_delete_Some. by eapply H3.
  - intros a r [_ Ha]%lookup_delete_Some. by eapply H4.
Qed.

Lemma set_step_limit st st' : set_step st st' → limit st' = limit st.
Proof.
  intros [? key|? x _|? x _|? x skip _].
  - unfold begin_acquire, semaphore_for. by destruct (entries _ !! key).
  - unfold finish_acquire. by destruct (sems _ !! x.2 ≫= sem_try_acquire).
  - done.
  - done.
Qed.

Lemma set_step_ok st st' : 0 ≤ limit st → set_ok st → set_step st st' → set_ok st'.
Proof.
  intros Hlim Hok Hst. revert Hlim Hok. destruct Hst as [? key|? x Hx|? x Hx|? x skip Hx]; intros Hlim Hok.
  - by apply begin_acquire_ok.
  - by apply finish_acquire_ok.
  - by apply begin_drop_ok.
  - by apply finish_drop_ok.
Qed.

Lemma set_reachable_ok n st : 0 ≤ n → set_reachable n st → set_ok st ∧ limit st = n.
Proof.
  intros Hn Hr. unfold set_reachable in Hr. apply (rtc_ind_r (λ st, set_ok st ∧ limit st = n) _) in Hr; [done| |].
  - split; [|done]. constructor; unfold outside; cbn; [by intros ? ?%elem_of_nil|intros a r; by rewrite lookup_empty..].
  - intros y z _ Hst [Hok Hl]. split; [by apply (set_step_ok y z); [rewrite Hl|..]|]. by rewrite (set_step_limit y z Hst).
Qed.

Lemma refs_address st a r :
  set_ok st → entries st !! a = Some r → refs r (live st) = len (filter (λ x, x.1 = a) (live st)).
Proof.
  intros [H1 _ H3 _] Ha. unfold refs. f_equal. apply filter_ext_in. intros x Hx.
  pose proof (H1 x (outside_live st x Hx)) as Hxe. split; [|congruence].
  intros <-. by apply (H3 _ _ x.2).
Qed.

Lemma no_entry_no_live st a : set_ok st → entries st !! a = None → filter (λ x, x.1 = a) (live st) = [].
Proof.
  intros [H1 _ _ _] Ha. apply filter_nil_all. intros x Hx <-. rewrite (H1 x) in Ha; [done|by apply outside_live].
Qed.

Lemma live_bound st a : 0 ≤ limit st → set_ok st → len (filter (λ x, x.1 = a) (live st)) ≤ limit st.
Proof.
  intros Hlim Hok. destruct (entries st !! a) as [r|] eqn:Ha.
  - rewrite <-(refs_address st a r) by done. destruct (so_sem st Hok a r Ha) as (s & _ & ? & ?). lia.
  - by rewrite no_entry_no_live.
Qed.

(** A slot is granted exactly when its address has one free. *)
Lemma finish_acquire_iff st x :
  set_ok st → x ∈ acquiring st →
  (finish_acquire st x).2 = true ↔ len (filter (λ y, y.1 = x.1) (live st)) < limit st.
Proof.
  intros Hok Hx. pose proof (so_outside st Hok x (outside_acquiring st x Hx)) as Hent.
  destruct (so_sem st Hok _ _ Hent) as (s & Hs & Hpos & Hcnt). rewrite (refs_address st x.1 x.2 Hok Hent) in Hcnt.
  unfold finish_acquire. rewrite Hs. simpl. pose proof (law_try s) as Ht.
  destruct (sem_try_acquire s); simpl; (split; [|try done]); lia.
Qed.

(** ** The connection limiter *)

(** [ConnectionLimiter], openwire/connection/limits.rs:26-36. *)
Record ConnectionLimiter : Type := mkLimiter {
  cl_global : option Sem;
  cl_set : option AddressSemaphoreSet;
}.

(** [ConnectionPermit], openwire/connection/limits.rs:38-41: the address and, when addresses are
    limited, the semaphore its slot is on. *)
Record ConnectionPermit : Type := mkConnPermit {
  cp_address : Address;
  cp_semaphore : option nat;
}.

(** [ConnectionLimiter::new], openwire/connection/limits.rs:131-143. *)
Definition limiter_new (max_total max_per_address : Z) : ConnectionLimiter :=
  mkLimiter (limit_semaphore max_total) (set_new max_per_address).

(** [AddressSemaphoreSet::try_acquire], openwire/connection/limits.rs:372-382, uninterrupted. *)
Definition set_try_acquire (st : AddressSemaphoreSet) (key : Address) : AddressSemaphoreSet * option nat :=
  let '(_, r) := semaphore_for st key in
  let '(st, ok) := finish_acquire (begin_acquire st key) (key, r) in
  (st, if ok then Some r else None).

(** [AddressSemaphorePermit::drop], openwire/connection/limits.rs:418-436, uninterrupted. *)
Definition set_drop (st : AddressSemaphoreSet) (x : Address * nat) : AddressSemaphoreSet :=
  finish_drop (begin_drop st x) x false.

(** [ConnectionLimiter::try_acquire], openwire/connection/limits.rs:145-166: the address's slot first;
    when the global one is missing it is given back. *)
Definition limiter_try_acquire (cl : ConnectionLimiter) (a : Address)
    : ConnectionLimiter * option ConnectionPermit :=
  let take_global (st : option AddressSemaphoreSet) (r : option nat) :=
    match cl_global cl with
    | None => (mkLimiter None st, Some (mkConnPermit a r))
    | Some s =>
      match sem_try_acquire s with
      | Some s => (mkLimiter (Some s) st, Some (mkConnPermit a r))
      | None =>
        let st := match st, r with
                  | Some st, Some r => Some (set_drop st (a, r))
                  | st, _ => st
                  end in
        (mkLimiter (Some s) st, None)
      end
    end in
  match cl_set cl with
  | None => take_global None None
  | Some st =>
    match set_try_acquire st a with
    | (st, Some r) => take_global (Some st) (Some r)
    | (st, None) => (mkLimiter (cl_global cl) (Some st), None)
    end
  end.

(** [ConnectionPermitInner::drop], openwire/connection/limits.rs:409-414, but for the notifications. *)
Definition limiter_drop (cl : ConnectionLimiter) (pm : ConnectionPermit) : ConnectionLimiter :=
  let st := match cl_set cl, cp_semaphore pm with
            | Some st, Some r => Some (set_drop st (cp_address pm, r))
            | st, _ => st
            end in
  mkLimiter (sem_release <$> cl_global cl) st.

(** [ConnectionLimiter::can_acquire], openwire/connection/limits.rs:169-179. *)
Definition limiter_can_acquire (cl : ConnectionLimiter) (a : Address) : bool :=
  match cl_global cl with Some s => 0 <? sem_available s | None => true end &&
  match cl_set cl with Some st => set_can_acquire st a | None => true end.

(** The limiter and the permits alive, in any order of acquires and drops. *)
Inductive limiter_reachable (max_total max_per_address : Z) : ConnectionLimiter → list ConnectionPermit → Prop :=
| lr_new : limiter_reachable max_total max_per_address (limiter_new max_total max_per_address) []
| lr_acquire cl ps a :
    limiter_reachable max_total max_per_address cl ps →
    limiter_reachable max_total max_per_address (limiter_try_acquire cl a).1
      (option_list (limiter_try_acquire cl a).2 ++ ps)
| lr_drop cl pm ps ps' :
    limiter_reachable max_total max_per_address cl ps → ps ≡ₚ pm :: ps' →
    limiter_reachable max_total max_per_address (limiter_drop cl pm) ps'.

Definition permit_key (pm : ConnectionPermit) : option (Address * nat) := pair (cp_address pm) <$> cp_semaphore pm.

Record limiter_ok (max_total max_per_address : Z) (cl : ConnectionLimiter) (ps : list ConnectionPermit) : Prop := mkLimiterOk {
  lo_global : match cl_global cl with
              | None => max_total = USIZE_MAX
              | Some s => max_total ≠ USIZE_MAX ∧ 0 ≤ sem_available s ∧ sem_available s + len ps = max_total
              end;
  lo_set : match cl_set cl with
           | None => max_per_address = USIZE_MAX ∧ Forall (λ pm, cp_semaphore pm = None) ps
           | Some st => max_per_address ≠ USIZE_MAX ∧ set_ok st ∧ limit st = max_per_address ∧
                        acquiring st = [] ∧ dropping st = [] ∧ permit_key <$> ps ≡ₚ Some <$> live st
           end;
}.

Lemma remove_first_head {A} `{EqDecision A} (x : A) l : remove_first x (x :: l) = l.
Proof. unfold remove_first. simpl. by rewrite decide_True. Qed.

Lemma set_try_acquire_spec st a :
  0 ≤ limit st → set_ok st → acquiring st = [] →
  let '(st', r) := set_try_acquire st a in
  set_ok st' ∧ limit st' = limit st ∧ acquiring st' = [] ∧ dropping st' = dropping st ∧
  (is_Some r ↔ len (filter (λ y, y.1 = a) (live st)) < limit st) ∧
  live st' = (match r with Some r => [(a, r)] | None => [] end) ++ live st.
Proof.
  intros Hlim Hok Hacq. unfold set_try_acquire.
  assert (Hb : acquiring (begin_acquire st a) = [(a, (semaphore_for st a).2)] ∧
               live (begin_acquire st a) = live st ∧ dropping (begin_acquire st a) = dropping st ∧
               limit (begin_acquire st a) = limit st).
  { unfold begin_acquire, semaphore_for. by destruct (entries st !! a); cbn; rewrite Hacq. }
  destruct (semaphore_for st a) as [st0 r]. simpl in Hb. destruct Hb as (Ba & Bl & Bd & Blim).
  pose proof (begin_acquire_ok st a Hlim Hok) as Hok1. set (st1 := begin_acquire st a) in *.
  assert (Hx : (a, r) ∈ acquiring st1) by (rewrite Ba; by apply list_elem_of_singleton).
  pose proof (finish_acquire_ok st1 (a, r) Hx Hok1) as Hok2.
  pose proof (finish_acquire_iff st1 (a, r) Hok1 Hx) as Hiff. rewrite Bl, Blim in Hiff. cbn [fst] in Hiff.
  assert (Hf : limit (finish_acquire st1 (a, r)).1 = limit st1 ∧ acquiring (finish_acquire st1 (a, r)).1 = [] ∧
               dropping (finish_acquire st1 (a, r)).1 = dropping st1 ∧
               live (finish_acquire st1 (a, r)).1 = (if (finish_acquire st1 (a, r)).2 then [(a, r)] else []) ++ live st1).
  { unfold finish_acquire. rewrite Ba, remove_first_head. by destruct (sems st1 !! _ ≫= _). }
  destruct (finish_acquire st1 (a, r)) as [st2 ok]. simpl in *. destruct Hf as (F1 & F2 & F3 & F4).
  rewrite F1, F3, F4, Bl, Bd, Blim, <-Hiff. split_and!; try done; by destruct ok.
Qed.

Lemma set_drop_spec st x :
  set_ok st → acquiring st = [] → dropping st = [] → x ∈ live st →
  set_ok (set_drop st x) ∧ limit (set_drop st x) = limit st ∧ acquiring (set_drop st x) = [] ∧
  dropping (set_drop st x) = [] ∧ live (set_drop st x) = remove_first x (live st).
Proof.
  intros Hok Ha Hd Hx. unfold set_drop. split_and!; try done.
  - apply finish_drop_ok; [|by apply begin_drop_ok]. cbn. by left.
  - cbn. rewrite Hd. apply remove_first_head.
Qed.

Lemma set_can_acquire_iff st a :
  0 < limit st → set_ok st →
  set_can_acquire st a = true ↔ len (filter (λ y, y.1 = a) (live st)) < limit st.
Proof.
  intros Hlim Hok. unfold set_can_acquire. destruct (entries st !! a) as [r|] eqn:Ha.
  - destruct (so_sem st Hok a r Ha) as (s & -> & Hpos & Hcnt). rewrite (refs_address st a r Hok Ha) in Hcnt.
    rewrite Z.ltb_lt. lia.
  - rewrite no_entry_no_live by done. split; [|done]. intros _. len_lia.
Qed.

Definition address_permits (a : Address) (ps : list ConnectionPermit) : Z :=
  len (filter (λ pm, cp_address pm = a) ps).

Lemma live_permits a (ps : list ConnectionPermit) (l : list (Address * nat)) :
  permit_key <$> ps ≡ₚ Some <$> l → address_permits a ps = len (filter (λ y, y.1 = a) l).
Proof.
  intros Hp. unfold address_permits.
  assert (Hf : ∀ (l : list (Address * nat)), len (filter (λ y, y.1 = a) l) = len (filter (λ o, fst <$> o = Some a) (Some <$> l))).
  { intros k. induction k as [|y k IH]; [done|]. rewrite fmap_cons, !filter_cons. cbn [fmap option_fmap option_map].
    destruct (decide (y.1 = a)), (decide (Some y.1 = Some a)); try congruence; len_lia. }
  rewrite Hf, <-Hp. assert (Hs : Forall (λ pm, is_Some (cp_semaphore pm)) ps).
  { apply Forall_forall. intros pm Hpm. assert (permit_key pm ∈ Some <$> l) as Hin by (rewrite <-Hp; by apply list_elem_of_fmap_2).
    apply list_elem_of_fmap in Hin as (y & Hy & _). unfold permit_key in Hy. by destruct (cp_semaphore pm). }
  clear Hp Hf. induction Hs as [|pm ps [r Hr] _ IH]; [done|]. rewrite fmap_cons, !filter_cons.
  assert (Hk : fst <$> permit_key pm = Some (cp_address pm)) by (unfold permit_key; by rewrite Hr).
  repeat case_decide; try congruence; len_lia.
Qed.

Definition global_room (max_total : Z) (ps : list ConnectionPermit) : Prop :=
  max_total = USIZE_MAX ∨ len ps < max_total.
Definition address_room (max_per_address : Z) (a : Address) (ps : list ConnectionPermit) : Prop :=
  max_per_address = USIZE_MAX ∨ address_permits a ps < max_per_address.

Lemma limiter_try_acquire_ok mt mp cl ps a :
  0 ≤ mp → limiter_ok mt mp cl ps →
  let '(cl', r) := limiter_try_acquire cl a in
  limiter_ok mt mp cl' (option_list r ++ ps) ∧
  (is_Some r ↔ global_room mt ps ∧ address_room mp a ps) ∧ (∀ pm, r = Some pm → cp_address pm = a).
Proof.
  intros Hmp [Hg Hs]. unfold limiter_try_acquire, global_room, address_room.
  destruct cl as [g o]; cbn [cl_global cl_set] in *.
  (* the global half *)
  assert (Hglobal : match g with
    | None => mt = USIZE_MAX
    | Some s => match sem_try_acquire s with
                | Some s' => len ps < mt ∧ mt ≠ USIZE_MAX ∧ 0 ≤ sem_available s' ∧ sem_available s' + (1 + len ps) = mt
                | None => ¬ (mt = USIZE_MAX ∨ len ps < mt)
                end
    end).
  { destruct g as [s|]; [|done]. pose proof (law_try s). destruct (sem_try_acquire s); lia. }
  destruct o as [st|].
  - destruct Hs as (Hne & Sok & Slim & Sacq & Sdrop & Slive).
    pose proof (set_try_acquire_spec st a ltac:(lia) Sok Sacq) as Hta. rewrite <-(live_permits a ps _ Slive), Slim in Hta.
    destruct (set_try_acquire st a) as [st' [r|]]; destruct Hta as (Tok & Tlim & Tacq & Tdrop & Troom & Tlive).
    2: { split_and!; [|split; [by intros []|intros [_ [?|Hlt]]; [done|by apply Troom in Hlt as []]]|done].
         constructor; [done|]. cbn in *. rewrite Tlive. split_and!; [done|done|done|done|congruence|done]. }
    assert (Hroom : address_permits a ps < mp) by (apply Troom; by eexists).
    assert (Hset : permit_key <$> mkConnPermit a (Some r) :: ps ≡ₚ Some <$> live st') by (rewrite Tlive; cbn; by rewrite Slive).
    destruct g as [s|]; [destruct (sem_try_acquire s) as [s'|]|].
    + split_and!; [|split; [|by eexists]|by intros ? [= <-]]; [|intros _; split; right; lia].
      constructor; simpl; [rewrite len_cons; lia|]. split_and!; [done|done|done|done|congruence|done].
    + destruct (set_drop_spec st' (a, r)) as (D1 & D2 & D3 & D4 & D5);
        [done|done|by rewrite Tdrop|rewrite Tlive; by left|].
      rewrite Tlive in D5. cbn [app] in D5. rewrite remove_first_head in D5.
      split_and!; [|split; [by intros []|tauto]|done].
      constructor; [done|]. cbn [cl_set]. rewrite D5. split_and!; [done|done|congruence|done|done|done].
    + split_and!; [|split; [|by eexists]|by intros ? [= <-]]; [|intros _; split; [by left|right; lia]].
      constructor; simpl; [done|]. split_and!; [done|done|done|done|congruence|done].
  - destruct Hs as [Hu Hnone]. destruct g as [s|]; [destruct (sem_try_acquire s) as [s'|]|].
    + split_and!; [|split; [|by eexists]|by intros ? [= <-]]; [|intros _; split; [right; lia|by left]].
      constructor; simpl; [rewrite len_cons; lia|]. split; [done|by constructor].
    + split_and!; [by constructor|split; [by intros []|tauto]|done].
    + split_and!; [|split; [|by eexists]|by intros ? [= <-]]; [|intros _; split; by left].
      constructor; simpl; [done|]. split; [done|by constructor].
Qed.

Lemma limiter_drop_ok mt mp cl pm ps ps' :
  ps ≡ₚ pm :: ps' → limiter_ok mt mp cl ps → limiter_ok mt mp (limiter_drop cl pm) ps'.
Proof.
  intros Hp [Hg Hs]. destruct cl as [g o]; cbn [cl_global cl_set] in *.
  constructor; unfold limiter_drop; cbn [cl_global cl_set].
  - destruct g as [s|]; cbn; [|done]. rewrite law_release. rewrite Hp, len_cons in Hg. lia.
  - destruct o as [st|].
    + destruct Hs as (Hne & Sok & Slim & Sacq & Sdrop & Slive). rewrite Hp, fmap_cons in Slive.
      assert (permit_key pm ∈ Some <$> live st) as Hin by (rewrite <-Slive; by left).
      apply list_elem_of_fmap in Hin as (x & Hk & Hx). unfold permit_key in Hk.
      destruct (cp_semaphore pm) as [r|] eqn:Er; [|done]. simpl in Hk. injection Hk as <-.
      destruct (set_drop_spec st (cp_address pm, r) Sok Sacq Sdrop Hx) as (D1 & D2 & D3 & D4 & D5).
      split_and!; [done|done|congruence|done|done|]. rewrite D5.
      rewrite (remove_first_Permutation _ _ Hx), fmap_cons in Slive. unfold permit_key at 1 in Slive.
      rewrite Er in Slive. cbn [fmap option_fmap option_map] in Slive. by apply Permutation_cons_inv in Slive.
    + destruct Hs as [? Hn]. rewrite Hp in Hn. apply Forall_cons in Hn as [_ ?]. by destruct (cp_semaphore pm).
Qed.

Lemma limiter_reachable_ok mt mp cl ps : 0 ≤ mt → 0 ≤ mp → limiter_reachable mt mp cl ps → limiter_ok mt mp cl ps.
Proof.
  intros Hmt Hmp. induction 1 as [|cl ps a _ IH|cl pm ps ps' _ IH Hp].
  - unfold limiter_new, limit_semaphore, set_new. constructor; cbn.
    + destruct (Z.eqb_spec mt USIZE_MAX); [done|]. rewrite law_new by done. len_lia.
    + destruct (Z.eqb_spec mp USIZE_MAX); [done|]. split_and!; try done.
      constructor; unfold outside; cbn; [by intros ? ?%elem_of_nil|intros a r; by rewrite lookup_empty..].
  - pose proof (limiter_try_acquire_ok mt mp cl ps a Hmp IH) as Hta.
    destruct (limiter_try_acquire cl a). by destruct Hta.
  - by eapply limiter_drop_ok.
Qed.

Lemma limiter_can_acquire_iff mt mp cl ps a :
  0 < mp → limiter_ok mt mp cl ps →
  limiter_can_acquire cl a = true ↔ global_room mt ps ∧ address_room mp a ps.
Proof.
  intros Hmp [Hg Hs]. unfold limiter_can_acquire, global_room, address_room. rewrite andb_true_iff.
  destruct cl as [[s|] [st|]]; cbn [cl_global cl_set] in *; rewrite ?Z.ltb_lt.
  - destruct Hs as (? & Sok & <- & _ & _ & Slive). rewrite set_can_acquire_iff, (live_permits a ps _ Slive) by done. lia.
  - lia.
  - destruct Hs as (? & Sok & <- & _ & _ & Slive). rewrite set_can_acquire_iff, (live_permits a ps _ Slive) by done. lia.
  - lia.
Qed.

(** ** Theorems *)

(** C30.  Whatever the interleaving of tasks inside their critical sections, the permits alive for one
    address never exceed the limit, an acquire under way is granted exactly when its address has a
    free slot, and reclaiming unused semaphores never splits an address over two of them: every
    reference held outside the map is to the map's current semaphore. *)
Theorem address_cap_interleaved (n : Z) (st : AddressSemaphoreSet) :
  0 ≤ n → set_reachable n st →
  (∀ a, len (filter (λ x, x.1 = a) (live st)) ≤ n) ∧
  (∀ x, x ∈ acquiring st →
     (finish_acquire st x).2 = true ↔ len (filter (λ y, y.1 = x.1) (live st)) < n) ∧
  (∀ x, x ∈ acquiring st ++ live st ++ dropping st → entries st !! x.1 = Some x.2).
Proof.
  intros Hn Hr. destruct (set_reachable_ok n st Hn Hr) as [Hok Hlim]. split_and!.
  - intros a. rewrite <-Hlim. apply live_bound; [lia|done].
  - intros x Hx. rewrite <-Hlim. by apply finish_acquire_iff.
  - apply (so_outside st Hok).
Qed.

(** In any history of acquires and drops, the limiter grants a connection permit exactly when neither
    the total limit nor the address's own limit (when they are finite) is reached by the permits
    alive, which is also what the [can_acquire] probe reports; so neither limit is ever exceeded,
    and a refusal, at either limit, uses up no slot. *)
Theorem limiter_grants_iff_room (max_total max_per_address : Z) (cl : ConnectionLimiter)
    (ps : list ConnectionPermit) (a : Address) :
  0 ≤ max_total → 0 ≤ max_per_address → limiter_reachable max_total max_per_address cl ps →
  (is_Some (limiter_try_acquire cl a).2 ↔
     (max_total = USIZE_MAX ∨ len ps < max_total) ∧
     (max_per_address = USIZE_MAX ∨ address_permits a ps < max_per_address)) ∧
  (0 < max_per_address → limiter_can_acquire cl a = true ↔ is_Some (limiter_try_acquire cl a).2) ∧
  (max_total ≠ USIZE_MAX → len ps ≤ max_total) ∧
  (max_per_address ≠ USIZE_MAX → address_permits a ps ≤ max_per_address).
Proof.
  intros Hmt Hmp Hr. pose proof (limiter_reachable_ok _ _ _ _ Hmt Hmp Hr) as Hok.
  pose proof (limiter_try_acquire_ok _ _ cl ps a Hmp Hok) as Hta. destruct (limiter_try_acquire cl a) as [cl' r].
  destruct Hta as (_ & Hiff & _). split_and!; [done| | |].
  1: { intros Hpos. simpl. rewrite Hiff. by apply limiter_can_acquire_iff. }
  all: destruct Hok as [Hg Hs].
  - intros Hne. destruct (cl_global cl); [lia|done].
  - intros Hne. destruct (cl_set cl) as [st|]; [|by destruct Hs].
    destruct Hs as (_ & Sok & <- & _ & _ & Slive). rewrite (live_permits a ps _ Slive). by apply live_bound.
Qed.
End Limits.

Lemma address_cap_interleaved_witness :
  let a := mkAddress Scheme_Http (mkAuthorityKey "a" 80) None None Http1OrHttp2 Dns_System in
  let st := begin_acquire (mkSet 1 (∅ : gmap nat Z) ∅ 0%nat [] [] []) a in
  set_reachable 1 st ∧ ((finish_acquire st (a, 0%nat)).2 = true ↔ len (filter (λ y, y.1 = a) (live st)) < 1).
Proof.
  intros a st. assert (Hr : set_reachable 1 st) by (apply rtc_once; constructor). split; [exact Hr|].
  apply (address_cap_interleaved 1 st); [lia|exact Hr|]. apply list_elem_of_In. left. reflexivity.
Defined.

Lemma limiter_grants_iff_room_witness :
  let a := mkAddress Scheme_Http (mkAuthorityKey "a" 80) None None Http1OrHttp2 Dns_System in
  is_Some (limiter_try_acquire (limiter_new (Sem := Z) 1 1) a).2 ↔
    (1 = USIZE_MAX ∨ len (@nil ConnectionPermit) < 1) ∧ (1 = USIZE_MAX ∨ address_permits a [] < 1).
Proof. intros a. apply (limiter_grants_iff_room 1 1 (limiter_new 1 1) [] a); [lia|lia|constructor]. Defined.

(** ** Waking waiters *)

(** [coalescing_wait_eligible], openwire/connection/limits.rs:325-339. *)
Definition coalescing_wait_eligible (origin waiting : Address) (names : list string) : bool :=
  bool_decide (scheme origin = Scheme_Https) && bool_decide (scheme waiting = Scheme_Https) &&
  bool_decide (proxy origin = None) && bool_decide (proxy waiting = None) &&
  bool_decide (port (authority origin) = port (authority waiting)) &&
  negb (bool_decide (protocol_policy waiting = Http1Only)) &&
  existsb (λ name, verified_server_name_matches name (host (authority waiting))) names.

(** [notify_http2], openwire/connection/limits.rs:216-237: the addresses notified, of those with
    someone listening. *)
Definition notify_http2 (listening : list Address) (a : Address) (names : list string) : list Address :=
  (if bool_decide (a ∈ listening) then [a] else []) ++
  match names with
  | [] => []
  | _ => filter (λ w, w ≠ a ∧ coalescing_wait_eligible a w names = true) listening
  end.

Lemma notify_http2_iff listening c w :
  w ∈ notify_http2 listening (conn_address c) (verified_server_names c) ↔
  w ∈ listening ∧
  (w = conn_address c ∨
   scheme (conn_address c) = Scheme_Https ∧ proxy (conn_address c) = None ∧ request_allows_h2_coalescing w = true ∧
   port (authority (conn_address c)) = port (authority w) ∧
   ∃ n, n ∈ verified_server_names c ∧ verified_server_name_matches n (host (authority w)) = true).
Proof.
  set (a := conn_address c). unfold notify_http2. rewrite elem_of_app.
  assert (He : coalescing_wait_eligible a w (verified_server_names c) = true ↔
    scheme a = Scheme_Https ∧ proxy a = None ∧ request_allows_h2_coalescing w = true ∧
    port (authority a) = port (authority w) ∧
    ∃ n, n ∈ verified_server_names c ∧ verified_server_name_matches n (host (authority w)) = true).
  { unfold coalescing_wait_eligible. rewrite request_allows_iff, !andb_true_iff, negb_true_iff, existsb_exists.
    rewrite bool_decide_eq_false, !bool_decide_eq_true. setoid_rewrite <-list_elem_of_In. tauto. }
  rewrite <-He. case_bool_decide as Ha; destruct (verified_server_names c) as [|n ns];
    rewrite ?list_elem_of_filter, ?list_elem_of_singleton, ?elem_of_nil.
  - assert (coalescing_wait_eligible a w [] = false) as -> by (unfold coalescing_wait_eligible; by rewrite andb_false_r).
    split; [intros [->|?]; [tauto|done]|]. intros [? [->|?]]; [by left|done].
  - destruct (decide (w = a)) as [->|]; [tauto|]. tauto.
  - assert (coalescing_wait_eligible a w [] = false) as -> by (unfold coalescing_wait_eligible; by rewrite andb_false_r).
    split; [tauto|]. intros [? [->|?]]; [done|done].
  - destruct (decide (w = a)) as [->|]; tauto.
Qed.

(** A stream freed on an HTTP/2 connection wakes everyone it could serve: requests listening for the
    connection's own address, and every listening request the pool would let coalesce onto
    the connection; besides the address itself only such https, proxy-free addresses on the
    same port whose host its certificate covers are woken. *)
Theorem freed_stream_wakes (listening : list Address) (c : RealConnection) (w : Address) :
  (w ∈ notify_http2 listening (conn_address c) (verified_server_names c) ↔
  w ∈ listening ∧
  (w = conn_address c ∨
   scheme (conn_address c) = Scheme_Https ∧ proxy (conn_address c) = None ∧ request_allows_h2_coalescing w = true ∧
   port (authority (conn_address c)) = port (authority w) ∧
   ∃ n, n ∈ verified_server_names c ∧ verified_server_name_matches n (host (authority w)) = true)) ∧
  (∀ rp, can_coalesce c w rp = true → w ∈ listening →
     w ∈ notify_http2 listening (conn_address c) (verified_server_names c)).
Proof.
  split; [apply notify_http2_iff|]. intros rp Hc Hl. apply notify_http2_iff.
  apply can_coalesce_iff in Hc as (_ & Hw%request_allows_iff & [? ?] & ? & _ & ? & _). tauto.
Qed.
