(* ===== verification/Availability.v ===== *)
(** * Waiting for a connection

    openwire/src/connection/limits.rs: how a request that finds no connection and no permit for one waits, and who
    wakes it.

    A waiter subscribes ([listen]), then probes, then waits.  The channels are tokio's [Notify], not part of the sources: the
    channel of an address is a parameter, the class [NotifyChannel], with what tokio documents as its laws
    ([NotifyLaws]) - [notify_one] wakes one that waits, or else is remembered, once; a waiter dropped with a
    [notify_one] it did not use passes it on.  The global channel is only broadcast on: [notify_waiters] wakes all that wait and
    all that subscribed before it, so a subscription to it is the number of broadcasts it has seen.  The per-address channels are
    kept in a map, created on demand and reclaimed by looking at reference counts.

    The state has every operation that is under way at the point it has reached, so that all interleavings are covered:
    subscribing, polling and dropping a waiter; acquiring a permit, which takes the slot of the address and then one of the total;
    dropping it; and notifying.  The semaphores are the number of their slots in use: that an address has one semaphore at
    a time is the theorem of Limits. *)

From S2P Require Import Prelude Net Error Proxy Planning.

(** ** Counting *)

(** How many values of a map satisfy [P]. *)
Definition tally {A} (P : A → bool) (m : gmap nat A) : Z := Z.of_nat (size (filter (λ kv, P kv.2 = true) m)).

Lemma tally_empty {A} (P : A → bool) : tally P ∅ = 0.
Proof. unfold tally. by rewrite map_filter_empty, map_size_empty. Qed.

Lemma tally_insert_new {A} (P : A → bool) m i x : m !! i = None → tally P (<[i := x]> m) = tally P m + Z.b2z (P x).
Proof.
  intros Hi. unfold tally. rewrite map_filter_insert. cbn. case_decide as E.
  - rewrite E, map_size_insert_None by (by apply map_lookup_filter_None; left). cbn. lia.
  - rewrite delete_id by done. destruct (P x); [done|]. cbn. lia.
Qed.

Lemma tally_delete {A} (P : A → bool) m i x : m !! i = Some x → tally P (delete i m) = tally P m - Z.b2z (P x).
Proof.
  intros Hi. rewrite <-(insert_delete_id m i x Hi) at 2. rewrite tally_insert_new by (by rewrite lookup_delete_eq). lia.
Qed.

Lemma tally_insert {A} (P : A → bool) m i x y :
  m !! i = Some x → tally P (<[i := y]> m) = tally P m - Z.b2z (P x) + Z.b2z (P y).
Proof.
  intros Hi. rewrite <-insert_delete_eq, tally_insert_new by (by rewrite lookup_delete_eq). by rewrite (tally_delete _ _ _ _ Hi).
Qed.

Lemma tally_nonneg {A} (P : A → bool) m : 0 ≤ tally P m.
Proof. unfold tally. lia. Qed.

Lemma tally_two {A} (P : A → bool) m i j x y :
  m !! i = Some x → m !! j = Some y → i ≠ j → P x = true → P y = true → 2 ≤ tally P m.
Proof.
  intros Hi Hj Hne Hx Hy. pose proof (tally_delete P _ _ _ Hi) as E. rewrite Hx in E.
  assert (Hj' : delete i m !! j = Some y) by by rewrite lookup_delete_ne. pose proof (tally_delete P _ _ _ Hj') as E'. rewrite Hy in E'.
  pose proof (tally_nonneg P (delete j (delete i m))). cbn in *. lia.
Qed.

Lemma tally_one {A} (P : A → bool) m i x : m !! i = Some x → P x = true → 1 ≤ tally P m.
Proof. intros Hi Hx. pose proof (tally_delete P _ _ _ Hi) as E. rewrite Hx in E. pose proof (tally_nonneg P (delete i m)). cbn in *. lia. Qed.

Lemma alter_present {A} (f : A → A) (m : gmap nat A) i x : m !! i = Some x → alter f i m = <[i := f x]> m.
Proof. intros Hi. apply map_eq. intros j. rewrite lookup_alter, lookup_insert. case_decide as E; [|done]. by subst; rewrite Hi. Qed.

(** ** The state *)

(** A subscription to a [Notify]: not polled yet, waiting, given a [notify_one] and not polled since, used up. *)
Inductive Subscription : Type := Sub_Init | Sub_Queued | Sub_Notified | Sub_Used.
#[global] Instance Subscription_eq_dec : EqDecision Subscription.
Proof. solve_decision. Defined.

(** tokio's [Notify], with the subscriptions ([Notified]) made from it, which are numbered. *)
Class NotifyChannel (N : Type) : Type := {
  notify_new : N;
  notify_one : N → N;
  notified : nat → N → N;
  notified_poll : nat → N → bool * N;
  notified_drop : nat → N → N;
  subscription : N → nat → option Subscription;
  permit : N → bool;
}.

(** [notify_one], by what can be seen of the channel: one that waits is notified; when none does, the notification is kept. *)
Definition rang (f : nat → option Subscription) (p : bool) (f' : nat → option Subscription) (p' : bool) : Prop :=
  (∃ v, f v = Some Sub_Queued ∧ f' v = Some Sub_Notified ∧ (∀ w, w ≠ v → f' w = f w) ∧ p' = p) ∨
  ((∀ v, f v ≠ Some Sub_Queued) ∧ (∀ w, f' w = f w) ∧ p' = true).
Definition without (w : nat) (f : nat → option Subscription) : nat → option Subscription := λ v, if decide (v = w) then None else f v.

(** What tokio documents of it. *)
Class NotifyLaws (N : Type) `{NotifyChannel N} : Prop := {
  notify_new_law w : subscription notify_new w = None;
  notify_one_law n : rang (subscription n) (permit n) (subscription (notify_one n)) (permit (notify_one n));
  notified_law n w : subscription (notified w n) w = Some Sub_Init ∧ ∀ v, v ≠ w → subscription (notified w n) v = subscription n v;
  poll_init_law n w : subscription n w = Some Sub_Init →
    (notified_poll w n).1 = permit n ∧
    subscription (notified_poll w n).2 w = Some (if permit n then Sub_Used else Sub_Queued);
  poll_queued_law n w : subscription n w = Some Sub_Queued →
    (notified_poll w n).1 = false ∧ subscription (notified_poll w n).2 w = Some Sub_Queued;
  poll_notified_law n w : subscription n w = Some Sub_Notified →
    (notified_poll w n).1 = true ∧ subscription (notified_poll w n).2 w = Some Sub_Used;
  poll_others_law n w v : v ≠ w → subscription (notified_poll w n).2 v = subscription n v;
  drop_notified_law n w : subscription n w = Some Sub_Notified →
    rang (without w (subscription n)) (permit n) (subscription (notified_drop w n)) (permit (notified_drop w n));
  drop_law n w : subscription n w ≠ Some Sub_Notified →
    ∀ v, subscription (notified_drop w n) v = without w (subscription n) v;
}.

(** Where a wait is: in [listen] between the map and the subscriptions, waiting, and dropped - in [NotifyReclaim::drop],
    before and after the reference count was found to be two, and at its end, the reference still to be dropped. *)
Inductive Stage : Type := Looked | Live | Dropped | Reclaiming | Leaving.
#[global] Instance Stage_eq_dec : EqDecision Stage.
Proof. solve_decision. Defined.

(** Which semaphore refused a permit. *)
Inductive Refusal : Type := By_Address | By_Total.

(** [ConnectionWait] and [NotifyReclaim], openwire/connection/limits.rs:276-306, with what the request that waits has
    found out: whether a permit was refused.  Its subscription to the channel of the address is the one of its number;
    [wa_seen] is that to the global channel. *)
Record Wait : Type := mkWait {
  wa_address : Address;
  wa_notify : nat;
  wa_seen : Z;
  wa_stage : Stage;
  wa_done : bool;
  wa_refused : option Refusal;
}.

(** An operation of the limiter or a notification: [try_acquire] with the slot of its address, before the total
    ([Probing], for the wait of the request) and refused by it ([Refused]); a [ConnectionPermit]; one being dropped, the slot of
    the address given back ([Dropping]); and then, or for a connection given back alone, [notify] before it has looked the address up
    ([Notifying]), with its reference ([Ringing], [Rung]), and [notify_global] ([Broadcasting]). *)
Inductive Op : Type :=
| Probing (a : Address) (who : option nat)
| Refused (a : Address)
| Permit (a : Address)
| Dropping (a : Address)
| Notifying (a : Address) (then_global : bool)
| Ringing (a : Address) (n : nat) (then_global : bool)
| Rung (a : Address) (n : nat) (then_global : bool)
| Broadcasting (a : Address).

Section Channels.
Context {N : Type} {channel : NotifyChannel N}.

(** [ConnectionLimiterInner] and [ConnectionAvailability], openwire/connection/limits.rs:31-62, with the allocated channels,
    the waits and the operations under way; [w_generation] counts the calls of [notify_waiters] on the global channel. *)
Record World : Type := mkWorld {
  w_by_address : gmap Address nat;
  w_notifies : gmap nat N;
  w_waits : gmap nat Wait;
  w_ops : gmap nat Op;
  w_generation : Z;
  w_total : Z;
  w_slots : gmap Address Z;
}.

Definition slots (s : World) (a : Address) : Z := default 0 (w_slots s !! a).

Definition set_map (f : gmap Address nat → gmap Address nat) (s : World) : World :=
  mkWorld (f (w_by_address s)) (w_notifies s) (w_waits s) (w_ops s) (w_generation s) (w_total s) (w_slots s).
Definition set_notifies (f : gmap nat N → gmap nat N) (s : World) : World :=
  mkWorld (w_by_address s) (f (w_notifies s)) (w_waits s) (w_ops s) (w_generation s) (w_total s) (w_slots s).
Definition set_waits (f : gmap nat Wait → gmap nat Wait) (s : World) : World :=
  mkWorld (w_by_address s) (w_notifies s) (f (w_waits s)) (w_ops s) (w_generation s) (w_total s) (w_slots s).
Definition set_ops (f : gmap nat Op → gmap nat Op) (s : World) : World :=
  mkWorld (w_by_address s) (w_notifies s) (w_waits s) (f (w_ops s)) (w_generation s) (w_total s) (w_slots s).
Definition set_total (d : Z) (s : World) : World :=
  mkWorld (w_by_address s) (w_notifies s) (w_waits s) (w_ops s) (w_generation s) (w_total s + d) (w_slots s).
Definition set_slots (a : Address) (d : Z) (s : World) : World :=
  mkWorld (w_by_address s) (w_notifies s) (w_waits s) (w_ops s) (w_generation s) (w_total s) (<[a := slots s a + d]> (w_slots s)).

Definition world_start : World := mkWorld ∅ ∅ ∅ ∅ 0 0 ∅.

Definition with_stage (st : Stage) (w : Wait) : Wait :=
  mkWait (wa_address w) (wa_notify w) (wa_seen w) st (wa_done w) (wa_refused w).
Definition with_done (w : Wait) : Wait :=
  mkWait (wa_address w) (wa_notify w) (wa_seen w) (wa_stage w) true (wa_refused w).
Definition with_refused (r : Refusal) (w : Wait) : Wait :=
  mkWait (wa_address w) (wa_notify w) (wa_seen w) (wa_stage w) (wa_done w) (Some r).

(** The references to a channel: the map's, a wait's own and that of its subscription, and those of notifications. *)
Definition holds (n : nat) (w : Wait) : bool := (wa_notify w =? n)%nat.
Definition subscribes (n : nat) (w : Wait) : bool := holds n w && bool_decide (wa_stage w = Live).
Definition clones (n : nat) (o : Op) : bool := match o with Ringing _ m _ | Rung _ m _ => (m =? n)%nat | _ => false end.
Definition strong_count (s : World) (n : nat) : Z :=
  Z.of_nat (size (filter (λ kv, kv.2 = n) (w_by_address s))) + tally (holds n) (w_waits s) + tally (subscribes n) (w_waits s)
  + tally (clones n) (w_ops s).

(** [notify_one] on channel [n]. *)
Definition ring (n : nat) (s : World) : World := set_notifies (alter notify_one n) s.

(** ** Waiting *)

(** [ConnectionAvailability::notify_for], openwire/connection/limits.rs:193-201, for a new wait; [n] is the channel allocated
    if there is none. *)
Definition notify_for (w : nat) (a : Address) (n : nat) (s : World) : World :=
  let looked m := mkWait a m (w_generation s) Looked false None in
  match w_by_address s !! a with
  | Some existing => set_waits (<[w := looked existing]>) s
  | None => set_waits (<[w := looked n]>) (set_notifies (<[n := notify_new]>) (set_map (<[a := n]>) s))
  end.

(** The rest of [ConnectionAvailability::listen], openwire/connection/limits.rs:254-265: the subscriptions. *)
Definition subscribe (w : nat) (wa : Wait) (s : World) : World :=
  set_waits (<[w := mkWait (wa_address wa) (wa_notify wa) (w_generation s) Live false None]>)
    (set_notifies (alter (notified w) (wa_notify wa)) s).

(** [ConnectionWait::poll], openwire/connection/limits.rs:288-298. *)
Definition poll_wait (w : nat) (wa : Wait) (s : World) : bool * World :=
  let '(ready, s) := match w_notifies s !! wa_notify wa with
                     | Some nt => let '(ready, nt) := notified_poll w nt in (ready, set_notifies (<[wa_notify wa := nt]>) s)
                     | None => (false, s)
                     end in
  let ready := ready || negb (wa_seen wa =? w_generation s) in
  (ready, if ready then set_waits (alter with_done w) s else s).

(** The subscriptions of a [ConnectionWait] being dropped, before its [NotifyReclaim]; openwire/connection/limits.rs:276-286. *)
Definition drop_wait (w : nat) (wa : Wait) (s : World) : World :=
  set_waits (<[w := with_stage Dropped wa]>) (set_notifies (alter (notified_drop w) (wa_notify wa)) s).

(** The first look of [NotifyReclaim::drop], openwire/connection/limits.rs:309-312. *)
Definition reclaim_check (w : nat) (wa : Wait) (s : World) : World :=
  if strong_count s (wa_notify wa) =? 2 then set_waits (<[w := with_stage Reclaiming wa]>) s else set_waits (<[w := with_stage Leaving wa]>) s.

(** [NotifyReclaim::drop] under the lock, openwire/connection/limits.rs:314-321. *)
Definition reclaim (w : nat) (wa : Wait) (s : World) : World :=
  let remove_entry := bool_decide (w_by_address s !! wa_address wa = Some (wa_notify wa)) && (strong_count s (wa_notify wa) =? 2) in
  set_waits (<[w := with_stage Leaving wa]>) (if remove_entry then set_map (delete (wa_address wa)) s else s).

(** *** What waiting leaves alone *)

Definition alike (wa wa' : Wait) : Prop :=
  wa_address wa' = wa_address wa ∧ wa_notify wa' = wa_notify wa ∧ wa_seen wa' = wa_seen wa ∧ wa_refused wa' = wa_refused wa ∧
  (wa_stage wa = Leaving → wa_stage wa' = Leaving).

(** A step of the waits: nothing else changes, and what is left of a wait is for the same address, on the same channel, with
    the same subscription to the global one and the same refusal. *)
Record frame (s s' : World) : Prop := mkFrame {
  fr_map : w_by_address s' = w_by_address s;
  fr_ops : w_ops s' = w_ops s;
  fr_generation : w_generation s' = w_generation s;
  fr_total : w_total s' = w_total s;
  fr_slots : w_slots s' = w_slots s;
  fr_notifies : ∀ n, is_Some (w_notifies s !! n) → is_Some (w_notifies s' !! n);
  fr_waits : ∀ w wa', w_waits s' !! w = Some wa' → ∃ wa, w_waits s !! w = Some wa ∧
    alike wa wa';
}.

#[global] Instance frame_preorder : PreOrder frame.
Proof.
  split.
  - intros s. constructor; try done. intros w wa Hw. by exists wa.
  - intros a b c [A1 A2 A3 A4 A5 A6 A7] [B1 B2 B3 B4 B5 B6 B7]. constructor; try congruence; [by intros n ?%A6%B6|].
    intros w wa (wb & Hb & ? & ? & ? & ? & ?)%B7. destruct (A7 _ _ Hb) as (wc & Hc & ? & ? & ? & ? & ?). exists wc. unfold alike. split_and!; try congruence. auto.
Qed.

Lemma frame_insert w wa wa' s : w_waits s !! w = Some wa → alike wa wa' → frame s (set_waits (<[w := wa']>) s).
Proof.
  intros Hw Ha. constructor; try done. intros v wb. cbn. rewrite lookup_insert_Some. intros [[<- <-]|[_ Hb]]; [by exists wa|by exists wb].
Qed.

Lemma frame_alter f w s : (∀ wa, alike wa (f wa)) → frame s (set_waits (alter f w) s).
Proof.
  intros Hf. constructor; try done. intros v wb. cbn. rewrite lookup_alter_Some. intros [[<- (wa & Hwa & ->)]|[_ Hb]]; [|by exists wb].
  exists wa. split; [done|apply Hf].
Qed.

Lemma frame_delete w s : frame s (set_waits (delete w) s).
Proof. constructor; try done. intros v wb. cbn. rewrite lookup_delete_Some. intros [_ Hb]. by exists wb. Qed.

Lemma frame_notify n nt s : frame s (set_notifies (<[n := nt]>) s).
Proof. constructor; try done; [|by intros v wb Hb; exists wb]. intros m. cbn. by rewrite lookup_insert_is_Some; destruct (decide (n = m)); [left|right]. Qed.

Lemma frame_notify_alter n f s : frame s (set_notifies (alter f n) s).
Proof. constructor; try done; [|by intros v wb Hb; exists wb]. intros m. cbn. by rewrite lookup_alter_is_Some. Qed.

Lemma frame_ring n s : frame s (ring n s).
Proof. apply frame_notify_alter. Qed.

Lemma frame_poll w wa s : w_waits s !! w = Some wa → frame s (poll_wait w wa s).2.
Proof.
  intros Hw. unfold poll_wait. destruct (w_notifies s !! wa_notify wa) as [nt|].
  - destruct (notified_poll w nt) as [ready nt']. cbn. destruct (_ || _); [etrans; [apply frame_notify|by apply frame_alter]|apply frame_notify].
  - destruct (_ || _); [by apply frame_alter|done].
Qed.

Lemma frame_drop w wa s : w_waits s !! w = Some wa → wa_stage wa = Live → frame s (drop_wait w wa s).
Proof.
  intros Hw Hst. etrans; [apply frame_notify_alter|]. eapply frame_insert; [exact Hw|]. split_and!; try done. congruence.
Qed.

Lemma frame_check w wa s : w_waits s !! w = Some wa → wa_stage wa = Dropped → frame s (reclaim_check w wa s).
Proof. intros Hw Hst. unfold reclaim_check. destruct (_ =? _); (eapply frame_insert; [done|]); split_and!; try done; congruence. Qed.

(** ** Permits and notifications *)

Section Limiter.
(** The two caps, if there are any. *)
Context (max_total max_per_address : option Z).

Definition full (cap : option Z) (used : Z) : bool := match cap with Some c => c <=? used | None => false end.

Definition refuse (who : option nat) (r : Refusal) (s : World) : World :=
  match who with Some w => set_waits (alter (with_refused r) w) s | None => s end.

(** [ConnectionLimiter::try_acquire], openwire/connection/limits.rs:145-151: the slot of the address. *)
Definition try_address (o : nat) (a : Address) (who : option nat) (s : World) : World :=
  if full max_per_address (slots s a) then refuse who By_Address s
  else set_ops (<[o := Probing a who]>) (set_slots a 1 s).

(** [ConnectionLimiter::try_acquire], openwire/connection/limits.rs:153-165: the slot of the total; without one, that of the
    address is dropped with the function's variables. *)
Definition try_total (o : nat) (a : Address) (who : option nat) (s : World) : World :=
  if full max_total (w_total s) then set_ops (<[o := Refused a]>) (refuse who By_Total s)
  else set_ops (<[o := Permit a]>) (set_total 1 s).

(** [ConnectionAvailability::notify], openwire/connection/limits.rs:203-211, up to the reference it gets. *)
Definition existing_notify (o : nat) (a : Address) (g : bool) (s : World) : World :=
  match w_by_address s !! a with
  | Some n => set_ops (<[o := Ringing a n g]>) s
  | None => set_ops (if g then <[o := Broadcasting a]> else delete o) s
  end.

(** What happens next. *)
Inductive Move : Type :=
| Mv_Listen (w : nat) (a : Address) (n : nat)
| Mv_Subscribe (w : nat)
| Mv_Poll (w : nat)
| Mv_DropWait (w : nat)
| Mv_Check (w : nat)
| Mv_Reclaim (w : nat)
| Mv_Leave (w : nat)
| Mv_TryAcquire (o : nat) (a : Address) (who : option nat)
| Mv_Notify (o : nat) (a : Address)
| Mv_Op (o : nat).

(** The next step of an operation.  [Permit]: [ConnectionPermitInner::drop], openwire/connection/limits.rs:408-415, and the
    steps after it; [Broadcasting]: [notify_global], openwire/connection/limits.rs:239-244. *)
Definition op_step (o : nat) (op : Op) (s : World) : World :=
  match op with
  | Probing a who => try_total o a who s
  | Refused a => set_ops (delete o) (set_slots a (-1) s)
  | Permit a => set_ops (<[o := Dropping a]>) (set_slots a (-1) s)
  | Dropping a => set_ops (<[o := Notifying a true]>) (set_total (-1) s)
  | Notifying a g => existing_notify o a g s
  | Ringing a n g => set_ops (<[o := Rung a n g]>) (ring n s)
  | Rung a n g => set_ops (if g then <[o := Broadcasting a]> else delete o) s
  | Broadcasting a =>
    set_ops (delete o) (mkWorld (w_by_address s) (w_notifies s) (w_waits s) (w_ops s) (w_generation s + 1) (w_total s) (w_slots s))
  end.

(** The request of a wait acquires for the address it waits on, and only while it has not been told to go round again. *)
Definition may_probe (s : World) (a : Address) (who : option nat) : bool :=
  match who with
  | None => true
  | Some w => match w_waits s !! w with
              | Some wa => bool_decide (wa_address wa = a) && bool_decide (wa_stage wa = Live) && negb (wa_done wa)
              | None => false
              end
  end.

Definition wait_move (w : nat) (st : Stage) (go : Wait → World → bool) (k : Wait → World → World) (s : World) : option World :=
  match w_waits s !! w with
  | Some wa => if bool_decide (wa_stage wa = st) && go wa s then Some (k wa s) else None
  | None => None
  end.

Definition move (s : World) (v : Move) : option World :=
  match v with
  | Mv_Listen w a n =>
    if decide (w_waits s !! w = None ∧ w_notifies s !! n = None) then Some (notify_for w a n s) else None
  | Mv_Subscribe w => wait_move w Looked (λ _ _, true) (subscribe w) s
  | Mv_Poll w => wait_move w Live (λ wa _, negb (wa_done wa)) (λ wa s, (poll_wait w wa s).2) s
  | Mv_DropWait w => wait_move w Live (λ _ _, true) (drop_wait w) s
  | Mv_Check w => wait_move w Dropped (λ _ _, true) (reclaim_check w) s
  | Mv_Reclaim w => wait_move w Reclaiming (λ _ _, true) (reclaim w) s
  | Mv_Leave w => wait_move w Leaving (λ _ _, true) (λ _, set_waits (delete w)) s
  | Mv_TryAcquire o a who =>
    if decide (w_ops s !! o = None) then if may_probe s a who then Some (try_address o a who s) else None else None
  | Mv_Notify o a => if decide (w_ops s !! o = None) then Some (set_ops (<[o := Notifying a false]>) s) else None
  | Mv_Op o => match w_ops s !! o with Some op => Some (op_step o op s) | None => None end
  end.

Inductive reachable : World → Prop :=
| Reach_start : reachable world_start
| Reach_move s v s' : reachable s → move s v = Some s' → reachable s'.

Definition run (vs : list Move) : World := foldl (λ s v, default s (move s v)) world_start vs.
Lemma moves_reachable vs : reachable (run vs).
Proof.
  unfold run. induction vs as [|v vs IH] using rev_ind; [constructor|]. rewrite foldl_snoc.
  destruct (move _ v) as [s'|] eqn:E; [by eapply Reach_move|done].
Qed.

Lemma wait_move_Some w st go k s s' :
  wait_move w st go k s = Some s' → ∃ wa, w_waits s !! w = Some wa ∧ wa_stage wa = st ∧ go wa s = true ∧ s' = k wa s.
Proof.
  unfold wait_move. destruct (w_waits s !! w) as [wa|]; [|done]. destruct (bool_decide _ && go wa s) eqn:E; [|done].
  apply andb_true_iff in E as [E%bool_decide_eq_true ?]. intros [= <-]. by exists wa.
Qed.

(** *** The channel of an address *)

Definition op_ref (o : Op) : option (Address * nat) := match o with Ringing a n _ | Rung a n _ => Some (a, n) | _ => None end.

(** Every wait, and every notification with a channel in hand, has the channel the map has for its address. *)
Record entries_ok (s : World) : Prop := mkEntriesOk {
  en_waits : ∀ w wa, w_waits s !! w = Some wa → wa_stage wa ≠ Leaving → w_by_address s !! wa_address wa = Some (wa_notify wa);
  en_ops : ∀ o op a n, w_ops s !! o = Some op → op_ref op = Some (a, n) → w_by_address s !! a = Some n;
  en_alloc : ∀ a n, w_by_address s !! a = Some n → is_Some (w_notifies s !! n);
  en_inj : ∀ a b n, w_by_address s !! a = Some n → w_by_address s !! b = Some n → a = b;
}.

Lemma entries_frame s s' : frame s s' → entries_ok s → entries_ok s'.
Proof.
  intros [Hm Ho _ _ _ Hn Hw] [A B C D]. constructor; rewrite ?Hm, ?Ho; try done.
  - intros w wa (wb & Hb & -> & -> & _ & _ & Hst)%Hw Hne. apply (A w); [done|]. by intros ?%Hst.
  - intros a n ?%C. by apply Hn.
Qed.

Lemma entries_ops s f :
  entries_ok s → (∀ o op a n, f (w_ops s) !! o = Some op → op_ref op = Some (a, n) → w_by_address s !! a = Some n) → entries_ok (set_ops f s).
Proof. intros [A B C D] Hf. by constructor. Qed.

Lemma entries_counters s d a e : entries_ok s → entries_ok (set_total d s) ∧ entries_ok (set_slots a e s).
Proof. intros [A B C D]. by split; constructor. Qed.

(** Taking an operation away, or putting one that holds what the map has. *)
Lemma entries_op_delete s o : entries_ok s → entries_ok (set_ops (delete o) s).
Proof. intros He. apply entries_ops; [done|]. intros o' op a n. rewrite lookup_delete_Some. intros [_ ?]. by eapply en_ops. Qed.
Lemma entries_op_insert s o op :
  entries_ok s → (∀ a n, op_ref op = Some (a, n) → w_by_address s !! a = Some n) → entries_ok (set_ops (<[o := op]>) s).
Proof.
  intros He Hop. apply entries_ops; [done|]. intros o' op' a n. rewrite lookup_insert_Some. intros [[<- <-]|[_ ?]]; [apply Hop|by eapply en_ops].
Qed.

Lemma entries_notify_for w a n s : w_waits s !! w = None → w_notifies s !! n = None → entries_ok s → entries_ok (notify_for w a n s).
Proof.
  intros Hw Hn [A B C D]. unfold notify_for. destruct (w_by_address s !! a) as [m|] eqn:E.
  - constructor; try done. intros v wa. cbn. rewrite lookup_insert_Some. intros [[<- <-]|[_ ?]]; [done|by eapply A].
  - assert (Hfresh : ∀ b, w_by_address s !! b ≠ Some n) by (intros b Hb%C; rewrite Hn in Hb; by apply is_Some_None in Hb).
    constructor; cbn.
    + intros v wa. rewrite lookup_insert_Some. intros [[<- <-]|[_ Hv]] Hne; cbn; [by rewrite lookup_insert_eq|].
      pose proof (A _ _ Hv Hne) as Hb. rewrite lookup_insert_ne; [done|]. intros ->. by rewrite E in Hb.
    + intros o op b m Ho Hr. pose proof (B _ _ _ _ Ho Hr) as Hb. rewrite lookup_insert_ne; [done|]. intros ->. by rewrite E in Hb.
    + intros b m. rewrite lookup_insert_Some. intros [[<- <-]|[_ ?%C]]; [by rewrite lookup_insert_eq|].
      apply lookup_insert_is_Some. by destruct (decide (n = m)); [left|right].
    + intros b c m. rewrite !lookup_insert_Some. intros [[<- <-]|[_ Hb]] [[<- ?]|[_ Hc]]; try done; [by destruct (Hfresh c)|subst; by destruct (Hfresh b)|by eapply D].
Qed.

(** The entry that is removed is in no one's hand. *)
Lemma entries_reclaim w wa s : w_waits s !! w = Some wa → wa_stage wa = Reclaiming → entries_ok s → entries_ok (reclaim w wa s).
Proof.
  intros Hw Hst He. unfold reclaim. destruct (bool_decide _ && _) eqn:E.
  2: { eapply entries_frame; [|done]. eapply frame_insert; [done|]. split_and!; try done; congruence. }
  apply andb_true_iff in E as [Hm%bool_decide_eq_true Hc%Z.eqb_eq]. destruct He as [A B C D].
  assert (Hone : 1 ≤ Z.of_nat (size (filter (λ kv, kv.2 = wa_notify wa) (w_by_address s)))).
  { assert (filter (λ kv, kv.2 = wa_notify wa) (w_by_address s) !! wa_address wa = Some (wa_notify wa)) as Hf by by apply map_lookup_filter_Some.
    destruct (size _) eqn:Es; [|lia]. apply map_size_empty_inv in Es. by rewrite Es, lookup_empty in Hf. }
  unfold strong_count in Hc. pose proof (tally_nonneg (subscribes (wa_notify wa)) (w_waits s)). pose proof (tally_nonneg (clones (wa_notify wa)) (w_ops s)).
  pose proof (tally_nonneg (holds (wa_notify wa)) (w_waits s)).
  assert (Hself : holds (wa_notify wa) wa = true) by apply Nat.eqb_refl.
  assert (Hother : ∀ v wb, w_waits s !! v = Some wb → wa_stage wb ≠ Leaving → v ≠ w → wa_address wb ≠ wa_address wa).
  { intros v wb Hv Hsb Hne Ha. pose proof (A _ _ Hv Hsb) as Hb. rewrite Ha, Hm in Hb. injection Hb as Hb.
    assert (Hwb : holds (wa_notify wa) wb = true) by (unfold holds; rewrite Hb; apply Nat.eqb_refl).
    pose proof (tally_two _ _ _ _ _ _ Hv Hw Hne Hwb Hself). lia. }
  assert (Hclone : ∀ o op n, w_ops s !! o = Some op → op_ref op = Some (wa_address wa, n) → False).
  { intros o op n Ho Hr. pose proof (B _ _ _ _ Ho Hr) as Hb. rewrite Hm in Hb. injection Hb as <-.
    pose proof (tally_one (clones (wa_notify wa)) _ _ _ Ho) as Ht. pose proof (tally_one (holds (wa_notify wa)) _ _ _ Hw Hself).
    assert (clones (wa_notify wa) op = true) as Hcl by (destruct op; simplify_eq/=; apply Nat.eqb_refl). specialize (Ht Hcl). lia. }
  constructor; cbn.
  - intros v wb. rewrite lookup_insert_Some. intros [[<- <-]|[Hne Hv]] Hsb; [done|]. rewrite lookup_delete_ne; [by apply (A v)|]. intros Ha. by eapply (Hother v wb).
  - intros o op a n Ho Hr. rewrite lookup_delete_ne; [by eapply B|]. intros <-. by eapply Hclone.
  - intros a n. rewrite lookup_delete_Some. intros [_ ?]. by eapply C.
  - intros a b n. rewrite !lookup_delete_Some. intros [_ ?] [_ ?]. by eapply D.
Qed.

Lemma entries_refuse who r s : entries_ok s → entries_ok (refuse who r s).
Proof.
  unfold refuse. destruct who as [w|]; [|done]. intros [A B C D]. constructor; try done. intros v wb. cbn. rewrite lookup_alter_Some.
  intros [[<- (wa & Hwa & ->)]|[_ Hb]]; [exact (A _ _ Hwa)|exact (A _ _ Hb)].
Qed.

Lemma entries_op_step o op s : w_ops s !! o = Some op → entries_ok s → entries_ok (op_step o op s).
Proof.
  intros Ho He. destruct op as [a who|a|a|a|a g|a n g|a n g|a]; cbn [op_step].
  - unfold try_total. destruct (full _ _); (apply entries_op_insert; [|done]); [by apply entries_refuse|by apply (entries_counters _ _ a 0)].
  - apply entries_op_delete. by apply (entries_counters _ 0).
  - apply entries_op_insert; [|done]. by apply (entries_counters _ 0).
  - apply entries_op_insert; [|done]. by apply (entries_counters _ _ a 0).
  - unfold existing_notify. destruct (w_by_address s !! a) as [n|] eqn:E; [|destruct g; [by apply entries_op_insert|by apply entries_op_delete]].
    apply entries_op_insert; [done|]. by intros b m [= <- <-].
  - apply entries_op_insert; [eapply entries_frame; [apply frame_ring|done]|]. intros b m [= <- <-]. rewrite (fr_map _ _ (frame_ring n s)). by eapply en_ops.
  - destruct g; [by apply entries_op_insert|by apply entries_op_delete].
  - apply entries_op_delete. destruct He as [A B C D]. by constructor.
Qed.

Lemma move_entries s v s' : move s v = Some s' → entries_ok s → entries_ok s'.
Proof.
  intros Hv He. destruct v as [w a n|w|w|w|w|w|w|o a who|o a|o]; cbn in Hv.
  - case_decide as Hf; [|done]. injection Hv as <-. destruct Hf as [? ?]. by apply entries_notify_for.
  - apply wait_move_Some in Hv as (wa & Hw & Hst & _ & ->). destruct He as [A B C D]. constructor; try done; cbn.
    + intros v wb. rewrite lookup_insert_Some. intros [[<- <-]|[_ Hb]]; [intros _; apply (A _ _ Hw); congruence|exact (A _ _ Hb)].
    + intros a n Hn%C. by rewrite lookup_alter_is_Some.
  - apply wait_move_Some in Hv as (wa & Hw & _ & _ & ->). eapply entries_frame; [by apply frame_poll|done].
  - apply wait_move_Some in Hv as (wa & Hw & Hst & _ & ->). eapply entries_frame; [by apply frame_drop|done].
  - apply wait_move_Some in Hv as (wa & Hw & Hst & _ & ->). eapply entries_frame; [by apply frame_check|done].
  - apply wait_move_Some in Hv as (wa & Hw & Hst & _ & ->). by apply entries_reclaim.
  - apply wait_move_Some in Hv as (wa & Hw & _ & _ & ->). eapply entries_frame; [apply frame_delete|done].
  - case_decide; [|done]. destruct (may_probe s a who); [|done]. injection Hv as <-. unfold try_address.
    destruct (full _ _); [by apply entries_refuse|]. apply entries_op_insert; [|done]. by apply (entries_counters _ 0).
  - case_decide; [|done]. injection Hv as <-. by apply entries_op_insert.
  - destruct (w_ops s !! o) as [op|] eqn:Ho; [|done]. injection Hv as <-. by apply entries_op_step.
Qed.

Lemma reachable_entries s : reachable s → entries_ok s.
Proof. induction 1 as [|s v s' _ IH Hv]; [|by eapply move_entries]. constructor; set_solver. Qed.

(** *** Who is woken *)

(** What channel [n] has for wait [w]. *)
Definition seen (s : World) (n w : nat) : option Subscription := nt ← w_notifies s !! n; subscription nt w.

(** A channel has a subscription for a wait exactly when the wait is on it; one that is used up has ended its wait. *)
Definition sub_fits (n : nat) (x : option Subscription) (ow : option Wait) : Prop :=
  match x with
  | Some x => ∃ wa, ow = Some wa ∧ wa_notify wa = n ∧ wa_stage wa = Live ∧ (wa_done wa = false → x ≠ Sub_Used)
  | None => ∀ wa, ow = Some wa → wa_stage wa = Live → wa_notify wa ≠ n
  end.
Definition subs_ok (s : World) : Prop := ∀ n w, sub_fits n (seen s n w) (w_waits s !! w).

Lemma sub_fits_wait n x wa wa' :
  wa_notify wa' = wa_notify wa → wa_stage wa' = wa_stage wa → (wa_done wa' = false → wa_done wa = false) →
  sub_fits n x (Some wa) → sub_fits n x (Some wa').
Proof.
  intros En Es Ed. destruct x as [x|]; cbn.
  - intros (? & [= <-] & ? & ? & Hu). exists wa'. split_and!; [done|congruence|congruence|auto].
  - intros Hn ? [= <-]. rewrite En, Es. by apply Hn.
Qed.

Lemma sub_fits_queued n x ow : sub_fits n (Some x) ow → sub_fits n (Some Sub_Notified) ow.
Proof. intros (wa & ? & ? & ? & _). by exists wa. Qed.

Lemma sub_fits_none n ow : (∀ wa, ow = Some wa → wa_stage wa ≠ Live) → sub_fits n None ow.
Proof. intros Hn wa Hw Hst. by destruct (Hn wa Hw). Qed.

(** A wait that is not subscribed is on no channel. *)
Lemma seen_none s n w : subs_ok s → (∀ wa, w_waits s !! w = Some wa → wa_stage wa ≠ Live) → seen s n w = None.
Proof. intros Hs Hn. pose proof (Hs n w) as Hf. destruct (seen s n w); [|done]. destruct Hf as (wa & Hw & _ & Hst & _). by destruct (Hn wa Hw). Qed.

Lemma seen_alter s f n m w : seen (set_notifies (alter f n) s) m w = if decide (n = m) then (nt ← w_notifies s !! n; subscription (f nt) w) else seen s m w.
Proof.
  unfold seen. cbn. destruct (decide (n = m)) as [->|]; [|by rewrite lookup_alter_ne]. rewrite lookup_alter_eq. by destruct (w_notifies s !! m).
Qed.

Lemma subs_same s s' : w_notifies s' = w_notifies s → w_waits s' = w_waits s → subs_ok s → subs_ok s'.
Proof. intros En Ew Hs n w. unfold seen. rewrite En, Ew. apply Hs. Qed.

(** A wait that is, and stays, off its channel. *)
Lemma subs_off s s' w :
  w_notifies s' = w_notifies s → (∀ v, v ≠ w → w_waits s' !! v = w_waits s !! v) →
  (∀ wa, w_waits s !! w = Some wa → wa_stage wa ≠ Live) → (∀ wa, w_waits s' !! w = Some wa → wa_stage wa ≠ Live) →
  subs_ok s → subs_ok s'.
Proof.
  intros En Ew H1 H2 Hs n v. assert (Hse : seen s' n v = seen s n v) by (unfold seen; by rewrite En). rewrite Hse.
  destruct (decide (v = w)) as [->|]; [|by rewrite Ew]. rewrite (seen_none s n w) by done. by apply sub_fits_none.
Qed.

Lemma subs_alter s f w :
  (∀ wa, wa_notify (f wa) = wa_notify wa ∧ wa_stage (f wa) = wa_stage wa ∧ (wa_done (f wa) = false → wa_done wa = false)) →
  subs_ok s → subs_ok (set_waits (alter f w) s).
Proof.
  intros Hf Hs n v. change (seen (set_waits (alter f w) s) n v) with (seen s n v). cbn. specialize (Hs n v).
  destruct (decide (w = v)) as [->|]; [rewrite lookup_alter_eq|by rewrite lookup_alter_ne].
  destruct (w_waits s !! v) as [wa|]; [|done]. cbn. destruct (Hf wa) as (? & ? & ?). by eapply sub_fits_wait.
Qed.

Section Laws.
Context `{!NotifyLaws N}.
#[local] Set Default Proof Using "Type*".

(** Ringing a channel keeps every subscription where it is. *)
Lemma rang_fits f p f' p' n w ow : rang f p f' p' → sub_fits n (f w) ow → sub_fits n (f' w) ow.
Proof.
  intros [(v & Hv & Hv' & Hoth & _)|(_ & Hsame & _)] Hf; [|by rewrite Hsame].
  destruct (decide (w = v)) as [->|]; [|by rewrite Hoth]. rewrite Hv in Hf. rewrite Hv'. by eapply sub_fits_queued.
Qed.

Lemma subs_ring n s : subs_ok s → subs_ok (ring n s).
Proof.
  intros Hs m w. unfold ring. rewrite seen_alter. cbn [set_notifies w_waits]. specialize (Hs m w). unfold seen in Hs.
  case_decide as E; [subst m|exact Hs]. destruct (w_notifies s !! n) as [nt|]; [|done]. cbn in *. eapply rang_fits; [apply notify_one_law|done].
Qed.

Lemma subs_subscribe w wa s :
  w_waits s !! w = Some wa → wa_stage wa = Looked → is_Some (w_notifies s !! wa_notify wa) → subs_ok s → subs_ok (subscribe w wa s).
Proof.
  intros Hw Hst [nt Hn] Hs m v. unfold subscribe.
  change (seen (set_waits ?f ?x) m v) with (seen x m v). rewrite seen_alter. cbn [set_waits w_waits set_notifies]. rewrite Hn. cbn.
  destruct (notified_law nt w) as [Hin Hoth]. pose proof (Hs m v) as Hmv. destruct (decide (v = w)) as [->|Hne].
  - rewrite lookup_insert_eq. case_decide as E; [subst m; rewrite Hin; eexists; by split_and!|].
    rewrite (seen_none s m w); [|done|intros ? ?; simplify_eq; congruence]. intros ? [= <-] _. done.
  - rewrite lookup_insert_ne by done. case_decide as E; [|done]. subst m. rewrite Hoth by done. unfold seen in Hmv. by rewrite Hn in Hmv.
Qed.

Lemma subs_poll w wa s :
  w_waits s !! w = Some wa → wa_stage wa = Live → wa_done wa = false → is_Some (w_notifies s !! wa_notify wa) →
  subs_ok s → subs_ok (poll_wait w wa s).2.
Proof.
  intros Hw Hst Hd [nt Hn] Hs. unfold poll_wait. rewrite Hn. destruct (notified_poll w nt) as [ready nt'] eqn:E. cbn.
  pose proof (Hs (wa_notify wa) w) as Hself. unfold seen in Hself. rewrite Hn, Hw in Hself. cbn in Hself.
  assert (Hx : ∃ x, subscription nt' w = Some x ∧ (ready = false → x ≠ Sub_Used)).
  { destruct (subscription nt w) as [x|] eqn:Ex; [|by destruct (Hself wa)]. destruct Hself as (? & [= <-] & _ & _ & Hu). specialize (Hu Hd).
    destruct x; [pose proof (poll_init_law nt w Ex) as [H1' H2']|pose proof (poll_queued_law nt w Ex) as [H1' H2']|
                 pose proof (poll_notified_law nt w Ex) as [H1' H2']|done]; rewrite E in *; cbn in *; eexists; (split; [done|]); subst ready; try done.
    by intros ->. }
  destruct Hx as (x & Hx & Hux). intros m v. pose proof (Hs m v) as Hmv.
  assert (Hsee : ∀ b : bool, seen (if b then set_waits (alter with_done w) (set_notifies (<[wa_notify wa := nt']>) s) else set_notifies (<[wa_notify wa := nt']>) s) m v =
    if decide (m = wa_notify wa) then subscription nt' v else seen s m v).
  { intros b. assert (Hin : seen (set_notifies (<[wa_notify wa := nt']>) s) m v = if decide (m = wa_notify wa) then subscription nt' v else seen s m v).
    { unfold seen. cbn. case_decide; [subst m; by rewrite lookup_insert_eq|by rewrite lookup_insert_ne]. }
    destruct b; exact Hin. }
  rewrite Hsee. set (b := ready || negb (wa_seen wa =? w_generation s)).
  destruct (decide (v = w)) as [->|Hne].
  - assert (Hwait : ∃ wa', w_waits (if b then set_waits (alter with_done w) (set_notifies (<[wa_notify wa := nt']>) s) else set_notifies (<[wa_notify wa := nt']>) s) !! w = Some wa' ∧
      wa_notify wa' = wa_notify wa ∧ wa_stage wa' = Live ∧ (wa_done wa' = false → ready = false)).
    { unfold b. destruct ready; cbn; [rewrite lookup_alter_eq, Hw; eexists; by split_and!|]. destruct (negb _); cbn; [rewrite lookup_alter_eq, Hw|]; eexists; by split_and!. }
    destruct Hwait as (wa' & -> & Ea & Eb & Ec). case_decide as Em; [subst m; rewrite Hx; exists wa'; split_and!; auto|].
    rewrite Hw in Hmv. destruct (seen s m w) as [y|].
    + destruct Hmv as (? & [= <-] & ? & _). congruence.
    + intros ? [= <-] _. congruence.
  - assert (w_waits (if b then set_waits (alter with_done w) (set_notifies (<[wa_notify wa := nt']>) s) else set_notifies (<[wa_notify wa := nt']>) s) !! v = w_waits s !! v) as ->
      by (destruct b; cbn; [by rewrite lookup_alter_ne|done]).
    case_decide; [subst m|done]. pose proof (poll_others_law nt w v Hne) as Ho. rewrite E in Ho. cbn in Ho. rewrite Ho. unfold seen in Hmv. by rewrite Hn in Hmv.
Qed.

(** Dropping a wait, by what its channel is afterwards. *)
Lemma drop_view nt w :
  (subscription nt w = Some Sub_Notified ∧ rang (without w (subscription nt)) (permit nt) (subscription (notified_drop w nt)) (permit (notified_drop w nt))) ∨
  (∀ v, subscription (notified_drop w nt) v = without w (subscription nt) v).
Proof. destruct (decide (subscription nt w = Some Sub_Notified)); [left; by split; [|apply drop_notified_law]|right; by apply drop_law]. Qed.

(** The waits of a state in which [w] is gone, and a channel without its subscription. *)
Lemma without_fits s w wa n nt v :
  subs_ok s → w_waits s !! w = Some wa → w_notifies s !! n = Some nt →
  sub_fits n (without w (subscription nt) v) (<[w := with_stage Dropped wa]> (w_waits s) !! v).
Proof.
  intros Hs Hw Hn. unfold without. case_decide; [subst v; rewrite lookup_insert_eq; apply sub_fits_none; by intros ? [= <-]|].
  rewrite lookup_insert_ne by done. pose proof (Hs n v) as Hf. unfold seen in Hf. by rewrite Hn in Hf.
Qed.

Lemma subs_drop w wa s :
  w_waits s !! w = Some wa → subs_ok s → subs_ok (drop_wait w wa s).
Proof.
  intros Hw Hs m v. unfold drop_wait. change (seen (set_waits ?f ?x) m v) with (seen x m v). rewrite seen_alter. cbn [set_waits set_notifies w_waits].
  case_decide as E.
  - subst m. destruct (w_notifies s !! wa_notify wa) as [nt|] eqn:Hn; cbn.
    + pose proof (without_fits s w wa _ nt v Hs Hw Hn) as Hf. destruct (drop_view nt w) as [[_ Hr]| ->]; [|done]. by eapply rang_fits.
    + pose proof (Hs (wa_notify wa) v) as Hf. unfold seen in Hf. rewrite Hn in Hf. cbn in Hf.
      destruct (decide (v = w)) as [->|]; [rewrite lookup_insert_eq; apply sub_fits_none; by intros ? [= <-]|by rewrite lookup_insert_ne].
  - destruct (decide (v = w)) as [->|]; [|rewrite lookup_insert_ne by done; apply Hs]. rewrite lookup_insert_eq. pose proof (Hs m w) as Hf. rewrite Hw in Hf.
    destruct (seen s m w) as [x|]; [destruct Hf as (? & [= <-] & ? & _); congruence|]. apply sub_fits_none. by intros ? [= <-].
Qed.

Lemma subs_notify_for w a n s :
  w_waits s !! w = None → w_notifies s !! n = None → subs_ok s → subs_ok (notify_for w a n s).
Proof.
  intros Hw Hn Hs. unfold notify_for.
  assert (Hnew : ∀ m, subs_ok (set_waits (<[w := mkWait a m (w_generation s) Looked false None]>) s)).
  { intros m. apply (subs_off s _ w); [done| | | |done]; cbn.
    - intros v Hv. by rewrite lookup_insert_ne.
    - by rewrite Hw.
    - intros wa. rewrite lookup_insert_eq. by intros [= <-]. }
  destruct (w_by_address s !! a) as [m|]; [apply Hnew|]. intros m v. specialize (Hnew n m v). unfold seen in *. cbn in *.
  destruct (decide (n = m)) as [->|]; [|by rewrite lookup_insert_ne]. rewrite lookup_insert_eq. rewrite Hn in Hnew. cbn in *. by rewrite notify_new_law.
Qed.

Lemma subs_refuse who r s : subs_ok s → subs_ok (refuse who r s).
Proof. unfold refuse. destruct who; [|done]. by apply subs_alter. Qed.

Lemma subs_op_step o op s : subs_ok s → subs_ok (op_step o op s).
Proof.
  intros Hs. destruct op; cbn [op_step]; try by apply (subs_same s).
  - unfold try_total. destruct (full _ _); [|by apply (subs_same s)]. apply (subs_same (refuse who By_Total s)); [done..|by apply subs_refuse].
  - unfold existing_notify. destruct (w_by_address s !! a); by apply (subs_same s).
  - apply (subs_same (ring n s)); [done..|by apply subs_ring].
Qed.

Lemma live_channel w wa s : w_waits s !! w = Some wa → wa_stage wa ≠ Leaving → entries_ok s → is_Some (w_notifies s !! wa_notify wa).
Proof. intros Hw Hst He. by eapply (en_alloc _ He), (en_waits _ He w). Qed.

Lemma move_subs s v s' : move s v = Some s' → entries_ok s → subs_ok s → subs_ok s'.
Proof.
  intros Hv He Hs. destruct v as [w a n|w|w|w|w|w|w|o a who|o a|o]; cbn in Hv.
  - case_decide as Hf; [|done]. injection Hv as <-. destruct Hf. by apply subs_notify_for.
  - apply wait_move_Some in Hv as (wa & Hw & Hst & _ & ->). apply subs_subscribe; [done|done| |done]. eapply live_channel; [done|congruence|done].
  - apply wait_move_Some in Hv as (wa & Hw & Hst & Hd%negb_true_iff & ->). apply subs_poll; [done|done|done| |done]. eapply live_channel; [done|congruence|done].
  - apply wait_move_Some in Hv as (wa & Hw & Hst & _ & ->). by apply subs_drop.
  - apply wait_move_Some in Hv as (wa & Hw & Hst & _ & ->). unfold reclaim_check.
    destruct (_ =? _); (apply (subs_off s _ w); [done|intros; cbn; by rewrite lookup_insert_ne|intros ? ?; simplify_eq; congruence|cbn; rewrite lookup_insert_eq; by intros ? [= <-]|done]).
  - apply wait_move_Some in Hv as (wa & Hw & Hst & _ & ->). unfold reclaim.
    destruct (_ && _); (apply (subs_off s _ w); [done|intros; cbn; by rewrite lookup_insert_ne|intros ? ?; simplify_eq; congruence|cbn; rewrite lookup_insert_eq; by intros ? [= <-]|done]).
  - apply wait_move_Some in Hv as (wa & Hw & Hst & _ & ->).
    apply (subs_off s _ w); [done|intros; cbn; by rewrite lookup_delete_ne|intros ? ?; simplify_eq; congruence|cbn; by rewrite lookup_delete_eq|done].
  - case_decide; [|done]. destruct (may_probe s a who); [|done]. injection Hv as <-. unfold try_address.
    destruct (full _ _); [by apply subs_refuse|by apply (subs_same s)].
  - case_decide; [|done]. injection Hv as <-. by apply (subs_same s).
  - destruct (w_ops s !! o) as [op|]; [|done]. injection Hv as <-. by apply subs_op_step.
Qed.

Lemma reachable_subs s : reachable s → subs_ok s.
Proof.
  induction 1 as [|s v s' Hr IH Hv]; [|eapply move_subs; [done|by apply reachable_entries|done]].
  intros n w. unfold seen. cbn. rewrite !lookup_empty. by intros ?.
Qed.

(** A notification for address [a] has been delivered: a request that waits for [a] goes on at its next poll; or it is with a
    request that has been told already and has only its wait left to drop, and dropping that delivers it. *)
Inductive delivered (a : Address) (s : World) : Prop :=
| Delivered_now v wa :
    w_waits s !! v = Some wa → wa_stage wa = Live → wa_address wa = a → wa_done wa = false →
    (poll_wait v wa s).1 = true → delivered a s
| Delivered_on v wa :
    w_waits s !! v = Some wa → wa_stage wa = Live → wa_address wa = a → wa_done wa = true →
    delivered a (drop_wait v wa s) → delivered a s.

Definition is_live (wa : Wait) : bool := bool_decide (wa_stage wa = Live).

Lemma poll_ready s v wa nt :
  w_notifies s !! wa_notify wa = Some nt → (notified_poll v nt).1 = true → (poll_wait v wa s).1 = true.
Proof. intros Hn Hp. unfold poll_wait. rewrite Hn. destruct (notified_poll v nt) as [ready nt']. cbn in *. by subst. Qed.

(** Channel [n] was rung, seen as [f] and [p] before: one of its waits goes on. *)
Lemma rung_delivers k a n s nt f p w wa :
  tally is_live (w_waits s) ≤ Z.of_nat k → entries_ok s → w_by_address s !! a = Some n → w_notifies s !! n = Some nt →
  rang f p (subscription nt) (permit nt) → (∀ v, sub_fits n (f v) (w_waits s !! v)) →
  w_waits s !! w = Some wa → wa_stage wa = Live → wa_address wa = a → wa_done wa = false → delivered a s.
Proof.
  revert s nt f p wa. induction k as [|k IH]; intros s nt f p wa Hk He Hm Hn Hr Hf Hw Hst Ha Hd.
  { pose proof (tally_one is_live _ _ _ Hw) as H1'. unfold is_live in H1' at 1. rewrite bool_decide_true in H1' by done. specialize (H1' eq_refl). lia. }
  assert (Hat : ∀ v wb, w_waits s !! v = Some wb → wa_stage wb = Live → wa_notify wb = n → wa_address wb = a).
  { intros v wb Hv Hsv Hnv. eapply (en_inj _ He); [|exact Hm]. rewrite <-Hnv. apply (en_waits _ He v); [done|congruence]. }
  assert (Hwn : wa_notify wa = n).
  { assert (Hb : w_by_address s !! wa_address wa = Some (wa_notify wa)) by (apply (en_waits _ He w); [done|congruence]). congruence. }
  pose proof (Hf w) as Hfw. rewrite Hw in Hfw. destruct (f w) as [x|] eqn:Ex; [|by destruct (Hfw wa)]. destruct Hfw as (? & [= <-] & _ & _ & Hu). specialize (Hu Hd).
  destruct Hr as [(v & Hv & Hv' & Hoth & _)|(Hno & Hsame & Hp)].
  - pose proof (Hf v) as Hfv. rewrite Hv in Hfv. destruct Hfv as (wb & Hb & Hbn & Hbl & _). pose proof (Hat _ _ Hb Hbl Hbn) as Hba.
    destruct (wa_done wb) eqn:Edb.
    + eapply (Delivered_on a s v wb); [done..|]. assert (Hvw : v ≠ w) by congruence.
      assert (Hnd : w_notifies (drop_wait v wb s) !! n = Some (notified_drop v nt)) by (cbn; by rewrite Hbn, lookup_alter_eq, Hn).
      apply (IH _ (notified_drop v nt) (without v (subscription nt)) (permit nt) wa); [|eapply entries_frame; [by apply frame_drop|done]|done|done|by apply drop_notified_law| | |done..].
      * assert (Hlb : is_live wb = true) by (by apply bool_decide_true). cbn. rewrite (tally_insert _ _ _ _ _ Hb), Hlb. change (is_live (with_stage Dropped wb)) with false. cbn. lia.
      * intros u. cbn. unfold without. case_decide; [subst u; rewrite lookup_insert_eq; apply sub_fits_none; by intros ? [= <-]|].
        rewrite lookup_insert_ne by done. rewrite Hoth by done. apply Hf.
      * cbn. by rewrite lookup_insert_ne.
    + eapply (Delivered_now a s v wb); [done..|]. eapply poll_ready; [by rewrite Hbn|]. by apply poll_notified_law.
  - eapply (Delivered_now a s w wa); [done..|]. eapply poll_ready; [by rewrite Hwn|]. destruct x; [|by destruct (Hno w)| |done].
    + destruct (poll_init_law nt w) as [-> _]; [by rewrite Hsame|done].
    + apply poll_notified_law. by rewrite Hsame.
Qed.

(** C22.  A notification reaches those who wait for it: in every interleaving of requests that subscribe, wait and give up,
    and of notifications, a request waiting for an address is subscribed to the very channel that [notify] for that
    address finds - reclaiming a channel by its reference count never takes it from a waiter - and once [notify] has rung
    it, if a request still waits for the address then the notification is delivered: one that still waits goes on at
    its next poll, or the notification went to a request that was woken otherwise, and when that one drops its wait, the
    only thing it has left to do, it is delivered in the same sense. *)
Theorem notify_reaches_waiters s o a n g :
  reachable s → w_ops s !! o = Some (Ringing a n g) →
  (∀ w wa, w_waits s !! w = Some wa → wa_stage wa = Live → wa_address wa = a → wa_notify wa = n) ∧
  ∀ w wa, w_waits s !! w = Some wa → wa_stage wa = Live → wa_address wa = a → wa_done wa = false →
    delivered a (op_step o (Ringing a n g) s).
Proof.
  intros Hr Ho. pose proof (reachable_subs s Hr) as Hs. pose proof (reachable_entries s Hr) as He.
  pose proof (en_ops _ He _ _ a n Ho eq_refl) as Hm. split.
  { intros w wa Hw Hst Ha. assert (Hb : w_by_address s !! wa_address wa = Some (wa_notify wa)) by (apply (en_waits _ He w); [done|congruence]). congruence. }
  intros w wa Hw Hst Ha Hd. destruct (en_alloc _ He _ _ Hm) as [nt Hnt].
  eapply (rung_delivers (Z.to_nat (tally is_live (w_waits s))) a n _ (notify_one nt) (subscription nt) (permit nt) w wa);
    [cbn; pose proof (tally_nonneg is_live (w_waits s)); lia|by apply entries_op_step|done| |apply notify_one_law| |done..].
  - cbn. by rewrite lookup_alter_eq, Hnt.
  - intros v. pose proof (Hs n v) as Hf. unfold seen in Hf. by rewrite Hnt in Hf.
Qed.
End Laws.

(** *** Waiting is warranted *)

(** A permit that is being dropped, its slot of the total given back and the broadcast still to come; and the same for a slot
    of address [a]. *)
Definition releasing (op : Op) : bool :=
  match op with Notifying _ g | Ringing _ _ g | Rung _ _ g => g | Broadcasting _ => true | _ => false end.
Definition op_address (op : Op) : Address :=
  match op with Probing a _ | Refused a | Permit a | Dropping a | Notifying a _ | Ringing a _ _ | Rung a _ _ | Broadcasting a => a end.
Definition releasing_at (a : Address) (op : Op) : bool :=
  bool_decide (op_address op = a) && (releasing op || match op with Dropping _ => true | _ => false end).

(** Every slot that is free was freed by a permit whose drop has not got to its broadcast. *)
Definition still_full (s : World) (a : Address) (r : Refusal) : Prop :=
  match r with
  | By_Total => ∀ cap, max_total = Some cap → cap ≤ w_total s + tally releasing (w_ops s)
  | By_Address => max_total = None → ∀ cap, max_per_address = Some cap → cap ≤ slots s a + tally (releasing_at a) (w_ops s)
  end.

Record limits_ok (s : World) : Prop := mkLimitsOk {
  li_seen : ∀ w wa, w_waits s !! w = Some wa → wa_seen wa ≤ w_generation s;
  li_refused : ∀ w wa r, w_waits s !! w = Some wa → wa_refused wa = Some r → wa_seen wa = w_generation s → still_full s (wa_address wa) r;
  li_unlimited : ∀ o a, w_ops s !! o = Some (Refused a) → max_total ≠ None;
}.

Lemma still_full_le s s' a r :
  w_total s + tally releasing (w_ops s) ≤ w_total s' + tally releasing (w_ops s') →
  (max_total = None → slots s a + tally (releasing_at a) (w_ops s) ≤ slots s' a + tally (releasing_at a) (w_ops s')) →
  still_full s a r → still_full s' a r.
Proof. intros Ht Ha. destruct r; cbn; [intros Hf Hn cap Hc; specialize (Hf Hn cap Hc); specialize (Ha Hn); lia|intros Hf cap Hc; specialize (Hf cap Hc); lia]. Qed.

Lemma limits_frame s s' : frame s s' → limits_ok s → limits_ok s'.
Proof.
  intros [Hm Ho Hg Ht Hsl Hn Hw] [A B C]. constructor; rewrite ?Hg, ?Ho; [| |done].
  - intros w wa (wb & Hb & _ & _ & -> & _)%Hw. by eapply A.
  - intros w wa r (wb & Hb & -> & _ & -> & -> & _)%Hw Hr Hs. eapply still_full_le; [..|by eapply B]; unfold slots; rewrite ?Ht, ?Ho, ?Hsl; done.
Qed.

(** Nothing but a broadcast takes away from what is in use or about to be broadcast. *)
Lemma limits_ops s s' o op op' :
  w_ops s !! o = Some op → w_waits s' = w_waits s → w_generation s' = w_generation s → w_ops s' = <[o := op']> (w_ops s) →
  (∀ a, op' = Refused a → max_total ≠ None) →
  w_total s + Z.b2z (releasing op) ≤ w_total s' + Z.b2z (releasing op') →
  (max_total = None → ∀ a, slots s a + Z.b2z (releasing_at a op) ≤ slots s' a + Z.b2z (releasing_at a op')) →
  limits_ok s → limits_ok s'.
Proof.
  intros Ho Hw Hg Hos Hr Ht Ha [A B C]. constructor.
  - intros w wa. rewrite Hw, Hg. apply A.
  - intros w wa r. rewrite Hw, Hg. intros Hwa Hre Hs. eapply still_full_le; [..|by eapply B]; rewrite Hos, (tally_insert _ _ _ _ _ Ho); [lia|].
    intros Hn. specialize (Ha Hn (wa_address wa)). lia.
  - intros o' b. rewrite Hos, lookup_insert_Some. intros [[<- ->]|[_ ?]]; [by eapply Hr|by eapply C].
Qed.

Lemma limits_new_op s s' o op :
  w_ops s !! o = None → w_waits s' = w_waits s → w_generation s' = w_generation s → w_ops s' = <[o := op]> (w_ops s) →
  (∀ a, op ≠ Refused a) → w_total s = w_total s' → (∀ a, slots s a ≤ slots s' a) → limits_ok s → limits_ok s'.
Proof.
  intros Ho Hw Hg Hos Hr Ht Ha [A B C]. constructor.
  - intros w wa. rewrite Hw, Hg. apply A.
  - intros w wa r. rewrite Hw, Hg. intros Hwa Hre Hs. eapply still_full_le; [..|by eapply B]; rewrite Hos, tally_insert_new by done; [rewrite Ht; destruct (releasing op); cbn; lia|].
    intros _. specialize (Ha (wa_address wa)). destruct (releasing_at _ op); cbn; lia.
  - intros o' b. rewrite Hos, lookup_insert_Some. intros [[<- ->]|[_ ?]]; [by destruct (Hr b)|by eapply C].
Qed.

Lemma limits_del_op s s' o op :
  w_ops s !! o = Some op → w_waits s' = w_waits s → w_generation s' = w_generation s → w_ops s' = delete o (w_ops s) →
  w_total s + Z.b2z (releasing op) ≤ w_total s' →
  (max_total = None → ∀ a, slots s a + Z.b2z (releasing_at a op) ≤ slots s' a) → limits_ok s → limits_ok s'.
Proof.
  intros Ho Hw Hg Hos Ht Ha [A B C]. constructor.
  - intros w wa. rewrite Hw, Hg. apply A.
  - intros w wa r. rewrite Hw, Hg. intros Hwa Hre Hs. eapply still_full_le; [..|by eapply B]; rewrite Hos, (tally_delete _ _ _ _ Ho); [lia|].
    intros Hn. specialize (Ha Hn (wa_address wa)). lia.
  - intros o' b. rewrite Hos, lookup_delete_Some. intros [_ ?]. by eapply C.
Qed.

(** A refusal is noted when there is nothing to be had. *)
Lemma limits_refuse who r s :
  (∀ w wa, who = Some w → w_waits s !! w = Some wa → still_full s (wa_address wa) r) → limits_ok s → limits_ok (refuse who r s).
Proof.
  intros Hf Hl. destruct who as [w|]; [|done]. specialize (Hf w). destruct Hl as [A B C]. constructor; [| |done].
  - intros v wa. cbn. rewrite lookup_alter_Some. intros [[<- (wb & Hb & ->)]|[_ Hb]]; [exact (A _ _ Hb)|exact (A _ _ Hb)].
  - intros v wa r'. cbn. rewrite lookup_alter_Some. intros [[<- (wb & Hb & ->)]|[_ Hb]]; [intros [= <-] _; exact (Hf _ eq_refl Hb)|exact (B _ _ r' Hb)].
Qed.

Lemma slots_set a d s b : slots (set_slots a d s) b = slots s b + if decide (a = b) then d else 0.
Proof. unfold slots. cbn. rewrite lookup_insert. case_decide; [by subst|]. cbn. lia. Qed.

Lemma slots_ops f s b : slots (set_ops f s) b = slots s b.
Proof. done. Qed.

(** Between the drop of a permit and its broadcast, nothing is lost by going on. *)
Lemma limits_carry s s' o op op' :
  w_ops s !! o = Some op → w_waits s' = w_waits s → w_generation s' = w_generation s → w_total s' = w_total s → w_slots s' = w_slots s →
  w_ops s' = <[o := op']> (w_ops s) → op_address op' = op_address op → releasing op' = releasing op →
  (∀ a, op ≠ Dropping a) → (∀ a, op' ≠ Refused a) → limits_ok s → limits_ok s'.
Proof.
  intros Ho Hw Hg Ht Hs Hos Ha Hr Hd Hre. eapply limits_ops; [done..| | |].
  - intros a E. by destruct (Hre a).
  - rewrite Hr, Ht. lia.
  - intros _ a. unfold slots, releasing_at. rewrite Hs, Ha, Hr. destruct (bool_decide _); cbn; [|lia].
    assert (match op with Dropping _ => true | _ => false end = false) as -> by (destruct op; try done; by edestruct Hd).
    destruct (releasing op); cbn; [lia|]. destruct op'; cbn; lia.
Qed.

Lemma refuse_ops who r s : w_ops (refuse who r s) = w_ops s ∧ w_generation (refuse who r s) = w_generation s.
Proof. by destruct who. Qed.

Lemma limits_op_step o op s : w_ops s !! o = Some op → limits_ok s → limits_ok (op_step o op s).
Proof.
  intros Ho Hl. destruct op as [a who|a|a|a|a g|a n g|a n g|a]; cbn [op_step].
  - unfold try_total. destruct (full max_total (w_total s)) eqn:Ef.
    + unfold full in Ef. destruct max_total as [cap|] eqn:Ec; [|done]. apply Z.leb_le in Ef.
      eapply (limits_ops (refuse who By_Total s) _ o (Probing a who) (Refused a)); [by rewrite (proj1 (refuse_ops _ _ _))|done|done|done| | | |].
      * intros b _ Hn. congruence.
      * cbn. destruct who; cbn; lia.
      * intros Hn. congruence.
      * apply limits_refuse; [|done]. intros w wa _ _ cap' Hc. rewrite Ec in Hc. injection Hc as <-. pose proof (tally_nonneg releasing (w_ops s)). lia.
    + eapply (limits_ops s _ o (Probing a who) (Permit a)); [done..| | |done]; cbn; [lia|]. intros _ b. unfold releasing_at. cbn. rewrite andb_false_r. done.
  - eapply (limits_del_op s _ o (Refused a)); [done..| | |done]; cbn; [lia|]. intros Hn. by destruct (li_unlimited _ Hl _ _ Ho).
  - eapply (limits_ops s _ o (Permit a) (Dropping a)); [done..| | |done]; cbn; [lia|]. intros _ b. rewrite slots_ops, slots_set. unfold releasing_at. cbn.
    rewrite andb_false_r, andb_true_r. case_decide; [rewrite bool_decide_true by done|rewrite bool_decide_false by done]; cbn; lia.
  - eapply (limits_ops s _ o (Dropping a) (Notifying a true)); [done..| | |done]; cbn; [lia|]. intros _ b. unfold releasing_at, slots. cbn. lia.
  - unfold existing_notify. destruct (w_by_address s !! a) as [n|]; [by eapply limits_carry|]. destruct g; [by eapply limits_carry|].
    eapply (limits_del_op s _ o (Notifying a false)); [done..| | |done]; cbn; [lia|]. intros _ b. unfold releasing_at. cbn. rewrite andb_false_r. cbn. unfold slots. cbn. lia.
  - pose proof (frame_ring n s) as Hf. eapply (limits_carry (ring n s)); [by rewrite (fr_ops _ _ Hf)|done..|]. by eapply limits_frame.
  - destruct g; [by eapply limits_carry|]. eapply (limits_del_op s _ o (Rung a n false)); [done..| | |done]; cbn; [lia|]. intros _ b. unfold releasing_at. cbn.
    rewrite andb_false_r. unfold slots. cbn. lia.
  - destruct Hl as [A B C]. constructor; cbn.
    + intros w wa Hw. pose proof (A _ _ Hw). lia.
    + intros w wa r Hw _ Hs. pose proof (A _ _ Hw). lia.
    + intros o' b. rewrite lookup_delete_Some. intros [_ ?]. by eapply C.
Qed.

Lemma limits_new_wait s s' w wa :
  w_waits s' = <[w := wa]> (w_waits s) → w_ops s' = w_ops s → w_generation s' = w_generation s → w_total s' = w_total s → w_slots s' = w_slots s →
  wa_seen wa = w_generation s → wa_refused wa = None → limits_ok s → limits_ok s'.
Proof.
  intros Hw Ho Hg Ht Hs Hse Hre [A B C]. constructor; rewrite ?Hg, ?Ho; [| |done].
  - intros v wb. rewrite Hw, lookup_insert_Some. intros [[<- <-]|[_ Hb]]; [lia|by eapply A].
  - intros v wb r. rewrite Hw, lookup_insert_Some. intros [[<- <-]|[_ Hb]]; [by rewrite Hre|]. intros Hr Hseen.
    eapply still_full_le; [..|by eapply B]; unfold slots; by rewrite ?Ht, ?Ho, ?Hs.
Qed.

Lemma move_limits s v s' : move s v = Some s' → limits_ok s → limits_ok s'.
Proof.
  intros Hv Hl. destruct v as [w a n|w|w|w|w|w|w|o a who|o a|o]; cbn in Hv.
  - case_decide; [|done]. injection Hv as <-. unfold notify_for. destruct (w_by_address s !! a); by eapply (limits_new_wait s).
  - apply wait_move_Some in Hv as (wa & Hw & _ & _ & ->). by eapply (limits_new_wait s).
  - apply wait_move_Some in Hv as (wa & Hw & _ & _ & ->). eapply limits_frame; [by apply frame_poll|done].
  - apply wait_move_Some in Hv as (wa & Hw & Hst & _ & ->). eapply limits_frame; [by apply frame_drop|done].
  - apply wait_move_Some in Hv as (wa & Hw & Hst & _ & ->). eapply limits_frame; [by apply frame_check|done].
  - apply wait_move_Some in Hv as (wa & Hw & Hst & _ & ->).
    assert (Ha : alike wa (with_stage Leaving wa)) by (split_and!; done). pose proof (limits_frame _ _ (frame_insert _ _ _ _ Hw Ha) Hl) as [A B C].
    unfold reclaim. destruct (_ && _); by constructor.
  - apply wait_move_Some in Hv as (wa & Hw & _ & _ & ->). eapply limits_frame; [apply frame_delete|done].
  - case_decide as Ho; [|done]. destruct (may_probe s a who) eqn:Ep; [|done]. injection Hv as <-. unfold try_address. destruct (full _ _) eqn:Ef.
    + apply limits_refuse; [|done]. intros w wa -> Hw. cbn in Ep. rewrite Hw in Ep. apply andb_true_iff in Ep as [[Ha%bool_decide_eq_true _]%andb_true_iff _].
      intros _ cap Hc. unfold full in Ef. rewrite Hc in Ef. apply Z.leb_le in Ef. rewrite Ha. pose proof (tally_nonneg (releasing_at a) (w_ops s)). lia.
    + eapply (limits_new_op s _ o (Probing a who)); [done..| |done]. intros b. change (slots s b ≤ slots (set_slots a 1 s) b). rewrite slots_set. case_decide; lia.
  - case_decide as Ho; [|done]. injection Hv as <-. by eapply (limits_new_op s _ o (Notifying a false)).
  - destruct (w_ops s !! o) as [op|] eqn:Ho; [|done]. injection Hv as <-. by apply limits_op_step.
Qed.

Lemma reachable_limits s : reachable s → limits_ok s.
Proof. induction 1 as [|s v s' _ IH Hv]; [|by eapply move_limits]. by constructor. Qed.

(** C15.  No release of a permit is lost on a waiter: in every interleaving, when a request that was refused a connection by
    the total cap - or by the cap of its address, when there is no total cap - would go on waiting if it were polled, then the cap
    is still used up, but for slots whose permit is being dropped right now and will wake it before the drop ends. *)
Theorem waiting_is_warranted s w wa r :
  reachable s → w_waits s !! w = Some wa → wa_refused wa = Some r → (poll_wait w wa s).1 = false → still_full s (wa_address wa) r.
Proof.
  intros Hr Hw Hre Hp. apply (li_refused _ (reachable_limits _ Hr) w); [done|done|].
  unfold poll_wait in Hp. destruct (w_notifies s !! wa_notify wa) as [nt|]; [destruct (notified_poll w nt)|]; cbn in Hp; [apply orb_false_iff in Hp as [_ Hp]|];
    by apply negb_false_iff, Z.eqb_eq in Hp.
Qed.
End Limiter.
End Channels.
Arguments World : clear implicits.

(** ** A channel with the laws *)

(** The subscriptions by their number; which of those that wait is notified is left to the order of the map. *)
Record NotifySet : Type := mkNotifySet { ns_permit : bool; ns_subs : gmap nat Subscription }.
Definition first_queued (m : gmap nat Subscription) : option nat :=
  (λ kv, kv.2.1) <$> list_find (λ kv, kv.2 = Sub_Queued) (map_to_list m).

Lemma first_queued_spec m :
  match first_queued m with Some v => m !! v = Some Sub_Queued | None => ∀ v, m !! v ≠ Some Sub_Queued end.
Proof.
  unfold first_queued. destruct (list_find _ _) as [[i [v x]]|] eqn:E; cbn.
  - apply list_find_Some in E as (Hi & Hx & _). cbn in Hx. subst x. apply elem_of_map_to_list. by eapply list_elem_of_lookup_2.
  - apply list_find_None in E. intros v Hv%elem_of_map_to_list. rewrite Forall_forall in E. by apply (E _ Hv).
Qed.

Definition set_notify_one (n : NotifySet) : NotifySet :=
  match first_queued (ns_subs n) with
  | Some v => mkNotifySet (ns_permit n) (<[v := Sub_Notified]> (ns_subs n))
  | None => mkNotifySet true (ns_subs n)
  end.
Definition set_poll (w : nat) (n : NotifySet) : bool * NotifySet :=
  match ns_subs n !! w with
  | Some Sub_Init =>
    if ns_permit n then (true, mkNotifySet false (<[w := Sub_Used]> (ns_subs n)))
    else (false, mkNotifySet false (<[w := Sub_Queued]> (ns_subs n)))
  | Some Sub_Notified => (true, mkNotifySet (ns_permit n) (<[w := Sub_Used]> (ns_subs n)))
  | Some Sub_Used => (true, n)
  | _ => (false, n)
  end.
Definition set_drop (w : nat) (n : NotifySet) : NotifySet :=
  let rest := mkNotifySet (ns_permit n) (delete w (ns_subs n)) in
  if bool_decide (ns_subs n !! w = Some Sub_Notified) then set_notify_one rest else rest.

#[global] Instance notify_set : NotifyChannel NotifySet := {
  notify_new := mkNotifySet false ∅;
  notify_one := set_notify_one;
  notified w n := mkNotifySet (ns_permit n) (<[w := Sub_Init]> (ns_subs n));
  notified_poll := set_poll;
  notified_drop := set_drop;
  subscription n w := ns_subs n !! w;
  permit := ns_permit;
}.

Lemma set_notify_rang n : rang (λ w, ns_subs n !! w) (ns_permit n) (λ w, ns_subs (set_notify_one n) !! w) (ns_permit (set_notify_one n)).
Proof.
  unfold set_notify_one. pose proof (first_queued_spec (ns_subs n)) as Hf. destruct (first_queued (ns_subs n)) as [v|]; [left|by right].
  exists v. cbn. rewrite lookup_insert_eq. split_and!; [done|done| |done]. intros w Hw. by rewrite lookup_insert_ne.
Qed.

Lemma without_delete w (m : gmap nat Subscription) v : delete w m !! v = without w (λ v, m !! v) v.
Proof. unfold without. case_decide; [subst; apply lookup_delete_eq|by apply lookup_delete_ne]. Qed.

Lemma rang_ext f g p f' p' : (∀ w, g w = f w) → rang f p f' p' → rang g p f' p'.
Proof.
  intros E [(v & H1 & H2 & H3 & H4)|(H1 & H2 & H3)]; [left; exists v; rewrite E|right]; split_and!; try done.
  - intros w Hw. by rewrite E, H3.
  - intros v. rewrite E. apply H1.
  - intros w. by rewrite E, H2.
Qed.

#[global] Instance notify_set_laws : NotifyLaws NotifySet.
Proof.
  constructor; cbn; try (unfold set_poll; intros n w Hw; rewrite Hw).
  - done.
  - apply set_notify_rang.
  - intros n w. split; [apply lookup_insert_eq|]. intros v Hv. by rewrite lookup_insert_ne.
  - by destruct (ns_permit n); cbn; rewrite lookup_insert_eq.
  - done.
  - by cbn; rewrite lookup_insert_eq.
  - intros n w v Hv. unfold set_poll. destruct (ns_subs n !! w) as [[]|]; [destruct (ns_permit n)|..]; cbn; by rewrite ?lookup_insert_ne.
  - intros n w Hw. unfold set_drop. rewrite bool_decide_true by done. eapply rang_ext; [|apply (set_notify_rang (mkNotifySet (ns_permit n) (delete w (ns_subs n))))].
    intros v. cbn. by rewrite without_delete.
  - intros n w Hw v. unfold set_drop. rewrite bool_decide_false by done. apply without_delete.
Qed.

(** ** Concrete runs *)

Module AvailabilityDemo.
Definition a : Address := example_address.
Definition b : Address := mkAddress Scheme_Https (mkAuthorityKey "other.test" 443) None (Some (mkTlsIdentity "other.test")) Http1OrHttp2 Dns_System.
Definition listen (w : nat) (x : Address) (n : nat) : list Move := [Mv_Listen w x n; Mv_Subscribe w].
Definition notify (o : nat) (x : Address) : list Move := Mv_Notify o x :: replicate 3 (Mv_Op o).
(** A permit from its acquisition, and its drop to the end. *)
Definition acquire (o : nat) (x : Address) (who : option nat) : list Move := [Mv_TryAcquire o x who; Mv_Op o].
Definition release (o : nat) : list Move := replicate 6 (Mv_Op o).

Definition waits_on (s : World NotifySet) (w : nat) : option bool := (λ wa, (poll_wait w wa s).1) <$> w_waits s !! w.

(** One connection in all: the second request is refused and waits; the drop of the first one's permit wakes it. *)
Definition held : World NotifySet := run (Some 1) None (acquire 0 a None ++ listen 1 b 7 ++ acquire 1 b (Some 1%nat) ++ [Mv_Op 1; Mv_Poll 1]).
Definition released : World NotifySet := run (Some 1) None (acquire 0 a None ++ listen 1 b 7 ++ acquire 1 b (Some 1%nat) ++ [Mv_Op 1; Mv_Poll 1] ++ release 0).
Example release_wakes : waits_on held 1 = Some false ∧ waits_on released 1 = Some true.
Proof. by vm_compute. Qed.

(** Two requests have looked for a connection in vain and are still on their way to wait when two exchanges end: the
    channel of the address remembers one notification, so the second request waits although two were given. *)
Example second_notify_lost :
  let s : World NotifySet := run None None (listen 1 a 7 ++ listen 2 a 8 ++ notify 0 a ++ notify 0 a ++ [Mv_Poll 1]) in
  option_map wa_done (w_waits s !! 1%nat) = Some true ∧ waits_on s 2 = Some false ∧ w_ops s = ∅.
Proof. by vm_compute. Qed.

(** One connection per address and one in all.  A request that was refused the total still has the slot of its address when
    another one asks for it; it is then canceled.  The other waits although nothing is in use. *)
Example abandoned_slot_unnoticed :
  let s : World NotifySet := run (Some 1) (Some 1)
    (acquire 0 b None ++ listen 1 a 7 ++ acquire 1 a (Some 1%nat) ++ release 0 ++
     listen 2 a 8 ++ [Mv_TryAcquire 2 a (Some 2%nat); Mv_Op 1; Mv_DropWait 1; Mv_Check 1; Mv_Leave 1]) in
  waits_on s 2 = Some false ∧ w_total s = 0 ∧ slots s a = 0 ∧ w_ops s = ∅ ∧ w_waits s !! 1%nat = None.
Proof. by vm_compute. Qed.

(** A notification that has the channel in hand keeps the last waiter from reclaiming it: the entry stays, with no one
    waiting. *)
Example entry_left_behind :
  let s : World NotifySet := run None None (listen 1 a 7 ++ [Mv_Notify 0 a; Mv_Op 0; Mv_DropWait 1; Mv_Check 1; Mv_Leave 1; Mv_Op 0; Mv_Op 0]) in
  w_by_address s !! a = Some 7%nat ∧ w_waits s = ∅ ∧ w_ops s = ∅.
Proof. by vm_compute. Qed.

(** Two requests wait for the address.  The first was woken by a permit dropped elsewhere and has not dropped its wait yet;
    then a connection of the address is given back. *)
Definition ringing : World NotifySet :=
  run (Some 2) None (acquire 0 b None ++ listen 2 a 7 ++ [Mv_Poll 2] ++ release 0 ++ [Mv_Poll 2] ++
                     listen 1 a 8 ++ [Mv_Poll 1; Mv_Notify 0 a; Mv_Op 0]).
Definition waiting : Wait := default (mkWait a 0 0 Looked false None) (w_waits ringing !! 1%nat).
(** The notification goes to the first, and to the second once the first has dropped its wait. *)
Example passed_on :
  let s := op_step (Some 2) 0 (Ringing a 7 false) ringing in
  waits_on s 1 = Some false ∧
  ((λ wa, waits_on (drop_wait 2 wa s) 1) <$> w_waits s !! 2%nat) = Some (Some true).
Proof. by vm_compute. Qed.
Definition refused : Wait := default (mkWait a 0 0 Looked false None) (w_waits held !! 1%nat).
End AvailabilityDemo.
Import AvailabilityDemo.

Lemma notify_reaches_waiters_witness : delivered a (op_step (Some 2) 0 (Ringing a 7 false) ringing).
Proof.
  destruct (notify_reaches_waiters (Some 2) None ringing 0 a 7 false) as [_ Hw].
  - apply moves_reachable.
  - vm_compute. reflexivity.
  - apply (Hw 1%nat waiting); vm_compute; reflexivity.
Defined.

Lemma waiting_is_warranted_witness : 1 ≤ w_total held + tally releasing (w_ops held).
Proof.
  apply (waiting_is_warranted (Some 1) None held 1 refused By_Total); [apply moves_reachable|vm_compute; reflexivity..].
Defined.
