(* ===== verification/ExchangeFinder.v ===== *)
(** * Finding an exchange

    openwire/src/connection/exchange_finder.rs: resolving a request to the addresses it may use, in
    order of preference, and matching the connection a transport reports with the pool.  The proxy
    selector is a trait object and is the argument [selector]. *)

From S2P Require Import Prelude Net Error Proxy Planning RealConnection Pool.

(** [ResolvedAddress], openwire/connection/exchange_finder.rs:15-19. *)
Record ResolvedAddress : Type := mkResolved {
  ra_address : Address;
  ra_selected_proxy : option SelectedProxy;
}.

#[global] Instance ResolvedAddress_eq_dec : EqDecision ResolvedAddress.
Proof. solve_decision. Defined.

(** [PreparedExchangeOutcome], openwire/connection/exchange_finder.rs:85-92. *)
Inductive PreparedExchangeOutcome : Type :=
| PoolHit (address_index : nat) (connection : ConnectionId)
| PoolMiss.

(** [PreparedExchange], openwire/connection/exchange_finder.rs:41-45. *)
Record PreparedExchange : Type := mkPrepared {
  pe_addresses : list ResolvedAddress;
  pe_outcome : PreparedExchangeOutcome;
}.

(** [ObservedConnection], openwire/connection/exchange_finder.rs:94-98. *)
Record ObservedConnection : Type := mkObserved {
  oc_connection : ConnectionId;
  oc_reused : bool;
}.

(** [pooled_address], openwire/connection/exchange_finder.rs:52-60. *)
Definition pooled_address (pe : PreparedExchange) : option ResolvedAddress :=
  match pe_outcome pe with
  | PoolHit i _ => pe_addresses pe !! i
  | PoolMiss => None
  end.

(** [reserved_connection], openwire/connection/exchange_finder.rs:74-82. *)
Definition reserved_connection (pe : PreparedExchange) : option ConnectionId :=
  match pe_outcome pe with
  | PoolHit _ c => Some c
  | PoolMiss => None
  end.

(** The loop of [resolve_addresses], openwire/connection/exchange_finder.rs:223-235. *)
Fixpoint resolve_loop (uri : Uri) (candidates : list (option SelectedProxy)) (addresses : list ResolvedAddress)
    : outcome WireError (list ResolvedAddress) :=
  match candidates with
  | [] => Ok addresses
  | c :: candidates =>
    let? a := from_uri uri c in
    resolve_loop uri candidates (push_unique addresses (mkResolved a c))
  end.

(** [resolve_addresses], openwire/connection/exchange_finder.rs:214-241. *)
Definition resolve_addresses (selector : Uri → outcome WireError ProxySelection) (uri : Uri)
    (sticky_proxy : option SelectedProxy) : outcome WireError (list ResolvedAddress) :=
  let? selection := selector uri in
  let? addresses := resolve_loop uri (resolved_proxy_candidates_with_sticky selection sticky_proxy) [] in
  match addresses with
  | [] => let? a := from_uri uri None in Ok [mkResolved a None]
  | _ => Ok addresses
  end.

(** [prepare], openwire/connection/exchange_finder.rs:128-145; [cached] and [sticky_proxy] are the
    request's extensions. *)
Definition prepare (selector : Uri → outcome WireError ProxySelection) (uri : Uri)
    (cached : option (list ResolvedAddress)) (sticky_proxy : option SelectedProxy)
    : outcome WireError PreparedExchange :=
  let? addresses := match cached with
                    | Some l => Ok l
                    | None => resolve_addresses selector uri sticky_proxy
                    end in
  Ok (mkPrepared addresses PoolMiss).

(** [first_acquirable_index], openwire/connection/exchange_finder.rs:147-151. *)
Definition first_acquirable_index (p : Pool) (addresses : list ResolvedAddress) : option nat :=
  position (λ r, has_acquirable_connection p (ra_address r)) addresses.

(** [discard_prepared], openwire/connection/exchange_finder.rs:201-205. *)
Definition discard_prepared (p : Pool) (pe : PreparedExchange) : Pool :=
  match reserved_connection pe with
  | Some i => (remove p i).1
  | None => p
  end.

(** [observe_connection], openwire/connection/exchange_finder.rs:153-195; [id] and [remote_addr] are the
    [ConnectionInfo]'s. *)
Definition observe_connection (s : PoolSettings) (now : Instant) (p : Pool) (pe : PreparedExchange)
    (id : ConnectionId) (remote_addr : option SocketAddr) (proto : ConnectionProtocol)
    : outcome Empty_set (Pool * ObservedConnection) :=
  let observe (p : Pool) :=
    match (match pooled_address pe with Some r => Some r | None => head (pe_addresses pe) end) with
    | None => Panic
    | Some r =>
      let observed_address := ra_address r in
      match acquire_by_id s now p observed_address id with
      | (p, Some existing) => Ok (p, mkObserved existing true)
      | (p, None) =>
        let c := connection_new now (from_observed observed_address remote_addr) proto [] 100 in
        let c := (try_acquire c).2 in
        let p := pool_insert s now (set_store p (<[id := c]> (store p))) id in
        Ok (p, mkObserved id false)
      end
    end in
  match reserved_connection pe with
  | Some reserved =>
    if (reserved =? id)%nat then Ok (p, mkObserved reserved true)
    else observe (remove p reserved).1
  | None => observe p
  end.

(** ** Resolution *)

(** A resolved address is its candidate's. *)
Definition resolves (uri : Uri) (r : ResolvedAddress) (c : option SelectedProxy) : Prop :=
  ra_selected_proxy r = c ∧ from_uri uri c = Ok (ra_address r).

(** Distinct candidates resolve to distinct entries, so nothing is dropped as a duplicate. *)
Lemma resolve_loop_spec uri cs acc l :
  NoDup cs → (∀ r, r ∈ acc → ra_selected_proxy r ∉ cs) →
  resolve_loop uri cs acc = Ok l ↔ ∃ k, l = acc ++ k ∧ Forall2 (resolves uri) k cs.
Proof.
  revert acc; induction cs as [|c cs IH]; intros acc Hnd Hacc; cbn [resolve_loop].
  { split; [intros [= <-]; exists []; by rewrite app_nil_r|]. intros (k & -> & Hk). inversion Hk. by rewrite app_nil_r. }
  apply NoDup_cons in Hnd as [Hc Hnd]. rewrite obind_Ok. split.
  - intros (a & Ha & Hl). apply IH in Hl; [|done|].
    + destruct Hl as (k & -> & Hk). exists (mkResolved a c :: k).
      unfold push_unique. rewrite decide_False; [|intros Hin; apply (Hacc _ Hin); by left].
      rewrite <-app_assoc. split; [done|]. by constructor.
    + intros r [Hr| ->]%elem_of_push_unique; [|done]. intros Hin. apply (Hacc r Hr). by right.
  - intros (k & -> & Hk). apply Forall2_cons_inv_r in Hk as (r & k' & [Hs Ha] & Hk & ->).
    exists (ra_address r). split; [done|]. rewrite <-Hs. replace (mkResolved _ _) with r by (by destruct r).
    apply IH; [done| |].
    + intros r' [Hr| ->]%elem_of_push_unique; [intros Hin; apply (Hacc r' Hr); by right|by rewrite Hs].
    + exists k'. unfold push_unique. rewrite decide_False; [by rewrite <-app_assoc|].
      intros Hin. apply (Hacc _ Hin). rewrite Hs. by left.
Qed.

Lemma resolve_loop_nil uri cs l : NoDup cs → resolve_loop uri cs [] = Ok l ↔ Forall2 (resolves uri) l cs.
Proof.
  intros Hnd. rewrite resolve_loop_spec; [|done|by intros r ?%elem_of_nil]. simpl. naive_solver.
Qed.

(** A request that carries no cached addresses is prepared successfully exactly when its proxy can
    be selected and an address derived for every candidate; it then has one address per candidate, in
    the candidates' order (sticky proxy first), at least one of them, each the candidate's own.
    Preparing never checks a connection out of the pool. *)
Theorem prepare_spec (selector : Uri → outcome WireError ProxySelection) (uri : Uri)
    (sticky : option SelectedProxy) (pe : PreparedExchange) :
  prepare selector uri None sticky = Ok pe ↔
  ∃ sel, selector uri = Ok sel ∧ pe_outcome pe = PoolMiss ∧ pe_addresses pe ≠ [] ∧
    Forall2 (resolves uri) (pe_addresses pe) (resolved_proxy_candidates_with_sticky sel sticky).
Proof.
  unfold prepare, resolve_addresses. rewrite obind_Ok. setoid_rewrite obind_Ok. setoid_rewrite obind_Ok.
  assert (Hnd : ∀ sel, NoDup (resolved_proxy_candidates_with_sticky sel sticky))
    by (intros sel; rewrite candidates_Permutation; apply base_candidates_NoDup).
  split.
  - intros (l & (sel & Hsel & l' & Hl' & Hl) & [= <-]). exists sel. simpl.
    apply resolve_loop_nil in Hl'; [|done]. destruct l' as [|r l']; simplify_eq; [|done].
    apply Forall2_nil_inv_l in Hl'. pose proof (candidates_Permutation sel sticky) as Hp. rewrite Hl' in Hp.
    apply Permutation_nil_l in Hp. by destruct (base_candidates_nonempty sel).
  - intros (sel & Hsel & Ho & Hne & Hf). exists (pe_addresses pe). split.
    + exists sel. split; [done|]. exists (pe_addresses pe). split; [by apply resolve_loop_nil|].
      by destruct (pe_addresses pe).
    + destruct pe. simpl in *. by subst.
Qed.

(** ** Observed connections *)

(** A connection the pool does not know cannot be acquired by id. *)
Lemma acquire_by_id_unknown s now p a i :
  0 ≤ max_idle_per_address s → pool_ok p → store p !! i = None →
  let '(p', r) := acquire_by_id s now p a i in
  r = None ∧ pool_ok p' ∧ store p' !! i = None ∧ by_id p' !! i = None.
Proof.
  intros Hcap Hp Hi. pose proof (acquire_by_id_ok s now p a i Hcap Hp) as Hok.
  unfold acquire_by_id in *. pose proof (prune_address_effect s now [] p a Hcap Hp) as H.
  destruct (prune_address s now p a) as [p1 removed]. destruct H as [[Hpr _ Hbi _ _] Hp1].
  assert (by_id p !! i = None) as Hid.
  { destruct (by_id p !! i) as [b|] eqn:E; [|done].
    apply (pi_id _ _ Hp) in E as [Hb|[Hb _]]; [|by apply elem_of_nil in Hb].
    destruct (pi_live _ _ Hp b i Hb) as (c & Hc & _). congruence. }
  rewrite Hbi in *. rewrite Hid in *. simpl in *. rewrite set_store_id in *.
  destruct (finish_removals_effect removed p1 Hp1) as [Hf _]. split_and!; [done|done| |].
  - rewrite (rf_store _ _ _ Hf), (pr_store _ _ _ _ _ _ _ Hpr), Hi. by case_bool_decide.
  - rewrite (rf_by_id _ _ _ Hf), Hbi, Hid. by case_bool_decide.
Qed.

Lemma insert_in_use s now p i c :
  0 ≤ max_idle_per_address s → pool_ok p → store p !! i = Some c → in_use c → by_id p !! i = None →
  i ∈ bucket (pool_insert s now p i) (conn_address c) ∧ store (pool_insert s now p i) !! i = Some c.
Proof.
  intros Hcap Hp Hc Hu Hid. assert (health (conn_state c) ≠ Closed) as Hh by (by apply in_use_iff in Hu as [? _]).
  rewrite (insert_as_prune s now p i c) by done. pose proof (inserted_ok p i c Hp Hc Hh Hid) as Hin.
  destruct (inserted_fields p i (conn_address c)) as (F1 & F2 & _ & _).
  pose proof (prune_address_effect s now [] _ (conn_address c) Hcap Hin) as H.
  destruct (prune_address _ _ _ _) as [p1 removed]. destruct H as [[Hpr _ _ _ _] Hp1].
  destruct (finish_removals_effect removed p1 Hp1) as [Hf _]. rewrite F1 in Hpr.
  assert (i ∉ removed) as Hnr by (intros Hr; by apply (pr_in_use _ _ _ _ _ _ _ Hpr i c Hr)).
  split.
  - unfold bucket at 1. rewrite (rf_by_address _ _ _ Hf). fold (bucket p1 (conn_address c)).
    rewrite (pr_kept _ _ _ _ _ _ _ Hpr), list_elem_of_filter. split; [done|].
    unfold bucket. rewrite F2, lookup_insert_eq. simpl. apply elem_of_app. right. by apply list_elem_of_singleton.
  - by rewrite (rf_store _ _ _ Hf), (pr_store _ _ _ _ _ _ _ Hpr), bool_decide_eq_false_2.
Qed.

(** Observing a connection the transport just opened, for a prepared exchange, does not panic and files
    the new connection in the pool under the exchange's first address, open and carrying exactly
    that one exchange, so that pruning cannot take it away and an HTTP/1 connection is not shared. *)
Theorem observe_new_connection (ho : list Address → list Address) (s : PoolSettings) (now : Instant) (p : Pool)
    (pe : PreparedExchange) (r : ResolvedAddress) (id : ConnectionId) (remote_addr : option SocketAddr)
    (proto : ConnectionProtocol) :
  0 ≤ max_idle_per_address s → pool_reachable ho s p → store p !! id = None →
  pe_outcome pe = PoolMiss → head (pe_addresses pe) = Some r →
  ∃ p' c, observe_connection s now p pe id remote_addr proto = Ok (p', mkObserved id false) ∧
    id ∈ bucket p' (ra_address r) ∧ store p' !! id = Some c ∧ protocol c = proto ∧
    health (conn_state c) = Healthy ∧ allocations (conn_state c) = 1.
Proof.
  intros Hcap Hr Hid Hmiss Hhead. pose proof (pool_reachable_ok ho s p Hcap Hr) as Hp.
  unfold observe_connection, reserved_connection, pooled_address. rewrite Hmiss, Hhead.
  pose proof (acquire_by_id_unknown s now p (ra_address r) id Hcap Hp Hid) as H.
  destruct (acquire_by_id s now p (ra_address r) id) as [p1 res]. destruct H as (-> & Hp1 & Hst & Hbi).
  set (c := (try_acquire _).2). set (p2 := set_store p1 (<[id := c]> (store p1))).
  assert (Hcok : conn_ok c) by (apply try_acquire_ok, connection_new_ok).
  assert (Hc : allocations (conn_state c) = 1 ∧ health (conn_state c) = Healthy ∧ protocol c = proto) by (by destruct proto).
  assert (Ha : conn_address c = ra_address r).
  { assert (conn_route c = from_observed (ra_address r) remote_addr) as Hrt by (by destruct proto).
    unfold conn_address. rewrite Hrt. unfold from_observed. by destruct (proxy (ra_address r)) as [[[] ?]|]. }
  assert (Hp2 : pool_ok p2) by (by apply create_ok).
  destruct (insert_in_use s now p2 id c) as [Hin Hs]; [done|done|apply lookup_insert_eq| |done|].
  { apply in_use_iff. destruct Hc as (-> & -> & _). done. }
  rewrite Ha in Hin. destruct Hc as (? & ? & ?). eexists _, c. split; [done|]. done.
Qed.

Lemma observe_new_connection_witness :
  let r := mkResolved (origin_h2 "a") None in
  ∃ p' c, observe_connection pool_settings_default 9 (pool_new ∅) (mkPrepared [r] PoolMiss) 4%nat None Http1 =
            Ok (p', mkObserved 4%nat false) ∧ store p' !! 4%nat = Some c ∧ allocations (conn_state c) = 1.
Proof.
  intros r. destruct (observe_new_connection id pool_settings_default 9 (pool_new ∅) (mkPrepared [r] PoolMiss) r 4%nat None Http1)
    as (p' & c & H1 & _ & H2 & _ & _ & H3); [done|constructor|reflexivity|reflexivity|reflexivity|].
  exists p', c. split; [exact H1|]. split; [exact H2|exact H3].
Defined.
