(* ===== verification/Policy.v ===== *)
(** * Retry and redirect policies

    openwire-core/src/policy.rs and openwire/src/policy/defaults.rs: the decisions the follow-up loop
    asks for.  A policy trait object is the record of its methods.  [Method::is_idempotent] and the
    textual form of a [Uri] belong to the http crate and are arguments. *)

From stdpp Require Import pretty.
From S2P Require Import Prelude Net Error Http.

(** [RetryContext], openwire-core/policy.rs:28-33. *)
Record RetryContext : Type := mkRetryContext {
  rc_error : WireError;
  rc_attempt : Z;
  rc_replayable : bool;
  rc_method : Method;
}.

(** [RetryAfter], openwire-core/policy.rs:113-118. *)
Inductive RetryAfter : Type := RetryAfter_Immediate | RetryAfter_Delayed | RetryAfter_Invalid.

#[global] Instance RetryAfter_eq_dec : EqDecision RetryAfter.
Proof. solve_decision. Defined.

(** [ResponseRetryContext], openwire-core/policy.rs:67-73. *)
Record ResponseRetryContext : Type := mkResponseRetryContext {
  rr_status : Z;
  rr_retry_count : Z;
  rr_replayable : bool;
  rr_method : Method;
  rr_retry_after : option RetryAfter;
}.

(** [RedirectContext], openwire-core/policy.rs:133-140. *)
Record RedirectContext : Type := mkRedirectContext {
  rd_method : Method;
  rd_request_uri : Uri;
  rd_status : Z;
  rd_location : Uri;
  rd_redirect_count : Z;
  rd_replayable : bool;
}.

(** [RedirectDecision], openwire-core/policy.rs:186-190. *)
Inductive RedirectDecision : Type :=
| Redirect_Follow
| Redirect_Stop
| Redirect_Error (e : WireError).

(** [RetryPolicy], openwire-core/policy.rs:7-13. *)
Record RetryPolicy : Type := mkRetryPolicy {
  should_retry : RetryContext → option string;
  should_retry_response : ResponseRetryContext → option string;
}.

(** [RedirectPolicy], openwire-core/policy.rs:120-122. *)
Record RedirectPolicy : Type := mkRedirectPolicy {
  should_redirect : RedirectContext → RedirectDecision;
}.

(** [DefaultRetryPolicy], openwire/policy/defaults.rs:44-50. *)
Record DefaultRetryPolicy : Type := mkDefaultRetry {
  retry_on_connection_failure : bool;
  max_retries : Z;
  retry_canceled_requests : bool;
  retry_non_idempotent : bool;
}.

(** [Default for DefaultRetryPolicy], openwire/policy/defaults.rs:90-99. *)
Definition default_retry_policy : DefaultRetryPolicy := mkDefaultRetry true 1 false false.

(** [DefaultRetryPolicy::set_retry_on_connection_failure], openwire/policy/defaults.rs:61-63. *)
Definition set_retry_on_connection_failure (b : bool) (p : DefaultRetryPolicy) : DefaultRetryPolicy :=
  mkDefaultRetry b (max_retries p) (retry_canceled_requests p) (retry_non_idempotent p).

(** [DefaultRetryPolicy::set_max_retries], openwire/policy/defaults.rs:69-71. *)
Definition set_max_retries (n : Z) (p : DefaultRetryPolicy) : DefaultRetryPolicy :=
  mkDefaultRetry (retry_on_connection_failure p) n (retry_canceled_requests p) (retry_non_idempotent p).

(** [DefaultRetryPolicy::set_retry_canceled_requests], openwire/policy/defaults.rs:77-79. *)
Definition set_retry_canceled_requests (b : bool) (p : DefaultRetryPolicy) : DefaultRetryPolicy :=
  mkDefaultRetry (retry_on_connection_failure p) (max_retries p) b (retry_non_idempotent p).

(** [DefaultRetryPolicy::set_retry_non_idempotent], openwire/policy/defaults.rs:85-87. *)
Definition set_retry_non_idempotent (b : bool) (p : DefaultRetryPolicy) : DefaultRetryPolicy :=
  mkDefaultRetry (retry_on_connection_failure p) (max_retries p) (retry_canceled_requests p) b.

(** [DefaultRedirectPolicy], openwire/policy/defaults.rs:256-261. *)
Record DefaultRedirectPolicy : Type := mkDefaultRedirect {
  follow_redirects : bool;
  max_redirects : Z;
  allow_insecure_redirects : bool;
}.

(** [Default for DefaultRedirectPolicy], openwire/policy/defaults.rs:293-301. *)
Definition default_redirect_policy : DefaultRedirectPolicy := mkDefaultRedirect true 10 false.

(** [DefaultRedirectPolicy::set_follow_redirects], openwire/policy/defaults.rs:272-274. *)
Definition set_follow_redirects (b : bool) (p : DefaultRedirectPolicy) : DefaultRedirectPolicy :=
  mkDefaultRedirect b (max_redirects p) (allow_insecure_redirects p).

(** [DefaultRedirectPolicy::set_max_redirects], openwire/policy/defaults.rs:280-282. *)
Definition set_max_redirects (n : Z) (p : DefaultRedirectPolicy) : DefaultRedirectPolicy :=
  mkDefaultRedirect (follow_redirects p) n (allow_insecure_redirects p).

(** [DefaultRedirectPolicy::set_allow_insecure_redirects], openwire/policy/defaults.rs:288-290. *)
Definition set_allow_insecure_redirects (b : bool) (p : DefaultRedirectPolicy) : DefaultRedirectPolicy :=
  mkDefaultRedirect (follow_redirects p) (max_redirects p) b.

(** [is_redirect_status], openwire/policy/defaults.rs:334-345; follow_up.rs has the same function. *)
Definition is_redirect_status (status : Z) : bool :=
  existsb (Z.eqb status) [MOVED_PERMANENTLY; FOUND; SEE_OTHER; TEMPORARY_REDIRECT; PERMANENT_REDIRECT].

Section Defaults.
Context (is_idempotent : Method → bool) (uri_text : Uri → string).

Definition then_some (b : bool) (s : string) : option string := if b then Some s else None.

(** The first [match] of [should_retry], openwire/policy/defaults.rs:112-142: kind and phase. *)
Definition retry_by_phase (p : DefaultRetryPolicy) (e : WireError) : option string :=
  let rcf := retry_on_connection_failure p in
  match kind e, phase e with
  | Kind_Dns, Phase_Dns => then_some rcf "dns"
  | Kind_Connect, Phase_Tcp => then_some (rcf && negb (is_non_retryable_connect e)) "connect"
  | Kind_Connect, Phase_ProxyTunnel => then_some (rcf && is_retryable_establishment e) "connect"
  | Kind_Tls, Phase_Tls => then_some (rcf && is_retryable_establishment e) "tls"
  | Kind_Protocol, Phase_ProtocolBinding => then_some (rcf && is_retryable_establishment e) "connect"
  | Kind_Timeout, Phase_Tcp | Kind_Timeout, Phase_ProxyTunnel => then_some rcf "connect_timeout"
  | _, _ => None
  end.

(** The second match of [should_retry], openwire/policy/defaults.rs:144-168: [None] when the error names no stage. *)
Definition retry_by_stage (p : DefaultRetryPolicy) (e : WireError) : option (option string) :=
  let rcf := retry_on_connection_failure p in
  match establishment_stage e with
  | None => None
  | Some st => Some
    match st with
    | Stage_Dns => if is_retryable_establishment e then then_some rcf "dns" else None
    | Stage_Tcp => if is_connect_timeout e then then_some rcf "connect_timeout"
                   else if is_retryable_establishment e then then_some rcf "connect" else None
    | Stage_ProtocolBinding => if is_retryable_establishment e then then_some rcf "connect" else None
    | Stage_Tls => if is_retryable_establishment e then then_some rcf "tls" else None
    | Stage_RouteExhausted | Stage_ProxyTunnel =>
      if is_retryable_establishment e then then_some rcf "connect" else None
    end
  end.

(** The third match of [should_retry], openwire/policy/defaults.rs:170-185. *)
Definition retry_by_kind (p : DefaultRetryPolicy) (e : WireError) : option string :=
  let rcf := retry_on_connection_failure p in
  match kind e with
  | Kind_Canceled => then_some (retry_canceled_requests p) "canceled"
  | Kind_Dns => then_some rcf "dns"
  | Kind_Connect => then_some (rcf && negb (is_non_retryable_connect e)) "connect"
  | Kind_Tls => then_some rcf "tls"
  | Kind_Timeout => then_some (rcf && is_connect_timeout e) "connect_timeout"
  | _ => None
  end.

(** [DefaultRetryPolicy::should_retry], openwire/policy/defaults.rs:102-186. *)
Definition default_should_retry (p : DefaultRetryPolicy) (ctx : RetryContext) : option string :=
  if negb (rc_replayable ctx) || (max_retries p <=? rc_attempt ctx) then None else
  let e := rc_error ctx in
  if request_committed e && negb (is_idempotent (rc_method ctx)) then None else
  match retry_by_phase p e with
  | Some r => Some r
  | None =>
    match retry_by_stage p e with
    | Some r => r
    | None => retry_by_kind p e
    end
  end.

(** [DefaultRetryPolicy::should_retry_response], openwire/policy/defaults.rs:188-214. *)
Definition default_should_retry_response (p : DefaultRetryPolicy) (ctx : ResponseRetryContext) : option string :=
  if negb (rr_replayable ctx) || (max_retries p <=? rr_retry_count ctx) then None else
  if negb (is_idempotent (rr_method ctx)) && negb (retry_non_idempotent p) then None else
  if (rr_status ctx =? REQUEST_TIMEOUT) && retry_on_connection_failure p &&
     negb (bool_decide (rr_retry_after ctx = Some RetryAfter_Delayed) ||
           bool_decide (rr_retry_after ctx = Some RetryAfter_Invalid))
  then Some "http_408"%string
  else if (rr_status ctx =? SERVICE_UNAVAILABLE) && bool_decide (rr_retry_after ctx = Some RetryAfter_Immediate)
  then Some "http_503"%string
  else None.

(** [DefaultRedirectPolicy::should_redirect], openwire/policy/defaults.rs:304-331. *)
Definition default_should_redirect (p : DefaultRedirectPolicy) (ctx : RedirectContext) : RedirectDecision :=
  if negb (follow_redirects p) || negb (is_redirect_status (rd_status ctx)) then Redirect_Stop else
  if max_redirects p <=? rd_redirect_count ctx then
    Redirect_Error (with_response_status (rd_status ctx)
      (redirect ("too many redirects (max " +:+ pretty (max_redirects p) +:+ ")")%string))
  else if negb (allow_insecure_redirects p) &&
     bool_decide (uri_scheme_str (rd_request_uri ctx) = Some "https"%string) &&
     bool_decide (uri_scheme_str (rd_location ctx) = Some "http"%string) then
    Redirect_Error (with_response_status (rd_status ctx)
      (redirect ("refusing insecure redirect from " +:+ uri_text (rd_request_uri ctx) +:+
                 " to " +:+ uri_text (rd_location ctx))%string))
  else Redirect_Follow.

(** [RetryPolicyConfig], openwire/policy/defaults.rs:9-13. *)
Record RetryPolicyConfig : Type := mkRetryConfig {
  retry_default : DefaultRetryPolicy;
  retry_custom : option RetryPolicy;
}.

(** [RedirectPolicyConfig], openwire/policy/defaults.rs:217-221. *)
Record RedirectPolicyConfig : Type := mkRedirectConfig {
  redirect_default : DefaultRedirectPolicy;
  redirect_custom : option RedirectPolicy;
}.

(** [RetryPolicyConfig::set_custom], openwire/policy/defaults.rs:36-41. *)
Definition retry_set_custom (p : RetryPolicy) (c : RetryPolicyConfig) : RetryPolicyConfig :=
  mkRetryConfig (retry_default c) (Some p).

(** [RetryPolicyConfig::default_mut], openwire/policy/defaults.rs:31-34, with the change [f] made through
    the reference it returns. *)
Definition retry_default_mut (f : DefaultRetryPolicy → DefaultRetryPolicy) (c : RetryPolicyConfig)
    : RetryPolicyConfig := mkRetryConfig (f (retry_default c)) None.

(** [RedirectPolicyConfig::set_custom], openwire/policy/defaults.rs:248-253. *)
Definition redirect_set_custom (p : RedirectPolicy) (c : RedirectPolicyConfig) : RedirectPolicyConfig :=
  mkRedirectConfig (redirect_default c) (Some p).

(** [RedirectPolicyConfig::default_mut], openwire/policy/defaults.rs:243-246, with the change [f]. *)
Definition redirect_default_mut (f : DefaultRedirectPolicy → DefaultRedirectPolicy) (c : RedirectPolicyConfig)
    : RedirectPolicyConfig := mkRedirectConfig (f (redirect_default c)) None.

(** [RetryPolicyConfig::policy], openwire/policy/defaults.rs:24-29. *)
Definition retry_policy (c : RetryPolicyConfig) : RetryPolicy :=
  match retry_custom c with
  | Some p => p
  | None => mkRetryPolicy (default_should_retry (retry_default c)) (default_should_retry_response (retry_default c))
  end.

(** [RedirectPolicyConfig::policy], openwire/policy/defaults.rs:232-237. *)
Definition redirect_policy (c : RedirectPolicyConfig) : RedirectPolicy :=
  match redirect_custom c with
  | Some p => p
  | None => mkRedirectPolicy (default_should_redirect (redirect_default c))
  end.

(** ** What the default policies allow *)

Lemma default_should_retry_Some p ctx r :
  default_should_retry p ctx = Some r →
  rc_replayable ctx = true ∧ rc_attempt ctx < max_retries p ∧
  (request_committed (rc_error ctx) = true → is_idempotent (rc_method ctx) = true).
Proof.
  unfold default_should_retry. destruct (rc_replayable ctx); [|done].
  destruct (Z.leb_spec (max_retries p) (rc_attempt ctx)); [done|]. simpl.
  destruct (request_committed (rc_error ctx)), (is_idempotent (rc_method ctx)); done.
Qed.

Lemma default_should_retry_response_Some p ctx r :
  default_should_retry_response p ctx = Some r →
  rr_replayable ctx = true ∧ rr_retry_count ctx < max_retries p ∧
  (is_idempotent (rr_method ctx) = true ∨ retry_non_idempotent p = true) ∧
  (rr_status ctx = REQUEST_TIMEOUT ∨ rr_status ctx = SERVICE_UNAVAILABLE) ∧
  rr_retry_after ctx ≠ Some RetryAfter_Delayed ∧ rr_retry_after ctx ≠ Some RetryAfter_Invalid.
Proof.
  unfold default_should_retry_response. destruct (rr_replayable ctx); [|done].
  destruct (Z.leb_spec (max_retries p) (rr_retry_count ctx)); [done|]. simpl.
  destruct (negb (is_idempotent _) && _) eqn:Hidem; [done|]. intros Hr.
  split_and!; [done|done|by destruct (is_idempotent _), (retry_non_idempotent p); auto|..];
    destruct (_ && negb _) eqn:E1 in Hr; [|destruct (_ && bool_decide _) eqn:E2 in Hr; [|done]| |
      destruct (_ && bool_decide _) eqn:E2 in Hr; [|done]| |destruct (_ && bool_decide _) eqn:E2 in Hr; [|done]];
    rewrite ?andb_true_iff, ?negb_true_iff, ?orb_false_iff, ?bool_decide_eq_false, ?bool_decide_eq_true, ?Z.eqb_eq in *;
    naive_solver.
Qed.

Lemma default_should_redirect_Follow p ctx :
  default_should_redirect p ctx = Redirect_Follow ↔
  follow_redirects p = true ∧ is_redirect_status (rd_status ctx) = true ∧
  rd_redirect_count ctx < max_redirects p ∧
  (allow_insecure_redirects p = true ∨
   ¬ (uri_scheme_str (rd_request_uri ctx) = Some "https"%string ∧ uri_scheme_str (rd_location ctx) = Some "http"%string)).
Proof.
  unfold default_should_redirect. destruct (follow_redirects p); [|naive_solver].
  destruct (is_redirect_status _); [|naive_solver]. simpl.
  destruct (Z.leb_spec (max_redirects p) (rd_redirect_count ctx)); [naive_solver lia|].
  destruct (allow_insecure_redirects p); simpl; [naive_solver|].
  repeat case_bool_decide; simpl; naive_solver.
Qed.
End Defaults.
