(* ===== verification/Request.v ===== *)
(** * Requests and responses

    The request and response that pass through the interceptors, the policy loop and the transport,
    with the extensions they carry: the counters of openwire/src/trace.rs, the call options and the
    effective configuration of openwire/src/client.rs, the cached addresses and sticky proxy, and the
    marks of a WebSocket call. *)

From S2P Require Import Prelude Net Error Http Proxy Planning Scheduler ExchangeFinder Policy.

(** [PolicyTraceContext], openwire/trace.rs:1-6. *)
Record PolicyTraceContext : Type := mkTrace {
  retry_count : Z;
  redirect_count : Z;
  auth_count : Z;
}.

(** [RequestPriority::NORMAL], openwire/connection/scheduler.rs:33-39. *)
Definition NORMAL : RequestPriority := mkPriority 3.

(** [EffectiveRequestConfig], openwire/client.rs:151-162. *)
Record EffectiveRequestConfig : Type := mkEffective {
  ec_call_timeout : option Duration;
  ec_connect_timeout : option Duration;
  ec_follow_redirects : bool;
  ec_max_redirects : Z;
  ec_retry_on_connection_failure : bool;
  ec_max_retries : Z;
  ec_retry_canceled_requests : bool;
  ec_allow_insecure_redirects : bool;
  ec_priority : RequestPriority;
}.

(** [CallOptions], openwire/client.rs:138-149. *)
Record CallOptions : Type := mkCallOptions {
  co_call_timeout : option Duration;
  co_connect_timeout : option Duration;
  co_follow_redirects : option bool;
  co_max_redirects : option Z;
  co_retry_on_connection_failure : option bool;
  co_max_retries : option Z;
  co_retry_canceled_requests : option bool;
  co_allow_insecure_redirects : option bool;
  co_priority : option RequestPriority;
}.

(** [CallOptions::default], which is also [CallOptions::new]. *)
Definition default_call_options : CallOptions := mkCallOptions None None None None None None None None None.

(** [CallOptions::has_retry_overrides], openwire/client.rs:1298-1302. *)
Definition has_retry_overrides (o : CallOptions) : bool :=
  is_some (co_retry_on_connection_failure o) || is_some (co_max_retries o) ||
  is_some (co_retry_canceled_requests o).

(** [CallOptions::has_redirect_overrides], openwire/client.rs:1304-1308. *)
Definition has_redirect_overrides (o : CallOptions) : bool :=
  is_some (co_follow_redirects o) || is_some (co_max_redirects o) || is_some (co_allow_insecure_redirects o).

(** [CallOptions::apply], openwire/client.rs:1310-1326. *)
Definition apply (self other : CallOptions) : CallOptions :=
  mkCallOptions
    (option_or (co_call_timeout other) (co_call_timeout self))
    (option_or (co_connect_timeout other) (co_connect_timeout self))
    (option_or (co_follow_redirects other) (co_follow_redirects self))
    (option_or (co_max_redirects other) (co_max_redirects self))
    (option_or (co_retry_on_connection_failure other) (co_retry_on_connection_failure self))
    (option_or (co_max_retries other) (co_max_retries self))
    (option_or (co_retry_canceled_requests other) (co_retry_canceled_requests self))
    (option_or (co_allow_insecure_redirects other) (co_allow_insecure_redirects self))
    (option_or (co_priority other) (co_priority self)).

(** [EffectiveRequestConfig::from_defaults], openwire/client.rs:1330-1348. *)
Definition from_defaults (call_timeout connect_timeout : option Duration) (retry : RetryPolicyConfig)
    (redirect : RedirectPolicyConfig) : EffectiveRequestConfig :=
  let r := retry_default retry in
  let d := redirect_default redirect in
  mkEffective call_timeout connect_timeout (follow_redirects d) (max_redirects d)
    (retry_on_connection_failure r) (max_retries r) (retry_canceled_requests r)
    (allow_insecure_redirects d) NORMAL.

(** [EffectiveRequestConfig::with_overrides], openwire/client.rs:1350-1368. *)
Definition with_overrides (self : EffectiveRequestConfig) (o : CallOptions) : EffectiveRequestConfig :=
  mkEffective
    (option_or (co_call_timeout o) (ec_call_timeout self))
    (option_or (co_connect_timeout o) (ec_connect_timeout self))
    (default (ec_follow_redirects self) (co_follow_redirects o))
    (default (ec_max_redirects self) (co_max_redirects o))
    (default (ec_retry_on_connection_failure self) (co_retry_on_connection_failure o))
    (default (ec_max_retries self) (co_max_retries o))
    (default (ec_retry_canceled_requests self) (co_retry_canceled_requests o))
    (default (ec_allow_insecure_redirects self) (co_allow_insecure_redirects o))
    (default (ec_priority self) (co_priority o)).

(** [WebSocketRequestMarker], openwire/websocket/handshake.rs:19-22. *)
Record WebSocketRequestMarker : Type := mkMarker {
  subprotocols : list string;
  expected_accept : string;
}.

(** [TlsAlpnPreference], openwire-core/transport.rs:149-153. *)
Inductive TlsAlpnPreference : Type := Alpn_Auto | Alpn_Http1Only.

(** [RoutePreference], openwire/connection/planning.rs:73-77. *)
Inductive RoutePreference : Type := RoutePreference_Any | RoutePreference_Http1Only.

(** The request extensions the modelled code reads or writes, one field per type. *)
Record Extensions : Type := mkExtensions {
  ext_config : option EffectiveRequestConfig;
  ext_options : option CallOptions;
  ext_trace : option PolicyTraceContext;
  ext_cached_addresses : option (list ResolvedAddress);
  ext_selected_proxy : option SelectedProxy;
  ext_dispatcher_queued : bool;
  ext_no_coalesced : bool;
  ext_websocket : option WebSocketRequestMarker;
  ext_alpn : option TlsAlpnPreference;
  ext_route : option RoutePreference;
}.

(** [Extensions::new]. *)
Definition no_extensions : Extensions := mkExtensions None None None None None false false None None None.

Record Request (H : Type) : Type := mkRequest {
  req_method : Method;
  req_uri : Uri;
  req_version : string;
  req_headers : H;
  req_extensions : Extensions;
  req_body : RequestBody;
}.
Arguments mkRequest {H} _ _ _ _ _ _.
Arguments req_method {H} _.
Arguments req_uri {H} _.
Arguments req_version {H} _.
Arguments req_headers {H} _.
Arguments req_extensions {H} _.
Arguments req_body {H} _.

(** The same request with other headers. *)
Definition with_headers {H} (h : H) (r : Request H) : Request H :=
  mkRequest (req_method r) (req_uri r) (req_version r) h (req_extensions r) (req_body r).

(** A response: [res_body] is what reading its body to the end gives. *)
Record Response (H : Type) : Type := mkResponse {
  res_status : Z;
  res_version : string;
  res_headers : H;
  res_body : outcome WireError bytes;
  res_selected_proxy : option SelectedProxy;
  res_coalesced_retryable : bool;
}.
Arguments mkResponse {H} _ _ _ _ _ _.
Arguments res_version {H} _.
Arguments res_body {H} _.
Arguments res_status {H} _.
Arguments res_headers {H} _.
Arguments res_selected_proxy {H} _.
Arguments res_coalesced_retryable {H} _.

