(* ===== verification/FollowUp.v ===== *)
(** * The follow-up loop

    openwire/src/policy/follow_up.rs: one call's sequence of network attempts - authentication,
    retries and redirects - and how the next request is rebuilt from the last.

    Outside code is passed in: the header map of the http crate through the class [HeaderMap] with its
    laws, URL parsing and joining, the HTTP-date parser, the cookie jar, the authenticators and the
    network service, which answers attempt [n] with [network n].  Event listeners and tracing are left
    out; draining an intermediate body is a function of its own, as the loop discards its result. *)

From S2P Require Import Prelude Net Error Http Proxy Planning Scheduler ExchangeFinder Policy Request.

(** [OriginKey], openwire/policy/follow_up.rs:793-798. *)
Record OriginKey : Type := mkOrigin { origin_scheme : string; origin_host : string; origin_port : Z }.

#[global] Instance OriginKey_eq_dec : EqDecision OriginKey.
Proof. solve_decision. Defined.

(** [OriginKey::from_uri], openwire/policy/follow_up.rs:801-830. *)
Definition origin_from_uri (uri : Uri) : outcome WireError OriginKey :=
  let? s :=
    match uri_scheme_str uri with
    | Some s => if bool_decide (s = "http"%string) then Ok "http"%string
                else if bool_decide (s = "https"%string) then Ok "https"%string
                else Err (invalid_request ("request URI scheme must be http or https, found " +:+ s)%string)
    | None => Err (invalid_request "request URI is missing a scheme")
    end in
  let? h := match uri_host uri with
            | Some h => Ok (to_ascii_lowercase h)
            | None => Err (invalid_request "request URI is missing a host")
            end in
  let? p := match uri_port_u16 uri with
            | Some p => Ok p
            | None => if bool_decide (s = "http"%string) then Ok 80
                      else if bool_decide (s = "https"%string) then Ok 443
                      else Err (invalid_request ("unsupported scheme for origin comparison: " +:+ s)%string)
            end in
  Ok (mkOrigin s h p).

(** [same_origin], openwire/policy/follow_up.rs:833-835. *)
Definition same_origin (left right : Uri) : outcome WireError bool :=
  let? l := origin_from_uri left in
  let? r := origin_from_uri right in
  Ok (bool_decide (l = r)).

(** [validate_request_uri], openwire/policy/follow_up.rs:742-767. *)
Definition validate_request_uri (uri : Uri) : outcome WireError unit :=
  let? s := match uri_scheme_str uri with
            | Some s => Ok s
            | None => Err (invalid_request "request URI is missing a scheme")
            end in
  if negb (bool_decide (s = "http"%string) || bool_decide (s = "https"%string))
  then Err (invalid_request "request URI scheme must be http or https") else
  let? a := match uri_authority uri with
            | Some a => Ok a
            | None => Err (invalid_request "request URI is missing an authority")
            end in
  if contains_char "@"%char a
  then Err (invalid_request "request URI authority must not include userinfo") else
  match uri_host uri with
  | None => Err (invalid_request "request URI is missing a host")
  | Some _ => Ok tt
  end.

(** [reset_network_attempt_extensions], openwire/policy/follow_up.rs:726-736. *)
Definition reset_network_attempt_extensions (e : Extensions) (proxy : option SelectedProxy) : Extensions :=
  mkExtensions (ext_config e) (ext_options e) (ext_trace e) None proxy false (ext_no_coalesced e)
    (ext_websocket e) (ext_alpn e) (ext_route e).

Definition insert_trace (t : PolicyTraceContext) (e : Extensions) : Extensions :=
  mkExtensions (ext_config e) (ext_options e) (Some t) (ext_cached_addresses e) (ext_selected_proxy e)
    (ext_dispatcher_queued e) (ext_no_coalesced e) (ext_websocket e) (ext_alpn e) (ext_route e).

Definition insert_no_coalesced (e : Extensions) : Extensions :=
  mkExtensions (ext_config e) (ext_options e) (ext_trace e) (ext_cached_addresses e) (ext_selected_proxy e)
    (ext_dispatcher_queued e) true (ext_websocket e) (ext_alpn e) (ext_route e).

(** [EXTRA_SENSITIVE] and the two standard names, openwire/policy/follow_up.rs:843-851, in the order
    they are removed. *)
Definition SENSITIVE_HEADERS : list string :=
  ["authorization"; "cookie"; "x-api-key"; "x-auth-token"; "x-csrf-token"; "x-access-token";
   "x-session-token"]%string.

(** The body headers a switch to GET removes, openwire/policy/follow_up.rs:697-703. *)
Definition BODY_HEADERS : list string :=
  ["content-length"; "content-type"; "content-encoding"; "transfer-encoding"; "expect"]%string.

(** [INTERMEDIATE_BODY_DRAIN_LIMIT], openwire/policy/follow_up.rs:495-495. *)
Definition INTERMEDIATE_BODY_DRAIN_LIMIT : Z := 256 * 1024.

(** What polling a body yields: data, a trailer frame or an error. *)
Inductive BodyFrame : Type := Frame_Data (bs : bytes) | Frame_Trailers | Frame_Error (e : WireError).

(** [drain_intermediate_response], openwire/policy/follow_up.rs:497-513, after [read] bytes: its result
    and the frames it leaves unread. *)
Fixpoint drain_intermediate_response (read : Z) (frames : list BodyFrame)
    : outcome WireError unit * list BodyFrame :=
  match frames with
  | [] => (Ok tt, [])
  | Frame_Error e :: frames => (Err e, frames)
  | Frame_Trailers :: frames => drain_intermediate_response read frames
  | Frame_Data bs :: frames =>
    let read := Z.min U64_MAX (read + len bs) in
    if INTERMEDIATE_BODY_DRAIN_LIMIT <? read then (Ok tt, frames)
    else drain_intermediate_response read frames
  end.

Definition frame_len (f : BodyFrame) : Z := match f with Frame_Data bs => len bs | _ => 0 end.

(** Draining reads no further once the limit is passed: what was consumed, less its last frame, is within
    the limit. *)
Lemma drain_bounded read frames :
  0 ≤ read ≤ INTERMEDIATE_BODY_DRAIN_LIMIT →
  ∃ consumed, frames = consumed ++ (drain_intermediate_response read frames).2 ∧
    read + foldr Z.add 0 (frame_len <$> removelast consumed) ≤ INTERMEDIATE_BODY_DRAIN_LIMIT.
Proof.
  revert read. induction frames as [|f frames IH]; intros read Hr; [exists []; simpl; split; [done|lia]|].
  assert (Hnext : ∀ read', 0 ≤ read' ≤ INTERMEDIATE_BODY_DRAIN_LIMIT → read + frame_len f ≤ read' →
            ∃ consumed, f :: frames = consumed ++ (drain_intermediate_response read' frames).2 ∧
              read + foldr Z.add 0 (frame_len <$> removelast consumed) ≤ INTERMEDIATE_BODY_DRAIN_LIMIT).
  { intros read' Hr' Hle. destruct (IH read' Hr') as (l & Hl & Hs). exists (f :: l).
    split; [by rewrite <- app_comm_cons, <- Hl|]. destruct l; cbn -[Z.add] in *; lia. }
  destruct f as [bs| |e]; cbn [drain_intermediate_response].
  - pose proof (len_nonneg bs). destruct (Z.ltb_spec INTERMEDIATE_BODY_DRAIN_LIMIT (Z.min U64_MAX (read + len bs))).
    + exists [Frame_Data bs]. simpl. split; [done|lia].
    + apply Hnext; unfold INTERMEDIATE_BODY_DRAIN_LIMIT, U64_MAX in *; simpl; lia.
  - apply Hnext; simpl; lia.
  - exists [Frame_Error e]. simpl. split; [done|lia].
Qed.

(** [SnapshotCaptureMode], openwire/policy/follow_up.rs:536-542. *)
Inductive SnapshotCaptureMode : Type := Capture_Light | Capture_Rebuildable.

(** [AuthKind], openwire-core/auth.rs. *)
Inductive AuthKind : Type := Auth_Origin | Auth_Proxy.

(** ** Origins *)

Lemma validate_request_uri_Ok uri u :
  validate_request_uri uri = Ok u →
  (uri_scheme_str uri = Some "http"%string ∨ uri_scheme_str uri = Some "https"%string) ∧
  is_Some (uri_host uri).
Proof.
  unfold validate_request_uri. destruct (uri_scheme_str uri) as [s|]; cbn [obind]; [|done].
  destruct (negb _) eqn:Hs; [done|]. destruct (uri_authority uri); cbn [obind]; [|done].
  case_match; [done|]. destruct (uri_host uri); [|done]. intros _.
  rewrite negb_false_iff, orb_true_iff, !bool_decide_eq_true in Hs. naive_solver.
Qed.

Lemma origin_from_uri_valid uri u :
  validate_request_uri uri = Ok u → ∃ o, origin_from_uri uri = Ok o.
Proof.
  intros [[Hs|Hs] [h Hh]]%validate_request_uri_Ok; unfold origin_from_uri; rewrite Hs, Hh;
    destruct (uri_port_u16 uri); eexists; reflexivity.
Qed.

Lemma same_origin_valid a b u v :
  validate_request_uri a = Ok u → validate_request_uri b = Ok v → ∃ same, same_origin a b = Ok same.
Proof.
  intros [x Hx]%origin_from_uri_valid [y Hy]%origin_from_uri_valid.
  unfold same_origin. rewrite Hx, Hy. eexists. reflexivity.
Qed.

Lemma same_origin_true a b :
  same_origin a b = Ok true ↔ ∃ o, origin_from_uri a = Ok o ∧ origin_from_uri b = Ok o.
Proof.
  unfold same_origin. destruct (origin_from_uri a) as [x| |], (origin_from_uri b) as [y| |]; simpl;
    try (split; [done|intros (? & ? & ?); congruence]).
  split; [intros [= ->%bool_decide_eq_true]; eauto|intros (o & [= ->] & [= ->]); by rewrite bool_decide_true].
Qed.

Lemma same_origin_trans a b c :
  same_origin a b = Ok true → same_origin b c = Ok true → same_origin a c = Ok true.
Proof. rewrite !same_origin_true. intros (o & Ha & Hb) (o' & Hb' & Hc). exists o. split; congruence. Qed.

Section FollowUp.
#[local] Set Default Proof Using "Type*".
Context {H J U : Type} `{HeaderMapLaws H}.

(** The http and url crates: idempotent methods, the text of a URI, visible header text, [Url::parse] of
    a URI's text, [Url::join], [Url] to [Uri] (an error is its text), HTTP dates. *)
Context (is_idempotent : Method → bool) (uri_text : Uri → string) (to_str : string → option string)
        (url_parse : string → string + U) (url_join : U → string → string + U) (url_to_uri : U → string + Uri)
        (parse_http_date : string → option Z).

(** The cookie jar's methods, on a state [J]. *)
Context (jar_cookies : J → U → option string) (jar_set_cookies : list string → U → J → J).

(** [AuthAttemptState], openwire/auth.rs:8-14. *)
Record AuthAttemptState : Type := mkAttempts {
  at_total_attempt : Z;
  at_retry_count : Z;
  at_redirect_count : Z;
  at_auth_count : Z;
}.

(** [AuthContext], openwire-core/auth.rs:92-106. *)
Record AuthContext : Type := mkAuthContext {
  ac_kind : AuthKind;
  ac_request_method : Method;
  ac_request_uri : Uri;
  ac_request_version : string;
  ac_request_headers : H;
  ac_request_extensions : Extensions;
  ac_request_body : option RequestBody;
  ac_response_status : Z;
  ac_response_headers : H;
  ac_total_attempt : Z;
  ac_retry_count : Z;
  ac_redirect_count : Z;
  ac_auth_count : Z;
}.

(** [Authenticator], openwire-core/auth.rs:9-14: the call's answer, an error or perhaps a request. *)
Record Authenticator : Type := mkAuthenticator {
  authenticate : AuthContext → WireError + option (Request H);
}.

(** [AuthPolicyConfig], openwire/policy/follow_up.rs:37-42. *)
Record AuthPolicyConfig : Type := mkAuthConfig {
  authenticator : option Authenticator;
  proxy_authenticator : option Authenticator;
  max_auth_attempts : Z;
}.

(** [PolicyConfig], openwire/policy/follow_up.rs:29-35.  The jar is shared and mutable, so its state is
    threaded through the loop. *)
Record PolicyConfig : Type := mkPolicyConfig {
  cfg_auth : AuthPolicyConfig;
  cfg_retry : RetryPolicyConfig;
  cfg_redirect : RedirectPolicyConfig;
}.

(** [apply_request_overrides], openwire/policy/follow_up.rs:338-362. *)
Definition apply_request_overrides (c : PolicyConfig) (rc : option EffectiveRequestConfig) (o : CallOptions)
    : PolicyConfig :=
  match rc with
  | None => c
  | Some r =>
    let retry :=
      if has_retry_overrides o && negb (is_some (retry_custom (cfg_retry c))) then
        retry_default_mut (λ p,
          set_retry_canceled_requests (ec_retry_canceled_requests r)
            (set_max_retries (ec_max_retries r)
              (set_retry_on_connection_failure (ec_retry_on_connection_failure r) p))) (cfg_retry c)
      else cfg_retry c in
    let redirect :=
      if has_redirect_overrides o && negb (is_some (redirect_custom (cfg_redirect c))) then
        redirect_default_mut (λ p,
          set_allow_insecure_redirects (ec_allow_insecure_redirects r)
            (set_max_redirects (ec_max_redirects r) (set_follow_redirects (ec_follow_redirects r) p)))
          (cfg_redirect c)
      else cfg_redirect c in
    mkPolicyConfig (cfg_auth c) retry redirect
  end.

(** [request_url], openwire/policy/follow_up.rs:574-578. *)
Definition request_url (uri : Uri) : outcome WireError U :=
  match url_parse (uri_text uri) with
  | inr u => Ok u
  | inl e => Err (invalid_request ("request URI is not a valid URL: " +:+ e)%string)
  end.

(** [apply_request_cookies], openwire/policy/follow_up.rs:364-381. *)
Definition apply_request_cookies (r : Request H) (jar : option J) : outcome WireError (Request H) :=
  match jar with
  | None => Ok r
  | Some j =>
    if negb (bool_decide (hm_get_all "cookie" (req_headers r) = [])) then Ok r else
    let? url := request_url (req_uri r) in
    Ok match jar_cookies j url with
       | Some v => mkRequest (req_method r) (req_uri r) (req_version r) (hm_insert "cookie" v (req_headers r))
                     (req_extensions r) (req_body r)
       | None => r
       end
  end.

(** [store_response_cookies], openwire/policy/follow_up.rs:515-533: the jar afterwards. *)
Definition store_response_cookies (response : Response H) (uri : Uri) (jar : option J)
    : outcome WireError (option J) :=
  match jar with
  | None => Ok None
  | Some j =>
    let cookies := hm_get_all "set-cookie" (res_headers response) in
    if bool_decide (cookies = []) then Ok (Some j) else
    let? url := request_url uri in
    Ok (Some (jar_set_cookies cookies url j))
  end.

(** [RequestSnapshot], openwire/policy/follow_up.rs:563-572. *)
Record RequestSnapshot : Type := mkSnapshot {
  snap_method : Method;
  snap_uri : Uri;
  snap_version : string;
  snap_headers : option H;
  snap_extensions : option Extensions;
  snap_body : option RequestBody;
}.

(** [SnapshotCaptureMode::for_policy], openwire/policy/follow_up.rs:545-560. *)
Definition for_policy (c : PolicyConfig) : SnapshotCaptureMode :=
  let may_redirect := match redirect_custom (cfg_redirect c) with
                      | None => follow_redirects (redirect_default (cfg_redirect c))
                      | Some _ => true
                      end in
  let may_retry := (0 <? max_retries (retry_default (cfg_retry c))) || is_some (retry_custom (cfg_retry c)) in
  let may_auth := is_some (authenticator (cfg_auth c)) || is_some (proxy_authenticator (cfg_auth c)) in
  if may_redirect || may_retry || may_auth then Capture_Rebuildable else Capture_Light.

(** [RequestSnapshot::capture], openwire/policy/follow_up.rs:581-597. *)
Definition capture (r : Request H) (mode : SnapshotCaptureMode) : RequestSnapshot :=
  let '(h, e) := match mode with
                 | Capture_Light => (None, None)
                 | Capture_Rebuildable => (Some (req_headers r), Some (req_extensions r))
                 end in
  mkSnapshot (req_method r) (req_uri r) (req_version r) h e (try_clone (req_body r)).

(** [RequestSnapshot::is_replayable], openwire/policy/follow_up.rs:599-601. *)
Definition is_replayable (s : RequestSnapshot) : bool := is_some (snap_body s).

(** [RequestSnapshot::headers], openwire/policy/follow_up.rs:603-610. *)
Definition snapshot_headers (s : RequestSnapshot) : outcome WireError H :=
  match snap_headers s with
  | Some h => Ok h
  | None => Err (internal "request snapshot is missing headers for follow-up rebuild"
                          "light snapshot used for rebuild")
  end.

(** [RequestSnapshot::extensions], openwire/policy/follow_up.rs:612-619. *)
Definition snapshot_extensions (s : RequestSnapshot) : outcome WireError Extensions :=
  match snap_extensions s with
  | Some e => Ok e
  | None => Err (internal "request snapshot is missing extensions for follow-up rebuild"
                          "light snapshot used for rebuild")
  end.

(** [RequestSnapshot::to_retry_request], openwire/policy/follow_up.rs:621-646. *)
Definition to_retry_request (s : RequestSnapshot) (t : PolicyTraceContext) : outcome WireError (Request H) :=
  let? body := match snap_body s ≫= try_clone with
               | Some b => Ok b
               | None => Err (internal "captured replayable body is no longer cloneable"
                                       "body clone failed on retry")
               end in
  let? h := snapshot_headers s in
  let? e := snapshot_extensions s in
  Ok (mkRequest (snap_method s) (snap_uri s) (snap_version s) h
        (insert_trace t (reset_network_attempt_extensions e (ext_selected_proxy e))) body).

(** [strip_sensitive_cross_origin_headers], openwire/policy/follow_up.rs:842-857. *)
Definition strip_sensitive_cross_origin_headers (h : H) : H :=
  foldl (λ h name, hm_remove name h) h SENSITIVE_HEADERS.

(** [should_switch_to_get] of [into_redirect_request], openwire/policy/follow_up.rs:656-660. *)
Definition should_switch_to_get (status : Z) (m : Method) : bool :=
  existsb (Z.eqb status) [MOVED_PERMANENTLY; FOUND; SEE_OTHER] &&
  negb (bool_decide (m = Method_GET)) && negb (bool_decide (m = Method_HEAD)).

(** [preserve_body] of [into_redirect_request], openwire/policy/follow_up.rs:662-665. *)
Definition preserve_body (status : Z) : bool := existsb (Z.eqb status) [TEMPORARY_REDIRECT; PERMANENT_REDIRECT].

(** [RequestSnapshot::into_redirect_request], openwire/policy/follow_up.rs:648-723. *)
Definition into_redirect_request (s : RequestSnapshot) (status : Z) (next_uri : Uri) (t : PolicyTraceContext)
    (proxy : option SelectedProxy) : outcome WireError (option (Request H)) :=
  let? same := same_origin (snap_uri s) next_uri in
  let switch := should_switch_to_get status (snap_method s) in
  let preserve := preserve_body status in
  if preserve && negb (is_some (snap_body s)) then Ok None else
  let body := if preserve then default Body_Absent (snap_body s)
              else if switch then Body_Absent
              else default Body_Absent (snap_body s) in
  let method := if preserve then snap_method s else if switch then Method_GET else snap_method s in
  let? headers := match snap_headers s with
                  | Some h => Ok h
                  | None => Err (internal "request snapshot is missing headers for redirect rebuild"
                                          "light snapshot used for rebuild")
                  end in
  let headers := hm_remove "host" headers in
  let headers := if same then headers else strip_sensitive_cross_origin_headers headers in
  let headers := if switch then foldl (λ h name, hm_remove name h) headers BODY_HEADERS else headers in
  let? e := match snap_extensions s with
            | Some e => Ok e
            | None => Err (internal "request snapshot is missing extensions for redirect rebuild"
                                    "light snapshot used for rebuild")
            end in
  Ok (Some (mkRequest method next_uri (snap_version s) headers
              (insert_trace t (reset_network_attempt_extensions e proxy)) body)).

(** [resolve_redirect_uri], openwire/policy/follow_up.rs:781-791. *)
Definition resolve_redirect_uri (base : Uri) (location : string) : outcome WireError Uri :=
  let? b := match url_parse (uri_text base) with
            | inr b => Ok b
            | inl e => Err (redirect ("invalid base URL for redirect: " +:+ e)%string)
            end in
  let? j := match url_join b location with
            | inr j => Ok j
            | inl e => Err (redirect ("invalid redirect URL: " +:+ e)%string)
            end in
  match url_to_uri j with
  | inr u => Ok u
  | inl e => Err (redirect ("failed to parse redirect URI: " +:+ e)%string)
  end.

(** [authenticate_response], openwire/policy/follow_up.rs:383-436. *)
Definition authenticate_response (s : RequestSnapshot) (response : Response H) (a : AuthAttemptState)
    (proxy : option SelectedProxy) (c : AuthPolicyConfig) : outcome WireError (option (Request H * Z)) :=
  let status := res_status response in
  let '(kind, auth) :=
    if status =? UNAUTHORIZED then (Auth_Origin, authenticator c)
    else if (status =? PROXY_AUTHENTICATION_REQUIRED) && is_some proxy then (Auth_Proxy, proxy_authenticator c)
    else (Auth_Origin, None) in
  match auth with
  | None => Ok None
  | Some auth =>
    if (max_auth_attempts c <=? at_auth_count a) || negb (is_replayable s) then Ok None else
    let? h := snapshot_headers s in
    let? e := snapshot_extensions s in
    match authenticate auth
            (mkAuthContext kind (snap_method s) (snap_uri s) (snap_version s) h e (snap_body s ≫= try_clone)
               status (res_headers response) (at_total_attempt a) (at_retry_count a) (at_redirect_count a)
               (at_auth_count a)) with
    | inl err => Err (with_response_status status err)
    | inr None => Ok None
    | inr (Some r) =>
      let n := u32_wrapping_add (at_auth_count a) 1 in
      let e := insert_trace (mkTrace (at_retry_count a) (at_redirect_count a) n)
                 (reset_network_attempt_extensions (req_extensions r) proxy) in
      Ok (Some (mkRequest (req_method r) (req_uri r) (req_version r) (req_headers r) e (req_body r), n))
    end
  end.

(** [retry_after], openwire/policy/follow_up.rs:455-478, at time [now]. *)
Definition retry_after (now : Z) (response : Response H) : option RetryAfter :=
  match hm_get_all "retry-after" (res_headers response) with
  | [] => None
  | [v] =>
    match to_str v with
    | None => Some RetryAfter_Invalid
    | Some text =>
      match parse_uint U64_MAX text with
      | Some seconds => Some (if seconds =? 0 then RetryAfter_Immediate else RetryAfter_Delayed)
      | None =>
        match parse_http_date text with
        | Some instant => Some (if instant <=? now then RetryAfter_Immediate else RetryAfter_Delayed)
        | None => Some RetryAfter_Invalid
        end
      end
    end
  | _ :: _ :: _ => Some RetryAfter_Invalid
  end.

(** [retry_response_reason], openwire/policy/follow_up.rs:438-453. *)
Definition retry_response_reason (now : Z) (s : RequestSnapshot) (response : Response H) (retries : Z)
    (c : RetryPolicyConfig) : option string :=
  should_retry_response (retry_policy is_idempotent c)
    (mkResponseRetryContext (res_status response) retries (is_replayable s) (snap_method s)
       (retry_after now response)).

(** [should_retry_misdirected_request], openwire/policy/follow_up.rs:480-493. *)
Definition should_retry_misdirected_request (s : RequestSnapshot) (response : Response H) (retry_count max : Z)
    : bool :=
  (res_status response =? MISDIRECTED_REQUEST) && is_replayable s && (retry_count <? as_u32 max) &&
  res_coalesced_retryable response.

(** The mutable variables of [FollowUpPolicyService::call], openwire/policy/follow_up.rs:70-89. *)
Record LoopState : Type := mkLoop {
  lp_request : Request H;
  lp_attempt : Z;
  lp_retries : Z;
  lp_redirects : Z;
  lp_auths : Z;
  lp_first : bool;
  lp_jar : option J;
}.

Definition loop_trace (st : LoopState) : PolicyTraceContext :=
  mkTrace (lp_retries st) (lp_redirects st) (lp_auths st).

Definition with_request_extensions (r : Request H) (e : Extensions) : Request H :=
  mkRequest (req_method r) (req_uri r) (req_version r) (req_headers r) e (req_body r).

(** The top of the loop, openwire/policy/follow_up.rs:92-100: the snapshot and the request to send. *)
Definition prepare (c : PolicyConfig) (st : LoopState) : outcome WireError (RequestSnapshot * Request H) :=
  let r := lp_request st in
  let? _ := validate_request_uri (req_uri r) in
  let r := with_request_extensions r (insert_trace (loop_trace st) (req_extensions r)) in
  let s := capture r (for_policy c) in
  let? r := apply_request_cookies r (lp_jar st) in
  Ok (s, r).

(** What one iteration does next: return a response, or go round with new variables. *)
Inductive Next : Type := Return (response : Response H) | Again (st : LoopState).

Definition again (st : LoopState) (r : Request H) (retries redirects auths : Z) : Next :=
  Again (mkLoop r (u32_wrapping_add (lp_attempt st) 1) retries redirects auths false (lp_jar st)).

(** The redirect arm, openwire/policy/follow_up.rs:222-291. *)
Definition on_redirect (c : PolicyConfig) (st : LoopState) (s : RequestSnapshot) (response : Response H)
    : outcome WireError Next :=
  let status := res_status response in
  if negb (is_some (redirect_custom (cfg_redirect c))) && negb (follow_redirects (redirect_default (cfg_redirect c)))
  then Ok (Return response) else
  if negb (is_redirect_status status) then Ok (Return response) else
  match head (hm_get_all "location" (res_headers response)) ≫= to_str with
  | None => Ok (Return response)
  | Some location =>
    let? next_uri := resolve_redirect_uri (snap_uri s) location in
    let? _ := validate_request_uri next_uri in
    match should_redirect (redirect_policy uri_text (cfg_redirect c))
            (mkRedirectContext (snap_method s) (snap_uri s) status next_uri (lp_redirects st) (is_replayable s)) with
    | Redirect_Stop => Ok (Return response)
    | Redirect_Error e => Err e
    | Redirect_Follow =>
      let n := u32_wrapping_add (lp_redirects st) 1 in
      let? r := into_redirect_request s status next_uri (mkTrace (lp_retries st) n (lp_auths st))
                  (res_selected_proxy response) in
      Ok match r with
         | None => Return response
         | Some r => again st r (lp_retries st) n (lp_auths st)
         end
    end
  end.

(** The [Ok] arm of the loop, openwire/policy/follow_up.rs:114-292, after the cookies are stored. *)
Definition on_response (c : PolicyConfig) (rc : option EffectiveRequestConfig) (now : Z) (st : LoopState)
    (s : RequestSnapshot) (response : Response H) : outcome WireError Next :=
  let retried := u32_wrapping_add (lp_retries st) 1 in
  let trace := mkTrace retried (lp_redirects st) (lp_auths st) in
  let? auth := authenticate_response s response
                 (mkAttempts (lp_attempt st) (lp_retries st) (lp_redirects st) (lp_auths st))
                 (res_selected_proxy response) (cfg_auth c) in
  match auth with
  | Some (r, auths) => Ok (again st r (lp_retries st) (lp_redirects st) auths)
  | None =>
    let max := match rc with Some r => ec_max_retries r | None => max_retries (retry_default (cfg_retry c)) end in
    if should_retry_misdirected_request s response (lp_retries st) max then
      let? r := to_retry_request s trace in
      Ok (again st (with_request_extensions r (insert_no_coalesced (req_extensions r)))
            retried (lp_redirects st) (lp_auths st))
    else match retry_response_reason now s response (lp_retries st) (cfg_retry c) with
    | Some _ =>
      let? r := to_retry_request s trace in
      Ok (again st r retried (lp_redirects st) (lp_auths st))
    | None => on_redirect c st s response
    end
  end.

(** The [Err] arm of the loop, openwire/policy/follow_up.rs:293-323. *)
Definition on_error (c : PolicyConfig) (st : LoopState) (s : RequestSnapshot) (e : WireError)
    : outcome WireError Next :=
  match should_retry (retry_policy is_idempotent (cfg_retry c))
          (mkRetryContext e (lp_retries st) (is_replayable s) (snap_method s)) with
  | None => Err e
  | Some _ =>
    let retried := u32_wrapping_add (lp_retries st) 1 in
    let? r := to_retry_request s (mkTrace retried (lp_redirects st) (lp_auths st)) in
    Ok (again st r retried (lp_redirects st) (lp_auths st))
  end.

(** The network below the loop: for iteration [i], whether it becomes ready, its answer and the time at
    which the answer is looked at. *)
Record Network : Type := mkNetwork {
  net_ready : nat → option string;
  net_call : nat → Request H → WireError + Response H;
  net_now : nat → Z;
}.

(** One iteration of the loop, openwire/policy/follow_up.rs:91-325: the request sent, if any, and what is next. *)
Definition iterate (n : Network) (c : PolicyConfig) (rc : option EffectiveRequestConfig) (i : nat) (st : LoopState)
    : option (Request H) * outcome WireError Next :=
  match prepare c st with
  | Panic => (None, Panic)
  | Err e => (None, Err e)
  | Ok (s, r) =>
    match (if lp_first st then None else net_ready n i) with
    | Some e => (None, Err (internal "network chain not ready" e))
    | None =>
      (Some r,
       match net_call n i r with
       | inl e => on_error c st s e
       | inr response =>
         let? jar := store_response_cookies response (snap_uri s) (lp_jar st) in
         on_response c rc (net_now n i)
           (mkLoop (lp_request st) (lp_attempt st) (lp_retries st) (lp_redirects st) (lp_auths st) false jar)
           s response
       end)
    end
  end.

(** The loop from iteration [i] on: the requests sent and the call's result, [None] when [fuel] runs out. *)
Fixpoint run (fuel : nat) (n : Network) (c : PolicyConfig) (rc : option EffectiveRequestConfig) (i : nat)
    (st : LoopState) : list (Request H) * option (outcome WireError (Response H)) :=
  match fuel with
  | O => ([], None)
  | S fuel =>
    let '(sent, next) := iterate n c rc i st in
    let sent := match sent with Some r => [r] | None => [] end in
    match next with
    | Panic => (sent, Some Panic)
    | Err e => (sent, Some (Err e))
    | Ok (Return response) => (sent, Some (Ok response))
    | Ok (Again st') => let '(rest, r) := run fuel n c rc (S i) st' in (sent ++ rest, r)
    end
  end.

(** [FollowUpPolicyService::call], openwire/policy/follow_up.rs:65-327. *)
Definition call (fuel : nat) (n : Network) (c : PolicyConfig) (jar : option J) (r : Request H) (attempt : Z)
    : list (Request H) * option (outcome WireError (Response H)) :=
  let rc := ext_config (req_extensions r) in
  let o := default default_call_options (ext_options (req_extensions r)) in
  let t := default (mkTrace 0 0 0) (ext_trace (req_extensions r)) in
  run fuel n (apply_request_overrides c rc o) rc 0
    (mkLoop r attempt (retry_count t) (redirect_count t) (auth_count t) true jar).

(** ** Rebuilding a request *)

Lemma to_retry_request_Ok r t mode r' :
  to_retry_request (capture r mode) t = Ok r' →
  try_clone (req_body r) = Some (req_body r) ∧
  r' = with_request_extensions r
         (insert_trace t (reset_network_attempt_extensions (req_extensions r) (ext_selected_proxy (req_extensions r)))).
Proof.
  unfold to_retry_request, snapshot_headers, snapshot_extensions.
  destruct mode; unfold capture; simpl; destruct (try_clone (req_body r)) as [b|] eqn:Hb; simpl; try done;
    apply try_clone_Some in Hb as Hb'; subst b; rewrite Hb; simpl; try done.
  intros [= <-]. split; [done|]. unfold with_request_extensions. by destruct r.
Qed.

Lemma to_retry_request_rebuildable r t :
  is_some (try_clone (req_body r)) = true → ∃ r', to_retry_request (capture r Capture_Rebuildable) t = Ok r'.
Proof.
  unfold to_retry_request. simpl. destruct (try_clone (req_body r)) as [b|] eqn:Hb; [|done]. intros _. simpl.
  apply try_clone_Some in Hb as Hb'; subst b; rewrite Hb. simpl. eauto.
Qed.

(** The header names a redirect drops. *)
Definition redirect_drops (same switch : bool) (name : string) : bool :=
  bool_decide (name = "host"%string) ||
  (negb same && bool_decide (name ∈ SENSITIVE_HEADERS)) || (switch && bool_decide (name ∈ BODY_HEADERS)).

Lemma redirect_headers name (same switch : bool) h :
  hm_get_all name
    (let h := hm_remove "host" h in
     let h := if same then h else strip_sensitive_cross_origin_headers h in
     if switch then foldl (λ h name, hm_remove name h) h BODY_HEADERS else h) =
  if redirect_drops same switch name then [] else hm_get_all name h.
Proof.
  unfold redirect_drops, strip_sensitive_cross_origin_headers.
  cbv zeta. destruct same, switch; rewrite ?hm_get_all_remove_all, ?hm_get_all_remove;
    repeat case_bool_decide; done.
Qed.

(** What [into_redirect_request] makes of a captured request. *)
Definition redirect_of (r : Request H) (status : Z) (next_uri : Uri) (t : PolicyTraceContext)
    (proxy : option SelectedProxy) (same : bool) (r' : Request H) : Prop :=
  let switch := should_switch_to_get status (req_method r) in
  req_uri r' = next_uri ∧ req_version r' = req_version r ∧
  req_method r' = (if switch then Method_GET else req_method r) ∧
  (if switch then req_body r' = Body_Absent
   else req_body r' = req_body r ∨ (preserve_body status = false ∧ req_body r = Body_Streaming ∧ req_body r' = Body_Absent)) ∧
  (∀ name, hm_get_all name (req_headers r') =
           if redirect_drops same switch name then [] else hm_get_all name (req_headers r)) ∧
  req_extensions r' = insert_trace t (reset_network_attempt_extensions (req_extensions r) proxy).

Lemma switch_not_preserved status m : preserve_body status = true → should_switch_to_get status m = false.
Proof.
  unfold preserve_body, should_switch_to_get. cbn [existsb]. rewrite !orb_true_iff, !Z.eqb_eq.
  intros [->|[->|[=]]]; reflexivity.
Qed.

Lemma into_redirect_request_Ok r mode status uri t proxy r' :
  into_redirect_request (capture r mode) status uri t proxy = Ok (Some r') →
  mode = Capture_Rebuildable ∧
  ∃ same, same_origin (req_uri r) uri = Ok same ∧ redirect_of r status uri t proxy same r'.
Proof.
  unfold into_redirect_request. destruct mode; simpl.
  { destruct (same_origin _ _); simpl; [|done..]. by case_match. }
  destruct (same_origin _ _) as [same| |]; simpl; [|done..].
  destruct (preserve_body status && _) eqn:Hp; [done|]. intros [= <-]. split; [done|].
  exists same. split; [done|]. unfold redirect_of. simpl.
  split_and!; try done.
  - destruct (preserve_body status) eqn:Hpb; [|done]. by rewrite (switch_not_preserved _ _ Hpb).
  - destruct (preserve_body status) eqn:Hpb.
    + rewrite (switch_not_preserved _ _ Hpb). left.
      destruct (try_clone (req_body r)) eqn:Hb; [|done]. by apply try_clone_Some in Hb.
    + destruct (should_switch_to_get _ _); [done|].
      destruct (try_clone (req_body r)) eqn:Hb; simpl; [left; by apply try_clone_Some in Hb|].
      apply try_clone_None in Hb. auto.
  - intros name. apply redirect_headers.
Qed.

(** ** One iteration *)

(** The request an iteration works on: the loop's, carrying the current counters. *)
Definition traced (st : LoopState) : Request H :=
  with_request_extensions (lp_request st) (insert_trace (loop_trace st) (req_extensions (lp_request st))).

Definition retry_limit (c : PolicyConfig) (rc : option EffectiveRequestConfig) : Z :=
  let m := max_retries (retry_default (cfg_retry c)) in
  Z.max m (as_u32 match rc with Some r => ec_max_retries r | None => m end).

(** The three ways an iteration can lead to another. *)
Inductive Followed (c : PolicyConfig) (rc : option EffectiveRequestConfig) (st : LoopState) : LoopState → Prop :=
| Followed_auth a ctx q st' :
    authenticator (cfg_auth c) = Some a ∨ proxy_authenticator (cfg_auth c) = Some a →
    authenticate a ctx = inr (Some q) → ac_request_uri ctx = req_uri (lp_request st) →
    lp_auths st < max_auth_attempts (cfg_auth c) →
    req_uri (lp_request st') = req_uri q →
    loop_trace st' = mkTrace (lp_retries st) (lp_redirects st) (u32_wrapping_add (lp_auths st) 1) →
    Followed c rc st st'
| Followed_retry e st' :
    try_clone (req_body (lp_request st)) = Some (req_body (lp_request st)) →
    lp_request st' = with_request_extensions (lp_request st) e →
    (retry_custom (cfg_retry c) = None → lp_retries st < retry_limit c rc) →
    loop_trace st' = mkTrace (u32_wrapping_add (lp_retries st) 1) (lp_redirects st) (lp_auths st) →
    Followed c rc st st'
| Followed_redirect status uri proxy same st' :
    should_redirect (redirect_policy uri_text (cfg_redirect c))
      (mkRedirectContext (req_method (lp_request st)) (req_uri (lp_request st)) status uri (lp_redirects st)
         (is_some (try_clone (req_body (lp_request st))))) = Redirect_Follow →
    validate_request_uri uri = Ok tt →
    same_origin (req_uri (lp_request st)) uri = Ok same →
    redirect_of (traced st) status uri (loop_trace st') proxy same (lp_request st') →
    loop_trace st' = mkTrace (lp_retries st) (u32_wrapping_add (lp_redirects st) 1) (lp_auths st) →
    Followed c rc st st'.

Lemma capture_fields r mode :
  snap_method (capture r mode) = req_method r ∧ snap_uri (capture r mode) = req_uri r ∧
  is_replayable (capture r mode) = is_some (try_clone (req_body r)).
Proof. by destruct mode. Qed.

Lemma authenticate_response_Some s response a proxy c q k :
  authenticate_response s response a proxy c = Ok (Some (q, k)) →
  ∃ auth ctx q0, (authenticator c = Some auth ∨ proxy_authenticator c = Some auth) ∧
    authenticate auth ctx = inr (Some q0) ∧ ac_request_uri ctx = snap_uri s ∧ req_uri q = req_uri q0 ∧
    at_auth_count a < max_auth_attempts c ∧ k = u32_wrapping_add (at_auth_count a) 1.
Proof.
  unfold authenticate_response.
  set (p := if _ =? UNAUTHORIZED then _ else _).
  assert (Hp : ∀ x, p.2 = Some x → authenticator c = Some x ∨ proxy_authenticator c = Some x).
  { intros x. subst p. repeat case_match; simpl; naive_solver. }
  destruct p as [kd [auth|]]; [|done]. specialize (Hp auth eq_refl).
  destruct ((_ <=? _) || _) eqn:Hg; [done|]. apply orb_false_iff in Hg as [Hg%Z.leb_gt _].
  destruct (snapshot_headers s); cbn [obind]; [|done..]. destruct (snapshot_extensions s); cbn [obind]; [|done..].
  destruct (authenticate auth _) as [|[q0|]] eqn:Ha; [done| |done]. intros [= <- <-].
  eexists auth, _, q0. split_and!; eauto.
Qed.

Lemma on_redirect_Again c rc st0 st response st' :
  lp_request st = lp_request st0 → loop_trace st = loop_trace st0 →
  on_redirect c st (capture (traced st0) (for_policy c)) response = Ok (Again st') →
  Followed c rc st0 st' ∧ lp_first st' = false ∧ lp_jar st' = lp_jar st.
Proof.
  intros Hr Ht. unfold on_redirect. destruct (capture_fields (traced st0) (for_policy c)) as (-> & -> & ->).
  case_match; [done|]. case_match; [done|]. case_match; [|done].
  destruct (resolve_redirect_uri _ _) as [uri| |]; cbn [obind]; [|done..].
  destruct (validate_request_uri uri) as [[]| |] eqn:Hv; cbn [obind]; [|done..].
  destruct (should_redirect _ _) eqn:Hd; [|done..].
  destruct (into_redirect_request _ _ _ _ _) as [[q|]| |] eqn:Hq; cbn [obind]; [|done..].
  intros [= <-]. apply into_redirect_request_Ok in Hq as (_ & same & Hs & Hq).
  unfold loop_trace in *. split_and!; [|done..]. injection Ht as H1' H2' H3'.
  eapply (Followed_redirect c rc st0 (res_status response) uri _ same); simpl; rewrite <- ?H2', ?H1', ?H3' in *; eauto.
Qed.

Lemma retry_Followed c rc st0 st mode t q e st' :
  loop_trace st = loop_trace st0 →
  to_retry_request (capture (traced st0) mode) t = Ok q →
  (retry_custom (cfg_retry c) = None → lp_retries st0 < retry_limit c rc) →
  Ok (E := WireError)
    (again st (with_request_extensions q e) (u32_wrapping_add (lp_retries st) 1) (lp_redirects st) (lp_auths st)) =
    Ok (Again st') →
  Followed c rc st0 st' ∧ lp_first st' = false ∧ lp_jar st' = lp_jar st.
Proof.
  intros Ht [Hb ->]%to_retry_request_Ok Hlim [= <-]. unfold loop_trace in *. injection Ht as H1' H2' H3'.
  split_and!; [|done..]. eapply (Followed_retry c rc st0 e); [done|done|done|].
  unfold loop_trace. simpl. congruence.
Qed.

Lemma with_own_extensions (q : Request H) : with_request_extensions q (req_extensions q) = q.
Proof. by destruct q. Qed.

Lemma retry_reason_limit c rc now s response retries x :
  retry_response_reason now s response retries (cfg_retry c) = Some x →
  retry_custom (cfg_retry c) = None → retries < retry_limit c rc.
Proof.
  unfold retry_response_reason, retry_policy, retry_limit. intros Hx Hc. rewrite Hc in Hx.
  apply default_should_retry_response_Some in Hx as (_ & Hx & _). simpl in Hx. lia.
Qed.

Lemma on_response_Again c rc now st0 st response st' :
  lp_request st = lp_request st0 → loop_trace st = loop_trace st0 →
  on_response c rc now st (capture (traced st0) (for_policy c)) response = Ok (Again st') →
  Followed c rc st0 st' ∧ lp_first st' = false ∧ lp_jar st' = lp_jar st.
Proof.
  intros Hr Ht. unfold on_response. set (s := capture (traced st0) (for_policy c)).
  assert (H1' : lp_retries st = lp_retries st0) by (unfold loop_trace in Ht; congruence).
  destruct (authenticate_response _ _ _ _ _) as [[[q k]|]| |] eqn:Ha; cbn [obind]; [| |done..].
  - intros [= <-]. apply authenticate_response_Some in Ha as (auth & ctx & q0 & Hauth & Hq & Hu & Hq' & Hlt & ->).
    unfold loop_trace in *. simpl in *. injection Ht as _ H2' H3'. split_and!; [|done..].
    eapply (Followed_auth c rc st0 auth ctx q0); rewrite <- ?H3'; eauto; [|unfold loop_trace; simpl; congruence].
    rewrite Hu. subst s. by destruct (capture_fields (traced st0) (for_policy c)) as (_ & -> & _).
  - destruct (should_retry_misdirected_request _ _ _ _) eqn:Hm.
    + destruct (to_retry_request _ _) as [q| |] eqn:Hq; cbn [obind]; [|done..]. intros Hst'.
      eapply retry_Followed; eauto. intros _. unfold retry_limit. rewrite <- H1'.
      unfold should_retry_misdirected_request in Hm. rewrite !andb_true_iff, Z.ltb_lt in Hm. lia.
    + destruct (retry_response_reason _ _ _ _ _) eqn:Hx; [|by eapply on_redirect_Again].
      destruct (to_retry_request _ _) as [q| |] eqn:Hq; cbn [obind]; [|done..].
      rewrite <- (with_own_extensions q) at 1. intros Hst'. eapply retry_Followed; eauto.
      rewrite <- H1'. by eapply retry_reason_limit.
Qed.

Lemma on_error_Again c rc st e st' :
  on_error c st (capture (traced st) (for_policy c)) e = Ok (Again st') →
  Followed c rc st st' ∧ lp_first st' = false ∧ lp_jar st' = lp_jar st.
Proof.
  unfold on_error. destruct (should_retry _ _) eqn:Hs; [|done].
  destruct (to_retry_request _ _) as [q| |] eqn:Hq; cbn [obind]; [|done..].
  rewrite <- (with_own_extensions q) at 1. intros Hst'. eapply retry_Followed; eauto.
  intros Hc. unfold retry_policy in Hs. rewrite Hc in Hs.
  apply default_should_retry_Some in Hs as (_ & Hs & _). unfold retry_limit. simpl in Hs. lia.
Qed.

Lemma apply_request_cookies_Ok r jar r' :
  apply_request_cookies r jar = Ok r' →
  req_uri r' = req_uri r ∧ req_method r' = req_method r ∧ req_body r' = req_body r ∧
  ∀ name, jar = None ∨ name ≠ "cookie"%string →
          hm_get_all name (req_headers r') = hm_get_all name (req_headers r).
Proof.
  unfold apply_request_cookies. destruct jar as [j|]; [|intros [= <-]; done].
  destruct (negb _); [intros [= <-]; done|]. destruct (request_url _); cbn [obind]; [|done..].
  destruct (jar_cookies _ _); intros [= <-]; [|done]. split_and!; [done..|].
  intros name [|]; [done|]. simpl. apply hm_insert_ne. congruence.
Qed.

Lemma prepare_Ok c st s r :
  prepare c st = Ok (s, r) →
  s = capture (traced st) (for_policy c) ∧ validate_request_uri (req_uri (lp_request st)) = Ok tt ∧
  apply_request_cookies (traced st) (lp_jar st) = Ok r.
Proof.
  unfold prepare. destruct (validate_request_uri _) as [[]| |]; cbn [obind]; [|done..].
  fold (traced st). destruct (apply_request_cookies _ _); cbn [obind]; [|done..]. by intros [= <- <-].
Qed.

Lemma store_response_cookies_None response uri jar jar' :
  store_response_cookies response uri jar = Ok jar' → jar = None → jar' = None.
Proof. intros Hs ->. by injection Hs as <-. Qed.

Lemma iterate_sent n c rc i st r next :
  iterate n c rc i st = (Some r, next) →
  ∃ s, prepare c st = Ok (s, r).
Proof.
  unfold iterate. destruct (prepare c st) as [[s r']| |]; [|done..].
  destruct (if lp_first st then None else net_ready n i); [done|]. intros [= <- _]. eauto.
Qed.

Lemma iterate_Again n c rc i st sent st' :
  iterate n c rc i st = (sent, Ok (Again st')) →
  Followed c rc st st' ∧ lp_first st' = false ∧ (lp_jar st = None → lp_jar st' = None) ∧
  validate_request_uri (req_uri (lp_request st)) = Ok tt.
Proof.
  unfold iterate. destruct (prepare c st) as [[s r]| |] eqn:Hp; [|done..].
  apply prepare_Ok in Hp as (-> & Hv & _).
  destruct (if lp_first st then None else net_ready n i); [done|]. intros [= _ Hn].
  destruct (net_call n i r) as [e|response].
  - apply (on_error_Again c rc) in Hn as (? & ? & ->). auto.
  - destruct (store_response_cookies _ _ _) as [jar| |] eqn:Hj; cbn [obind] in Hn; [|done..].
    apply (on_response_Again _ _ _ st) in Hn as (? & ? & ->); [|done..]. split_and!; auto.
    simpl. by eapply store_response_cookies_None.
Qed.

(** ** The loop ends *)

(** The counters are within [u32] and the policies that bound the loop are the built-in ones. *)
Definition counters_ok (st : LoopState) : Prop := 0 ≤ lp_retries st ∧ 0 ≤ lp_redirects st ∧ 0 ≤ lp_auths st.

Record bounded (c : PolicyConfig) : Prop := mkBounded {
  bounded_retry : retry_custom (cfg_retry c) = None;
  bounded_redirect : redirect_custom (cfg_redirect c) = None;
  bounded_retries : max_retries (retry_default (cfg_retry c)) ≤ U32_MAX;
  bounded_redirects : max_redirects (redirect_default (cfg_redirect c)) ≤ U32_MAX;
  bounded_auths : max_auth_attempts (cfg_auth c) ≤ U32_MAX;
}.

(** How many more times the loop can go round. *)
Definition budget (c : PolicyConfig) (rc : option EffectiveRequestConfig) (st : LoopState) : Z :=
  Z.max 0 (retry_limit c rc - lp_retries st) +
  Z.max 0 (max_redirects (redirect_default (cfg_redirect c)) - lp_redirects st) +
  Z.max 0 (max_auth_attempts (cfg_auth c) - lp_auths st).

Lemma wrapping_succ a m : 0 ≤ a → a < m → m ≤ U32_MAX → u32_wrapping_add a 1 = a + 1.
Proof. unfold u32_wrapping_add, U32_MAX. intros. apply Z.mod_small. lia. Qed.

Lemma as_u32_bound z : 0 ≤ as_u32 z ≤ U32_MAX.
Proof. unfold as_u32. pose proof (Z.mod_pos_bound z (U32_MAX + 1)). unfold U32_MAX in *. lia. Qed.

Lemma retry_limit_bound c rc : bounded c → retry_limit c rc ≤ U32_MAX.
Proof.
  intros Hb. unfold retry_limit. pose proof (bounded_retries _ Hb).
  match goal with |- context [as_u32 ?z] => pose proof (as_u32_bound z) end. lia.
Qed.

Lemma Followed_budget c rc st st' :
  bounded c → counters_ok st → Followed c rc st st' →
  counters_ok st' ∧ budget c rc st' + 1 ≤ budget c rc st.
Proof.
  intros Hb (Hr & Hd & Ha) Hf. pose proof (retry_limit_bound _ rc Hb) as Hlim. unfold counters_ok, budget.
  destruct Hf as [a ctx q st' _ _ _ Hlt _ Ht|e st' _ _ Hlt Ht|status uri proxy same st' Hf _ _ _ Ht];
    unfold loop_trace in Ht; injection Ht as H1' H2' H3'; rewrite H1', H2', H3'.
  - rewrite (wrapping_succ (lp_auths st) _ Ha Hlt) by apply Hb. lia.
  - specialize (Hlt (bounded_retry _ Hb)). rewrite (wrapping_succ (lp_retries st) _ Hr Hlt) by done. lia.
  - unfold redirect_policy in Hf. rewrite (bounded_redirect _ Hb) in Hf.
    apply default_should_redirect_Follow in Hf as (_ & _ & Hlt & _). simpl in Hlt.
    rewrite (wrapping_succ (lp_redirects st) _ Hd Hlt) by apply Hb. lia.
Qed.

Lemma run_terminates fuel n c rc i st :
  bounded c → counters_ok st → budget c rc st < Z.of_nat fuel →
  ∃ sent result, run fuel n c rc i st = (sent, Some result) ∧ len sent ≤ budget c rc st + 1.
Proof.
  intros Hb. revert i st. induction fuel as [|fuel IH]; intros i st Hc Hlt.
  { unfold budget in Hlt. lia. }
  assert (H0' : 0 ≤ budget c rc st) by (unfold budget; lia).
  simpl. destruct (iterate n c rc i st) as [sent next] eqn:Hi.
  assert (Hs : len (match sent with Some r => [r] | None => [] end) ≤ 1) by (destruct sent; simpl; len_lia).
  destruct next as [[response|st']| |]; [eexists _, _; split; [reflexivity|lia]| |eexists _, _; split; [reflexivity|lia]..].
  apply iterate_Again in Hi as (Hf & _). destruct (Followed_budget _ _ _ _ Hb Hc Hf) as [Hc' Hm].
  destruct (IH (S i) st' Hc') as (rest & result & -> & Hrest); [lia|].
  eexists _, _; split; [reflexivity|]. len_lia.
Qed.

(** The loop's variables at the start of [call]. *)
Definition start (jar : option J) (r : Request H) (attempt : Z) : LoopState :=
  let t := default (mkTrace 0 0 0) (ext_trace (req_extensions r)) in
  mkLoop r attempt (retry_count t) (redirect_count t) (auth_count t) true jar.

Definition call_config (c : PolicyConfig) (r : Request H) : PolicyConfig :=
  apply_request_overrides c (ext_config (req_extensions r))
    (default default_call_options (ext_options (req_extensions r))).

(** ** What is sent *)

Lemma run_invariant (P : LoopState → Prop) n c rc :
  (∀ i st sent st', P st → iterate n c rc i st = (sent, Ok (Again st')) → P st') →
  ∀ fuel i st q, P st → q ∈ (run fuel n c rc i st).1 → ∃ st' s, P st' ∧ prepare c st' = Ok (s, q).
Proof.
  intros HP fuel. induction fuel as [|fuel IH]; intros i st q Hst; simpl; [set_solver|].
  destruct (iterate n c rc i st) as [sent next] eqn:Hi.
  assert (Hs : q ∈ match sent with Some r => [r] | None => [] end → ∃ st' s, P st' ∧ prepare c st' = Ok (s, q)).
  { destruct sent as [r|]; [|set_solver]. intros ->%list_elem_of_singleton.
    apply iterate_sent in Hi as [s Hs]. eauto. }
  destruct next as [[response|st']| |]; simpl; [done| |done..].
  specialize (IH (S i) st' q (HP _ _ _ _ Hst Hi)). destruct (run fuel n c rc (S i) st') as [rest res].
  simpl in *. rewrite elem_of_app. naive_solver.
Qed.

Lemma same_origin_refl a u : validate_request_uri a = Ok u → same_origin a a = Ok true.
Proof. intros [o Ho]%origin_from_uri_valid. apply same_origin_true. eauto. Qed.

(** Sensitive headers are present only at the origin the call began with. *)
Definition stays (uri : Uri) (nojar : Prop) (st : LoopState) : Prop :=
  (nojar → lp_jar st = None) ∧
  ∀ name, name ∈ SENSITIVE_HEADERS → hm_get_all name (req_headers (lp_request st)) ≠ [] →
          req_uri (lp_request st) = uri ∨ same_origin uri (req_uri (lp_request st)) = Ok true.

Lemma stays_step uri nojar n c rc i st sent st' :
  authenticator (cfg_auth c) = None → proxy_authenticator (cfg_auth c) = None →
  stays uri nojar st → iterate n c rc i st = (sent, Ok (Again st')) → stays uri nojar st'.
Proof.
  intros Ha Hpa [Hj Hst] (Hf & _ & Hj' & Hv)%iterate_Again. split; [auto|]. intros name Hname Hne.
  destruct Hf as [a ctx q st' Hauth|e st' _ Hr|status next proxy same st' _ _ Hs Hr _]; [naive_solver| |].
  - rewrite Hr in *. apply (Hst name); done.
  - destruct Hr as (Huri & _ & _ & _ & Hh & _). rewrite Hh in Hne. unfold redirect_drops in Hne.
    rewrite (bool_decide_true (name ∈ SENSITIVE_HEADERS)) in Hne by done.
    destruct same; [|rewrite orb_true_r in Hne; done].
    rewrite Huri. right.
    destruct (Hst name Hname) as [<-|Hso]; [by case_match|done|by eapply same_origin_trans].
Qed.

Definition keeps_scheme (a : option Authenticator) : Prop :=
  ∀ auth ctx q, a = Some auth → authenticate auth ctx = inr (Some q) →
    uri_scheme_str (req_uri q) = uri_scheme_str (ac_request_uri ctx).

Lemma https_step n c rc i st sent st' :
  redirect_custom (cfg_redirect c) = None →
  allow_insecure_redirects (redirect_default (cfg_redirect c)) = false →
  keeps_scheme (authenticator (cfg_auth c)) → keeps_scheme (proxy_authenticator (cfg_auth c)) →
  uri_scheme_str (req_uri (lp_request st)) = Some "https"%string →
  iterate n c rc i st = (sent, Ok (Again st')) →
  uri_scheme_str (req_uri (lp_request st')) = Some "https"%string.
Proof.
  intros Hcu Hin Ha Hp Hs (Hf & _)%iterate_Again.
  destruct Hf as [a ctx q st' Hauth Hq Hu _ Hu' _|e st' _ Hr|status next proxy same st' Hf Hv _ Hr _].
  - rewrite Hu', <- Hs, <- Hu. destruct Hauth as [E|E]; [by eapply Ha|by eapply Hp].
  - by rewrite Hr.
  - destruct Hr as (-> & _). unfold redirect_policy in Hf. rewrite Hcu in Hf.
    apply default_should_redirect_Follow in Hf as (_ & _ & _ & [Hx|Hx]); [congruence|].
    apply validate_request_uri_Ok in Hv as [[Hv|Hv] _]; [|done]. simpl in Hx. tauto.
Qed.

Lemma for_policy_rebuildable c :
  retry_custom (cfg_retry c) = None → 0 < max_retries (retry_default (cfg_retry c)) →
  for_policy c = Capture_Rebuildable.
Proof.
  intros Hc Hm. unfold for_policy. rewrite Hc, (proj2 (Z.ltb_lt _ _) Hm). cbn [orb].
  by rewrite orb_true_r.
Qed.

Lemma on_error_default c st e :
  retry_custom (cfg_retry c) = None → 0 ≤ lp_retries st →
  let q := lp_request st in
  let retried := u32_wrapping_add (lp_retries st) 1 in
  on_error c st (capture (traced st) (for_policy c)) e =
  match default_should_retry is_idempotent (retry_default (cfg_retry c))
          (mkRetryContext e (lp_retries st) (is_some (try_clone (req_body q))) (req_method q)) with
  | None => Err e
  | Some _ =>
    Ok (again st (with_request_extensions q
          (insert_trace (mkTrace retried (lp_redirects st) (lp_auths st))
             (reset_network_attempt_extensions (req_extensions q) (ext_selected_proxy (req_extensions q)))))
          retried (lp_redirects st) (lp_auths st))
  end.
Proof.
  intros Hc H0' q retried. unfold on_error, retry_policy. rewrite Hc.
  destruct (capture_fields (traced st) (for_policy c)) as (-> & _ & ->). cbn [should_retry].
  change (req_body (traced st)) with (req_body q). change (req_method (traced st)) with (req_method q).
  destruct (default_should_retry _ _ _) eqn:Hs; [|done].
  apply default_should_retry_Some in Hs as (Hrep & Hlt & _). simpl in Hrep, Hlt.
  rewrite for_policy_rebuildable by (done || lia).
  destruct (to_retry_request_rebuildable (traced st) (mkTrace retried (lp_redirects st) (lp_auths st)) Hrep) as [r' Hr'].
  subst retried. rewrite Hr'. cbn [obind]. apply to_retry_request_Ok in Hr' as [_ ->]. done.
Qed.

(** ** Calls that cannot be followed up *)

Lemma for_policy_light c :
  for_policy c = Capture_Light →
  redirect_custom (cfg_redirect c) = None ∧ follow_redirects (redirect_default (cfg_redirect c)) = false ∧
  retry_custom (cfg_retry c) = None ∧ max_retries (retry_default (cfg_retry c)) ≤ 0 ∧
  authenticator (cfg_auth c) = None ∧ proxy_authenticator (cfg_auth c) = None.
Proof.
  unfold for_policy.
  destruct (redirect_custom _), (follow_redirects _), (retry_custom _), (authenticator _), (proxy_authenticator _),
    (Z.ltb_spec 0 (max_retries (retry_default (cfg_retry c)))); simpl; naive_solver.
Qed.

Lemma on_response_light c rc now st s response :
  for_policy c = Capture_Light → 0 ≤ lp_retries st →
  as_u32 match rc with Some r => ec_max_retries r | None => max_retries (retry_default (cfg_retry c)) end = 0 →
  on_response c rc now st s response = Ok (Return response).
Proof.
  intros (Hrc & Hf & Hc & Hm & Ha & Hp)%for_policy_light H0' Hz. unfold on_response, authenticate_response.
  rewrite Ha, Hp.
  assert (Hauth : ∀ b1 b2 : bool, (if b1 then (Auth_Origin, @None Authenticator)
      else if b2 then (Auth_Proxy, None) else (Auth_Origin, None)).2 = None) by (by intros [] []).
  destruct (if _ =? UNAUTHORIZED then _ else _) as [k a] eqn:E. pose proof (f_equal snd E) as E2.
  rewrite Hauth in E2. simpl in E2. subst a. cbn [obind].
  unfold should_retry_misdirected_request. rewrite Hz, (proj2 (Z.ltb_ge _ _) H0'), andb_false_r. cbn [andb].
  unfold retry_response_reason, retry_policy. rewrite Hc. cbn [should_retry_response].
  destruct (default_should_retry_response _ _ _) eqn:Hx.
  { apply default_should_retry_response_Some in Hx as (_ & Hx & _). simpl in Hx. lia. }
  unfold on_redirect. by rewrite Hrc, Hf.
Qed.

(** The request the client hands to the loop: it carries the call's options and their effect on the
    client's defaults. *)
Definition prepared_by_client (c : PolicyConfig) (r : Request H) : Prop :=
  ∃ o ct cot, ext_options (req_extensions r) = Some o ∧
    ext_config (req_extensions r) = Some (with_overrides (from_defaults ct cot (cfg_retry c) (cfg_redirect c)) o).

Lemma prepared_max_retries c r :
  prepared_by_client c r → retry_custom (cfg_retry c) = None →
  match ext_config (req_extensions r) with
  | Some e => ec_max_retries e
  | None => max_retries (retry_default (cfg_retry (call_config c r)))
  end = max_retries (retry_default (cfg_retry (call_config c r))).
Proof.
  intros (o & ct & cot & Ho & Hc) Hcu. unfold call_config. rewrite Ho, Hc. simpl. rewrite Hcu. simpl.
  unfold has_retry_overrides. destruct (co_max_retries o) as [m|]; simpl.
  - by rewrite orb_true_r.
  - destruct (is_some _ || _ || _); done.
Qed.

Lemma call_config_retry_custom c r :
  retry_custom (cfg_retry (call_config c r)) = None → retry_custom (cfg_retry c) = None.
Proof.
  unfold call_config, apply_request_overrides. destruct (ext_config _); [|done]. simpl.
  destruct (retry_custom (cfg_retry c)) eqn:E; [|done]. simpl. by rewrite andb_false_r, E.
Qed.

(** ** The properties of a call *)

(** C9.  With the built-in policies and limits of at most [u32::MAX], every call ends: whatever the
    network, the authenticators and the jar answer, fuel for one more round than the retries, redirects
    and authentications the limits still allow produces a result, and at most that many requests are
    sent. *)
Theorem follow_up_terminates n c jar r attempt fuel :
  bounded (call_config c r) → counters_ok (start jar r attempt) →
  budget (call_config c r) (ext_config (req_extensions r)) (start jar r attempt) < Z.of_nat fuel →
  ∃ sent result, call fuel n c jar r attempt = (sent, Some result) ∧
    len sent ≤ budget (call_config c r) (ext_config (req_extensions r)) (start jar r attempt) + 1.
Proof. apply run_terminates. Qed.

(** Rebuilding a request for a redirect to a valid URI, from a full snapshot, never fails: it
    stops exactly when a 307 or 308 would need a body that can be sent only once; otherwise the new
    request goes to that URI with the method and body the status asks for, drops Host, drops every
    credential header when the origin changes and every body header when the method becomes GET, keeps
    all other headers, and has the per-attempt extensions reset. *)
Theorem redirect_request_spec r status uri t proxy :
  validate_request_uri (req_uri r) = Ok tt → validate_request_uri uri = Ok tt →
  ∃ same, same_origin (req_uri r) uri = Ok same ∧
  match into_redirect_request (capture r Capture_Rebuildable) status uri t proxy with
  | Ok (Some r') => redirect_of r status uri t proxy same r' ∧
                    ¬ (preserve_body status = true ∧ req_body r = Body_Streaming)
  | Ok None => preserve_body status = true ∧ req_body r = Body_Streaming
  | Err _ | Panic => False
  end.
Proof.
  intros Hr Hu. destruct (same_origin_valid _ _ _ _ Hr Hu) as [same Hs]. exists same. split; [done|].
  destruct (into_redirect_request _ _ _ _ _) as [[r'|]| |] eqn:Hq.
  - pose proof Hq as Hq'. apply into_redirect_request_Ok in Hq as (_ & same' & Hs' & Hq).
    rewrite Hs in Hs'. injection Hs' as <-. split; [done|]. intros [Hp Hb].
    unfold into_redirect_request in Hq'. simpl in Hq'. rewrite Hs, Hp, Hb in Hq'. done.
  - unfold into_redirect_request in Hq. simpl in Hq. rewrite Hs in Hq. simpl in Hq.
    destruct (preserve_body status); [|done]. destruct (req_body r); done.
  - unfold into_redirect_request in Hq. simpl in Hq. rewrite Hs in Hq. simpl in Hq. by case_match.
  - unfold into_redirect_request in Hq. simpl in Hq. rewrite Hs in Hq. simpl in Hq. by case_match.
Qed.

(** C2.  A call never takes credentials to another origin: without authenticators, whatever the retry
    and redirect policies decide and however many rounds are made, a request that carries one of the
    sensitive headers (Cookie only when no jar adds one) goes to the origin of the call's first request. *)
Theorem credentials_stay_on_origin n c jar r attempt fuel q name :
  authenticator (cfg_auth c) = None → proxy_authenticator (cfg_auth c) = None →
  q ∈ (call fuel n c jar r attempt).1 → name ∈ SENSITIVE_HEADERS → jar = None ∨ name ≠ "cookie"%string →
  hm_get_all name (req_headers q) ≠ [] → same_origin (req_uri r) (req_uri q) = Ok true.
Proof.
  intros Ha Hp Hq Hname Hjar Hne.
  assert (Hcfg : cfg_auth (call_config c r) = cfg_auth c).
  { unfold call_config, apply_request_overrides. by destruct (ext_config _). }
  destruct (run_invariant (stays (req_uri r) (jar = None)) n (call_config c r) (ext_config (req_extensions r)))
    with (fuel := fuel) (i := 0%nat) (st := start jar r attempt) (q := q) as (st & s & [Hj Hst] & Hprep).
  - intros i st sent st' Hst Hi. eapply stays_step; [by rewrite Hcfg..|done|done].
  - split; [done|]. by left.
  - exact Hq.
  - apply prepare_Ok in Hprep as (_ & Hv & (Hu & _ & _ & Hh)%apply_request_cookies_Ok).
    rewrite Hh in Hne by tauto. rewrite Hu. change (req_uri (traced st)) with (req_uri (lp_request st)).
    destruct (Hst name Hname Hne) as [<-|?]; [by eapply same_origin_refl|done].
Qed.

(** A call that starts with https stays on it: with the built-in redirect policy, insecure
    redirects not allowed and authenticators that keep the scheme, every request it sends has an https
    URI. *)
Theorem follow_up_stays_https n c jar r attempt fuel q :
  redirect_custom (cfg_redirect (call_config c r)) = None →
  allow_insecure_redirects (redirect_default (cfg_redirect (call_config c r))) = false →
  keeps_scheme (authenticator (cfg_auth c)) → keeps_scheme (proxy_authenticator (cfg_auth c)) →
  uri_scheme_str (req_uri r) = Some "https"%string →
  q ∈ (call fuel n c jar r attempt).1 → uri_scheme_str (req_uri q) = Some "https"%string.
Proof.
  intros Hcu Hin Ha Hp Hs Hq.
  assert (Hcfg : cfg_auth (call_config c r) = cfg_auth c).
  { unfold call_config, apply_request_overrides. by destruct (ext_config _). }
  destruct (run_invariant (λ st, uri_scheme_str (req_uri (lp_request st)) = Some "https"%string)
              n (call_config c r) (ext_config (req_extensions r)))
    with (fuel := fuel) (i := 0%nat) (st := start jar r attempt) (q := q) as (st & s & Hst & Hprep); [|done|exact Hq|].
  - intros i st sent st' Hst Hi. eapply https_step; try done; by rewrite Hcfg.
  - apply prepare_Ok in Hprep as (_ & _ & (-> & _)%apply_request_cookies_Ok). done.
Qed.

(** C34.  After a network error, with the built-in retry policy, the loop either returns that very
    error or sends the same request again - same method, URI, headers and body, sticky proxy kept, the
    cached addresses and the queue mark dropped - and it retries only a replayable body, below the retry
    limit, and a request the server may have seen only if its method is idempotent. *)
Theorem retry_after_error n c rc i st s r e :
  prepare c st = Ok (s, r) → lp_first st = true ∨ net_ready n i = None → net_call n i r = inl e →
  retry_custom (cfg_retry c) = None → 0 ≤ lp_retries st →
  iterate n c rc i st = (Some r, Err e) ∨
  ∃ ext, iterate n c rc i st =
    (Some r, Ok (again st (with_request_extensions (lp_request st) ext)
                   (u32_wrapping_add (lp_retries st) 1) (lp_redirects st) (lp_auths st))) ∧
    ext_cached_addresses ext = None ∧ ext_dispatcher_queued ext = false ∧
    ext_selected_proxy ext = ext_selected_proxy (req_extensions (lp_request st)) ∧
    req_body (lp_request st) ≠ Body_Streaming ∧
    lp_retries st < max_retries (retry_default (cfg_retry c)) ∧
    (request_committed e = true → is_idempotent (req_method (lp_request st)) = true).
Proof.
  intros Hp Hready Hnet Hc H0'. unfold iterate. rewrite Hp, Hnet.
  assert ((if lp_first st then None else net_ready n i) = None) as -> by (destruct (lp_first st); naive_solver).
  apply prepare_Ok in Hp as (-> & _ & _). rewrite on_error_default by done.
  destruct (default_should_retry _ _ _) eqn:Hs; [|by left]. right. eexists. split; [reflexivity|].
  apply default_should_retry_Some in Hs as (Hrep & Hlt & Hcom). simpl in *.
  split_and!; try done. intros Hb. by rewrite Hb in Hrep.
Qed.

(** The light snapshot is never missed: for a request the client prepared, if nothing can be
    followed up (no redirects, no retries, no authenticator, so headers and extensions are not
    captured), the call sends one request and returns the network's own answer, never the internal error
    of a rebuild from a light snapshot. *)
Theorem light_call_passes_through n c jar r attempt fuel s q :
  prepared_by_client c r → for_policy (call_config c r) = Capture_Light →
  0 ≤ max_retries (retry_default (cfg_retry (call_config c r))) →
  counters_ok (start jar r attempt) → prepare (call_config c r) (start jar r attempt) = Ok (s, q) →
  call (S fuel) n c jar r attempt =
    ([q], Some match net_call n 0 q with
               | inl e => Err e
               | inr response => let? _ := store_response_cookies response (req_uri r) jar in Ok response
               end).
Proof.
  intros Hcl Hlight Hm0 (H0' & _) Hprep.
  pose proof (for_policy_light _ Hlight) as (_ & _ & Hc & Hm & _).
  pose proof (prepared_max_retries c r Hcl (call_config_retry_custom _ _ Hc)) as Hmax.
  assert (Hz : max_retries (retry_default (cfg_retry (call_config c r))) = 0) by lia.
  change (call (S fuel) n c jar r attempt)
    with (run (S fuel) n (call_config c r) (ext_config (req_extensions r)) 0 (start jar r attempt)).
  cbn [run]. unfold iterate. rewrite Hprep. cbn [lp_first start].
  apply prepare_Ok in Hprep as (-> & _ & _).
  destruct (net_call n 0 q) as [e|response].
  - rewrite on_error_default by done. destruct (default_should_retry _ _ _) eqn:Hs; [|done].
    apply default_should_retry_Some in Hs as (_ & Hlt & _). simpl in Hlt, H0'. lia.
  - destruct (capture_fields (traced (start jar r attempt)) (for_policy (call_config c r))) as (_ & -> & _).
    change (req_uri (traced (start jar r attempt))) with (req_uri r).
    change (lp_jar (start jar r attempt)) with jar.
    destruct (store_response_cookies _ _ _); cbn [obind]; [|done..].
    rewrite on_response_light; [done|done|done|]. by rewrite Hmax, Hz.
Qed.

End FollowUp.

(** ** A concrete call

    Fields as header maps, URLs as host names, a network that redirects host "a" to host "b" and
    answers 200 there. *)
Module Demo.
Abbreviation fields := (list (string * string)).

Definition uri_of (host : string) : Uri := mkUri (Some "https"%string) (Some host) (Some host) None "/".
Definition text (u : Uri) : string := default ""%string (uri_host u).
Definition parse (s : string) : string + string := inr s.
Definition join (_ : string) (l : string) : string + string := inr l.
Definition to_uri (s : string) : string + Uri := inr (uri_of s).
Definition idempotent (m : Method) : bool := bool_decide (m = Method_GET).

Definition config (retries : Z) (follow : bool) : PolicyConfig (H := fields) :=
  mkPolicyConfig (mkAuthConfig None None 3) (mkRetryConfig (mkDefaultRetry true retries false false) None)
    (mkRedirectConfig (mkDefaultRedirect follow 10 false) None).

Definition effective (c : PolicyConfig (H := fields)) : EffectiveRequestConfig :=
  with_overrides (from_defaults None None (cfg_retry c) (cfg_redirect c)) default_call_options.

Definition request (c : PolicyConfig (H := fields)) : Request fields :=
  mkRequest Method_GET (uri_of "a") "HTTP/1.1" [("authorization", "k"); ("accept", "x")]%string
    (mkExtensions (Some (effective c)) (Some default_call_options) None None None false false None None None) Body_Absent.

Definition network : Network (H := fields) :=
  mkNetwork (λ _, None)
    (λ _ q, inr (if bool_decide (uri_host (req_uri q) = Some "a"%string)
                 then mkResponse 302 "HTTP/1.1" [("location", "b")]%string (Ok []) None false
                 else mkResponse 200 "HTTP/1.1" [] (Ok []) None false))
    (λ _, 0).

Definition failing : Network (H := fields) :=
  mkNetwork (λ _, None) (λ _ _, inl (dns "no such host" "x")) (λ _, 0).

Abbreviation demo_call :=
  (call (J := unit) idempotent text Some parse join to_uri (λ _, None) (λ _ _, None) (λ _ _ j, j)) (only parsing).

Example redirected :
  (λ q, (uri_host (req_uri q), req_headers q)) <$>
    (demo_call 5 network (config 1 true) None (request (config 1 true)) 1).1 =
  [(Some "a", [("authorization", "k"); ("accept", "x")]); (Some "b", [("accept", "x")])]%string.
Proof. reflexivity. Qed.
End Demo.

Lemma follow_up_terminates_witness :
  ∃ sent result,
    Demo.demo_call 20 Demo.network (Demo.config 1 true) None (Demo.request (Demo.config 1 true)) 1 = (sent, Some result) ∧
    len sent ≤ 15.
Proof.
  apply (follow_up_terminates (J := unit) Demo.idempotent Demo.text Some Demo.parse Demo.join Demo.to_uri
           (λ _, None) (λ _ _, None) (λ _ _ j, j) Demo.network (Demo.config 1 true) None
           (Demo.request (Demo.config 1 true)) 1 20).
  - split; try reflexivity; unfold U32_MAX; simpl; lia.
  - vm_compute. split_and!; discriminate.
  - reflexivity.
Defined.

Lemma redirect_request_spec_witness :
  ∃ same, same_origin (Demo.uri_of "a") (Demo.uri_of "b") = Ok same ∧
  match into_redirect_request (capture (Demo.request (Demo.config 1 true)) Capture_Rebuildable) 302
          (Demo.uri_of "b") (mkTrace 0 1 0) None with
  | Ok (Some r') => redirect_of (Demo.request (Demo.config 1 true)) 302 (Demo.uri_of "b") (mkTrace 0 1 0) None same r' ∧
                    ¬ (preserve_body 302 = true ∧ req_body (Demo.request (Demo.config 1 true)) = Body_Streaming)
  | Ok None => preserve_body 302 = true ∧ req_body (Demo.request (Demo.config 1 true)) = Body_Streaming
  | Err _ | Panic => False
  end.
Proof.
  apply (redirect_request_spec (Demo.request (Demo.config 1 true)) 302 (Demo.uri_of "b") (mkTrace 0 1 0) None);
    reflexivity.
Defined.

Lemma credentials_stay_on_origin_witness : same_origin (Demo.uri_of "a") (Demo.uri_of "a") = Ok true.
Proof.
  pose (q := default (Demo.request (Demo.config 1 true))
               (head (Demo.demo_call 5 Demo.network (Demo.config 1 true) None
                        (Demo.request (Demo.config 1 true)) 1).1)).
  apply (credentials_stay_on_origin (J := unit) Demo.idempotent Demo.text Some Demo.parse Demo.join Demo.to_uri
           (λ _, None) (λ _ _, None) (λ _ _ j, j) Demo.network (Demo.config 1 true) None
           (Demo.request (Demo.config 1 true)) 1 5 q "authorization").
  - reflexivity.
  - reflexivity.
  - vm_compute. left.
  - left.
  - by left.
  - vm_compute. discriminate.
Defined.

Lemma follow_up_stays_https_witness :
  Forall (λ q, uri_scheme_str (req_uri q) = Some "https"%string)
    (Demo.demo_call 5 Demo.network (Demo.config 1 true) None (Demo.request (Demo.config 1 true)) 1).1.
Proof.
  apply Forall_forall. intros q Hq.
  apply (follow_up_stays_https (J := unit) Demo.idempotent Demo.text Some Demo.parse Demo.join Demo.to_uri
           (λ _, None) (λ _ _, None) (λ _ _ j, j) Demo.network (Demo.config 1 true) None
           (Demo.request (Demo.config 1 true)) 1 5 q); try reflexivity; try (intros ? ? ? [=]). exact Hq.
Defined.

Lemma retry_after_error_witness :
  let c := Demo.config 1 true in
  let st := start (J := unit) None (Demo.request c) 1 in
  let out := iterate Demo.idempotent Demo.text Some Demo.parse Demo.join Demo.to_uri (λ _, None) (λ _ _, None)
               (λ _ _ j, j) Demo.failing c None 0 st in
  out = (Some (traced st), Err (dns "no such host" "x")) ∨
  ∃ ext, out = (Some (traced st), Ok (again st (with_request_extensions (lp_request st) ext)
                                        (u32_wrapping_add (lp_retries st) 1) (lp_redirects st) (lp_auths st))) ∧
    ext_cached_addresses ext = None ∧ ext_dispatcher_queued ext = false ∧
    ext_selected_proxy ext = ext_selected_proxy (req_extensions (lp_request st)) ∧
    req_body (lp_request st) ≠ Body_Streaming ∧ lp_retries st < 1 ∧
    (request_committed (dns "no such host" "x") = true → Demo.idempotent (req_method (lp_request st)) = true).
Proof.
  intros c st out.
  apply (retry_after_error (J := unit) Demo.idempotent Demo.text Some Demo.parse Demo.join Demo.to_uri
           (λ _, None) (λ _ _, None) (λ _ _ j, j) Demo.failing c None 0 st
           (capture (traced st) (for_policy c)) (traced st) (dns "no such host" "x"));
    [reflexivity|left; reflexivity|reflexivity|reflexivity|done].
Defined.

Lemma light_call_passes_through_witness :
  (Demo.demo_call 1 Demo.network (Demo.config 0 false) None (Demo.request (Demo.config 0 false)) 1).2 =
  Some (Ok (mkResponse 302 "HTTP/1.1" [("location", "b")]%string (Ok []) None false)).
Proof.
  pose (q := traced (start (J := unit) None (Demo.request (Demo.config 0 false)) 1)).
  rewrite (light_call_passes_through (J := unit) Demo.idempotent Demo.text Some Demo.parse Demo.join Demo.to_uri
             (λ _, None) (λ _ _, None) (λ _ _ j, j) Demo.network (Demo.config 0 false) None
             (Demo.request (Demo.config 0 false)) 1 0 (capture q Capture_Light) q).
  - reflexivity.
  - exists default_call_options, None, None. split; reflexivity.
  - reflexivity.
  - simpl. lia.
  - vm_compute. split_and!; discriminate.
  - reflexivity.
Defined.
