(* ===== verification/ConnectTunnel.v ===== *)
(** * CONNECT tunnels

    The CONNECT client of openwire/src/transport/connect.rs: the request it writes, the reading and
    parsing of the proxy's answer, the loop over authentication challenges, and the connection that gives
    back the bytes read past the answer.

    A connection to the proxy is what the proxy sends, in the pieces it arrives in, how that ends, and
    what was written.  The header map, [HeaderName::from_bytes], [HeaderValue::from_str] and
    [StatusCode::from_u16] of the http crate, the credentials' header value and the authenticator are
    parameters.  A text is its bytes. *)

From S2P Require Import Prelude Net Error Http WsSession Proxy Policy Request FollowUp.

(** ** Text *)

Definition CR : ascii := "013"%char.
Definition LF : ascii := "010"%char.
Definition NUL : ascii := "000"%char.
Definition CRLF : string := String CR (String LF EmptyString).

(** The text of some bytes. *)
Definition text_of (bs : bytes) : string := string_of_list_ascii ((λ b, ascii_of_nat (Z.to_nat b)) <$> bs).

(** The characters with [char::is_whitespace], encoded. *)
Definition whitespace : list string :=
  text_of <$> [[9]; [10]; [11]; [12]; [13]; [32]; [0xC2; 0x85]; [0xC2; 0xA0]; [0xE1; 0x9A; 0x80]]
    ++ ((λ b, [0xE2; 0x80; b]) <$> [0x80; 0x81; 0x82; 0x83; 0x84; 0x85; 0x86; 0x87; 0x88; 0x89; 0x8A; 0xA8; 0xA9; 0xAF])
    ++ [[0xE2; 0x81; 0x9F]; [0xE3; 0x80; 0x80]].

(** How many bytes the first of [patterns] in front of the text has, 0 if there is none. *)
Definition width (patterns : list string) (s : string) : nat :=
  from_option String.length O (List.find (λ p, starts_with p s) patterns).

(** [str::trim_start]; [skip] bytes of a character found are left. *)
Fixpoint trim_front (patterns : list string) (skip : nat) (s : string) : string :=
  match s with
  | EmptyString => EmptyString
  | String a t =>
    match skip with
    | S k => trim_front patterns k t
    | O => match width patterns s with O => s | S k => trim_front patterns k t end
    end
  end.
(** [str::trim]. *)
Definition str_trim (s : string) : string :=
  string_rev (trim_front (string_rev <$> whitespace) 0 (string_rev (trim_front whitespace 0 s))).

(** The pieces between occurrences of a pattern, which are skipped. *)
Fixpoint pieces (patterns : list string) (skip : nat) (s : string) : list string :=
  match s with
  | EmptyString => [EmptyString]
  | String a t =>
    match skip with
    | S k => pieces patterns k t
    | O =>
      match width patterns s with
      | O => match pieces patterns 0 t with [] => [String a EmptyString] | w :: ws => String a w :: ws end
      | S k => EmptyString :: pieces patterns k t
      end
    end
  end.
(** [str::split] of a text and [str::split_whitespace]. *)
Definition split_str (p s : string) : list string := pieces [p] 0 s.
Definition split_whitespace (s : string) : list string := filter (λ w, w ≠ EmptyString) (pieces whitespace 0 s).

Example split_str_lines : split_str CRLF ("a" +:+ CRLF +:+ CRLF +:+ "b") = ["a"; ""; "b"]%string.
Proof. reflexivity. Qed.
Example split_whitespace_words :
  split_whitespace (" HTTP/1.1" +:+ text_of [0xC2; 0xA0] +:+ "200  OK") = ["HTTP/1.1"; "200"; "OK"]%string.
Proof. vm_compute. reflexivity. Qed.
Example str_trim_both : str_trim (text_of [0xE3; 0x80; 0x80] +:+ " a b" +:+ text_of [9; 0xE2; 0x80; 0xA9]) = "a b"%string.
Proof. vm_compute. reflexivity. Qed.

(** ** Connections to the proxy *)

Inductive ReadEnd : Type := End_Eof | End_Error (error : string) | End_Timeout (left : Duration).
Inductive WriteFault : Type := Fault_Write (written : nat) (error : string) | Fault_Flush (error : string).

(** A piece is read by one or more calls and never two pieces by one; [End_Timeout] needs a deadline. *)
Record Conn : Type := mkConn {
  cn_chunks : list bytes;
  cn_end : ReadEnd;
  cn_write : option WriteFault;
  cn_out : string;
}.

(** All the proxy will still send. *)
Definition incoming (c : Conn) : bytes := mjoin (cn_chunks c).
Definition with_chunks (c : Conn) (cs : list bytes) : Conn := mkConn cs (cn_end c) (cn_write c) (cn_out c).
Definition with_out (c : Conn) (o : string) : Conn := mkConn (cn_chunks c) (cn_end c) (cn_write c) o.

(** [windows]. *)
Fixpoint windows {A} (n : nat) (l : list A) : list (list A) :=
  match l with
  | [] => []
  | _ :: t => if (n <=? length l)%nat then take n l :: windows n t else []
  end.

(** [find_connect_response_end], openwire/transport/connect.rs:1190-1195. *)
Definition find_connect_response_end (response : bytes) : option nat :=
  (λ pos, (pos + 4)%nat) <$> position (λ w, bool_decide (w = [13; 10; 13; 10])) (windows 4 response).

(** [split_connect_response_head], openwire/transport/connect.rs:1197-1205. *)
Definition split_connect_response_head (response : bytes) (head_end : nat) : bytes * bytes :=
  (take head_end response, drop head_end response).

(** [validate_connect_token], openwire/transport/connect.rs:826-833. *)
Definition validate_connect_token (value what : string) : outcome WireError unit :=
  if contains_char CR value || contains_char LF value || contains_char NUL value
  then Err (invalid_request (what +:+ " must not contain CR, LF, or NUL"))
  else Ok ().

(** [proxy_connect_status_error], openwire/transport/connect.rs:1318-1320. *)
Definition proxy_connect_status_error (status_line : string) : WireError :=
  proxy_tunnel_non_retryable ("proxy CONNECT failed: " +:+ status_line).

Section Tunnels.
Context {H : Type} `{HeaderMapLaws H}.
(** [HeaderMap::new], [HeaderValue::to_str], [HeaderName::from_bytes], [HeaderValue::from_str] and
    [StatusCode::from_u16]; the text of the error when one of them or [parse] refuses a text; Debug of a text
    and of a duration; base64. *)
Context (no_headers : H) (to_str header_name header_value : string → option string)
        (status_from_u16 : Z → option Z) (why quoted : string → string) (debug : Duration → string)
        (base64 : string → string).

Definition fields_of (h : H) : list (string * string) := mjoin ((λ k, pair k <$> hm_get_all k h) <$> hm_keys h).

(** The fields of a request, openwire/transport/connect.rs:806-821. *)
Fixpoint push_fields (fields : list (string * string)) (request : string) : outcome WireError string :=
  match fields with
  | [] => Ok request
  | (name, value) :: fields =>
    if String.eqb name "host" then push_fields fields request else
    match to_str value with
    | None => Err (invalid_request ("CONNECT header " +:+ name +:+ " is not valid ASCII: " +:+ why value))
    | Some value =>
      let? _ := validate_connect_token value "proxy CONNECT header value" in
      push_fields fields (request +:+ name +:+ ": " +:+ value +:+ CRLF)
    end
  end.
(** [build_connect_request], openwire/transport/connect.rs:802-824. *)
Definition build_connect_request (authority : string) (headers : H) : outcome WireError string :=
  let? _ := validate_connect_token authority "proxy CONNECT authority" in
  let? request := push_fields (fields_of headers)
                    ("CONNECT " +:+ authority +:+ " HTTP/1.1" +:+ CRLF +:+ "Host: " +:+ authority +:+ CRLF) in
  Ok (request +:+ CRLF).

(** [parse_connect_status], openwire/transport/connect.rs:1265-1297. *)
Definition parse_connect_status (status_line : string) : outcome WireError Z :=
  let invalid src := Err (proxy_tunnel ("proxy CONNECT returned an invalid status line: " +:+ status_line) src) in
  let parts := split_whitespace status_line in
  let protocol := default EmptyString (head parts) in
  if negb (String.eqb protocol "HTTP/1.1") && negb (String.eqb protocol "HTTP/1.0")
  then invalid "invalid proxy status line"%string
  else match parts !! 1%nat with
       | None => invalid "missing proxy status code"%string
       | Some code =>
         match parse_uint U16_MAX code with
         | None => invalid (why code)
         | Some status => match status_from_u16 status with Some s => Ok s | None => invalid (why code) end
         end
       end.

(** [ConnectResponseHead], openwire/transport/connect.rs:689-695. *)
Record ConnectResponseHead : Type := mkHead {
  ch_status : Z;
  ch_status_line : string;
  ch_headers : H;
  ch_prefetched : bytes;
}.

(** The header lines of an answer, openwire/transport/connect.rs:1230-1254. *)
Fixpoint parse_header_lines (lines : list string) (headers : H) : outcome WireError H :=
  match lines with
  | [] => Ok headers
  | line :: lines =>
    if String.eqb line EmptyString then parse_header_lines lines headers else
    match split_once ":"%char line with
    | None => Err (proxy_tunnel ("invalid proxy CONNECT header line: " +:+ line) "malformed proxy header")
    | Some (name, value) =>
      match header_name (str_trim name) with
      | None => Err (proxy_tunnel ("invalid proxy CONNECT header name " +:+ quoted name) (why (str_trim name)))
      | Some name =>
        match header_value (str_trim value) with
        | None => Err (proxy_tunnel ("invalid proxy CONNECT header value for " +:+ name) (why (str_trim value)))
        | Some value => parse_header_lines lines (hm_append name value headers)
        end
      end
    end
  end.
(** [parse_connect_response_head], openwire/transport/connect.rs:1207-1263. *)
Definition parse_connect_response_head (head_bytes prefetched : bytes) : outcome WireError ConnectResponseHead :=
  if negb (utf8_valid head_bytes)
  then Err (proxy_tunnel "proxy CONNECT response was not valid UTF-8" (why (text_of head_bytes))) else
  let text := default EmptyString (head (split_str (CRLF +:+ CRLF) (text_of head_bytes))) in
  match split_str CRLF text with
  | [] => Err (proxy_tunnel "proxy returned an empty CONNECT response" "empty proxy response")
  | status_line :: lines =>
    let? status := parse_connect_status status_line in
    let? headers := parse_header_lines lines no_headers in
    Ok (mkHead status status_line headers prefetched)
  end.

(** One call of [read] with [n] bytes of room. *)
Definition conn_read (n : nat) (c : Conn) : outcome ReadEnd bytes * Conn :=
  match cn_chunks c with
  | [] => (match cn_end c with End_Eof => Ok [] | e => Err e end, c)
  | chunk :: rest => (Ok (take n chunk), with_chunks c (match drop n chunk with [] => rest | d => d :: rest end))
  end.

(** The error of [read_connect_response], openwire/transport/connect.rs:845-853. *)
Definition connect_timeout_error (t : Duration) : WireError :=
  with_connect_timeout (with_establishment Stage_ProxyTunnel true
    (with_phase Phase_ProxyTunnel (error_new Kind_Timeout ("proxy CONNECT timed out after " +:+ debug t)))).

(** The loop of [read_connect_response_inner], openwire/transport/connect.rs:864-886, with the timeout of
    [read_connect_response], openwire/transport/connect.rs:835-859.  A round adds a byte, so 8194 rounds
    are enough. *)
Fixpoint read_head (fuel : nat) (response : bytes) (c : Conn) : outcome WireError (bytes * nat) * Conn :=
  match fuel with
  | O => (Panic, c)
  | S fuel =>
    match conn_read 512 c with
    | (Err (End_Error e), c) => (Err (proxy_tunnel "failed to read proxy CONNECT response" e), c)
    | (Err (End_Timeout t), c) => (Err (connect_timeout_error t), c)
    | (Err End_Eof, c) | (Panic, c) => (Panic, c)
    | (Ok read, c) =>
      if (length read =? 0)%nat
      then (Err (proxy_tunnel "proxy closed connection during CONNECT" "proxy closed connection"), c) else
      let response := response ++ read in
      match find_connect_response_end response with
      | Some split_at => (Ok (response, split_at), c)
      | None =>
        if 8192 <? len response
        then (Err (proxy_tunnel "proxy CONNECT response headers exceeded 8KiB" "proxy response too large"), c)
        else read_head fuel response c
      end
    end
  end.

(** [read_connect_response] and [read_connect_response_inner], openwire/transport/connect.rs:835-889. *)
Definition read_connect_response (c : Conn) : outcome WireError ConnectResponseHead * Conn :=
  match read_head (Z.to_nat 8194) [] c with
  | (Ok (response, head_end), c) =>
    let '(h, prefetched) := split_connect_response_head response head_end in
    (parse_connect_response_head h prefetched, c)
  | (Err e, c) => (Err e, c)
  | (Panic, c) => (Panic, c)
  end.

(** [PrefetchedTunnelBytes], openwire/transport/connect.rs:697-700. *)
Record PrefetchedTunnelBytes : Type := mkTunnel {
  tn_inner : Conn;
  tn_prefetched : option bytes;
}.
(** [PrefetchedTunnelBytes::new], openwire/transport/connect.rs:703-708. *)
Definition prefetched_new (inner : Conn) (prefetched : bytes) : PrefetchedTunnelBytes :=
  mkTunnel inner (if (length prefetched =? 0)%nat then None else Some prefetched).

(** [Read for PrefetchedTunnelBytes], openwire/transport/connect.rs:717-736, with [n] bytes of room. *)
Definition tunnel_read (n : nat) (t : PrefetchedTunnelBytes) : outcome ReadEnd bytes * PrefetchedTunnelBytes :=
  match tn_prefetched t with
  | Some prefetched =>
    let copy_len := Nat.min (length prefetched) n in
    let rest := drop copy_len prefetched in
    (Ok (take copy_len prefetched), mkTunnel (tn_inner t) (if (length rest =? 0)%nat then None else Some rest))
  | None => let '(r, c) := conn_read n (tn_inner t) in (r, mkTunnel c None)
  end.

(** [ConnectTunnelOutcome], openwire/transport/connect.rs:684-687. *)
Inductive ConnectTunnelOutcome : Type :=
| Established (t : PrefetchedTunnelBytes)
| NotEstablished (head : ConnectResponseHead).

(** [send_connect_request], openwire/transport/connect.rs:772-800; the text is what reached the proxy. *)
Definition send_connect_request (authority : string) (headers : H) (c : Conn)
    : outcome WireError ConnectTunnelOutcome * Conn :=
  match build_connect_request authority headers with
  | Err e => (Err e, c)
  | Panic => (Panic, c)
  | Ok request =>
    match cn_write c with
    | Some (Fault_Write n e) => (Err (proxy_tunnel "failed to write proxy CONNECT request" e), with_out c (cn_out c +:+ String.substring 0 n request))
    | Some (Fault_Flush e) => (Err (proxy_tunnel "failed to flush proxy CONNECT request" e), with_out c (cn_out c +:+ request))
    | None =>
      match read_connect_response (with_out c (cn_out c +:+ request)) with
      | (Ok h, c) =>
        if ch_status h =? STATUS_OK
        then (Ok (Established (prefetched_new c (ch_prefetched h))), c)
        else (Ok (NotEstablished h), c)
      | (Err e, c) => (Err e, c)
      | (Panic, c) => (Panic, c)
      end
    end
  end.

(** [sanitize_connect_headers], openwire/transport/connect.rs:1310-1316. *)
Definition sanitize_connect_headers (headers : H) : H :=
  foldl (λ h v, hm_append "proxy-authorization" v h) no_headers (hm_get_all "proxy-authorization" headers).

(** [connect_request_headers], openwire/transport/connect.rs:1299-1308. *)
Definition connect_request_headers (authority : string) (headers : H) : outcome WireError H :=
  match header_value authority with
  | None => Err (invalid_request ("proxy CONNECT authority is not a valid Host header: " +:+ why authority))
  | Some host => Ok (hm_insert "host" host (sanitize_connect_headers headers))
  end.

(** [ProxyCredentials::basic_auth_header_value], openwire/proxy.rs:321-327. *)
Definition basic_auth_header_value (c : ProxyCredentials) : string :=
  "Basic " +:+ base64 (cred_username c +:+ ":" +:+ cred_password c).

(** [ConnectTunnelParams], openwire/transport/connect.rs:60-72; the connector is the [n]-th reconnection. *)
Record ConnectTunnelParams : Type := mkTunnelParams {
  tp_proxy_addr : SocketAddr;
  tp_target_uri : Uri;
  tp_stream : Conn;
  tp_tcp_connector : nat → WireError + Conn;
  tp_auth_attempts : AuthAttemptState;
  tp_initial_proxy_credentials : option ProxyCredentials;
  tp_proxy_authenticator : option (Authenticator (H := H));
  tp_max_proxy_auth_attempts : Z;
}.

(** The loop of [establish_connect_tunnel], openwire/transport/connect.rs:539-616; with the result, what was written
    to each connection to the proxy, the last one first. *)
Fixpoint connect_loop (fuel : nat) (p : ConnectTunnelParams) (authority : string) (connect_headers : H)
    (auth_count : Z) (reconnects : nat) (c : Conn) (sent : list string)
    : outcome WireError PrefetchedTunnelBytes * list string :=
  match fuel with
  | O => (Panic, sent)
  | S fuel =>
    let '(r, c) := send_connect_request authority connect_headers c in
    let sent := cn_out c :: sent in
    match r with
    | Err e => (Err e, sent)
    | Panic => (Panic, sent)
    | Ok (Established t) => (Ok t, sent)
    | Ok (NotEstablished h) =>
      let failed := Err (proxy_connect_status_error (ch_status_line h)) in
      if negb (ch_status h =? PROXY_AUTHENTICATION_REQUIRED) then (failed, sent) else
      match tp_proxy_authenticator p with
      | None => (failed, sent)
      | Some authenticator =>
        let a := tp_auth_attempts p in
        let effective := u32_saturating_add (at_auth_count a) auth_count in
        if tp_max_proxy_auth_attempts p <=? effective then (failed, sent) else
        match connect_request_headers authority connect_headers with
        | Err e => (Err e, sent)
        | Panic => (Panic, sent)
        | Ok request_headers =>
          match authenticate authenticator
                  (mkAuthContext Auth_Proxy (Method_Other "CONNECT") (tp_target_uri p) "HTTP/1.1" request_headers
                     no_extensions (Some Body_Absent) (ch_status h) (ch_headers h) (at_total_attempt a)
                     (at_retry_count a) (at_redirect_count a) effective) with
          | inl e => (Err (with_proxy_addr (tp_proxy_addr p) (with_response_status (ch_status h) e)), sent)
          | inr None => (failed, sent)
          | inr (Some request) =>
            match tp_tcp_connector p reconnects with
            | inl e => (Err e, sent)
            | inr c =>
              connect_loop fuel p authority (sanitize_connect_headers (req_headers request))
                (u32_wrapping_add auth_count 1) (S reconnects) c sent
            end
          end
        end
      end
    end
  end.

(** The rounds the limit allows. *)
Definition connect_fuel (p : ConnectTunnelParams) : nat :=
  S (Z.to_nat (tp_max_proxy_auth_attempts p - at_auth_count (tp_auth_attempts p))).

(** [establish_connect_tunnel], openwire/transport/connect.rs:513-617. *)
Definition establish_connect_tunnel (p : ConnectTunnelParams) : outcome WireError PrefetchedTunnelBytes * list string :=
  match uri_authority (tp_target_uri p) with
  | None => (Err (invalid_request "request URI is missing an authority"), [])
  | Some authority =>
    match tp_initial_proxy_credentials p with
    | None => connect_loop (connect_fuel p) p authority no_headers 0 0 (tp_stream p) []
    | Some c =>
      match header_value (basic_auth_header_value c) with
      | None => (Err (with_proxy_addr (tp_proxy_addr p)
                   (with_source Kind_InvalidRequest "proxy basic auth header is not valid ASCII"
                      (why (basic_auth_header_value c)))), [])
      | Some v => connect_loop (connect_fuel p) p authority (hm_insert "proxy-authorization" v no_headers) 0 0 (tp_stream p) []
      end
    end
  end.

(** *** The end of the head *)

Lemma windows_4 (l : bytes) i :
  windows 4 l !! i = Some [13; 10; 13; 10] ↔ take 4 (drop i l) = [13; 10; 13; 10].
Proof.
  revert i. induction l as [|x l IH]; intros i; [by destruct i|].
  cbn [windows]. destruct (Nat.leb_spec 4 (length (x :: l))) as [Hl|Hl].
  - destruct i as [|i]; [split; intros E; [by apply (inj Some)|exact (f_equal Some E)]|]. apply IH.
  - split; [done|]. intros Ht. apply (f_equal length) in Ht. rewrite length_take, length_drop in Ht.
    change (length [13; 10; 13; 10]) with 4%nat in Ht. lia.
Qed.

(** The end is where the first blank line is. *)
Lemma find_end_Some l e :
  find_connect_response_end l = Some e ↔
  ∃ i, e = (i + 4)%nat ∧ take 4 (drop i l) = [13; 10; 13; 10] ∧
       ∀ j, (j < i)%nat → take 4 (drop j l) ≠ [13; 10; 13; 10].
Proof.
  unfold find_connect_response_end. rewrite fmap_Some. split.
  - intros (i & (l1 & x & l2 & Hw & Hi & Hx & Hf)%position_Some & ->). exists i. split; [done|].
    apply bool_decide_eq_true in Hx as ->. split.
    + apply windows_4. rewrite Hw, lookup_app_r, Hi, Nat.sub_diag by lia. done.
    + intros j Hj Ht. apply windows_4 in Ht. rewrite Hw, lookup_app_l in Ht by lia.
      rewrite Forall_lookup in Hf. apply Hf in Ht. by rewrite bool_decide_eq_false in Ht.
  - intros (i & -> & Ht & Hj). exists i. split; [|done]. apply windows_4 in Ht.
    destruct (position _ _) as [k|] eqn:E.
    + pose proof E as (l1 & x & l2 & Hw & Hi & Hx & Hf)%position_Some. apply bool_decide_eq_true in Hx as ->.
      destruct (Nat.lt_trichotomy i k) as [Hlt|[->|Hlt]]; [|done|].
      * rewrite Hw, lookup_app_l in Ht by lia. rewrite Forall_lookup in Hf. apply Hf in Ht. by rewrite bool_decide_eq_false in Ht.
      * destruct (Hj k Hlt). apply windows_4. rewrite Hw, lookup_app_r, Hi, Nat.sub_diag by lia. done.
    + apply position_None in E. rewrite Forall_lookup in E. apply E in Ht. by rewrite bool_decide_eq_false in Ht.
Qed.

Lemma find_end_bounds l e : find_connect_response_end l = Some e → (4 ≤ e ≤ length l)%nat.
Proof.
  intros (i & -> & Ht & _)%find_end_Some. apply (f_equal length) in Ht.
  rewrite length_take, length_drop in Ht. change (length [13; 10; 13; 10]) with 4%nat in Ht. lia.
Qed.

(** More bytes neither move nor hide the end, and until it is complete there is none. *)
Lemma find_end_prefix l l' e :
  find_connect_response_end l = Some e → find_connect_response_end (l ++ l') = Some e.
Proof.
  intros Hf. pose proof (find_end_bounds _ _ Hf). apply find_end_Some in Hf as (i & -> & Ht & Hj).
  apply find_end_Some. exists i. split; [done|].
  assert (Htd : ∀ j, (j ≤ i)%nat → take 4 (drop j (l ++ l')) = take 4 (drop j l)).
  { intros j Hji. rewrite drop_app_le by lia. apply take_app_le. rewrite length_drop. lia. }
  split; [by rewrite Htd|]. intros j Hlt. rewrite Htd by lia. by apply Hj.
Qed.
Lemma find_end_take l e k :
  find_connect_response_end l = Some e →
  find_connect_response_end (take k l) = if decide (e ≤ k)%nat then Some e else None.
Proof.
  intros Hf. pose proof (find_end_bounds _ _ Hf). destruct (find_connect_response_end (take k l)) as [e'|] eqn:E.
  - pose proof (find_end_bounds _ _ E) as Hb. rewrite length_take in Hb. apply (find_end_prefix _ (drop k l)) in E.
    rewrite take_drop, Hf in E. injection E as ->. rewrite decide_True by lia. done.
  - case_decide as Hk; [|done]. apply find_end_Some in Hf as (i & -> & Ht & Hj).
    assert (find_connect_response_end (take k l) = Some (i + 4)%nat); [|congruence].
    apply find_end_Some. exists i. split; [done|].
    assert (Htd : ∀ j, (j ≤ i)%nat → take 4 (drop j (take k l)) = take 4 (drop j l)).
    { intros j Hji. rewrite <-(take_drop k l) at 2. rewrite drop_app_le by (rewrite length_take; lia).
      rewrite take_app_le; [done|]. rewrite length_drop, length_take. lia. }
    split; [by rewrite Htd|]. intros j Hlt. rewrite Htd by lia. by apply Hj.
Qed.

(** *** Reading *)

Definition arrives (c : Conn) : Prop := Forall (λ k, k ≠ []) (cn_chunks c).

Lemma conn_read_some n c :
  arrives c → (0 < n)%nat → incoming c ≠ [] →
  ∃ read c', conn_read n c = (Ok read, c') ∧ incoming c = read ++ incoming c' ∧ arrives c' ∧
    (1 ≤ length read ≤ n)%nat ∧ cn_out c' = cn_out c ∧ cn_end c' = cn_end c.
Proof.
  unfold arrives, incoming, conn_read. intros Ha Hn Hi. destruct (cn_chunks c) as [|chunk rest]; [done|].
  apply Forall_cons in Ha as [Hc Ha]. eexists _, _. split; [done|]. cbn [cn_chunks cn_out cn_end with_chunks]. split_and!; [| | | |done..].
  - rewrite <-(take_drop n chunk) at 1. destruct (drop n chunk); cbn; by rewrite <-?app_assoc, ?app_nil_r.
  - destruct (drop n chunk) eqn:E; [done|]. by constructor.
  - destruct chunk; [done|]. rewrite length_take. cbn. lia.
  - rewrite length_take. lia.
Qed.

Lemma read_head_finds fuel response c e :
  arrives c → find_connect_response_end (response ++ incoming c) = Some e →
  (length response < e ≤ Z.to_nat 8193)%nat → (e - length response ≤ fuel)%nat →
  ∃ response' c', read_head fuel response c = (Ok (response', e), c') ∧
    response' ++ incoming c' = response ++ incoming c ∧ (e ≤ length response')%nat ∧ arrives c' ∧ cn_out c' = cn_out c.
Proof.
  revert response c. induction fuel as [|fuel IH]; intros response c Ha Hf He Hfuel; [lia|].
  pose proof (find_end_bounds _ _ Hf) as Hb. rewrite length_app in Hb.
  destruct (conn_read_some 512 c) as (read & c' & Hr & Hi & Ha' & Hl & Ho & _); [done|lia|by intros E; rewrite E in Hb; cbn in Hb; lia|].
  cbn [read_head]. rewrite Hr. destruct (Nat.eqb_spec (length read) 0); [lia|].
  rewrite Hi, app_assoc in Hf. pose proof (find_end_take _ _ (length (response ++ read)) Hf) as Ht.
  rewrite take_app_length in Ht. rewrite Ht. case_decide as Hd.
  - eexists _, _. split; [done|]. split_and!; try done. by rewrite Hi, app_assoc.
  - rewrite length_app in Hd. destruct (Z.ltb_spec 8192 (len (response ++ read))) as [Hlt|_].
    { unfold len in Hlt. rewrite length_app in Hlt. lia. }
    destruct (IH (response ++ read) c') as (response' & c'' & He' & Hr' & ? & ? & ?); [done|done|rewrite length_app; lia..|].
    exists response', c''. split; [done|]. split_and!; [by rewrite Hr', Hi, app_assoc|done..|congruence].
Qed.

(** Too long a head is refused, however it arrives. *)
Lemma read_head_refuses fuel response c :
  arrives c → find_connect_response_end (take (Z.to_nat 8704) (response ++ incoming c)) = None →
  len response ≤ 8192 → 8704 ≤ len (response ++ incoming c) → 8192 < len response + Z.of_nat fuel →
  ∃ c', read_head fuel response c
    = (Err (proxy_tunnel "proxy CONNECT response headers exceeded 8KiB" "proxy response too large"), c').
Proof.
  revert response c. induction fuel as [|fuel IH]; intros response c Ha Hf Hl Hlen Hfuel; [lia|].
  destruct (conn_read_some 512 c) as (read & c' & Hr & Hi & Ha' & Hlr & _ & _); [done|lia| |].
  { intros E. rewrite E, app_nil_r in Hlen. lia. }
  cbn [read_head]. rewrite Hr. destruct (Nat.eqb_spec (length read) 0); [lia|].
  rewrite Hi, app_assoc in Hf. destruct (find_connect_response_end (response ++ read)) as [e|] eqn:E.
  { apply (find_end_prefix _ (take (Z.to_nat 8704 - length (response ++ read)) (incoming c'))) in E.
    rewrite take_app_ge in Hf by (unfold len in *; rewrite length_app; lia). congruence. }
  destruct (Z.ltb_spec 8192 (len (response ++ read))); [by eexists|].
  apply IH; [done|done|done|by rewrite <-app_assoc, <-Hi|]. unfold len in *. rewrite length_app. lia.
Qed.

(** The proxy's answer is read the same however it arrives: if the first blank line ends within the
    limit, then for every way of cutting the stream into pieces the head is the bytes up to it, and the
    bytes already read past it together with those still to come are the rest; and if none ends
    within 8704 bytes the answer is refused for its length. *)
Theorem connect_answer_any_arrival c :
  arrives c →
  (∀ e, find_connect_response_end (incoming c) = Some e → Z.of_nat e ≤ 8193 →
    ∃ prefetched c', read_connect_response c = (parse_connect_response_head (take e (incoming c)) prefetched, c') ∧
      prefetched ++ incoming c' = drop e (incoming c) ∧ arrives c' ∧ cn_out c' = cn_out c) ∧
  (find_connect_response_end (take (Z.to_nat 8704) (incoming c)) = None → 8704 ≤ len (incoming c) →
    ∃ c', read_connect_response c
      = (Err (proxy_tunnel "proxy CONNECT response headers exceeded 8KiB" "proxy response too large"), c')).
Proof.
  intros Ha. unfold read_connect_response. split.
  - intros e He Hle. pose proof (find_end_bounds _ _ He).
    destruct (read_head_finds (Z.to_nat 8194) [] c e) as (response & c' & -> & Hi & Hl & Ha' & Ho); [done|done|cbn [length]; lia|cbn [length]; lia|].
    cbn [app] in Hi. exists (drop e response), c'. unfold split_connect_response_head.
    rewrite <-Hi, take_app_le, drop_app_le by done. done.
  - intros Hf Hlen. destruct (read_head_refuses (Z.to_nat 8194) [] c) as [c' ->]; [done|done|rewrite len_nil; lia|done|rewrite len_nil; lia|].
    by eexists.
Qed.

Lemma conn_read_ok n c bs c' :
  conn_read n c = (Ok bs, c') → incoming c = bs ++ incoming c' ∧ cn_out c' = cn_out c ∧ (arrives c → arrives c').
Proof.
  unfold conn_read, incoming, arrives. destruct (cn_chunks c) as [|chunk rest] eqn:E.
  - destruct (cn_end c); intros [= <- <-]. rewrite E. split_and!; [done..|constructor].
  - intros [= <- <-]. cbn [cn_chunks cn_out with_chunks]. split_and!; [|done|].
    + rewrite <-(take_drop n chunk) at 1. destruct (drop n chunk); cbn; by rewrite <-?app_assoc, ?app_nil_r.
    + intros [Hc Ha]%Forall_cons. destruct (drop n chunk); [done|by constructor].
Qed.

Lemma read_head_ok fuel response c r e c' :
  read_head fuel response c = (Ok (r, e), c') →
  find_connect_response_end r = Some e ∧ r ++ incoming c' = response ++ incoming c ∧ cn_out c' = cn_out c ∧
  (arrives c → arrives c').
Proof.
  revert response c. induction fuel as [|fuel IH]; intros response c; cbn [read_head]; [done|].
  destruct (conn_read 512 c) as [[read|[]|] c1] eqn:Er; [|done..]. apply conn_read_ok in Er as (Hi & Ho & Ha).
  destruct (_ =? _)%nat; [done|]. destruct (find_connect_response_end (response ++ read)) as [e'|] eqn:E.
  - intros [= <- -> <-]. by rewrite Hi, app_assoc.
  - destruct (_ <? _); [done|]. intros (He & Hr & Ho' & Ha')%IH. rewrite Hr, Hi, app_assoc. split_and!; [done..|congruence|tauto].
Qed.

Lemma read_head_no_panic fuel response c :
  8192 < len response + Z.of_nat fuel → len response ≤ 8192 → (read_head fuel response c).1 ≠ Panic.
Proof.
  revert response c. induction fuel as [|fuel IH]; intros response c Hf Hl; cbn [read_head]; [lia|].
  destruct (conn_read 512 c) as [[read|[]|] c1] eqn:Er; [|unfold conn_read in Er; by repeat case_match|done..|unfold conn_read in Er; by repeat case_match].
  destruct (Nat.eqb_spec (length read) 0); [done|]. destruct (find_connect_response_end _); [done|].
  destruct (Z.ltb_spec 8192 (len (response ++ read))); [done|]. apply IH; [|done]. unfold len in *. rewrite length_app. lia.
Qed.

Lemma parse_header_lines_no_panic lines h : parse_header_lines lines h ≠ Panic.
Proof. revert h. induction lines as [|l ls IH]; intros h; cbn [parse_header_lines]; [done|].
  repeat case_match; solve [done|apply IH]. Qed.

Lemma parse_head_no_panic hb pre : parse_connect_response_head hb pre ≠ Panic.
Proof.
  unfold parse_connect_response_head. destruct (negb _); [done|]. destruct (split_str _ _) as [|l ls]; [done|].
  apply no_panic_obind; [unfold parse_connect_status, no_panic; by repeat case_match|]. intros s _.
  apply no_panic_obind; [apply parse_header_lines_no_panic|]. done.
Qed.

Lemma read_response_no_panic c : (read_connect_response c).1 ≠ Panic.
Proof.
  unfold read_connect_response. pose proof (read_head_no_panic (Z.to_nat 8194) [] c) as Hn.
  rewrite len_nil in Hn. specialize (Hn ltac:(lia) ltac:(lia)).
  destruct (read_head _ _ _) as [[[r e]|er|] c']; [|done..]. apply parse_head_no_panic.
Qed.

Lemma push_fields_no_panic fs r : push_fields fs r ≠ Panic.
Proof.
  revert r. induction fs as [|[n v] fs IH]; intros r; cbn [push_fields]; [done|].
  destruct (String.eqb _ _); [apply IH|]. destruct (to_str v); [|done]. unfold validate_connect_token. case_match; [done|apply IH].
Qed.
Lemma send_no_panic authority h c : (send_connect_request authority h c).1 ≠ Panic.
Proof.
  unfold send_connect_request. destruct (build_connect_request authority h) as [r|e|] eqn:E; [|done|].
  - destruct (cn_write c) as [[]|]; [done..|]. pose proof (read_response_no_panic (with_out c (cn_out c +:+ r))) as Hn.
    destruct (read_connect_response _) as [[hd|e|] c']; [|done..]. by case_match.
  - exfalso. revert E. change (no_panic (build_connect_request authority h)).
    apply no_panic_obind; [unfold no_panic, validate_connect_token; by case_match|].
    intros [] _. apply no_panic_obind; [apply push_fields_no_panic|done].
Qed.

(** *** The tunnel *)

Definition remaining (t : PrefetchedTunnelBytes) : bytes := default [] (tn_prefetched t) ++ incoming (tn_inner t).

(** Reads with the given room, until one fails. *)
Fixpoint tunnel_reads (ns : list nat) (t : PrefetchedTunnelBytes) : bytes * PrefetchedTunnelBytes :=
  match ns with
  | [] => ([], t)
  | n :: ns =>
    match tunnel_read n t with
    | (Ok bs, t) => let '(rest, t) := tunnel_reads ns t in (bs ++ rest, t)
    | (_, t) => ([], t)
    end
  end.

Lemma tunnel_read_ok n t bs t' : tunnel_read n t = (Ok bs, t') → remaining t = bs ++ remaining t'.
Proof.
  unfold tunnel_read, remaining. destruct (tn_prefetched t) as [pre|].
  - intros [= <- <-]. cbn [default tn_prefetched tn_inner]. rewrite <-(take_drop (Nat.min (length pre) n) pre) at 1.
    destruct (drop _ pre); cbn; by rewrite <-?app_assoc, ?app_nil_r.
  - destruct (conn_read n (tn_inner t)) as [r c] eqn:E. intros [= -> <-]. by apply conn_read_ok in E as [-> _].
Qed.
Lemma tunnel_reads_prefix ns t : remaining t = (tunnel_reads ns t).1 ++ remaining (tunnel_reads ns t).2.
Proof.
  revert t. induction ns as [|n ns IH]; intros t; cbn [tunnel_reads]; [done|].
  destruct (tunnel_read n t) as [[bs|e|] t1] eqn:E.
  - apply tunnel_read_ok in E as ->. rewrite (IH t1) at 1. destruct (tunnel_reads ns t1). cbn. by rewrite app_assoc.
  - revert E. unfold tunnel_read. destruct (tn_prefetched t) eqn:Ep; [done|]. destruct (conn_read n _) as [r c] eqn:Ec.
    intros [= -> <-]. revert Ec. unfold conn_read, remaining, incoming. rewrite Ep. destruct (cn_chunks (tn_inner t)) eqn:Eh; [|done].
    intros [= _ <-]. cbn. by rewrite Eh.
  - revert E. unfold tunnel_read. destruct (tn_prefetched t) eqn:Ep; [done|]. destruct (conn_read n _) as [r c] eqn:Ec.
    intros [= -> <-]. revert Ec. unfold conn_read. by repeat case_match.
Qed.

(** C13.  A tunnel is established only by an answer 200, and it starts right after it: what the proxy sends
    is one head, complete and ending at its first blank line, with status 200, followed by the bytes of
    the tunnel; reading the tunnel, with any room at each call, gives those bytes in order, none lost to the
    reading of the head and none repeated; and a read with room makes progress while there are any. *)
Theorem tunnel_starts_after_answer authority headers c t c' :
  arrives c → send_connect_request authority headers c = (Ok (Established t), c') →
  (∃ head prefetched h, incoming c = head ++ remaining t ∧ find_connect_response_end head = Some (length head) ∧
     parse_connect_response_head head prefetched = Ok h ∧ ch_status h = 200) ∧
  (∀ ns, (tunnel_reads ns t).1 `prefix_of` remaining t ∧
     remaining (tunnel_reads ns t).2 = drop (length (tunnel_reads ns t).1) (remaining t)) ∧
  (∀ n, (0 < n)%nat → remaining t ≠ [] → ∃ b bs t', tunnel_read n t = (Ok (b :: bs), t')).
Proof.
  intros Ha. unfold send_connect_request. destruct (build_connect_request authority headers) as [r| |]; [|done..].
  destruct (cn_write c) as [[]|]; [done..|]. unfold read_connect_response.
  destruct (read_head _ _ _) as [[[response e]| |] c1] eqn:Er; [|done..].
  apply read_head_ok in Er as (He & Hi & _ & Ha'). cbn [split_connect_response_head].
  destruct (parse_connect_response_head _ _) as [h| |] eqn:Ep; [|done..].
  destruct (Z.eqb_spec (ch_status h) STATUS_OK) as [Hs|]; [|done]. intros [= <- <-].
  assert (ch_prefetched h = drop e response) as ->.
  { revert Ep. unfold parse_connect_response_head. destruct (negb _); [done|]. destruct (split_str _ _); [done|].
    intros (st & _ & (hs & _ & [= <-])%obind_Ok)%obind_Ok. done. }
  pose proof (find_end_bounds _ _ He) as Hb. split_and!.
  - exists (take e response), (drop e response), h. split_and!; [| |done..].
    + change (response ++ incoming c1 = incoming c) in Hi. rewrite <-Hi. unfold remaining, prefetched_new. cbn [tn_inner tn_prefetched].
      rewrite <-(take_drop e response) at 1. rewrite <-app_assoc. by destruct (drop e response).
    + rewrite (find_end_take _ _ e He), decide_True by lia. f_equal. rewrite length_take. lia.
  - intros ns. pose proof (tunnel_reads_prefix ns (prefetched_new c1 (drop e response))) as Hp. split; [by eexists|].
    remember (prefetched_new c1 (drop e response)) as t0 eqn:Et. rewrite Hp at 1. by rewrite drop_app_length.
  - intros n Hn Hr. unfold tunnel_read. destruct (tn_prefetched _) as [pre|] eqn:E.
    + assert (pre ≠ []) by (revert E; unfold prefetched_new; cbn; destruct (drop e response); [done|by intros [= <-]]).
      destruct pre as [|b pre]; [done|]. destruct n as [|n]; [lia|]. cbn [length Nat.min take]. eauto.
    + unfold remaining in Hr. rewrite E in Hr. cbn [default app] in Hr.
      destruct (conn_read_some n (tn_inner (prefetched_new c1 (drop e response)))) as (bs & c2 & -> & _ & _ & Hl & _);
        [by apply Ha'|done|done|]. destruct bs as [|b bs]; [cbn in Hl; lia|]. eauto.
Qed.

Lemma connect_loop_bound fuel p authority h k n c sent :
  tp_max_proxy_auth_attempts p ≤ U32_MAX → 0 ≤ k → 0 ≤ at_auth_count (tp_auth_attempts p) →
  tp_max_proxy_auth_attempts p < at_auth_count (tp_auth_attempts p) + k + Z.of_nat fuel → fuel ≠ O →
  (connect_loop fuel p authority h k n c sent).1 ≠ Panic ∧
  (length (connect_loop fuel p authority h k n c sent).2 ≤ fuel + length sent)%nat.
Proof.
  intros Hmax. revert h k n c sent. induction fuel as [|fuel IH]; intros h k n c sent Hk Hb Hf H0f; [done|].
  cbn [connect_loop]. pose proof (send_no_panic authority h c) as Hn.
  destruct (send_connect_request authority h c) as [[[t|hd]|e|] c1]; cbn [fst] in Hn; [by split; [|cbn; lia]| |by split; [|cbn; lia]|done].
  destruct (negb _); [by split; [|cbn; lia]|]. destruct (tp_proxy_authenticator p) as [auth|]; [|by split; [|cbn; lia]].
  destruct (Z.leb_spec (tp_max_proxy_auth_attempts p) (u32_saturating_add (at_auth_count (tp_auth_attempts p)) k)) as [|Hlt];
    [by split; [|cbn; lia]|].
  destruct (connect_request_headers authority h) as [rh|e|] eqn:Eh; [|by split; [|cbn; lia]|].
  2: by revert Eh; unfold connect_request_headers; case_match.
  destruct (authenticate auth _) as [e|[q|]]; [by split; [|cbn; lia]| |by split; [|cbn; lia]].
  destruct (tp_tcp_connector p n) as [e|c2]; [by split; [|cbn; lia]|].
  unfold u32_saturating_add in Hlt.
  assert (u32_wrapping_add k 1 = k + 1) as ->.
  { unfold u32_wrapping_add. apply Z.mod_small. lia. }
  destruct (IH (sanitize_connect_headers (req_headers q)) (k + 1) (S n) c2 (cn_out c1 :: sent)) as [H1' H2']; [lia..|].
  split; [done|]. cbn [length] in H2'. lia.
Qed.

(** Opening a tunnel ends: with a limit that fits the attempt counter, the exchange with the proxy
    returns a tunnel or an error after at most one request for each authentication attempt the limit
    still allows, and one more - whatever the proxy answers and the authenticator replies. *)
Theorem connect_attempts_bounded p :
  tp_max_proxy_auth_attempts p ≤ U32_MAX → 0 ≤ at_auth_count (tp_auth_attempts p) →
  (establish_connect_tunnel p).1 ≠ Panic ∧
  Z.of_nat (length (establish_connect_tunnel p).2)
    ≤ 1 + Z.max 0 (tp_max_proxy_auth_attempts p - at_auth_count (tp_auth_attempts p)).
Proof.
  intros Hmax Hb. unfold establish_connect_tunnel. destruct (uri_authority _) as [a|]; [|by split; [|cbn; lia]].
  assert (∀ h, (connect_loop (connect_fuel p) p a h 0 0 (tp_stream p) []).1 ≠ Panic ∧
    Z.of_nat (length (connect_loop (connect_fuel p) p a h 0 0 (tp_stream p) []).2)
      ≤ 1 + Z.max 0 (tp_max_proxy_auth_attempts p - at_auth_count (tp_auth_attempts p))) as Hl.
  { intros h. destruct (connect_loop_bound (connect_fuel p) p a h 0 0 (tp_stream p) []) as [H1' H2']; unfold connect_fuel in *; [lia..|done|].
    split; [done|]. cbn [length] in H2'. lia. }
  destruct (tp_initial_proxy_credentials p) as [c|]; [|apply Hl]. destruct (header_value _); [apply Hl|by split; [|cbn; lia]].
Qed.

(** *** The request *)

(** A field as a line of the request, a list of lines as text. *)
Definition field_line (f : string * string) : string := f.1 +:+ ": " +:+ default EmptyString (to_str f.2).
Definition lines_text (lines : list string) : string := foldr (λ l s, l +:+ CRLF +:+ s) EmptyString lines.
Definition sent_fields (headers : H) : list (string * string) := filter (λ f, f.1 ≠ "host"%string) (fields_of headers).

Lemma pieces_line (l s : string) :
  contains_char CR l = false → split_str CRLF (l +:+ CRLF +:+ s) = l :: split_str CRLF s.
Proof.
  unfold split_str. induction l as [|c l IH]; intros Hc; [done|].
  cbn [contains_char] in Hc. apply orb_false_iff in Hc as [Hc Hl]. apply bool_decide_eq_false in Hc.
  change (String c l +:+ CRLF +:+ s)%string with (String c (l +:+ CRLF +:+ s)). cbn [pieces].
  assert (width [CRLF] (String c (l +:+ CRLF +:+ s)) = O) as ->.
  { unfold width. cbn [List.find]. destruct (starts_with _ _) eqn:E; [|done].
    apply starts_with_spec in E as [r Hr]. by injection Hr. }
  by rewrite IH.
Qed.
Lemma lines_text_app a b : lines_text (a ++ b) = (lines_text a +:+ lines_text b)%string.
Proof. induction a as [|l a IH]; [done|]. cbn [app].
  change (l +:+ CRLF +:+ lines_text (a ++ b) = (l +:+ CRLF +:+ lines_text a) +:+ lines_text b)%string.
  by rewrite IH, !string_app_assoc.
Qed.
Lemma lines_text_2 a b : lines_text [a; b] = (a +:+ CRLF +:+ b +:+ CRLF)%string.
Proof. unfold lines_text. cbn [foldr]. by rewrite string_app_nil_r. Qed.
Lemma split_lines_text lines s :
  Forall (λ l, contains_char CR l = false) lines →
  split_str CRLF (lines_text lines +:+ s) = lines ++ split_str CRLF s.
Proof.
  induction lines as [|l ls IH]; intros Hl; [done|]. apply Forall_cons in Hl as [Hc Hl]. cbn [lines_text foldr].
  rewrite !string_app_assoc. change (foldr _ _ ls) with (lines_text ls). rewrite pieces_line by done. cbn. by rewrite IH.
Qed.

Lemma validate_token_ok v what u :
  validate_connect_token v what = Ok u → contains_char CR v = false ∧ contains_char LF v = false ∧ contains_char NUL v = false.
Proof. unfold validate_connect_token. by destruct (contains_char CR v), (contains_char LF v), (contains_char NUL v). Qed.

Lemma push_fields_ok fs r r' :
  push_fields fs r = Ok r' →
  let fs' := filter (λ f, f.1 ≠ "host"%string) fs in
  r' = (r +:+ lines_text (field_line <$> fs'))%string ∧
  Forall (λ f, is_Some (to_str f.2) ∧ contains_char CR (default EmptyString (to_str f.2)) = false) fs'.
Proof.
  revert r. induction fs as [|[n v] fs IH]; intros r; cbn [push_fields].
  { intros [= <-]. cbn. by rewrite string_app_nil_r. }
  destruct (String.eqb_spec n "host") as [->|Hn]; [by rewrite filter_cons_False by auto; apply IH|].
  rewrite filter_cons_True by done.
  destruct (to_str v) as [tv|] eqn:Ev; [|done]. intros ([] & (Hc & _ & _)%validate_token_ok & [-> Hf]%IH)%obind_Ok. split.
  - cbn [fmap list_fmap lines_text foldr].
    assert (field_line (n, v) = (n +:+ ": " +:+ tv)%string) as -> by (unfold field_line; cbn [fst snd]; by rewrite Ev).
    by rewrite !string_app_assoc.
  - constructor; [|done]. cbn [snd]. rewrite Ev. by split; [eexists|].
Qed.

(** Nothing can be smuggled into a CONNECT request: whatever the authority and the header values hold,
    a request that is built is, line by line, the request line, one host field, one field for each other
    header in order, and the blank line. *)
Theorem connect_request_lines authority headers request :
  Forall (λ k, contains_char CR k = false) (hm_keys headers) →
  build_connect_request authority headers = Ok request →
  split_str CRLF request
  = [ "CONNECT " +:+ authority +:+ " HTTP/1.1"; "Host: " +:+ authority ]%string
    ++ (field_line <$> sent_fields headers) ++ [EmptyString; EmptyString].
Proof.
  intros Hk. unfold build_connect_request.
  intros ([] & (Hc & _ & _)%validate_token_ok & (r & [-> Hf]%push_fields_ok & Hr)%obind_Ok)%obind_Ok.
  match type of Hr with Ok ?x = _ => assert (request = x) as -> by congruence end. clear Hr.
  assert (Forall (λ l, contains_char CR l = false) (field_line <$> sent_fields headers)) as Hl.
  { apply Forall_fmap, Forall_forall. intros [n v] Hin. rewrite Forall_forall in Hf. destruct (Hf _ Hin) as [_ Hv]. cbn [compose snd] in *.
    unfold sent_fields, fields_of in Hin. apply list_elem_of_filter in Hin as [_ Hin].
    apply list_elem_of_join in Hin as (l & Hin & Hl). apply list_elem_of_fmap in Hl as (k & -> & Hkk).
    apply list_elem_of_fmap in Hin as (v' & [= -> ->] & _). rewrite Forall_forall in Hk.
    unfold field_line. cbn [fst snd]. rewrite !contains_char_app, Hv, (Hk k Hkk). done. }
  pose proof (split_lines_text ([ "CONNECT " +:+ authority +:+ " HTTP/1.1"; "Host: " +:+ authority ]%string
    ++ (field_line <$> sent_fields headers)) CRLF) as Hs.
  rewrite <-app_assoc in Hs. change (split_str CRLF CRLF) with [EmptyString; EmptyString] in Hs. rewrite <-Hs.
  - f_equal. rewrite lines_text_app, lines_text_2. by rewrite !string_app_assoc.
  - constructor; [rewrite !contains_char_app, Hc; done|]. constructor; [rewrite contains_char_app, Hc; done|done].
Qed.

(** An authenticator's answer contributes credentials only: a CONNECT request that repeats a challenged one
    carries, besides the host, exactly the proxy credentials of the request it returned. *)
Lemma challenged_request_fields (headers : H) :
  (∀ k, hm_get_all k no_headers = []) →
  hm_keys (sanitize_connect_headers headers) ⊆ ["proxy-authorization"%string] ∧
  hm_get_all "proxy-authorization" (sanitize_connect_headers headers) = hm_get_all "proxy-authorization" headers.
Proof using Type*.
  intros H0'. unfold sanitize_connect_headers. split.
  - intros k Hk. apply hm_keys_spec in Hk. rewrite hm_get_all_append_all, H0' in Hk.
    case_bool_decide as E; [rewrite E; left|done].
  - by rewrite hm_get_all_append_all, H0', bool_decide_eq_true_2.
Qed.

End Tunnels.

Module TunnelDemo.
#[local] Open Scope string_scope.
#[local] Open Scope list_scope.
Definition header_name (s : string) : option string := Some (to_ascii_lowercase s).
Definition uri : Uri := mkUri (Some "https") (Some "example.com") (Some "example.com") None "/".
Definition line (s : string) : bytes := ((λ c, Z.of_nat (nat_of_ascii c)) <$> list_ascii_of_string s) ++ [13; 10].
(** A proxy that challenges, then opens the tunnel and at once forwards the first bytes of the target. *)
Definition challenge : Conn :=
  mkConn [line "HTTP/1.1 407 Proxy Authentication Required"; line "Proxy-Authenticate: Basic realm=proxy" ++ [13]; [10]]
    End_Eof None "".
Definition accepted : Conn :=
  mkConn [take 20 (line "HTTP/1.1 200 Connection established"); drop 20 (line "HTTP/1.1 200 Connection established");
          [13; 10; 0x16; 0x03]; [0x01]] End_Eof None "".
Definition reply (q : Request (list (string * string))) : Authenticator (H := list (string * string)) :=
  mkAuthenticator (λ _, inr (Some q)).
Definition credentials : Request (list (string * string)) :=
  mkRequest (Method_Other "CONNECT") uri "HTTP/1.1" [("x-extra", "1"); ("proxy-authorization", "Basic dTpw")] no_extensions Body_Absent.
Definition params : ConnectTunnelParams (H := list (string * string)) :=
  mkTunnelParams (mkSocketAddr (V4 0x7f000001) 8080) uri challenge (λ _, inr accepted) (mkAttempts 1 0 0 0) None
    (Some (reply credentials)) 3.
Definition run : ConnectTunnelParams (H := list (string * string)) → _ :=
  establish_connect_tunnel [] Some header_name Some Some (λ s, s) (λ s, s) (λ _, "") (λ s, s).

(** Opened at the second attempt, with the credentials and nothing else of the authenticator's request; the
    bytes that came with the answer are still to be read. *)
Example tunnel_opened :
  run params
  = (Ok (mkTunnel (mkConn [[0x01]] End_Eof None ("CONNECT example.com HTTP/1.1" +:+ CRLF +:+ "Host: example.com" +:+ CRLF
             +:+ "proxy-authorization: Basic dTpw" +:+ CRLF +:+ CRLF)) (Some [0x16; 0x03])),
     ["CONNECT example.com HTTP/1.1" +:+ CRLF +:+ "Host: example.com" +:+ CRLF
        +:+ "proxy-authorization: Basic dTpw" +:+ CRLF +:+ CRLF;
      "CONNECT example.com HTTP/1.1" +:+ CRLF +:+ "Host: example.com" +:+ CRLF +:+ CRLF]).
Proof. vm_compute. reflexivity. Qed.

(** The request for https://example.com/ names no port, though the target of CONNECT is a host and a port. *)
Theorem connect_target_without_port :
  (run (mkTunnelParams (mkSocketAddr (V4 0x7f000001) 8080) uri accepted (λ _, inr accepted) (mkAttempts 1 0 0 0) None None 0)).2
  = ["CONNECT example.com HTTP/1.1" +:+ CRLF +:+ "Host: example.com" +:+ CRLF +:+ CRLF].
Proof. vm_compute. reflexivity. Qed.
End TunnelDemo.

Lemma connect_answer_any_arrival_witness :
  ∃ prefetched c',
    read_connect_response [] TunnelDemo.header_name Some Some (λ s, s) (λ s, s) (λ _, EmptyString) TunnelDemo.accepted
    = (parse_connect_response_head [] TunnelDemo.header_name Some Some (λ s, s) (λ s, s)
         (take 39 (incoming TunnelDemo.accepted)) prefetched, c') ∧
    prefetched ++ incoming c' = drop 39 (incoming TunnelDemo.accepted) ∧ arrives c' ∧ cn_out c' = EmptyString.
Proof.
  destruct (connect_answer_any_arrival (H := list (string * string)) [] TunnelDemo.header_name Some Some (λ s, s) (λ s, s) (λ _, EmptyString)
              TunnelDemo.accepted) as [Hok _].
  - repeat constructor; discriminate.
  - apply Hok; [vm_compute; reflexivity|vm_compute; discriminate].
Defined.

Lemma tunnel_starts_after_answer_witness :
  let r := send_connect_request [] Some TunnelDemo.header_name Some Some (λ s, s) (λ s, s) (λ _, EmptyString)
             "example.com" [] TunnelDemo.accepted in
  ∃ t, r.1 = Ok (Established t) ∧ ∃ head, incoming TunnelDemo.accepted = head ++ remaining t ∧ length head = 39%nat.
Proof.
  intros r. eexists. split; [vm_compute; reflexivity|].
  eassert (r = (Ok (Established _), r.2)) as Hr by (vm_compute; reflexivity).
  destruct (tunnel_starts_after_answer [] Some TunnelDemo.header_name Some Some (λ s, s) (λ s, s) (λ _, EmptyString)
              "example.com" [] TunnelDemo.accepted _ _ ltac:(repeat constructor; discriminate) Hr)
    as [(head & pre & h & Hi & He & _) _].
  exists head. split; [exact Hi|].
  apply (f_equal length) in Hi. rewrite length_app in Hi.
  vm_compute in Hi. apply (Nat.add_cancel_r _ _ 3). symmetry. exact Hi.
Defined.

Lemma connect_attempts_bounded_witness :
  (TunnelDemo.run TunnelDemo.params).1 ≠ Panic ∧ Z.of_nat (length (TunnelDemo.run TunnelDemo.params).2) ≤ 1 + Z.max 0 (3 - 0).
Proof. apply connect_attempts_bounded; [vm_compute; discriminate|cbn; lia]. Defined.

Lemma connect_request_lines_witness :
  split_str CRLF (String.concat CRLF ["CONNECT example.com HTTP/1.1"; "Host: example.com"; "x-id: 1"; ""; ""]%string)
  = ["CONNECT example.com HTTP/1.1"; "Host: example.com"; "x-id: 1"; ""; ""]%string.
Proof.
  etransitivity; [apply (connect_request_lines (H := list (string * string)) Some (λ s, s) "example.com" [("x-id", "1"); ("host", "other")]%string)|].
  - repeat constructor.
  - vm_compute. reflexivity.
  - vm_compute. reflexivity.
Defined.
