(* ===== verification/Connector.v ===== *)
(** * The connector stack

    openwire/src/transport/connect.rs: how a route plan becomes a connection - the budget of an attempt, the dialer
    for each kind of route, the tunnels through proxies and the TLS handshake with the target - over the race of FastFallback and
    with the tunnels of Socks5 and ConnectTunnel.

    A connection is described by its layers ([Link]), so that a theorem can say what protects it.  The resolver, the TCP and TLS
    connectors and the bytes the proxies send are parameters. *)

From S2P Require Import Prelude Net Error Http Proxy Planning FastFallback Socks5 Request FollowUp ConnectTunnel.

(** ** The budget of a connection attempt *)

(** [ConnectBudget], openwire/transport/connect.rs:74-79. *)
Record ConnectBudget : Type := mkBudget {
  cb_started_at : Instant;
  cb_connect_timeout : option Duration;
  cb_call_deadline : option Instant;
}.

(** [ConnectBudget::new], openwire/transport/connect.rs:82-88. *)
Definition budget_new (now : Instant) (connect_timeout : option Duration) (call_deadline : option Instant) : ConnectBudget :=
  mkBudget now connect_timeout call_deadline.

(** [ConnectBudget::remaining], openwire/transport/connect.rs:90-102. *)
Definition budget_remaining (b : ConnectBudget) (now : Instant) : option Duration :=
  let connect_remaining := (λ t, saturating_sub t (elapsed now (cb_started_at b))) <$> cb_connect_timeout b in
  let call_remaining := (λ d, saturating_sub d now) <$> cb_call_deadline b in
  match connect_remaining, call_remaining with
  | Some a, Some b => Some (Z.min a b)
  | a, b => option_or a b
  end.

(** What is left never exceeds either limit and never grows; without a limit there is none. *)
Lemma budget_remaining_spec b now later :
  cb_started_at b ≤ now ≤ later →
  (budget_remaining b now = None ↔ cb_connect_timeout b = None ∧ cb_call_deadline b = None) ∧
  (∀ r, budget_remaining b now = Some r →
     0 ≤ r ∧ (∀ t, cb_connect_timeout b = Some t → r ≤ Z.max 0 (t - (now - cb_started_at b))) ∧
     (∀ d, cb_call_deadline b = Some d → r ≤ Z.max 0 (d - now)) ∧
     ∃ r', budget_remaining b later = Some r' ∧ r' ≤ r).
Proof.
  intros Hn. unfold budget_remaining, elapsed, saturating_sub. destruct (cb_connect_timeout b) as [t|], (cb_call_deadline b) as [d|]; cbn.
  all: split; [naive_solver|]; intros r [= <-]; split_and!; try lia; try (by intros ? [= <-]; lia); eexists; (split; [done|lia]).
Qed.

(** ** Connections *)

(** [connect_route_plan]'s result by its layers: a TCP stream, the stream of a SOCKS tunnel (with what the proxy had sent), the
    stream of a CONNECT tunnel, a [ProxiedConnection] and a TLS session. *)
Inductive Link : Type :=
| Tcp (peer : SocketAddr)
| Over_Socks (w : Wire) (l : Link)
| Over_Connect (t : PrefetchedTunnelBytes) (l : Link)
| Proxied (l : Link)
| Over_Tls (uri : Uri) (l : Link).

(** [Connection::connected for ProxiedConnection], openwire/transport/connect.rs:1326-1330, through the layers: whether a
    connection counts as proxied. *)
Fixpoint is_proxied (l : Link) : bool :=
  match l with
  | Tcp _ => false
  | Proxied _ => true
  | Over_Socks _ l | Over_Connect _ l | Over_Tls _ l => is_proxied l
  end.

Definition is_https (uri : Uri) : bool := from_option (λ s, eq_ignore_ascii_case s "https") false (uri_scheme_str uri).

Section Connector.
#[local] Set Default Proof Using "Type".
Context {H : Type} `{HeaderMap H}.
Context (debug : Duration → string) (debug_route : RouteKind → string) (hex : Z → string).
(** The parameters of ConnectTunnel. *)
Context (no_headers : H) (to_str header_name header_value : string → option string)
        (status_from_u16 : Z → option Z) (why quoted : string → string) (base64 : string → string).
(** The connectors: what connecting to an address gives, and what the TLS handshake with the target of a URI over a connection
    gives ([None] when it does not end); what a SOCKS proxy and what an HTTP proxy send, on the first connection and on the
    later ones. *)
Context (tcp : SocketAddr → option Duration → WireError + unit)
        (tls_connector : option (Uri → Link → option (WireError + unit)))
        (socks_wire : SocketAddr → Wire)
        (proxy_conn : SocketAddr → Conn) (reconnect : SocketAddr → nat → WireError + Conn).
(** The state of the call and the proxy's part of [ProxyConnectDeps]; the times at which the attempt on a route starts and at
    which its TCP connection is there. *)
Context (auth_attempts : AuthAttemptState) (proxy_authenticator : option (Authenticator (H := H))) (max_proxy_auth_attempts : Z)
        (starts connects : Route → Instant).

Definition tcp_link (addr : SocketAddr) (timeout : option Duration) : WireError + Link :=
  match tcp addr timeout with inl e => inl e | inr _ => inr (Tcp addr) end.

(** The tunnel through the proxy at an address. *)
Definition establish (prx : SocketAddr) (credentials : option ProxyCredentials) (uri : Uri) : outcome WireError PrefetchedTunnelBytes :=
  (establish_connect_tunnel no_headers to_str header_name header_value status_from_u16 why quoted debug base64
     (mkTunnelParams prx uri (proxy_conn prx) (reconnect prx) auth_attempts credentials proxy_authenticator max_proxy_auth_attempts)).1.

(** What a TLS handshake over [l] gives. *)
Definition tls_link (handshake : Uri → Link → option (WireError + unit)) (uri : Uri) (l : Link) : option (WireError + Link) :=
  match handshake uri l with
  | None => None
  | Some (inl e) => Some (inl e)
  | Some (inr _) => Some (inr (Over_Tls uri l))
  end.

(** [connect_target_tls_if_needed], openwire/transport/connect.rs:482-511. *)
Definition connect_target_tls_if_needed (uri : Uri) (l : Link) (timeout : option Duration) : option (WireError + Link) :=
  if negb (is_https uri) then Some (inr l)
  else match tls_connector with
  | None => Some (inl (with_authority_from_uri uri (tls "HTTPS requested but no TLS connector is configured" "missing TLS connector")))
  | Some handshake => with_connect_timeout debug timeout (tls_link handshake uri l) "TLS handshake"
  end.

Definition of_outcome {A} (o : outcome WireError A) : option (WireError + A) :=
  match o with Ok a => Some (inr a) | Err e => Some (inl e) | Panic => None end.

Definition then_link {A} (r : option (WireError + A)) (k : A → option (WireError + Link)) : option (WireError + Link) :=
  match r with None => None | Some (inl e) => Some (inl e) | Some (inr a) => k a end.

Definition unexpected (which where_ : string) (k : RouteKind) : WireError :=
  internal ("unexpected non-" +:+ which +:+ " route in " +:+ where_ +:+ ": " +:+ debug_route k) ("unexpected non-" +:+ which +:+ " route").

(** The attempt of [connect_direct], openwire/transport/connect.rs:229-244: the closures of [dial_direct] one after the
    other. *)
Definition attempt_direct (uri : Uri) (timeout : option Duration) (r : Route) : option (WireError + Link) :=
  then_link (Some (FastFallback.connect_direct debug_route tcp_link timeout (route_kind r))) (λ l,
    finalize_direct_connection debug uri l ((λ handshake, tls_link handshake uri l) <$> tls_connector) timeout).

(** The attempt of [connect_via_http_forward_proxy], openwire/transport/connect.rs:253-295. *)
Definition attempt_forward (timeout : option Duration) (r : Route) : option (WireError + Link) :=
  then_link (Some match route_kind r with
                  | HttpForwardProxy prx _ => tcp_link prx timeout
                  | other => inl (unexpected "forward-proxy" "proxy dialer" other)
                  end) (λ l, Some (inr (Proxied l))).

(** The attempt of [connect_via_http_proxy], openwire/transport/connect.rs:297-393. *)
Definition attempt_connect_proxy (uri : Uri) (timeout : option Duration) (deadline : option Instant) (r : Route)
    : option (WireError + Link) :=
  let budget := budget_new (starts r) timeout deadline in
  then_link (Some match route_kind r with
                  | ConnectProxy prx _ => tcp_link prx (budget_remaining budget (starts r))
                  | other => inl (unexpected "CONNECT-proxy" "proxy dialer" other)
                  end) (λ l,
  match route_kind r with
  | ConnectProxy prx credentials =>
    then_link (of_outcome (establish prx credentials uri)) (λ tunneled,
      connect_target_tls_if_needed uri (Over_Connect tunneled l) timeout)
  | other => Some (inl (unexpected "CONNECT-proxy" "tunnel finalizer" other))
  end).

(** The attempt of [connect_via_socks_proxy], openwire/transport/connect.rs:395-480. *)
Definition attempt_socks (uri : Uri) (timeout : option Duration) (deadline : option Instant) (r : Route)
    : option (WireError + Link) :=
  let budget := budget_new (starts r) timeout deadline in
  then_link (Some match route_kind r with
                  | SocksProxy prx _ => tcp_link prx (budget_remaining budget (starts r))
                  | other => inl (unexpected "SOCKS-proxy" "proxy dialer" other)
                  end) (λ l,
  match route_kind r with
  | SocksProxy prx credentials =>
    let '(agreed, w) := establish_socks5_tunnel debug hex (is_some (budget_remaining budget (connects r))) uri credentials (socks_wire prx) in
    then_link (of_outcome agreed) (λ _, connect_target_tls_if_needed uri (Proxied (Over_Socks w l)) timeout)
  | other => Some (inl (unexpected "SOCKS-proxy" "tunnel finalizer" other))
  end).

(** [connect_route_plan], openwire/transport/connect.rs:188-227: the race it starts, and what an attempt on a route gives. *)
Definition connect_route_plan (spawn : nat → option WireError) (uri : Uri) (rp : RoutePlan) (timeout : option Duration)
    (deadline : option Instant) : outcome WireError (Race (C := Link) * (Route → option (WireError + Link))) :=
  match routes rp !! 0%nat with
  | None => Err (route_exhausted "route plan produced no routes")
  | Some first_route =>
    match route_kind first_route with
    | Direct _ => let? race := dial_route_plan spawn rp in Ok (race, attempt_direct uri timeout)
    | HttpForwardProxy _ _ => let? race := dial_route_plan spawn rp in Ok (race, attempt_forward timeout)
    | ConnectProxy _ _ =>
      match uri_scheme_str uri with
      | None => Err (invalid_request "request URI is missing a scheme")
      | Some s =>
        if negb (eq_ignore_ascii_case s "https") then Err (invalid_request "configured proxy currently supports HTTPS requests only")
        else let? race := dial_route_plan spawn rp in Ok (race, attempt_connect_proxy uri timeout deadline)
      end
    | SocksProxy _ _ => let? race := dial_route_plan spawn rp in Ok (race, attempt_socks uri timeout deadline)
    end
  end.

(** [ConnectorStack::route_plan], openwire/transport/connect.rs:162-173. *)
Definition route_plan {P} `{RoutePlanner P} (planner : P) (resolve : string → Z → outcome WireError (list SocketAddr)) (a : Planning.Address)
    : outcome WireError RoutePlan :=
  let '(dns_host, dns_port) := dns_target planner a in
  let? resolved := resolve dns_host dns_port in
  plan planner a resolved.

(** A race whose attempts report what they got. *)
Inductive raced (rp : RoutePlan) (attempt : Route → option (WireError + Link)) (start : Race (C := Link)) : Race → Prop :=
| Raced_start : raced rp attempt start start
| Raced_move r m r' : raced rp attempt start r → race_move m r = Some r' →
    (∀ i result, m = Move_Finish i result → ∃ route, routes rp !! i = Some route ∧ attempt route = Some result) →
    raced rp attempt start r'.

Lemma raced_reachable rp attempt start r : raced rp attempt start r → race_reachable start r.
Proof. induction 1 as [|r m r' _ IH Hm _]; [constructor|]. by econstructor. Qed.

Lemma race_move_sent m (r r' : Race (C := Link)) msg :
  race_move m r = Some r' → msg ∈ rc_sent r' → msg ∈ rc_sent r ∨ (∃ i fam, msg = Started i fam) ∨ ∃ i result, m = Move_Finish i result ∧ msg = Finished i result.
Proof.
  destruct m as [i|i result|i|]; cbn.
  - case_decide; [|done]. intros [= <-]. unfold FastFallback.send, with_task. destruct (rc_result r); cbn; [by left|].
    intros [?|E%list_elem_of_singleton]%elem_of_app; [by left|right; left; eauto].
  - case_decide; [|done]. intros [= <-]. unfold FastFallback.send, with_task. destruct (rc_result r); cbn; [by left|].
    intros [?|E%list_elem_of_singleton]%elem_of_app; [by left|right; right; eauto].
  - case_decide; [|done]. intros [= <-]. by left.
  - intros Hm. repeat case_match; simplify_eq/=; by left.
Qed.

(** Every result that was reported is that of an attempt on one of the routes. *)
Lemma raced_sent rp attempt start r i result :
  rc_sent start = [] → raced rp attempt start r → Finished i result ∈ rc_sent r →
  ∃ route, routes rp !! i = Some route ∧ attempt route = Some result.
Proof.
  intros Hs. induction 1 as [|r m r' _ IH Hm Hf]; [by rewrite Hs; intros ?%elem_of_nil|].
  intros Hin. destruct (race_move_sent _ _ _ _ Hm Hin) as [?|[(? & ? & ?)|(j & res & Hj & Heq)]]; [by apply IH|done|].
  injection Heq as <- <-. by apply Hf.
Qed.
(** ** What the default planner's plans become *)

Lemma ordered_in hop resolved : hop ∈ order_for_fast_fallback resolved → hop ∈ resolved.
Proof.
  intros Hin. pose proof (order_families (from_socket_addr hop) resolved) as E. unfold of_family in E.
  assert (Hf : hop ∈ filter (λ a, from_socket_addr a = from_socket_addr hop) (order_for_fast_fallback resolved)) by by apply list_elem_of_filter.
  rewrite E in Hf. by apply list_elem_of_filter in Hf as [_ ?].
Qed.

Lemma planned_kinds pl a resolved rp :
  default_plan pl a resolved = Ok rp → ∀ r, r ∈ routes rp → ∃ hop, hop ∈ resolved ∧ route_kind r = kind_for a hop.
Proof.
  rewrite default_plan_routes. intros [= <-] r. cbn. rewrite list_elem_of_fmap. intros (hop & -> & Hin).
  exists hop. split; [by apply ordered_in|]. unfold compose, from_observed, kind_for. by destruct (proxy a) as [[[] ?]|].
Qed.

(** An https address is never reached by forwarding, a plain one never by CONNECT. *)
Lemma address_mode uri p a : from_uri uri p = Ok a → mode <$> proxy a ≠ Some (if is_https uri then Forward else Connect).
Proof.
  rewrite from_uri_spec. intros (s & h & Hs & _ & _ & _ & _ & _ & _ & Hp).
  assert (s = if is_https uri then Scheme_Https else Scheme_Http) as ->.
  { unfold scheme_of in Hs. apply bind_Some in Hs as (sch & E & Hs). unfold is_https. rewrite E. cbn.
    destruct (eq_ignore_ascii_case sch "https"); [by injection Hs|]. destruct (eq_ignore_ascii_case sch "http"); [by injection Hs|done]. }
  destruct p as [sp|]; [|by rewrite Hp]. destruct Hp as (ps & m & ph & prt & Hm & _ & _ & _ & ->). cbn.
  unfold proxy_mode in Hm. destruct (is_https uri); repeat case_bool_decide; simplify_eq; done.
Qed.

(** The attempt that goes with an address, however the plan came about. *)
Definition attempt_for (a : Planning.Address) (uri : Uri) (timeout : option Duration) (deadline : option Instant)
    : Route → option (WireError + Link) :=
  match mode <$> proxy a with
  | None => attempt_direct uri timeout
  | Some Forward => attempt_forward timeout
  | Some Connect => attempt_connect_proxy uri timeout deadline
  | Some SocksTunnel => attempt_socks uri timeout deadline
  end.

Lemma connect_route_plan_planned pl a resolved rp spawn uri timeout deadline start attempt :
  default_plan pl a resolved = Ok rp → connect_route_plan spawn uri rp timeout deadline = Ok (start, attempt) →
  dial_route_plan spawn rp = Ok start ∧ attempt = attempt_for a uri timeout deadline.
Proof.
  intros Hp. unfold connect_route_plan. destruct (routes rp !! 0%nat) as [first|] eqn:E0; [|done].
  destruct (planned_kinds _ _ _ _ Hp first) as (hop & _ & Hk); [by eapply list_elem_of_lookup_2|]. rewrite Hk. unfold kind_for, attempt_for.
  destruct (proxy a) as [[[] ?]|]; cbn; repeat case_match; try done; intros (race & Hd & [= <- <-])%obind_Ok; done.
Qed.

Lemma dial_route_plan_quiet spawn rp (start : Race (C := Link)) : dial_route_plan spawn rp = Ok start → rc_sent start = [].
Proof.
  unfold dial_route_plan. case_bool_decide; [done|]. intros (cp & _ & Hr)%obind_Ok. destruct (spawn_all _ _ _ _) as [[]|]; [done|]. by injection Hr as <-.
Qed.

(** A connection a race returns is the success of an attempt on a planned route. *)
Lemma raced_won pl a resolved rp spawn uri timeout deadline start attempt r c o :
  default_plan pl a resolved = Ok rp → connect_route_plan spawn uri rp timeout deadline = Ok (start, attempt) →
  raced rp attempt start r → rc_result r = Some (inr (c, o)) →
  ∃ route hop, hop ∈ resolved ∧ route_kind route = kind_for a hop ∧
    attempt_for a uri timeout deadline route = Some (inr c).
Proof.
  intros Hp Hc Hr Hres. destruct (connect_route_plan_planned _ _ _ _ _ _ _ _ _ _ Hp Hc) as [Hd ->].
  pose proof (dial_route_plan_ok _ _ _ Hd) as (Hn & Hok & _).
  pose proof (race_reachable_ok _ _ _ Hok (raced_reachable _ _ _ _ Hr)) as Hf. unfold race_ok in Hf. rewrite Hres in Hf.
  destruct Hf as [_ (_ & Hsent & _)].
  destruct (raced_sent _ _ _ _ _ _ (dial_route_plan_quiet _ _ _ Hd) Hr Hsent) as (route & Hroute & Ha).
  assert (Hin : route ∈ routes rp) by by eapply list_elem_of_lookup_2.
  destruct (planned_kinds _ _ _ _ Hp route Hin) as (hop & Hhop & Hk). by exists route, hop.
Qed.

Lemma with_connect_timeout_inr timeout (result : option (WireError + Link)) stage c :
  with_connect_timeout debug timeout result stage = Some (inr c) → result = Some (inr c).
Proof. unfold with_connect_timeout. destruct timeout as [t|]; [|done]. destruct (t =? 0); [done|]. by destruct result. Qed.

Lemma tls_link_inr handshake uri l c : tls_link handshake uri l = Some (inr c) → c = Over_Tls uri l ∧ handshake uri l = Some (inr ()).
Proof. unfold tls_link. destruct (handshake uri l) as [[|[]]|]; [done| |done]. by intros [= <-]. Qed.

(** [c] carries the target of [uri] over [l]: within TLS when the URI says so. *)
Definition secured (uri : Uri) (l c : Link) : Prop :=
  if is_https uri then c = Over_Tls uri l ∧ ∃ handshake, tls_connector = Some handshake ∧ handshake uri l = Some (inr ()) else c = l.

Lemma target_tls uri l timeout c : connect_target_tls_if_needed uri l timeout = Some (inr c) → secured uri l c.
Proof.
  unfold connect_target_tls_if_needed, secured. destruct (is_https uri); [|by intros [= <-]]. cbn. destruct tls_connector as [hs|]; [|done].
  intros (-> & Hw)%with_connect_timeout_inr%tls_link_inr. split; [done|]. by exists hs.
Qed.

Lemma direct_tls uri l timeout c :
  finalize_direct_connection debug uri l ((λ handshake, tls_link handshake uri l) <$> tls_connector) timeout = Some (inr c) → secured uri l c.
Proof.
  unfold finalize_direct_connection, secured. fold (is_https uri). destruct (is_https uri); [|by intros [= <-]]. cbn.
  destruct tls_connector as [hs|]; [|done]. cbn. intros (-> & Hw)%with_connect_timeout_inr%tls_link_inr. split; [done|]. by exists hs.
Qed.

(** Whether an attempt has a limit does not depend on the time. *)
Lemma budget_limited started timeout deadline now : is_some (budget_remaining (budget_new started timeout deadline) now) = is_some timeout || is_some deadline.
Proof. by destruct timeout, deadline. Qed.

(** What an attempt that succeeded built, by the address. *)
Lemma attempt_success a uri timeout deadline route hop c :
  route_kind route = kind_for a hop → mode <$> proxy a ≠ Some (if is_https uri then Forward else Connect) →
  attempt_for a uri timeout deadline route = Some (inr c) →
  ∃ l, secured uri l c ∧
    match mode <$> proxy a with
    | None => l = Tcp hop
    | Some Forward => l = Proxied (Tcp hop)
    | Some Connect => ∃ t, l = Over_Connect t (Tcp hop) ∧ establish hop (proxy_creds a) uri = Ok t
    | Some SocksTunnel => ∃ w, l = Proxied (Over_Socks w (Tcp hop)) ∧
        establish_socks5_tunnel debug hex (is_some timeout || is_some deadline) uri (proxy_creds a) (socks_wire hop) = (Ok (), w)
    end.
Proof.
  intros Hk Hm. unfold attempt_for. unfold kind_for in Hk. destruct (proxy a) as [[[] e]|]; cbn in *.
  - unfold attempt_forward, tcp_link. rewrite Hk. destruct (tcp hop _); [done|]. intros [= <-].
    exists (Proxied (Tcp hop)). split; [|done]. unfold secured. by destruct (is_https uri).
  - unfold attempt_connect_proxy, tcp_link. rewrite Hk. destruct (tcp hop _); [done|]. cbn.
    destruct (establish _ _ _) as [t| |] eqn:Ee; [|done..]. intros Ht%target_tls. eexists. split; [done|]. by exists t.
  - unfold attempt_socks, tcp_link. rewrite Hk. destruct (tcp hop _); [done|]. cbn. rewrite budget_limited.
    destruct (establish_socks5_tunnel _ _ _ _ _ _) as [[[]| |] w] eqn:Ee; [|done..]. intros Ht%target_tls. eexists. split; [done|]. by exists w.
  - unfold attempt_direct, FastFallback.connect_direct, tcp_link. rewrite Hk. destruct (tcp hop _); [done|]. cbn.
    intros Ht%direct_tls. by eexists.
Qed.

(** C8.  An https call never leaves in the clear: a connection that dialing the default planner's routes gives for an https
    address - directly, through a CONNECT tunnel or through a SOCKS tunnel, whichever route wins the race and however the
    attempts interleave - is a TLS session whose handshake with the target of that very address succeeded, on top of the
    tunnel that the proxy's answers established, on a TCP
    connection to one of the resolved addresses; and a connection for a plain address has no TLS and no CONNECT tunnel in it. *)
Theorem https_through_tls pl p a resolved rp spawn uri timeout deadline start attempt r c o :
  from_uri uri p = Ok a → default_plan pl a resolved = Ok rp →
  connect_route_plan spawn uri rp timeout deadline = Ok (start, attempt) →
  raced rp attempt start r → rc_result r = Some (inr (c, o)) →
  ∃ hop l, hop ∈ resolved ∧
    secured uri l c ∧
    match mode <$> proxy a with
    | None => l = Tcp hop
    | Some Forward => is_https uri = false ∧ l = Proxied (Tcp hop)
    | Some Connect => is_https uri = true ∧ ∃ t, l = Over_Connect t (Tcp hop) ∧ establish hop (proxy_creds a) uri = Ok t
    | Some SocksTunnel => ∃ w, l = Proxied (Over_Socks w (Tcp hop)) ∧
        establish_socks5_tunnel debug hex (is_some timeout || is_some deadline) uri (proxy_creds a) (socks_wire hop) = (Ok (), w)
    end.
Proof.
  intros Ha Hp Hc Hr Hres. destruct (raced_won _ _ _ _ _ _ _ _ _ _ _ _ _ Hp Hc Hr Hres) as (route & hop & Hhop & Hk & Hat).
  pose proof (address_mode _ _ _ Ha) as Hm. destruct (attempt_success _ _ _ _ _ _ _ Hk Hm Hat) as (l & Hl & Hshape).
  exists hop, l. do 2 (split; [done|]). destruct (mode <$> proxy a) as [[]|]; try done; by destruct (is_https uri).
Qed.

(** No local lookup of the origin when there is a proxy: the plan depends on the resolver at the proxy's name only. *)
Lemma proxied_plan_hides_origin (pl : DefaultRoutePlanner) resolve resolve' a c :
  proxy a = Some c →
  resolve (host (pe_authority (endpoint c))) (port (pe_authority (endpoint c))) = resolve' (host (pe_authority (endpoint c))) (port (pe_authority (endpoint c))) →
  route_plan pl resolve a = route_plan pl resolve' a.
Proof. intros Hp Hr. unfold route_plan. cbn. unfold default_dns_target. rewrite Hp. by rewrite Hr. Qed.

(** A CONNECT tunnel is not marked as proxied, although the other proxied connections are. *)
Lemma connect_tunnel_not_marked uri t hop : is_proxied (Over_Tls uri (Over_Connect t (Tcp hop))) = false ∧ ∀ w, is_proxied (Over_Tls uri (Proxied (Over_Socks w (Tcp hop)))) = true.
Proof. done. Qed.
End Connector.

(** ** An https call through a CONNECT proxy *)

Module ConnectorDemo.
#[local] Open Scope string_scope.
#[local] Open Scope list_scope.
Abbreviation Fields := (list (string * string)).
Definition proxy_addr : SocketAddr := mkSocketAddr (V4 0x7f000001) 8080.
Definition selected : SelectedProxy := mkSelectedProxy (mkUrl "http" "" None (Some "proxy") (Some 8080) "/") Intercept_All None.
Definition address : Planning.Address := match from_uri TunnelDemo.uri (Some selected) with Ok a => a | _ => example_address end.
Definition planner : DefaultRoutePlanner := mkDefaultRoutePlanner DEFAULT_FAST_FALLBACK_STAGGER.
Definition plan : RoutePlan := match default_plan planner address [proxy_addr] with Ok rp => rp | _ => mkRoutePlan [] 0 end.
Definition handshake (_ : Uri) (_ : Link) : option (WireError + unit) := Some (inr ()).
Definition dial (uri : Uri) :=
  connect_route_plan (H := Fields) (λ _, "") (λ _, "") (λ _, "") [] Some TunnelDemo.header_name Some Some (λ s, s) (λ s, s) (λ s, s)
    (λ _ _, inr ()) (Some handshake) (λ _, mkWire [] [] []) (λ _, TunnelDemo.accepted) (λ _ _, inr TunnelDemo.accepted)
    (mkAttempts 1 0 0 0) None 0 (λ _, 0) (λ _, 0) (λ _, None) uri plan (Some (from_millis 500)) None.
Definition start : Race (C := Link) * (Route → option (WireError + Link)) :=
  match dial TunnelDemo.uri with
  | Ok s => s
  | _ => (mkRace (mkDialer (mkConnectPlan [] 0) None []) [] [] None [], λ _, None)
  end.
Definition tunnel : PrefetchedTunnelBytes :=
  mkTunnel (mkConn [[0x01]] End_Eof None ("CONNECT example.com HTTP/1.1" +:+ CRLF +:+ "Host: example.com" +:+ CRLF +:+ CRLF)) (Some [0x16; 0x03]).
Definition link : Link := Over_Tls TunnelDemo.uri (Over_Connect tunnel (Tcp proxy_addr)).
Definition go (ms : list (RaceMove (C := Link))) : Race := foldl (λ r m, default r (race_move m r)) start.1 ms.
Definition moves : list (RaceMove (C := Link)) := [Move_Start 0; Move_Finish 0 (inr link); Move_Dialer; Move_Dialer].

Example attempt_gives : ∀ route, routes plan !! 0%nat = Some route → start.2 route = Some (inr link).
Proof. intros route [= <-]. vm_compute. reflexivity. Qed.

Lemma go_raced ms : (∀ i result, Move_Finish i result ∈ ms → i = 0%nat ∧ result = inr link) → raced plan start.2 start.1 (go ms).
Proof.
  unfold go. induction ms as [|m ms IH] using rev_ind; intros Hms; [constructor|]. rewrite foldl_snoc.
  assert (IH' : raced plan start.2 start.1 (foldl (λ r m, default r (race_move m r)) start.1 ms)).
  { apply IH. intros i result Hin. apply Hms, elem_of_app. by left. }
  destruct (race_move m _) as [r|] eqn:E; [|done]. eapply Raced_move; [done|done|]. intros i result ->.
  destruct (Hms i result) as [-> ->]; [by apply elem_of_app; right; left|]. eexists. split; [reflexivity|]. by apply attempt_gives.
Qed.
End ConnectorDemo.

Lemma https_through_tls_witness :
  ∃ l, ConnectorDemo.link = Over_Tls TunnelDemo.uri l.
Proof.
  destruct (https_through_tls (H := ConnectorDemo.Fields) (λ _, EmptyString) (λ _, EmptyString) (λ _, EmptyString) [] Some TunnelDemo.header_name
    Some Some (λ s, s) (λ s, s) (λ s, s) (λ _ _, inr ()) (Some ConnectorDemo.handshake) (λ _, mkWire [] [] []) (λ _, TunnelDemo.accepted)
    (λ _ _, inr TunnelDemo.accepted) (mkAttempts 1 0 0 0) None 0 (λ _, 0) (λ _, 0)
    ConnectorDemo.planner (Some ConnectorDemo.selected) ConnectorDemo.address [ConnectorDemo.proxy_addr] ConnectorDemo.plan (λ _, None)
    TunnelDemo.uri (Some (from_millis 500)) None ConnectorDemo.start.1 ConnectorDemo.start.2 (ConnectorDemo.go ConnectorDemo.moves)
    ConnectorDemo.link (mkRaceOutcome 1 0 false)) as (hop & l & _ & Hs & _).
  - reflexivity.
  - reflexivity.
  - vm_compute. reflexivity.
  - apply ConnectorDemo.go_raced. intros i result [[=]|[[= -> ->]|[[=]|[[=]|[]%elem_of_nil]%elem_of_cons]%elem_of_cons]%elem_of_cons]%elem_of_cons. done.
  - vm_compute. reflexivity.
  - exists l. apply Hs.
Defined.
