(* ===== verification/Outgoing.v ===== *)
(** * Requests as they leave

    The last changes to a request before it is handed to a connection (openwire/src/transport/protocol.rs,
    the end of service.rs and the proxy credentials of client.rs): which proxy credentials it carries, its
    priority, its form for the protocol of the connection; and whether the connection may be used again
    after the exchange.

    [HeaderValue::to_str], [HeaderName::from_bytes], [HeaderValue::from_str] and the parsing of a URI belong to
    the http crate and are parameters. *)

From stdpp Require Import pretty.
From S2P Require Import Prelude Net Error Http Proxy Planning Scheduler RealConnection ExchangeFinder Policy Request FollowUp ConnectTunnel.

(** ** The Connection header *)

(** [is_optional_whitespace], openwire/transport/protocol.rs:345-347. *)
Definition is_optional_whitespace (c : ascii) : bool := bool_decide (c = " "%char) || bool_decide (c = "009"%char).

(** [is_tchar], openwire/transport/protocol.rs:349-370. *)
Definition is_tchar (c : ascii) : bool :=
  bool_decide (c ∈ list_ascii_of_string "!#$%&'*+-.^_`|~") ||
  (let n := nat_of_ascii c in
   ((48 <=? n)%nat && (n <=? 57)%nat) || ((65 <=? n)%nat && (n <=? 90)%nat) || ((97 <=? n)%nat && (n <=? 122)%nat)).

(** The loop of [connection_header_value_requests_close], openwire/transport/protocol.rs:305-342; [None] is the
    error.  Each round consumes a character. *)
Fixpoint close_loop (fuel : nat) (s : string) : option bool :=
  match fuel with
  | O => None
  | S fuel =>
    match s with
    | EmptyString => Some false
    | _ =>
      match (span is_optional_whitespace s).2 with
      | EmptyString => Some false
      | String c t as s =>
        if bool_decide (c = ","%char) then close_loop fuel t else
        let '(token, rest) := span is_tchar s in
        if bool_decide (token = EmptyString) then None else
        match (span is_optional_whitespace rest).2 with
        | EmptyString => Some (eq_ignore_ascii_case token "close")
        | String c rest =>
          if bool_decide (c = ","%char)
          then if eq_ignore_ascii_case token "close" then Some true else close_loop fuel rest
          else None
        end
      end
    end
  end.
(** [connection_header_value_requests_close], openwire/transport/protocol.rs:300-343, of a value [to_str] could read. *)
Definition value_requests_close (s : string) : option bool := close_loop (S (String.length s)) s.

Example closes_list : value_requests_close "keep-alive, Close ,x" = Some true.
Proof. reflexivity. Qed.
Example closes_not : value_requests_close "keep-alive,,	x" = Some false.
Proof. reflexivity. Qed.
Example closes_malformed : value_requests_close "keep alive" = None.
Proof. reflexivity. Qed.

(** An element of the list the header holds, as RFC 9110 writes it: white space around a token that may be
    missing; and the token is not [close]. *)
Definition harmless_element (e : string) : Prop :=
  ∃ w t w', e = (w +:+ t +:+ w')%string ∧ all_chars is_optional_whitespace w = true ∧ all_chars is_tchar t = true ∧
    all_chars is_optional_whitespace w' = true ∧ eq_ignore_ascii_case t "close" = false.

Lemma ascii_forall_outgoing (P : ascii → bool) : forallb P (ascii_of_nat <$> seq 0 256) = true → ∀ c, P c = true.
Proof.
  rewrite forallb_forall. intros HP c. apply HP, list_elem_of_In, list_elem_of_fmap. exists (nat_of_ascii c).
  split; [by rewrite ascii_nat_embedding|]. apply elem_of_seq. pose proof (nat_ascii_bounded c). lia.
Qed.
Lemma tchar_not_ows c : is_tchar c = true → is_optional_whitespace c = false.
Proof.
  intros Hc. pose proof (ascii_forall_outgoing (λ c, negb (is_tchar c) || negb (is_optional_whitespace c)) ltac:(vm_compute; reflexivity) c) as Hx.
  cbn beta in Hx. rewrite Hc in Hx. by destruct (is_optional_whitespace c).
Qed.
Lemma comma_no_char : is_tchar ","%char = false ∧ is_optional_whitespace ","%char = false.
Proof. done. Qed.

Lemma all_chars_no_comma f s : f ","%char = false → all_chars f s = true → contains_char ","%char s = false.
Proof.
  intros Hf. induction s as [|c s IH]; cbn; [done|]. rewrite andb_true_iff. intros [Hc Hs].
  rewrite orb_false_iff. split; [|by apply IH]. apply bool_decide_eq_false. intros ->. congruence.
Qed.
Lemma tchars_stop_ows t r : all_chars is_tchar t = true → stops is_optional_whitespace r → stops is_optional_whitespace (t +:+ r)%string.
Proof. destruct t as [|c t]; [done|]. cbn. rewrite andb_true_iff. intros [Hc _] _. by apply tchar_not_ows. Qed.
Lemma ows_stop_tchar w r : all_chars is_optional_whitespace w = true → stops is_tchar r → stops is_tchar (w +:+ r)%string.
Proof.
  destruct w as [|c w]; [done|]. cbn. rewrite andb_true_iff. intros [Hc _] _.
  destruct (is_tchar c) eqn:E; [|done]. by rewrite tchar_not_ows in Hc.
Qed.

(** The three runs an element starts with are those its grammar names. *)
Lemma harmless_scan e w0 r0 t r w1 r1 :
  span is_optional_whitespace e = (w0, r0) → span is_tchar r0 = (t, r) → span is_optional_whitespace r = (w1, r1) →
  (harmless_element e ↔ r1 = EmptyString ∧ eq_ignore_ascii_case t "close" = false).
Proof.
  intros E0 E1 E2. pose proof (span_spec _ _ _ _ E0) as (-> & Hw0 & Hs0). pose proof (span_spec _ _ _ _ E1) as (-> & Ht & Hs1).
  pose proof (span_spec _ _ _ _ E2) as (-> & Hw1 & Hs2). split; [|intros [-> Hc]; exists w0, t, w1; by rewrite string_app_nil_r].
  intros (w & t' & w' & He & Hw & Ht' & Hw' & Hc). destruct t' as [|c t'].
  - cbn [String.append] in He. rewrite He in E0. rewrite <-(string_app_nil_r (w +:+ w')) in E0.
    rewrite span_app in E0; [|by rewrite all_chars_app, Hw, Hw'|done]. injection E0 as _ Hr.
    destruct t as [|? t]; [|done]. destruct w1 as [|? w1]; [|done]. destruct r1; [done|done].
  - assert (stops is_optional_whitespace (String c t' +:+ w')%string) as Hst.
    { cbn in Ht' |- *. apply andb_true_iff in Ht' as [? _]. by apply tchar_not_ows. }
    rewrite He, span_app in E0 by done. injection E0 as <- Hr0. rewrite <-Hr0 in E1.
    assert (stops is_tchar w') as Hst'.
    { rewrite <-(string_app_nil_r w'). by apply ows_stop_tchar. }
    change (String c (t' +:+ w')) with (String c t' +:+ w')%string in E1.
    rewrite (span_app is_tchar (String c t') w') in E1 by done. injection E1 as <- Hr. rewrite <-Hr in E2.
    rewrite <-(string_app_nil_r w') in E2. rewrite span_app in E2 by done. injection E2 as _ <-. done.
Qed.

(** Up to the next comma, the text and its first element start with the same run. *)
Definition not_comma (c : ascii) : bool := negb (bool_decide (c = ","%char)).
Lemma span_within f s e tl a b :
  f ","%char = false → span not_comma s = (e, tl) → span f s = (a, b) →
  ∃ b', span f e = (a, b') ∧ span not_comma b = (b', tl).
Proof.
  intros Hf. revert e tl a b. induction s as [|c s IH]; intros e tl a b; cbn [span].
  { intros [= <- <-] [= <- <-]. by eexists. }
  unfold not_comma at 1. case_bool_decide as Hc; cbn [negb].
  - subst c. rewrite Hf. intros [= <- <-] [= <- <-]. by eexists.
  - destruct (span not_comma s) as [e' tl'] eqn:Ee. intros [= <- <-]. cbn [span]. destruct (f c) eqn:Efc.
    + destruct (span f s) as [a' b'] eqn:Ef. intros [= <- <-]. destruct (IH _ _ _ _ eq_refl eq_refl) as (b1 & -> & Hb1). by eexists.
    + intros [= <- <-]. eexists. split; [done|]. cbn [span]. unfold not_comma at 1. rewrite bool_decide_eq_false_2 by done.
      cbn [negb]. by rewrite Ee.
Qed.

Lemma not_comma_split s e tl :
  span not_comma s = (e, tl) →
  match tl with
  | EmptyString => split_on ","%char s = [e]
  | String c rest => c = ","%char ∧ split_on ","%char s = e :: split_on ","%char rest ∧ (String.length rest < String.length s)%nat
  end.
Proof.
  intros E. pose proof (span_spec _ _ _ _ E) as (-> & He & Hst).
  assert (contains_char ","%char e = false) as Hc by (apply (all_chars_no_comma not_comma); done).
  destruct tl as [|c rest]; [rewrite string_app_nil_r; by apply split_on_none|].
  cbn in Hst. unfold not_comma in Hst. apply negb_false_iff, bool_decide_eq_true in Hst as ->.
  split_and!; [done|by apply split_on_app|]. clear. induction e; cbn; lia.
Qed.

Lemma close_scanner_iff s :
  default true (value_requests_close s) = false ↔ Forall harmless_element (split_on ","%char s).
Proof.
  unfold value_requests_close. assert (String.length s < S (String.length s))%nat as Hf by lia. revert Hf.
  generalize (S (String.length s)) as fuel. intros fuel. revert s. induction fuel as [|fuel IH]; intros s Hf; [lia|].
  cbn [close_loop]. destruct s as [|c0 s0]; [split; [|done]; intros _; constructor; [|constructor]; by exists EmptyString, EmptyString, EmptyString|].
  remember (String c0 s0) as s eqn:Es. clear Es c0 s0.
  destruct (span not_comma s) as [e tl] eqn:Ee. pose proof (not_comma_split _ _ _ Ee) as Hsplit.
  destruct (span is_optional_whitespace s) as [w r0] eqn:E0. cbn [snd]. pose proof (span_spec _ _ _ _ E0) as (_ & _ & Hs0).
  destruct (span_within _ _ _ _ _ _ (proj2 comma_no_char) Ee E0) as (r0' & E0' & En0).
  destruct (span is_tchar r0) as [t r] eqn:E1.
  destruct (span_within _ _ _ _ _ _ (proj1 comma_no_char) En0 E1) as (r' & E1' & En1).
  destruct (span is_optional_whitespace r) as [w1 r1] eqn:E2.
  destruct (span_within _ _ _ _ _ _ (proj2 comma_no_char) En1 E2) as (r1' & E2' & En2).
  pose proof (harmless_scan _ _ _ _ _ _ _ E0' E1' E2') as Hh. cbn [snd].
  assert (Hrest : ∀ rest, tl = String ","%char rest → (String.length rest < fuel)%nat ∧ split_on ","%char s = e :: split_on ","%char rest).
  { intros rest ->. destruct Hsplit as (_ & ? & ?). split; [lia|done]. }
  destruct r0 as [|c r0t].
  { injection En0 as <- <-. injection E1 as <- <-. injection E2 as <- <-. injection En2 as <-. rewrite Hsplit, Forall_singleton, Hh. done. }
  case_bool_decide as Hc; [subst c|].
  { injection En0 as <- <-. cbn in E1. injection E1 as <- <-. cbn in E2. injection E2 as <- <-. injection En2 as <-.
    destruct (Hrest r0t eq_refl) as [Hl ->]. rewrite Forall_cons, Hh, (IH _ Hl). naive_solver. }
  rewrite E1, E2. cbn [snd]. case_bool_decide as Ht.
  { subst t. cbn [default]. split; [done|]. intros Hall. exfalso.
    assert (harmless_element e) as [-> _]%Hh by (destruct tl; [|destruct Hsplit as (_ & Hsp & _)]; rewrite ?Hsplit, ?Hsp in Hall; by inversion Hall).
    pose proof (span_spec _ _ _ _ E1) as (Hr & _). cbn in Hr. subst r. cbn [span] in E2. rewrite Hs0 in E2. injection E2 as <- <-.
    cbn [span] in En2. unfold not_comma at 1 in En2. rewrite bool_decide_eq_false_2 in En2 by done. cbn in En2. by destruct (span not_comma r0t). }
  destruct r1 as [|c1 r1t].
  { injection En2 as <- <-. rewrite Hsplit, Forall_singleton, Hh. cbn [default]. naive_solver. }
  case_bool_decide as Hc1.
  - subst c1. injection En2 as <- <-. destruct (Hrest r1t eq_refl) as [Hl ->]. rewrite Forall_cons, Hh.
    destruct (eq_ignore_ascii_case t "close"); cbn [default]; [naive_solver|]. rewrite (IH _ Hl). naive_solver.
  - cbn [default]. split; [done|]. intros Hall. exfalso.
    assert (harmless_element e) as [-> _]%Hh by (destruct tl; [|destruct Hsplit as (_ & Hsp & _)]; rewrite ?Hsplit, ?Hsp in Hall; by inversion Hall).
    cbn [span] in En2. unfold not_comma at 1 in En2. rewrite bool_decide_eq_false_2 in En2 by done. cbn in En2. by destruct (span not_comma r1t).
Qed.

Lemma removed_twice {A} (P Q : Prop) `{Decision P, Decision Q} (l : list A) :
  (if bool_decide P then [] else if bool_decide Q then [] else l) = if bool_decide (Q ∨ P) then [] else l.
Proof. repeat case_bool_decide; try done; tauto. Qed.

Section Outgoing.
#[local] Set Default Proof Using "Type*".
Context {H : Type} `{HeaderMapLaws H}.
(** [to_str], [HeaderName::from_bytes], [HeaderValue::from_str], [Uri::from_str], the text of the error when a text
    is refused, and base64. *)
Context (to_str header_name header_value : string → option string) (parse_uri : string → string + Uri)
        (why : string → string) (base64 : string → string).

(** [connection_header_requests_close], openwire/transport/protocol.rs:293-298. *)
Definition connection_header_requests_close (h : H) : bool :=
  existsb (λ v, default true (to_str v ≫= value_requests_close)) (hm_get_all "connection" h).

(** [http1_exchange_allows_reuse], openwire/transport/protocol.rs:279-291. *)
Definition http1_exchange_allows_reuse (request_requests_close : bool) (response : Response H) : bool :=
  if request_requests_close then false
  else if String.eqb (res_version response) "HTTP/1.0" then false
  else negb (connection_header_requests_close (res_headers response)).

(** [determine_protocol], openwire/transport/protocol.rs:172-180. *)
Definition determine_protocol (a : Address) (negotiated_h2 : bool) : ConnectionProtocol :=
  if bool_decide (scheme a = Scheme_Http) then Http1 else if negotiated_h2 then Http2 else Http1.

Definition tokens_of (v : string) : list string := trim <$> split_on ","%char v.

(** [connection_nominated_headers], openwire/transport/protocol.rs:233-254. *)
Definition connection_nominated_headers (h : H) : list string :=
  foldl push_unique [] (omap header_name (filter (λ t, t ≠ EmptyString) (mjoin (tokens_of <$> omap to_str (hm_get_all "connection" h))))).

(** Whether a TE value lists trailers, openwire/transport/protocol.rs:257-264. *)
Definition has_te_trailers (te_values : list string) : bool :=
  existsb (λ v, match to_str v with
                | Some v => existsb (λ t, eq_ignore_ascii_case t "trailers") (tokens_of v)
                | None => false
                end) te_values.
(** [append_http2_te_trailers], openwire/transport/protocol.rs:256-269. *)
Definition append_http2_te_trailers (te_values : list string) (h : H) : H :=
  if has_te_trailers te_values then hm_insert "te" "trailers" h else h.

(** The headers that are always removed, openwire/transport/protocol.rs:216-221. *)
Definition connection_specific : list string :=
  ["te"; "connection"; "keep-alive"; "proxy-connection"; "transfer-encoding"; "upgrade"].
(** [strip_http2_connection_specific_headers], openwire/transport/protocol.rs:212-231. *)
Definition strip_http2_connection_specific_headers (h : H) : H :=
  let nominated := connection_nominated_headers h in
  let te_values := hm_get_all "te" h in
  let h := foldl (λ h k, hm_remove k h) h connection_specific in
  let te_was_nominated := bool_decide ("te"%string ∈ nominated) in
  let h := foldl (λ h k, hm_remove k h) h nominated in
  if negb te_was_nominated then append_http2_te_trailers te_values h else h.

(** [prepare_bound_request], openwire/transport/protocol.rs:182-210; a URI without a path has an empty one. *)
Definition prepare_bound_request (r : Request H) (protocol : ConnectionProtocol) (route_kind : RouteKind)
    : outcome WireError (Request H) :=
  if bool_decide (protocol = Http2) then Ok (with_headers (strip_http2_connection_specific_headers (req_headers r)) r)
  else match route_kind with
  | HttpForwardProxy _ _ => Ok r
  | _ =>
    let path := uri_path_and_query (req_uri r) in
    match parse_uri (if bool_decide (path = EmptyString) then "/"%string else path) with
    | inl e => Err (internal "failed to normalize request URI for direct HTTP/1.1 binding" e)
    | inr u => Ok (mkRequest (req_method r) u (req_version r) (req_headers r) (req_extensions r) (req_body r))
    end
  end.

(** [same_selected_proxy_endpoint], openwire/client.rs:1436-1445. *)
Definition same_selected_proxy_endpoint (a b : option SelectedProxy) : bool :=
  match a, b with
  | Some a, Some b => same_endpoint a b
  | None, None => true
  | _, _ => false
  end.

(** [clear_proxy_authorization_if_proxy_changed], openwire/client.rs:1410-1420. *)
Definition clear_proxy_authorization_if_proxy_changed (r : Request H) (selected : option SelectedProxy) : Request H :=
  let previous := ext_selected_proxy (req_extensions r) in
  if is_some previous && negb (same_selected_proxy_endpoint previous selected)
  then with_headers (hm_remove "proxy-authorization" (req_headers r)) r else r.

(** [clear_proxy_authorization_if_proxy_dropped_from_candidates], openwire/client.rs:1422-1434. *)
Definition clear_proxy_authorization_if_proxy_dropped_from_candidates (r : Request H) (candidates : list (option SelectedProxy)) : Request H :=
  let previous := ext_selected_proxy (req_extensions r) in
  if is_some previous && negb (existsb (λ c, same_selected_proxy_endpoint c previous) candidates)
  then with_headers (hm_remove "proxy-authorization" (req_headers r)) r else r.

(** [cache_request_addresses], openwire/client.rs:1377-1408. *)
Definition cache_request_addresses (selector : Uri → outcome WireError ProxySelection) (r : Request H)
    : outcome WireError (Request H * list ResolvedAddress) :=
  let previous := ext_selected_proxy (req_extensions r) in
  let? selection := selector (req_uri r) in
  let candidates := resolved_proxy_candidates_with_sticky selection previous in
  let r := clear_proxy_authorization_if_proxy_dropped_from_candidates r candidates in
  let? addresses := resolve_loop (req_uri r) candidates [] in
  let e := req_extensions r in
  let e := mkExtensions (ext_config e) (ext_options e) (ext_trace e) (Some addresses) (ext_selected_proxy e)
             (ext_dispatcher_queued e) (ext_no_coalesced e) (ext_websocket e) (ext_alpn e) (ext_route e) in
  Ok (mkRequest (req_method r) (req_uri r) (req_version r) (req_headers r) e (req_body r), addresses).

(** [apply_rfc9218_priority], openwire/transport/service.rs:1031-1046. *)
Definition apply_rfc9218_priority (r : Request H) : Request H :=
  if hm_contains "priority" (req_headers r) then r else
  let u := from_option (λ c, urgency (ec_priority c)) (urgency NORMAL) (ext_config (req_extensions r)) in
  match header_value ("u=" +:+ pretty u) with
  | None => r
  | Some v => with_headers (hm_insert "priority" v (req_headers r)) r
  end.

(** [apply_forward_proxy_credentials], openwire/transport/service.rs:1048-1077. *)
Definition apply_forward_proxy_credentials (r : Request H) (route_kind : RouteKind) : outcome WireError (Request H) :=
  match route_kind with
  | HttpForwardProxy _ (Some c) =>
    if hm_contains "proxy-authorization" (req_headers r) then Ok r else
    match header_value (basic_auth_header_value base64 c) with
    | None => Err (with_source Kind_InvalidRequest "proxy basic auth header is not valid ASCII" (why (basic_auth_header_value base64 c)))
    | Some v => Ok (with_headers (hm_insert "proxy-authorization" v (req_headers r)) r)
    end
  | _ => Ok r
  end.

(** [prepare_request_for_send], openwire/transport/service.rs:1019-1029. *)
Definition prepare_request_for_send (r : Request H) (selected : option SelectedProxy) (protocol : ConnectionProtocol)
    (route_kind : RouteKind) : outcome WireError (Request H) :=
  let r := clear_proxy_authorization_if_proxy_changed r selected in
  let? r := apply_forward_proxy_credentials r route_kind in
  prepare_bound_request (apply_rfc9218_priority r) protocol route_kind.

Lemma contains_get_all k (h : H) : hm_contains k h = negb (bool_decide (hm_get_all k h = [])).
Proof. done. Qed.

(** *** Over HTTP/2 *)

(** A request sent over HTTP/2 carries no header that belongs to an HTTP/1 connection: the connection-specific
    headers and every header the Connection header names are gone, TE is gone or says exactly [trailers] -
    and it says so exactly when the request did and did not name TE in Connection - and every other
    header, the URI and the body are as they were. *)
Theorem http2_request_headers r route_kind :
  ∃ h, prepare_bound_request r Http2 route_kind = Ok (with_headers h r) ∧
  let nominated := connection_nominated_headers (req_headers r) in
  (∀ k, k ≠ "te"%string → hm_get_all k h
     = if bool_decide (k ∈ connection_specific ∨ k ∈ nominated) then [] else hm_get_all k (req_headers r)) ∧
  hm_get_all "te" h
    = (if has_te_trailers (hm_get_all "te" (req_headers r)) && negb (bool_decide ("te"%string ∈ nominated)) then ["trailers"%string] else []).
Proof.
  eexists. split; [done|]. cbn zeta. unfold strip_http2_connection_specific_headers, append_http2_te_trailers.
  set (nominated := connection_nominated_headers _). set (h2 := foldl _ (foldl _ _ _) nominated).
  assert (Hh2 : ∀ k, hm_get_all k h2 = if bool_decide (k ∈ connection_specific ∨ k ∈ nominated) then [] else hm_get_all k (req_headers r)).
  { intros k. unfold h2. rewrite !hm_get_all_remove_all. apply removed_twice. }
  assert (Hte : hm_get_all "te" h2 = []) by (rewrite Hh2, bool_decide_eq_true_2; [done|left; left]).
  split.
  - intros k Hk. rewrite <-Hh2. repeat case_match; try done. rewrite hm_get_all_insert, bool_decide_eq_false_2 by done. done.
  - destruct (bool_decide ("te"%string ∈ nominated)); cbn [negb]; [by rewrite andb_false_r|]. rewrite andb_true_r.
    destruct (has_te_trailers _); [by rewrite hm_insert_eq|done].
Qed.

(** *** Proxy credentials *)

Definition route_credentials (route_kind : RouteKind) : list string :=
  match route_kind with
  | HttpForwardProxy _ (Some c) => option_list (header_value (basic_auth_header_value base64 c))
  | _ => []
  end.

Lemma prepare_bound_keeps r protocol route_kind r' k :
  prepare_bound_request r protocol route_kind = Ok r' →
  hm_get_all k (req_headers r') = hm_get_all k (req_headers r) ∨
  (protocol = Http2 ∧ (hm_get_all k (req_headers r') = [] ∨ k = "te"%string)).
Proof.
  unfold prepare_bound_request. case_bool_decide as Hp; [subst protocol|].
  - destruct (http2_request_headers r route_kind) as (h & Hok & Hk & _). unfold prepare_bound_request in Hok.
    rewrite bool_decide_eq_true_2 in Hok by done. rewrite Hok. intros [= <-]. destruct (decide (k = "te"%string)) as [->|Hte]; [auto|].
    cbn [with_headers req_headers]. rewrite (Hk k Hte). case_bool_decide; auto.
  - destruct route_kind; try (by intros [= <-]; left); destruct (parse_uri _); try done; intros [= <-]; by left.
Qed.
Lemma priority_keeps r k : k ≠ "priority"%string → hm_get_all k (req_headers (apply_rfc9218_priority r)) = hm_get_all k (req_headers r).
Proof.
  intros Hk. unfold apply_rfc9218_priority. destruct (hm_contains _ _); [done|]. destruct (header_value _); [|done].
  cbn [with_headers req_headers]. by rewrite hm_get_all_insert, bool_decide_eq_false_2.
Qed.

(** C40.  Credentials for one proxy never reach another or the origin: when a request that was answered through one
    proxy is sent through a different one or directly, the Proxy-Authorization it goes out with is that
    of the forward proxy it goes to, if that has credentials, and none otherwise; nothing the request
    carried before is left. *)
Theorem proxy_credentials_follow_proxy r selected protocol route_kind previous r' :
  ext_selected_proxy (req_extensions r) = Some previous →
  same_selected_proxy_endpoint (Some previous) selected = false →
  prepare_request_for_send r selected protocol route_kind = Ok r' →
  hm_get_all "proxy-authorization" (req_headers r') = route_credentials route_kind ∨
  (protocol = Http2 ∧ hm_get_all "proxy-authorization" (req_headers r') = []).
Proof.
  intros He Hs. unfold prepare_request_for_send, clear_proxy_authorization_if_proxy_changed. rewrite He, Hs. cbn [is_some negb andb].
  intros (r1 & H1' & H2')%obind_Ok. apply (prepare_bound_keeps _ _ _ _ "proxy-authorization") in H2' as [->|[-> [->|]]]; [|by right|done].
  left. rewrite priority_keeps by done. revert H1'. unfold apply_forward_proxy_credentials, route_credentials.
  destruct route_kind as [?|? [c|]|? ?|? ?]; try (intros [= <-]; cbn [with_headers req_headers]; apply hm_remove_eq).
  rewrite contains_get_all. cbn [with_headers req_headers]. rewrite hm_remove_eq, bool_decide_eq_true_2 by done. cbn [negb].
  destruct (header_value _) as [v|]; [|done]. intros [= <-]. cbn [with_headers req_headers]. apply hm_insert_eq.
Qed.

(** *** Keeping the connection *)

(** A Connection header that lets the connection be kept: every value is readable and every element of it harmless. *)
Definition keeps_connection (h : H) : Prop :=
  Forall (λ v, ∃ s, to_str v = Some s ∧ Forall harmless_element (split_on ","%char s)) (hm_get_all "connection" h).

Lemma requests_close_iff (h : H) : connection_header_requests_close h = false ↔ keeps_connection h.
Proof.
  unfold connection_header_requests_close, keeps_connection. induction (hm_get_all "connection" h) as [|v vs IH]; cbn [existsb]; [by split|].
  rewrite orb_false_iff, Forall_cons, IH. apply and_iff_compat_r. destruct (to_str v) as [s|]; cbn [mbind option_bind].
  - rewrite close_scanner_iff. split; [by eexists|]. by intros (? & [= <-] & ?).
  - split; [done|]. by intros (? & ? & _).
Qed.

(** A connection is kept exactly when both sides let it: an HTTP/1 exchange allows reuse if and only if the
    request did not ask to close, the response is not HTTP/1.0, and the response's Connection headers are
    all lists of tokens, white space and empty elements allowed as in RFC 9110, none of them [close]; the
    hand-written scanner agrees with that grammar on every input, and anything malformed or unreadable
    closes. *)
Theorem http1_reuse_iff request_close (response : Response H) :
  http1_exchange_allows_reuse request_close response = true ↔
  request_close = false ∧ res_version response ≠ "HTTP/1.0"%string ∧ keeps_connection (res_headers response).
Proof.
  unfold http1_exchange_allows_reuse. destruct request_close; [by split; [|intros [? _]]|].
  destruct (String.eqb_spec (res_version response) "HTTP/1.0"); [by split; [|intros (_ & ? & _)]|].
  rewrite negb_true_iff, requests_close_iff. by split; [|intros (_ & _ & ?)].
Qed.
End Outgoing.

Module OutgoingDemo.
#[local] Open Scope string_scope.
#[local] Open Scope list_scope.
Definition uri : Uri := mkUri (Some "http") (Some "example.com") (Some "example.com") None "/a".
Definition request (h : list (string * string)) (e : Extensions) : Request (list (string * string)) :=
  mkRequest Method_GET uri "HTTP/1.1" h e Body_Absent.
Definition url (host : string) : Url := mkUrl "http" "" None (Some host) (Some 8080) "/".
Definition proxy (host : string) : SelectedProxy := mkSelectedProxy (url host) Intercept_All (Some (mkProxyCredentials "u" "p")).
Definition through (p : SelectedProxy) : Extensions := mkExtensions None None None None (Some p) false false None None None.
Definition send := prepare_request_for_send (H := list (string * string)) Some Some Some (λ _, inl "unused") (λ s, s) (λ s, s).
Definition other_route : RouteKind := HttpForwardProxy (mkSocketAddr (V4 1) 8080) (Some (mkProxyCredentials "u" "p")).

Example http2_stripped :
  send (request [("connection", "keep-alive, x-hop"); ("x-hop", "1"); ("te", "gzip, trailers"); ("accept", "*/*")] no_extensions)
    None Http2 (Direct (mkSocketAddr (V4 1) 443))
  = Ok (request [("te", "trailers"); ("priority", "u=3"); ("accept", "*/*")] no_extensions).
Proof. vm_compute. reflexivity. Qed.
End OutgoingDemo.

Lemma proxy_credentials_follow_proxy_witness :
  let r := OutgoingDemo.request [("proxy-authorization", "Basic secret")]%string (OutgoingDemo.through (OutgoingDemo.proxy "one.test")) in
  ∃ r', OutgoingDemo.send r (Some (OutgoingDemo.proxy "two.test")) Http1 OutgoingDemo.other_route = Ok r' ∧
    (hm_get_all "proxy-authorization" (req_headers r') = ["Basic u:p"%string] ∨
     (Http1 = Http2 ∧ hm_get_all "proxy-authorization" (req_headers r') = [])).
Proof.
  intros r. eexists. split; [vm_compute; reflexivity|].
  apply (proxy_credentials_follow_proxy Some Some Some (λ _, inl "unused"%string) (λ s, s) (λ s, s) r
           (Some (OutgoingDemo.proxy "two.test")) Http1 OutgoingDemo.other_route (OutgoingDemo.proxy "one.test")); vm_compute; reflexivity.
Defined.

Lemma http2_request_headers_witness :
  let r := OutgoingDemo.request [("connection", "x-hop"); ("x-hop", "1"); ("te", "trailers")]%string no_extensions in
  ∃ h, prepare_bound_request Some Some (λ _, inl "unused"%string) r Http2 (Direct (mkSocketAddr (V4 1) 443)) = Ok (with_headers h r) ∧
    hm_get_all "x-hop" h = [] ∧ hm_get_all "te" h = ["trailers"%string].
Proof.
  intros r. destruct (http2_request_headers Some Some (λ _, inl "unused"%string) r (Direct (mkSocketAddr (V4 1) 443))) as (h & Hok & Hk & Hte).
  exists h. split; [exact Hok|]. split; [rewrite Hk by discriminate|rewrite Hte]; vm_compute; reflexivity.
Defined.

Lemma http1_reuse_iff_witness :
  http1_exchange_allows_reuse Some false (mkResponse 200 "HTTP/1.1" [("connection", "Keep-Alive , ")]%string (Ok []) None false) = true ↔
  false = false ∧ "HTTP/1.1"%string ≠ "HTTP/1.0"%string ∧ keeps_connection Some [("connection", "Keep-Alive , ")]%string.
Proof. apply (http1_reuse_iff (H := list (string * string)) Some false (mkResponse 200 "HTTP/1.1" [("connection", "Keep-Alive , ")]%string (Ok []) None false)). Defined.
