(* ===== verification/ObservedBody.v ===== *)
(** * Bodies under observation

    openwire/src/transport/body.rs: the wrappers around the body of a request and of a response that report its
    progress to the listener, enforce the call's deadline on the response and decide the fate of the
    connection's lease.  The flags of the call are those of openwire-core/src/context.rs.

    A body of hyper is the class [HttpBody]; the listener is the list of what it was told; a lease is given to
    exactly one of three fates. *)

From S2P Require Import Prelude Net Error Http.

Inductive Frame : Type := Frame_Data (data : bytes) | Frame_Trailers.

(** [http_body::Body] with errors [E]. *)
Class HttpBody (E B : Type) : Type := {
  body_poll_frame : B → poll (option (E + Frame)) * B;
  body_is_end_stream : B → bool;
}.

(** What the listener is told. *)
Inductive BodyEvent : Type :=
| Ev_RequestBodyStart | Ev_RequestBodyEnd (sent : Z) | Ev_RequestFailed (e : WireError)
| Ev_ResponseBodyStart | Ev_ResponseBodyEnd (read : Z) | Ev_ResponseBodyFailed (e : WireError)
| Ev_RequestHeadersStart | Ev_RequestHeadersEnd | Ev_ResponseFailed (e : WireError).

(** The flags of [CallContextInner] and the listener, openwire-core/context.rs:50-63. *)
Record CallContext : Type := mkCtx {
  cx_events : list BodyEvent;
  cx_write_complete : bool;
  cx_failed_emitted : bool;
  cx_force_discard : bool;
  cx_created_at : Instant;
  cx_deadline : option Instant;
}.
Definition tell (e : BodyEvent) (c : CallContext) : CallContext :=
  mkCtx (cx_events c ++ [e]) (cx_write_complete c) (cx_failed_emitted c) (cx_force_discard c) (cx_created_at c) (cx_deadline c).

(** [CallContext::mark_request_write_complete], openwire-core/context.rs:157-161. *)
Definition mark_request_write_complete (c : CallContext) : CallContext :=
  mkCtx (cx_events c) true (cx_failed_emitted c) (cx_force_discard c) (cx_created_at c) (cx_deadline c).
(** [CallContext::mark_request_failed_emitted], openwire-core/context.rs:167-171. *)
Definition mark_request_failed_emitted (c : CallContext) : CallContext :=
  mkCtx (cx_events c) (cx_write_complete c) true (cx_force_discard c) (cx_created_at c) (cx_deadline c).
(** [CallContext::mark_body_force_discard], openwire-core/context.rs:136-138. *)
Definition mark_body_force_discard (c : CallContext) : CallContext :=
  mkCtx (cx_events c) (cx_write_complete c) (cx_failed_emitted c) true (cx_created_at c) (cx_deadline c).

(** ** Request bodies *)

Section Outgoing.
Context {B : Type} `{HttpBody WireError B}.

(** [ObservedOutgoingBody], openwire/transport/body.rs:120-126. *)
Record ObservedOutgoingBody : Type := mkOutgoing {
  ob_inner : B;
  ob_bytes_sent : Z;
  ob_started : bool;
  ob_finished : bool;
}.

(** [ObservedOutgoingBody::wrap], openwire/transport/body.rs:129-137. *)
Definition outgoing_wrap (b : B) : ObservedOutgoingBody := mkOutgoing b 0 false false.

(** [ObservedOutgoingBody::ensure_started], openwire/transport/body.rs:161-167. *)
Definition outgoing_ensure_started (o : ObservedOutgoingBody) (c : CallContext) : ObservedOutgoingBody * CallContext :=
  if ob_started o then (o, c)
  else (mkOutgoing (ob_inner o) (ob_bytes_sent o) true (ob_finished o), tell Ev_RequestBodyStart c).

(** [ObservedOutgoingBody::finish_successfully], openwire/transport/body.rs:139-149. *)
Definition outgoing_finish_successfully (o : ObservedOutgoingBody) (c : CallContext) : ObservedOutgoingBody * CallContext :=
  if ob_finished o then (o, c) else
  let o := mkOutgoing (ob_inner o) (ob_bytes_sent o) (ob_started o) true in
  let '(o, c) := outgoing_ensure_started o c in
  (o, tell (Ev_RequestBodyEnd (ob_bytes_sent o)) (mark_request_write_complete c)).

(** [ObservedOutgoingBody::finish_with_error], openwire/transport/body.rs:151-159. *)
Definition outgoing_finish_with_error (e : WireError) (o : ObservedOutgoingBody) (c : CallContext) : ObservedOutgoingBody * CallContext :=
  if ob_finished o then (o, c) else
  let o := mkOutgoing (ob_inner o) (ob_bytes_sent o) (ob_started o) true in
  let '(o, c) := outgoing_ensure_started o c in
  (o, tell (Ev_RequestFailed e) (mark_request_failed_emitted c)).

(** [Body::poll_frame for ObservedOutgoingBody], openwire/transport/body.rs:189-212. *)
Definition outgoing_poll_frame (o : ObservedOutgoingBody) (c : CallContext)
    : poll (option (WireError + Frame)) * ObservedOutgoingBody * CallContext :=
  let '(o, c) := outgoing_ensure_started o c in
  let '(p, inner) := body_poll_frame (ob_inner o) in
  let o := mkOutgoing inner (ob_bytes_sent o) (ob_started o) (ob_finished o) in
  match p with
  | Ready (Some (inr f)) =>
    let sent := match f with Frame_Data d => u64_wrapping_add (ob_bytes_sent o) (len d) | Frame_Trailers => ob_bytes_sent o end in
    (p, mkOutgoing (ob_inner o) sent (ob_started o) (ob_finished o), c)
  | Ready (Some (inl e)) => let '(o, c) := outgoing_finish_with_error e o c in (p, o, c)
  | Ready None => let '(o, c) := outgoing_finish_successfully o c in (p, o, c)
  | Pending => (p, o, c)
  end.

(** [Drop for ObservedOutgoingBody], openwire/transport/body.rs:170-183. *)
Definition outgoing_drop (o : ObservedOutgoingBody) (c : CallContext) : CallContext :=
  if ob_finished o then c
  else if ob_started o && body_is_end_stream (ob_inner o) then (outgoing_finish_successfully o c).2
  else c.

(** Any number of polls, then the drop; with what each returned and the body that is dropped. *)
Fixpoint outgoing_run (n : nat) (o : ObservedOutgoingBody) (c : CallContext)
    : list (poll (option (WireError + Frame))) * ObservedOutgoingBody * CallContext :=
  match n with
  | O => ([], o, outgoing_drop o c)
  | S n => let '(p, o, c) := outgoing_poll_frame o c in let '(ps, o, c) := outgoing_run n o c in (p :: ps, o, c)
  end.

(** What should be reported of a body that went like this: the first end or failure, with the bytes handed
    over before it; or the end, if it is dropped with nothing left. *)
Fixpoint report (sent : Z) (ps : list (poll (option (WireError + Frame)))) (ended : bool) : option BodyEvent :=
  match ps with
  | [] => if ended then Some (Ev_RequestBodyEnd sent) else None
  | Ready None :: _ => Some (Ev_RequestBodyEnd sent)
  | Ready (Some (inl e)) :: _ => Some (Ev_RequestFailed e)
  | Ready (Some (inr (Frame_Data d))) :: ps => report (u64_wrapping_add sent (len d)) ps ended
  | Ready (Some (inr Frame_Trailers)) :: ps | Pending :: ps => report sent ps ended
  end.
Definition is_end (e : option BodyEvent) : bool := match e with Some (Ev_RequestBodyEnd _) => true | _ => false end.
Definition is_failure (e : option BodyEvent) : bool := match e with Some (Ev_RequestFailed _) => true | _ => false end.

Lemma outgoing_finished n o c :
  ob_started o = true → ob_finished o = true → let '(ps, o', c') := outgoing_run n o c in c' = c.
Proof.
  revert o. induction n as [|n IH]; intros o Hs Hf; cbn [outgoing_run]; [unfold outgoing_drop; by rewrite Hf|].
  unfold outgoing_poll_frame, outgoing_ensure_started. rewrite Hs. destruct (body_poll_frame (ob_inner o)) as [p inner].
  assert (Hgo : ∀ x, let '(ps, o', c') := outgoing_run n (mkOutgoing inner x true true) c in c' = c) by (intros; by apply IH).
  destruct p as [[[e|[d|]]|]|]; unfold outgoing_finish_with_error, outgoing_finish_successfully; cbn; rewrite Hs, ?Hf; cbn;
    match goal with |- context [outgoing_run n (mkOutgoing inner ?x _ _) c] => specialize (Hgo x) end;
    by destruct (outgoing_run n _ c) as [[? ?] ?].
Qed.

Lemma outgoing_running n o c :
  ob_started o = true → ob_finished o = false →
  let '(ps, o', c') := outgoing_run n o c in
  let r := report (ob_bytes_sent o) ps (body_is_end_stream (ob_inner o')) in
  cx_events c' = cx_events c ++ option_list r ∧
  cx_write_complete c' = cx_write_complete c || is_end r ∧ cx_failed_emitted c' = cx_failed_emitted c || is_failure r.
Proof.
  revert o. induction n as [|n IH]; intros o Hs Hf; cbn [outgoing_run].
  { unfold outgoing_drop, outgoing_finish_successfully, outgoing_ensure_started. rewrite Hf, Hs. cbn [andb report].
    destruct (body_is_end_stream (ob_inner o)); cbn; rewrite ?Hs; cbn; by rewrite ?app_nil_r, ?orb_false_r, ?orb_true_r. }
  unfold outgoing_poll_frame, outgoing_ensure_started. rewrite Hs. destruct (body_poll_frame (ob_inner o)) as [p inner].
  destruct p as [[[e|[d|]]|]|].
  - unfold outgoing_finish_with_error, outgoing_ensure_started. cbn [ob_finished]. rewrite Hf. cbn [ob_started]. rewrite Hs.
    match goal with |- context [outgoing_run n ?o1 ?c1] => pose proof (outgoing_finished n o1 c1 ltac:(done) eq_refl) as Hfin; destruct (outgoing_run n o1 c1) as [[ps o2] c2] end.
    rewrite Hfin. cbn. by rewrite orb_false_r, orb_true_r.
  - match goal with |- context [outgoing_run n ?o1 c] => specialize (IH o1 ltac:(done) ltac:(done)); destruct (outgoing_run n o1 c) as [[ps o2] c2] end. exact IH.
  - match goal with |- context [outgoing_run n ?o1 c] => specialize (IH o1 ltac:(done) ltac:(done)); destruct (outgoing_run n o1 c) as [[ps o2] c2] end. exact IH.
  - unfold outgoing_finish_successfully, outgoing_ensure_started. cbn [ob_finished]. rewrite Hf. cbn [ob_started]. rewrite Hs.
    match goal with |- context [outgoing_run n ?o1 ?c1] => pose proof (outgoing_finished n o1 c1 ltac:(done) eq_refl) as Hfin; destruct (outgoing_run n o1 c1) as [[ps o2] c2] end.
    rewrite Hfin. cbn. by rewrite orb_false_r, orb_true_r.
  - match goal with |- context [outgoing_run n ?o1 c] => specialize (IH o1 ltac:(done) ltac:(done)); destruct (outgoing_run n o1 c) as [[ps o2] c2] end. exact IH.
Qed.

(** The progress of a request body is reported faithfully: a body that is polled is announced once, then the
    first end or failure is reported, once, with the bytes handed over until then - also when the
    connection stops polling after the last byte and drops it - and the call is marked as written or as
    failed exactly then; a body that is never polled reports nothing. *)
Theorem request_body_reported n (b : B) c :
  let '(ps, o, c') := outgoing_run n (outgoing_wrap b) c in
  let r := if (n =? 0)%nat then None else report 0 ps (body_is_end_stream (ob_inner o)) in
  cx_events c' = cx_events c ++ (if (n =? 0)%nat then [] else [Ev_RequestBodyStart]) ++ option_list r ∧
  cx_write_complete c' = cx_write_complete c || is_end r ∧ cx_failed_emitted c' = cx_failed_emitted c || is_failure r.
Proof.
  destruct n as [|n]; [cbn; by rewrite app_nil_r, !orb_false_r|]. cbn [Nat.eqb].
  pose proof (outgoing_running (S n) (mkOutgoing b 0 true false) (tell Ev_RequestBodyStart c) eq_refl eq_refl) as Hrun.
  change (outgoing_run (S n) (outgoing_wrap b) c) with (outgoing_run (S n) (mkOutgoing b 0 true false) (tell Ev_RequestBodyStart c)).
  destruct (outgoing_run (S n) _ _) as [[ps o] c']. cbn [ob_bytes_sent tell cx_events cx_write_complete cx_failed_emitted] in Hrun.
  by rewrite <-app_assoc in Hrun.
Qed.
End Outgoing.
Arguments ObservedOutgoingBody : clear implicits.

(** ** Response bodies *)

Inductive Fate : Type := Released | Discarded | Abandoned.

#[global] Instance Fate_eq_dec : EqDecision Fate.
Proof. solve_decision. Defined.

Section Incoming.
(** Errors of hyper and their conversion; the Debug text of a duration. *)
Context {E B L : Type} `{HttpBody E B} (from_hyper : E → WireError) (debug : Duration → string).

(** [ObservedIncomingBody], openwire/transport/body.rs:248-258; the leases settled so far are part of the state. *)
Record ObservedIncomingBody : Type := mkIncoming {
  ib_inner : B;
  ib_bytes_read : Z;
  ib_release : option L;
  ib_deadline_signal : bool;
  ib_finished : bool;
  ib_body_started : bool;
  ib_settled : list (Fate * L);
}.

(** [ObservedIncomingBody::wrap], openwire/transport/body.rs:261-283. *)
Definition incoming_wrap (b : B) (release : option L) (signal : bool) : ObservedIncomingBody := mkIncoming b 0 release signal false false [].

(** [ObservedIncomingBody::ensure_body_started], openwire/transport/body.rs:285-291. *)
Definition ensure_body_started (i : ObservedIncomingBody) (c : CallContext) : ObservedIncomingBody * CallContext :=
  if ib_body_started i then (i, c)
  else (mkIncoming (ib_inner i) (ib_bytes_read i) (ib_release i) (ib_deadline_signal i) (ib_finished i) true (ib_settled i),
        tell Ev_ResponseBodyStart c).

(** [release_connection] and [discard_connection], openwire/transport/body.rs:377-387; [abandon_response_lease],
    openwire/transport/body.rs:395-397. *)
Definition settle (f : Fate) (i : ObservedIncomingBody) : ObservedIncomingBody :=
  mkIncoming (ib_inner i) (ib_bytes_read i) None (ib_deadline_signal i) (ib_finished i) (ib_body_started i)
    (ib_settled i ++ option_list (pair f <$> ib_release i)).

Definition set_finished (i : ObservedIncomingBody) : ObservedIncomingBody :=
  mkIncoming (ib_inner i) (ib_bytes_read i) (ib_release i) (ib_deadline_signal i) true (ib_body_started i) (ib_settled i).

(** [ObservedIncomingBody::finish_successfully], openwire/transport/body.rs:293-303. *)
Definition incoming_finish_successfully (i : ObservedIncomingBody) (c : CallContext) : ObservedIncomingBody * CallContext :=
  if ib_finished i then (i, c) else
  let '(i, c) := ensure_body_started (set_finished i) c in
  (settle Released i, tell (Ev_ResponseBodyEnd (ib_bytes_read i)) c).

(** [ObservedIncomingBody::finish_with_error], openwire/transport/body.rs:305-324. *)
Definition incoming_finish_with_error (e : WireError) (i : ObservedIncomingBody) (c : CallContext) : ObservedIncomingBody * CallContext :=
  if ib_finished i then (i, c) else
  let '(i, c) := ensure_body_started (set_finished i) c in
  (settle Discarded i, tell (Ev_ResponseBodyFailed e) c).

(** [ObservedIncomingBody::finish_abandoned], openwire/transport/body.rs:326-349, run by its [Drop]. *)
Definition finish_abandoned (i : ObservedIncomingBody) (c : CallContext) : ObservedIncomingBody * CallContext :=
  if ib_finished i then (i, c) else
  let '(i, c) := ensure_body_started (set_finished i) c in
  if cx_force_discard c
  then (settle Discarded i,
        tell (Ev_ResponseBodyFailed (body "response body failed after intermediate processing error" "body force discard")) c)
  else (settle Abandoned i, tell (Ev_ResponseBodyEnd (ib_bytes_read i)) c).

(** [ObservedIncomingBody::poll_deadline], openwire/transport/body.rs:351-375; [expired] is the signal's flag. *)
Definition poll_deadline (expired : bool) (i : ObservedIncomingBody) (c : CallContext)
    : poll (option (WireError + Frame)) * ObservedIncomingBody * CallContext :=
  if negb (ib_deadline_signal i) || negb expired then (Pending, i, c) else
  match cx_deadline c with
  | None => (Ready (Some (inl (internal "body deadline signal missing call deadline" "deadline invariant violated"))), i, c)
  | Some deadline =>
    let e := body_timeout ("call timed out after " +:+ debug (saturating_sub deadline (cx_created_at c))) in
    let '(i, c) := incoming_finish_with_error e i c in (Ready (Some (inl e)), i, c)
  end.

(** [Body::poll_frame for ObservedIncomingBody], openwire/transport/body.rs:537-569. *)
Definition incoming_poll_frame (expired : bool) (i : ObservedIncomingBody) (c : CallContext)
    : poll (option (WireError + Frame)) * ObservedIncomingBody * CallContext :=
  if ib_finished i then (Ready None, i, c) else
  match poll_deadline expired i c with
  | (Ready r, i, c) => (Ready r, i, c)
  | (Pending, i, c) =>
    let '(p, inner) := body_poll_frame (ib_inner i) in
    let i := mkIncoming inner (ib_bytes_read i) (ib_release i) (ib_deadline_signal i) (ib_finished i) (ib_body_started i) (ib_settled i) in
    match p with
    | Ready (Some (inr (Frame_Data d))) =>
      let '(i, c) := ensure_body_started i c in
      (Ready (Some (inr (Frame_Data d))),
       mkIncoming (ib_inner i) (u64_wrapping_add (ib_bytes_read i) (len d)) (ib_release i) (ib_deadline_signal i) (ib_finished i)
         (ib_body_started i) (ib_settled i), c)
    | Ready (Some (inr Frame_Trailers)) => (Ready (Some (inr Frame_Trailers)), i, c)
    | Ready (Some (inl e)) =>
      let e := with_request_committed (with_phase Phase_ResponseBody (from_hyper e)) in
      let '(i, c) := incoming_finish_with_error e i c in (Ready (Some (inl e)), i, c)
    | Ready None => let '(i, c) := incoming_finish_successfully i c in (Ready None, i, c)
    | Pending => (Pending, i, c)
    end
  end.

(** What happens to a response body: it is polled, with the signal expired or not, or a layer above it fails. *)
Inductive BodyMove : Type := Poll (expired : bool) | UpperFailure.

(** Any moves, then the drop; with what each poll returned. *)
Fixpoint incoming_run (ms : list BodyMove) (i : ObservedIncomingBody) (c : CallContext)
    : list (poll (option (WireError + Frame))) * ObservedIncomingBody * CallContext :=
  match ms with
  | [] => let '(i, c) := finish_abandoned i c in ([], i, c)
  | UpperFailure :: ms => incoming_run ms i (mark_body_force_discard c)
  | Poll expired :: ms =>
    let '(p, i, c) := incoming_poll_frame expired i c in
    let '(ps, i, c) := incoming_run ms i c in (p :: ps, i, c)
  end.

Definition is_error (p : poll (option (WireError + Frame))) : Prop := ∃ e, p = Ready (Some (inl e)).
Definition ends (p : poll (option (WireError + Frame))) : Prop := p = Ready None ∨ is_error p.

(** What a failure of a layer above is reported as when the body is dropped, openwire/transport/body.rs:333-341. *)
Definition force_discard_error : WireError := body "response body failed after intermediate processing error" "body force discard".

(** The fate of the lease and the last event, by what the polls returned and whether a layer above has failed by
    the time the body is dropped: the first poll that ends the body decides, and the drop if there is none. *)
Fixpoint verdict (read : Z) (ps : list (poll (option (WireError + Frame)))) (upper : bool) : Fate * BodyEvent :=
  match ps with
  | [] => if upper then (Discarded, Ev_ResponseBodyFailed force_discard_error) else (Abandoned, Ev_ResponseBodyEnd read)
  | Ready None :: _ => (Released, Ev_ResponseBodyEnd read)
  | Ready (Some (inl e)) :: _ => (Discarded, Ev_ResponseBodyFailed e)
  | Ready (Some (inr (Frame_Data d))) :: ps => verdict (u64_wrapping_add read (len d)) ps upper
  | Ready (Some (inr Frame_Trailers)) :: ps | Pending :: ps => verdict read ps upper
  end.

Definition upper_failed (ms : list BodyMove) : bool := existsb (λ m, match m with UpperFailure => true | Poll _ => false end) ms.

(** The errors a poll may return: one of hyper's, or the deadline's. *)
Definition poll_error_ok (signal : bool) (c : CallContext) (expired : bool) (e : WireError) : Prop :=
  (∃ h, e = with_request_committed (with_phase Phase_ResponseBody (from_hyper h))) ∨
  (signal = true ∧ expired = true ∧ ∃ deadline, cx_deadline c = Some deadline ∧
     e = body_timeout ("call timed out after " +:+ debug (saturating_sub deadline (cx_created_at c)))).

Lemma run_finished ms i c :
  ib_finished i = true →
  let '(ps, i', c') := incoming_run ms i c in
  Forall (λ p, p = Ready None) ps ∧ i' = i ∧ cx_events c' = cx_events c.
Proof.
  intros Hf. revert c. induction ms as [|[expired|] ms IH]; intros c; cbn [incoming_run].
  - unfold finish_abandoned. rewrite Hf. by split_and!.
  - unfold incoming_poll_frame. rewrite Hf. specialize (IH c). destruct (incoming_run ms i c) as [[ps i'] c'].
    destruct IH as (Hp & -> & He). split_and!; try done. by constructor.
  - specialize (IH (mark_body_force_discard c)). by destruct (incoming_run ms i _) as [[ps i'] c'].
Qed.

(** A body that has not finished, holding a lease. *)
Record running (l : L) (i : ObservedIncomingBody) (c : CallContext) : Prop := mkRunning {
  rn_release : ib_release i = Some l;
  rn_settled : ib_settled i = [];
  rn_finished : ib_finished i = false;
  rn_deadline : ib_deadline_signal i = true → is_Some (cx_deadline c);
}.
Definition start_event (i : ObservedIncomingBody) : list BodyEvent := if ib_body_started i then [] else [Ev_ResponseBodyStart].

(** What no poll changes of the call and the body. *)
Definition same_call (i i' : ObservedIncomingBody) (c c' : CallContext) : Prop :=
  cx_force_discard c' = cx_force_discard c ∧ cx_deadline c' = cx_deadline c ∧ cx_created_at c' = cx_created_at c ∧
  ib_deadline_signal i' = ib_deadline_signal i.

Lemma failed_finishes l e j c :
  ib_release j = Some l → ib_settled j = [] → ib_finished j = false →
  let '(i', c') := incoming_finish_with_error e j c in
  same_call j i' c c' ∧ ib_finished i' = true ∧ ib_settled i' = [(Discarded, l)] ∧
  cx_events c' = cx_events c ++ start_event j ++ [Ev_ResponseBodyFailed e].
Proof.
  intros Hr Hs Hf. unfold incoming_finish_with_error, ensure_body_started, start_event, same_call. rewrite Hf. cbn [ib_body_started set_finished].
  destruct (ib_body_started j) eqn:Es; cbn; rewrite ?Hr, ?Hs, <-?app_assoc; by split_and!.
Qed.

(** One poll of it: it goes on, or settles the lease. *)
Lemma poll_running l expired i c p i' c' :
  running l i c → incoming_poll_frame expired i c = (p, i', c') →
  same_call i i' c c' ∧ (∀ e, p = Ready (Some (inl e)) → poll_error_ok (ib_deadline_signal i) c expired e) ∧
  ((running l i' c' ∧ cx_events c' ++ start_event i' = cx_events c ++ start_event i ∧ ¬ ends p ∧
    ∀ ps upper, verdict (ib_bytes_read i) (p :: ps) upper = verdict (ib_bytes_read i') ps upper) ∨
   (ib_finished i' = true ∧ ends p ∧ let '(f, last) := verdict (ib_bytes_read i) [p] false in
    ib_settled i' = [(f, l)] ∧ cx_events c' = cx_events c ++ start_event i ++ [last])).
Proof.
  intros [Hr Hs Hf Hd]. unfold incoming_poll_frame. rewrite Hf. destruct (poll_deadline expired i c) as [[d i1] c1] eqn:Ed.
  unfold poll_deadline in Ed. destruct (negb (ib_deadline_signal i) || negb expired) eqn:Eg.
  - injection Ed as <- <- <-. destruct (body_poll_frame (ib_inner i)) as [q inner]. destruct q as [[[e|[data|]]|]|].
    + pose proof (failed_finishes l (with_request_committed (with_phase Phase_ResponseBody (from_hyper e)))
        (mkIncoming inner (ib_bytes_read i) (ib_release i) (ib_deadline_signal i) (ib_finished i) (ib_body_started i) (ib_settled i)) c Hr Hs Hf) as Hfail.
      destruct (incoming_finish_with_error _ _ c) as [i2 c2]. intros [= <- <- <-]. destruct Hfail as (? & ? & ? & ?).
      split; [done|]. split; [intros e' [= <-]; left; by eexists|]. right. cbn. split_and!; try done. right. by eexists.
    + unfold ensure_body_started, start_event. cbn [ib_body_started].
      destruct (ib_body_started i) eqn:Es; intros [= <- <- <-]; (split; [done|]); (split; [done|]); left; cbn; rewrite ?Es, ?app_nil_r, <-?app_assoc;
        (split_and!; [by constructor|done|by intros [|[]]|done]).
    + intros [= <- <- <-]. split; [done|]. split; [done|]. left. cbn. split_and!; [by constructor|done|by intros [|[]]|done].
    + unfold incoming_finish_successfully, ensure_body_started, start_event. cbn [ib_finished]. rewrite Hf. cbn [ib_body_started set_finished].
      destruct (ib_body_started i) eqn:Es; cbn; intros [= <- <- <-]; cbn; rewrite ?Hr, ?Hs, <-?app_assoc; (split; [done|]); (split; [done|]); right;
        (split_and!; [done|by left|done|done]).
    + intros [= <- <- <-]. split; [done|]. split; [done|]. left. cbn. split_and!; [by constructor|done|by intros [|[]]|done].
  - apply orb_false_iff in Eg as [Eg Ex]. apply negb_false_iff in Eg, Ex. destruct (Hd Eg) as [dl Hdl]. rewrite Hdl in Ed.
    match type of Ed with context [incoming_finish_with_error ?e _ _] => pose proof (failed_finishes l e i c Hr Hs Hf) as Hfail end.
    destruct (incoming_finish_with_error _ i c) as [i2 c2]. injection Ed as <- <- <-. intros [= <- <- <-].
    destruct Hfail as (? & ? & ? & ?). split; [done|]. split; [intros e [= <-]; right; by eauto|]. right. cbn. split_and!; try done.
    right. by eexists.
Qed.

Lemma verdict_ends read p ps upper : ends p → verdict read (p :: ps) upper = verdict read [p] false.
Proof. by intros [->|[e ->]]. Qed.

Lemma run_running l ms i c :
  running l i c →
  let '(ps, i', c') := incoming_run ms i c in
  let '(f, last) := verdict (ib_bytes_read i) ps (cx_force_discard c || upper_failed ms) in
  ib_settled i' = [(f, l)] ∧ cx_events c' = cx_events c ++ start_event i ++ [last] ∧
  (∀ e, Ready (Some (inl e)) ∈ ps → ∃ expired, Poll expired ∈ ms ∧ poll_error_ok (ib_deadline_signal i) c expired e).
Proof.
  revert i c. induction ms as [|[expired|] ms IH]; intros i c Hrun; cbn [incoming_run upper_failed existsb].
  - destruct Hrun as [Hr Hs Hf _]. unfold finish_abandoned, ensure_body_started, start_event. rewrite Hf, orb_false_r. cbn [ib_body_started set_finished verdict].
    destruct (ib_body_started i) eqn:Es, (cx_force_discard c) eqn:Ec; cbn; rewrite ?Ec; cbn; rewrite ?Hr, ?Hs, <-?app_assoc;
      (split_and!; [done|done|by intros e ?%elem_of_nil]).
  - destruct (incoming_poll_frame expired i c) as [[p i1] c1] eqn:Ep.
    apply (poll_running l) in Ep as ((Hfd & Hdl & Hca & Hsig) & Herr & Hp); [|done]. cbn [orb].
    destruct Hp as [(Hrun' & Hev & Hpn & Hv)|(Hf & Hends & Hset)].
    + specialize (IH i1 c1 Hrun'). destruct (incoming_run ms i1 c1) as [[ps i2] c2]. rewrite Hv, <-Hfd. cbn in IH |- *. fold (upper_failed ms).
      destruct (verdict _ ps _) as [f last]. destruct IH as (? & Hev2 & Herr2). split_and!; [done|by rewrite Hev2, app_assoc, Hev, app_assoc|].
      intros e [He|He]%elem_of_cons; [destruct Hpn; right; by eexists|]. destruct (Herr2 e He) as (x & ? & Hok). exists x. split; [by right|].
      unfold poll_error_ok in *. by rewrite Hdl, Hca, Hsig in Hok.
    + pose proof (run_finished ms i1 c1 Hf) as Hrest. destruct (incoming_run ms i1 c1) as [[ps i2] c2]. destruct Hrest as (Hall & -> & ->).
      rewrite verdict_ends by done. destruct (verdict _ [p] false) as [f last]. destruct Hset as [? ?]. split_and!; try done.
      intros e [He|He]%elem_of_cons; [exists expired; split; [by left|by apply Herr]|].
      rewrite Forall_forall in Hall. by specialize (Hall _ He).
  - assert (Hrun' : running l i (mark_body_force_discard c)) by (destruct Hrun; by constructor).
    specialize (IH i _ Hrun'). destruct (incoming_run ms i _) as [[ps i2] c2]. cbn [orb]. rewrite orb_true_r. cbn [cx_force_discard mark_body_force_discard orb] in IH.
    destruct (verdict _ ps true) as [f last]. destruct IH as (? & ? & Herr). split_and!; try done.
    intros e He. destruct (Herr e He) as (x & ? & ?). exists x. split; [by right|done].
Qed.

(** C17.  A response body settles its connection exactly once and tells the listener the truth: however it is
    polled, whatever fails above it and whenever it is dropped, the listener hears one start and then one end or failure, and
    the lease meets one fate, decided by the first poll that ends the body - released at the end of the body, with
    the number of bytes read reported; discarded at an error, with that error reported - and by the drop when
    no poll ended it: discarded, with the error for a failed layer above, if one failed, and abandoned with the
    number of bytes read otherwise.  The errors polls return are hyper's, marked as of the response body, and the deadline's, after
    its signal expired. *)
Theorem response_settles_once ms (b : B) (l : L) signal c :
  (signal = true → is_Some (cx_deadline c)) →
  let '(ps, i, c') := incoming_run ms (incoming_wrap b (Some l) signal) c in
  let '(f, last) := verdict 0 ps (cx_force_discard c || upper_failed ms) in
  ib_settled i = [(f, l)] ∧ cx_events c' = cx_events c ++ [Ev_ResponseBodyStart; last] ∧
  (∀ e, Ready (Some (inl e)) ∈ ps → ∃ expired, Poll expired ∈ ms ∧ poll_error_ok signal c expired e).
Proof.
  intros Hd. pose proof (run_running l ms (incoming_wrap b (Some l) signal) c) as Hrun. cbn [incoming_wrap ib_bytes_read ib_deadline_signal] in Hrun.
  destruct (incoming_run ms _ c) as [[ps i] c']. destruct (verdict 0 ps _) as [f last]. apply Hrun. by constructor.
Qed.
End Incoming.

Module BodyDemo.
(** A body that is a script of polls. *)
#[global] Instance script_body E : HttpBody E (list (poll (option (E + Frame)))) := {|
  body_poll_frame b := match b with [] => (Pending, []) | p :: b => (p, b) end;
  body_is_end_stream b := bool_decide (b = []);
|}.
Definition script : list (poll (option (WireError + Frame))) := [Ready (Some (inr (Frame_Data [1; 2]))); Pending; Ready None].
Definition ctx : CallContext := mkCtx [] false false false 0 (Some 10).

Example body_released :
  (incoming_run id (λ _, ""%string) [Poll false; Poll false; Poll false] (incoming_wrap script (Some 7) true) ctx).1.2.(ib_settled)
  = [(Released, 7)].
Proof. reflexivity. Qed.
Example body_timed_out :
  (incoming_run id (λ _, ""%string) [Poll false; Poll true] (incoming_wrap script (Some 7) true) ctx).1.2.(ib_settled) = [(Discarded, 7)].
Proof. reflexivity. Qed.
Example body_dropped_at_end :
  (outgoing_run 1 (outgoing_wrap (take 1 script)) ctx).2.(cx_events) = [Ev_RequestBodyStart; Ev_RequestBodyEnd 2].
Proof. reflexivity. Qed.
End BodyDemo.

(** The body ends, a layer above fails after that, and the lease stays released; had the body been dropped
    before its end, it would be discarded. *)
Lemma response_settles_once_witness :
  (let '(ps, i, c') := incoming_run id (λ _, ""%string) [Poll false; Poll false; Poll false; UpperFailure] (incoming_wrap BodyDemo.script (Some 7) true) BodyDemo.ctx in
   ib_settled i = [(Released, 7)] ∧ cx_events c' = [Ev_ResponseBodyStart; Ev_ResponseBodyEnd 2]) ∧
  (let '(ps, i, c') := incoming_run id (λ _, ""%string) [Poll false; UpperFailure] (incoming_wrap BodyDemo.script (Some 7) true) BodyDemo.ctx in
   ib_settled i = [(Discarded, 7)] ∧ cx_events c' = [Ev_ResponseBodyStart; Ev_ResponseBodyFailed force_discard_error]).
Proof.
  split.
  - destruct (response_settles_once id (λ _, ""%string) [Poll false; Poll false; Poll false; UpperFailure] BodyDemo.script 7 true BodyDemo.ctx) as (H1 & H2 & _); [by eexists|].
    by split.
  - destruct (response_settles_once id (λ _, ""%string) [Poll false; UpperFailure] BodyDemo.script 7 true BodyDemo.ctx) as (H1 & H2 & _); [by eexists|].
    by split.
Defined.
