(* ===== verification/Bodies.v ===== *)
(** * Bodies of requests and responses

    openwire-core/src/body.rs: the body of a request with its cursor - how it is polled, what it says of its end and its
    length, and how a retry gets it afresh - and the body of a response with its readers [bytes], [text] and [json].

    A boxed body of http_body_util is a type of the class [SizedBody].  [Http.RequestBody] is the kind of a body, which is
    all that the follow-up loop and the bridge look at; here it is shown to be what is left when the cursor is
    forgotten.  serde_json is a parameter. *)

From S2P Require Import Prelude Net Error Http WsSession ObservedBody.

(** [http_body::SizeHint]. *)
Record SizeHint : Type := mkSizeHint { sh_lower : Z; sh_upper : option Z }.
Definition with_exact (n : Z) : SizeHint := mkSizeHint n (Some n).

(** A body with its hint. *)
Class SizedBody (B : Type) : Type := {
  sized_body :: HttpBody WireError B;
  body_size_hint : B → SizeHint;
}.

#[global] Hint Mode SizedBody ! : typeclass_instances.

Section RequestBody.
#[local] Set Default Proof Using "Type".
Context {S : Type} `{SizedBody S}.

(** [RequestBodyInner], openwire-core/body.rs:205-217. *)
Inductive RequestBodyInner : Type :=
| Inner_Empty
| Inner_Replayable (bs : bytes) (emitted : bool)
| Inner_Streaming (inner : S).

(** [RequestBodyPresence], openwire-core/body.rs:220-224. *)
Inductive RequestBodyPresence : Type := Presence_Absent | Presence_Present.

(** [RequestBody], openwire-core/body.rs:18-24. *)
Record ReqBody : Type := mkReqBody {
  rb_inner : RequestBodyInner;
  rb_replayable_len : option Z;
  rb_presence : RequestBodyPresence;
}.

(** [absent], openwire-core/body.rs:28-34, which is also [empty] and the default. *)
Definition absent : ReqBody := mkReqBody Inner_Empty (Some 0) Presence_Absent.
(** [explicit_empty], openwire-core/body.rs:36-42. *)
Definition explicit_empty : ReqBody := mkReqBody Inner_Empty (Some 0) Presence_Present.
(** [from_bytes], openwire-core/body.rs:48-57, behind [from_static] and the conversions. *)
Definition body_from_bytes (bs : bytes) : ReqBody := mkReqBody (Inner_Replayable bs false) (Some (len bs)) Presence_Present.
(** [from_json], openwire-core/body.rs:63-72; [serialized] is the answer of serde_json. *)
Definition from_json (serialized : string + bytes) : outcome WireError ReqBody :=
  match serialized with
  | inr bs => Ok (body_from_bytes bs)
  | inl e => Err (body "failed to serialize request body as JSON" e)
  end.
(** [from_body], openwire-core/body.rs:111-122. *)
Definition from_body (b : S) : ReqBody := mkReqBody (Inner_Streaming b) None Presence_Present.

(** [try_clone], openwire-core/body.rs:89-98. *)
Definition body_try_clone (b : ReqBody) : option ReqBody :=
  match rb_inner b with
  | Inner_Empty => Some (match rb_presence b with Presence_Absent => absent | Presence_Present => explicit_empty end)
  | Inner_Replayable bs _ => Some (body_from_bytes bs)
  | Inner_Streaming _ => None
  end.

(** [is_absent], openwire-core/body.rs:104-106. *)
Definition body_is_absent (b : ReqBody) : bool := match rb_presence b with Presence_Absent => true | Presence_Present => false end.

(** [Body::poll_frame for RequestBody], openwire-core/body.rs:135-154. *)
Definition request_poll_frame (b : ReqBody) : poll (option (WireError + Frame)) * ReqBody :=
  let with_ inner := mkReqBody inner (rb_replayable_len b) (rb_presence b) in
  match rb_inner b with
  | Inner_Empty => (Ready None, b)
  | Inner_Replayable bs emitted =>
    if emitted then (Ready None, b)
    else if bool_decide (bs = []) then (Ready None, with_ (Inner_Replayable bs true))
    else (Ready (Some (inr (Frame_Data bs))), with_ (Inner_Replayable bs true))
  | Inner_Streaming inner => let '(p, inner) := body_poll_frame inner in (p, with_ (Inner_Streaming inner))
  end.

(** [Body::is_end_stream for RequestBody], openwire-core/body.rs:156-162. *)
Definition request_is_end_stream (b : ReqBody) : bool :=
  match rb_inner b with
  | Inner_Empty => true
  | Inner_Replayable bs emitted => emitted || bool_decide (bs = [])
  | Inner_Streaming inner => body_is_end_stream inner
  end.

(** [Body::size_hint for RequestBody], openwire-core/body.rs:164-170. *)
Definition request_size_hint (b : ReqBody) : SizeHint :=
  match rb_inner b with
  | Inner_Empty => with_exact 0
  | Inner_Replayable bs _ => with_exact (len bs)
  | Inner_Streaming inner => body_size_hint inner
  end.

#[global] Instance request_body : SizedBody ReqBody := {
  sized_body := {| body_poll_frame := request_poll_frame; body_is_end_stream := request_is_end_stream |};
  body_size_hint := request_size_hint;
}.

(** A body after [n] polls. *)
Definition polled (n : nat) (b : ReqBody) : ReqBody := Nat.iter n (λ b, (request_poll_frame b).2) b.

(** ** The kind of a body *)

Definition kind_of (b : ReqBody) : Http.RequestBody :=
  match rb_inner b, rb_presence b with
  | Inner_Empty, Presence_Absent => Body_Absent
  | Inner_Empty, Presence_Present => Body_ExplicitEmpty
  | Inner_Replayable bs _, _ => Body_Bytes bs
  | Inner_Streaming _, _ => Body_Streaming
  end.

(** The fields agree, as in every body the constructors make. *)
Definition body_wf (b : ReqBody) : Prop :=
  rb_replayable_len b = Http.replayable_len (kind_of b) ∧ (body_is_absent b = true → rb_inner b = Inner_Empty).

Lemma made_wf bs (s : S) : body_wf absent ∧ body_wf explicit_empty ∧ body_wf (body_from_bytes bs) ∧ body_wf (from_body s).
Proof. by repeat split. Qed.

Lemma poll_kind b : kind_of (request_poll_frame b).2 = kind_of b.
Proof.
  unfold request_poll_frame, kind_of. destruct b as [[|bs em|s] l p]; cbn; [done| |].
  - destruct em; [done|]. by case_bool_decide.
  - by destruct (body_poll_frame s).
Qed.

Lemma poll_wf b : body_wf b → body_wf (request_poll_frame b).2.
Proof.
  intros [Hl Hp]. split; rewrite ?poll_kind.
  - rewrite <- Hl. unfold request_poll_frame. destruct b as [[|bs em|s] l p]; cbn; [done| |].
    + destruct em; [done|]. by case_bool_decide.
    + by destruct (body_poll_frame s).
  - revert Hp. unfold request_poll_frame, body_is_absent. destruct b as [[|bs em|s] l p]; cbn; [done| |].
    + destruct em; [done|]. case_bool_decide; cbn; intros Hp Ha; by specialize (Hp Ha).
    + destruct (body_poll_frame s); cbn. intros Hp Ha; by specialize (Hp Ha).
Qed.

Lemma polled_wf n b : body_wf b → body_wf (polled n b) ∧ kind_of (polled n b) = kind_of b.
Proof.
  intros Hb. induction n as [|n [IH1 IH2]]; [done|]. unfold polled in *. simpl.
  split; [by apply poll_wf|]. by rewrite poll_kind.
Qed.

(** A fresh copy, by the kind alone. *)
Definition fresh (k : Http.RequestBody) : option ReqBody :=
  match k with
  | Body_Absent => Some absent
  | Body_ExplicitEmpty => Some explicit_empty
  | Body_Bytes bs => Some (body_from_bytes bs)
  | Body_Streaming => None
  end.

Lemma try_clone_fresh b : body_try_clone b = fresh (kind_of b).
Proof. unfold body_try_clone, kind_of. by destruct b as [[|bs em|s] l []]. Qed.

Lemma fresh_kind k b : fresh k = Some b → kind_of b = k ∧ body_wf b.
Proof. destruct k; intros [= <-]; done. Qed.
End RequestBody.
Arguments ReqBody : clear implicits.

(** ** Reading a body to its end *)

Section Collect.
#[local] Set Default Proof Using "Type".
Context {B : Type} `{SizedBody B}.

(** [BodyExt::collect] as its future is polled: data is kept in order, trailers are not data, the first error ends it; the
    fuel bounds the polls. *)
Fixpoint collect (fuel : nat) (b : B) (acc : bytes) : option (outcome WireError bytes) :=
  match fuel with
  | O => None
  | S fuel =>
    let '(p, b) := body_poll_frame b in
    match p with
    | Pending => collect fuel b acc
    | Ready None => Some (Ok acc)
    | Ready (Some (inl e)) => Some (Err e)
    | Ready (Some (inr (Frame_Data d))) => collect fuel b (acc ++ d)
    | Ready (Some (inr Frame_Trailers)) => collect fuel b acc
    end
  end.

(** What a body holds: its data up to the end, or the error it meets first. *)
Inductive holds : B → outcome WireError bytes → Prop :=
| holds_end b b' : body_poll_frame b = (Ready None, b') → holds b (Ok [])
| holds_error b b' e : body_poll_frame b = (Ready (Some (inl e)), b') → holds b (Err e)
| holds_data b b' d r : body_poll_frame b = (Ready (Some (inr (Frame_Data d))), b') → holds b' r →
    holds b (let? rest := r in Ok (d ++ rest))
| holds_trailers b b' r : body_poll_frame b = (Ready (Some (inr Frame_Trailers)), b') → holds b' r → holds b r
| holds_pending b b' r : body_poll_frame b = (Pending, b') → holds b' r → holds b r.
#[local] Hint Constructors holds : core.

Lemma collect_holds_from fuel b acc r :
  collect fuel b acc = Some r → ∃ r', holds b r' ∧ r = (let? rest := r' in Ok (acc ++ rest)).
Proof.
  revert b acc r. induction fuel as [|fuel IH]; intros b acc r Hc; [done|]. cbn in Hc.
  destruct (body_poll_frame b) as [p b'] eqn:Hp. destruct p as [[[e|[d|]]|]|].
  - injection Hc as <-. eauto.
  - apply IH in Hc as (r' & Hh & ->). exists (let? rest := r' in Ok (d ++ rest)). split; [eauto|].
    destruct r'; cbn; by rewrite <- ?app_assoc.
  - apply IH in Hc as (r' & Hh & ->). eauto.
  - injection Hc as <-. exists (Ok []). split; [eauto|]. cbn. by rewrite app_nil_r.
  - apply IH in Hc as (r' & Hh & ->). eauto.
Qed.

Lemma holds_collect_from b r :
  holds b r → ∃ n, ∀ fuel acc, (n ≤ fuel)%nat → collect fuel b acc = Some (let? rest := r in Ok (acc ++ rest)).
Proof.
  induction 1 as [b b' Hp|b b' e Hp|b b' d r Hp Hh [n IH]|b b' r Hp Hh [n IH]|b b' r Hp Hh [n IH]].
  1,2: exists 1%nat; intros [|fuel] acc Hf; [lia|]; cbn; rewrite Hp; by rewrite ?app_nil_r.
  all: exists (S n); intros [|fuel] acc Hf; [lia|]; cbn; rewrite Hp, IH by lia; [..].
  all: destruct r; cbn; by rewrite <- ?app_assoc.
Qed.

(** [ResponseBody::bytes], openwire-core/body.rs:255-258. *)
Definition response_bytes (fuel : nat) (b : B) : option (outcome WireError bytes) := collect fuel b [].

(** [ResponseBody::text], openwire-core/body.rs:260-266; [utf8_error] is the text of the error. *)
Definition response_text (utf8_error : bytes → string) (fuel : nat) (b : B) : option (outcome WireError bytes) :=
  r ← response_bytes fuel b;
  Some (let? bs := r in if utf8_valid bs then Ok bs else Err (body "response body is not valid UTF-8" (utf8_error bs))).

(** [ResponseBody::json], openwire-core/body.rs:268-276. *)
Definition response_json {T} (from_slice : bytes → string + T) (fuel : nat) (b : B) : option (outcome WireError T) :=
  r ← response_bytes fuel b;
  Some (let? bs := r in match from_slice bs with inr t => Ok t | inl e => Err (body "response body is not valid JSON" e) end).

(** [bytes] reads exactly what the body holds: with enough polls it gives all the data or the first error, and it never gives
    anything else. *)
Lemma response_bytes_iff b r : (∃ n, ∀ fuel, (n ≤ fuel)%nat → response_bytes fuel b = Some r) ↔ holds b r.
Proof.
  unfold response_bytes. split.
  - intros [n Hn]. specialize (Hn n (le_n n)). apply collect_holds_from in Hn as (r' & Hh & ->). by destruct r'.
  - intros Hh. apply holds_collect_from in Hh as [n Hn]. exists n. intros fuel Hf. rewrite Hn by done. by destruct r.
Qed.

Lemma holds_det b r r' : holds b r → holds b r' → r = r'.
Proof.
  intros [n Hn]%holds_collect_from [n' Hn']%holds_collect_from.
  specialize (Hn (n + n')%nat []). specialize (Hn' (n + n')%nat []).
  rewrite Hn in Hn' by lia. specialize (Hn' ltac:(lia)). destruct r, r'; cbn in Hn'; congruence.
Qed.
End Collect.

(** ** Replaying a request body *)

(** The data of a body, by its kind. *)
Definition content (k : Http.RequestBody) : bytes := match k with Body_Bytes bs => bs | _ => [] end.

Section Replay.
#[local] Set Default Proof Using "Type".
Context {S : Type} `{SizedBody S}.
Implicit Types b : ReqBody S.

Lemma fresh_holds k b : fresh k = Some b →
  holds b (Ok (content k)) ∧ Http.replayable_len k = Some (len (content k)) ∧
  request_size_hint b = with_exact (len (content k)) ∧ (request_is_end_stream b = true ↔ content k = []).
Proof.
  destruct k as [| |bs|]; intros [= <-]; cbn; [split_and!; try done; by eapply holds_end..|].
  split_and!; [|done..|by rewrite bool_decide_eq_true].
  destruct (decide (bs = [])) as [->|Hbs]; [by eapply holds_end|].
  assert (Hd : holds (mkReqBody (S:=S) (Inner_Replayable bs true) (Some (len bs)) Presence_Present) (Ok [])) by by eapply holds_end.
  assert (Hp : body_poll_frame (body_from_bytes bs) =
    (Ready (Some (inr (Frame_Data bs))), mkReqBody (S:=S) (Inner_Replayable bs true) (Some (len bs)) Presence_Present)).
  { cbn. unfold request_poll_frame. cbn. by rewrite bool_decide_eq_false_2. }
  pose proof (holds_data _ _ _ _ Hp Hd) as Hh. cbn in Hh. by rewrite app_nil_r in Hh.
Qed.

(** C37.  A retry sends the body again, whole.  However far a body has been polled, its kind - absent, empty, bytes or a
    stream, which is all that the bridge, the follow-up loop and the redirects look at - with the length and the presence
    read from it is what it was at the start; a copy exists exactly when the kind allows one, and it is at its
    beginning: reading it gives all the bytes, as many as its length and its size hint announce, and it is at its end
    from the start only if there are none. *)
Theorem replayed_body_faithful b n :
  body_wf b →
  let k := kind_of b in
  kind_of (polled n b) = k ∧ rb_replayable_len (polled n b) = Http.replayable_len k ∧
  body_is_absent (polled n b) = Http.is_absent k ∧
  match body_try_clone (polled n b) with
  | Some b' =>
    Http.try_clone k = Some (kind_of b') ∧ body_wf b' ∧ holds b' (Ok (content k)) ∧
    Http.replayable_len k = Some (len (content k)) ∧ request_size_hint b' = with_exact (len (content k)) ∧
    (request_is_end_stream b' = true ↔ content k = [])
  | None => Http.try_clone k = None
  end.
Proof.
  intros Hb k. destruct (polled_wf n b Hb) as [Hwf Hk]. rewrite try_clone_fresh, Hk. fold k. fold k in Hk.
  destruct Hwf as [Hl Hp]. rewrite Hk in Hl. split_and!; [done..| |].
  - rewrite <- Hk. unfold kind_of, body_is_absent in *. destruct (polled n b) as [[|bs em|s] l []]; try done; by specialize (Hp eq_refl).
  - destruct (fresh k) as [b'|] eqn:Hf; [|by destruct k].
    destruct (fresh_kind _ _ Hf) as [-> Hw]. split; [by destruct k|]. split; [done|]. by apply fresh_holds.
Qed.

(** A body whose bytes were taken, as far as a connection and the wrapper see it. *)
Definition taken bs : ReqBody S := mkReqBody (Inner_Replayable bs true) (Some (len bs)) Presence_Present.

Lemma outgoing_run_taken n bs sent (c : CallContext) :
  let '(_, _, c') := outgoing_run n (mkOutgoing (taken bs) sent true false) c in
  cx_events c' = cx_events c ++ [Ev_RequestBodyEnd sent] ∧ cx_write_complete c' = true.
Proof.
  destruct n as [|n]; [done|]. cbn. unfold outgoing_finish_successfully. cbn.
  match goal with |- context [outgoing_run n ?o ?c1] => pose proof (outgoing_finished n o c1 eq_refl eq_refl) as Hfin; destruct (outgoing_run n o c1) as [[ps o2] c2] end.
  by rewrite Hfin.
Qed.

(** Bytes handed to a connection through the observing wrapper: as soon as they were taken once the body is reported as
    sent, with its length, also when the connection does not come back for the end. *)
Lemma bytes_reported n bs (c : CallContext) :
  bs ≠ [] → len bs ≤ U64_MAX →
  let '(_, _, c') := outgoing_run (Datatypes.S n) (outgoing_wrap (body_from_bytes (S:=S) bs)) c in
  cx_events c' = cx_events c ++ [Ev_RequestBodyStart; Ev_RequestBodyEnd (len bs)] ∧ cx_write_complete c' = true.
Proof.
  intros Hbs Hlen.
  assert (Hp : outgoing_poll_frame (outgoing_wrap (body_from_bytes (S:=S) bs)) c =
    (Ready (Some (inr (Frame_Data bs))), mkOutgoing (taken bs) (len bs) true false, tell Ev_RequestBodyStart c)).
  { unfold outgoing_poll_frame. cbn. unfold request_poll_frame. cbn. rewrite bool_decide_eq_false_2 by done.
    unfold u64_wrapping_add. by rewrite Z.mod_small by (unfold len in *; lia). }
  cbn [outgoing_run]. rewrite Hp. pose proof (outgoing_run_taken n bs (len bs) (tell Ev_RequestBodyStart c)) as Hr.
  destruct (outgoing_run n _ _) as [[ps o] c']. destruct Hr as [He Hw]. split; [|done]. rewrite He. cbn. by rewrite <- app_assoc.
Qed.

(** The hint stays at the whole length when the bytes were taken and nothing is left. *)
Lemma size_hint_after_end bs :
  let b := polled 1 (body_from_bytes (S:=S) bs) in
  holds b (Ok []) ∧ request_is_end_stream b = true ∧ request_size_hint b = with_exact (len bs).
Proof.
  unfold polled. cbn. unfold request_poll_frame. cbn. case_bool_decide; cbn; (split; [by eapply holds_end|done]).
Qed.
End Replay.

(** ** Bodies from streams *)

(** [Stream] of [Result<Bytes, E>]. *)
Class ByteStream (E T : Type) : Type := { poll_next_bytes : T → poll (option (E + bytes)) * T }.

Section FromStream.
#[local] Set Default Proof Using "Type".
Context {E T : Type} `{ByteStream E T} (into : E → WireError).

(** The stream that [from_stream] makes, openwire-core/body.rs:79-82: data frames, and errors as [WireError]s; a [StreamBody] keeps the
    default end and hint. *)
Record StreamBody : Type := mkStreamBody { stream : T }.
Definition stream_poll_frame (b : StreamBody) : poll (option (WireError + Frame)) * StreamBody :=
  let '(p, t) := poll_next_bytes (stream b) in
  (match p with
   | Pending => Pending
   | Ready None => Ready None
   | Ready (Some (inl e)) => Ready (Some (inl (into e)))
   | Ready (Some (inr d)) => Ready (Some (inr (Frame_Data d)))
   end, mkStreamBody t).
Definition stream_body : SizedBody StreamBody := {|
  sized_body := {| body_poll_frame := stream_poll_frame; body_is_end_stream := λ _, false |};
  body_size_hint := λ _, mkSizeHint 0 None;
|}.

(** [from_stream], openwire-core/body.rs:74-87. *)
Definition from_stream (t : T) : ReqBody StreamBody := from_body (mkStreamBody t).

(** What a stream holds. *)
Inductive stream_holds : T → outcome E bytes → Prop :=
| stream_end t t' : poll_next_bytes t = (Ready None, t') → stream_holds t (Ok [])
| stream_error t t' e : poll_next_bytes t = (Ready (Some (inl e)), t') → stream_holds t (Err e)
| stream_data t t' d r : poll_next_bytes t = (Ready (Some (inr d)), t') → stream_holds t' r →
    stream_holds t (let? rest := r in Ok (d ++ rest))
| stream_pending t t' r : poll_next_bytes t = (Pending, t') → stream_holds t' r → stream_holds t r.

(** A body made from a stream carries the stream's data in order, with its error converted, and is never replayed. *)
Lemma from_stream_holds t r :
  stream_holds t r →
  holds (H := request_body (H := stream_body)) (from_stream t)
    (match r with Ok bs => Ok bs | Err e => Err (into e) | Panic => Panic end) ∧
  body_try_clone (from_stream t) = None ∧ rb_replayable_len (from_stream t) = None.
Proof.
  intros Hs. split; [|done].
  assert (Hstep : ∀ t p t', poll_next_bytes t = (p, t') →
    body_poll_frame (HttpBody := @sized_body _ (request_body (H := stream_body))) (from_stream t) =
    ((stream_poll_frame (mkStreamBody t)).1, from_stream t')).
  { intros u p u' Hu. cbn. unfold request_poll_frame, from_stream, from_body. cbn. unfold stream_poll_frame. cbn. by rewrite Hu. }
  induction Hs as [t t' Hp|t t' e Hp|t t' d r Hp Hs IH|t t' r Hp Hs IH]; specialize (Hstep t _ _ Hp);
    unfold stream_poll_frame in Hstep; cbn in Hstep; rewrite Hp in Hstep; cbn in Hstep.
  - by eapply holds_end.
  - by eapply holds_error.
  - pose proof (holds_data (H := request_body (H := stream_body)) (from_stream t) (from_stream t') d _ Hstep IH) as Hh. by destruct r.
  - by eapply holds_pending.
Qed.
End FromStream.

(** ** Examples *)

Module BodiesDemo.
(** A body that is what its polls will return. *)
#[global] Instance scripted : SizedBody (list (poll (option (WireError + Frame)))) := {
  sized_body := {| body_poll_frame ps := match ps with [] => (Ready None, []) | p :: ps => (p, ps) end;
                   body_is_end_stream ps := bool_decide (length ps = 0%nat) |};
  body_size_hint _ := mkSizeHint 0 None;
}.
Definition some_bytes : ReqBody (list (poll (option (WireError + Frame)))) := body_from_bytes [104; 105].
End BodiesDemo.

(** After two polls nothing is left of the bytes, and a copy still has them all. *)
Lemma replayed_body_faithful_witness :
  holds (polled 2 BodiesDemo.some_bytes) (Ok []) ∧ body_try_clone (polled 2 BodiesDemo.some_bytes) = Some BodiesDemo.some_bytes ∧
  holds BodiesDemo.some_bytes (Ok [104; 105]).
Proof.
  destruct (replayed_body_faithful BodiesDemo.some_bytes 2) as (_ & _ & _ & Hr); [by repeat split|].
  split; [by eapply holds_end|]. split; [reflexivity|]. by destruct Hr as (_ & _ & Hh & _).
Defined.

(** A response of two chunks, with a wait in between and trailers, read as text; and one that is not UTF-8. *)
Example text_read :
  response_text (λ _, "invalid"%string) 6 [Ready (Some (inr (Frame_Data [104]))); Pending; Ready (Some (inr (Frame_Data [105]))); Ready (Some (inr Frame_Trailers))]
    = Some (Ok [104; 105]) ∧
  response_text (λ _, "invalid"%string) 6 [Ready (Some (inr (Frame_Data [255])))] = Some (Err (body "response body is not valid UTF-8" "invalid")).
Proof. done. Qed.
