(* ===== verification/Sending.v ===== *)
(** * Sending a request on a connection

    The observation of one send, openwire/src/transport/service.rs (from [instrument_outgoing_body] to the mapped error),
    transport/body.rs, transport/protocol.rs and the conversions of openwire-core/src/error.rs: which events the listener is
    told while hyper takes the request, polls its body and answers, and what becomes of an error.

    The sender waits for hyper's answer while the connection's task polls and drops the body, so the two are interleaved
    in any order.  The answer is taken in one step: between the two flags it reads and the report it makes the sender does not
    wait, and the body is taken not to be polled in that moment.  An error of hyper is known by its flags, its text and what its sources downcast to. *)

From S2P Require Import Prelude Net Error Http ObservedBody Bodies Policy.

(** ** Errors of hyper *)

(** [hyper::Error]: [is_canceled], [is_timeout], its text, and for each error of its source chain the [WireError] it is. *)
Record HyperError : Type := mkHyperError {
  he_canceled : bool;
  he_timeout : bool;
  he_text : string;
  he_sources : list (option WireError);
}.

(** [TrySendError]: whether the request is handed back, and the error. *)
Record TrySendError : Type := mkTrySendError { ts_returned : bool; ts_error : HyperError }.

(** [From<http::Error> for WireError], openwire-core/error.rs:419-427. *)
Definition from_http_error (text : string) : WireError := with_source Kind_InvalidRequest "failed to build HTTP request" text.
(** [From<InvalidUri> for WireError], openwire-core/error.rs:429-433. *)
Definition from_invalid_uri (text : string) : WireError := with_source Kind_InvalidRequest "invalid URI" text.
(** [From<hyper::Error> for WireError], openwire-core/error.rs:435-447. *)
Definition from_hyper (e : HyperError) : WireError :=
  if he_canceled e then with_source Kind_Canceled "request canceled" (he_text e)
  else if he_timeout e then with_source Kind_Timeout "request timed out" (he_text e)
  else with_source Kind_Protocol "HTTP protocol error" (he_text e).

(** [find_wire_error], openwire/transport/protocol.rs:380-389; the hyper error itself is none. *)
Definition find_wire_error (e : HyperError) : option WireError := head (omap id (he_sources e)).
(** [map_hyper_error], openwire/transport/protocol.rs:372-378. *)
Definition map_hyper_error (e : HyperError) : WireError :=
  match find_wire_error e with Some w => w | None => from_hyper e end.

(** [map_try_send_error], openwire/transport/service.rs:989-997. *)
Definition map_try_send_error (e : TrySendError) : WireError :=
  let committed := negb (ts_returned e) in
  let error := map_hyper_error (ts_error e) in
  if committed then with_request_committed error else error.

(** [map_try_send_error_with_events], openwire/transport/service.rs:999-1010. *)
Definition map_try_send_error_with_events (c : CallContext) (e : TrySendError) : WireError * CallContext :=
  let mapped := map_try_send_error e in
  if cx_failed_emitted c then (mapped, c)
  else if cx_write_complete c then (mapped, tell (Ev_ResponseFailed mapped) c)
  else (mapped, tell (Ev_RequestFailed mapped) c).

(** [CallContext::reset_request_exchange_observation], openwire-core/context.rs:148-155. *)
Definition reset_request_exchange_observation (c : CallContext) : CallContext :=
  mkCtx (cx_events c) false false (cx_force_discard c) (cx_created_at c) (cx_deadline c).

(** ** One send *)

Section Send.
#[local] Set Default Proof Using "Type".
Context {S : Type} `{SizedBody S}.

(** The body of the request as it is handed to hyper. *)
Inductive OutBody : Type :=
| Out_Plain (b : ReqBody S)
| Out_Observed (o : ObservedOutgoingBody (ReqBody S))
| Out_Dropped.

(** [instrument_outgoing_body], openwire/transport/body.rs:233-246. *)
Definition instrument_outgoing_body (b : ReqBody S) (c : CallContext) : OutBody * CallContext :=
  if body_is_absent b then (Out_Plain b, mark_request_write_complete c)
  else if request_is_end_stream b then (Out_Plain b, c)
  else (Out_Observed (outgoing_wrap b), c).

(** [present_empty_outgoing_body], openwire/transport/body.rs:223-225; a wrapped body is present and ends with the body in it. *)
Definition present_empty_outgoing_body (b : OutBody) : bool :=
  match b with
  | Out_Plain b => negb (body_is_absent b) && request_is_end_stream b
  | Out_Observed o => request_is_end_stream (ob_inner o)
  | Out_Dropped => false
  end.

(** [emit_present_empty_body_events], openwire/transport/body.rs:227-231. *)
Definition emit_present_empty_body_events (c : CallContext) : CallContext :=
  mark_request_write_complete (tell (Ev_RequestBodyEnd 0) (tell Ev_RequestBodyStart c)).

(** Where [send_bound_request] is: before [try_send_request], between that and the end of [dispatch_try_send_request], waiting
    for the answer, and done. *)
Inductive Stage : Type := Ready_ | Handed | Waiting | Answered (e : option WireError).
Record Sending : Type := mkSending {
  sd_ctx : CallContext;
  sd_body : OutBody;
  sd_empty : bool;
  sd_stage : Stage;
}.

(** The start of [send_bound_request], openwire/transport/service.rs:872-873. *)
Definition send_start (b : ReqBody S) (c : CallContext) : Sending :=
  let '(o, c) := instrument_outgoing_body b (reset_request_exchange_observation c) in
  mkSending c o (present_empty_outgoing_body o) Ready_.

(** Polling and dropping the body, by the task of the connection. *)
Definition poll_body (s : Sending) : Sending :=
  match sd_body s with
  | Out_Plain b => mkSending (sd_ctx s) (Out_Plain (request_poll_frame b).2) (sd_empty s) (sd_stage s)
  | Out_Observed o => let '(_, o, c) := outgoing_poll_frame o (sd_ctx s) in mkSending c (Out_Observed o) (sd_empty s) (sd_stage s)
  | Out_Dropped => s
  end.
Definition drop_body (s : Sending) : Sending :=
  mkSending (match sd_body s with Out_Observed o => outgoing_drop o (sd_ctx s) | _ => sd_ctx s end) Out_Dropped (sd_empty s) (sd_stage s).

(** What happens next: the sender is refused by [ready], hands the request over, reports the headers, gets its answer; the
    connection's task polls the body or drops it. *)
Inductive SendMove : Type := Mv_NotReady (e : HyperError) | Mv_Hand | Mv_Headers | Mv_Answer (e : option TrySendError) | Mv_Poll | Mv_Drop.

(** [send_bound_request] with [dispatch_try_send_request], openwire/transport/service.rs:975-987. *)
Definition send_move (s : Sending) (m : SendMove) : option Sending :=
  match m, sd_stage s with
  | Mv_NotReady e, Ready_ => Some (mkSending (sd_ctx (drop_body s)) Out_Dropped (sd_empty s) (Answered (Some (map_hyper_error e))))
  | Mv_Hand, Ready_ => Some (mkSending (tell Ev_RequestHeadersStart (sd_ctx s)) (sd_body s) (sd_empty s) Handed)
  | Mv_Headers, Handed =>
    let c := tell Ev_RequestHeadersEnd (sd_ctx s) in
    Some (mkSending (if sd_empty s then emit_present_empty_body_events c else c) (sd_body s) (sd_empty s) Waiting)
  | Mv_Answer None, Waiting => Some (mkSending (sd_ctx s) (sd_body s) (sd_empty s) (Answered None))
  | Mv_Answer (Some e), Waiting =>
    let '(e, c) := map_try_send_error_with_events (sd_ctx s) e in Some (mkSending c (sd_body s) (sd_empty s) (Answered (Some e)))
  | Mv_Poll, (Handed | Waiting | Answered _) => Some (poll_body s)
  | Mv_Drop, (Handed | Waiting | Answered _) => Some (drop_body s)
  | _, _ => None
  end.
Fixpoint send_run (s : Sending) (ms : list SendMove) : option Sending :=
  match ms with [] => Some s | m :: ms => s ← send_move s m; send_run s ms end.

(** ** What is reported *)

Definition is_failed (e : BodyEvent) : bool := match e with Ev_RequestFailed _ | Ev_ResponseFailed _ => true | _ => false end.
Definition failures (es : list BodyEvent) : nat := length (List.filter is_failed es).
Definition is_body_end (e : BodyEvent) : bool := match e with Ev_RequestBodyEnd _ => true | _ => false end.
Definition ended (es : list BodyEvent) : bool := existsb is_body_end es.

Lemma failures_app es es' : failures (es ++ es') = (failures es + failures es')%nat.
Proof. unfold failures. by rewrite List.filter_app, length_app. Qed.
Lemma ended_app es es' : ended (es ++ es') = ended es || ended es'.
Proof. apply existsb_app. Qed.

(** What an operation on a wrapped body tells: nothing that matters, the end, or a failure. *)
Inductive tells (c c' : CallContext) (fin fin' : bool) (es : list BodyEvent) : Prop :=
| tells_nothing : fin' = fin → cx_write_complete c' = cx_write_complete c → cx_failed_emitted c' = cx_failed_emitted c →
    failures es = 0%nat → ended es = false → tells c c' fin fin' es
| tells_end : fin = false → fin' = true → cx_write_complete c' = true → cx_failed_emitted c' = cx_failed_emitted c →
    failures es = 0%nat → ended es = true → tells c c' fin fin' es
| tells_failure : fin = false → fin' = true → cx_write_complete c' = cx_write_complete c → cx_failed_emitted c' = true →
    failures es = 1%nat → ended es = false → tells c c' fin fin' es.
Hint Constructors tells : core.

Lemma outgoing_poll_tells (o : ObservedOutgoingBody (ReqBody S)) c p o' c' :
  outgoing_poll_frame o c = (p, o', c') →
  ∃ es, cx_events c' = cx_events c ++ es ∧ tells c c' (ob_finished o) (ob_finished o') es.
Proof.
  destruct o as [b sent st fin]. unfold outgoing_poll_frame, outgoing_ensure_started. cbn [ob_started ob_inner].
  destruct st; cbn; destruct (request_poll_frame b) as [q b']; destruct q as [[[e|f]|]|]; cbn;
    unfold outgoing_finish_with_error, outgoing_finish_successfully; cbn; try destruct fin; cbn; intros [= <- <- <-]; cbn;
    try rewrite <- app_assoc; eexists; (split; [first [reflexivity | symmetry; apply app_nil_r]|]); eauto.
Qed.

Lemma outgoing_drop_tells (o : ObservedOutgoingBody (ReqBody S)) c :
  ∃ es fin', cx_events (outgoing_drop o c) = cx_events c ++ es ∧ tells c (outgoing_drop o c) (ob_finished o) fin' es.
Proof.
  destruct o as [b sent st fin]. unfold outgoing_drop, outgoing_finish_successfully, outgoing_ensure_started. cbn.
  destruct fin; cbn; [exists [], true; rewrite app_nil_r; eauto|].
  destruct st; cbn; [destruct (request_is_end_stream b); cbn|]; rewrite <- ?app_assoc; cbn.
  - exists [Ev_RequestBodyEnd sent], true. eauto.
  - exists [], false. rewrite app_nil_r. eauto.
  - exists [], false. rewrite app_nil_r. eauto.
Qed.

(** The state of a send that has no answer yet. *)
Record pending (b : ReqBody S) (c : CallContext) (s : Sending) (es : list BodyEvent) : Prop := {
  pd_events : cx_events (sd_ctx s) = cx_events c ++ es;
  pd_failures : failures es = Nat.b2n (cx_failed_emitted (sd_ctx s));
  pd_written : cx_write_complete (sd_ctx s) = body_is_absent b || ended es;
  pd_not_both : cx_write_complete (sd_ctx s) && cx_failed_emitted (sd_ctx s) = false;
  pd_empty : sd_empty s = negb (body_is_absent b) && request_is_end_stream b;
  pd_body : match sd_body s with
            | Out_Observed o => body_is_absent b = false ∧ sd_empty s = false ∧
                ob_finished o = cx_write_complete (sd_ctx s) || cx_failed_emitted (sd_ctx s)
            | _ => True
            end;
  pd_silent : sd_empty s = true ∨ body_is_absent b = true → cx_failed_emitted (sd_ctx s) = false;
}.

Lemma send_start_pending b c : pending b c (send_start b c) [].
Proof.
  unfold send_start, instrument_outgoing_body.
  destruct (body_is_absent b) eqn:Ha; [|destruct (request_is_end_stream b) eqn:He]; split; cbn; rewrite ?Ha, ?He, ?app_nil_r; try done.
Qed.

(** An operation of the connection's task on the body. *)
Lemma body_op_pending b c s s' es o fin' es' :
  pending b c s es → sd_body s = Out_Observed o →
  cx_events (sd_ctx s') = cx_events (sd_ctx s) ++ es' → tells (sd_ctx s) (sd_ctx s') (ob_finished o) fin' es' →
  sd_empty s' = sd_empty s →
  match sd_body s' with Out_Observed o' => ob_finished o' = fin' | _ => True end →
  pending b c s' (es ++ es').
Proof.
  intros Hp Hb He Ht Hem Hb'. destruct Hp as [Hev Hf Hw Hn Hs Hbody Hsil]. rewrite Hb in Hbody. destruct Hbody as (Ha & He0 & Hfin).
  destruct Ht as [H1 Hw' Hf' Hfs Hen|H0 H1 Hw' Hf' Hfs Hen|H0 H1 Hw' Hf' Hfs Hen]; split; rewrite ?Hem, ?failures_app, ?ended_app;
    try (rewrite He, Hev; by rewrite app_assoc); try done; try (intros [?|?]; congruence).
  all: rewrite ?Hw', ?Hf', ?Hfs, ?Hen, ?Hf, ?Hw, ?Ha in *; try (destruct (sd_body s'); [done| |done]); rewrite ?Hfin in *.
  all: destruct (ended es), (cx_failed_emitted (sd_ctx s)); cbn in *; try done; try lia; try (split_and!; congruence).
Qed.

Lemma poll_pending b c s es : pending b c s es → ∃ es', pending b c (poll_body s) es'.
Proof.
  intros Hp. unfold poll_body. destruct (sd_body s) as [b'|o|] eqn:Hb.
  - exists es. destruct Hp as [Hev Hf Hw Hn Hs Hbody Hsil]. by split.
  - destruct (outgoing_poll_frame o (sd_ctx s)) as [[q o'] c'] eqn:Ho. destruct (outgoing_poll_tells _ _ _ _ _ Ho) as (es' & He & Ht).
    exists (es ++ es'). by eapply body_op_pending.
  - by exists es.
Qed.

Lemma drop_pending b c s es : pending b c s es → ∃ es', pending b c (drop_body s) es'.
Proof.
  intros Hp. unfold drop_body. destruct (sd_body s) as [b'|o|] eqn:Hb; [exists es; by destruct Hp| |exists es; by destruct Hp].
  destruct (outgoing_drop_tells o (sd_ctx s)) as (es' & fin' & He & Ht). exists (es ++ es'). by eapply body_op_pending.
Qed.

(** Reports of the sender that are neither an end nor a failure. *)
Lemma tell_pending b c s es e st :
  pending b c s es → is_failed e = false → is_body_end e = false →
  pending b c (mkSending (tell e (sd_ctx s)) (sd_body s) (sd_empty s) st) (es ++ [e]).
Proof.
  intros [Hev Hf Hw Hn Hs Hbody Hsil] H1 H2. split; cbn; try done.
  - by rewrite Hev, app_assoc.
  - rewrite failures_app, Hf. unfold failures. cbn. rewrite H1. cbn. lia.
  - rewrite ended_app. cbn. by rewrite H2, !orb_false_r.
Qed.

Lemma empty_pending b c s es st :
  pending b c s es → sd_empty s = true →
  pending b c (mkSending (emit_present_empty_body_events (sd_ctx s)) (sd_body s) (sd_empty s) st)
    (es ++ [Ev_RequestBodyStart; Ev_RequestBodyEnd 0]).
Proof.
  intros [Hev Hf Hw Hn Hs Hbody Hsil] Hem. assert (Hnf : cx_failed_emitted (sd_ctx s) = false) by auto.
  split; cbn; try done.
  - by rewrite Hev, <- !app_assoc.
  - rewrite failures_app, Hf. unfold failures. cbn. lia.
  - rewrite ended_app. cbn. by rewrite !orb_true_r.
  - destruct (sd_body s); [done| |done]. destruct Hbody as (_ & ? & _). congruence.
Qed.

Definition unanswered (s : Sending) : Prop := match sd_stage s with Answered _ => False | _ => True end.

Lemma send_move_pending b c s es m s' :
  pending b c s es → unanswered s → send_move s m = Some s' → unanswered s' → ∃ es', pending b c s' es'.
Proof.
  intros Hp Hu Hm Hu'. unfold send_move, unanswered in *.
  destruct m as [e| | |[e|]| |], (sd_stage s) eqn:Hst; try done; try (injection Hm as <-); try done.
  - eexists. by apply tell_pending.
  - destruct (sd_empty s) eqn:Hem; [|eexists; rewrite <- Hem; by apply tell_pending].
    eexists. rewrite <- Hem. apply (empty_pending b c (mkSending (tell Ev_RequestHeadersEnd (sd_ctx s)) (sd_body s) (sd_empty s) Waiting)); [|done].
    by apply tell_pending.
  - destruct (map_try_send_error_with_events _ _). by injection Hm as <-.
  - by eapply poll_pending.
  - by eapply poll_pending.
  - by eapply drop_pending.
  - by eapply drop_pending.
Qed.

Lemma answered_stays s m s' e : sd_stage s = Answered e → send_move s m = Some s' → sd_stage s' = Answered e.
Proof.
  unfold send_move. intros Hs. rewrite Hs. destruct m as [e'| | |[e'|]| |]; try done; intros [= <-].
  - unfold poll_body. destruct (sd_body s); [done| |done]. by destruct (outgoing_poll_frame _ _) as [[??]?].
  - done.
Qed.

Lemma answered_run ms s s' e : sd_stage s = Answered e → send_run s ms = Some s' → sd_stage s' = Answered e.
Proof.
  revert s. induction ms as [|m ms IH]; intros s Hs Hr; cbn in Hr; [by injection Hr as <-|].
  destruct (send_move s m) as [s2|] eqn:Hm; [|done]. eapply IH; [|exact Hr]. by eapply answered_stays.
Qed.

Lemma send_run_pending_from b c ms s0 es s :
  pending b c s0 es → unanswered s0 → send_run s0 ms = Some s → unanswered s → ∃ es, pending b c s es.
Proof.
  revert s0 es. induction ms as [|m ms IH]; intros s0 es Hp Hu Hr Hu1; cbn in Hr; [injection Hr as <-; eauto|].
  destruct (send_move s0 m) as [s2|] eqn:Hm; [|done]. cbn in Hr.
  assert (Hu2 : unanswered s2).
  { unfold unanswered in *. destruct (sd_stage s2) as [| | |e] eqn:He; try done. by rewrite (answered_run _ _ _ _ He Hr) in Hu1. }
  destruct (send_move_pending _ _ _ _ _ _ Hp Hu Hm Hu2) as [es' Hp']. by eapply IH.
Qed.

Lemma send_run_pending b c ms s : send_run (send_start b c) ms = Some s → unanswered s → ∃ es, pending b c s es.
Proof.
  intros Hr Hu. eapply send_run_pending_from; [apply send_start_pending| |done..].
  unfold send_start. by destruct (instrument_outgoing_body b _).
Qed.

(** C39.  A send that fails is reported as failed once.  However the connection polled and dropped the body before hyper
    answers with an error (the answer being taken in one step), the listener has then been told of exactly one failure of this attempt: the failure of the
    body if that came first, and else, with the error of the call, a failed response if the body had been reported as
    handed over (or there is none) and a failed request if not.  The error says that the request may have reached the
    server unless hyper handed it back, and then the default policy retries it only for an idempotent method. *)
Theorem send_failure_reported_once b c ms s e s' :
  send_run (send_start b c) ms = Some s → sd_stage s = Waiting → send_move s (Mv_Answer (Some e)) = Some s' →
  let mapped := map_try_send_error e in
  sd_stage s' = Answered (Some mapped) ∧
  (∃ es, cx_events (sd_ctx s') = cx_events c ++ es ∧ failures es = 1%nat ∧
    (cx_failed_emitted (sd_ctx s) = false →
     es = (drop (length (cx_events c)) (cx_events (sd_ctx s))) ++
          [if body_is_absent b || ended es then Ev_ResponseFailed mapped else Ev_RequestFailed mapped])) ∧
  (ts_returned e = false → request_committed mapped = true) ∧
  (ts_returned e = false → ∀ idempotent p ctx reason,
    rc_error ctx = mapped → default_should_retry idempotent p ctx = Some reason → idempotent (rc_method ctx) = true).
Proof.
  intros Hr Hst Hm mapped. destruct (send_run_pending b c ms s Hr) as [es Hp]; [unfold unanswered; by rewrite Hst|].
  unfold send_move in Hm. rewrite Hst in Hm. unfold map_try_send_error_with_events in Hm. fold mapped in Hm.
  assert (Hcom : ts_returned e = false → request_committed mapped = true).
  { intros Hret. unfold mapped, map_try_send_error. by rewrite Hret. }
  assert (Hdrop : drop (length (cx_events c)) (cx_events (sd_ctx s)) = es) by (rewrite (pd_events _ _ _ _ Hp); apply drop_app_length).
  pose proof (pd_failures _ _ _ _ Hp) as Hf. pose proof (pd_written _ _ _ _ Hp) as Hw.
  split_and!.
  - destruct (cx_failed_emitted (sd_ctx s)), (cx_write_complete (sd_ctx s)); by injection Hm as <-.
  - destruct (cx_failed_emitted (sd_ctx s)) eqn:Hfe.
    { injection Hm as <-. exists es. split; [apply (pd_events _ _ _ _ Hp)|]. done. }
    set (x := if body_is_absent b || ended es then Ev_ResponseFailed mapped else Ev_RequestFailed mapped).
    assert (Hx : ended (es ++ [x]) = ended es) by (rewrite ended_app; unfold x; destruct (_ || _); apply orb_false_r).
    exists (es ++ [x]). rewrite Hdrop, Hx. split; [|split; [|done]].
    + unfold x. rewrite <- Hw, app_assoc, <- (pd_events _ _ _ _ Hp). by destruct (cx_write_complete (sd_ctx s)); injection Hm as <-.
    + rewrite failures_app, Hf. unfold x. by destruct (_ || _).
  - done.
  - intros Hret idem p ctx reason Hctx Hretry. specialize (Hcom Hret). unfold default_should_retry in Hretry.
    rewrite Hctx, Hcom in Hretry. destruct (idem (rc_method ctx)); [done|]. by destruct (negb (rc_replayable ctx) || _).
Qed.
End Send.

(** An error of the body comes back as it is: hyper wraps it, and the first [WireError] among the sources is taken. *)
Lemma body_error_recovered e pre w post :
  he_sources e = pre ++ Some w :: post → Forall (λ o, o = None) pre → map_hyper_error e = w.
Proof.
  intros He Hpre. unfold map_hyper_error, find_wire_error. rewrite He. clear He.
  induction Hpre as [|o pre -> _ IH]; [done|exact IH].
Qed.

(** ** Limits in time *)

(** The signal of [spawn_body_deadline_signal], openwire/transport/body.rs:498-525: whether it has expired from the start, and else how long
    its task sleeps before it sets the flag and wakes the reader; [refused] is the executor's answer. *)
Definition spawn_body_deadline_signal (deadline : option Instant) (now : Instant) (refused : option WireError)
    : outcome WireError (option (bool * option Duration)) :=
  match deadline with
  | None => Ok None
  | Some d =>
    let remaining := saturating_sub d now in
    if remaining =? 0 then Ok (Some (true, None))
    else match refused with Some e => Err e | None => Ok (Some (false, Some remaining)) end
  end.

(** The flag is set at the deadline: at once when it has passed, and else by a task that sleeps exactly until then. *)
Lemma deadline_signal_on_time deadline now refused expired sleep :
  spawn_body_deadline_signal deadline now refused = Ok (Some (expired, sleep)) →
  ∃ d, deadline = Some d ∧ (expired = true ↔ d ≤ now) ∧ (expired = false → ∃ t, sleep = Some t ∧ 0 < t ∧ now + t = d).
Proof.
  unfold spawn_body_deadline_signal, saturating_sub. destruct deadline as [d|]; [|done]. destruct (_ =? 0) eqn:Hz.
  - intros [= <- <-]. exists d. split; [done|]. split; [|done]. split; [lia|done].
  - destruct refused as [e|]; [done|]. intros [= <- <-]. exists d. split; [done|]. split; [split; [done|lia]|].
    intros _. eexists. split; [done|]. lia.
Qed.

(** [with_connect_stage_timeout], openwire/transport/service.rs:1104-1129: the future takes [takes] to give [r], and comes first when both are
    ready. *)
Definition with_connect_stage_timeout {A} (debug : Duration → string) (connect_timeout_ : option Duration) (takes : Duration)
    (r : outcome WireError A) : outcome WireError A :=
  match connect_timeout_ with
  | None => r
  | Some t =>
    if t =? 0 then Err (connect_timeout "connect timed out before protocol binding")
    else if takes <=? t then r
    else Err (connect_timeout ("connect timed out after " +:+ debug t +:+ " during protocol binding"))
  end.

(** ** Examples *)

Module SendDemo.
Definition ctx : CallContext := mkCtx [] true true false 0 None.
Definition reset_by_peer : TrySendError := mkTrySendError false (mkHyperError false false "connection reset" [None]).
Definition handed_back : TrySendError := mkTrySendError true (mkHyperError true false "connection closed" []).
Definition start (b : ReqBody (list (poll (option (WireError + Frame))))) : Sending := send_start b ctx.
Definition after (s : Sending) (ms : list SendMove) : Sending :=
  default (mkSending (S := list (poll (option (WireError + Frame)))) ctx Out_Dropped false Ready_) (send_run s ms).
Definition waiting : Sending := after (start BodiesDemo.some_bytes) [Mv_Hand; Mv_Poll; Mv_Headers].
Definition broken : ReqBody (list (poll (option (WireError + Frame)))) := from_body [Ready (Some (inl (timeout "disk")))].
End SendDemo.

(** The bytes were taken, the body is still held: the request failed, and may have reached the server. *)
Lemma send_failure_reported_once_witness :
  let mapped := map_try_send_error SendDemo.reset_by_peer in
  let s' := SendDemo.after SendDemo.waiting [Mv_Answer (Some SendDemo.reset_by_peer)] in
  cx_events (sd_ctx s') = [Ev_RequestHeadersStart; Ev_RequestBodyStart; Ev_RequestHeadersEnd; Ev_RequestFailed mapped] ∧
  request_committed mapped = true ∧ failures (cx_events (sd_ctx s')) = 1%nat.
Proof.
  cbv zeta. split; [reflexivity|].
  destruct (send_failure_reported_once BodiesDemo.some_bytes SendDemo.ctx [Mv_Hand; Mv_Poll; Mv_Headers] SendDemo.waiting
    SendDemo.reset_by_peer (SendDemo.after SendDemo.waiting [Mv_Answer (Some SendDemo.reset_by_peer)]) eq_refl eq_refl eq_refl)
    as (_ & (es & He & Hf & _) & Hc & _).
  split; [by apply Hc|]. rewrite He. exact Hf.
Defined.

(** A body that fails is reported by its wrapper, and the failure of the call that follows from it is not reported again. *)
Example body_failure_first :
  let failed := mkTrySendError false (mkHyperError false false "user body error" [Some (timeout "disk")]) in
  let s := SendDemo.after (SendDemo.start SendDemo.broken) [Mv_Hand; Mv_Headers; Mv_Poll; Mv_Answer (Some failed)] in
  cx_events (sd_ctx s) = [Ev_RequestHeadersStart; Ev_RequestHeadersEnd; Ev_RequestBodyStart; Ev_RequestFailed (timeout "disk")] ∧
  sd_stage s = Answered (Some (with_request_committed (timeout "disk"))).
Proof. done. Qed.

(** A body the connection still holds when hyper answers reports its end when it is dropped, after the failure. *)
Example end_after_failure :
  cx_events (sd_ctx (SendDemo.after SendDemo.waiting [Mv_Answer (Some SendDemo.reset_by_peer); Mv_Drop])) =
  [Ev_RequestHeadersStart; Ev_RequestBodyStart; Ev_RequestHeadersEnd; Ev_RequestFailed (map_try_send_error SendDemo.reset_by_peer);
   Ev_RequestBodyEnd 2].
Proof. done. Qed.

(** The body of an attempt that failed, dropped when the next attempt is on its way: it marks the next one as written, whose own
    body nobody has polled, and the failure of that one is reported as a failed response. *)
Example stale_body_marks_next_attempt :
  let first := SendDemo.after SendDemo.waiting [Mv_Answer (Some SendDemo.reset_by_peer)] in
  let second := SendDemo.after (send_start BodiesDemo.some_bytes (sd_ctx first)) [Mv_Hand; Mv_Headers] in
  let late := match sd_body first with Out_Observed o => outgoing_drop o (sd_ctx second) | _ => sd_ctx second end in
  (cx_write_complete (sd_ctx second), cx_write_complete late,
   last (cx_events (map_try_send_error_with_events late SendDemo.handed_back).2)) =
  (false, true, Some (Ev_ResponseFailed (map_try_send_error SendDemo.handed_back))).
Proof. done. Qed.
