(* ===== verification/TransportPool.v ===== *)
(** * What the transport relies on of the connection pool

    The transport (openwire/src/transport) holds the pool behind [ExchangeFinder::pool] and calls a few of its
    operations from many tasks.  [ConnectionPool] is that interface, [ConnectionPoolLaws] what the transport needs
    of it: an operation changes the connections it names and may close others that carry no exchange, which
    then leave the pool.  The pool of Pool.v satisfies the laws. *)

From S2P Require Import Prelude Net Planning RealConnection Pool.

(** The operations of openwire/connection/pool.rs the transport calls, over the references it can name.
    [evictions] are the ids the eviction hook was called with, oldest first. *)
Class ConnectionPool (P : Type) : Type := {
  pool_conn : P → ConnectionId → option RealConnection;
  pool_has : P → ConnectionId → Prop;
  evictions : P → list ConnectionId;
  empty_pool : P;
  take_connection : Instant → P → Address → P * option ConnectionId * bool;
  take_coalesced : Instant → P → Address → RoutePlan → P * option ConnectionId;
  check_in_use : Instant → P → Address → P * bool;
  check_acquirable : P → Address → bool;
  give_back : Instant → P → ConnectionId → P * bool;
  take_out : P → ConnectionId → P;
  put_in : Instant → P → ConnectionId → P;
  degrade : P → ConnectionId → P;
  prune : Instant → P → P;
  allocate : P → ConnectionId → RealConnection → P;
  deallocate : P → ConnectionId → P;
}.

(** ** Effects *)

Definition unchanged : ConnectionId → RealConnection → RealConnection := λ _ c, c.
Definition at_conn (i : ConnectionId) (f : RealConnection → RealConnection) : ConnectionId → RealConnection → RealConnection :=
  λ j c, if decide (j = i) then f c else c.

Section Effect.
Context {P : Type} `{ConnectionPool P}.

(** The eviction hook was called with [l], all of them closed connections. *)
Definition hooked (p p' : P) (l : list ConnectionId) : Prop :=
  evictions p' = evictions p ++ l ∧ ∀ j, j ∈ l → ∃ x, pool_conn p' j = Some x ∧ health (conn_state x) = Closed.

(** [f] is applied to every connection; one that then carries no exchange may also be closed and taken out. *)
Record effect (f : ConnectionId → RealConnection → RealConnection) (p p' : P) : Prop := mkEffect {
  ef_conn : ∀ j, (pool_conn p' j = f j <$> pool_conn p j ∧ (pool_has p j → pool_has p' j)) ∨
                 (pool_conn p' j = close ∘ f j <$> pool_conn p j ∧ ∀ c, pool_conn p j = Some c → ¬ in_use (f j c));
  ef_has : ∀ j, pool_has p' j → pool_has p j;
  ef_hooked : ∃ l, hooked p p' l;
}.

Lemma no_hook p p' : evictions p' = evictions p → ∃ l, hooked p p' l.
Proof. intros E. exists []. split; [by rewrite app_nil_r|]. by intros j ?%elem_of_nil. Qed.

Lemma effect_refl p : effect unchanged p p.
Proof. constructor; [|done|by apply no_hook]. intros j. left. split; [by destruct (pool_conn p j)|done]. Qed.
End Effect.

(** The laws. *)
Class ConnectionPoolLaws (P : Type) `{ConnectionPool P} : Type := {
  well_formed : P → Prop;
  wf_conn p i c : well_formed p → pool_conn p i = Some c → conn_ok c;
  wf_has p i : well_formed p → pool_has p i → ∃ c, pool_conn p i = Some c ∧ health (conn_state c) ≠ Closed;
  empty_law : well_formed empty_pool ∧ (∀ i, pool_conn empty_pool i = None);
  take_law p now a p' r hint : well_formed p → take_connection now p a = (p', r, hint) →
    well_formed p' ∧
    match r with
    | None => effect unchanged p p'
    | Some i => pool_has p i ∧ (∃ c, pool_conn p i = Some c ∧ can_acquire c = true) ∧ effect (at_conn i (snd ∘ try_acquire)) p p'
    end;
  coalesce_law p now a rp p' r : well_formed p → take_coalesced now p a rp = (p', r) →
    well_formed p' ∧
    match r with
    | None => effect unchanged p p'
    | Some i => pool_has p i ∧ (∃ c, pool_conn p i = Some c ∧ can_acquire c = true) ∧ effect (at_conn i (snd ∘ try_acquire)) p p'
    end;
  in_use_law p now a p' b : well_formed p → check_in_use now p a = (p', b) → well_formed p' ∧ effect unchanged p p';
  give_back_law p now i p' b : well_formed p → give_back now p i = (p', b) →
    well_formed p' ∧ effect (at_conn i (snd ∘ conn_release now)) p p' ∧
    (∀ c, pool_conn p i = Some c → b = (conn_release now c).1);
  take_out_law p i : well_formed p →
    well_formed (take_out p i) ∧ ¬ pool_has (take_out p i) i ∧
    (∀ j, pool_has (take_out p i) j ↔ pool_has p j ∧ j ≠ i) ∧
    ((pool_has p i ∧ ∀ j, pool_conn (take_out p i) j = at_conn i close j <$> pool_conn p j) ∨
     (¬ pool_has p i ∧ ∀ j, pool_conn (take_out p i) j = pool_conn p j));
  put_in_law p now i c : well_formed p → pool_conn p i = Some c → health (conn_state c) ≠ Closed → ¬ pool_has p i →
    let p' := put_in now p i in
    well_formed p' ∧ (∀ j, pool_has p' j → pool_has p j ∨ j = i) ∧
    (∀ j, (pool_conn p' j = pool_conn p j ∧ (pool_has p j ∨ j = i → pool_has p' j)) ∨
          (pool_conn p' j = close <$> pool_conn p j ∧ ∀ d, pool_conn p j = Some d → ¬ in_use d)) ∧
    (∃ l, hooked p p' l);
  degrade_law p i : well_formed p → well_formed (degrade p i) ∧ effect (at_conn i mark_unhealthy) p (degrade p i);
  prune_law p now : well_formed p → well_formed (prune now p) ∧ effect unchanged p (prune now p);
  allocate_law p i c : well_formed p → pool_conn p i = None → conn_ok c →
    well_formed (allocate p i c) ∧ (∀ j, pool_conn (allocate p i c) j = if decide (j = i) then Some c else pool_conn p j) ∧
    (∀ j, pool_has (allocate p i c) j ↔ pool_has p j);
  deallocate_law p i : well_formed p → ¬ pool_has p i →
    well_formed (deallocate p i) ∧ (∀ j, pool_conn (deallocate p i) j = if decide (j = i) then None else pool_conn p j) ∧
    (∀ j, pool_has (deallocate p i) j ↔ pool_has p j);
}.

(** ** The pool of Pool.v *)

Section Instance_.
Variable hash_order : list Address → list Address.
Variable s : PoolSettings.
Hypothesis hash_order_perm : ∀ l, hash_order l ≡ₚ l.
Hypothesis cap_ok : 0 ≤ max_idle_per_address s.
#[local] Set Default Proof Using "Type*".

#[local] Instance pool_operations : ConnectionPool Pool := {
  pool_conn p i := store p !! i;
  pool_has p i := is_Some (by_id p !! i);
  evictions := hook_calls;
  empty_pool := set_eviction_hook (pool_new ∅);
  take_connection now p a := acquire_with_in_use_hint s now p a;
  take_coalesced now p a rp := acquire_coalesced hash_order s now p a rp;
  check_in_use now p a := has_in_use_connection s now p a;
  check_acquirable := has_acquirable_connection;
  give_back now p i := pool_release s now p i;
  take_out p i := (remove_without_hook p i).1;
  put_in now p i := pool_insert s now p i;
  degrade := pool_mark_unhealthy;
  prune now p := prune_all hash_order s now p;
  allocate p i c := set_store p (<[i := c]> (store p));
  deallocate p i := set_store p (delete i (store p));
}.

(** A removal in progress, finished, is an effect. *)
Lemma finish_effect f (p p1 : Pool) st removed :
  pool_inv removed (set_store p1 st) → by_id p1 = by_id p → hook_calls p1 = hook_calls p →
  (∀ j, st !! j = if bool_decide (j ∈ removed) then close ∘ f j <$> store p !! j else f j <$> store p !! j) →
  (∀ j c, j ∈ removed → store p !! j = Some c → ¬ in_use (f j c)) →
  effect f p (finish_removals (set_store p1 st) removed).
Proof.
  intros Hinv Hid Hhk Hst Hin. destruct (finish_removals_effect removed _ Hinv) as [[R1 _ R3 _ _ R6] _].
  constructor; cbn [pool_conn pool_has pool_operations].
  - intros j. rewrite R1, R3. cbn [set_store store by_id]. rewrite Hid, Hst. case_bool_decide as Hj; [right|left; done].
    split; [done|]. intros c. by apply Hin.
  - intros j. rewrite R3. cbn [set_store by_id]. rewrite Hid. case_bool_decide; [by intros []|done].
  - eexists. split; [cbn; rewrite R6; cbn; by rewrite Hhk|]. intros j Hj. cbn. rewrite R1.
    destruct (hook_installed _); [|by apply elem_of_nil in Hj]. by apply (pi_removed _ _ Hinv j Hj).
Qed.

(** Pruning one address. *)
Lemma prune_finish_effect now (p : Pool) a f :
  pool_ok p → (∀ j c, f j c = c) →
  let '(p1, removed) := prune_address s now p a in effect f p (finish_removals p1 removed).
Proof.
  intros Hp Hf. pose proof (prune_address_effect s now [] p a cap_ok Hp) as He.
  destruct (prune_address s now p a) as [p1 removed]. destruct He as [[Hpr _ Hid _ [_ Hhk]] Hinv].
  rewrite <-(set_store_id p1). apply finish_effect; [by rewrite set_store_id|done|done| |].
  - intros j. rewrite (pr_store _ _ _ _ _ _ _ Hpr). destruct (store p !! j) as [c|]; simpl; case_bool_decide; rewrite ?Hf; done.
  - intros j c Hj Hc. rewrite Hf. by eapply (pr_in_use _ _ _ _ _ _ _ Hpr).
Qed.

(** Pruning one address, then allocating on the first connection of a list with room. *)
Lemma prune_acquire_effect now (p : Pool) a :
  pool_ok p →
  let '(p1, removed) := prune_address s now p a in
  let '(st, r) := find_acquire (store p1) (bucket p1 a) in
  match r with
  | None => effect unchanged p (finish_removals (set_store p1 st) removed)
  | Some i => is_Some (by_id p !! i) ∧ (∃ c, store p !! i = Some c ∧ can_acquire c = true) ∧
              effect (at_conn i (snd ∘ try_acquire)) p (finish_removals (set_store p1 st) removed)
  end.
Proof.
  intros Hp. pose proof (prune_address_effect s now [] p a cap_ok Hp) as He.
  pose proof (prune_finish_effect now p a unchanged Hp (λ _ _, eq_refl)) as Hnone.
  destruct (prune_address s now p a) as [p1 removed]. destruct He as [[Hpr _ Hid _ [_ Hhk]] Hinv].
  pose proof (find_acquire_spec (store p1) (bucket p1 a)) as Hf.
  pose proof (find_acquire_same (store p1) (bucket p1 a) (pi_conn _ _ Hinv)) as Hsame.
  destruct (find_acquire (store p1) (bucket p1 a)) as [st [i|]].
  2: { destruct Hf as [-> _]. by rewrite set_store_id. }
  destruct Hf as (pre & post & c & Hb & Hc & Hca & -> & _).
  assert (Hi : i ∈ bucket p1 a) by (rewrite Hb; set_solver).
  destruct (pruned_split _ _ _ _ _ _ _ Hpr) as [Hin Hout].
  assert (Hc0 : store p !! i = Some c).
  { pose proof (pr_store _ _ _ _ _ _ _ Hpr i) as E. rewrite bool_decide_eq_false_2 in E by (by apply Hout). congruence. }
  split_and!; [|eauto|].
  - exists a. apply (pi_id _ _ Hp). left. apply Hin. by left.
  - apply finish_effect; [by apply same_store_inv|done|done| |].
    + intros j. unfold at_conn. destruct (decide (j = i)) as [->|Hne].
      * rewrite lookup_insert_eq, bool_decide_eq_false_2 by (by apply Hout). by rewrite Hc0.
      * rewrite lookup_insert_ne, (pr_store _ _ _ _ _ _ _ Hpr) by done.
        destruct (store p !! j); simpl; by case_bool_decide.
    + intros j d Hj Hd. unfold at_conn. rewrite decide_False; [by eapply (pr_in_use _ _ _ _ _ _ _ Hpr)|].
      intros ->. by apply (Hout i).
Qed.

Lemma take_effect now p a :
  pool_ok p →
  let '(p', r, _) := acquire_with_in_use_hint s now p a in
  match r with
  | None => effect unchanged p p'
  | Some i => is_Some (by_id p !! i) ∧ (∃ c, store p !! i = Some c ∧ can_acquire c = true) ∧ effect (at_conn i (snd ∘ try_acquire)) p p'
  end.
Proof.
  intros Hp. unfold acquire_with_in_use_hint. pose proof (prune_acquire_effect now p a Hp) as He.
  destruct (prune_address s now p a) as [p1 removed]. unfold bucket in He.
  destruct (by_address p1 !! a) as [l|]; simpl in He.
  - by destruct (find_acquire (store p1) l) as [st [i|]].
  - exact He.
Qed.

(** Pruning several addresses. *)
Lemma prune_addresses_finish_effect now (p : Pool) l :
  pool_ok p → NoDup l →
  let '(p1, removed) := prune_addresses s now p l in effect unchanged p (finish_removals p1 removed).
Proof.
  intros Hp Hl. pose proof (prune_addresses_effect s now [] p l cap_ok Hp Hl) as He.
  pose proof (prune_addresses_inv s now [] p l cap_ok Hp) as Hinv.
  destruct (prune_addresses s now p l) as [p1 removed]. destruct He as [_ _ Hst Hin _ _ Hid [_ Hhk]].
  rewrite <-(set_store_id p1). apply finish_effect; [by rewrite set_store_id|done|done| |by intros; eapply Hin].
  intros j. rewrite Hst. unfold unchanged, compose. destruct (store p !! j); done.
Qed.

(** Allocating on an open pooled connection after other connections were evicted. *)
Lemma effect_acquire (p q : Pool) i c :
  effect unchanged p q → store q !! i = Some c → health (conn_state c) ≠ Closed →
  store p !! i = Some c ∧ effect (at_conn i (snd ∘ try_acquire)) p (set_store q (<[i := (try_acquire c).2]> (store q))).
Proof.
  intros [Hc Hh (l & Hl1 & Hl2)] Hi Hop. pose proof (Hc i) as Hci. cbn in Hci. rewrite Hi in Hci.
  destruct Hci as [[Hci Hhi]|[Hci _]].
  2: { destruct (store p !! i) as [d|]; simplify_eq/=. }
  destruct (store p !! i) as [d|] eqn:Hd; simplify_eq/=. split; [done|]. constructor; [|exact Hh|].
  2: { exists l. split; [done|]. intros j Hj. cbn. destruct (decide (j = i)) as [->|]; [|rewrite lookup_insert_ne by done; by apply Hl2].
       destruct (Hl2 i Hj) as (x & Hx & ?). cbn in Hx. congruence. }
  intros j. cbn. unfold at_conn. destruct (decide (j = i)) as [->|Hne].
  - left. rewrite lookup_insert_eq, Hd. done.
  - rewrite lookup_insert_ne by done. destruct (Hc j) as [?|[? ?]]; [by left|by right].
Qed.

Lemma coalesce_effect now p a rp :
  pool_ok p →
  let '(p', r) := acquire_coalesced hash_order s now p a rp in
  match r with
  | None => effect unchanged p p'
  | Some i => is_Some (by_id p !! i) ∧ (∃ c, store p !! i = Some c ∧ can_acquire c = true) ∧ effect (at_conn i (snd ∘ try_acquire)) p p'
  end.
Proof.
  intros Hp. unfold acquire_coalesced. destruct (negb _); [apply effect_refl|].
  destruct (direct_route_targets rp) as [|t0 ts]; [apply effect_refl|].
  match goal with |- context [prune_addresses s now p ?l] =>
    pose proof (prune_addresses_finish_effect now p l Hp) as He;
    pose proof (prune_addresses_finish_ok s now p l cap_ok Hp) as Hok;
    assert (Hnd : NoDup l) by (rewrite hash_order_perm; apply dedup_NoDup);
    destruct (prune_addresses s now p l) as [p1 removed] end.
  specialize (He Hnd). set (q := finish_removals p1 removed) in *.
  destruct (coalescing_candidates_spec q a rp (t0 :: ts) ∅ Hok) as (found & -> & Hfound).
  pose proof (find_acquire_spec (store q) found) as Hf. destruct (find_acquire (store q) found) as [st [i|]].
  2: { destruct Hf as [-> _]. by rewrite set_store_id. }
  destruct Hf as (pre & post & c & Hl & Hc & Hca & -> & _).
  assert (Hi : i ∈ found) by (rewrite Hl; set_solver). apply Hfound in Hi as (_ & (t & _ & Ht) & _).
  apply (pi_index _ _ Hok) in Ht as [Hhas _].
  assert (Hop : health (conn_state c) ≠ Closed).
  { apply can_acquire_iff in Hca as [E _]; [congruence|]. by apply (pi_conn _ _ Hok i). }
  destruct (effect_acquire p q i c He Hc Hop) as [Hpi Heff]. split_and!; [|eauto|done].
  by apply (ef_has _ _ _ He).
Qed.

Lemma give_back_effect now p i :
  pool_ok p →
  let '(p', b) := pool_release s now p i in
  effect (at_conn i (snd ∘ conn_release now)) p p' ∧ ∀ c, store p !! i = Some c → b = (conn_release now c).1.
Proof.
  intros Hp. unfold pool_release.
  assert (Hno : (∀ c, store p !! i = Some c → (conn_release now c).2 = c) → effect (at_conn i (snd ∘ conn_release now)) p p).
  { intros Hn. constructor; [|done|by apply no_hook]. intros j. left. split; [|done]. cbn. unfold at_conn.
    destruct (decide (j = i)) as [->|]; [|by destruct (store p !! j)].
    destruct (store p !! i) as [c|] eqn:E; [|done]. simpl. by rewrite Hn. }
  destruct (store p !! i) as [c|] eqn:Hc; [|split; [by apply Hno|done]].
  destruct (conn_release now c) as [b c'] eqn:Hr. destruct b.
  2: { split; [|intros ? [= <-]; by rewrite Hr]. apply Hno. intros ? [= <-]. rewrite Hr. simpl.
       unfold conn_release in Hr. destruct (_ || _); congruence. }
  assert (Hs : same_conn c c') by (pose proof (conn_release_same now c (pi_conn _ _ Hp i c Hc)) as Hs; by rewrite Hr in Hs).
  assert (Hok : pool_ok (set_store p (<[i := c']> (store p)))).
  { apply same_store_inv; [|done]. apply same_store_insert with c; [done|done|apply (pi_conn _ _ Hp)]. }
  pose proof (prune_address_effect s now [] _ (conn_address c') cap_ok Hok) as He.
  destruct (prune_address s now _ _) as [p1 removed]. destruct He as [[Hpr _ Hid _ [_ Hhk]] Hinv].
  assert (Hat : ∀ j, <[i := c']> (store p) !! j = at_conn i (snd ∘ conn_release now) j <$> store p !! j).
  { intros j. unfold at_conn. destruct (decide (j = i)) as [->|].
    - rewrite lookup_insert_eq, Hc. simpl. by rewrite Hr.
    - rewrite lookup_insert_ne by done. by destruct (store p !! j). }
  split; [|intros ? [= <-]; by rewrite Hr].
  rewrite <-(set_store_id p1). apply finish_effect; [by rewrite set_store_id|done|done| |].
  - intros j. rewrite (pr_store _ _ _ _ _ _ _ Hpr). cbn [set_store store]. rewrite Hat.
    destruct (store p !! j); simpl; by case_bool_decide.
  - intros j d Hj Hd. apply (pr_in_use _ _ _ _ _ _ _ Hpr j); [done|]. cbn [set_store store]. by rewrite Hat, Hd.
Qed.

Lemma insert_effect now p i c :
  pool_ok p → store p !! i = Some c → health (conn_state c) ≠ Closed → by_id p !! i = None →
  let p' := pool_insert s now p i in
  (∀ j, is_Some (by_id p' !! j) → is_Some (by_id p !! j) ∨ j = i) ∧
  (∀ j, (store p' !! j = store p !! j ∧ (is_Some (by_id p !! j) ∨ j = i → is_Some (by_id p' !! j))) ∨
       (store p' !! j = close <$> store p !! j ∧ ∀ d, store p !! j = Some d → ¬ in_use d)) ∧
  ∃ l, hooked p p' l.
Proof using All.
  intros Hp Hc Hh Hid. simpl. rewrite (insert_as_prune s now p i c) by done.
  pose proof (prune_finish_effect now _ (conn_address c) unchanged (inserted_ok p i c Hp Hc Hh Hid) (λ _ _, eq_refl)) as He.
  destruct (prune_address _ _ _ _) as [p1 removed]. destruct He as [Hst Hhas (l & Hl1 & Hl2)].
  destruct (inserted_fields p i (conn_address c)) as (F1 & _ & F3 & _).
  assert (Hk : hook_calls (inserted p i (conn_address c)) = hook_calls p)
    by (unfold inserted, index_coalescing; by destruct (store _ !! i ≫= _)). cbn in Hst, Hhas. rewrite F1, F3 in *.
  assert (Hin : ∀ j, is_Some (<[i := conn_address c]> (by_id p) !! j) ↔ is_Some (by_id p !! j) ∨ j = i).
  { intros j. rewrite lookup_insert_is_Some. split; [intros [->|[_ ?]]; [by right|by left]|].
    intros [?| ->]; [|by left]. destruct (decide (i = j)); [by left|by right]. }
  split_and!; [intros j Hj; by apply Hin, Hhas| |exists l; split; [cbn in *; by rewrite <-Hk|done]]. intros j. destruct (Hst j) as [[E1 E2]|[E1 E2]].
  - left. rewrite E1. split; [by destruct (store p !! j)|]. intros Hj. by apply E2, Hin.
  - right. rewrite E1. by split; [destruct (store p !! j)|].
Qed.

Lemma remove_effect p i :
  pool_ok p →
  let p' := (remove_without_hook p i).1 in
  (∀ j, is_Some (by_id p' !! j) ↔ is_Some (by_id p !! j) ∧ j ≠ i) ∧
  ((is_Some (by_id p !! i) ∧ ∀ j, store p' !! j = at_conn i close j <$> store p !! j) ∨
   (¬ is_Some (by_id p !! i) ∧ ∀ j, store p' !! j = store p !! j)).
Proof.
  intros Hp. simpl. destruct (by_id p !! i) as [a|] eqn:Hid.
  - rewrite (remove_without_hook_eq p i a) by done. cbn [fst].
    destruct (remove_index_fields (set_by_id (detached p i a) (delete i (by_id p))) i) as (-> & _ & -> & _).
    cbn. split; [|left; split; [by eexists|]].
    + intros j. destruct (decide (i = j)) as [->|]; [rewrite lookup_delete_eq|rewrite lookup_delete_ne by done].
      * split; [by intros []|by intros [_ ?]].
      * split; [done|by intros [? _]].
    + intros j. unfold at_conn. destruct (decide (j = i)) as [->|]; [by rewrite lookup_alter_eq|].
      rewrite lookup_alter_ne by done. by destruct (store p !! j).
  - destruct (remove_none p i Hid) as [-> _]. cbn [fst]. split; [|right; split; [by intros []|done]].
    intros j. split; [|by intros []]. intros Hj. split; [done|]. intros ->. rewrite Hid in Hj. by destruct Hj.
Qed.

Lemma deallocate_ok p i : pool_ok p → by_id p !! i = None → pool_ok (set_store p (delete i (store p))).
Proof.
  intros [H1 H2 H3 H4 H5 H6 H7 H8] Hid.
  assert (Hin : ∀ a j, j ∈ bucket p a → j ≠ i).
  { intros a j Hj ->. assert (by_id p !! i = Some a) by (apply H6; by left). congruence. }
  constructor; cbn [set_store store by_address by_id coalesced_by_target]; try done.
  - intros j c [_ ?]%lookup_delete_Some. by eapply H1.
  - intros a j Hj. pose proof (Hin a j Hj). destruct (H3 a j Hj) as (d & Hd & ?). exists d.
    by rewrite lookup_delete_ne.
  - intros j Hj. by apply elem_of_nil in Hj.
  - intros j a. rewrite H6. split; (intros [?|[Hj _]]; [by left|by apply elem_of_nil in Hj]).
  - intros t j. unfold index. cbn [set_store coalesced_by_target]. fold (index p t).
    rewrite H8. unfold target_of. destruct (decide (i = j)) as [->|]; [|by rewrite lookup_delete_ne].
    rewrite Hid. split; by intros [[] _].
Qed.

#[local] Instance pool_laws : ConnectionPoolLaws Pool.
Proof.
  refine {| well_formed := pool_ok |}; cbn [pool_conn pool_has pool_operations evictions empty_pool take_connection
    take_coalesced check_in_use give_back take_out put_in degrade prune allocate deallocate].
  - intros p i c Hp. apply (pi_conn _ _ Hp).
  - intros p i Hp [a Ha]. apply (pi_id _ _ Hp) in Ha as [Ha|[Hn _]]; [|by apply elem_of_nil in Hn].
    destruct (pi_live _ _ Hp a i Ha) as (c & ? & _ & ?). eauto.
  - split; [apply hook_irrelevant, pool_new_ok|done].
  - intros p now a p' r hint Hp E. pose proof (take_effect now p a Hp) as He.
    pose proof (acquire_with_in_use_hint_ok s now p a cap_ok Hp) as Hok. by rewrite E in He, Hok.
  - intros p now a rp p' r Hp E. pose proof (coalesce_effect now p a rp Hp) as He.
    pose proof (acquire_coalesced_ok hash_order s now p a rp cap_ok Hp) as Hok. by rewrite E in He, Hok.
  - intros p now a p' b Hp E. unfold has_in_use_connection in E. pose proof (prune_finish_effect now p a unchanged Hp (λ _ _, eq_refl)) as He.
    pose proof (prune_finish_ok' s now p a cap_ok Hp) as Hok. destruct (prune_address s now p a). by simplify_eq.
  - intros p now i p' b Hp E. pose proof (give_back_effect now p i Hp) as He.
    pose proof (release_ok s now p i cap_ok Hp) as Hok. by rewrite E in He, Hok.
  - intros p i Hp. destruct (remove_effect p i Hp) as [Hh Hc]. destruct (remove_ok p i Hp) as [_ Hok].
    split_and!; try done. rewrite Hh. tauto.
  - intros p now i c Hp Hc Hh Hid. apply eq_None_not_Some in Hid.
    pose proof (insert_effect now p i c Hp Hc Hh Hid). split; [by eapply insert_ok|done].
  - intros p i Hp. split; [apply pool_update_ok; [apply mark_unhealthy_same|done]|]. constructor; [|done|by apply no_hook].
    intros j. left. split; [|done]. cbn. unfold at_conn. destruct (decide (j = i)) as [->|]; [by rewrite lookup_alter_eq|].
    rewrite lookup_alter_ne by done. by destruct (store p !! j).
  - intros p now Hp. unfold prune_all. assert (Hnd : NoDup (hash_order (map_to_list (by_address p)).*1))
      by (rewrite hash_order_perm; apply NoDup_fst_map_to_list).
    pose proof (prune_addresses_finish_effect now p _ Hp Hnd) as He.
    pose proof (prune_addresses_finish_ok s now p (hash_order (map_to_list (by_address p)).*1) cap_ok Hp) as Hok.
    by destruct (prune_addresses _ _ _ _).
  - intros p i c Hp Hi Hc. split_and!; [by apply create_ok| |done]. intros j. cbn.
    case_decide; subst; [by rewrite lookup_insert_eq|by rewrite lookup_insert_ne].
  - intros p i Hp Hi. apply eq_None_not_Some in Hi. split_and!; [by apply deallocate_ok| |done]. intros j. cbn.
    case_decide; subst; [by rewrite lookup_delete_eq|by rewrite lookup_delete_ne].
Defined.
End Instance_.
