(* ===== verification/Transport.v ===== *)
(** * Exchanges and their connections

    openwire/src/transport/bindings.rs, the response leases of body.rs and the life of an exchange in service.rs:
    how an exchange obtains a connection, sends its request over it and gives it back.

    An exchange is asynchronous and many run at once over the same pool, bindings and task registry.  A task is
    a [prog]: the tree of the critical sections it enters, each answered by the shared state, of the answers it
    asks of code outside this file ([Ask]: the limiter, the executor, hyper) and of its await points ([Await]),
    where its future may be dropped instead; the first branch of an [Await] is what the drop runs.  A [Machine]
    is the shared state with the tasks, and [run] interleaves them by a list of moves.

    The hyper sender of a connection is identified with the connection, so the slot of an HTTP/1 binding is a
    boolean; whether hyper has closed it is part of the shared state.  The [ConnectionInfo] kept beside a sender
    and the listener's events decide nothing and are left out; so are request admission and the connection
    limiter, which have their own files (Scheduler, Limits) and appear as answers. *)

From S2P Require Import Prelude Net Error Planning RealConnection Pool ExchangeFinder TransportPool Outgoing ObservedBody.

(** ** Shared state *)

(** [ConnectionBinding], openwire/transport/bindings.rs:20-33: an HTTP/1 connection with the slot its sender is
    checked out of, an HTTP/2 connection with a sender that is cloned. *)
Inductive ConnectionBinding : Type := Binding_Http1 (sender : bool) | Binding_Http2.

(** [AcquiredBinding], openwire/transport/bindings.rs:35-44. *)
Inductive AcquiredBinding : Type := Acquired_Http1 | Acquired_Http2.

(** [BindingAcquireResult], openwire/transport/bindings.rs:46-50. *)
Inductive BindingAcquireResult : Type := Acquired (b : AcquiredBinding) | Busy | Stale.

Abbreviation Bindings := (gmap ConnectionId ConnectionBinding) (only parsing).

#[global] Instance ConnectionBinding_eq_dec : EqDecision ConnectionBinding.
Proof. solve_decision. Defined.

(** [insert_http1] and [insert_http2], openwire/transport/bindings.rs:60-85. *)
Definition insert_binding (i : ConnectionId) (p : ConnectionProtocol) (b : Bindings) : Bindings :=
  <[i := match p with Http1 => Binding_Http1 true | Http2 => Binding_Http2 end]> b.

(** [ConnectionBindings::acquire], openwire/transport/bindings.rs:87-125; [closed] are the connections whose
    sender reports [is_closed]. *)
Definition binding_acquire (closed : gset ConnectionId) (i : ConnectionId) (b : Bindings) : Bindings * BindingAcquireResult :=
  match b !! i with
  | Some (Binding_Http1 false) => (b, Busy)
  | Some (Binding_Http1 true) =>
    if bool_decide (i ∈ closed) then (delete i b, Stale)
    else (<[i := Binding_Http1 false]> b, Acquired Acquired_Http1)
  | Some Binding_Http2 => if bool_decide (i ∈ closed) then (delete i b, Stale) else (b, Acquired Acquired_Http2)
  | None => (b, Stale)
  end.

(** The critical section of [release_http1], openwire/transport/bindings.rs:137-146. *)
Definition put_sender (i : ConnectionId) (b : Bindings) : Bindings * bool :=
  match b !! i with
  | Some (Binding_Http1 _) => (<[i := Binding_Http1 true]> b, true)
  | _ => (b, false)
  end.

(** What a clone of a [RealConnection] says without looking at its shared state: id, protocol, address and
    verified names. *)
Record ConnRef : Type := mkRef {
  cr_id : ConnectionId;
  cr_protocol : ConnectionProtocol;
  cr_address : Address;
  cr_names : list string;
}.
Definition ref_of (i : ConnectionId) (c : RealConnection) : ConnRef :=
  mkRef i (protocol c) (conn_address c) (verified_server_names c).

(** A call of [ConnectionAvailability::notify] or [notify_http2]. *)
Inductive Notice : Type := Notice_Address (a : Address) | Notice_Http2 (a : Address) (names : list string).

(** ** Programs *)

(** What [connect_route_plan] established: the negotiated protocol, the peer and the verified names. *)
Record Established : Type := mkEstablished {
  est_h2 : bool;
  est_remote : option SocketAddr;
  est_names : list string;
}.

(** The types of answers. *)
Inductive ty : Type := T_Unit | T_Bool | T_Error | T_Plan | T_Connect | T_Fate.
#[global] Instance ty_eq_dec : EqDecision ty.
Proof. solve_decision. Defined.
Definition ans (t : ty) : Type :=
  match t with
  | T_Unit => unit
  | T_Bool => bool
  | T_Error => option WireError
  | T_Plan => WireError + RoutePlan
  | T_Connect => WireError + Established
  | T_Fate => Fate
  end.

(** One call, as the transport is given it: its prepared addresses, the [NoCoalescedConnections] marker and
    the stream budget of the configuration. *)
Record Call : Type := mkCall {
  call_addresses : list ResolvedAddress;
  call_no_coalesced : bool;
  call_max_streams : Z;
}.

(** Where the loop of [acquire_connection_for_candidate] stands: the candidate, its route plan once it is
    known and the candidates after it. *)
Record Round : Type := mkRound {
  rd_call : Call;
  rd_candidate : ResolvedAddress;
  rd_plan : option RoutePlan;
  rd_rest : list ResolvedAddress;
}.

(** The loops a task can go round. *)
Inductive Loop : Type := Loop_Candidate (r : Round) | Loop_Reaper.

Inductive Ending : Type := Delivered | Failed (e : WireError) | Cancelled.

(** Critical sections without an answer. *)
Inductive Op : Type :=
| Bind_Insert (i : ConnectionId) (p : ConnectionProtocol)
| Bind_Remove (i : ConnectionId)
| Pool_Insert (i : ConnectionId)
| Pool_Remove (i : ConnectionId)
| Mark_Unhealthy (i : ConnectionId)
| Drop_Connection (i : ConnectionId)
| Attach (i : ConnectionId) (handle : nat)
| Abort (i : ConnectionId)
| Complete (i : ConnectionId)
| Notify (n : Notice)
| Prune.

(** Critical sections answered by a boolean. *)
Inductive Query : Type :=
| Sender_Closed (i : ConnectionId)
| Put_Sender (i : ConnectionId)
| Pool_Release (r : ConnRef)
| Has_In_Use (a : Address).

Inductive prog : Type :=
| End (e : Ending)
| Lost (r : ConnRef) (e : Ending)
| Again (l : Loop)
| Do (o : Op) (k : prog)
| Query_ (q : Query) (k : bool → prog)
| Pool_Probe (l : list ResolvedAddress) (k : option nat → prog)
| Pool_Acquire (a : Address) (k : option ConnRef → bool → prog)
| Pool_Coalesce (a : Address) (rp : RoutePlan) (k : option ConnRef → prog)
| Bind_Acquire (i : ConnectionId) (k : BindingAcquireResult → prog)
| Create (route : Route) (p : ConnectionProtocol) (names : list string) (streams : Z) (k : ConnRef → prog)
| Spawn (r : ConnRef) (k : nat → prog)
| Ask (t : ty) (k : ans t → prog)
| Await (t : ty) (dropped : prog) (k : ans t → prog).

(** ** Giving a connection back *)

(** [release_http1], openwire/transport/bindings.rs:127-147: a closed sender is not put back. *)
Definition release_http1 (i : ConnectionId) (k : bool → prog) : prog :=
  Query_ (Sender_Closed i) (λ closed, if closed then Do (Bind_Remove i) (k false) else Query_ (Put_Sender i) k).

(** [teardown_connection], openwire/transport/bindings.rs:205-212; also the eviction hook that
    [TransportService::new] installs. *)
Definition teardown_connection (i : ConnectionId) (k : prog) : prog := Do (Bind_Remove i) (Do (Abort i) k).

(** [teardown_pooled_connection], openwire/transport/bindings.rs:270-278. *)
Definition teardown_pooled_connection (i : ConnectionId) (k : prog) : prog :=
  teardown_connection i (Do (Pool_Remove i) k).

Definition notify (r : ConnRef) (k : prog) : prog := Do (Notify (Notice_Address (cr_address r))) k.
Definition notify_http2 (r : ConnRef) (k : prog) : prog := Do (Notify (Notice_Http2 (cr_address r) (cr_names r))) k.

(** [release_acquired_connection], openwire/transport/bindings.rs:234-268. *)
Definition release_acquired_connection (r : ConnRef) (b : AcquiredBinding) (k : prog) : prog :=
  match b with
  | Acquired_Http1 =>
    let torn_down := teardown_pooled_connection (cr_id r) (notify r k) in
    release_http1 (cr_id r) (λ put,
      if put then Query_ (Pool_Release r) (λ released, if released then notify r k else torn_down) else torn_down)
  | Acquired_Http2 =>
    Query_ (Pool_Release r) (λ released,
      if released then notify_http2 r k else teardown_pooled_connection (cr_id r) (notify_http2 r k))
  end.

(** [ResponseLeaseState], openwire/transport/body.rs:39-51. *)
Inductive ResponseLeaseState : Type := Lease_Http1 (r : ConnRef) (reusable : bool) | Lease_Http2 (r : ConnRef).

(** [release_response_lease], openwire/transport/body.rs:399-446. *)
Definition release_response_lease (l : ResponseLeaseState) (k : prog) : prog :=
  match l with
  | Lease_Http1 r reusable =>
    let torn_down := teardown_pooled_connection (cr_id r) (notify r k) in
    if reusable then
      release_http1 (cr_id r) (λ put,
        if put then Query_ (Pool_Release r) (λ released, if released then notify r k else torn_down) else torn_down)
    else torn_down
  | Lease_Http2 r => Query_ (Pool_Release r) (λ _, notify_http2 r k)
  end.

(** [evict_response_lease_state], openwire/transport/body.rs:456-496. *)
Definition evict_response_lease_state (l : ResponseLeaseState) (unhealthy : bool) (k : prog) : prog :=
  match l with
  | Lease_Http1 r _ => teardown_pooled_connection (cr_id r) (notify r k)
  | Lease_Http2 r =>
    let given_back := Query_ (Pool_Release r) (λ _, notify_http2 r k) in
    if unhealthy then Do (Mark_Unhealthy (cr_id r)) given_back else given_back
  end.

(** [ResponseLease::release], [discard] and [drop], openwire/transport/body.rs:94-117: what becomes of the lease
    by the fate of the body that holds it. *)
Definition settle_lease (f : Fate) (l : ResponseLeaseState) (k : prog) : prog :=
  match f with
  | Released => release_response_lease l k
  | Discarded => evict_response_lease_state l true k
  | Abandoned => evict_response_lease_state l false k
  end.

(** [cleanup_failed_request], openwire/transport/service.rs:1079-1102. *)
Definition cleanup_failed_request (r : ConnRef) (k : prog) : prog :=
  match cr_protocol r with
  | Http1 => teardown_pooled_connection (cr_id r) (notify r k)
  | Http2 => Do (Mark_Unhealthy (cr_id r)) (Query_ (Pool_Release r) (λ _, notify_http2 r k))
  end.

(** ** Sending a request *)

(** [SelectedConnection], openwire/transport/service.rs:54-66, apart from the shared services it refers to. *)
Record SelectedConnection : Type := mkSelected {
  sel_candidate : ResolvedAddress;
  sel_connection : ConnRef;
  sel_binding : AcquiredBinding;
  sel_reused : bool;
  sel_coalesced : bool;
}.

(** [Drop for SelectedConnection], openwire/transport/service.rs:161-179. *)
Definition drop_selected (x : SelectedConnection) (k : prog) : prog :=
  release_acquired_connection (sel_connection x) (sel_binding x) k.

(** The end of [execute_exchange], openwire/transport/service.rs:282-306: the deadline signal of the body may fail
    to start, and the response with its lease is dropped; otherwise the body decides. *)
Definition deliver_response (l : ResponseLeaseState) : prog :=
  Ask T_Error (λ failed : option WireError,
    match failed with
    | Some e => settle_lease Abandoned l (End (Failed e))
    | None => Ask T_Fate (λ f : Fate, settle_lease f l (End Delivered))
    end).

(** [send_bound_request], openwire/transport/service.rs:847-973.  The connection is taken out of the
    [SelectedConnection], whose [Drop] then releases nothing; when preparing the request fails or the future is
    dropped while it waits, the [RealConnection] goes away as a reference only ([Lost]). *)
Definition send_bound_request (x : SelectedConnection) : prog :=
  let r := sel_connection x in
  Ask T_Error (λ invalid : option WireError,
    match invalid with
    | Some e => Lost r (Failed e)
    | None =>
      Await T_Error (Lost r Cancelled) (λ not_ready : option WireError,
        match not_ready with
        | Some e => cleanup_failed_request r (End (Failed e))
        | None =>
          Await T_Error (Lost r Cancelled) (λ failed : option WireError,
            match failed with
            | Some e => cleanup_failed_request r (End (Failed e))
            | None =>
              match sel_binding x with
              | Acquired_Http1 => Ask T_Bool (λ reusable : bool, deliver_response (Lease_Http1 r reusable))
              | Acquired_Http2 => deliver_response (Lease_Http2 r)
              end
            end)
        end)
    end).

(** ** Obtaining a connection *)

(** [acquire_connection] after a candidate failed, openwire/transport/service.rs:342-367, with the admission of the
    next one (openwire/transport/service.rs:379-389). *)
Fixpoint next_candidate (c : Call) (rest : list ResolvedAddress) (last_error : WireError) : prog :=
  match rest with
  | [] => End (Failed last_error)
  | candidate :: rest =>
    Await T_Error (End Cancelled) (λ refused : option WireError,
      match refused with
      | Some e => next_candidate c rest e
      | None => Again (Loop_Candidate (mkRound c candidate None rest))
      end)
  end.

Definition fail_candidate (rd : Round) (e : WireError) : prog := next_candidate (rd_call rd) (rd_rest rd) e.

(** The future of [spawn_http1_task] and [spawn_http2_task], openwire/transport/service.rs:710-726. *)
Definition driver_task (r : ConnRef) : prog :=
  Await T_Unit (End Cancelled) (λ _ : unit,
    Do (Bind_Remove (cr_id r)) (Do (Pool_Remove (cr_id r)) (Do (Complete (cr_id r)) (notify r (End Delivered))))).

(** [spawn_http1_task] and [spawn_http2_task], openwire/transport/service.rs:698-738. *)
Definition spawn_task (r : ConnRef) (k : option WireError → prog) : prog :=
  Ask T_Error (λ refused : option WireError,
    match refused with
    | Some e => Do (Abort (cr_id r)) (k (Some e))
    | None => Spawn r (λ handle, Do (Attach (cr_id r) handle) (k None))
    end).

Definition protocol_name (p : ConnectionProtocol) : string := match p with Http1 => "HTTP/1" | Http2 => "HTTP/2" end.

(** [bind_fresh_connection], openwire/transport/service.rs:510-638; the HTTP/1 and the HTTP/2 arm do the same with
    their own binding. *)
Definition bind_fresh_connection (rd : Round) : prog :=
  let a := ra_address (rd_candidate rd) in
  Await T_Connect (End Cancelled) (λ stream : WireError + Established,
    match stream with
    | inl e => fail_candidate rd e
    | inr est =>
      Create (from_observed a (est_remote est)) (determine_protocol a (est_h2 est)) (est_names est)
             (call_max_streams (rd_call rd)) (λ r,
      Await T_Error (Do (Drop_Connection (cr_id r)) (End Cancelled)) (λ failed : option WireError,
        match failed with
        | Some e => Do (Drop_Connection (cr_id r)) (fail_candidate rd e)
        | None =>
          Do (Bind_Insert (cr_id r) (cr_protocol r))
          (Bind_Acquire (cr_id r) (λ result,
            match result with
            | Acquired b =>
              Do (Pool_Insert (cr_id r))
              (spawn_task r (λ failed,
                match failed with
                | Some e => teardown_pooled_connection (cr_id r) (Do (Notify (Notice_Address a)) (fail_candidate rd e))
                | None => send_bound_request (mkSelected (rd_candidate rd) r b false false)
                end))
            | _ =>
              Do (Bind_Remove (cr_id r)) (Do (Drop_Connection (cr_id r))
                (fail_candidate rd
                  (internal ("freshly bound " +:+ protocol_name (cr_protocol r) +:+ " connection was not available for request execution")
                            ("bound " +:+ protocol_name (cr_protocol r) +:+ " connection missing immediately after insert"))))
            end))
        end))
    end).

(** The capacity check and the wait at the end of a round, openwire/transport/service.rs:484-507. *)
Definition open_or_wait (rd : Round) (plan : RoutePlan) : prog :=
  Ask T_Bool (λ permit : bool,
    if permit then bind_fresh_connection rd
    else Await T_Unit (End Cancelled) (λ _ : unit, Again (Loop_Candidate (mkRound (rd_call rd) (rd_candidate rd) (Some plan) (rd_rest rd))))).

(** [try_acquire_coalesced], openwire/transport/service.rs:640-690; [k] goes on without a connection. *)
Definition try_acquire_coalesced (rd : Round) (plan : RoutePlan) (k : prog) : prog :=
  let a := ra_address (rd_candidate rd) in
  if call_no_coalesced (rd_call rd) then k else
  Pool_Coalesce a plan (λ connection,
    match connection with
    | None => k
    | Some r =>
      Bind_Acquire (cr_id r) (λ result,
        match result with
        | Acquired b => send_bound_request (mkSelected (rd_candidate rd) r b true true)
        | Busy => Query_ (Pool_Release r) (λ _, k)
        | Stale => teardown_pooled_connection (cr_id r) (Do (Notify (Notice_Address a)) k)
        end)
    end).

(** The round once it is known whether a pooled connection is worth waiting for,
    openwire/transport/service.rs:450-482. *)
Definition after_lookup (rd : Round) (waitable : bool) : prog :=
  let go plan := try_acquire_coalesced rd plan (open_or_wait rd plan) in
  match rd_plan rd with
  | Some plan => go plan
  | None =>
    Await T_Plan (End Cancelled) (λ planned : WireError + RoutePlan,
      match planned with
      | inr plan => go plan
      | inl e =>
        if bool_decide (kind e = Kind_Dns) && waitable then
          Ask T_Bool (λ can_acquire : bool,
            if can_acquire then fail_candidate rd e
            else Await T_Unit (End Cancelled) (λ _ : unit, Again (Loop_Candidate rd)))
        else fail_candidate rd e
      end)
  end.

(** One round of [acquire_connection_for_candidate], openwire/transport/service.rs:399-448. *)
Definition candidate_round (rd : Round) : prog :=
  let a := ra_address (rd_candidate rd) in
  Pool_Acquire a (λ connection has_in_use,
    match connection with
    | None => after_lookup rd has_in_use
    | Some r =>
      Bind_Acquire (cr_id r) (λ result,
        match result with
        | Acquired b => send_bound_request (mkSelected (rd_candidate rd) r b true false)
        | Busy => Query_ (Pool_Release r) (λ _, after_lookup rd true)
        | Stale =>
          teardown_pooled_connection (cr_id r) (Do (Notify (Notice_Address a)) (Query_ (Has_In_Use a) (after_lookup rd)))
        end)
    end).

(** The order in which [acquire_connection] tries the candidates, openwire/transport/service.rs:319-363: the first
    with a usable pooled connection, then the others. *)
Definition candidate_order (preferred : option nat) (l : list ResolvedAddress) : list ResolvedAddress :=
  match preferred with
  | Some i => option_list (l !! i) ++ list_delete i l
  | None => l
  end.

(** [acquire_connection], openwire/transport/service.rs:311-368, as [execute_exchange] calls it. *)
Definition execute_exchange (c : Call) : prog :=
  Pool_Probe (call_addresses c) (λ preferred,
    next_candidate c (candidate_order preferred (call_addresses c))
      (route_exhausted "proxy selection produced no usable address candidates")).

(** The task of [spawn_pool_reaper], openwire/client.rs:1534-1543: it sleeps, and prunes unless the client is gone. *)
Definition reaper_round : prog :=
  Await T_Unit (End Cancelled) (λ _ : unit,
    Ask T_Bool (λ alive : bool, if alive then Do Prune (Again Loop_Reaper) else End Delivered)).

Definition loop_body (l : Loop) : prog :=
  match l with
  | Loop_Candidate rd => candidate_round rd
  | Loop_Reaper => reaper_round
  end.

(** ** What a task holds *)

(** Where the HTTP/1 sender of a connection is, for the task that holds the connection: in the binding, in the
    task, or in neither. *)
Inductive SenderAt : Type := In_Slot | In_Hand | Gone.
#[global] Instance SenderAt_eq_dec : EqDecision SenderAt.
Proof. solve_decision. Defined.

(** A task holds at most one connection at a time: one it allocated an exchange on; [published] says that the
    connection has been put into the pool. *)
Inductive Claim : Type :=
| No_Claim
| Claim_ (r : ConnRef) (published : bool) (s : SenderAt).

Definition claim_on (i : ConnectionId) (c : Claim) : Prop := match c with No_Claim => False | Claim_ r _ _ => cr_id r = i end.
#[global] Instance claim_on_dec i c : Decision (claim_on i c).
Proof. destruct c; simpl; apply _. Defined.

Definition with_sender (s : SenderAt) (c : Claim) : Claim := match c with No_Claim => No_Claim | Claim_ r b _ => Claim_ r b s end.
Definition publish_claim (c : Claim) : Claim := match c with No_Claim => No_Claim | Claim_ r _ s => Claim_ r true s end.
Definition drop_claim_on (i : ConnectionId) (c : Claim) : Claim := if decide (claim_on i c) then No_Claim else c.

(** What a task holds after a critical section. *)
Definition after_op (o : Op) (c : Claim) : Claim :=
  match o with
  | Bind_Insert i _ => if decide (claim_on i c) then with_sender In_Slot c else c
  | Bind_Remove i => if decide (claim_on i c) then with_sender Gone c else c
  | Pool_Insert i => if decide (claim_on i c) then publish_claim c else c
  | Pool_Remove i | Drop_Connection i => drop_claim_on i c
  | _ => c
  end.
Definition after_query (q : Query) (b : bool) (c : Claim) : Claim :=
  match q with
  | Put_Sender i => if decide (claim_on i c) then with_sender (if b then In_Slot else Gone) c else c
  | Pool_Release r => drop_claim_on (cr_id r) c
  | _ => c
  end.
Definition after_bind (result : BindingAcquireResult) (c : Claim) : Claim :=
  match result with
  | Acquired Acquired_Http1 => with_sender In_Hand c
  | Acquired Acquired_Http2 | Busy => c
  | Stale => with_sender Gone c
  end.

(** ** The machine *)

Record Task : Type := mkTask { t_claim : Claim; t_code : prog }.

(** The shared state of [TransportService], openwire/transport/service.rs:181-195, and the tasks over it.  [m_handles] is the
    [ConnectionTaskRegistry] (openwire/transport/bindings.rs:165-173), a handle being the index of a task. *)
Record Machine (P : Type) : Type := mkMachine {
  m_pool : P;
  m_bindings : Bindings;
  m_handles : gmap ConnectionId (option nat);
  m_closed : gset ConnectionId;
  m_notices : list Notice;
  m_next : ConnectionId;
  m_tasks : list Task;
}.
Arguments mkMachine {P}.
Arguments m_pool {P}.
Arguments m_bindings {P}.
Arguments m_handles {P}.
Arguments m_closed {P}.
Arguments m_notices {P}.
Arguments m_next {P}.
Arguments m_tasks {P}.

(** What dropping a future runs: an await point its drop code; a task that is running is not interrupted. *)
Definition drop_future (p : prog) : prog := match p with Await _ d _ => d | _ => p end.
Definition drop_task (t : Task) : Task := mkTask (t_claim t) (drop_future (t_code t)).

Section Machine.
Context {P : Type} `{ConnectionPool P}.

Definition set_pool (p : P) (m : Machine P) : Machine P :=
  mkMachine p (m_bindings m) (m_handles m) (m_closed m) (m_notices m) (m_next m) (m_tasks m).
Definition set_bindings (b : Bindings) (m : Machine P) : Machine P :=
  mkMachine (m_pool m) b (m_handles m) (m_closed m) (m_notices m) (m_next m) (m_tasks m).
Definition set_handles (h : gmap ConnectionId (option nat)) (m : Machine P) : Machine P :=
  mkMachine (m_pool m) (m_bindings m) h (m_closed m) (m_notices m) (m_next m) (m_tasks m).
Definition set_closed (x : gset ConnectionId) (m : Machine P) : Machine P :=
  mkMachine (m_pool m) (m_bindings m) (m_handles m) x (m_notices m) (m_next m) (m_tasks m).
Definition set_next (i : ConnectionId) (m : Machine P) : Machine P :=
  mkMachine (m_pool m) (m_bindings m) (m_handles m) (m_closed m) (m_notices m) i (m_tasks m).
Definition set_tasks (l : list Task) (m : Machine P) : Machine P :=
  mkMachine (m_pool m) (m_bindings m) (m_handles m) (m_closed m) (m_notices m) (m_next m) l.
Definition add_notice (n : Notice) (m : Machine P) : Machine P :=
  mkMachine (m_pool m) (m_bindings m) (m_handles m) (m_closed m) (m_notices m ++ [n]) (m_next m) (m_tasks m).

(** Task [n] goes on with [k], holding [c]. *)
Definition go_on (n : nat) (c : Claim) (k : prog) (m : Machine P) : Machine P :=
  set_tasks (<[n := mkTask c k]> (m_tasks m)) m.

(** A handle is aborted. *)
Definition abort_handle (h : option (option nat)) (m : Machine P) : Machine P :=
  match h with
  | Some (Some n) => set_tasks (alter drop_task n (m_tasks m)) m
  | _ => m
  end.

(** [attach_connection], openwire/transport/bindings.rs:176-181. *)
Definition attach_connection (i : ConnectionId) (handle : nat) (m : Machine P) : Machine P :=
  abort_handle (m_handles m !! i) (set_handles (<[i := Some handle]> (m_handles m)) m).

(** [abort_connection], openwire/transport/bindings.rs:183-189. *)
Definition abort_connection (i : ConnectionId) (m : Machine P) : Machine P :=
  abort_handle (m_handles m !! i) (set_handles (delete i (m_handles m)) m).

(** [complete_connection_weak], openwire/transport/bindings.rs:191-199. *)
Definition complete_connection (i : ConnectionId) (m : Machine P) : Machine P := set_handles (delete i (m_handles m)) m.

(** The eviction hook, run in the task that pruned before it goes on; openwire/transport/service.rs:229-237. *)
Definition run_hook (p p' : P) (k : prog) : prog :=
  foldr teardown_connection k (drop (length (evictions p)) (evictions p')).

(** The state after a critical section and the code the task goes on with. *)
Definition exec_op (now : Instant) (o : Op) (k : prog) (m : Machine P) : Machine P * prog :=
  match o with
  | Bind_Insert i p => (set_bindings (insert_binding i p (m_bindings m)) m, k)
  | Bind_Remove i => (set_bindings (delete i (m_bindings m)) m, k)
  | Pool_Insert i => let p := put_in now (m_pool m) i in (set_pool p m, run_hook (m_pool m) p k)
  | Pool_Remove i => (set_pool (take_out (m_pool m) i) m, k)
  | Mark_Unhealthy i => (set_pool (degrade (m_pool m) i) m, k)
  | Drop_Connection i => (set_pool (deallocate (m_pool m) i) m, k)
  | Attach i h => (attach_connection i h m, k)
  | Abort i => (abort_connection i m, k)
  | Complete i => (complete_connection i m, k)
  | Notify n => (add_notice n m, k)
  | Prune => let p := prune now (m_pool m) in (set_pool p m, run_hook (m_pool m) p k)
  end.

Definition exec_query (now : Instant) (q : Query) (m : Machine P) : Machine P * bool :=
  match q with
  | Sender_Closed i => (m, bool_decide (i ∈ m_closed m))
  | Put_Sender i => let '(b, put) := put_sender i (m_bindings m) in (set_bindings b m, put)
  | Pool_Release r => let '(p, released) := give_back now (m_pool m) (cr_id r) in (set_pool p m, released)
  | Has_In_Use a => let '(p, b) := check_in_use now (m_pool m) a in (set_pool p m, b)
  end.

Definition ref_in (p : P) (r : option ConnectionId) : option ConnRef := i ← r; ref_of i <$> pool_conn p i.
Definition claim_of (r : option ConnRef) : Claim := match r with Some r => Claim_ r true In_Slot | None => No_Claim end.

(** One critical section of task [n]. *)
Definition exec (now : Instant) (n : nat) (t : Task) (m : Machine P) : option (Machine P) :=
  let c := t_claim t in
  match t_code t with
  | End _ | Lost _ _ | Ask _ _ | Await _ _ _ => None
  | Again l => Some (go_on n c (loop_body l) m)
  | Do o k => let '(m', k) := exec_op now o k m in
              (* the tasks of [m'] may have been aborted, task [n] itself is running *)
              Some (go_on n (after_op o c) k m')
  | Query_ q k => let '(m', b) := exec_query now q m in
                  Some (go_on n (after_query q b c) (run_hook (m_pool m) (m_pool m') (k b)) m')
  | Pool_Probe l k => Some (go_on n c (k (position (λ r, check_acquirable (m_pool m) (ra_address r)) l)) m)
  | Pool_Acquire a k =>
    let '(p, r, hint) := take_connection now (m_pool m) a in
    Some (go_on n (claim_of (ref_in p r)) (run_hook (m_pool m) p (k (ref_in p r) hint)) (set_pool p m))
  | Pool_Coalesce a rp k =>
    let '(p, r) := take_coalesced now (m_pool m) a rp in
    Some (go_on n (claim_of (ref_in p r)) (run_hook (m_pool m) p (k (ref_in p r))) (set_pool p m))
  | Bind_Acquire i k =>
    let '(b, result) := binding_acquire (m_closed m) i (m_bindings m) in
    Some (go_on n (after_bind result c) (k result) (set_bindings b m))
  | Create route p names streams k =>
    let i := m_next m in
    let conn := connection_new now route p names streams in
    Some (go_on n (Claim_ (ref_of i conn) false Gone) (k (ref_of i conn))
           (set_pool (allocate (m_pool m) i (try_acquire conn).2) (set_next (S i) m)))
  | Spawn r k =>
    let h := length (m_tasks m) in
    Some (go_on n c (k h) (set_tasks (m_tasks m ++ [mkTask No_Claim (driver_task r)]) m))
  end.

(** What can happen: a call starts, the reaper starts, a task enters its next critical section, an answer or an
    awaited event arrives, a future is dropped, hyper closes a connection. *)
Inductive Move : Type :=
| Start (c : Call)
| Start_Reaper
| Step (now : Instant) (n : nat)
| Answer (n : nat) (t : ty) (a : ans t)
| Cancel (n : nat)
| Hang_Up (i : ConnectionId).

(** The continuation for an answer, if the task asks for one of this type. *)
Definition answered (p : prog) (t : ty) (a : ans t) : option prog :=
  match p with
  | Ask t' k | Await t' _ k => match decide (t = t') with left e => Some (k (eq_rect t ans a t' e)) | right _ => None end
  | _ => None
  end.

Definition move (m : Machine P) (v : Move) : option (Machine P) :=
  match v with
  | Start c => Some (set_tasks (m_tasks m ++ [mkTask No_Claim (execute_exchange c)]) m)
  | Start_Reaper => Some (set_tasks (m_tasks m ++ [mkTask No_Claim reaper_round]) m)
  | Step now n => t ← m_tasks m !! n; exec now n t m
  | Answer n ty a => t ← m_tasks m !! n; k ← answered (t_code t) ty a; Some (go_on n (t_claim t) k m)
  | Cancel n => Some (set_tasks (alter drop_task n (m_tasks m)) m)
  | Hang_Up i => Some (set_closed ({[i]} ∪ m_closed m) m)
  end.

Fixpoint run (m : Machine P) (vs : list Move) : option (Machine P) :=
  match vs with
  | [] => Some m
  | v :: vs => m ← move m v; run m vs
  end.

(** [TransportService::new], openwire/transport/service.rs:209-251. *)
Definition transport_new : Machine P := mkMachine empty_pool ∅ ∅ ∅ [] 0%nat [].

Definition reachable (m : Machine P) : Prop := ∃ vs, run transport_new vs = Some m.
End Machine.
