(* ===== verification/TransportSafety.v ===== *)
(** * The claims of exchanges on connections

    The tasks of Transport.v follow a discipline: a task allocates on a connection, checks its sender out of the
    binding, puts the sender back before it releases the allocation, and never ends while it holds one, except
    where [send_bound_request] is dropped or cannot prepare its request.  [disciplined] states this of a program; the programs of
    the transport have it, and [core], the invariant of the shared state, holds under every interleaving of
    disciplined tasks.  The theorems follow: allocations are counted exactly, HTTP/1 senders are exclusive, and an
    exchange that ends gives its connection back - with the one exception named above, which is a leak. *)

From S2P Require Import Prelude Net Error Planning RealConnection Pool ExchangeFinder TransportPool Outgoing ObservedBody Transport.

(** ** Counting claims *)

Definition holders (i : ConnectionId) (cs : list Claim) : Z := len (filter (claim_on i) cs).
Definition holds (i : ConnectionId) (c : Claim) : Z := if decide (claim_on i c) then 1 else 0.

Lemma holders_app i cs ds : holders i (cs ++ ds) = holders i cs + holders i ds.
Proof. unfold holders. by rewrite filter_app, len_app. Qed.

Lemma holders_cons i c cs : holders i (c :: cs) = holds i c + holders i cs.
Proof. unfold holders, holds. rewrite filter_cons. case_decide; [by rewrite len_cons|done]. Qed.

Lemma holders_nonneg i cs : 0 ≤ holders i cs.
Proof. apply len_nonneg. Qed.

Lemma holders_insert i n c c' cs :
  cs !! n = Some c → holders i (<[n := c']> cs) = holders i cs - holds i c + holds i c'.
Proof.
  intros Hn. rewrite insert_take_drop by (by eapply lookup_lt_Some).
  rewrite <-(take_drop_middle cs n c Hn) at 3. rewrite !holders_app, !holders_cons. lia.
Qed.

Lemma holders_pos i n c cs : cs !! n = Some c → claim_on i c → 1 ≤ holders i cs.
Proof.
  intros Hn Hc. rewrite <-(take_drop_middle cs n c Hn), holders_app, holders_cons. unfold holds.
  rewrite decide_True by done. pose proof (holders_nonneg i (take n cs)). pose proof (holders_nonneg i (drop (S n) cs)). lia.
Qed.

(** When one task at most can hold [i], the one that does is the only one. *)
Lemma holder_unique i n m c d cs :
  holders i cs ≤ 1 → cs !! n = Some c → claim_on i c → cs !! m = Some d → claim_on i d → m = n.
Proof.
  intros Hle Hn Hc Hm Hd. destruct (decide (m = n)) as [|Hne]; [done|exfalso].
  assert (Hm' : <[n := No_Claim]> cs !! m = Some d) by (by rewrite list_lookup_insert_ne).
  pose proof (holders_pos i m d _ Hm' Hd) as Hp. rewrite (holders_insert i n c) in Hp by done.
  unfold holds in Hp. rewrite decide_True in Hp by done. simpl in Hp. lia.
Qed.

Lemma holders_zero i cs : (∀ c, c ∈ cs → ¬ claim_on i c) → holders i cs = 0.
Proof. intros Hn. unfold holders. by rewrite filter_nil_all. Qed.

(** ** Connections and their counts *)

Definition open (c : RealConnection) : Prop := health (conn_state c) ≠ Closed.

(** A connection that is open carries exactly [n] exchanges; a closed one is held by no more than it may carry. *)
Definition accounted (c : RealConnection) (n : Z) : Prop :=
  0 ≤ n ≤ stream_limit c ∧ (open c → allocations (conn_state c) = n).

Lemma accounted_close c n : accounted c n → accounted (close c) n.
Proof. intros [Hn _]. split; [by destruct c|]. intros Ho. by destruct Ho. Qed.

Lemma accounted_acquire c n : accounted c n → can_acquire c = true → conn_ok c → accounted (try_acquire c).2 (n + 1).
Proof.
  intros [Hn Ha] Hc Hok. unfold try_acquire. pose proof Hc as Hc'. rewrite Hc. simpl.
  apply can_acquire_iff in Hc' as [Hh Hlt]; [|done]. unfold accounted, open in *. simpl.
  rewrite Hh in Ha. specialize (Ha ltac:(done)). split; [|intros; lia]. unfold stream_limit in *. simpl. lia.
Qed.

Lemma accounted_release now c n : accounted c n → 1 ≤ n → accounted (conn_release now c).2 (n - 1).
Proof.
  intros [Hn Ha] H1. unfold conn_release. case_bool_decide as Hh; simpl.
  - split; [lia|]. intros Ho. by destruct Ho.
  - specialize (Ha Hh). destruct (Z.eqb_spec (allocations (conn_state c)) 0); [lia|]. simpl.
    split; [unfold stream_limit in *; simpl; lia|]. simpl. lia.
Qed.

Lemma accounted_mark c n : accounted c n → accounted (mark_unhealthy c) n.
Proof.
  intros [Hn Ha]. unfold mark_unhealthy. case_bool_decide; [by split|]. split; [done|]. by intros _; apply Ha.
Qed.

Lemma accounted_in_use c n : accounted c n → open c → n ≠ 0 → in_use c.
Proof. intros [_ Ha] Ho Hn. apply in_use_iff. split; [done|]. by rewrite (Ha Ho). Qed.

Lemma accounted_shrink c n : accounted c n → ¬ open c → 1 ≤ n → accounted c (n - 1).
Proof. intros [Hn _] Hc H1. split; [lia|done]. Qed.

Lemma release_true now c n : accounted c n → 1 ≤ n → open c → (conn_release now c).1 = true.
Proof.
  intros [_ Ha] H1 Ho. unfold conn_release. rewrite bool_decide_eq_false_2 by done. simpl.
  destruct (Z.eqb_spec (allocations (conn_state c)) 0); [|done]. specialize (Ha Ho). lia.
Qed.

(** What no operation on a connection changes: its protocol, and that it is closed. *)
Definition steady (f : RealConnection → RealConnection) : Prop :=
  ∀ c, protocol (f c) = protocol c ∧ (¬ open c → ¬ open (f c)).

Lemma steady_acquire : steady (snd ∘ try_acquire).
Proof. intros c. unfold try_acquire. simpl. destruct (can_acquire c); by simpl. Qed.
Lemma steady_release now : steady (snd ∘ conn_release now).
Proof. intros c. unfold conn_release. simpl. destruct (_ || _); by simpl. Qed.
Lemma steady_mark : steady mark_unhealthy.
Proof.
  intros c. unfold mark_unhealthy. case_bool_decide as Hh; [done|]. split; [done|]. intros Ho. by destruct Ho.
Qed.
Lemma steady_at i f j : steady f → steady (at_conn i f j).
Proof. intros Hf c. unfold at_conn. case_decide; [apply Hf|done]. Qed.
Lemma steady_unchanged j : steady (unchanged j).
Proof. by intros c. Qed.

#[export] Hint Resolve accounted_close accounted_mark steady_acquire steady_release steady_mark steady_at steady_unchanged : ow.

Section Safety.
Context {P : Type} `{ConnectionPoolLaws P}.
#[local] Set Default Proof Using "Type*".

(** ** Effects of the pool *)

(** What every operation of the pool preserves of the other connections. *)
Record shift (p p' : P) : Prop := mkShift {
  sh_none : ∀ j, pool_conn p j = None → pool_conn p' j = None;
  sh_some : ∀ j x, pool_conn p j = Some x →
    ∃ x', pool_conn p' j = Some x' ∧ protocol x' = protocol x ∧ (¬ open x → ¬ open x') ∧
          (pool_has p j → pool_has p' j ∨ ¬ open x');
}.

Lemma effect_shift f p p' : (∀ j, steady (f j)) → effect f p p' → shift p p'.
Proof.
  intros Hf [Hc _]. constructor.
  - intros j Hj. destruct (Hc j) as [[-> _]|[-> _]]; by rewrite Hj.
  - intros j x Hj. destruct (Hf j x) as [Hp Ho]. destruct (Hc j) as [[-> Hh]|[-> _]]; rewrite Hj; simpl; eexists; (split; [done|]).
    + split_and!; [done|done|]. intros ?. left. by apply Hh.
    + split_and!; [by destruct (f j x)|intros _ E; by destruct E|]. intros _. right. intros E. by destruct E.
Qed.

Lemma effect_accounted f p p' N N' :
  effect f p p' → (∀ j x, pool_conn p j = Some x → accounted x (N j)) →
  (∀ j x, pool_conn p j = Some x → accounted x (N j) → accounted (f j x) (N' j)) →
  ∀ j x', pool_conn p' j = Some x' → accounted x' (N' j).
Proof.
  intros [Hc _] HN Hf j x' Hx'. destruct (Hc j) as [[E _]|[E _]]; rewrite E in Hx';
    destruct (pool_conn p j) as [x|] eqn:Ex; simplify_eq/=; eauto with ow.
Qed.

(** A connection that carries an exchange survives the effect on the others. *)
Lemma effect_in_use f p p' j x :
  effect f p p' → pool_conn p j = Some x → f j x = x → in_use x → pool_conn p' j = Some x.
Proof.
  intros [Hc _] Hx Hf Hu. destruct (Hc j) as [[-> _]|[_ Hn]]; [rewrite Hx; simpl; by rewrite Hf|].
  exfalso. apply (Hn x Hx). by rewrite Hf.
Qed.

(** ** The invariant *)

Definition sender_ok (s : SenderAt) (pr : ConnectionProtocol) (b : option ConnectionBinding) : Prop :=
  match s with
  | In_Slot => b ≠ Some (Binding_Http1 false)
  | In_Hand => pr = Http1 ∧ (b = None ∨ b = Some (Binding_Http1 false))
  | Gone => b = None
  end.

(** The claim [Claim_ r published s] is right about the connection and its binding. *)
Record claim_ok (p : P) (b : gmap ConnectionId ConnectionBinding) (cs : list Claim) (r : ConnRef) (published : bool) (s : SenderAt) : Prop := mkClaimOk {
  ck_conn : ∃ x, pool_conn p (cr_id r) = Some x ∧ protocol x = cr_protocol r ∧
    (if published then pool_has p (cr_id r) ∨ ¬ open x else ¬ pool_has p (cr_id r) ∧ open x);
  ck_own : published = false → holders (cr_id r) cs = 1;
  ck_sender : sender_ok s (cr_protocol r) (b !! cr_id r);
}.

Record core (p : P) (b : gmap ConnectionId ConnectionBinding) (next : ConnectionId) (cs : list Claim) : Prop := mkCore {
  co_wf : well_formed p;
  co_next : ∀ i x, pool_conn p i = Some x → (i < next)%nat;
  co_acc : ∀ i x, pool_conn p i = Some x → accounted x (holders i cs);
  co_kind : ∀ i y, b !! i = Some y → ∃ x, pool_conn p i = Some x ∧ protocol x = match y with Binding_Http1 _ => Http1 | Binding_Http2 => Http2 end;
  co_slot : ∀ i, b !! i = Some (Binding_Http1 false) → ∃ n r published, cs !! n = Some (Claim_ r published In_Hand) ∧ cr_id r = i;
  co_claim : ∀ n r published s, cs !! n = Some (Claim_ r published s) → claim_ok p b cs r published s;
}.

(** A change of the pool by task [n], whose claim goes from [c] to [c']. *)
Lemma core_shift p p' b next cs n c c' :
  core p b next cs → cs !! n = Some c → well_formed p' → shift p p' →
  (∀ j x', pool_conn p' j = Some x' → accounted x' (holders j (<[n := c']> cs))) →
  (∀ m r s, m ≠ n → cs !! m = Some (Claim_ r false s) →
     holders (cr_id r) (<[n := c']> cs) = 1 ∧ ¬ pool_has p' (cr_id r) ∧ pool_conn p' (cr_id r) = pool_conn p (cr_id r)) →
  (∀ r q, c = Claim_ r q In_Hand → ∃ q', c' = Claim_ r q' In_Hand) →
  (∀ r q s, c' = Claim_ r q s → claim_ok p' b (<[n := c']> cs) r q s) →
  core p' b next (<[n := c']> cs).
Proof.
  intros Hco Hn Hwf [Hnone Hsome] Hacc Hfresh Hhand Hc'. constructor; [done| |done| | |].
  - intros i x' Hx'. destruct (pool_conn p i) as [x|] eqn:E; [by eapply (co_next _ _ _ _ Hco)|].
    rewrite Hnone in Hx' by done. done.
  - intros i y Hy. destruct (co_kind _ _ _ _ Hco i y Hy) as (x & Hx & Hp). destruct (Hsome i x Hx) as (x' & Hx' & Hp' & _).
    exists x'. by rewrite Hp'.
  - intros i Hi. destruct (co_slot _ _ _ _ Hco i Hi) as (m & r & q & Hm & <-).
    destruct (decide (m = n)) as [->|Hne].
    + rewrite Hn in Hm. injection Hm as ->. destruct (Hhand r q eq_refl) as [q' ->]. exists n, r, q'.
      by rewrite list_lookup_insert_eq by (by eapply lookup_lt_Some).
    + exists m, r, q. by rewrite list_lookup_insert_ne.
  - intros m r q s Hm. destruct (decide (m = n)) as [->|Hne].
    + rewrite list_lookup_insert_eq in Hm by (by eapply lookup_lt_Some). injection Hm as Hm. by apply Hc'.
    + rewrite list_lookup_insert_ne in Hm by done. destruct (co_claim _ _ _ _ Hco m r q s Hm) as [(x & Hx & Hp & Hq) Ho Hs].
      destruct (Hsome _ x Hx) as (x' & Hx' & Hp' & Hcl & Hh). constructor; [|intros ->; by eapply Hfresh|done].
      exists x'. split_and!; [done|by rewrite Hp'|]. destruct q.
      * destruct Hq as [Hq|Hq]; [by apply Hh|right; by apply Hcl].
      * destruct (Hfresh m r s Hne Hm) as (_ & Hnh & Heq). split; [done|]. rewrite Hx, Hx' in Heq. injection Heq as ->. apply Hq.
Qed.

(** An unpublished connection of another task is untouched by an effect elsewhere. *)
Lemma fresh_kept f p p' b next cs n c c' m r s :
  core p b next cs → cs !! n = Some c → effect f p p' →
  m ≠ n → cs !! m = Some (Claim_ r false s) → (∀ x, f (cr_id r) x = x) → ¬ claim_on (cr_id r) c' →
  holders (cr_id r) (<[n := c']> cs) = 1 ∧ ¬ pool_has p' (cr_id r) ∧ pool_conn p' (cr_id r) = pool_conn p (cr_id r).
Proof.
  intros Hco Hn He Hne Hm Hf Hc'. destruct (co_claim _ _ _ _ Hco m r false s Hm) as [(x & Hx & Hp & Hnh & Ho) Hown _].
  specialize (Hown eq_refl). split_and!.
  - rewrite (holders_insert _ n c) by done. unfold holds. rewrite (decide_False (P := claim_on _ c')) by done.
    rewrite decide_False; [lia|]. intros Hc. apply Hne.
    eapply (holder_unique (cr_id r) n m c _ cs); [lia|done|done|done|done].
  - intros Hh. by apply Hnh, (ef_has _ _ _ He).
  - rewrite (effect_in_use f p p' (cr_id r) x); [done|done|done|apply Hf|].
    eapply accounted_in_use; [by eapply (co_acc _ _ _ _ Hco)|done|lia].
Qed.

(** Operations that touch no claim: probing, pruning, marking a connection unhealthy. *)
Lemma core_quiet f p p' b next cs :
  core p b next cs → well_formed p' → effect f p p' →
  (∀ j, steady (f j)) → (∀ j x n, accounted x n → accounted (f j x) n) →
  (∀ j x, in_use x → open (f j x) ∧ in_use (f j x)) →
  core p' b next cs.
Proof.
  intros Hco Hwf He Hst Hacc Hop. pose proof (effect_shift f p p' Hst He) as [Hnone Hsome]. constructor; [done| | | |apply Hco|].
  - intros i x' Hx'. destruct (pool_conn p i) as [x|] eqn:E; [by eapply (co_next _ _ _ _ Hco)|].
    rewrite Hnone in Hx' by done. done.
  - eapply effect_accounted; [done|apply (co_acc _ _ _ _ Hco)|]. intros. by apply Hacc.
  - intros i y Hy. destruct (co_kind _ _ _ _ Hco i y Hy) as (x & Hx & Hp). destruct (Hsome i x Hx) as (x' & Hx' & Hp' & _).
    exists x'. by rewrite Hp'.
  - intros m r q s Hm. destruct (co_claim _ _ _ _ Hco m r q s Hm) as [(x & Hx & Hp & Hq) Ho Hs].
    destruct (Hsome _ x Hx) as (x' & Hx' & Hp' & Hcl & Hh). constructor; [|done|done].
    exists x'. split_and!; [done|by rewrite Hp'|]. destruct q; [destruct Hq as [Hq|Hq]; [by apply Hh|right; by apply Hcl]|].
    destruct Hq as [Hnh Hopen]. split; [intros Hh'; by apply Hnh, (ef_has _ _ _ He)|].
    assert (Hu : in_use x) by (eapply accounted_in_use; [by eapply (co_acc _ _ _ _ Hco)|done|rewrite Ho; lia]).
    destruct (Hop (cr_id r) x Hu) as [Hof Huf]. destruct (ef_conn _ _ _ He (cr_id r)) as [[E _]|[_ Hn]].
    + rewrite E, Hx in Hx'. by simplify_eq/=.
    + by destruct (Hn x Hx).
Qed.

(** A connection just allocated on is not evicted. *)
Lemma taken_open p p' i x0 x :
  conn_ok x0 → pool_conn p i = Some x0 → can_acquire x0 = true → effect (at_conn i (snd ∘ try_acquire)) p p' →
  pool_conn p' i = Some x → open x.
Proof.
  intros Hok Hx0 Hca He Hx. pose proof Hca as Hca'. apply can_acquire_iff in Hca' as [Hh Hlt]; [|done].
  assert (Hop : open (try_acquire x0).2) by (unfold try_acquire, open; rewrite Hca; simpl; by rewrite Hh).
  destruct (ef_conn _ _ _ He i) as [[E _]|[_ E]].
  - rewrite E, Hx0 in Hx. simplify_eq/=. unfold at_conn. by rewrite decide_True.
  - destruct (E x0 Hx0). unfold at_conn. rewrite decide_True by done. apply in_use_iff. split; [done|].
    simpl. unfold try_acquire. rewrite Hca. simpl. destruct (ok_allocations _ Hok). lia.
Qed.

(** Allocating on a pooled connection. *)
Lemma core_take p p' b next cs n i x0 :
  core p b next cs → cs !! n = Some No_Claim → well_formed p' → pool_has p i →
  pool_conn p i = Some x0 → can_acquire x0 = true → effect (at_conn i (snd ∘ try_acquire)) p p' →
  ∃ x, pool_conn p' i = Some x ∧ open x ∧ core p' b next (<[n := Claim_ (ref_of i x) true In_Slot]> cs).
Proof.
  intros Hco Hn Hwf Hi Hx0 Hca He.
  assert (Hsh : shift p p') by (eapply effect_shift; [|done]; eauto with ow).
  destruct (sh_some _ _ Hsh i x0 Hx0) as (x & Hx & Hp & Hcl & Hh). exists x. split; [done|].
  assert (Hop : open x0) by (destruct (wf_has p i (co_wf _ _ _ _ Hco) Hi) as (y & Hy & Ho); congruence).
  pose proof (co_acc _ _ _ _ Hco i x0 Hx0) as Hacc0. pose proof (wf_conn p i x0 (co_wf _ _ _ _ Hco) Hx0) as Hok.
  split; [by apply (taken_open p p' i x0 x)|].
  eapply core_shift; try done.
  - eapply effect_accounted; [done|apply (co_acc _ _ _ _ Hco)|]. intros j y Hy Hay. unfold at_conn.
    rewrite (holders_insert j n No_Claim) by done. unfold holds. simpl. case_decide as Hji.
    + subst j. rewrite decide_True by done. rewrite Hx0 in Hy. injection Hy as <-. simpl.
      replace (_ - 0 + 1) with (holders i cs + 1) by lia. by apply accounted_acquire.
    + rewrite decide_False by done. by replace (_ - 0 + 0) with (holders j cs) by lia.
  - intros m r s Hne Hm. destruct (co_claim _ _ _ _ Hco m r false s Hm) as [(y & Hy & _ & Hnh & _) _ _].
    assert (cr_id r ≠ i) by (intros <-; done).
    eapply fresh_kept; try done; [intros z; unfold at_conn; by rewrite decide_False|]. simpl. congruence.
  - intros r q s [= <- <- <-]. simpl. constructor; simpl; [|done|].
    + exists x. split_and!; [done|done|]. destruct (Hh Hi); [by left|by right].
    + intros Hb. destruct (co_slot _ _ _ _ Hco i Hb) as (m & r & q & Hm & Hr).
      destruct (co_kind _ _ _ _ Hco i _ Hb) as (y & Hy & Hpy). rewrite Hx0 in Hy. injection Hy as <-.
      pose proof (holders_pos i m _ cs Hm Hr). apply can_acquire_iff in Hca as [_ Hlt]; [|done].
      destruct Hacc0 as [_ Ha]. rewrite (Ha Hop) in Hlt. unfold stream_limit in Hlt. rewrite Hpy in Hlt. lia.
Qed.

(** Giving an allocation back. *)
Lemma core_release p p' b next cs n r s now released :
  core p b next cs → cs !! n = Some (Claim_ r true s) → s ≠ In_Hand → give_back now p (cr_id r) = (p', released) →
  core p' b next (<[n := No_Claim]> cs).
Proof.
  intros Hco Hn Hs E. destruct (give_back_law p now (cr_id r) p' released (co_wf _ _ _ _ Hco) E) as (Hwf & He & _).
  eapply core_shift; try done.
  - eapply effect_shift; [|done]. eauto with ow.
  - eapply effect_accounted; [done|apply (co_acc _ _ _ _ Hco)|]. intros j y Hy Hay. unfold at_conn.
    rewrite (holders_insert j n _ No_Claim cs Hn). unfold holds. simpl. case_decide as Hji.
    + subst j. rewrite decide_True by done. replace (_ - 1 + 0) with (holders (cr_id r) cs - 1) by lia.
      apply accounted_release; [done|]. by eapply holders_pos.
    + rewrite decide_False by congruence. by replace (_ - 0 + 0) with (holders j cs) by lia.
  - intros m r' s' Hne Hm. eapply fresh_kept; try done; [|intros []]. intros z. unfold at_conn. rewrite decide_False; [done|].
    intros Hrr. pose proof (ck_own _ _ _ _ _ _ (co_claim _ _ _ _ Hco m r' false s' Hm) eq_refl) as Hown.
    apply Hne. eapply (holder_unique (cr_id r') n m (Claim_ r true s) _ cs); [lia|done|by simpl|done|done].
  - intros r' q Heq. by injection Heq as _ _ ->.
Qed.

(** Taking a connection out of the pool closes it, whoever uses it, and leaves the others alone. *)
Lemma take_out_stays p i j :
  well_formed p →
  pool_conn (take_out p i) j = pool_conn p j ∨
  (j = i ∧ pool_has p i ∧ pool_conn (take_out p i) j = close <$> pool_conn p j).
Proof.
  intros Hwf. destruct (take_out_law p i Hwf) as (_ & _ & _ & [[Hin Hcj]|[_ Hcj]]); rewrite Hcj; [|by left].
  unfold at_conn. destruct (decide (j = i)); [right|left]; destruct (pool_conn p j); done.
Qed.

Lemma take_out_closed p i x' :
  well_formed p → pool_has p i ∨ (∀ x, pool_conn p i = Some x → ¬ open x) → pool_conn (take_out p i) i = Some x' → ¬ open x'.
Proof.
  intros Hwf Hx Hx'. destruct (take_out_law p i Hwf) as (_ & _ & _ & [[_ Hcj]|[Hn Hcj]]); rewrite Hcj in Hx'.
  - unfold at_conn in Hx'. destruct (pool_conn p i); simplify_eq/=. rewrite decide_True by done. intros Ho. by destruct Ho.
  - destruct Hx as [|Hx]; [done|]. by apply Hx.
Qed.

Lemma take_out_shift p i : well_formed p → shift p (take_out p i).
Proof.
  intros Hwf. destruct (take_out_law p i Hwf) as (_ & _ & Hhas & _). constructor.
  - intros j Hj. destruct (take_out_stays p i j Hwf) as [->|(_ & _ & ->)]; by rewrite Hj.
  - intros j x Hx. destruct (take_out_stays p i j Hwf) as [E|(-> & Hin & E)]; rewrite E, Hx; simpl; eexists; (split; [done|]).
    + split_and!; [done|done|]. intros Hh. destruct (decide (j = i)) as [->|]; [|left; by apply Hhas].
      right. apply (take_out_closed p i x); [done|by left|]. by rewrite E.
    + split_and!; [by destruct x|intros _ Ho; by destruct Ho|]. intros _. right. intros Ho. by destruct Ho.
Qed.

Lemma core_remove p b next cs n c i :
  core p b next cs → cs !! n = Some c → (∀ r q s, c = Claim_ r q s → cr_id r = i → q = true ∧ s ≠ In_Hand) →
  core (take_out p i) b next (<[n := drop_claim_on i c]> cs).
Proof.
  intros Hco Hn Hc. pose proof (co_wf _ _ _ _ Hco) as Hwf0. destruct (take_out_law p i Hwf0) as (Hwf & Hni & Hhas & _).
  pose proof (λ j, take_out_stays p i j Hwf0) as Hstays.
  eapply core_shift; try done.
  - by apply take_out_shift.
  - intros j x' Hx'. rewrite (holders_insert j n c) by done. unfold drop_claim_on, holds.
    assert (Hsame : accounted x' (holders j cs)).
    { destruct (Hstays j) as [E|(_ & _ & E)]; rewrite E in Hx'; [by eapply (co_acc _ _ _ _ Hco)|].
      destruct (pool_conn p j) as [x|] eqn:Ex; simplify_eq/=. apply accounted_close. by eapply (co_acc _ _ _ _ Hco). }
    destruct (decide (claim_on i c)) as [Hon|Hoff]; [|by replace (_ - _ + _) with (holders j cs) by lia].
    destruct (decide (claim_on j c)) as [Hj|Hj]; simpl; [|by replace (_ - _ + _) with (holders j cs) by lia].
    replace (holders j cs - 1 + 0) with (holders j cs - 1) by lia.
    assert (j = i) as -> by (destruct c; [done|]; simpl in *; congruence).
    apply accounted_shrink; [done| |by eapply holders_pos]. apply (take_out_closed p i x'); [done| |done].
    destruct c as [|r q s]; [done|]. simpl in Hon. destruct (Hc r q s eq_refl Hon) as [-> _].
    destruct (ck_conn _ _ _ _ _ _ (co_claim _ _ _ _ Hco n r true s Hn)) as (x & Hx & _ & [Hq|Hq]); subst i; [by left|].
    right. intros y Hy. rewrite Hx in Hy. by injection Hy as <-.
  - intros m r s Hne Hm. destruct (co_claim _ _ _ _ Hco m r false s Hm) as [(x & Hx & _ & Hnh & Ho) Hown _].
    specialize (Hown eq_refl). split_and!.
    + rewrite (holders_insert _ n c) by done. assert (¬ claim_on (cr_id r) c) as Hnc.
      { intros Hc'. apply Hne. eapply (holder_unique (cr_id r) n m c _ cs); [lia|done|done|done|done]. }
      unfold holds, drop_claim_on. rewrite (decide_False (P := claim_on (cr_id r) c)) by done.
      destruct (decide (claim_on i c)); simpl; [lia|]. rewrite decide_False by done. lia.
    + rewrite Hhas. tauto.
    + destruct (Hstays (cr_id r)) as [E|(E1 & E2 & _)]; [done|]. by rewrite E1 in Hnh.
  - intros r q ->. unfold drop_claim_on. rewrite decide_False; [by eexists|]. simpl. intros Hi.
    by destruct (Hc r q In_Hand eq_refl Hi).
  - intros r q s Hd. unfold drop_claim_on in Hd. destruct (decide (claim_on i c)) as [|Hoff]; [done|]. subst c. simpl in Hoff.
    destruct (co_claim _ _ _ _ Hco n r q s Hn) as [(x & Hx & Hp & Hq) Hown Hs]. constructor; [| |done].
    + destruct (Hstays (cr_id r)) as [E|(E1 & _)]; [|done]. exists x. rewrite E. split_and!; [done|done|].
      destruct q; [destruct Hq; [left; by apply Hhas|by right]|]. rewrite Hhas. tauto.
    + intros Hq'. rewrite (holders_insert _ n (Claim_ r q s)) by done. rewrite (Hown Hq').
      unfold drop_claim_on. rewrite decide_False by done. lia.
Qed.

(** Publishing a new connection. *)
Lemma core_publish p b next cs n r s now :
  core p b next cs → cs !! n = Some (Claim_ r false s) →
  core (put_in now p (cr_id r)) b next (<[n := Claim_ r true s]> cs) ∧
  (∃ l, hooked p (put_in now p (cr_id r)) l) ∧ (∀ x, pool_conn (put_in now p (cr_id r)) (cr_id r) = Some x → open x).
Proof.
  intros Hco Hn. destruct (co_claim _ _ _ _ Hco n r false s Hn) as [(x & Hx & Hp & Hnh & Ho) Hown Hs]. specialize (Hown eq_refl).
  destruct (put_in_law p now (cr_id r) x (co_wf _ _ _ _ Hco) Hx Ho Hnh) as (Hwf & Hhas & Hcase & Hhook).
  assert (Hh : ∀ j, holders j (<[n := Claim_ r true s]> cs) = holders j cs).
  { intros j. rewrite (holders_insert j n (Claim_ r false s)) by done. unfold holds. simpl. lia. }
  assert (Hkept : ∀ r' s' m, cs !! m = Some (Claim_ r' false s') →
    pool_conn (put_in now p (cr_id r)) (cr_id r') = pool_conn p (cr_id r') ∧ (cr_id r' = cr_id r → pool_has (put_in now p (cr_id r)) (cr_id r'))).
  { intros r' s' m Hm. destruct (Hcase (cr_id r')) as [[E1 E2]|[_ E]]; [split; [done|]; intros; apply E2; by right|].
    destruct (co_claim _ _ _ _ Hco m r' false s' Hm) as [(y & Hy & _ & _ & Hoy) Hown' _]. destruct (E y Hy).
    eapply accounted_in_use; [by eapply (co_acc _ _ _ _ Hco)|done|]. rewrite Hown'; [lia|done]. }
  split; [|split; [done|]]. 2: { intros z Hz. destruct (Hkept r s n Hn) as [E _]. rewrite E, Hx in Hz. by injection Hz as <-. }
  eapply core_shift; try done.
  - constructor.
    + intros j Hj. destruct (Hcase j) as [[-> _]|[-> _]]; by rewrite Hj.
    + intros j y Hy. destruct (Hcase j) as [[-> E]|[-> _]]; rewrite Hy; simpl; eexists; (split; [done|]).
      * split_and!; [done|done|]. intros. left. apply E. by left.
      * split_and!; [by destruct y|intros _ E; by destruct E|]. intros _. right. intros E. by destruct E.
  - intros j x' Hx'. rewrite Hh. destruct (Hcase j) as [[E _]|[E _]]; rewrite E in Hx'; [by eapply (co_acc _ _ _ _ Hco)|].
    destruct (pool_conn p j) as [y|] eqn:Ey; simplify_eq/=. apply accounted_close. by eapply (co_acc _ _ _ _ Hco).
  - intros m r' s' Hne Hm. destruct (co_claim _ _ _ _ Hco m r' false s' Hm) as [(y & Hy & _ & Hnh' & _) Hown' _].
    split_and!; [rewrite Hh; by apply Hown'| |by eapply Hkept]. intros Hin. destruct (Hhas _ Hin) as [?|Heq]; [done|].
    apply Hne. eapply (holder_unique (cr_id r) n m _ _ cs); [lia|done|done|done|by simpl].
  - intros r' q Heq. injection Heq as <- <- ->. by eexists.
  - intros r' q s' Heq. injection Heq as <- <- <-. destruct (Hkept r s n Hn) as [E Hin]. constructor; [|done|done].
    exists x. rewrite E. split_and!; [done|done|]. left. by apply Hin.
Qed.

(** The connection a task has just created is its own. *)
Lemma core_create p b next cs n now route pr names streams :
  core p b next cs → cs !! n = Some No_Claim →
  let x := connection_new now route pr names streams in
  core (allocate p next (try_acquire x).2) b (S next) (<[n := Claim_ (ref_of next x) false Gone]> cs).
Proof.
  intros Hco Hn x. assert (Hnew : pool_conn p next = None).
  { destruct (pool_conn p next) as [y|] eqn:E; [|done]. apply (co_next _ _ _ _ Hco) in E. lia. }
  assert (Hx : conn_ok (try_acquire x).2) by (apply try_acquire_ok, connection_new_ok).
  destruct (allocate_law p next _ (co_wf _ _ _ _ Hco) Hnew Hx) as (Hwf & Hconn & Hhas).
  assert (Hnone : ∀ m c, cs !! m = Some c → ¬ claim_on next c).
  { intros m [|r q s] Hm; simpl; [tauto|]. intros Hr. destruct (ck_conn _ _ _ _ _ _ (co_claim _ _ _ _ Hco m r q s Hm)) as (y & Hy & _). congruence. }
  assert (Hb : b !! next = None).
  { destruct (b !! next) as [y|] eqn:E; [|done]. destruct (co_kind _ _ _ _ Hco next y E) as (z & Hz & _). congruence. }
  assert (Hx1 : accounted (try_acquire x).2 1 ∧ open (try_acquire x).2 ∧ protocol (try_acquire x).2 = protocol x).
  { assert (can_acquire x = true) as E by (unfold can_acquire, x; destruct pr; simpl; [done|]; destruct (Z.leb_spec (Z.max streams 1) 0); [lia|done]).
    unfold try_acquire. rewrite E. simpl. split_and!; [|done|done]. split; [|done]. unfold stream_limit; destruct pr; simpl; lia. }
  destruct Hx1 as (Hacc & Hop & Hpr). clearbody x.
  assert (Hh : ∀ j, holders j (<[n := Claim_ (ref_of next x) false Gone]> cs) = if decide (j = next) then 1 else holders j cs).
  { intros j. rewrite (holders_insert j n No_Claim) by done. unfold holds. simpl. case_decide as E; subst.
    - rewrite decide_True by done. rewrite (holders_zero _ cs); [lia|]. intros c [m Hm]%list_elem_of_lookup. by apply (Hnone m).
    - rewrite decide_False by done. lia. }
  constructor; [done| | | | |].
  - intros i y. rewrite Hconn. case_decide; [lia|]. intros Hy. apply (co_next _ _ _ _ Hco) in Hy. lia.
  - intros i y. rewrite Hconn, Hh. case_decide; [by intros [= <-]|apply (co_acc _ _ _ _ Hco)].
  - intros i y Hy. destruct (co_kind _ _ _ _ Hco i y Hy) as (z & Hz & ?). exists z. rewrite Hconn, decide_False; [done|]. intros ->. congruence.
  - intros i Hi. destruct (co_slot _ _ _ _ Hco i Hi) as (m & r & q & Hm & Hr). exists m, r, q. split; [|done].
    rewrite list_lookup_insert_ne; [done|]. intros ->. congruence.
  - intros m r q s Hm. destruct (decide (m = n)) as [->|Hne].
    + rewrite list_lookup_insert_eq in Hm by (by eapply lookup_lt_Some). injection Hm as <- <- <-. simpl. constructor; simpl.
      * exists (try_acquire x).2. rewrite Hconn, decide_True by done. split_and!; [done|by rewrite Hpr|rewrite Hhas|done].
        intros Hin. destruct (wf_has p next (co_wf _ _ _ _ Hco) Hin) as (z & Hz & _). congruence.
      * intros _. by rewrite Hh, decide_True.
      * done.
    + rewrite list_lookup_insert_ne in Hm by done. destruct (co_claim _ _ _ _ Hco m r q s Hm) as [(y & Hy & Hp & Hq) Hown Hs].
      assert (cr_id r ≠ next) by (intros E; by apply (Hnone m _ Hm)). constructor; [|intros E; rewrite Hh, decide_False by done; by apply Hown|done].
      exists y. rewrite Hconn, decide_False by done. split_and!; [done|done|]. destruct q; rewrite Hhas; done.
Qed.

(** A connection that was never published goes away with the last reference. *)
Lemma core_deallocate p b next cs n r :
  core p b next cs → cs !! n = Some (Claim_ r false Gone) → core (deallocate p (cr_id r)) b next (<[n := No_Claim]> cs).
Proof.
  intros Hco Hn. destruct (co_claim _ _ _ _ Hco n r false Gone Hn) as [(x & Hx & _ & Hnh & _) Hown Hs].
  specialize (Hown eq_refl). simpl in Hs.
  destruct (deallocate_law p (cr_id r) (co_wf _ _ _ _ Hco) Hnh) as (Hwf & Hconn & Hhas).
  assert (Hother : ∀ m c, m ≠ n → cs !! m = Some c → ¬ claim_on (cr_id r) c).
  { intros m c Hne Hm Hc. apply Hne. eapply (holder_unique (cr_id r) n m _ _ cs); [lia|done|done|done|done]. }
  assert (Hh : ∀ j, j ≠ cr_id r → holders j (<[n := No_Claim]> cs) = holders j cs).
  { intros j Hj. rewrite (holders_insert j n (Claim_ r false Gone)) by done. unfold holds. simpl. rewrite decide_False by congruence. lia. }
  constructor; [done| | | | |].
  - intros i y. rewrite Hconn. case_decide; [done|]. apply (co_next _ _ _ _ Hco).
  - intros i y. rewrite Hconn. case_decide; [done|]. rewrite Hh by done. apply (co_acc _ _ _ _ Hco).
  - intros i y Hy. destruct (co_kind _ _ _ _ Hco i y Hy) as (z & Hz & ?). exists z. rewrite Hconn, decide_False; [done|]. intros ->. congruence.
  - intros i Hi. destruct (co_slot _ _ _ _ Hco i Hi) as (m & r' & q & Hm & Hr). exists m, r', q. split; [|done].
    rewrite list_lookup_insert_ne; [done|]. intros ->. congruence.
  - intros m r' q s Hm. destruct (decide (m = n)) as [->|Hne].
    { by rewrite list_lookup_insert_eq in Hm by (by eapply lookup_lt_Some). }
    rewrite list_lookup_insert_ne in Hm by done. destruct (co_claim _ _ _ _ Hco m r' q s Hm) as [(y & Hy & Hp & Hq) Hown' Hs'].
    assert (cr_id r' ≠ cr_id r) by (intros E; by apply (Hother m _ Hne Hm)). constructor; [|intros E; rewrite Hh by done; by apply Hown'|done].
    exists y. rewrite Hconn, decide_False by done. split_and!; [done|done|]. destruct q; rewrite Hhas; done.
Qed.

(** ** Bindings *)

Lemma holders_with_sender j n c s cs : cs !! n = Some c → holders j (<[n := with_sender s c]> cs) = holders j cs.
Proof. intros Hn. rewrite (holders_insert j n c) by done. unfold holds. destruct c; simpl; lia. Qed.

Lemma core_bind_remove p b next cs n c i :
  core p b next cs → cs !! n = Some c → core p (delete i b) next (<[n := after_op (Bind_Remove i) c]> cs).
Proof.
  intros Hco Hn. set (c' := after_op (Bind_Remove i) c).
  assert (Hh : ∀ j, holders j (<[n := c']> cs) = holders j cs).
  { intros j. unfold c'. simpl. case_decide; [by apply holders_with_sender|]. by rewrite list_insert_id. }
  assert (Hdel : ∀ s pr x, sender_ok s pr (b !! x) → sender_ok s pr (delete i b !! x)).
  { intros s pr x. destruct (decide (i = x)) as [->|]; [rewrite lookup_delete_eq|by rewrite lookup_delete_ne].
    destruct s; simpl; [done|intros [? _]; split; [done|by left]|done]. }
  constructor; [apply Hco|apply Hco| | | |].
  - intros j x. rewrite Hh. apply Hco.
  - intros j y [_ Hy]%lookup_delete_Some. by eapply co_kind.
  - intros j [Hij Hj]%lookup_delete_Some. destruct (co_slot _ _ _ _ Hco j Hj) as (m & r & q & Hm & Hr). exists m, r, q.
    split; [|done]. destruct (decide (m = n)) as [->|]; [|by rewrite list_lookup_insert_ne].
    rewrite list_lookup_insert_eq by (by eapply lookup_lt_Some). rewrite Hn in Hm. injection Hm as ->.
    unfold c'. simpl. rewrite decide_False; [done|congruence].
  - intros m r q s Hm. destruct (decide (m = n)) as [->|].
    + rewrite list_lookup_insert_eq in Hm by (by eapply lookup_lt_Some). unfold c' in Hm. destruct c as [|r0 q0 s0]; simpl in Hm.
      { by destruct (decide False). }
      destruct (co_claim _ _ _ _ Hco n r0 q0 s0 Hn) as [Hx Hown Hs].
      destruct (decide (cr_id r0 = i)) as [<-|]; injection Hm as <- <- <-; constructor; try done; try (intros; rewrite Hh; by apply Hown).
      * simpl. apply lookup_delete_eq.
      * by apply Hdel.
    + rewrite list_lookup_insert_ne in Hm by done. destruct (co_claim _ _ _ _ Hco m r q s Hm) as [Hx Hown Hs].
      constructor; [done|intros; rewrite Hh; by apply Hown|by apply Hdel].
Qed.

(** The only holder of a connection writes its binding. *)
Lemma core_bind_set p b next cs n r q s s' y :
  core p b next cs → cs !! n = Some (Claim_ r q s) → holders (cr_id r) cs ≤ 1 →
  cr_protocol r = match y with Binding_Http1 _ => Http1 | Binding_Http2 => Http2 end →
  sender_ok s' (cr_protocol r) (Some y) → (y = Binding_Http1 false → s' = In_Hand) →
  core p (<[cr_id r := y]> b) next (<[n := Claim_ r q s']> cs).
Proof.
  intros Hco Hn Hone Hy Hs' Hslot. assert (Hh : ∀ j, holders j (<[n := Claim_ r q s']> cs) = holders j cs)
    by (intros j; apply (holders_with_sender j n (Claim_ r q s) s' cs Hn)).
  destruct (co_claim _ _ _ _ Hco n r q s Hn) as [(x & Hx & Hp & Hq) Hown Hs].
  constructor; [apply Hco|apply Hco| | | |].
  - intros j z. rewrite Hh. apply Hco.
  - intros j z [[<- <-]|[_ Hz]]%lookup_insert_Some; [|by eapply co_kind]. exists x. by rewrite Hp.
  - intros j [[<- Hz]|[Hne Hz]]%lookup_insert_Some.
    + exists n, r, q. rewrite list_lookup_insert_eq by (by eapply lookup_lt_Some). by rewrite (Hslot Hz).
    + destruct (co_slot _ _ _ _ Hco j Hz) as (m & r' & q' & Hm & Hr). exists m, r', q'. split; [|done].
      rewrite list_lookup_insert_ne; [done|]. intros ->. rewrite Hn in Hm. congruence.
  - intros m r' q' t Hm. destruct (decide (m = n)) as [->|Hne].
    + rewrite list_lookup_insert_eq in Hm by (by eapply lookup_lt_Some). injection Hm as <- <- <-.
      constructor; [by exists x|intros; rewrite Hh; by apply Hown|by rewrite lookup_insert_eq].
    + rewrite list_lookup_insert_ne in Hm by done. destruct (co_claim _ _ _ _ Hco m r' q' t Hm) as [Hx' Hown' Ht].
      constructor; [done|intros; rewrite Hh; by apply Hown'|]. rewrite lookup_insert_ne; [done|]. intros E. apply Hne.
      eapply (holder_unique (cr_id r) n m _ _ cs); [done|done|done|done|done].
Qed.

(** An HTTP/1 connection has one holder. *)
Lemma http1_one_holder p b next cs n r q s :
  core p b next cs → cs !! n = Some (Claim_ r q s) → cr_protocol r = Http1 → holders (cr_id r) cs ≤ 1.
Proof.
  intros Hco Hn Hp. destruct (ck_conn _ _ _ _ _ _ (co_claim _ _ _ _ Hco n r q s Hn)) as (x & Hx & Hpx & _).
  destruct (co_acc _ _ _ _ Hco _ x Hx) as [[_ Hle] _]. unfold stream_limit in Hle. by rewrite Hpx, Hp in Hle.
Qed.

Definition binding_kind (p : ConnectionProtocol) : AcquiredBinding := match p with Http1 => Acquired_Http1 | Http2 => Acquired_Http2 end.

(** Checking out a sender: never busy, and the binding is of the connection's protocol. *)
Lemma core_bind_acquire p b next cs n r q closed :
  core p b next cs → cs !! n = Some (Claim_ r q In_Slot) →
  let '(b', result) := binding_acquire closed (cr_id r) b in
  (result = Acquired (binding_kind (cr_protocol r)) ∨ result = Stale) ∧
  core p b' next (<[n := after_bind result (Claim_ r q In_Slot)]> cs).
Proof.
  intros Hco Hn. destruct (co_claim _ _ _ _ Hco n r q In_Slot Hn) as [(x & Hx & Hp & _) Hown Hs]. simpl in Hs.
  pose proof (core_bind_remove p b next cs n _ (cr_id r) Hco Hn) as Hrem. simpl in Hrem. rewrite decide_True in Hrem by done.
  unfold binding_acquire. destruct (b !! cr_id r) as [[[]|]|] eqn:E.
  - destruct (co_kind _ _ _ _ Hco _ _ E) as (z & Hz & Hpz). assert (cr_protocol r = Http1) as Hpr by congruence.
    case_bool_decide; [split; [by right|done]|]. rewrite Hpr. split; [by left|]. simpl.
    eapply core_bind_set; [done|done|by eapply http1_one_holder|done| |done]. split; [done|by right].
  - done.
  - destruct (co_kind _ _ _ _ Hco _ _ E) as (z & Hz & Hpz). assert (cr_protocol r = Http2) as Hpr by congruence.
    case_bool_decide; [split; [by right|done]|]. rewrite Hpr. split; [by left|]. simpl. by rewrite list_insert_id.
  - split; [by right|]. by rewrite delete_id in Hrem.
Qed.

(** Putting it back. *)
Lemma core_put_sender p b next cs n r q :
  core p b next cs → cs !! n = Some (Claim_ r q In_Hand) →
  let '(b', put) := put_sender (cr_id r) b in
  (∀ y, b !! cr_id r = Some y → y = Binding_Http1 false) ∧
  core p b' next (<[n := Claim_ r q (if put then In_Slot else Gone)]> cs).
Proof.
  intros Hco Hn. pose proof (ck_sender _ _ _ _ _ _ (co_claim _ _ _ _ Hco n r q In_Hand Hn)) as [Hpr Hs].
  pose proof (core_bind_remove p b next cs n _ (cr_id r) Hco Hn) as Hrem. simpl in Hrem. rewrite decide_True in Hrem by done.
  unfold put_sender. destruct Hs as [E|E]; rewrite E.
  - split; [done|]. by rewrite delete_id in Hrem.
  - split; [by intros y [= <-]|]. eapply core_bind_set; [done|done|by eapply http1_one_holder|done|done|done].
Qed.
End Safety.

(** ** The discipline of a program *)

Definition op_ok (o : Op) (c : Claim) : Prop :=
  match o with
  | Bind_Insert i p => ∃ r, c = Claim_ r false Gone ∧ cr_id r = i ∧ cr_protocol r = p
  | Pool_Insert i => ∃ r s, c = Claim_ r false s ∧ cr_id r = i
  | Pool_Remove i => ∀ r q s, c = Claim_ r q s → cr_id r = i → q = true ∧ s ≠ In_Hand
  | Drop_Connection i => ∃ r, c = Claim_ r false Gone ∧ cr_id r = i
  | Prune => c = No_Claim
  | _ => True
  end.
Definition query_ok (q : Query) (c : Claim) : Prop :=
  match q with
  | Put_Sender i => ∃ r p, c = Claim_ r p In_Hand ∧ cr_id r = i
  | Pool_Release r => ∃ s, c = Claim_ r true s ∧ s ≠ In_Hand
  | Has_In_Use _ => c = No_Claim
  | Sender_Closed _ => True
  end.

(** A program run by a task that holds [c]: whatever it is answered, it releases and removes only what it may,
    and ends holding nothing - unless it is [Lost]. *)
Fixpoint disciplined (c : Claim) (p : prog) : Prop :=
  match p with
  | End _ | Again _ => c = No_Claim
  | Lost r _ => ∃ s, c = Claim_ r true s
  | Do o k => op_ok o c ∧ disciplined (after_op o c) k
  | Query_ q k => query_ok q c ∧ ∀ b, disciplined (after_query q b c) (k b)
  | Pool_Probe _ k => ∀ x, disciplined c (k x)
  | Pool_Acquire _ k => c = No_Claim ∧ ∀ r h, disciplined (claim_of r) (k r h)
  | Pool_Coalesce _ _ k => c = No_Claim ∧ ∀ r, disciplined (claim_of r) (k r)
  | Bind_Acquire i k => ∃ r q, c = Claim_ r q In_Slot ∧ cr_id r = i ∧
      disciplined (after_bind (Acquired (binding_kind (cr_protocol r))) c) (k (Acquired (binding_kind (cr_protocol r)))) ∧
      disciplined (after_bind Stale c) (k Stale)
  | Create _ _ _ _ k => c = No_Claim ∧ ∀ r, disciplined (Claim_ r false Gone) (k r)
  | Spawn _ k => ∀ h, disciplined c (k h)
  | Ask _ k => ∀ a, disciplined c (k a)
  | Await _ d k => disciplined c d ∧ ∀ a, disciplined c (k a)
  end.

(** The claim of a task that has checked out the binding of [r]. *)
Definition bound (r : ConnRef) : Claim := Claim_ r true (match cr_protocol r with Http1 => In_Hand | Http2 => In_Slot end).

Lemma teardown_none i k : disciplined No_Claim k → disciplined No_Claim (teardown_pooled_connection i k).
Proof. intros Hk. by repeat split. Qed.

Lemma teardown_held r s k : disciplined No_Claim k → disciplined (Claim_ r true s) (teardown_pooled_connection (cr_id r) k).
Proof.
  intros Hk. unfold teardown_pooled_connection, teardown_connection. cbn [disciplined op_ok after_op].
  rewrite decide_True by done. cbn [with_sender]. split_and!; [done|done|by intros r' q s' [= <- <- <-]|].
  unfold drop_claim_on. by rewrite decide_True.
Qed.

Lemma teardown_fresh r s k : disciplined (Claim_ r false Gone) k → disciplined (Claim_ r false s) (Do (Bind_Remove (cr_id r)) k).
Proof. intros Hk. cbn [disciplined op_ok after_op]. by rewrite decide_True. Qed.

Lemma release_held r s k :
  s ≠ In_Hand → (∀ b, disciplined No_Claim (k b)) → disciplined (Claim_ r true s) (Query_ (Pool_Release r) k).
Proof.
  intros Hs Hk. cbn [disciplined query_ok after_query]. split; [by exists s|]. intros b. unfold drop_claim_on.
  by rewrite decide_True.
Qed.

Lemma release_http1_held r k :
  disciplined (Claim_ r true In_Slot) (k true) → disciplined (Claim_ r true Gone) (k false) →
  disciplined (Claim_ r true In_Hand) (release_http1 (cr_id r) k).
Proof.
  intros Ht Hf. unfold release_http1. cbn [disciplined query_ok after_query]. split; [done|]. intros [].
  - cbn [disciplined op_ok after_op]. by rewrite decide_True.
  - cbn [disciplined query_ok after_query]. split; [by exists r, true|]. intros []; by rewrite decide_True.
Qed.

Lemma notify_disciplined r c k : disciplined c k → disciplined c (notify r k) ∧ disciplined c (notify_http2 r k).
Proof. intros Hk. by repeat split. Qed.

Create HintDb disc.
#[local] Hint Resolve teardown_none teardown_held release_held release_http1_held : disc.
#[local] Hint Extern 1 (disciplined _ (notify _ _)) => apply notify_disciplined : disc.
#[local] Hint Extern 1 (disciplined _ (notify_http2 _ _)) => apply notify_disciplined : disc.
#[local] Hint Extern 1 (_ ≠ In_Hand) => discriminate : disc.

Lemma return_http1_held r k :
  disciplined No_Claim k →
  let torn_down := teardown_pooled_connection (cr_id r) (notify r k) in
  disciplined (Claim_ r true In_Hand)
    (release_http1 (cr_id r) (λ put,
      if put then Query_ (Pool_Release r) (λ released, if released then notify r k else torn_down) else torn_down)).
Proof. intros Hk. apply release_http1_held; [apply release_held; [done|intros []]|]; eauto with disc. Qed.

(** Dropping a [SelectedConnection] gives its connection back. *)
Lemma drop_selected_disciplined x k :
  disciplined No_Claim k → sel_binding x = binding_kind (cr_protocol (sel_connection x)) →
  disciplined (bound (sel_connection x)) (drop_selected x k).
Proof.
  intros Hk Hb. unfold drop_selected, release_acquired_connection, bound. rewrite Hb.
  destruct (cr_protocol _); simpl binding_kind; cbn match; [by apply return_http1_held|].
  apply release_held; [done|]. intros []; eauto with disc.
Qed.

Definition lease_of (r : ConnRef) (l : ResponseLeaseState) : Prop :=
  match cr_protocol r with Http1 => ∃ reusable, l = Lease_Http1 r reusable | Http2 => l = Lease_Http2 r end.

(** Whatever becomes of a response body, its lease gives the connection back. *)
Lemma settle_disciplined r f l k :
  lease_of r l → disciplined No_Claim k → disciplined (bound r) (settle_lease f l k).
Proof.
  unfold lease_of, bound. intros Hl Hk. destruct (cr_protocol r).
  - destruct Hl as [reusable ->]. destruct f; cbn [settle_lease release_response_lease evict_response_lease_state]; [|eauto with disc..].
    destruct reusable; [by apply return_http1_held|eauto with disc].
  - subst l. destruct f; cbn [settle_lease release_response_lease evict_response_lease_state]; [eauto with disc| |eauto with disc].
    split; [done|]. apply release_held; eauto with disc.
Qed.

Lemma cleanup_disciplined r k : disciplined No_Claim k → disciplined (bound r) (cleanup_failed_request r k).
Proof.
  intros Hk. unfold cleanup_failed_request, bound. destruct (cr_protocol r); [eauto with disc|].
  split; [done|]. apply release_held; eauto with disc.
Qed.

Lemma deliver_disciplined r l : lease_of r l → disciplined (bound r) (deliver_response l).
Proof.
  intros Hl [e|]; [by apply (settle_disciplined r Abandoned)|]. intros f. by apply settle_disciplined.
Qed.

Lemma send_disciplined x :
  sel_binding x = binding_kind (cr_protocol (sel_connection x)) → disciplined (bound (sel_connection x)) (send_bound_request x).
Proof.
  intros Hb. unfold send_bound_request. set (r := sel_connection x) in *. assert (Hlost : ∀ e, disciplined (bound r) (Lost r e)).
  { intros e. by eexists. }
  intros [e|]; [done|]. split; [done|]. intros [e|]; [by apply cleanup_disciplined|]. split; [done|].
  intros [e|]; [by apply cleanup_disciplined|]. rewrite Hb. unfold lease_of, bound in *.
  destruct (cr_protocol r) eqn:Hp; simpl binding_kind; cbn match.
  - intros reusable. pose proof (deliver_disciplined r (Lease_Http1 r reusable)) as Hd. unfold bound, lease_of in Hd. rewrite Hp in Hd.
    apply Hd. by eexists.
  - pose proof (deliver_disciplined r (Lease_Http2 r)) as Hd. unfold bound, lease_of in Hd. rewrite Hp in Hd. by apply Hd.
Qed.

Lemma send_selected a r re co : disciplined (bound r) (send_bound_request (mkSelected a r (binding_kind (cr_protocol r)) re co)).
Proof. by apply (send_disciplined (mkSelected a r (binding_kind (cr_protocol r)) re co)). Qed.

Lemma next_disciplined c rest e : disciplined No_Claim (next_candidate c rest e).
Proof. revert e; induction rest as [|a rest IH]; intros e; [done|]. split; [done|]. intros [e'|]; [apply IH|done]. Qed.
#[local] Hint Resolve next_disciplined : disc.

Lemma drop_fresh_disciplined r k : disciplined No_Claim k → disciplined (Claim_ r false Gone) (Do (Drop_Connection (cr_id r)) k).
Proof.
  intros Hk. cbn [disciplined op_ok after_op]. split; [by exists r|]. unfold drop_claim_on. by rewrite decide_True.
Qed.

(** A checked-out binding leads to [bound], on a connection of the pool. *)
Lemma acquire_binding_disciplined r k :
  disciplined (bound r) (k (Acquired (binding_kind (cr_protocol r)))) → disciplined (Claim_ r true Gone) (k Stale) →
  disciplined (Claim_ r true In_Slot) (Bind_Acquire (cr_id r) k).
Proof. intros Ha Hs. exists r, true. split_and!; [done..| |done]. unfold bound in Ha. by destruct (cr_protocol r). Qed.

Lemma spawn_disciplined r k :
  disciplined (bound r) (k None) → (∀ e, disciplined (bound r) (k (Some e))) → disciplined (bound r) (spawn_task r k).
Proof. intros Hn He [e|]; [by split|]. intros h. by split. Qed.

Lemma publish_disciplined r k :
  disciplined (bound r) k →
  disciplined (after_bind (Acquired (binding_kind (cr_protocol r))) (Claim_ r false In_Slot)) (Do (Pool_Insert (cr_id r)) k).
Proof.
  intros Hk. unfold bound in Hk. destruct (cr_protocol r); cbn [disciplined op_ok after_op after_bind binding_kind with_sender];
    (split; [by eexists _, _|by rewrite decide_True]).
Qed.

Lemma insert_disciplined r k :
  disciplined (Claim_ r false In_Slot) k → disciplined (Claim_ r false Gone) (Do (Bind_Insert (cr_id r) (cr_protocol r)) k).
Proof. intros Hk. cbn [disciplined op_ok after_op]. split; [by exists r|]. by rewrite decide_True. Qed.

Lemma fresh_disciplined rd : disciplined No_Claim (bind_fresh_connection rd).
Proof.
  split; [done|]. intros [e|est]; [apply next_disciplined|]. split; [done|]. intros r.
  split; [by apply drop_fresh_disciplined|]. intros [e|]; [apply drop_fresh_disciplined, next_disciplined|].
  apply insert_disciplined. exists r, false. split; [done|]. split; [done|]. split.
  - apply publish_disciplined, spawn_disciplined; [apply send_selected|]. intros e. unfold bound. apply teardown_held. split; [done|]. apply next_disciplined.
  - apply (teardown_fresh r Gone), drop_fresh_disciplined, next_disciplined.
Qed.

Lemma open_or_wait_disciplined rd plan : disciplined No_Claim (open_or_wait rd plan).
Proof. intros []; [apply fresh_disciplined|by split]. Qed.

Lemma coalesced_disciplined rd plan k : disciplined No_Claim k → disciplined No_Claim (try_acquire_coalesced rd plan k).
Proof.
  intros Hk. unfold try_acquire_coalesced. destruct (call_no_coalesced _); [done|]. split; [done|]. intros [r|]; [|done].
  apply acquire_binding_disciplined; [apply send_selected|]. apply teardown_held. by split.
Qed.

Lemma after_lookup_disciplined rd w : disciplined No_Claim (after_lookup rd w).
Proof.
  assert (Hgo : ∀ plan, disciplined No_Claim (try_acquire_coalesced rd plan (open_or_wait rd plan)))
    by (intros plan; apply coalesced_disciplined, open_or_wait_disciplined).
  unfold after_lookup. destruct (rd_plan rd); [apply Hgo|]. split; [done|]. intros [e|plan]; [|apply Hgo].
  destruct (_ && _); [|apply next_disciplined]. intros []; [apply next_disciplined|by split].
Qed.

Lemma loop_disciplined l : disciplined No_Claim (loop_body l).
Proof.
  destruct l as [rd|].
  - split; [done|]. intros [r|] h; [|apply after_lookup_disciplined].
    apply acquire_binding_disciplined; [apply send_selected|]. apply teardown_held. split; [done|]. split; [done|].
    intros b. apply after_lookup_disciplined.
  - split; [done|]. intros _ []; [|done]. by repeat split.
Qed.

Lemma exchange_disciplined c : disciplined No_Claim (execute_exchange c).
Proof. intros preferred. apply next_disciplined. Qed.

Lemma driver_disciplined r : disciplined No_Claim (driver_task r).
Proof. split; [done|]. intros _. by repeat split. Qed.

Lemma drop_future_disciplined c p : disciplined c p → disciplined c (drop_future p).
Proof. destruct p; simpl; try done. by intros []. Qed.

Lemma hook_disciplined c k l : (∀ j, j ∈ l → ¬ claim_on j c) → disciplined c k → disciplined c (foldr teardown_connection k l).
Proof.
  intros Hl Hk. induction l as [|j l IH]; simpl; [done|]. split; [done|]. rewrite decide_False by (apply Hl; by left).
  split; [done|]. apply IH. intros i Hi. apply Hl. by right.
Qed.

Lemma answered_disciplined c p t a k : disciplined c p → answered p t a = Some k → disciplined c k.
Proof.
  destruct p; simpl; try done; destruct (decide _) as [->|]; try done; simpl; [intros Hp|intros [_ Hp]]; intros [= <-]; apply Hp.
Qed.

(** ** Every move keeps the invariant *)

Section Steps.
Context {P : Type} `{ConnectionPoolLaws P}.
#[local] Set Default Proof Using "Type*".

Definition claims (m : Machine P) : list Claim := t_claim <$> m_tasks m.
Definition tasks_ok (m : Machine P) : Prop := ∀ n t, m_tasks m !! n = Some t → disciplined (t_claim t) (t_code t).
Record machine_ok (m : Machine P) : Prop := mkMachineOk {
  mo_core : core (m_pool m) (m_bindings m) (m_next m) (claims m);
  mo_tasks : tasks_ok m;
}.

Lemma claims_lookup m n t : m_tasks m !! n = Some t → claims m !! n = Some (t_claim t).
Proof. intros Hn. unfold claims. by rewrite list_lookup_fmap, Hn. Qed.

(** Task [n] goes on. *)
Lemma go_on_ok m' n t c k :
  m_tasks m' !! n = Some t → core (m_pool m') (m_bindings m') (m_next m') (<[n := c]> (claims m')) → tasks_ok m' →
  disciplined c k → machine_ok (go_on n c k m').
Proof.
  intros Hn Hco Ht Hk. constructor.
  - unfold claims, go_on. cbn. by rewrite list_fmap_insert.
  - intros j u. unfold go_on. cbn. destruct (decide (j = n)) as [->|].
    + rewrite list_lookup_insert_eq by (by eapply lookup_lt_Some). by intros [= <-].
    + rewrite list_lookup_insert_ne by done. apply Ht.
Qed.

(** Dropping futures changes no claim. *)
Lemma drop_tasks m n :
  let m' := set_tasks (alter drop_task n (m_tasks m)) m in
  claims m' = claims m ∧ (tasks_ok m → tasks_ok m') ∧ (∀ j t, m_tasks m !! j = Some t → ∃ t', m_tasks m' !! j = Some t').
Proof.
  simpl. unfold claims. cbn. split_and!.
  - apply list_eq. intros j. rewrite !list_lookup_fmap. destruct (decide (n = j)) as [->|].
    + rewrite list_lookup_alter_eq. by destruct (m_tasks m !! j).
    + by rewrite list_lookup_alter_ne.
  - intros Ht j u. cbn. destruct (decide (n = j)) as [->|].
    + rewrite list_lookup_alter_eq. intros (t & Hj & ->)%fmap_Some. simpl. apply drop_future_disciplined. by apply (Ht j).
    + rewrite list_lookup_alter_ne by done. apply Ht.
  - intros j t Hj. destruct (decide (n = j)) as [->|].
    + rewrite list_lookup_alter_eq, Hj. by eexists.
    + rewrite list_lookup_alter_ne by done. by eexists.
Qed.

Lemma abort_handle_same h m :
  let m' := abort_handle h m in
  m_pool m' = m_pool m ∧ m_bindings m' = m_bindings m ∧ m_next m' = m_next m ∧ claims m' = claims m ∧
  (tasks_ok m → tasks_ok m') ∧ (∀ j t, m_tasks m !! j = Some t → ∃ t', m_tasks m' !! j = Some t').
Proof.
  destruct h as [[n|]|]; simpl; try (split_and!; eauto; done). pose proof (drop_tasks m n) as (E1 & E2 & E3). by split_and!.
Qed.

(** A new task holds nothing. *)
Lemma core_grow (p : P) b next cs : core p b next cs → core p b next (cs ++ [No_Claim]).
Proof.
  intros Hco. assert (Hh : ∀ j, holders j (cs ++ [No_Claim]) = holders j cs).
  { intros j. rewrite holders_app. unfold holders. simpl. rewrite filter_cons_False by (intros []). rewrite filter_nil, len_nil. lia. }
  constructor; [apply Hco|apply Hco| |apply Hco| |].
  - intros i x. rewrite Hh. apply Hco.
  - intros i Hi. destruct (co_slot _ _ _ _ Hco i Hi) as (n & r & q & Hn & Hr). exists n, r, q. split; [|done].
    by apply lookup_app_l_Some.
  - intros n r q s [Hn|[_ Hn]]%lookup_app_Some.
    + destruct (co_claim _ _ _ _ Hco n r q s Hn) as [Hx Hown Hs]. constructor; [done|intros; rewrite Hh; by apply Hown|done].
    + by apply list_lookup_singleton_Some in Hn as [_ ?].
Qed.

Lemma spawn_ok m p : machine_ok m → disciplined No_Claim p → machine_ok (set_tasks (m_tasks m ++ [mkTask No_Claim p]) m).
Proof.
  intros [Hco Ht] Hp. constructor.
  - unfold claims. cbn. rewrite fmap_app. by apply core_grow.
  - intros n t. cbn. intros [Hn|[_ Hn]]%lookup_app_Some; [by apply (Ht n)|]. by apply list_lookup_singleton_Some in Hn as [_ <-].
Qed.

(** The eviction hook does not touch what the task holds. *)
Lemma run_hook_disciplined (p p' : P) l c k :
  hooked p p' l → (∀ j, claim_on j c → ∃ x, pool_conn p' j = Some x ∧ open x) → disciplined c k →
  disciplined c (run_hook p p' k).
Proof.
  intros [E Hl] Hc Hk. unfold run_hook. rewrite E, drop_app_length. apply hook_disciplined; [|done].
  intros j Hj Hon. destruct (Hc j Hon) as (x & Hx & Ho). destruct (Hl j Hj) as (y & Hy & ?). apply Ho. congruence.
Qed.

Lemma run_hook_same (p p' : P) k : evictions p' = evictions p → run_hook p p' k = k.
Proof. intros E. unfold run_hook. by rewrite E, drop_all. Qed.

Lemma effect_hook f (p p' : P) c k :
  effect f p p' → c = No_Claim → disciplined c k → disciplined c (run_hook p p' k).
Proof. intros He -> Hk. destruct (ef_hooked _ _ _ He) as [l Hl]. by apply (run_hook_disciplined p p' l). Qed.

Lemma unchanged_quiet (p p' : P) b next cs :
  core p b next cs → well_formed p' → effect unchanged p p' → core p' b next cs.
Proof.
  intros Hco Hwf He. eapply core_quiet; [done|done|done|apply steady_unchanged|done|].
  intros j x Hu. split; [|done]. by apply in_use_iff in Hu as [? _].
Qed.

(** Going on after the pool changed. *)
Lemma go_on_pool m n t p' c k :
  machine_ok m → m_tasks m !! n = Some t → core p' (m_bindings m) (m_next m) (<[n := c]> (claims m)) → disciplined c k →
  machine_ok (go_on n c k (set_pool p' m)).
Proof. intros [_ Ht] Hn Hco Hk. by apply (go_on_ok (set_pool p' m) n t c k). Qed.

Lemma go_on_bindings m n t b' c k :
  machine_ok m → m_tasks m !! n = Some t → core (m_pool m) b' (m_next m) (<[n := c]> (claims m)) → disciplined c k →
  machine_ok (go_on n c k (set_bindings b' m)).
Proof. intros [_ Ht] Hn Hco Hk. by apply (go_on_ok (set_bindings b' m) n t c k). Qed.

(** Going on with nothing but the tasks or the registry changed. *)
Lemma go_on_same m m' n t k :
  machine_ok m → m_tasks m !! n = Some t → m_pool m' = m_pool m → m_bindings m' = m_bindings m → m_next m' = m_next m →
  claims m' = claims m → tasks_ok m' → (∀ t, m_tasks m !! n = Some t → ∃ t', m_tasks m' !! n = Some t') →
  disciplined (t_claim t) k → machine_ok (go_on n (t_claim t) k m').
Proof.
  intros [Hco Ht] Hn E1 E2 E3 E4 Ht' Hex Hk. destruct (Hex t Hn) as [t' Hn'].
  apply (go_on_ok m' n t'); [done| |done|done]. rewrite E1, E2, E3, E4, list_insert_id; [done|]. by apply claims_lookup.
Qed.

Lemma exec_op_ok now o k m n t :
  machine_ok m → m_tasks m !! n = Some t → op_ok o (t_claim t) → disciplined (after_op o (t_claim t)) k →
  machine_ok (go_on n (after_op o (t_claim t)) (exec_op now o k m).2 (exec_op now o k m).1).
Proof.
  intros Hm Hn Ho Hk. pose proof (mo_core _ Hm) as Hco. pose proof (claims_lookup m n t Hn) as Hcn.
  destruct o as [i p|i|i|i|i|i|i h|i|i|x|]; cbn [exec_op fst snd].
  - destruct Ho as (r & Hc & <- & <-). rewrite Hc in *. simpl in *. rewrite decide_True in * by done.
    eapply go_on_bindings; [done|done| |done]. unfold insert_binding.
    eapply core_bind_set; [done|done| |by destruct (cr_protocol r)|by destruct (cr_protocol r)|by destruct (cr_protocol r)].
    by rewrite (ck_own _ _ _ _ _ _ (co_claim _ _ _ _ Hco n _ _ _ Hcn) eq_refl).
  - eapply go_on_bindings; [done|done| |done]. by apply core_bind_remove.
  - destruct Ho as (r & s & Hc & <-). rewrite Hc in *. simpl in *. rewrite decide_True in * by done.
    destruct (core_publish _ _ _ _ n r s now Hco Hcn) as (Hco' & [l Hl] & Hop).
    eapply go_on_pool; [done|done|done|]. eapply run_hook_disciplined; [done| |done]. intros j <-.
    destruct (ck_conn _ _ _ _ _ _ (co_claim _ _ _ _ Hco' n r true s (list_lookup_insert_eq _ _ _ (lookup_lt_Some _ _ _ Hcn)))) as (x & Hx & _).
    exists x. split; [done|by apply Hop].
  - eapply go_on_pool; [done|done| |done]. apply core_remove; [done|done|]. exact Ho.
  - eapply go_on_pool; [done|done| |done]. cbn [after_op]. rewrite list_insert_id by done.
    destruct (degrade_law (m_pool m) i (co_wf _ _ _ _ Hco)) as [Hwf He].
    eapply core_quiet; [done|done|done|intros; eauto with ow| |].
    + intros j x a Ha. unfold at_conn. case_decide; [by apply accounted_mark|done].
    + intros j x [Ho1 Hu]%in_use_iff. unfold at_conn. case_decide; [|by rewrite in_use_iff].
      rewrite in_use_iff. unfold mark_unhealthy, open. by rewrite bool_decide_eq_false_2.
  - destruct Ho as (r & Hc & <-). rewrite Hc in *. cbn [after_op] in *. unfold drop_claim_on in *. rewrite decide_True in * by done.
    eapply go_on_pool; [done|done| |done]. by apply core_deallocate.
  - pose proof (abort_handle_same (m_handles m !! i) (set_handles (<[i := Some h]> (m_handles m)) m)) as (E1 & E2 & E3 & E4 & E5 & E6).
    eapply (go_on_same m); try done; [by apply E5; apply Hm|apply E6].
  - pose proof (abort_handle_same (m_handles m !! i) (set_handles (delete i (m_handles m)) m)) as (E1 & E2 & E3 & E4 & E5 & E6).
    eapply (go_on_same m); try done; [by apply E5; apply Hm|apply E6].
  - eapply (go_on_same m); try done; [apply Hm|by eauto].
  - eapply (go_on_same m); try done; [apply Hm|by eauto].
  - eapply go_on_pool; [done|done| |].
    + cbn [after_op]. rewrite list_insert_id by done. destruct (prune_law (m_pool m) now (co_wf _ _ _ _ Hco)). by eapply unchanged_quiet.
    + destruct (prune_law (m_pool m) now (co_wf _ _ _ _ Hco)). by eapply effect_hook.
Qed.

Lemma exec_query_ok now q k m n t :
  machine_ok m → m_tasks m !! n = Some t → query_ok q (t_claim t) → (∀ b, disciplined (after_query q b (t_claim t)) (k b)) →
  let '(m', b) := exec_query now q m in
  machine_ok (go_on n (after_query q b (t_claim t)) (run_hook (m_pool m) (m_pool m') (k b)) m').
Proof.
  intros Hm Hn Hq Hk. pose proof (mo_core _ Hm) as Hco. pose proof (claims_lookup m n t Hn) as Hcn.
  destruct q as [i|i|r|a]; cbn [exec_query].
  - rewrite run_hook_same by done. eapply (go_on_same m); try done; [apply Hm|by eauto|apply Hk].
  - destruct Hq as (r & q & Hc & <-). pose proof (core_put_sender (m_pool m) (m_bindings m) (m_next m) (claims m) n r q Hco) as Hput.
    rewrite Hc in *. specialize (Hput Hcn). destruct (put_sender (cr_id r) (m_bindings m)) as [b' put]. destruct Hput as [_ Hput].
    rewrite run_hook_same by done. specialize (Hk put). cbn [after_query] in *. rewrite decide_True in * by done.
    by eapply go_on_bindings.
  - destruct Hq as (s & Hc & Hs). destruct (give_back now (m_pool m) (cr_id r)) as [p' released] eqn:E.
    destruct (give_back_law _ now (cr_id r) p' released (co_wf _ _ _ _ Hco) E) as (_ & He & _).
    rewrite Hc in *. specialize (Hk released). cbn [after_query] in *. unfold drop_claim_on in *. rewrite decide_True in * by done.
    eapply go_on_pool; [done|done|by eapply core_release|]. by eapply effect_hook.
  - simpl in Hq. destruct (check_in_use now (m_pool m) a) as [p' b] eqn:E.
    destruct (in_use_law _ now a p' b (co_wf _ _ _ _ Hco) E) as (Hwf & He). specialize (Hk b). cbn [after_query] in *. rewrite Hq in *.
    eapply go_on_pool; [done|done| |by eapply effect_hook]. rewrite list_insert_id by done. by eapply unchanged_quiet.
Qed.

(** Taking a connection from the pool, by address or coalesced. *)
Lemma taken_ok m n t p' r k :
  machine_ok m → m_tasks m !! n = Some t → t_claim t = No_Claim → well_formed p' →
  match r with
  | None => effect unchanged (m_pool m) p'
  | Some i => pool_has (m_pool m) i ∧ (∃ c, pool_conn (m_pool m) i = Some c ∧ can_acquire c = true) ∧
              effect (at_conn i (snd ∘ try_acquire)) (m_pool m) p'
  end →
  disciplined (claim_of (ref_in p' r)) k →
  machine_ok (go_on n (claim_of (ref_in p' r)) (run_hook (m_pool m) p' k) (set_pool p' m)).
Proof.
  intros Hm Hn Hc Hwf Hr Hk. pose proof (mo_core _ Hm) as Hco. pose proof (claims_lookup m n t Hn) as Hcn. rewrite Hc in Hcn.
  destruct r as [i|].
  - destruct Hr as (Hi & (x0 & Hx0 & Hca) & He). destruct (core_take _ p' _ _ _ n i x0 Hco Hcn Hwf Hi Hx0 Hca He) as (x & Hx & Hop & Hco').
    assert (Hrf : ref_in p' (Some i) = Some (ref_of i x)) by (unfold ref_in; simpl; by rewrite Hx). rewrite Hrf in *.
    eapply go_on_pool; [done|done|done|]. destruct (ef_hooked _ _ _ He) as [l Hl].
    eapply run_hook_disciplined; [done| |done]. intros j <-. by exists x.
  - eapply go_on_pool; [done|done| |by eapply effect_hook]. cbn. rewrite list_insert_id by done. by eapply unchanged_quiet.
Qed.

Lemma exec_ok now n t m m' : machine_ok m → m_tasks m !! n = Some t → exec now n t m = Some m' → machine_ok m'.
Proof.
  intros Hm Hn. pose proof (mo_core _ Hm) as Hco. pose proof (mo_tasks _ Hm n t Hn) as Hd.
  pose proof (claims_lookup m n t Hn) as Hcn.
  assert (Hsame : ∀ k, disciplined (t_claim t) k → machine_ok (go_on n (t_claim t) k m)).
  { intros k Hk. eapply (go_on_same m); try done; [apply Hm|by eauto]. }
  unfold exec. destruct (t_code t) as [e|r e|l|o k|q k|l k|a k|a rp k|i k|route p names streams k|r k|ty k|ty d k];
    cbn [disciplined] in Hd; try done.
  - intros [= <-]. apply Hsame. rewrite Hd. apply loop_disciplined.
  - destruct Hd as [Ho Hk]. pose proof (exec_op_ok now o k m n t Hm Hn Ho Hk) as Hok. destruct (exec_op now o k m). by intros [= <-].
  - destruct Hd as [Hq Hk]. pose proof (exec_query_ok now q k m n t Hm Hn Hq Hk) as Hok. destruct (exec_query now q m). by intros [= <-].
  - intros [= <-]. by apply Hsame.
  - destruct Hd as [Hc Hk]. destruct (take_connection now (m_pool m) a) as [[p' r] h] eqn:E. intros [= <-].
    destruct (take_law _ _ _ _ _ _ (co_wf _ _ _ _ Hco) E). by eapply taken_ok.
  - destruct Hd as [Hc Hk]. destruct (take_coalesced now (m_pool m) a rp) as [p' r] eqn:E. intros [= <-].
    destruct (coalesce_law _ _ _ _ _ _ (co_wf _ _ _ _ Hco) E). by eapply taken_ok.
  - destruct Hd as (r & q & Hc & <- & Ha & Hs). rewrite Hc in *.
    pose proof (core_bind_acquire _ _ _ _ n r q (m_closed m) Hco Hcn) as Hb.
    destruct (binding_acquire (m_closed m) (cr_id r) (m_bindings m)) as [b' result]. destruct Hb as [Hr Hb]. intros [= <-].
    eapply go_on_bindings; [done|done|done|]. by destruct Hr as [->| ->].
  - destruct Hd as [Hc Hk]. rewrite Hc in Hcn. intros [= <-].
    apply (go_on_ok (set_pool _ (set_next (S (m_next m)) m)) n t); [done| |by apply Hm|by apply Hk].
    by apply (core_create (m_pool m) (m_bindings m) (m_next m) (claims m) n).
  - intros [= <-]. pose proof (spawn_ok m (driver_task r) Hm (driver_disciplined r)) as Hm1.
    eapply (go_on_same (set_tasks (m_tasks m ++ [mkTask No_Claim (driver_task r)]) m)); try done.
    + by apply lookup_app_l_Some.
    + apply Hm1.
    + by eauto.
Qed.

Lemma move_ok m v m' : machine_ok m → move m v = Some m' → machine_ok m'.
Proof.
  intros Hm. destruct v as [c| |now n|n ty a|n|i]; simpl.
  - intros [= <-]. apply spawn_ok; [done|apply exchange_disciplined].
  - intros [= <-]. apply spawn_ok; [done|apply (loop_disciplined Loop_Reaper)].
  - intros (t & Hn & E)%bind_Some. by eapply exec_ok.
  - intros (t & Hn & (k & Hk & [= <-])%bind_Some)%bind_Some. eapply (go_on_same m); try done; [apply Hm|by eauto|].
    eapply answered_disciplined; [by eapply (mo_tasks _ Hm n)|done].
  - intros [= <-]. pose proof (drop_tasks m n) as (E1 & E2 & _). constructor; [rewrite E1; apply Hm|by apply E2, Hm].
  - intros [= <-]. by constructor; apply Hm.
Qed.

Lemma run_ok m vs m' : machine_ok m → run m vs = Some m' → machine_ok m'.
Proof.
  revert m; induction vs as [|v vs IH]; intros m Hm; simpl; [by intros [= <-]|].
  intros (m1 & E & Hr)%bind_Some. eapply IH; [|done]. by eapply move_ok.
Qed.

Lemma reachable_ok m : reachable m → machine_ok m.
Proof.
  intros [vs Hvs]. eapply run_ok; [|done]. destruct empty_law as [Hwf Hno]. constructor; [|by intros n t].
  constructor; cbn; try done; intros *; rewrite ?Hno, ?lookup_empty; done.
Qed.

(** ** Theorems *)


(** The allocations of every connection are exactly the exchanges that use it: in every interleaving of
    exchanges, connection tasks, the reaper, evictions and dropped futures, an open connection counts as many
    allocations as there are tasks holding it, no connection is held by more tasks than its protocol lets it
    carry, and whoever holds an open connection can release it. *)
Theorem allocations_are_holders m i x :
  reachable m → pool_conn (m_pool m) i = Some x →
  (open x → allocations (conn_state x) = holders i (claims m)) ∧ 0 ≤ holders i (claims m) ≤ stream_limit x ∧
  (open x → 1 ≤ holders i (claims m) → ∀ now, (give_back now (m_pool m) i).2 = true).
Proof.
  intros Hr Hx. apply reachable_ok in Hr as [Hco _]. pose proof (co_acc _ _ _ _ Hco i x Hx) as Hacc.
  split_and!; [apply Hacc|apply Hacc|apply Hacc|]. intros Ho H1 now.
  destruct (give_back now (m_pool m) i) as [p' b] eqn:E.
  destruct (give_back_law _ now i p' b (co_wf _ _ _ _ Hco) E) as (_ & _ & Hb). rewrite (Hb x Hx). by eapply release_true.
Qed.

Lemma lost_stays m v m' n t r e :
  move m v = Some m' → m_tasks m !! n = Some t → t_code t = Lost r e → m_tasks m' !! n = Some t.
Proof.
  intros Hm Hn Hl.
  assert (Halter : ∀ (l : list Task) j, l !! n = Some t → alter drop_task j l !! n = Some t).
  { intros l j Hj. destruct (decide (j = n)) as [->|]; [|by rewrite list_lookup_alter_ne].
    rewrite list_lookup_alter_eq, Hj. simpl. unfold drop_task. rewrite Hl. destruct t; simpl in *. by rewrite Hl. }
  assert (Hgo : ∀ (m1 : Machine P) j c k, j ≠ n → m_tasks m1 !! n = Some t → m_tasks (go_on j c k m1) !! n = Some t).
  { intros m1 j c k Hne H1. unfold go_on. cbn. by rewrite list_lookup_insert_ne. }
  assert (Habort : ∀ h (m1 : Machine P), m_tasks m1 !! n = Some t → m_tasks (abort_handle h m1) !! n = Some t).
  { intros [[j|]|] m1 H1; simpl; [by apply Halter|done..]. }
  destruct v as [c| |now j|j ty a|j|i]; simpl in Hm.
  - injection Hm as <-. by apply lookup_app_l_Some.
  - injection Hm as <-. by apply lookup_app_l_Some.
  - apply bind_Some in Hm as (u & Hj & Hm). destruct (decide (j = n)) as [->|Hne].
    { rewrite Hn in Hj. injection Hj as <-. unfold exec in Hm. by rewrite Hl in Hm. }
    unfold exec in Hm. destruct (t_code u) as [e'|r' e'|l|o k|q k|l k|a k|a rp k|i k|route p names streams k|r' k|ty k|ty d k]; try done.
    + injection Hm as <-. by apply Hgo.
    + destruct (exec_op now o k m) as [m1 k'] eqn:E. injection Hm as <-. apply Hgo; [done|].
      destruct o; simpl in E; injection E as <- _; try done; by apply Habort.
    + destruct (exec_query now q m) as [m1 b] eqn:E. injection Hm as <-. apply Hgo; [done|].
      destruct q; simpl in E; repeat case_match; by injection E as <- _.
    + injection Hm as <-. by apply Hgo.
    + repeat case_match. injection Hm as <-. by apply Hgo.
    + repeat case_match. injection Hm as <-. by apply Hgo.
    + repeat case_match. injection Hm as <-. by apply Hgo.
    + injection Hm as <-. by apply Hgo.
    + injection Hm as <-. apply Hgo; [done|]. by apply lookup_app_l_Some.
  - apply bind_Some in Hm as (u & Hj & Hm). apply bind_Some in Hm as (k & Hk & Hm). injection Hm as <-.
    apply Hgo; [|done]. intros ->. rewrite Hn in Hj. injection Hj as <-. by rewrite Hl in Hk.
  - injection Hm as <-. cbn. by apply Halter.
  - by injection Hm as <-.
Qed.

(** A dropped send leaks its allocation: when the future of [send_bound_request] is dropped while it waits, or its
    request cannot be prepared, the connection is never idle again while it is open, whatever happens afterwards. *)
Theorem dropped_send_leaks m n t r e vs m' x :
  reachable m → m_tasks m !! n = Some t → t_code t = Lost r e → run m vs = Some m' →
  pool_conn (m_pool m') (cr_id r) = Some x → ¬ idle x.
Proof.
  intros Hr Hn Hl Hrun Hx. pose proof (reachable_ok m Hr) as Hm.
  assert (Hm' : machine_ok m' ∧ m_tasks m' !! n = Some t).
  { clear Hr Hx. revert m Hm Hn Hrun. induction vs as [|v vs IH]; intros m Hm Hn; simpl; [by intros [= <-]|].
    intros (m1 & E & Hr)%bind_Some. eapply (IH m1); [by eapply move_ok|by eapply lost_stays|done]. }
  destruct Hm' as [[Hco Ht] Hn']. pose proof (Ht n t Hn') as Hd. rewrite Hl in Hd. destruct Hd as [s Hc].
  apply claims_lookup in Hn'. rewrite Hc in Hn'. pose proof (holders_pos (cr_id r) n _ _ Hn' eq_refl).
  intros [Ho Hi]%idle_iff. destruct (co_acc _ _ _ _ Hco _ x Hx) as [_ Ha]. specialize (Ha Ho). lia.
Qed.
End Steps.

(** ** A call over HTTP/2 and one over HTTP/1 *)

Module TransportDemo.
#[local] Instance demo_pool : ConnectionPool Pool := pool_operations id pool_settings_default.
#[local] Instance demo_laws : ConnectionPoolLaws Pool.
Proof. apply pool_laws; [done|by vm_compute]. Defined.

Definition origin : Address := origin_h2 "a".
Definition plan : RoutePlan := mkRoutePlan [direct origin example_target] 250.
Definition call : Call := mkCall [mkResolved origin None] false 100.
Definition est (h2 : bool) : Established := mkEstablished h2 (Some example_target) ["a"%string].

(** The call opens a connection and is about to send its request. *)
Definition opening (h2 : bool) : list Move :=
  [Start call; Step 0 0; Answer 0 T_Error None; Step 1 0; Step 1 0; Answer 0 T_Plan (inr plan); Step 2 0;
   Answer 0 T_Bool true; Answer 0 T_Connect (inr (est h2)); Step 3 0; Answer 0 T_Error None; Step 4 0; Step 4 0; Step 5 0;
   Answer 0 T_Error None; Step 6 0; Step 6 0; Answer 0 T_Error None].

(** It gets its response. *)
Definition responding (h2 : bool) : list Move :=
  [Answer 0 T_Error None; Answer 0 T_Error None] ++ (if h2 then [] else [Answer 0 T_Bool true]) ++
  [Answer 0 T_Error None; Answer 0 T_Fate Released].

Definition state (vs : list Move) : Machine Pool := default transport_new (run transport_new vs).

Definition reached (vs : list Move) : bool := bool_decide (is_Some (run (P := Pool) transport_new vs)).
Lemma state_reachable vs : reached vs = true → reachable (state vs).
Proof. unfold reached. rewrite bool_decide_eq_true. intros [m Hm]. exists vs. unfold state. by rewrite Hm. Qed.

(** The response in hand: one allocation, held by the task. *)
Definition in_flight (h2 : bool) : Machine Pool := state (opening h2 ++ responding h2).
(** The exchange done. *)
Definition done_http1 : Machine Pool := state (opening false ++ responding false ++ [Step 7 0; Step 7 0; Step 8 0; Step 8 0]).

Definition the_connection (m : Machine Pool) (i : nat) : RealConnection :=
  default (connection_new 0 (direct origin example_target) Http1 [] 0) (store (m_pool m) !! i).

Lemma in_flight_reachable h2 : reachable (in_flight h2).
Proof. apply state_reachable. destruct h2; vm_compute; reflexivity. Qed.
Lemma done_reachable : reachable done_http1.
Proof. apply state_reachable. vm_compute; reflexivity. Qed.

Lemma allocations_are_holders_witness :
  (open (the_connection (in_flight true) 0) →
   allocations (conn_state (the_connection (in_flight true) 0)) = holders 0 (claims (in_flight true))) ∧
  allocations (conn_state (the_connection (in_flight true) 0)) = 1.
Proof.
  split; [|vm_compute; reflexivity].
  apply (allocations_are_holders (in_flight true) 0%nat (the_connection (in_flight true) 0) (in_flight_reachable true)).
  vm_compute. reflexivity.
Defined.

(** The call is dropped while it waits for the response: its stream stays allocated, no task is left that would
    release it, and the reaper does not evict the connection. *)
Definition abandoned : Machine Pool :=
  state (opening true ++ [Answer 0 T_Error None; Cancel 0; Start_Reaper; Answer 2 T_Unit tt; Answer 2 T_Bool true; Step (from_secs 3600) 2]).
Example cancelled_stream_leaks :
  m_tasks abandoned !! 0%nat = Some (mkTask (Claim_ (mkRef 0 Http2 origin ["a"%string]) true In_Slot) (Lost (mkRef 0 Http2 origin ["a"%string]) Cancelled)) ∧
  by_id (m_pool abandoned) !! 0%nat = Some origin ∧ allocations (conn_state (the_connection abandoned 0)) = 1.
Proof. split_and!; vm_compute; reflexivity. Qed.
End TransportDemo.
