(* ===== verification/TransportSlots.v ===== *)
(** * The bindings of pooled connections

    TransportSafety.v accounts for the allocations of connections; this file accounts for their senders.  The
    binding of a connection is removed by several tasks: the driver of the connection, a teardown, the eviction
    hook.  [tidy] states when a program may do so: the connection is its own and not in the pool yet, or it
    has been closed, or the program goes on, without waiting, to take the connection out of the pool.  The
    programs of the transport are tidy, and so under every interleaving a connection of the pool has its
    binding unless a task is taking it out ([slots_ok]).  With the counting of claims this places the sender of every
    idle HTTP/1 connection. *)

From S2P Require Import Prelude Net Error Planning RealConnection Pool ExchangeFinder TransportPool Outgoing ObservedBody Transport TransportSafety.

(** ** Tidy programs *)

(** The program takes connection [i] out of the pool before it waits or asks for anything. *)
Fixpoint removing (i : ConnectionId) (p : prog) : Prop :=
  match p with
  | Do o k => o = Pool_Remove i ∨ removing i k
  | _ => False
  end.

Definition unpublished (i : ConnectionId) (c : Claim) : Prop := ∃ r s, c = Claim_ r false s ∧ cr_id r = i.

Section Tidy.
Variable gone : ConnectionId → Prop.

Definition op_tidy (pub : ConnectionId → Prop) (o : Op) (c : Claim) (k : prog) : Prop :=
  match o with
  | Bind_Remove i => unpublished i c ∨ gone i ∨ ((pub i ∨ ∃ r s, c = Claim_ r true s ∧ cr_id r = i) ∧ removing i k)
  | Pool_Insert _ => ∃ r s, c = Claim_ r false s ∧ s ≠ Gone
  | _ => True
  end.

(** What a query teaches about the connections that have been in the pool. *)
Definition learn (q : Query) (pub : ConnectionId → Prop) : ConnectionId → Prop :=
  match q with Pool_Release r => λ i, i = cr_id r ∨ pub i | _ => pub end.

(** A program run by a task that holds [c], where the connections [pub] have been in the pool and the
    connections [gone] are closed. *)
Fixpoint tidy (pub : ConnectionId → Prop) (c : Claim) (p : prog) : Prop :=
  match p with
  | End _ | Lost _ _ | Again _ => True
  | Do o k => op_tidy pub o c k ∧ tidy pub (after_op o c) k
  | Query_ q k => ∀ b, tidy (learn q pub) (after_query q b c) (k b)
  | Pool_Probe _ k => ∀ x, tidy pub c (k x)
  | Pool_Acquire _ k => ∀ r h, tidy pub (claim_of r) (k r h)
  | Pool_Coalesce _ _ k => ∀ r, tidy pub (claim_of r) (k r)
  | Bind_Acquire i k => (unpublished i c ∨ removing i (k Stale)) ∧ ∀ result, tidy pub (after_bind result c) (k result)
  | Create _ _ _ _ k => ∀ r, tidy pub (Claim_ r false Gone) (k r)
  | Spawn r k => (∃ s, c = Claim_ r true s) ∧ ∀ h, tidy pub c (k h)
  | Ask _ k => ∀ a, tidy pub c (k a)
  | Await _ d k => tidy pub c d ∧ ∀ a, tidy pub c (k a)
  end.
End Tidy.

Lemma tidy_mono (gone gone' pub pub' : ConnectionId → Prop) c p :
  (∀ i, gone i → gone' i) → (∀ i, pub i → pub' i) → tidy gone pub c p → tidy gone' pub' c p.
Proof.
  intros Hg. revert pub pub' c. induction p as [| | |o k IH|q k IH| | | | | | | |]; intros pub pub' c Hp; cbn; try naive_solver.
  - intros [Ho Hk]. split; [|by eapply IH]. destruct o; try done. cbn in *. naive_solver.
  - intros Hk b. eapply IH; [|done]. destruct q; cbn; naive_solver.
Qed.

(** Knowing nothing of other connections, which is all a program of the transport knows at its start. *)
Definition clean (c : Claim) (p : prog) : Prop := ∀ gone pub, tidy gone pub c p.

Lemma clean_notify r c k : clean c k → clean c (notify r k) ∧ clean c (notify_http2 r k).
Proof. intros Hk. split; by repeat split. Qed.

Lemma teardown_tidy gone pub c i k :
  (c = No_Claim ∧ pub i) ∨ (∃ r s, c = Claim_ r true s ∧ cr_id r = i) → tidy gone pub No_Claim k →
  tidy gone pub c (teardown_pooled_connection i k).
Proof.
  intros Hi Hk. split; [right; right; split; [naive_solver|by right; left]|]. split; [done|]. split; [done|].
  destruct Hi as [[-> _]|(r & s & -> & <-)]; [done|]. cbn. rewrite decide_True by done. cbn. unfold drop_claim_on.
  by rewrite decide_True.
Qed.

Lemma release_tidy gone pub c r k :
  (∀ pub, tidy gone (λ i, i = cr_id r ∨ pub i) (drop_claim_on (cr_id r) c) (k true)) →
  (∀ pub, tidy gone (λ i, i = cr_id r ∨ pub i) (drop_claim_on (cr_id r) c) (k false)) →
  tidy gone pub c (Query_ (Pool_Release r) k).
Proof. intros Ht Hf []; cbn; [apply Ht|apply Hf]. Qed.

Lemma drop_claim_same r q s : drop_claim_on (cr_id r) (Claim_ r q s) = No_Claim.
Proof. unfold drop_claim_on. by rewrite decide_True. Qed.

Lemma teardown_clean r s k : clean No_Claim k → clean (Claim_ r true s) (teardown_pooled_connection (cr_id r) k).
Proof. intros Hk gone pub. apply teardown_tidy; [right; by exists r, s|]. apply Hk. Qed.

Lemma give_back_clean r s k : clean No_Claim k → clean (Claim_ r true s) (Query_ (Pool_Release r) (λ _, k)).
Proof. intros Hk gone pub. apply release_tidy; intros; rewrite drop_claim_same; apply Hk. Qed.

Lemma return_http1_clean r s k :
  clean No_Claim k →
  let torn_down := teardown_pooled_connection (cr_id r) (notify r k) in
  clean (Claim_ r true s)
    (release_http1 (cr_id r) (λ put,
      if put then Query_ (Pool_Release r) (λ released, if released then notify r k else torn_down) else torn_down)).
Proof.
  intros Hk torn_down. assert (Hn : clean No_Claim (notify r k)) by (by apply clean_notify).
  assert (Ht : ∀ s, clean (Claim_ r true s) torn_down) by (intros; by apply teardown_clean).
  intros gone pub []; cbn.
  - split; [|rewrite decide_True by done; by apply (Ht Gone)].
    right; right. split; [right; by exists r, s|]. by right; right; left.
  - intros []; rewrite decide_True by done; cbn.
    + apply release_tidy; intros pub'; rewrite drop_claim_same; [apply Hn|]. apply teardown_tidy; [left; by split; [|left]|apply Hn].
    + by apply (Ht Gone).
Qed.

Lemma drop_selected_clean x s k : clean No_Claim k → clean (Claim_ (sel_connection x) true s) (drop_selected x k).
Proof.
  intros Hk. unfold drop_selected, release_acquired_connection. destruct (sel_binding x); [by apply return_http1_clean|].
  intros gone pub. apply release_tidy; intros pub'; rewrite drop_claim_same; [by apply clean_notify|].
  apply teardown_tidy; [left; by split; [|left]|by apply clean_notify].
Qed.

Definition lease_ref (l : ResponseLeaseState) : ConnRef := match l with Lease_Http1 r _ | Lease_Http2 r => r end.

Lemma settle_clean f l s k : clean No_Claim k → clean (Claim_ (lease_ref l) true s) (settle_lease f l k).
Proof.
  intros Hk. pose proof (λ r, clean_notify r No_Claim k Hk) as Hn. destruct l as [r reusable|r]; cbn [lease_ref].
  - destruct f; cbn [settle_lease release_response_lease evict_response_lease_state];
      [destruct reusable; [by apply return_http1_clean|]|..]; by apply teardown_clean, Hn.
  - destruct f; cbn [settle_lease release_response_lease evict_response_lease_state];
      [apply give_back_clean, Hn|split; [done|by apply give_back_clean, Hn]|apply give_back_clean, Hn].
Qed.

Lemma cleanup_clean r s e : clean (Claim_ r true s) (cleanup_failed_request r (End e)).
Proof.
  destruct (clean_notify r No_Claim (End e)) as [H1 H2]; [done|]. unfold cleanup_failed_request.
  destruct (cr_protocol r); [by apply teardown_clean|]. split; [done|]. by apply give_back_clean.
Qed.

Lemma deliver_clean l s : clean (Claim_ (lease_ref l) true s) (deliver_response l).
Proof. intros gone pub [e|]; [by apply settle_clean|]. intros f. by apply settle_clean. Qed.

Lemma send_clean x s : clean (Claim_ (sel_connection x) true s) (send_bound_request x).
Proof.
  intros gone pub [e|]; [done|]. split; [done|]. intros [e|]; [apply cleanup_clean|]. split; [done|].
  intros [e|]; [apply cleanup_clean|]. destruct (sel_binding x).
  - intros reusable. apply (deliver_clean (Lease_Http1 (sel_connection x) reusable)).
  - apply (deliver_clean (Lease_Http2 (sel_connection x))).
Qed.

Lemma next_clean c rest e : clean No_Claim (next_candidate c rest e).
Proof. revert e; induction rest as [|a rest IH]; intros e; [done|]. split; [done|]. intros [e'|]; [apply IH|done]. Qed.

Lemma spawn_clean r s k :
  (∀ e s, clean (Claim_ r true s) (k e)) → clean (Claim_ r true s) (spawn_task r k).
Proof. intros Hk gone pub [e|]; [by split; [|apply Hk]|]. split; [by exists s|]. intros h. by split; [|apply Hk]. Qed.

Lemma notified_next_clean n c rest e : clean No_Claim (Do (Notify n) (next_candidate c rest e)).
Proof. intros gone pub. split; [done|]. apply next_clean. Qed.

Lemma fresh_acquired_clean rd r s b :
  s ≠ Gone → clean (Claim_ r false s) (Do (Pool_Insert (cr_id r)) (spawn_task r (λ failed,
    match failed with
    | Some e => teardown_pooled_connection (cr_id r) (Do (Notify (Notice_Address (ra_address (rd_candidate rd)))) (fail_candidate rd e))
    | None => send_bound_request (mkSelected (rd_candidate rd) r b false false)
    end))).
Proof.
  intros Hs gone pub. split; [by exists r, s|]. cbn [after_op]. rewrite decide_True by done. apply spawn_clean. intros [e|] s'.
  - apply teardown_clean, notified_next_clean.
  - apply (send_clean (mkSelected (rd_candidate rd) r b false false)).
Qed.

Lemma fresh_unbound_clean rd r s e :
  clean (Claim_ r false s) (Do (Bind_Remove (cr_id r)) (Do (Drop_Connection (cr_id r)) (fail_candidate rd e))).
Proof.
  intros gone pub. split; [left; by exists r, s|]. split; [done|]. cbn. rewrite decide_True by done. cbn.
  rewrite drop_claim_same. apply next_clean.
Qed.

Lemma fresh_clean rd : clean No_Claim (bind_fresh_connection rd).
Proof.
  intros gone pub. split; [done|]. intros [e|est]; [apply next_clean|]. intros r. split; [done|].
  intros [e|]; [split; [done|]; cbn; rewrite drop_claim_same; apply next_clean|]. split; [done|]. cbn [after_op]. rewrite decide_True by done. cbn [with_sender].
  split; [left; by exists r, In_Slot|]. intros [[]| |]; [by apply fresh_acquired_clean..|apply fresh_unbound_clean|apply fresh_unbound_clean].
Qed.

Lemma open_or_wait_clean rd plan : clean No_Claim (open_or_wait rd plan).
Proof. intros gone pub []; [apply fresh_clean|by split]. Qed.

(** A connection of the pool checked out of its binding: a stale one is torn down. *)
Lemma acquired_clean r rd co k kb :
  clean No_Claim k → clean No_Claim kb →
  clean (Claim_ r true In_Slot) (Bind_Acquire (cr_id r) (λ result,
    match result with
    | Acquired b => send_bound_request (mkSelected (rd_candidate rd) r b true co)
    | Busy => Query_ (Pool_Release r) (λ _, kb)
    | Stale => teardown_pooled_connection (cr_id r) k
    end)).
Proof.
  intros Hk Hkb gone pub. split; [right; by right; right; left|].
  intros [[]| |]; [apply (send_clean (mkSelected (rd_candidate rd) r _ true co))..| |by apply teardown_clean].
  apply release_tidy; intros pub'; cbn [after_bind]; rewrite drop_claim_same; apply Hkb.
Qed.

Lemma coalesced_clean rd plan k : clean No_Claim k → clean No_Claim (try_acquire_coalesced rd plan k).
Proof.
  intros Hk. unfold try_acquire_coalesced. destruct (call_no_coalesced _); [done|]. intros gone pub [r|]; [|apply Hk].
  apply acquired_clean; [|done]. intros gone' pub'. by split; [|apply Hk].
Qed.

Lemma after_lookup_clean rd w : clean No_Claim (after_lookup rd w).
Proof.
  assert (Hgo : ∀ plan, clean No_Claim (try_acquire_coalesced rd plan (open_or_wait rd plan)))
    by (intros plan; apply coalesced_clean, open_or_wait_clean).
  unfold after_lookup. destruct (rd_plan rd); [apply Hgo|]. intros gone pub. split; [done|]. intros [e|plan]; [|apply Hgo].
  destruct (_ && _); [|apply next_clean]. intros []; [apply next_clean|by split].
Qed.

Lemma loop_clean l : clean No_Claim (loop_body l).
Proof.
  destruct l as [rd|]; intros gone pub.
  - intros [r|] h; [|apply after_lookup_clean]. apply acquired_clean; [|apply after_lookup_clean].
    intros gone' pub'. split; [done|]. intros b. apply after_lookup_clean.
  - split; [done|]. intros _ []; [|done]. by repeat split.
Qed.

Lemma exchange_clean c : clean No_Claim (execute_exchange c).
Proof. intros gone pub preferred. apply next_clean. Qed.

(** The driver of a connection that has been in the pool. *)
Lemma driver_tidy gone (pub : ConnectionId → Prop) r : pub (cr_id r) → tidy gone pub No_Claim (driver_task r).
Proof.
  intros Hr. split; [done|]. intros _. split; [right; right; split; [by left|by left]|]. by repeat split.
Qed.

Lemma drop_future_tidy gone pub c p : tidy gone pub c p → tidy gone pub c (drop_future p).
Proof. destruct p; simpl; try done. by intros []. Qed.

Lemma answered_tidy gone pub c p t a k : tidy gone pub c p → answered p t a = Some k → tidy gone pub c k.
Proof.
  destruct p; simpl; try done; destruct (decide _) as [->|]; try done; simpl; [intros Hp|intros [_ Hp]]; intros [= <-]; apply Hp.
Qed.

Lemma hook_tidy (gone pub : ConnectionId → Prop) c k l :
  (∀ j, j ∈ l → gone j ∧ ¬ claim_on j c) → tidy gone pub c k → tidy gone pub c (foldr teardown_connection k l).
Proof.
  intros Hl Hk. induction l as [|j l IH]; simpl; [done|]. destruct (Hl j) as [Hg Hc]; [by left|]. split; [by right; left|].
  rewrite decide_False by done. split; [done|]. apply IH. intros i Hi. apply Hl. by right.
Qed.

Lemma hook_removing i k l : removing i k → removing i (foldr teardown_connection k l).
Proof. intros Hk. induction l as [|j l IH]; simpl; [done|]. by right; right. Qed.

(** ** Every move keeps the bindings *)

Section Slots.
Context {P : Type} `{ConnectionPoolLaws P}.
#[local] Set Default Proof Using "Type*".

Definition shut (p : P) (i : ConnectionId) : Prop := ∃ x, pool_conn p i = Some x ∧ ¬ open x.
Definition published (p : P) (i : ConnectionId) : Prop := ∃ x, pool_conn p i = Some x ∧ (pool_has p i ∨ ¬ open x).
Definition task_tidy (p : P) (t : Task) : Prop := tidy (shut p) (published p) (t_claim t) (t_code t).

Record slots_ok (m : Machine P) : Prop := mkSlotsOk {
  so_tidy : ∀ n t, m_tasks m !! n = Some t → task_tidy (m_pool m) t;
  so_bound : ∀ i, pool_has (m_pool m) i →
    is_Some (m_bindings m !! i) ∨ ∃ n t, m_tasks m !! n = Some t ∧ removing i (t_code t);
  so_fresh : ∀ n t r s, m_tasks m !! n = Some t → t_claim t = Claim_ r false s → s ≠ Gone → is_Some (m_bindings m !! cr_id r);
}.

Definition grows (p p' : P) : Prop := ∀ i, (shut p i → shut p' i) ∧ (published p i → published p' i).

Lemma grows_refl p : grows p p.
Proof. done. Qed.

Lemma shift_grows p p' : shift p p' → grows p p'.
Proof.
  intros [_ Hs] i. split; intros (x & Hx & Hq); destruct (Hs i x Hx) as (x' & Hx' & _ & Hc & Hh); exists x'; (split; [done|]); [by apply Hc|].
  destruct Hq as [Hq|Hq]; [by apply Hh|right; by apply Hc].
Qed.

Lemma task_tidy_mono p p' c k : grows p p' → tidy (shut p) (published p) c k → tidy (shut p') (published p') c k.
Proof. intros Hg. apply tidy_mono; intros i; apply Hg. Qed.

Lemma shut_not_pooled p i : well_formed p → shut p i → ¬ pool_has p i.
Proof. intros Hwf (x & Hx & Hc) Hi. destruct (wf_has p i Hwf Hi) as (y & Hy & Ho). apply Hc. unfold open. congruence. Qed.

(** The other tasks of [l] are those of [l'], some of them dropped, and new tasks hold nothing. *)
Record kept (p : P) (l l' : list Task) : Prop := mkKept {
  kp_old : ∀ j u, l !! j = Some u → ∃ u', l' !! j = Some u' ∧ (u' = u ∨ u' = drop_task u);
  kp_new : ∀ j u', l' !! j = Some u' → is_Some (l !! j) ∨ (t_claim u' = No_Claim ∧ task_tidy p u');
}.

Lemma kept_refl p l : kept p l l.
Proof. constructor; [by eauto|by left]. Qed.

Lemma kept_drop p l n : kept p l (alter drop_task n l).
Proof.
  constructor.
  - intros j u Hj. destruct (decide (n = j)) as [->|]; [rewrite list_lookup_alter_eq, Hj; by eauto|].
    rewrite list_lookup_alter_ne by done. by eauto.
  - intros j u Hj. left. destruct (decide (n = j)) as [->|]; [rewrite list_lookup_alter_eq in Hj; by destruct (l !! j)|].
    by rewrite list_lookup_alter_ne in Hj by done.
Qed.

Lemma kept_abort p h (m : Machine P) : kept p (m_tasks m) (m_tasks (abort_handle h m)).
Proof. destruct h as [[n|]|]; cbn; auto using kept_refl, kept_drop. Qed.

Lemma kept_spawn p l q : tidy (shut p) (published p) No_Claim q → kept p l (l ++ [mkTask No_Claim q]).
Proof.
  intros Hq. constructor.
  - intros j u Hj. exists u. split; [by apply lookup_app_l_Some|by left].
  - intros j u [Hj|[_ Hj]]%lookup_app_Some; [by left; eexists|]. apply list_lookup_singleton_Some in Hj as [_ <-]. by right.
Qed.

Lemma removing_drop i u : removing i (t_code u) → removing i (t_code (drop_task u)).
Proof. destruct u as [c []]; cbn; done. Qed.

(** Task [n] goes on with [k] in the state [m']; what it must not lose. *)
Record goes_on (m m' : Machine P) (n : nat) (t : Task) (c : Claim) (k : prog) : Prop := mkGoesOn {
  gn_grows : grows (m_pool m) (m_pool m');
  gn_kept : kept (m_pool m') (m_tasks m) (m_tasks m');
  gn_has : ∀ i, pool_has (m_pool m') i → pool_has (m_pool m) i ∨ is_Some (m_bindings m' !! i);
  gn_bound : ∀ i, pool_has (m_pool m') i → is_Some (m_bindings m !! i) → is_Some (m_bindings m' !! i) ∨ removing i k;
  gn_removing : ∀ i, pool_has (m_pool m') i → removing i (t_code t) → removing i k;
  gn_others : ∀ j u r s, j ≠ n → m_tasks m !! j = Some u → t_claim u = Claim_ r false s →
    is_Some (m_bindings m !! cr_id r) → is_Some (m_bindings m' !! cr_id r);
  gn_own : ∀ r s, c = Claim_ r false s → s ≠ Gone → is_Some (m_bindings m' !! cr_id r);
  gn_tidy : tidy (shut (m_pool m')) (published (m_pool m')) c k;
}.

Lemma slots_go_on m m' n t c k :
  slots_ok m → m_tasks m !! n = Some t → goes_on m m' n t c k → slots_ok (go_on n c k m').
Proof.
  intros [Ht Hb Hf] Hn [Hg [Hold Hnew] Hhas Hbd Hrm Hoth Hown Htidy].
  assert (Hn' : <[n := mkTask c k]> (m_tasks m') !! n = Some (mkTask c k)).
  { destruct (Hold n t Hn) as (t' & Ht' & _). apply list_lookup_insert_eq. by eapply lookup_lt_Some. }
  constructor; unfold go_on; cbn.
  - intros j u. destruct (decide (j = n)) as [->|Hne]; [rewrite Hn'; by intros [= <-]|]. rewrite list_lookup_insert_ne by done.
    intros Hj. destruct (Hnew j u Hj) as [[v Hv]|[_ ?]]; [|done]. destruct (Hold j v Hv) as (u' & Hu' & Hor).
    assert (u' = u) as -> by congruence. pose proof (task_tidy_mono _ _ _ _ Hg (Ht j v Hv)) as Hv'.
    destruct Hor as [->| ->]; [done|]. by apply drop_future_tidy.
  - intros i Hi. destruct (Hhas i Hi) as [Hi0|]; [|by left]. destruct (Hb i Hi0) as [Hbi|(j & u & Hj & Hu)].
    + destruct (Hbd i Hi Hbi) as [|Hk]; [by left|]. right. by exists n, (mkTask c k).
    + right. destruct (decide (j = n)) as [->|Hne].
      * exists n, (mkTask c k). split; [done|]. assert (u = t) as -> by congruence. by apply Hrm.
      * destruct (Hold j u Hj) as (u' & Hu' & Hor). exists j, u'. rewrite list_lookup_insert_ne by done. split; [done|].
        destruct Hor as [->| ->]; [done|by apply removing_drop].
  - intros j u r s. destruct (decide (j = n)) as [->|Hne]; [rewrite Hn'; intros [= <-]; cbn; by apply Hown|].
    rewrite list_lookup_insert_ne by done. intros Hj Hu Hs. destruct (Hnew j u Hj) as [[v Hv]|[? _]]; [|congruence].
    destruct (Hold j v Hv) as (u' & Hu' & Hor). assert (u' = u) as -> by congruence.
    assert (t_claim v = Claim_ r false s) as Hvc by (by destruct Hor as [->| ->]).
    eapply Hoth; [done|done|done|]. by eapply (Hf j v r s).
Qed.

Lemma goes_on_pool m n t p' c k :
  grows (m_pool m) p' → (∀ i, pool_has p' i → pool_has (m_pool m) i ∨ is_Some (m_bindings m !! i)) →
  (∀ i, pool_has p' i → removing i (t_code t) → removing i k) →
  (∀ r s, c = Claim_ r false s → s ≠ Gone → is_Some (m_bindings m !! cr_id r)) →
  tidy (shut p') (published p') c k → goes_on m (set_pool p' m) n t c k.
Proof. intros. constructor; cbn; eauto using kept_refl. Qed.

Lemma goes_on_bindings m n t b' c k :
  (∀ i, pool_has (m_pool m) i → is_Some (m_bindings m !! i) → is_Some (b' !! i) ∨ removing i k) →
  (∀ i, removing i (t_code t) → removing i k) →
  (∀ j u r s, j ≠ n → m_tasks m !! j = Some u → t_claim u = Claim_ r false s →
    is_Some (m_bindings m !! cr_id r) → is_Some (b' !! cr_id r)) →
  (∀ r s, c = Claim_ r false s → s ≠ Gone → is_Some (b' !! cr_id r)) →
  tidy (shut (m_pool m)) (published (m_pool m)) c k → goes_on m (set_bindings b' m) n t c k.
Proof. intros. constructor; cbn; eauto using kept_refl, grows_refl. Qed.

Lemma goes_on_tasks m m' n t k :
  slots_ok m → m_tasks m !! n = Some t → m_pool m' = m_pool m → m_bindings m' = m_bindings m →
  kept (m_pool m) (m_tasks m) (m_tasks m') → (∀ i, removing i (t_code t) → removing i k) →
  tidy (shut (m_pool m)) (published (m_pool m)) (t_claim t) k → goes_on m m' n t (t_claim t) k.
Proof.
  intros Hs Hn E1 E2 Hk Hr Ht. constructor; rewrite ?E1, ?E2; eauto using grows_refl. intros r s Hc. by eapply so_fresh.
Qed.

(** A connection that is not in the pool yet is touched by its own task only. *)
Lemma fresh_elsewhere m n t i k j u r s :
  machine_ok m → m_tasks m !! n = Some t →
  op_tidy (shut (m_pool m)) (published (m_pool m)) (Bind_Remove i) (t_claim t) k ∨ claim_on i (t_claim t) →
  j ≠ n → m_tasks m !! j = Some u → t_claim u = Claim_ r false s → cr_id r ≠ i.
Proof.
  intros [Hco _] Hn Ho Hne Hj Hu <-. apply claims_lookup in Hn, Hj. rewrite Hu in Hj.
  destruct (co_claim _ _ _ _ Hco j r false s Hj) as [(x & Hx & _ & Hnh & Hop) Hown _]. specialize (Hown eq_refl).
  assert (Hmine : ¬ claim_on (cr_id r) (t_claim t)).
  { intros Hc. apply Hne. eapply (holder_unique (cr_id r) n j); [by rewrite Hown|done|done|done|done]. }
  destruct Ho as [[(r' & s' & Hc & Hr)|[(y & Hy & Hcl)|[[(y & Hy & Hp)|(r' & s' & Hc & Hr)] _]]]|Ho]; [| | | |done].
  - apply Hmine. by rewrite Hc.
  - apply Hcl. congruence.
  - assert (y = x) as -> by congruence. by destruct Hp.
  - apply Hmine. by rewrite Hc.
Qed.

Lemma delete_is_Some {A} (b : gmap ConnectionId A) i j : j ≠ i → is_Some (b !! j) → is_Some (delete i b !! j).
Proof. intros Hne. by rewrite lookup_delete_ne. Qed.
Lemma insert_is_Some {A} (b : gmap ConnectionId A) i j (y : A) : is_Some (b !! j) → is_Some (<[i := y]> b !! j).
Proof. intros Hj. apply lookup_insert_is_Some. destruct (decide (i = j)); [by left|by right]. Qed.

Lemma removing_next i o k : o ≠ Pool_Remove i → removing i (Do o k) → removing i k.
Proof. intros Hne [?|?]; done. Qed.

(** The eviction hook is tidy, and takes nothing from what follows. *)
Lemma run_hook_tidy (p p' : P) l c k :
  hooked p p' l → (∀ j, claim_on j c → ∃ x, pool_conn p' j = Some x ∧ open x) →
  tidy (shut p') (published p') c k → tidy (shut p') (published p') c (run_hook p p' k).
Proof.
  intros [E Hl] Hc Hk. unfold run_hook. rewrite E, drop_app_length. apply hook_tidy; [|done].
  intros j Hj. destruct (Hl j Hj) as (x & Hx & Hcl). split; [exists x; by split; [|intros []]|].
  intros Hon. destruct (Hc j Hon) as (y & Hy & Ho). apply Ho. congruence.
Qed.

Lemma run_hook_removing (p p' : P) i k : removing i k → removing i (run_hook p p' k).
Proof. apply hook_removing. Qed.

Lemma effect_grows f (p p' : P) : (∀ j, steady (f j)) → effect f p p' → grows p p'.
Proof. intros. by eapply shift_grows, effect_shift. Qed.

Lemma effect_goes_on f m n t p' k :
  (∀ j, steady (f j)) → effect f (m_pool m) p' → (∀ i, removing i (t_code t) → removing i k) →
  tidy (shut (m_pool m)) (published (m_pool m)) No_Claim k →
  goes_on m (set_pool p' m) n t No_Claim (run_hook (m_pool m) p' k).
Proof.
  intros Hf He Hr Hk. pose proof (effect_grows f _ _ Hf He) as Hg. destruct (ef_hooked _ _ _ He) as [l Hl].
  apply goes_on_pool; [done|left; by eapply ef_has| |done|].
  - intros i _ Hi. by apply run_hook_removing, Hr.
  - apply (run_hook_tidy _ _ l); [done|done|]. by eapply task_tidy_mono.
Qed.

Lemma bind_remove_goes_on m n t i k :
  machine_ok m → slots_ok m → m_tasks m !! n = Some t → t_code t = Do (Bind_Remove i) k →
  goes_on m (set_bindings (delete i (m_bindings m)) m) n t (after_op (Bind_Remove i) (t_claim t)) k.
Proof.
  intros Hm Hs Hn Hk. pose proof (so_tidy _ Hs n t Hn) as Ht. unfold task_tidy in Ht. rewrite Hk in Ht. destruct Ht as [Ho Ht].
  apply goes_on_bindings; [| | |cbn [after_op]|done].
  - intros j Hj Hb. destruct (decide (j = i)) as [->|Hne]; [|left; by apply delete_is_Some]. right. destruct Ho as [Ho|[Ho|[_ Ho]]]; [| |done].
    + destruct Ho as (r & s & Hc & <-). pose proof (claims_lookup m n t Hn) as Hcn. rewrite Hc in Hcn.
      by destruct (ck_conn _ _ _ _ _ _ (co_claim _ _ _ _ (mo_core _ Hm) n r false s Hcn)) as (x & _ & _ & ? & _).
    + by apply (shut_not_pooled (m_pool m) i) in Ho; [|apply (co_wf _ _ _ _ (mo_core _ Hm))].
  - intros j. rewrite Hk. by apply removing_next.
  - intros j u r s Hne Hj Hu. apply delete_is_Some. eapply (fresh_elsewhere m n t i k); [done|done|by left|done..].
  - intros r s. case_decide as Hon; [by destruct (t_claim t); intros [= -> -> <-]|]. intros Hc Hg. apply delete_is_Some.
    + intros <-. apply Hon. by rewrite Hc.
    + by eapply so_fresh.
Qed.

Lemma publish_goes_on m n t i k now :
  machine_ok m → slots_ok m → m_tasks m !! n = Some t → t_code t = Do (Pool_Insert i) k → op_ok (Pool_Insert i) (t_claim t) →
  let p' := put_in now (m_pool m) i in
  goes_on m (set_pool p' m) n t (after_op (Pool_Insert i) (t_claim t)) (run_hook (m_pool m) p' k).
Proof.
  intros Hm Hs Hn Hk (r & s & Hc & <-) p'. pose proof (so_tidy _ Hs n t Hn) as Ht. unfold task_tidy in Ht. rewrite Hk in Ht. destruct Ht as [Ho Ht].
  destruct Ho as (r' & s' & Hc' & Hs'). pose proof (claims_lookup m n t Hn) as Hcn. rewrite Hc in *. injection Hc' as <- <-.
  pose proof (mo_core _ Hm) as Hco. destruct (core_publish _ _ _ _ n r s now Hco Hcn) as (Hco' & [l Hl] & Hop).
  destruct (co_claim _ _ _ _ Hco n r false s Hcn) as [(x & Hx & Hp & Hnh & Hox) _ _].
  destruct (put_in_law (m_pool m) now (cr_id r) x (co_wf _ _ _ _ Hco) Hx Hox Hnh) as (Hwf & Hhas & Hcase & _).
  assert (Hg : grows (m_pool m) p').
  { intros j. split; intros (y & Hy & Hq); destruct (Hcase j) as [[E E']|[E _]]; (eexists; split; [unfold p'; by rewrite E, Hy|]); cbn.
    - done.
    - intros Ho. by destruct Ho.
    - destruct Hq; [left; apply E'; by left|by right].
    - right. intros Ho. by destruct Ho. }
  cbn [after_op] in *. rewrite decide_True in * by done. apply goes_on_pool; [done| | |done|].
  - intros j Hj. destruct (Hhas j Hj) as [| ->]; [by left|]. right. eapply so_fresh; [done|done|exact Hc|done].
  - intros j _ Hr. rewrite Hk in Hr. by apply run_hook_removing, (removing_next j (Pool_Insert (cr_id r))).
  - apply (run_hook_tidy _ _ l); [done| |by eapply task_tidy_mono]. intros j <-.
    destruct (ck_conn _ _ _ _ _ _ (co_claim _ _ _ _ Hco' n r true s (list_lookup_insert_eq _ _ _ (lookup_lt_Some _ _ _ Hcn)))) as (y & Hy & _).
    exists y. split; [done|by apply Hop].
Qed.

Lemma deallocate_grows (p : P) i : well_formed p → ¬ published p i → grows p (deallocate p i).
Proof.
  intros Hwf Hi. assert (Hnh : ¬ pool_has p i).
  { intros Hh. destruct (wf_has p i Hwf Hh) as (x & Hx & _). apply Hi. exists x. by split; [|left]. }
  destruct (deallocate_law p i Hwf Hnh) as (_ & Hc & Hh).
  intros j. split; intros (x & Hx & Hq); (assert (j ≠ i) by (intros ->; apply Hi; exists x; by auto)); exists x; rewrite Hc, decide_False by done; [done|].
  by rewrite Hh.
Qed.

Lemma allocate_grows (p : P) i c : well_formed p → pool_conn p i = None → conn_ok c → grows p (allocate p i c).
Proof.
  intros Hwf Hi Hok. destruct (allocate_law p i c Hwf Hi Hok) as (_ & Hc & Hh).
  intros j. split; intros (x & Hx & Hq); (assert (j ≠ i) by congruence); exists x; rewrite Hc, decide_False by done; [done|].
  by rewrite Hh.
Qed.

Lemma fresh_not_published m n r s : machine_ok m → claims m !! n = Some (Claim_ r false s) → ¬ published (m_pool m) (cr_id r).
Proof.
  intros [Hco _] Hn (x & Hx & Hq). destruct (co_claim _ _ _ _ Hco n r false s Hn) as [(y & Hy & _ & Hnh & Ho) _ _].
  assert (y = x) as -> by congruence. by destruct Hq.
Qed.

Lemma op_goes_on now o k m n t :
  machine_ok m → slots_ok m → m_tasks m !! n = Some t → t_code t = Do o k → op_ok o (t_claim t) →
  goes_on m (exec_op now o k m).1 n t (after_op o (t_claim t)) (exec_op now o k m).2.
Proof.
  intros Hm Hs Hn Hk Ho. pose proof (mo_core _ Hm) as Hco. pose proof (claims_lookup m n t Hn) as Hcn.
  pose proof (co_wf _ _ _ _ Hco) as Hwf. pose proof (so_tidy _ Hs n t Hn) as Ht. unfold task_tidy in Ht. rewrite Hk in Ht. destruct Ht as [_ Ht].
  assert (Hrm : (∀ i, o ≠ Pool_Remove i) → ∀ i, removing i (t_code t) → removing i k)
    by (intros Hne i; rewrite Hk; by apply removing_next).
  assert (Hown : ∀ r s, t_claim t = Claim_ r false s → s ≠ Gone → is_Some (m_bindings m !! cr_id r)) by (intros; by eapply so_fresh).
  destruct o as [i p|i|i|i|i|i|i h|i|i|x|]; cbn [exec_op fst snd].
  - destruct Ho as (r & Hc & <- & <-). apply goes_on_bindings; [| by apply Hrm| | |done].
    + left. by apply insert_is_Some.
    + intros. by apply insert_is_Some.
    + rewrite Hc. cbn. rewrite decide_True by done. intros r' s [= <- <-] _. apply lookup_insert_is_Some. by left.
  - by apply bind_remove_goes_on.
  - by apply publish_goes_on.
  - destruct (take_out_law (m_pool m) i Hwf) as (_ & Hni & Hhas & _). pose proof (shift_grows _ _ (take_out_shift _ i Hwf)) as Hg.
    apply goes_on_pool; [done| | | |by eapply task_tidy_mono].
    + intros j [Hj _]%Hhas. by left.
    + intros j [_ Hne]%Hhas. rewrite Hk. apply removing_next. congruence.
    + intros r s. cbn. unfold drop_claim_on. case_decide; [done|]. apply Hown.
  - destruct (degrade_law (m_pool m) i Hwf) as [_ He].
    pose proof (effect_grows _ _ _ (λ j, steady_at i _ j steady_mark) He) as Hg.
    apply goes_on_pool; [done|left; by eapply ef_has|intros j _; by apply Hrm|done|by eapply task_tidy_mono].
  - destruct Ho as (r & Hc & <-). rewrite Hc in Hcn. pose proof (fresh_not_published m n r Gone Hm Hcn) as Hnp.
    assert (Hnh : ¬ pool_has (m_pool m) (cr_id r)).
    { intros Hh. destruct (wf_has _ _ Hwf Hh) as (x & Hx & _). apply Hnp. exists x. by split; [|left]. }
    destruct (deallocate_law (m_pool m) (cr_id r) Hwf Hnh) as (_ & _ & Hhas). pose proof (deallocate_grows _ _ Hwf Hnp) as Hg.
    apply goes_on_pool; [done|intros j Hj%Hhas; by left|intros j _; by apply Hrm| |by eapply task_tidy_mono].
    rewrite Hc. cbn. by rewrite drop_claim_same.
  - apply goes_on_tasks; [done|done| | |apply (kept_abort _ _ (set_handles (<[i := Some h]> (m_handles m)) m))|by apply Hrm|done];
      by destruct (abort_handle_same (m_handles m !! i) (set_handles (<[i := Some h]> (m_handles m)) m)) as (? & ? & _).
  - apply goes_on_tasks; [done|done| | |apply (kept_abort _ _ (set_handles (delete i (m_handles m)) m))|by apply Hrm|done];
      by destruct (abort_handle_same (m_handles m !! i) (set_handles (delete i (m_handles m)) m)) as (? & ? & _).
  - apply goes_on_tasks; [done|done|done|done|apply kept_refl|by apply Hrm|done].
  - apply goes_on_tasks; [done|done|done|done|apply kept_refl|by apply Hrm|done].
  - destruct (prune_law (m_pool m) now Hwf) as [_ He]. cbn in Ho, Ht |- *. rewrite Ho in *.
    by apply (effect_goes_on unchanged); [apply steady_unchanged|done|apply Hrm|].
Qed.

Lemma query_goes_on now q k m n t :
  machine_ok m → slots_ok m → m_tasks m !! n = Some t → t_code t = Query_ q k → query_ok q (t_claim t) →
  let '(m', b) := exec_query now q m in
  goes_on m m' n t (after_query q b (t_claim t)) (run_hook (m_pool m) (m_pool m') (k b)).
Proof.
  intros Hm Hs Hn Hk Hq. pose proof (mo_core _ Hm) as Hco. pose proof (claims_lookup m n t Hn) as Hcn.
  pose proof (co_wf _ _ _ _ Hco) as Hwf. pose proof (so_tidy _ Hs n t Hn) as Ht. unfold task_tidy in Ht. rewrite Hk in Ht. cbn in Ht.
  assert (Hrm : ∀ k' i, removing i (t_code t) → removing i k') by (intros k' i; by rewrite Hk).
  destruct q as [i|i|r|a]; cbn [exec_query].
  - rewrite run_hook_same by done. by apply goes_on_tasks; [..|apply kept_refl|apply Hrm|apply Ht].
  - destruct Hq as (r & q & Hc & <-). unfold put_sender.
    assert (Ht' : ∀ b : bool, tidy (shut (m_pool m)) (published (m_pool m)) (Claim_ r q (if b then In_Slot else Gone)) (k b)).
    { intros b. specialize (Ht b). rewrite Hc in Ht. cbn in Ht. by rewrite decide_True in Ht by done. }
    rewrite Hc in *.
    assert (Hsame : ∀ s, s = In_Hand ∨ s = Gone → ∀ r' s', Claim_ r q s = Claim_ r' false s' → s' ≠ Gone → is_Some (m_bindings m !! cr_id r')).
    { intros s Hor r' s' [= <- -> <-] Hg. eapply so_fresh; [done|done|exact Hc|done]. }
    destruct (m_bindings m !! cr_id r) as [[]|] eqn:Eb; rewrite run_hook_same by done; cbn; rewrite decide_True by done.
    + apply goes_on_bindings; [left; by apply insert_is_Some|apply Hrm|intros; by apply insert_is_Some| |apply (Ht' true)].
      intros r' s' [= <- -> <-] _. apply lookup_insert_is_Some. by left.
    + apply goes_on_bindings; [left; done|apply Hrm|done|apply Hsame; by right|apply (Ht' false)].
    + apply goes_on_bindings; [left; done|apply Hrm|done|apply Hsame; by right|apply (Ht' false)].
  - destruct Hq as (s & Hc & Hsl). destruct (give_back now (m_pool m) (cr_id r)) as [p' released] eqn:E.
    destruct (give_back_law _ now (cr_id r) p' released Hwf E) as (_ & He & _). rewrite Hc in *. cbn in *. rewrite drop_claim_same in *.
    apply (effect_goes_on (at_conn (cr_id r) (snd ∘ conn_release now))); [intros; apply steady_at, steady_release|done|apply Hrm|].
    eapply tidy_mono; [done| |apply (Ht released)]. intros j [->|]; [|done].
    destruct (ck_conn _ _ _ _ _ _ (co_claim _ _ _ _ Hco n r true s Hcn)) as (x & Hx & _ & Hp). by exists x.
  - destruct (check_in_use now (m_pool m) a) as [p' b] eqn:E. destruct (in_use_law _ now a p' b Hwf E) as (_ & He).
    cbn in *. rewrite Hq in *. by apply (effect_goes_on unchanged); [apply steady_unchanged|done|apply Hrm|].
Qed.

Lemma taken_goes_on m n t p' r k :
  machine_ok m → slots_ok m → m_tasks m !! n = Some t → t_claim t = No_Claim → (∀ i, ¬ removing i (t_code t)) → well_formed p' →
  match r with
  | None => effect unchanged (m_pool m) p'
  | Some i => pool_has (m_pool m) i ∧ (∃ c, pool_conn (m_pool m) i = Some c ∧ can_acquire c = true) ∧
              effect (at_conn i (snd ∘ try_acquire)) (m_pool m) p'
  end →
  tidy (shut (m_pool m)) (published (m_pool m)) (claim_of (ref_in p' r)) k →
  goes_on m (set_pool p' m) n t (claim_of (ref_in p' r)) (run_hook (m_pool m) p' k).
Proof.
  intros Hm Hs Hn Hc Hrm Hwf Hr Hk. pose proof (mo_core _ Hm) as Hco. pose proof (claims_lookup m n t Hn) as Hcn. rewrite Hc in Hcn.
  destruct r as [i|].
  - destruct Hr as (Hi & (x0 & Hx0 & Hca) & He).
    destruct (core_take _ p' _ _ _ n i x0 Hco Hcn Hwf Hi Hx0 Hca He) as (x & Hx & Hop & _).
    assert (Hrf : ref_in p' (Some i) = Some (ref_of i x)) by (unfold ref_in; simpl; by rewrite Hx). rewrite Hrf in *.
    pose proof (effect_grows _ _ _ (λ j, steady_at i _ j steady_acquire) He) as Hg. destruct (ef_hooked _ _ _ He) as [l Hl].
    apply goes_on_pool; [done|left; by eapply ef_has|intros j _ Hj; by destruct (Hrm j)|done|].
    apply (run_hook_tidy _ _ l); [done| |by eapply task_tidy_mono]. intros j <-. by exists x.
  - apply (effect_goes_on unchanged); [apply steady_unchanged|done| |done]. intros j Hj. by destruct (Hrm j).
Qed.

Lemma bind_acquire_goes_on m n t i k :
  machine_ok m → slots_ok m → m_tasks m !! n = Some t → t_code t = Bind_Acquire i k → claim_on i (t_claim t) →
  let '(b, result) := binding_acquire (m_closed m) i (m_bindings m) in
  goes_on m (set_bindings b m) n t (after_bind result (t_claim t)) (k result).
Proof.
  intros Hm Hs Hn Hk Hon. pose proof (so_tidy _ Hs n t Hn) as Ht. unfold task_tidy in Ht. rewrite Hk in Ht. destruct Ht as [Ho Ht].
  assert (Hrm : ∀ k' i, removing i (t_code t) → removing i k') by (intros k' j; by rewrite Hk).
  assert (Hown : ∀ s r s', (s = In_Hand → t_claim t ≠ No_Claim) → with_sender s (t_claim t) = Claim_ r false s' → cr_id r = i).
  { intros s r s' _. destruct (t_claim t); [done|]. by intros [= <- _ _]. }
  assert (Hgone : ∀ b', (∀ j, j ≠ i → is_Some (m_bindings m !! j) → is_Some (b' !! j)) →
    goes_on m (set_bindings b' m) n t (with_sender Gone (t_claim t)) (k Stale)).
  { intros b' Hb'. apply goes_on_bindings; [|apply Hrm| | |apply (Ht Stale)].
    - intros j Hj Hb. destruct (decide (j = i)) as [->|]; [|left; by apply Hb']. destruct Ho as [(r & s & Hc & <-)|Ho]; [|by right].
      pose proof (claims_lookup m n t Hn) as Hcn. rewrite Hc in Hcn.
      by destruct (ck_conn _ _ _ _ _ _ (co_claim _ _ _ _ (mo_core _ Hm) n r false s Hcn)) as (x & _ & _ & ? & _).
    - intros j u r s Hne Hj Hu. apply Hb'. eapply (fresh_elsewhere m n t i (k Stale)); [done|done|by right|done..].
    - intros r s. destruct (t_claim t); [done|]. by intros [= _ _ <-]. }
  assert (Hsame : ∀ r s, t_claim t = Claim_ r false s → s ≠ Gone → is_Some (m_bindings m !! cr_id r)) by (intros; by eapply so_fresh).
  unfold binding_acquire. destruct (m_bindings m !! i) as [[[]|]|] eqn:Eb.
  - case_bool_decide; [apply Hgone; intros; by apply delete_is_Some|].
    apply goes_on_bindings; [left; by apply insert_is_Some|apply Hrm|intros; by apply insert_is_Some| |apply (Ht (Acquired Acquired_Http1))].
    cbn. intros r s Hc _. rewrite (Hown In_Hand r s); [|by destruct (t_claim t)|done]. apply lookup_insert_is_Some. by left.
  - by apply goes_on_bindings; [left; done|apply Hrm|done|done|apply (Ht Busy)].
  - case_bool_decide; [apply Hgone; intros; by apply delete_is_Some|].
    by apply goes_on_bindings; [left; done|apply Hrm|done|done|apply (Ht (Acquired Acquired_Http2))].
  - by apply Hgone.
Qed.

Lemma exec_slots now n t m m' :
  machine_ok m → slots_ok m → m_tasks m !! n = Some t → exec now n t m = Some m' → slots_ok m'.
Proof.
  intros Hm Hs Hn. pose proof (mo_core _ Hm) as Hco. pose proof (co_wf _ _ _ _ Hco) as Hwf. pose proof (mo_tasks _ Hm n t Hn) as Hd.
  pose proof (so_tidy _ Hs n t Hn) as Ht. unfold task_tidy in Ht. pose proof (claims_lookup m n t Hn) as Hcn.
  unfold exec. destruct (t_code t) as [e|r e|l|o k|q k|l k|a k|a rp k|i k|route p names streams k|r k|ty k|ty d k] eqn:Hk;
    cbn [disciplined] in Hd; try done.
  - intros [= <-]. eapply slots_go_on; [done|done|]. apply goes_on_tasks; [done..|apply kept_refl|by rewrite Hk|]. rewrite Hd. apply loop_clean.
  - destruct Hd as [Ho _]. pose proof (op_goes_on now o k m n t Hm Hs Hn Hk Ho). destruct (exec_op now o k m). intros [= <-]. by eapply slots_go_on.
  - destruct Hd as [Hq _]. pose proof (query_goes_on now q k m n t Hm Hs Hn Hk Hq). destruct (exec_query now q m). intros [= <-]. by eapply slots_go_on.
  - intros [= <-]. eapply slots_go_on; [done|done|]. apply goes_on_tasks; [done..|apply kept_refl|by rewrite Hk|apply Ht].
  - destruct Hd as [Hc _]. destruct (take_connection now (m_pool m) a) as [[p' r] h] eqn:E. intros [= <-].
    destruct (take_law _ _ _ _ _ _ Hwf E). eapply slots_go_on; [done|done|]. apply taken_goes_on; try done. intros i. rewrite Hk. by intros [].
  - destruct Hd as [Hc _]. destruct (take_coalesced now (m_pool m) a rp) as [p' r] eqn:E. intros [= <-].
    destruct (coalesce_law _ _ _ _ _ _ Hwf E). eapply slots_go_on; [done|done|]. apply taken_goes_on; try done. intros i. rewrite Hk. by intros [].
  - destruct Hd as (r & q & Hc & <- & _). assert (Hon : claim_on (cr_id r) (t_claim t)) by (by rewrite Hc).
    pose proof (bind_acquire_goes_on m n t (cr_id r) k Hm Hs Hn Hk Hon). destruct (binding_acquire _ _ _). intros [= <-]. by eapply slots_go_on.
  - intros [= <-]. eapply slots_go_on; [done|done|]. assert (Hnew : pool_conn (m_pool m) (m_next m) = None).
    { destruct (pool_conn (m_pool m) (m_next m)) as [y|] eqn:E; [|done]. apply (co_next _ _ _ _ Hco) in E. lia. }
    assert (Hok : conn_ok (try_acquire (connection_new now route p names streams)).2) by (apply try_acquire_ok, connection_new_ok).
    destruct (allocate_law _ _ _ Hwf Hnew Hok) as (_ & _ & Hhas). pose proof (allocate_grows _ _ _ Hwf Hnew Hok) as Hg.
    constructor; cbn; [done|apply kept_refl|intros j Hj%Hhas; by left|by left|by rewrite Hk|done|by intros r s [= _ <-]|].
    eapply task_tidy_mono; [done|apply Ht].
  - intros [= <-]. eapply slots_go_on; [done|done|]. destruct Ht as [[s Hc] Ht].
    apply goes_on_tasks; [done|done|done|done| |by rewrite Hk|apply Ht]. apply kept_spawn, driver_tidy. rewrite Hc in Hcn.
    destruct (ck_conn _ _ _ _ _ _ (co_claim _ _ _ _ Hco n r true s Hcn)) as (x & Hx & _ & Hp). by exists x.
Qed.

Lemma spawned_slots m p : slots_ok m → clean No_Claim p → slots_ok (set_tasks (m_tasks m ++ [mkTask No_Claim p]) m).
Proof.
  intros [Ht Hb Hf] Hp. constructor; cbn.
  - intros n t [Hn|[_ Hn]]%lookup_app_Some; [by apply (Ht n)|]. apply list_lookup_singleton_Some in Hn as [_ <-]. apply Hp.
  - intros i Hi. destruct (Hb i Hi) as [|(n & t & Hn & Hr)]; [by left|]. right. exists n, t. split; [by apply lookup_app_l_Some|done].
  - intros n t r s [Hn|[_ Hn]]%lookup_app_Some; [by eapply Hf|]. by apply list_lookup_singleton_Some in Hn as [_ <-].
Qed.

Lemma dropped_slots m n : slots_ok m → slots_ok (set_tasks (alter drop_task n (m_tasks m)) m).
Proof.
  intros [Ht Hb Hf]. assert (Hback : ∀ j u, alter drop_task n (m_tasks m) !! j = Some u → ∃ v, m_tasks m !! j = Some v ∧ (u = v ∨ u = drop_task v)).
  { intros j u. destruct (decide (n = j)) as [->|]; [rewrite list_lookup_alter_eq|rewrite list_lookup_alter_ne by done; by eauto].
    intros (v & Hv & ->)%fmap_Some. by eauto. }
  constructor; cbn.
  - intros j u (v & Hv & [->| ->])%Hback; [by apply (Ht j)|]. unfold task_tidy. cbn. apply drop_future_tidy. by apply (Ht j).
  - intros i Hi. destruct (Hb i Hi) as [|(j & u & Hj & Hr)]; [by left|]. right.
    destruct (kp_old _ _ _ (kept_drop (m_pool m) (m_tasks m) n) j u Hj) as (u' & Hu' & Hor). exists j, u'. split; [done|].
    destruct Hor as [->| ->]; [done|by apply removing_drop].
  - intros j u r s (v & Hv & Hor)%Hback. intros Hu Hg. eapply (Hf j v); [done| |done]. by destruct Hor as [->| ->].
Qed.

Lemma move_slots m v m' : machine_ok m → slots_ok m → move m v = Some m' → slots_ok m'.
Proof.
  intros Hm Hs. destruct v as [c| |now n|n ty a|n|i]; simpl.
  - intros [= <-]. by apply spawned_slots, exchange_clean.
  - intros [= <-]. by apply spawned_slots, (loop_clean Loop_Reaper).
  - intros (t & Hn & E)%bind_Some. by eapply exec_slots.
  - intros (t & Hn & (k & Hk & [= <-])%bind_Some)%bind_Some. eapply slots_go_on; [done|done|].
    apply goes_on_tasks; [done..|apply kept_refl| |].
    + intros i. destruct (t_code t); try done.
    + eapply answered_tidy; [by eapply (so_tidy _ Hs n)|done].
  - intros [= <-]. by apply dropped_slots.
  - intros [= <-]. by destruct Hs.
Qed.

Lemma reachable_slots m : reachable m → machine_ok m ∧ slots_ok m.
Proof.
  intros [vs Hvs]. assert (Hnew : machine_ok transport_new ∧ slots_ok transport_new).
  { split; [by apply reachable_ok; exists []|]. destruct empty_law as [Hwf Hno]. constructor; cbn; [done| |done].
    intros i Hi. destruct (wf_has _ i Hwf Hi) as (x & Hx & _). rewrite Hno in Hx. done. }
  revert Hvs Hnew. generalize transport_new as m0. induction vs as [|v vs IH]; intros m0; simpl; [by intros [= <-]|].
  intros (m1 & E & Hr)%bind_Some [Hm Hs]. apply (IH m1); [done|]. split; [by eapply move_ok|by eapply move_slots].
Qed.

(** ** Theorems *)

(** The task has the HTTP/1 sender of connection [i] in hand. *)
Definition has_sender (i : ConnectionId) (t : Task) : Prop := ∃ r q, t_claim t = Claim_ r q In_Hand ∧ cr_id r = i.

Lemma idle_not_out m i x :
  machine_ok m → pool_conn (m_pool m) i = Some x → idle x → m_bindings m !! i ≠ Some (Binding_Http1 false).
Proof.
  intros [Hco _] Hx [Ho Hi]%idle_iff Hb. destruct (co_slot _ _ _ _ Hco i Hb) as (n & r & q & Hn & Hr).
  destruct (co_acc _ _ _ _ Hco i x Hx) as [_ Ha]. pose proof (holders_pos i n _ _ Hn Hr). specialize (Ha Ho). lia.
Qed.

(** The binding of an idle connection of the pool, sender included. *)
Definition full_binding (x : RealConnection) : ConnectionBinding :=
  match protocol x with Http1 => Binding_Http1 true | Http2 => Binding_Http2 end.

Lemma idle_bound m i x :
  machine_ok m → slots_ok m → pool_has (m_pool m) i → pool_conn (m_pool m) i = Some x → idle x →
  m_bindings m !! i = Some (full_binding x) ∨ ∃ n t, m_tasks m !! n = Some t ∧ removing i (t_code t).
Proof.
  intros Hm Hs Hi Hx Hid. destruct (so_bound _ Hs i Hi) as [[y Hy]|]; [left|by right]. pose proof (idle_not_out m i x Hm Hx Hid) as Hno.
  destruct (co_kind _ _ _ _ (mo_core _ Hm) i y Hy) as (z & Hz & Hp). assert (z = x) as -> by congruence.
  unfold full_binding. rewrite Hp, Hy in *. by destruct y as [[]|].
Qed.

(** C5.  The sender of an HTTP/1 connection is exclusive and not lost, in every interleaving of exchanges,
    connection tasks, the reaper, evictions and dropped futures: no two tasks have it in hand; a task that has
    allocated the connection never finds the sender checked out by another ([Busy] does not occur); a sender is
    put back only into an empty slot; while a connection carries no exchange its sender is not checked out; and the binding of
    a connection that is in the pool and carries no exchange is there, with the sender in the slot of an HTTP/1
    connection, unless a task is already taking the connection out of the pool. *)
Theorem http1_sender_exclusive m i :
  reachable m →
  (∀ n n' t t', m_tasks m !! n = Some t → m_tasks m !! n' = Some t' → has_sender i t → has_sender i t' → n = n') ∧
  (∀ n t k, m_tasks m !! n = Some t → t_code t = Bind_Acquire i k → (binding_acquire (m_closed m) i (m_bindings m)).2 ≠ Busy) ∧
  (∀ n t k y, m_tasks m !! n = Some t → t_code t = Query_ (Put_Sender i) k → m_bindings m !! i = Some y → y = Binding_Http1 false) ∧
  (∀ x, pool_conn (m_pool m) i = Some x → idle x → m_bindings m !! i ≠ Some (Binding_Http1 false)) ∧
  (∀ x, pool_has (m_pool m) i → pool_conn (m_pool m) i = Some x → idle x →
     m_bindings m !! i = Some (full_binding x) ∨ ∃ n t, m_tasks m !! n = Some t ∧ removing i (t_code t)).
Proof.
  intros Hr. apply reachable_slots in Hr as [Hm Hs]. pose proof Hm as [Hco Ht].
  split_and!; [| | |by intros; eapply idle_not_out|by intros; apply idle_bound].
  - intros n n' t t' Hn Hn' (r & q & Hc & <-) (r' & q' & Hc' & Hr'). apply claims_lookup in Hn, Hn'. rewrite Hc in Hn. rewrite Hc' in Hn'.
    pose proof (ck_sender _ _ _ _ _ _ (co_claim _ _ _ _ Hco n r q In_Hand Hn)) as [Hp _].
    symmetry. eapply (holder_unique (cr_id r) n n' _ _ (claims m)); [by eapply http1_one_holder|done|done|done|done].
  - intros n t k Hn Hk. pose proof (Ht n t Hn) as Hd. rewrite Hk in Hd. destruct Hd as (r & q & Hc & <- & _).
    apply claims_lookup in Hn. rewrite Hc in Hn. pose proof (core_bind_acquire _ _ _ _ n r q (m_closed m) Hco Hn) as Hb.
    destruct (binding_acquire _ _ _) as [b' res]. by destruct Hb as [[->| ->] _].
  - intros n t k y Hn Hk Hy. pose proof (Ht n t Hn) as Hd. rewrite Hk in Hd. destruct Hd as [(r & q & Hc & <-) _].
    apply claims_lookup in Hn. rewrite Hc in Hn. pose proof (core_put_sender _ _ _ _ n r q Hco Hn) as Hp.
    destruct (put_sender _ _) as [b' put]. destruct Hp as [Hp _]. by apply Hp.
Qed.




End Slots.

(** ** The two calls of TransportSafety.v *)

Module SlotsDemo.
Import TransportDemo.
#[local] Existing Instance demo_pool.
#[local] Existing Instance demo_laws.

(** An exchange done over HTTP/1: its connection is idle, and its binding holds the sender; while the response
    was in hand it did not. *)
Lemma http1_sender_exclusive_witness :
  m_bindings (in_flight false) !! 0%nat = Some (Binding_Http1 false) ∧
  (∀ x, pool_conn (m_pool (in_flight false)) 0%nat = Some x → ¬ idle x) ∧
  (m_bindings done_http1 !! 0%nat = Some (Binding_Http1 true) ∨ ∃ n t, m_tasks done_http1 !! n = Some t ∧ removing 0 (t_code t)).
Proof.
  assert (Hb : m_bindings (in_flight false) !! 0%nat = Some (Binding_Http1 false)) by (vm_compute; reflexivity).
  split; [exact Hb|]. split.
  - intros x Hx Hi. destruct (http1_sender_exclusive (in_flight false) 0%nat (in_flight_reachable false)) as (_ & _ & _ & H4 & _).
    exact (H4 x Hx Hi Hb).
  - destruct (http1_sender_exclusive done_http1 0%nat done_reachable) as (_ & _ & _ & _ & H5).
    apply (H5 (the_connection done_http1 0)); vm_compute; [by eexists|reflexivity..].
Defined.


End SlotsDemo.
