(* ===== verification/Calls.v ===== *)
(** * Calls

    openwire/src/client.rs: the life of a call - executing or enqueueing it once, its deadline and its
    cancellation from any handle, the report to the listener and the body that ends the call - the chain of services a call
    runs through, and the controller of the pool reaper.

    The future of a call and the body of its response are driven by polls; handles cancel from other threads
    them and in the middle of them, in atomic steps (the flag, the wake-up, the notification).  A [CallWorld] is the call with
    what its listener was told and what its user has seen; the service chain and the response body are parameters
    ([service_poll], [HttpBody]).  That a canceled call is polled again is the business of the waker, in a machine of
    its own ([WakeWorld]) whose steps are single accesses to the shared state. *)

From S2P Require Import Prelude Net Error Http Request Pool ObservedBody.

(** ** State *)

(** [CallState], openwire/client.rs:193-199. *)
Record CallState : Type := mkCallState {
  cs_executed : bool;
  cs_canceled : bool;
  cs_canceled_notified : bool;
}.

(** [CallState::new], openwire/client.rs:202-210. *)
Definition call_state_new : CallState := mkCallState false false false.

(** What the listener of a call is told about the call as a whole. *)
Inductive CallEvent : Type := Ev_QueueStart | Ev_CallStart | Ev_CallEnd | Ev_CallFailed (e : WireError) | Ev_Canceled.

(** [call_canceled_error], openwire/client.rs:1500-1502. *)
Definition call_canceled_error : WireError := canceled "call canceled".

(** [CallState::cancel], openwire/client.rs:922-922: storing the flag. *)
Definition cancel_store (s : CallState) : CallState := mkCallState (cs_executed s) true (cs_canceled_notified s).

(** [CallState::cancel], openwire/client.rs:924-926: the notification, which only the first cancellation sends. *)
Definition cancel_notify (s : CallState) : CallState * list CallEvent :=
  (mkCallState (cs_executed s) (cs_canceled s) true, if cs_canceled_notified s then [] else [Ev_Canceled]).

(** [mark_executed], openwire/client.rs:1065-1076. *)
Definition mark_executed (s : CallState) : outcome WireError CallState :=
  if cs_executed s then Err (invalid_request "call has already been executed")
  else Ok (mkCallState true (cs_canceled s) (cs_canceled_notified s)).

(** [with_tls_alpn_preference], openwire-core/context.rs:80-101, the deadline of the new context. *)
Definition context_deadline (now : Instant) (timeout : option Duration) : outcome WireError (option Instant) :=
  match timeout with
  | None => Ok None
  | Some t => if now + t <=? INSTANT_MAX then Ok (Some (now + t)) else Panic
  end.

(** ** The body that ends the call *)

Section Body.
Context {B : Type} `{HttpBody WireError B}.

(** [CallLifecycleBody], openwire/client.rs:1551-1558. *)
Record CallLifecycleBody : Type := mkLifecycle {
  lb_inner : option B;
  lb_admission : bool;
  lb_finished : bool;
}.

(** [CallLifecycleBody::new], openwire/client.rs:1561-1574. *)
Definition lifecycle_new (b : B) (admission : bool) : CallLifecycleBody := mkLifecycle (Some b) admission false.

(** [CallLifecycleBody::finish_successfully], openwire/client.rs:1576-1583. *)
Definition lifecycle_finish_successfully (b : CallLifecycleBody) : CallLifecycleBody * list CallEvent :=
  if lb_finished b then (b, []) else (mkLifecycle None (lb_admission b) true, [Ev_CallEnd]).

(** [CallLifecycleBody::finish_with_error], openwire/client.rs:1585-1592. *)
Definition lifecycle_finish_with_error (e : WireError) (b : CallLifecycleBody) : CallLifecycleBody * list CallEvent :=
  if lb_finished b then (b, []) else (mkLifecycle None (lb_admission b) true, [Ev_CallFailed e]).

(** [CallLifecycleBody::finish_abandoned], openwire/client.rs:1594-1607, run by its [Drop]. *)
Definition lifecycle_finish_abandoned (is_canceled : bool) (b : CallLifecycleBody) : CallLifecycleBody * list CallEvent :=
  if lb_finished b then (b, []) else
  (mkLifecycle None (lb_admission b) true, [if is_canceled then Ev_CallFailed call_canceled_error else Ev_CallEnd]).

(** [Body::poll_frame for CallLifecycleBody], openwire/client.rs:1620-1649. *)
Definition lifecycle_poll_frame (is_canceled : bool) (b : CallLifecycleBody)
    : poll (option (WireError + Frame)) * CallLifecycleBody * list CallEvent :=
  if lb_finished b then (Ready None, b, []) else
  if is_canceled then
    let '(b, ev) := lifecycle_finish_with_error call_canceled_error b in (Ready (Some (inl call_canceled_error)), b, ev)
  else
  match lb_inner b with
  | None => (Ready None, b, [])
  | Some inner =>
    let '(p, inner) := body_poll_frame inner in
    let b := mkLifecycle (Some inner) (lb_admission b) (lb_finished b) in
    match p with
    | Ready (Some (inr f)) => (Ready (Some (inr f)), b, [])
    | Ready (Some (inl e)) => let '(b, ev) := lifecycle_finish_with_error e b in (Ready (Some (inl e)), b, ev)
    | Ready None => let '(b, ev) := lifecycle_finish_successfully b in (Ready None, b, ev)
    | Pending => (Pending, b, [])
    end
  end.

(** [Body::is_end_stream for CallLifecycleBody], openwire/client.rs:1651-1656. *)
Definition lifecycle_is_end_stream (b : CallLifecycleBody) : bool :=
  match lb_inner b with Some inner => body_is_end_stream inner | None => true end.
End Body.
Arguments CallLifecycleBody : clear implicits.

(** ** The call *)

Section Calls.
Context {S B : Type} `{HttpBody WireError B}.
(** The chain of services: the response is its body and whether an admission is held in the extensions. *)
Variable service_poll : S → poll (WireError + B * bool) * S.
Variable debug : Duration → string.

(** [with_call_deadline], openwire/client.rs:1447-1469, one poll: [timeout] is the time left when it was first polled and
    [expired] whether that has passed. *)
Definition with_call_deadline (expired : bool) (timeout : option Duration) (s : S) : poll (WireError + B * bool) * S :=
  match timeout with
  | None => service_poll s
  | Some t =>
    match service_poll s with
    | (Ready r, s) => (Ready r, s)
    | (Pending, s) => (if expired then Ready (inl (Error.timeout ("call timed out after " +:+ debug t))) else Pending, s)
    end
  end.

(** [with_call_cancellation], openwire/client.rs:1471-1486, a poll after the first check: the call itself comes first. *)
Definition with_call_cancellation (is_canceled expired : bool) (timeout : option Duration) (s : S) : poll (WireError + B * bool) * S :=
  match with_call_deadline expired timeout s with
  | (Ready r, s) => (Ready r, s)
  | (Pending, s) => (if is_canceled then Ready (inl call_canceled_error) else Pending, s)
  end.

(** Where a call is. *)
Inductive Phase : Type :=
| Ph_New (s : S)
| Ph_Prepared (deadline : option Instant) (s : S)
| Ph_Waiting (timeout : option Duration) (s : S)
| Ph_Refused (e : WireError)
| Ph_Panicked
| Ph_Failed (e : WireError)
| Ph_Dropped (started : bool)
| Ph_Body (b : CallLifecycleBody B)
| Ph_Closed (canceled_before : bool).

(** The call, [w_cancelling] handles in the middle of [cancel], what the listener was told and what the polls of
    the body returned. *)
Record CallWorld : Type := mkWorld {
  w_state : CallState;
  w_cancelling : nat;
  w_phase : Phase;
  w_events : list CallEvent;
  w_frames : list (poll (option (WireError + Frame)));
}.

Definition set_phase (ph : Phase) (w : CallWorld) : CallWorld :=
  mkWorld (w_state w) (w_cancelling w) ph (w_events w) (w_frames w).
Definition report (evs : list CallEvent) (w : CallWorld) : CallWorld :=
  mkWorld (w_state w) (w_cancelling w) (w_phase w) (w_events w ++ evs) (w_frames w).
Definition set_state (s : CallState) (w : CallWorld) : CallWorld :=
  mkWorld s (w_cancelling w) (w_phase w) (w_events w) (w_frames w).

(** A handle stores the flag; its notification is still to come. *)
Definition store_flag (w : CallWorld) : CallWorld :=
  mkWorld (cancel_store (w_state w)) (Datatypes.S (w_cancelling w)) (w_phase w) (w_events w) (w_frames w).

(** [new_call], openwire/client.rs:755-763. *)
Definition new_call (s : S) : CallWorld := mkWorld call_state_new 0 (Ph_New s) [] [].

(** [build_context], openwire/client.rs:1078-1091: the configuration of the call and the deadline it gives the context. *)
Definition build_context (config : EffectiveRequestConfig) (options : CallOptions) (now : Instant)
    : outcome WireError (EffectiveRequestConfig * option Instant) :=
  let request_config := with_overrides config options in
  let? deadline := context_deadline now (ec_call_timeout request_config) in
  Ok (request_config, deadline).

(** [execute], openwire/client.rs:1059-1063, up to the first poll. *)
Definition execute (config : EffectiveRequestConfig) (options : CallOptions) (now : Instant) (s : S) (w : CallWorld) : CallWorld :=
  match mark_executed (w_state w) with
  | Ok st =>
    let w := set_state st w in
    match build_context config options now with
    | Ok (_, deadline) => set_phase (Ph_Prepared deadline s) w
    | Err e => set_phase (Ph_Refused e) w
    | Panic => set_phase Ph_Panicked w
    end
  | Err e => set_phase (Ph_Refused e) w
  | Panic => set_phase Ph_Panicked w
  end.

(** [enqueue], openwire/client.rs:1039-1057; the executor may refuse the task. *)
Definition enqueue (config : EffectiveRequestConfig) (options : CallOptions) (now : Instant) (refused : option WireError) (s : S)
    (w : CallWorld) : CallWorld :=
  match mark_executed (w_state w) with
  | Ok st =>
    let w := set_state st w in
    match build_context config options now with
    | Ok (_, deadline) =>
      let w := report [Ev_QueueStart] w in
      match refused with
      | Some e => set_phase (Ph_Refused e) w
      | None => set_phase (Ph_Prepared deadline s) w
      end
    | Err e => set_phase (Ph_Refused e) w
    | Panic => set_phase Ph_Panicked w
    end
  | Err e => set_phase (Ph_Refused e) w
  | Panic => set_phase Ph_Panicked w
  end.

(** [attach_call_lifecycle], openwire/client.rs:1195-1209. *)
Definition attach_call_lifecycle (b : B) (admission : bool) : CallLifecycleBody B := lifecycle_new b admission.

(** The end of [execute_prepared], openwire/client.rs:1118-1128. *)
Definition conclude (r : poll (WireError + B * bool)) (timeout : option Duration) (s : S) (w : CallWorld) : CallWorld :=
  match r with
  | Ready (inr (b, admission)) => set_phase (Ph_Body (attach_call_lifecycle b admission)) w
  | Ready (inl e) => report [Ev_CallFailed e] (set_phase (Ph_Failed e) w)
  | Pending => set_phase (Ph_Waiting timeout s) w
  end.

(** [execute_prepared], openwire/client.rs:1093-1134, as its future is polled: the first poll reports the start, refuses
    a call that is already canceled and starts the clock of the deadline.  [meanwhile]: a handle stores the flag
    after that check, while the services are polled. *)
Definition poll_call (now : Instant) (expired meanwhile : bool) (w : CallWorld) : option CallWorld :=
  match w_phase w with
  | Ph_Prepared deadline s =>
    let w := report [Ev_CallStart] w in
    if cs_canceled (w_state w) then Some (conclude (Ready (inl call_canceled_error)) None s w) else
    let w := if meanwhile then store_flag w else w in
    let timeout := (λ d, saturating_sub d now) <$> deadline in
    let '(r, s) := with_call_cancellation (cs_canceled (w_state w)) expired timeout s in
    Some (conclude r timeout s w)
  | Ph_Waiting timeout s =>
    let w := if meanwhile then store_flag w else w in
    let '(r, s) := with_call_cancellation (cs_canceled (w_state w)) expired timeout s in
    Some (conclude r timeout s w)
  | _ => None
  end.

(** [await_response], openwire/client.rs:1168-1175: the sender is dropped unsent when the task is. *)
Definition await_response {R} (received : option (outcome WireError R)) : outcome WireError R :=
  match received with
  | Some r => r
  | None => Err (canceled "queued call ended before producing a response")
  end.

Inductive CallMove : Type :=
| Mv_Execute (config : EffectiveRequestConfig) (options : CallOptions) (now : Instant)
| Mv_Enqueue (config : EffectiveRequestConfig) (options : CallOptions) (now : Instant) (refused : option WireError)
| Mv_Poll (now : Instant) (expired meanwhile : bool)
| Mv_DropCall
| Mv_PollBody
| Mv_DropBody
| Mv_CancelStore
| Mv_CancelNotify.

Definition call_move (w : CallWorld) (v : CallMove) : option CallWorld :=
  match v, w_phase w with
  | Mv_Execute config options now, Ph_New s => Some (execute config options now s w)
  | Mv_Enqueue config options now refused, Ph_New s => Some (enqueue config options now refused s w)
  | Mv_Poll now expired meanwhile, _ => poll_call now expired meanwhile w
  | Mv_DropCall, Ph_New _ | Mv_DropCall, Ph_Prepared _ _ => Some (set_phase (Ph_Dropped false) w)
  | Mv_DropCall, Ph_Waiting _ _ => Some (set_phase (Ph_Dropped true) w)
  | Mv_PollBody, Ph_Body b =>
    let '(p, b, evs) := lifecycle_poll_frame (cs_canceled (w_state w)) b in
    let w := report evs (set_phase (Ph_Body b) w) in
    Some (mkWorld (w_state w) (w_cancelling w) (w_phase w) (w_events w) (w_frames w ++ [p]))
  | Mv_DropBody, Ph_Body b =>
    let '(b, evs) := lifecycle_finish_abandoned (cs_canceled (w_state w)) b in
    Some (report evs (set_phase (Ph_Closed (cs_canceled (w_state w))) w))
  | Mv_CancelStore, _ => Some (store_flag w)
  | Mv_CancelNotify, _ =>
    match w_cancelling w with
    | O => None
    | Datatypes.S n =>
      let '(st, evs) := cancel_notify (w_state w) in
      Some (mkWorld st n (w_phase w) (w_events w ++ evs) (w_frames w))
    end
  | _, _ => None
  end.

Fixpoint call_run (w : CallWorld) (vs : list CallMove) : option CallWorld :=
  match vs with
  | [] => Some w
  | v :: vs => w ← call_move w v; call_run w vs
  end.

(** ** What the listener hears *)

Definition is_lifecycle (e : CallEvent) : bool :=
  match e with Ev_CallStart | Ev_CallEnd | Ev_CallFailed _ => true | _ => false end.
Definition lifecycle (evs : list CallEvent) : list CallEvent := filter (λ e, is_lifecycle e = true) evs.
Definition is_cancellation (e : CallEvent) : bool := match e with Ev_Canceled => true | _ => false end.
Definition canceled_count (evs : list CallEvent) : Z := len (filter (λ e, is_cancellation e = true) evs).

(** The end of the call as the reader of the body sees it: the first poll that ends or fails. *)
Fixpoint verdict (ps : list (poll (option (WireError + Frame)))) : option CallEvent :=
  match ps with
  | [] => None
  | Ready None :: _ => Some Ev_CallEnd
  | Ready (Some (inl e)) :: _ => Some (Ev_CallFailed e)
  | _ :: ps => verdict ps
  end.

(** What has to have been reported. *)
Definition owed (ph : Phase) (ps : list (poll (option (WireError + Frame)))) : list CallEvent :=
  match ph with
  | Ph_New _ | Ph_Prepared _ _ | Ph_Refused _ | Ph_Panicked | Ph_Dropped false => []
  | Ph_Waiting _ _ | Ph_Dropped true => [Ev_CallStart]
  | Ph_Failed e => [Ev_CallStart; Ev_CallFailed e]
  | Ph_Body _ => Ev_CallStart :: option_list (verdict ps)
  | Ph_Closed was_canceled =>
    [Ev_CallStart; default (if was_canceled then Ev_CallFailed call_canceled_error else Ev_CallEnd) (verdict ps)]
  end.

Lemma verdict_snoc ps p : verdict (ps ++ [p]) = match verdict ps with Some e => Some e | None => verdict [p] end.
Proof. induction ps as [|[[[e|f]|]|] ps IH]; simpl; done. Qed.

Lemma lifecycle_app a b : lifecycle (a ++ b) = lifecycle a ++ lifecycle b.
Proof. apply filter_app. Qed.
Lemma canceled_count_app a b : canceled_count (a ++ b) = canceled_count a + canceled_count b.
Proof. unfold canceled_count. by rewrite filter_app, len_app. Qed.

Record call_ok (w : CallWorld) : Prop := mkCallOk {
  ok_lifecycle : lifecycle (w_events w) = owed (w_phase w) (w_frames w);
  ok_canceled : canceled_count (w_events w) = if cs_canceled_notified (w_state w) then 1 else 0;
  ok_flag : cs_canceled_notified (w_state w) = true ∨ w_cancelling w ≠ O → cs_canceled (w_state w) = true;
  ok_new : ∀ s, w_phase w = Ph_New s → cs_executed (w_state w) = false;
  ok_frames : match w_phase w with
              | Ph_Body b => (lb_finished b = true ↔ verdict (w_frames w) ≠ None) ∧ (lb_inner b = None → lb_finished b = true)
              | Ph_Closed _ => True
              | _ => w_frames w = []
              end;
}.

Lemma new_call_ok s : call_ok (new_call s).
Proof. constructor; simpl; try done. by intros [|]. Qed.

(** Reporting the right events with a change of phase. *)
Lemma phase_ok w ph evs :
  call_ok w → lifecycle evs = evs → canceled_count evs = 0 → owed (w_phase w) (w_frames w) ++ evs = owed ph (w_frames w) →
  (∀ s, ph ≠ Ph_New s) →
  match ph with
  | Ph_Body b => (lb_finished b = true ↔ verdict (w_frames w) ≠ None) ∧ (lb_inner b = None → lb_finished b = true)
  | Ph_Closed _ => True
  | _ => w_frames w = []
  end →
  call_ok (report evs (set_phase ph w)).
Proof.
  intros [H1 H2 H3 H4 H5] Hl Hc Ho Hn Hf. constructor; cbn; [|rewrite canceled_count_app, H2, Hc; lia|done|by intros s ?; destruct (Hn s)|done].
  by rewrite lifecycle_app, H1, Hl.
Qed.

Lemma report_nil w : report [] w = w.
Proof. unfold report. rewrite app_nil_r. by destruct w. Qed.

Lemma conclude_ok r timeout s w :
  call_ok w → owed (w_phase w) (w_frames w) = [Ev_CallStart] → w_frames w = [] → call_ok (conclude r timeout s w).
Proof.
  intros Hw Ho Hf. destruct r as [[e|[b adm]]|]; simpl.
  - apply phase_ok; try done. by rewrite Ho.
  - rewrite <-(report_nil (set_phase _ w)). apply phase_ok; try done; [by rewrite Ho, Hf|]. rewrite Hf. simpl. by split; [split; [done|by intros []]|].
  - rewrite <-(report_nil (set_phase _ w)). apply phase_ok; try done. by rewrite Ho.
Qed.

Lemma store_flag_ok w (b : bool) : call_ok w → call_ok (if b then store_flag w else w).
Proof. intros [H1 H2 H3 H4 H5]. destruct b; by constructor. Qed.

Lemma poll_call_ok now expired meanwhile w w' : call_ok w → poll_call now expired meanwhile w = Some w' → call_ok w'.
Proof.
  intros Hw. unfold poll_call. pose proof (ok_frames _ Hw) as Hf. destruct (w_phase w) as [s|d s|t s|e| |e|b|b|b] eqn:Ep; try done.
  - set (w1 := report [Ev_CallStart] w).
    assert (Hw1 : call_ok (report [Ev_CallStart] (set_phase (Ph_Waiting None s) w))).
    { apply phase_ok; try done. by rewrite Ep. }
    assert (Hgo : ∀ (m : bool) r t s', call_ok (conclude r t s' (if m then store_flag w1 else w1))).
    { intros m r t s'. pose proof (conclude_ok r t s' _ (store_flag_ok _ m Hw1)) as Hc.
      destruct m; specialize (Hc eq_refl Hf); by destruct r as [[|[]]|]. }
    destruct (cs_canceled _); [intros [= <-]; apply (Hgo false (Ready (inl call_canceled_error)) None s)|].
    destruct (with_call_cancellation _ _ _ _) as [r s']. intros [= <-]. apply Hgo.
  - destruct (with_call_cancellation _ _ _ _) as [r s']. intros [= <-].
    apply conclude_ok; [by apply store_flag_ok|destruct meanwhile; by rewrite ?Ep; simpl; rewrite ?Ep|by destruct meanwhile].
Qed.

Lemma body_poll_ok b ps is_canceled p b' evs :
  (lb_finished b = true ↔ verdict ps ≠ None) ∧ (lb_inner b = None → lb_finished b = true) →
  lifecycle_poll_frame is_canceled b = (p, b', evs) →
  lifecycle evs = evs ∧ canceled_count evs = 0 ∧
  option_list (verdict ps) ++ evs = option_list (verdict (ps ++ [p])) ∧
  (lb_finished b' = true ↔ verdict (ps ++ [p]) ≠ None) ∧ (lb_inner b' = None → lb_finished b' = true) ∧ lb_admission b' = lb_admission b.
Proof.
  intros [Hfin Hin]. rewrite verdict_snoc. unfold lifecycle_poll_frame. destruct (lb_finished b) eqn:Ef.
  { intros [= <- <- <-]. rewrite app_nil_r. destruct (verdict ps); [|by destruct Hfin as [Hfin _]; destruct (Hfin eq_refl)]. by rewrite Ef. }
  destruct (verdict ps) as [v|]; [destruct Hfin as [_ Hfin]; by specialize (Hfin ltac:(done))|].
  unfold lifecycle_finish_with_error, lifecycle_finish_successfully. rewrite Ef. destruct is_canceled.
  { intros [= <- <- <-]. by split_and!. }
  destruct (lb_inner b) as [inner|]; [|by specialize (Hin eq_refl)].
  destruct (body_poll_frame inner) as [[[[e|f]|]|] inner']; simpl; intros [= <- <- <-]; split_and!; try done; by split.
Qed.

Lemma call_move_ok w v w' : call_ok w → call_move w v = Some w' → call_ok w'.
Proof.
  intros Hw. pose proof Hw as [H1 H2 H3 H4 H5]. unfold call_move. destruct v as [config options now|config options now refused|now expired meanwhile| | | | |].
  - destruct (w_phase w) as [s|d s|t s|e| |e|b|b|b] eqn:Ep; try done. intros [= <-]. unfold execute, mark_executed. rewrite (H4 s eq_refl).
    destruct (build_context _ _ _) as [[]| |]; by constructor.
  - destruct (w_phase w) as [s|d s|t s|e| |e|b|b|b] eqn:Ep; try done. intros [= <-]. unfold enqueue, mark_executed. rewrite (H4 s eq_refl).
    destruct (build_context _ _ _) as [[]| |]; [|by constructor..].
    destruct refused; constructor; cbn; rewrite ?lifecycle_app, ?canceled_count_app, ?H1, ?H2; try done; by destruct (cs_canceled_notified _).
  - intros Hm. apply (poll_call_ok now expired meanwhile w); [done|]. by destruct (w_phase w).
  - destruct (w_phase w) as [s|d s|t s|e| |e|b|b|b] eqn:Ep; try done; intros [= <-];
      rewrite <-(report_nil (set_phase _ w)); apply phase_ok; try done; by rewrite Ep.
  - destruct (w_phase w) as [s|d s|t s|e| |e|b|b|b] eqn:Ep; try done.
    destruct (lifecycle_poll_frame _ b) as [[p b'] evs] eqn:E. intros [= <-].
    destruct (body_poll_ok b (w_frames w) _ p b' evs H5 E) as (E1 & E2 & E3 & E4 & E5 & _). constructor; cbn.
    + rewrite lifecycle_app, H1, E1. simpl. by rewrite E3.
    + rewrite canceled_count_app, H2, E2. lia.
    + done.
    + done.
    + by split.
  - destruct (w_phase w) as [s|d s|t s|e| |e|b|b|b] eqn:Ep; try done. destruct (lifecycle_finish_abandoned _ b) as [b' evs] eqn:E. intros [= <-].
    unfold lifecycle_finish_abandoned in E. destruct H5 as [Hfin _]. apply phase_ok; try done.
    + destruct (lb_finished b); injection E as <- <-; [done|]. by destruct (cs_canceled _).
    + destruct (lb_finished b); injection E as <- <-; [done|]. by destruct (cs_canceled _).
    + rewrite Ep. simpl. destruct (lb_finished b); injection E as <- <-.
      * rewrite app_nil_r. destruct (verdict _); [done|]. by destruct Hfin as [Hfin _]; destruct (Hfin eq_refl).
      * destruct (verdict _); [|done]. destruct Hfin as [_ Hfin]. by specialize (Hfin ltac:(done)).
  - intros [= <-]. by apply (store_flag_ok w true).
  - destruct (w_cancelling w) as [|n] eqn:En; [done|]. destruct (cancel_notify (w_state w)) as [st evs] eqn:E. intros [= <-].
    unfold cancel_notify in E. injection E as <- <-. assert (Hc : cs_canceled (w_state w) = true) by (apply H3; by right). constructor; cbn.
    + rewrite lifecycle_app, H1. destruct (cs_canceled_notified _); by rewrite app_nil_r.
    + rewrite canceled_count_app, H2. by destruct (cs_canceled_notified _).
    + done.
    + intros s Hs. by apply (H4 s).
    + done.
Qed.

Lemma call_run_ok w vs w' : call_ok w → call_run w vs = Some w' → call_ok w'.
Proof.
  revert w; induction vs as [|v vs IH]; intros w Hw; simpl; [by intros [= <-]|].
  intros (w1 & E & Hr)%bind_Some. eapply IH; [|done]. by eapply call_move_ok.
Qed.

(** ** Theorems *)

(** C20.  The listener is told the life of a call once and truthfully: however a call is executed or enqueued,
    polled, canceled from any number of handles and dropped, it hears at most one start, then at most one end - a
    failure with exactly the error the caller got, or the end that the first final frame of the body announced, or, for a
    body dropped early, an end or the cancellation; and of all the cancellations it hears at most one. *)
Theorem call_reported_once (s : S) vs w :
  call_run (new_call s) vs = Some w →
  lifecycle (w_events w) = owed (w_phase w) (w_frames w) ∧
  canceled_count (w_events w) = (if cs_canceled_notified (w_state w) then 1 else 0) ∧
  (cs_canceled_notified (w_state w) = true → cs_canceled (w_state w) = true).
Proof.
  intros Hr. apply call_run_ok in Hr as [H1 H2 H3 _ _]; [|apply new_call_ok]. split_and!; [done|done|]. intros Hn. apply H3. by left.
Qed.

(** A call is over for its caller: failed, or its response delivered. *)
Definition settled (w : CallWorld) : Prop := match w_phase w with Ph_Failed _ | Ph_Body _ => True | _ => False end.

Lemma cancellation_ends is_canceled expired timeout s r s' :
  with_call_cancellation is_canceled expired timeout s = (r, s') →
  is_canceled = true ∨ (expired = true ∧ ∃ t, timeout = Some t) → r ≠ Pending.
Proof.
  unfold with_call_cancellation, with_call_deadline. intros E [->|(-> & t & ->)] ->; repeat case_match; simplify_eq/=.
Qed.

Lemma canceled_stays w v w' : call_move w v = Some w' → cs_canceled (w_state w) = true → cs_canceled (w_state w') = true.
Proof.
  intros Hm Hc. unfold call_move, cancel_notify, poll_call, execute, enqueue, mark_executed, conclude, store_flag in Hm. repeat case_match; simplify_eq/=; try done.
Qed.

(** Cancellation and deadlines take effect: once a call is canceled it stays canceled, and the next poll of
    its future returns - with the response if that is ready at that very poll, otherwise with an error; so does a
    poll after the deadline; and the next poll of the body of a canceled call fails with the cancellation
    and lets go of the response. *)
Theorem canceled_call_ends w vs w1 now expired meanwhile :
  call_run w vs = Some w1 → cs_canceled (w_state w) = true ∨ meanwhile = true ∨ (expired = true ∧ ∃ t s, w_phase w1 = Ph_Waiting (Some t) s) →
  (∀ w2, poll_call now expired meanwhile w1 = Some w2 → settled w2) ∧
  (∀ b, cs_canceled (w_state w) = true → w_phase w1 = Ph_Body b → lb_finished b = false →
     ∃ w2, call_move w1 Mv_PollBody = Some w2 ∧ w_frames w2 = w_frames w1 ++ [Ready (Some (inl call_canceled_error))] ∧
           w_phase w2 = Ph_Body (mkLifecycle None (lb_admission b) true)).
Proof.
  intros Hr Hc.
  assert (Hk : cs_canceled (w_state w) = true → cs_canceled (w_state w1) = true).
  { clear Hc. revert w Hr. induction vs as [|v vs IH]; intros w; simpl; [by intros [= <-]|].
    intros (w' & E & Hr)%bind_Some Hc. eapply IH; [done|]. by eapply canceled_stays. }
  assert (Hend : ∀ r t s w, r ≠ Pending → settled (conclude r t s w)) by (by intros [[|[]]|] t s w').
  split.
  - intros w2. unfold poll_call. destruct (w_phase w1) as [s|d s|t s|e| |e|b|b|b] eqn:Ep; try done.
    + destruct (cs_canceled (w_state (report _ w1))) eqn:Ec; simpl in Ec; [intros [= <-]; by apply (Hend (Ready (inl call_canceled_error)) None s)|].
      destruct Hc as [Hc|[->|(_ & t & s' & ?)]]; [by rewrite (Hk Hc) in Ec| |done].
      destruct (with_call_cancellation _ _ _ _) as [r s'] eqn:E. intros [= <-]. apply Hend. intros ->. apply cancellation_ends in E; [done|by left].
    + destruct (with_call_cancellation _ _ _ _) as [r s'] eqn:E. intros [= <-]. apply Hend. intros ->.
      destruct Hc as [Hc|[->|(-> & t' & s1 & Heq)]].
      * apply cancellation_ends in E; [done|]. left. specialize (Hk Hc). by destruct meanwhile.
      * apply cancellation_ends in E; [done|]. by left.
      * injection Heq as -> ->. apply cancellation_ends in E; [done|]. right. split; [done|by eexists].
  - intros b Hcan Ep Ef. unfold call_move. rewrite Ep. unfold lifecycle_poll_frame, lifecycle_finish_with_error.
    rewrite (Hk Hcan), Ef. eexists. by split_and!.
Qed.
End Calls.

(** ** Waking a canceled call

    The same call at the grain of its shared state: the task that polls [CallCanceled] and the handles that cancel, one
    atomic access at a time.  The waker is [futures::task::AtomicWaker]: [register] stores the waker of the
    task, [wake] takes it and schedules the task. *)

Inductive Poller : Type :=
| Pl_Parked              (* the last poll was pending *)
| Pl_Polling             (* about to load the flag *)
| Pl_Registering         (* the flag was down *)
| Pl_Rechecking          (* registered, about to load the flag again *)
| Pl_Done.

Record WakeWorld : Type := mkWake {
  wk_canceled : bool;
  wk_registered : bool;
  wk_scheduled : bool;
  wk_poller : Poller;
  wk_waking : nat;
}.

(** [poll_canceled], openwire/client.rs:937-944, one access at a time. *)
Definition poll_canceled (w : WakeWorld) : option WakeWorld :=
  match wk_poller w with
  | Pl_Polling => Some (mkWake (wk_canceled w) (wk_registered w) (wk_scheduled w) (if wk_canceled w then Pl_Done else Pl_Registering) (wk_waking w))
  | Pl_Registering => Some (mkWake (wk_canceled w) true (wk_scheduled w) Pl_Rechecking (wk_waking w))
  | Pl_Rechecking => Some (mkWake (wk_canceled w) (wk_registered w) (wk_scheduled w) (if wk_canceled w then Pl_Done else Pl_Parked) (wk_waking w))
  | Pl_Parked | Pl_Done => None
  end.

Inductive WakeMove : Type :=
| Wk_Resume     (* the scheduler runs the task *)
| Wk_Poll       (* its next access *)
| Wk_Store      (* a handle stores the flag *)
| Wk_Wake.      (* and wakes the task *)

(** [CallState::cancel], openwire/client.rs:921-927: the flag and the wake-up of a handle; a woken task is scheduled. *)
Definition wake_move (w : WakeWorld) (v : WakeMove) : option WakeWorld :=
  match v with
  | Wk_Resume => match wk_poller w with Pl_Parked => Some (mkWake (wk_canceled w) (wk_registered w) false Pl_Polling (wk_waking w)) | _ => None end
  | Wk_Poll => poll_canceled w
  | Wk_Store => Some (mkWake true (wk_registered w) (wk_scheduled w) (wk_poller w) (S (wk_waking w)))
  | Wk_Wake =>
    match wk_waking w with
    | O => None
    | S n => Some (mkWake (wk_canceled w) false (wk_scheduled w || wk_registered w) (wk_poller w) n)
    end
  end.

Fixpoint wake_run (w : WakeWorld) (vs : list WakeMove) : option WakeWorld :=
  match vs with
  | [] => Some w
  | v :: vs => w ← wake_move w v; wake_run w vs
  end.

(** A call that is about to be polled for the first time, with any number of handles. *)
Definition wake_start : WakeWorld := mkWake false false false Pl_Polling 0.

(** A task that is parked or past its registration is registered, or scheduled; and a task that missed the flag is
    registered until the handle that stored it comes to wake. *)
Definition wake_ok (w : WakeWorld) : Prop :=
  (wk_waking w ≠ O → wk_canceled w = true) ∧
  match wk_poller w with
  | Pl_Parked => wk_registered w = true ∧ (wk_canceled w = true → wk_waking w ≠ O) ∨ wk_scheduled w = true
  | Pl_Rechecking => wk_registered w = true ∨ wk_scheduled w = true ∨ wk_canceled w = true
  | _ => True
  end.

Lemma wake_move_ok w v w' : wake_ok w → wake_move w v = Some w' → wake_ok w'.
Proof.
  destruct w as [c r k p n]. unfold wake_ok, wake_move, poll_canceled. simpl. intros [H1 H2] Hm.
  destruct v, p, n, c, r, k; simplify_eq/=; intuition congruence.
Qed.

Lemma wake_run_ok w vs w' : wake_ok w → wake_run w vs = Some w' → wake_ok w'.
Proof.
  revert w; induction vs as [|v vs IH]; intros w Hw; simpl; [by intros [= <-]|].
  intros (w1 & E & Hr)%bind_Some. eapply IH; [|done]. by eapply wake_move_ok.
Qed.

(** C21.  No cancellation is lost on a sleeping call: in every interleaving of the polls of a call with the
    accesses of the handles that cancel it, when the call is canceled and every handle has got past its wake-up, the call is
    not asleep - it has seen the flag, is still polling, or is scheduled to be polled again, which sees the flag
    at once. *)
Theorem cancel_wakes vs w :
  wake_run wake_start vs = Some w → wk_canceled w = true → wk_waking w = O →
  (wk_poller w = Pl_Parked → wk_scheduled w = true) ∧
  (wk_poller w = Pl_Parked → wk_poller <$> wake_run w [Wk_Resume; Wk_Poll] = Some Pl_Done).
Proof.
  intros Hr Hc Hn. apply wake_run_ok in Hr as [_ Hok]; [|by split]. split.
  - intros Hp. rewrite Hp in Hok. destruct Hok as [[_ Hok]|]; [|done]. by specialize (Hok Hc).
  - intros Hp. unfold wake_run, wake_move, poll_canceled. rewrite Hp. simpl. by rewrite Hc.
Qed.

Lemma cancel_wakes_witness :
  wk_scheduled (default wake_start (wake_run wake_start [Wk_Poll; Wk_Poll; Wk_Poll; Wk_Store; Wk_Wake])) = true.
Proof.
  apply (cancel_wakes [Wk_Poll; Wk_Poll; Wk_Poll; Wk_Store; Wk_Wake] _); reflexivity.
Defined.

(** ** The controller of the pool reaper *)

(** [PoolReaperController] with [PoolReaperState], openwire/client.rs:184-191; a handle is the number of its task. *)
Record PoolReaperController : Type := mkReaper { rp_handle : option nat }.

(** [pool_reaper_cadence], openwire/client.rs:1547-1549. *)
Definition pool_reaper_cadence (idle_timeout : Duration) : Duration :=
  Z.min (Z.max (idle_timeout `div` 2) (from_secs 5)) (from_secs 60).

(** [spawn_pool_reaper], openwire/client.rs:1523-1545: the task and its cadence; [spawn] is the executor's answer. *)
Definition spawn_pool_reaper (settings : PoolSettings) (spawn : Duration → outcome WireError nat)
    : outcome WireError (option nat) :=
  if negb (needs_reaper settings) then Ok None else
  let cadence := pool_reaper_cadence (reaper_interval_hint settings) in
  let? task := spawn cadence in Ok (Some task).

(** [PoolReaperController::ensure_started], openwire/client.rs:892-911; [pool] is what is left of the weak reference. *)
Definition ensure_started (pool : option PoolSettings) (spawn : Duration → outcome WireError nat) (c : PoolReaperController)
    : PoolReaperController :=
  match rp_handle c with
  | Some _ => c
  | None =>
    match pool with
    | None => c
    | Some settings =>
      match spawn_pool_reaper settings spawn with
      | Ok handle => mkReaper handle
      | Err _ | Panic => c
      end
    end
  end.

(** [PoolReaperController::abort], openwire/client.rs:913-917, run when the client is dropped: the task to abort. *)
Definition reaper_abort (c : PoolReaperController) : PoolReaperController * option nat := (mkReaper None, rp_handle c).

(** However often connections are published, one reaper is running, until the client is dropped, which ends it. *)
Lemma reaper_started_once pool spawn c (t : nat) :
  rp_handle c = Some t →
  (∀ n, Nat.iter n (ensure_started pool spawn) c = c) ∧ reaper_abort c = (mkReaper None, Some t).
Proof.
  intros Hc. split; [|by unfold reaper_abort; rewrite Hc].
  induction n as [|n IH]; [done|]. simpl. rewrite IH. unfold ensure_started. by rewrite Hc.
Qed.

Lemma pool_reaper_cadence_bounds d : from_secs 5 ≤ pool_reaper_cadence d ≤ from_secs 60.
Proof. unfold pool_reaper_cadence, from_secs. lia. Qed.

(** ** The chain of services *)

(** [build_service_chain], openwire/client.rs:1211-1241: each interceptor wraps the service built so far. *)
Definition build_service_chain {E R} (transport : E → R) (application network : list ((E → R) → E → R))
    (bridge follow_up : (E → R) → E → R) : E → R :=
  let net := foldl (λ service interceptor, interceptor service) transport (rev network) in
  let net := bridge net in
  let service := follow_up net in
  foldl (λ service interceptor, interceptor service) service (rev application).

(** An exchange meets the application interceptors in the order they were added, then the follow-up loop; each of its
    attempts meets the bridge and the network interceptors, again in order. *)
Lemma service_chain_order {E R} (transport : E → R) application network bridge follow_up :
  build_service_chain transport application network bridge follow_up =
  foldr (λ interceptor service, interceptor service)
    (follow_up (bridge (foldr (λ interceptor service, interceptor service) transport network))) application.
Proof.
  unfold build_service_chain. assert (Hr : ∀ (s : E → R) l, foldl (λ service (i : (E → R) → E → R), i service) s (rev l) = foldr (λ i s, i s) s l).
  { intros s l. induction l as [|i l IH]; [done|]. simpl. rewrite foldl_app. simpl. by rewrite IH. }
  by rewrite !Hr.
Qed.

(** ** Examples *)

Module CallDemo.
(** A service that is pending for a while, then answers with a body that is a list of frames. *)
#[export] Instance list_body : HttpBody WireError (list Frame) := {
  body_poll_frame fs := match fs with [] => (Ready None, []) | f :: fs => (Ready (Some (inr f)), fs) end;
  body_is_end_stream fs := bool_decide (fs = []);
}.
Definition service (s : nat * list Frame) : poll (WireError + list Frame * bool) * (nat * list Frame) :=
  match s with
  | (O, fs) => (Ready (inr (fs, true)), s)
  | (Datatypes.S n, fs) => (Pending, (n, fs))
  end.
Definition config : EffectiveRequestConfig :=
  mkEffective (Some 30) None true 10 true 1 false false NORMAL.
Definition world (vs : list CallMove) : CallWorld :=
  default (new_call (O, [])) (call_run service (λ _, "30ns"%string) (new_call (2%nat, [Frame_Data [1; 2]])) vs).

Definition read_out : list CallMove :=
  [Mv_Execute config default_call_options 0; Mv_Poll 1 false false; Mv_Poll 2 false false; Mv_Poll 3 false false; Mv_PollBody; Mv_CancelStore; Mv_PollBody; Mv_CancelNotify; Mv_DropBody].
Example canceled_while_reading :
  w_events (world read_out) = [Ev_CallStart; Ev_CallFailed call_canceled_error; Ev_Canceled] ∧
  w_frames (world read_out) = [Ready (Some (inr (Frame_Data [1; 2]))); Ready (Some (inl call_canceled_error))].
Proof. by vm_compute. Qed.
Example timed_out :
  w_phase (world [Mv_Enqueue config default_call_options 0 None; Mv_Poll 1 false false; Mv_Poll 40 true false]) = Ph_Failed (timeout "call timed out after 30ns").
Proof. by vm_compute. Qed.
(** The admission is still held after the end of the body was read: only dropping the body lets go of it. *)
Example admission_outlives_end :
  w_phase (world [Mv_Execute config default_call_options 0; Mv_Poll 1 false false; Mv_Poll 2 false false; Mv_Poll 3 false false; Mv_PollBody; Mv_PollBody])
  = Ph_Body (mkLifecycle None true true).
Proof. by vm_compute. Qed.
(** A call timeout of [Duration::MAX] overflows the clock and panics. *)
Definition forever : CallOptions := mkCallOptions (Some (from_secs U64_MAX)) None None None None None None None None.
Example unbounded_timeout_panics : w_phase (world [Mv_Execute config forever 0]) = Ph_Panicked.
Proof. by vm_compute. Qed.
End CallDemo.
Import CallDemo.

Lemma call_reported_once_witness : lifecycle (w_events (world read_out)) = [Ev_CallStart; Ev_CallFailed call_canceled_error].
Proof.
  destruct (call_reported_once service (λ _, "30ns"%string) (2%nat, [Frame_Data [1; 2]]) read_out (world read_out)) as [H _].
  - vm_compute. reflexivity.
  - rewrite H. vm_compute. reflexivity.
Defined.

Lemma canceled_call_ends_witness :
  from_option settled True (poll_call service (λ _, "30ns"%string) 5 false false (world [Mv_CancelStore; Mv_Execute config default_call_options 0])) ∧
  is_Some (poll_call service (λ _, "30ns"%string) 5 false false (world [Mv_CancelStore; Mv_Execute config default_call_options 0])).
Proof.
  pose proof (canceled_call_ends service (λ _, "30ns"%string) (world [Mv_CancelStore]) [Mv_Execute config default_call_options 0]
    (world [Mv_CancelStore; Mv_Execute config default_call_options 0]) 5 false false ltac:(vm_compute; reflexivity) ltac:(left; vm_compute; reflexivity)) as H.
  destruct (poll_call service (λ _, "30ns"%string) 5 false false (world [Mv_CancelStore; Mv_Execute config default_call_options 0])) as [w|] eqn:E.
  - split; [exact (proj1 H w eq_refl)|by eexists].
  - vm_compute in E. discriminate.
Defined.
