(* ===== verification/Services.v ===== *)
(** * Services and interceptors

    The interfaces of openwire-core through which the parts of a client call each other: exchanges, interceptors and the chain of
    services (openwire-core/src/interceptor.rs, openwire/src/client.rs), the connectors and resolvers as services and back
    (openwire-core/src/transport.rs), the executor and the timer (openwire-core/src/runtime.rs).

    A service is a value with identity: [poll_ready] reserves this instance for one call, a clone of it is another instance with
    no reservation.  [BoxCloneSyncService] hides the type of a service and changes nothing.  A service of the chain
    is its layers and the number of the transport instance at its end; [World] has the instances that are ready and the calls
    each received.  The user's interceptors, and the policies of the follow-up loop, are code that uses the service below it:
    trees of what they do next, for every answer.  An interceptor that runs two clones of its [Next] at the same time is not
    covered. *)

From S2P Require Import Prelude Net Error Calls.

(** [Exchange], openwire-core/interceptor.rs:14-53. *)
Record Exchange (Req Ctx : Type) : Type := mkExchange { request : Req; context : Ctx; attempt : Z }.
Arguments mkExchange {_ _} _ _ _.
Arguments request {_ _} _.
Arguments context {_ _} _.
Arguments attempt {_ _} _.
(** [into_parts], openwire-core/interceptor.rs:46-48. *)
Definition into_parts {Req Ctx} (x : Exchange Req Ctx) : Req * Ctx * Z := (request x, context x, attempt x).

(** ** The chain of services *)

Section Chain.
#[local] Set Default Proof Using "Type".
Context {Req Ctx Response Env : Type}.
Abbreviation Exch := (Exchange Req Ctx) (only parsing).
Abbreviation Answer := (WireError + Response)%type (only parsing).

(** [Interceptor], openwire-core/interceptor.rs:73-79: what an interceptor does with its [Next], which running uses up: [owned] while it has not been run.  It runs it, runs a clone made
    while it had one, or answers. *)
Inductive Code : bool → Type :=
| Done {owned} (r : Answer) : Code owned
| Run (x : Exch) (k : Answer → Code false) : Code true
| Run_Clone {owned} (x : Exch) (k : Answer → Code owned) : Code owned.

(** What the follow-up loop does: it sends another exchange, or answers. *)
Inductive Loop : Type :=
| Finish (r : Answer)
| Send (x : Exch) (k : Answer → Loop).

(** [InterceptorLayer], openwire-core/interceptor.rs:81-115, and [FollowUpPolicyService] around the service below. *)
Inductive Layer : Type :=
| Intercept (intercept : Exch → Code true)
| Follow_Up (policy : Exch → Loop).

(** The instances of the transport: those polled ready and not called since, those that exist, the calls with whether the instance was
    ready, and the rest of the world. *)
Record World : Type := mkWorld { ready : gset nat; instances : nat; calls : list (nat * bool); env : Env }.

(** The transport's answer. *)
Context (execute_exchange : Exch → Env → Answer * Env).

(** A clone of a service: of its layers, and so of the instance at its end. *)
Definition clone (w : World) : nat * World := (instances w, mkWorld (ready w) (S (instances w)) (calls w) (env w)).

(** [poll_ready] of [InterceptorService] and [FollowUpPolicyService] asks the service below, openwire-core/interceptor.rs:130-132; that of
    [TransportService] is always ready. *)
Definition poll_ready (b : nat) (w : World) : World := mkWorld ({[b]} ∪ ready w) (instances w) (calls w) (env w).

(** [TransportService::call], openwire/transport/service.rs:792-798. *)
Definition call_transport (b : nat) (x : Exch) (w : World) : Answer * World :=
  let '(r, e) := execute_exchange x (env w) in
  (r, mkWorld (ready w ∖ {[b]}) (instances w) (calls w ++ [(b, bool_decide (b ∈ ready w))]) e).

Section Below.
(** [call] of the service below: of an instance, which it may replace by another. *)
Context (call_below : nat → Exch → World → nat * Answer * World).

(** [Next::run], openwire-core/interceptor.rs:65-70, of the [Next] around instance [b] and of clones, as the interceptor uses them. *)
Fixpoint run_code {owned} (c : Code owned) (b : nat) (w : World) : Answer * World :=
  match c with
  | Done r => (r, w)
  | Run x k => let '(_, r, w) := call_below b x w in run_code (k r) b w
  | Run_Clone x k => let '(b', w) := clone w in let '(_, r, w) := call_below b' x w in run_code (k r) b w
  end.

(** The sends of the loop of [FollowUpPolicyService::call], openwire/policy/follow_up.rs:102-111: the first on the service as it was
    given, the others after polling it ready again. *)
Fixpoint run_loop (l : Loop) (first : bool) (b : nat) (w : World) : Answer * World :=
  match l with
  | Finish r => (r, w)
  | Send x k =>
    let w := if first then w else poll_ready b w in
    let '(b, r, w) := call_below b x w in run_loop (k r) false b w
  end.
End Below.

(** [InterceptorService::call] and [FollowUpPolicyService::call], openwire-core/interceptor.rs:134-139: a clone stays behind, and the
    instance that was polled ready is the one that is used. *)
Fixpoint call (layers : list Layer) (b : nat) (x : Exch) (w : World) : nat * Answer * World :=
  match layers with
  | [] => let '(r, w) := call_transport b x w in (b, r, w)
  | layer :: layers =>
    let '(replacement, w) := clone w in
    let '(r, w) :=
      match layer with
      | Intercept code => run_code (call layers) (code x) b w
      | Follow_Up policy => run_loop (call layers) (policy x) true b w
      end in
    (replacement, r, w)
  end.

(** The layers [build_service_chain] puts around the transport, openwire/client.rs:1211-1241, from the outside. *)
Definition chain_layers (application network : list (Exch → Code true)) (bridge : Exch → Code true) (policy : Exch → Loop) : list Layer :=
  let net := foldl (λ ls i, Intercept i :: ls) [] (rev network) in
  let net := Intercept bridge :: net in
  let service := Follow_Up policy :: net in
  foldl (λ ls i, Intercept i :: ls) service (rev application).

(** The service of a call in [execute_prepared], openwire/client.rs:1104-1113: a clone of the client's, polled ready and called once. *)
Definition execute_call (layers : list Layer) (x : Exch) (w : World) : Answer * World :=
  let '(b, w) := clone w in
  let w := poll_ready b w in
  let '(_, r, w) := call layers b x w in (r, w).

(** ** Against the composition of functions *)

(** An interceptor and the follow-up loop as functions of the service below it, when services are functions. *)
Abbreviation Handler := (Exch → Env → Answer * Env) (only parsing).
Fixpoint code_meaning {owned} (c : Code owned) (below : Handler) (e : Env) : Answer * Env :=
  match c with
  | Done r => (r, e)
  | Run x k => let '(r, e) := below x e in code_meaning (k r) below e
  | Run_Clone x k => let '(r, e) := below x e in code_meaning (k r) below e
  end.
Fixpoint loop_meaning (l : Loop) (below : Handler) (e : Env) : Answer * Env :=
  match l with
  | Finish r => (r, e)
  | Send x k => let '(r, e) := below x e in loop_meaning (k r) below e
  end.
Definition layer_meaning (l : Layer) (below : Handler) : Handler :=
  λ x, match l with Intercept code => code_meaning (code x) below | Follow_Up policy => loop_meaning (policy x) below end.

(** A call of an instance is a call of the function, whatever the instances. *)
Definition implements (below : nat → Exch → World → nat * Answer * World) (h : Handler) : Prop :=
  ∀ b x w, let '(_, r, w') := below b x w in h x (env w) = (r, env w').

Lemma run_code_meaning below h {owned} (c : Code owned) b w :
  implements below h → let '(r, w') := run_code below c b w in code_meaning c h (env w) = (r, env w').
Proof.
  intros Hb. revert b w. induction c as [owned r|x k IH|owned x k IH]; intros b w; cbn; [done| |].
  - pose proof (Hb b x w) as H. destruct (below b x w) as [[b' r] w']. rewrite H. apply IH.
  - set (w0 := mkWorld _ _ _ _). pose proof (Hb (instances w) x w0) as H. destruct (below (instances w) x w0) as [[b' r] w'].
    cbn in H. rewrite H. apply IH.
Qed.
Lemma run_loop_meaning below h l first b w :
  implements below h → let '(r, w') := run_loop below l first b w in loop_meaning l h (env w) = (r, env w').
Proof.
  intros Hb. revert first b w. induction l as [r|x k IH]; intros first b w; cbn; [done|].
  set (w0 := if first then w else poll_ready b w). pose proof (Hb b x w0) as H. destruct (below b x w0) as [[b' r] w'].
  replace (env w0) with (env w) in H by (by destruct first). rewrite H. apply IH.
Qed.
Lemma call_meaning layers : implements (call layers) (foldr layer_meaning execute_exchange layers).
Proof.
  induction layers as [|layer layers IH]; intros b x w; cbn.
  - unfold call_transport. by destruct (execute_exchange x (env w)).
  - set (w0 := mkWorld _ _ _ _). unfold layer_meaning at 1. destruct layer as [code|policy].
    + pose proof (run_code_meaning _ _ (code x) b w0 IH) as H. by destruct (run_code _ _ _ _).
    + pose proof (run_loop_meaning _ _ (policy x) true b w0 IH) as H. by destruct (run_loop _ _ _ _ _).
Qed.

(** ** Readiness *)

(** The interceptor runs its [Next] and no clone of it. *)
Fixpoint single_run {owned} (c : Code owned) : Prop :=
  match c with Done _ => True | Run _ k => ∀ r, single_run (k r) | Run_Clone _ _ => False end.

(** Instances that do not exist yet are not ready, and every call so far was of a ready instance. *)
Definition disciplined (w : World) : Prop := (∀ i, i ∈ ready w → (i < instances w)%nat) ∧ Forall (λ c, c.2 = true) (calls w).

Definition keeps_discipline (below : nat → Exch → World → nat * Answer * World) : Prop :=
  ∀ b x w, disciplined w → b ∈ ready w →
    let '(b', _, w') := below b x w in disciplined w' ∧ (b' < instances w')%nat.

Lemma clone_disciplined w : disciplined w → disciplined (clone w).2.
Proof. intros [Hr Hc]. split; [|done]. intros i Hi%Hr. cbn. lia. Qed.
Lemma poll_ready_disciplined b w : disciplined w → (b < instances w)%nat → disciplined (poll_ready b w).
Proof. intros [Hr Hc] Hb. split; [|done]. cbn. intros i. rewrite elem_of_union, elem_of_singleton. intros [->|?]; auto. Qed.
Lemma call_transport_disciplined b x w : disciplined w → b ∈ ready w → disciplined (call_transport b x w).2.
Proof.
  intros [Hr Hc] Hb. unfold call_transport. destruct (execute_exchange x (env w)). split; cbn.
  - intros i. rewrite elem_of_difference. intros [? _]. auto.
  - apply Forall_app. split; [done|]. constructor; [|done]. cbn. by rewrite bool_decide_eq_true_2.
Qed.

(** Code that no longer has its [Next] does nothing but answer. *)
Lemma run_spent below {owned} (c : Code owned) b w : owned = false → single_run c → (run_code below c b w).2 = w.
Proof. by destruct c. Qed.

Lemma run_code_disciplined below {owned} (c : Code owned) b w :
  keeps_discipline below → single_run c → disciplined w → b ∈ ready w → disciplined (run_code below c b w).2.
Proof.
  intros Hb Hs Hw Hr. destruct c as [owned r|x k|owned x k]; cbn; [done| |done]. specialize (Hb b x w Hw Hr).
  destruct (below b x w) as [[b' r] w']. rewrite run_spent; [apply Hb|done|apply Hs].
Qed.
Lemma run_loop_disciplined below l (first : bool) b w :
  keeps_discipline below → disciplined w → (if first then b ∈ ready w else (b < instances w)%nat) →
  disciplined (run_loop below l first b w).2.
Proof.
  intros Hb. revert first b w. induction l as [r|x k IH]; intros first b w Hw Hr; cbn; [done|].
  set (w0 := if first then w else poll_ready b w).
  assert (Hw0 : disciplined w0) by (destruct first; [done|by apply poll_ready_disciplined]).
  assert (Hr0 : b ∈ ready w0) by (destruct first; [done|apply elem_of_union_l, elem_of_singleton_2; done]).
  specialize (Hb b x w0 Hw0 Hr0). destruct (below b x w0) as [[b' r] w']. destruct Hb. by apply (IH r false).
Qed.

(** A chain whose interceptors run their [Next] at most once, and no clone. *)
Definition single_layer (l : Layer) : Prop := match l with Intercept code => ∀ x, single_run (code x) | Follow_Up _ => True end.

(** The instances that exist are never forgotten. *)
Definition grows (below : nat → Exch → World → nat * Answer * World) : Prop :=
  ∀ b x w, let '(_, _, w') := below b x w in (instances w ≤ instances w')%nat.
Lemma run_code_grows below {owned} (c : Code owned) b w : grows below → (instances w ≤ instances (run_code below c b w).2)%nat.
Proof.
  intros Hb. revert b w. induction c as [owned r|x k IH|owned x k IH]; intros b w; cbn; [done| |].
  - specialize (Hb b x w). destruct (below b x w) as [[b' r] w']. etransitivity; [exact Hb|apply IH].
  - set (w0 := mkWorld _ _ _ _). specialize (Hb (instances w) x w0). destruct (below (instances w) x w0) as [[b' r] w'].
    cbn in Hb. pose proof (IH r b w'). lia.
Qed.
Lemma run_loop_grows below l first b w : grows below → (instances w ≤ instances (run_loop below l first b w).2)%nat.
Proof.
  intros Hb. revert first b w. induction l as [r|x k IH]; intros first b w; cbn; [done|].
  set (w0 := if first then w else poll_ready b w). assert (instances w0 = instances w) as <- by (by destruct first).
  specialize (Hb b x w0). destruct (below b x w0) as [[b' r] w']. etransitivity; [exact Hb|apply IH].
Qed.
Lemma call_grows layers : grows (call layers).
Proof.
  induction layers as [|layer layers IH]; intros b x w; cbn.
  - unfold call_transport. by destruct (execute_exchange x (env w)).
  - set (w0 := mkWorld _ _ _ _). assert ((instances w ≤ instances w0)%nat) by (cbn; lia). destruct layer as [code|policy].
    + pose proof (run_code_grows _ (code x) b w0 IH). destruct (run_code _ _ _ _). cbn in *. lia.
    + pose proof (run_loop_grows _ (policy x) true b w0 IH). destruct (run_loop _ _ _ _ _). cbn in *. lia.
Qed.

Lemma call_disciplined layers : Forall single_layer layers → keeps_discipline (call layers).
Proof.
  induction 1 as [|layer layers Hl _ IH]; intros b x w Hw Hr; cbn.
  - pose proof (call_transport_disciplined b x w Hw Hr) as H. unfold call_transport in *.
    destruct (execute_exchange x (env w)). split; [exact H|]. by apply Hw.
  - set (w0 := mkWorld _ _ _ _). assert (Hw0 : disciplined w0) by (by apply clone_disciplined). destruct layer as [code|policy].
    + pose proof (run_code_disciplined _ (code x) b w0 IH (Hl x) Hw0 Hr). pose proof (run_code_grows _ (code x) b w0 (call_grows layers)).
      destruct (run_code _ _ _ _). cbn in *. split; [done|lia].
    + pose proof (run_loop_disciplined _ (policy x) true b w0 IH Hw0 Hr). pose proof (run_loop_grows _ (policy x) true b w0 (call_grows layers)).
      destruct (run_loop _ _ _ _ _). cbn in *. split; [done|lia].
Qed.

Lemma foldl_layers (l : list (Exch → Code true)) (ls : list Layer) :
  foldl (λ ls i, Intercept i :: ls) ls (rev l) = (Intercept <$> l) ++ ls.
Proof. induction l as [|i l IH]; [done|]. simpl. rewrite foldl_app. simpl. by rewrite IH. Qed.
Lemma chain_layers_order application network bridge policy :
  chain_layers application network bridge policy =
  (Intercept <$> application) ++ Follow_Up policy :: Intercept bridge :: (Intercept <$> network).
Proof. unfold chain_layers. by rewrite !foldl_layers, app_nil_r. Qed.
End Chain.
Arguments Code : clear implicits.
Arguments Loop : clear implicits.
Arguments Layer : clear implicits.
Arguments World : clear implicits.

(** ** Theorem *)

(** C18.  The chain of services a client builds does what its parts compose to: whatever instances are cloned, replaced and polled on the way,
    a call gives the answer, and leaves the world, of the application interceptors applied in the order they were added to the
    follow-up loop, and in it the bridge and the network interceptors to the transport.  And as long as the interceptors run
    only the [Next] they are given, every call of the transport - retries and redirects included - is of an instance that was polled
    ready and has not been called since. *)
Theorem service_chain_refines {Req Ctx Response Env : Type}
    (execute_exchange : Exchange Req Ctx → Env → (WireError + Response) * Env)
    (application network : list (Exchange Req Ctx → Code Req Ctx Response true)) (bridge : Exchange Req Ctx → Code Req Ctx Response true)
    (policy : Exchange Req Ctx → Loop Req Ctx Response) (x : Exchange Req Ctx) (w : World Env) :
  disciplined w →
  let meaning code := layer_meaning (Intercept code) in
  let '(r, w') := execute_call execute_exchange (chain_layers application network bridge policy) x w in
  build_service_chain execute_exchange (meaning <$> application) (meaning <$> network) (meaning bridge)
    (layer_meaning (Follow_Up policy)) x (env w) = (r, env w') ∧
  (Forall (λ code, ∀ x, single_run (code x)) (bridge :: application ++ network) → Forall (λ c, c.2 = true) (calls w')).
Proof.
  intros Hw meaning. unfold execute_call. rewrite chain_layers_order. cbn [clone].
  set (w0 := poll_ready _ _). set (layers := _ ++ _).
  pose proof (call_meaning execute_exchange layers (instances w) x w0) as Hm.
  destruct (call execute_exchange layers (instances w) x w0) as [[b' r] w'] eqn:Hc. split.
  - rewrite service_chain_order. change (env w) with (env w0). rewrite <- Hm. unfold layers.
    rewrite foldr_app, !foldr_fmap. cbn [foldr]. by rewrite foldr_fmap.
  - intros [Hb Hs]%Forall_cons. apply Forall_app in Hs as [Ha Hn].
    assert (Hl : Forall single_layer layers) by (unfold layers; by rewrite Forall_app, !Forall_cons, !Forall_fmap).
    pose proof (call_disciplined execute_exchange layers Hl (instances w) x w0) as Hd. rewrite Hc in Hd. destruct Hd as [[_ ?] _];
      [|cbn; rewrite elem_of_union, elem_of_singleton; by left|done].
    apply poll_ready_disciplined; [|cbn; lia]. destruct Hw as [Hr Hcs]. split; [|done]. cbn. intros i Hi%Hr. lia.
Qed.

Module ChainDemo.
(** A transport that counts its calls and fails the first; a loop that tries twice; an interceptor that notes the attempt. *)
Definition transport (x : Exchange string unit) (e : list Z) : (WireError + string) * list Z :=
  (match e with [] => inl (Error.canceled "first"%string) | _ => inr "ok"%string end, e ++ [attempt x]).
Definition pass (x : Exchange string unit) : Code string unit string true := Run x (λ r, Done r).
Definition policy (x : Exchange string unit) : Loop string unit string :=
  Send x (λ r, match r with
               | inr _ => Finish r
               | inl _ => Send (mkExchange (request x) tt (attempt x + 1)) (λ r, Finish r)
               end).
Definition exchange : Exchange string unit := mkExchange "GET"%string tt 1.
Definition fresh_world : World (list Z) := mkWorld ∅ 1 [] [].
(** Two attempts, each of an instance polled ready for it. *)
Example two_attempts :
  let '(r, w) := execute_call transport (chain_layers [pass] [pass] pass policy) exchange fresh_world in
  r = inr "ok"%string ∧ env w = [1; 2] ∧ (snd <$> calls w) = [true; true].
Proof. by vm_compute. Qed.
(** An interceptor that tries again with a clone of its [Next] calls an instance nobody polled. *)
Definition retrying (x : Exchange string unit) : Code string unit string true :=
  Run_Clone x (λ r, match r with inr _ => Done r | inl _ => Run x (λ r, Done r) end).
Example clone_not_ready :
  let '(r, w) := execute_call transport (chain_layers [] [retrying] pass (λ x, Send x (λ r, Finish r))) exchange fresh_world in
  r = inr "ok"%string ∧ (snd <$> calls w) = [false; true].
Proof. by vm_compute. Qed.
End ChainDemo.

Lemma service_chain_refines_witness :
  let '(r, w') := execute_call ChainDemo.transport (chain_layers [ChainDemo.pass] [ChainDemo.pass] ChainDemo.pass ChainDemo.policy)
                    ChainDemo.exchange ChainDemo.fresh_world in
  r = inr "ok"%string ∧ Forall (λ c, c.2 = true) (calls w').
Proof.
  pose proof (service_chain_refines ChainDemo.transport [ChainDemo.pass] [ChainDemo.pass] ChainDemo.pass ChainDemo.policy
                ChainDemo.exchange ChainDemo.fresh_world) as H.
  assert (Hw : disciplined ChainDemo.fresh_world) by (split; [intros i Hi; by apply not_elem_of_empty in Hi|constructor]).
  specialize (H Hw). pose proof ChainDemo.two_attempts as Ht.
  destruct (execute_call _ _ _ _) as [r w']. destruct Ht as [Ht _]. split; [exact Ht|]. apply H.
  repeat constructor.
Defined.

(** ** Resolvers and connectors as services, and back *)

Section Adapters.
#[local] Set Default Proof Using "Type".
Context {Ctx Uri Stream W : Type}.

(** A future run to its end, in a world the other parts share; [None] is one that does not end. *)
Abbreviation Future A := (W → option ((WireError + A) * W)) (only parsing).

(** [DnsRequest], openwire-core/transport.rs:117-128. *)
Record DnsRequest : Type := mkDnsRequest { dns_ctx : Ctx; dns_host : string; dns_port : Z }.
(** [TcpConnectRequest], openwire-core/transport.rs:130-141. *)
Record TcpConnectRequest : Type := mkTcpConnectRequest { tcp_ctx : Ctx; tcp_addr : SocketAddr; tcp_timeout : option Duration }.
(** [TlsConnectRequest], openwire-core/transport.rs:155-165. *)
Record TlsConnectRequest : Type := mkTlsConnectRequest { tls_ctx : Ctx; tls_uri : Uri; tls_stream : Stream }.

(** [DnsResolver], openwire-core/transport.rs:171-178. *)
Class DnsResolver (R : Type) : Type := resolve : R → Ctx → string → Z → Future (list SocketAddr).
(** [TcpConnector], openwire-core/transport.rs:180-187. *)
Class TcpConnector (C : Type) : Type := tcp_connect : C → Ctx → SocketAddr → option Duration → Future Stream.
(** [TlsConnector], openwire-core/transport.rs:189-196. *)
Class TlsConnector (C : Type) : Type := tls_connect : C → Ctx → Uri → Stream → Future Stream.

(** tower's [Service] of one request type. *)
Record Service (Req Resp : Type) : Type := mkService {
  service_ready : W → poll (WireError + unit) * W;
  service_call : Req → Future Resp;
}.
Arguments mkService {_ _} _ _.
Arguments service_ready {_ _} _ _.
Arguments service_call {_ _} _ _ _.

(** [oneshot] of tower: polls the service until it is ready, then calls it; [fuel] bounds the polls. *)
Fixpoint oneshot (fuel : nat) {Req Resp} (service : Service Req Resp) (rq : Req) : Future Resp :=
  λ w, match fuel with
       | O => None
       | S fuel => match service_ready service w with
                   | (Pending, w) => oneshot fuel service rq w
                   | (Ready (inl e), w) => Some (inl e, w)
                   | (Ready (inr tt), w) => service_call service rq w
                   end
       end.

(** The services of resolvers and connectors are always ready. *)
(** [DnsResolverService], openwire-core/transport.rs:305-336. *)
Definition DnsResolverService {R} `{DnsResolver R} (resolver : R) : Service DnsRequest (list SocketAddr) :=
  mkService (λ w, (Ready (inr tt), w)) (λ rq, resolve resolver (dns_ctx rq) (dns_host rq) (dns_port rq)).
(** [TcpConnectorService], openwire-core/transport.rs:338-369. *)
Definition TcpConnectorService {C} `{TcpConnector C} (connector : C) : Service TcpConnectRequest Stream :=
  mkService (λ w, (Ready (inr tt), w)) (λ rq, tcp_connect connector (tcp_ctx rq) (tcp_addr rq) (tcp_timeout rq)).
(** [TlsConnectorService], openwire-core/transport.rs:371-402. *)
Definition TlsConnectorService {C} `{TlsConnector C} (connector : C) : Service TlsConnectRequest Stream :=
  mkService (λ w, (Ready (inr tt), w)) (λ rq, tls_connect connector (tls_ctx rq) (tls_uri rq) (tls_stream rq)).

Context (fuel : nat).
(** [TowerDnsResolver], openwire-core/transport.rs:198-229. *)
Record TowerDnsResolver : Type := mkTowerDnsResolver { dns_service : Service DnsRequest (list SocketAddr) }.
#[export] Instance tower_dns_resolver : DnsResolver TowerDnsResolver :=
  λ r ctx host port, oneshot fuel (dns_service r) (mkDnsRequest ctx host port).
(** [TowerTcpConnector], openwire-core/transport.rs:231-266. *)
Record TowerTcpConnector : Type := mkTowerTcpConnector { tcp_service : Service TcpConnectRequest Stream }.
#[export] Instance tower_tcp_connector : TcpConnector TowerTcpConnector :=
  λ c ctx addr timeout, oneshot fuel (tcp_service c) (mkTcpConnectRequest ctx addr timeout).
(** [TowerTlsConnector], openwire-core/transport.rs:268-303. *)
Record TowerTlsConnector : Type := mkTowerTlsConnector { tls_service : Service TlsConnectRequest Stream }.
#[export] Instance tower_tls_connector : TlsConnector TowerTlsConnector :=
  λ c ctx uri stream, oneshot fuel (tls_service c) (mkTlsConnectRequest ctx uri stream).

(** A resolver or connector made into a service and back is what it was: the same arguments reach it, and its answer comes back. *)
Lemma tower_adapters_roundtrip {R C D} `{DnsResolver R} `{TcpConnector C} `{TlsConnector D} (r : R) (c : C) (d : D) ctx :
  (0 < fuel)%nat →
  (∀ host port w, resolve (mkTowerDnsResolver (DnsResolverService r)) ctx host port w = resolve r ctx host port w) ∧
  (∀ addr timeout w, tcp_connect (mkTowerTcpConnector (TcpConnectorService c)) ctx addr timeout w = tcp_connect c ctx addr timeout w) ∧
  (∀ uri stream w, tls_connect (mkTowerTlsConnector (TlsConnectorService d)) ctx uri stream w = tls_connect d ctx uri stream w).
Proof.
  intros Hf. unfold resolve, tcp_connect, tls_connect, tower_dns_resolver, tower_tcp_connector, tower_tls_connector.
  destruct fuel as [|n]; [lia|]. done.
Qed.

(** And a service made into a resolver and back asks the service: called when it is ready, its error returned when it fails to be. *)
Lemma service_roundtrip (service : Service DnsRequest (list SocketAddr)) rq w :
  service_call (DnsResolverService (mkTowerDnsResolver service)) rq w = oneshot fuel service rq w.
Proof. by destruct rq. Qed.
End Adapters.

(** ** The executor and the timer *)

Section Runtime.
#[local] Set Default Proof Using "Type".
Context {Task Handle W : Type}.

(** [WireExecutor], openwire-core/runtime.rs:16-18. *)
Class WireExecutor (X : Type) : Type := spawn : X → Task → W → (WireError + Handle) * W.

(** [HyperExecutor::execute], openwire-core/runtime.rs:27-31: the handle is let go of, and a failure to spawn only logged. *)
Definition hyper_execute {X} `{WireExecutor X} (executor : X) (future : Task) (w : W) : W := (spawn executor future w).2.

(** The [Timer] of hyper. *)
Record Timer (Sleep : Type) : Type := mkTimer {
  timer_sleep : Duration → W → Sleep * W;
  timer_sleep_until : Instant → W → Sleep * W;
  timer_reset : Sleep → Instant → W → Sleep * W;
  timer_now : W → Instant;
}.
Arguments mkTimer {_} _ _ _ _.
(** [SharedTimer], openwire-core/runtime.rs:34-62: every operation is the inner timer's. *)
Definition SharedTimer {Sleep} (inner : Timer Sleep) : Timer Sleep :=
  mkTimer (timer_sleep _ inner) (timer_sleep_until _ inner) (timer_reset _ inner) (timer_now _ inner).
End Runtime.
