(* ===== verification/WsHandshake.v ===== *)
(** * The WebSocket opening handshake

    openwire/src/websocket/handshake.rs: the headers a WebSocket call puts on its request and the check of
    the server's answer, with the errors of openwire-core/src/websocket/error.rs.

    SHA-1, base64, the random source, [HeaderValue::from_str], [HeaderValue::to_str], [Uri::from_parts]
    and the Debug format of a string belong to other crates or the standard library's formatting and are
    parameters.  The mutable request is passed along; on an error the callers drop it. *)

From S2P Require Import Prelude Net Error Http WsCodec Request.

(** [HandshakeFailure], openwire-core/websocket/error.rs:29-41. *)
Inductive HandshakeFailure : Type :=
| UnexpectedStatus
| MissingUpgrade
| MissingConnection
| InvalidAccept
| SubprotocolMismatch (offered : list string) (returned : string)
| HF_UnsupportedExtension (name : string)
| HandshakeFailure_Other (reason : string).

(** [TimeoutKind], openwire-core/websocket/error.rs:43-48. *)
Inductive TimeoutKind : Type := TimeoutKind_Handshake | TimeoutKind_Close | TimeoutKind_Ping.

(** [WebSocketError], openwire-core/websocket/error.rs:5-27. *)
Inductive WebSocketError : Type :=
| WsErr_Handshake (status : option Z) (reason : HandshakeFailure)
| WsErr_Engine (e : WebSocketEngineError)
| WsErr_ClosedByPeer (code : Z) (reason : bytes)
| WsErr_Timeout (k : TimeoutKind)
| WsErr_Io (e : WireError)
| WsErr_LocalCancelled.

(** [HANDSHAKE_MAGIC], openwire/websocket/handshake.rs:13-13. *)
Definition HANDSHAKE_MAGIC : string := "258EAFA5-E914-47DA-95CA-C5AB0DC85B11".

(** [WebSocketRequestMarker::new], openwire/websocket/handshake.rs:25-30. *)
Definition marker_new (protocols : list string) : WebSocketRequestMarker := mkMarker protocols "".

(** ** Tokens *)

(** The bytes [is_http_token_byte] excludes, openwire/websocket/handshake.rs:128-144. *)
Definition token_separators : list Z :=
  [0x28; 0x29; 0x3C; 0x3E; 0x40; 0x2C; 0x3B; 0x3A; 0x5C; 0x22; 0x2F; 0x5B; 0x5D; 0x3F; 0x3D; 0x7B; 0x7D].

(** [is_http_token_byte], openwire/websocket/handshake.rs:124-145. *)
Definition is_http_token_byte (b : Z) : bool :=
  (0x21 <=? b) && (b <=? 0x7E) && negb (bool_decide (b ∈ token_separators)).

(** The bytes of a text. *)
Definition string_bytes (s : string) : bytes := (λ c, Z.of_nat (Ascii.nat_of_ascii c)) <$> list_ascii_of_string s.

(** [is_subprotocol_token], openwire/websocket/handshake.rs:120-122. *)
Definition is_subprotocol_token (p : string) : bool :=
  negb (bool_decide (p = EmptyString)) && forallb is_http_token_byte (string_bytes p).

(** [header_value_has_token], openwire/websocket/handshake.rs:210-215, of a value [to_str] could read. *)
Definition text_has_token (raw expected : string) : bool :=
  existsb (λ token, eq_ignore_ascii_case (trim token) expected) (split_on "," raw).

(** [ValidatedHandshake], openwire/websocket/handshake.rs:158-163. *)
Record ValidatedHandshake : Type := mkValidated {
  vh_subprotocol : option string;
  vh_extensions : list string;
}.

Section Handshake.
#[local] Set Default Proof Using "Type*".
Context {H : Type} `{HeaderMapLaws H}.
Context (sha1 base64 debug : string → string) (to_str : string → option string)
        (header_error : string → option string) (from_parts : Uri → string + Uri).

(** ** The request *)

(** [derive_accept], openwire/websocket/handshake.rs:33-38. *)
Definition derive_accept (client_key : string) : string := base64 (sha1 (client_key +:+ HANDSHAKE_MAGIC)).

(** [generate_client_key], openwire/websocket/handshake.rs:40-49; [random] is what getrandom gave. *)
Definition generate_client_key (random : string + string) : outcome WireError string :=
  match random with
  | inl e => Err (internal "failed to generate WebSocket client key" e)
  | inr bs => Ok (base64 bs)
  end.

(** [validate_subprotocols], openwire/websocket/handshake.rs:103-118. *)
Fixpoint validate_subprotocols (seen : gset string) (protocols : list string) : outcome WireError unit :=
  match protocols with
  | [] => Ok ()
  | p :: protocols =>
    if negb (is_subprotocol_token p) then
      Err (invalid_request ("WebSocket subprotocol must be a non-empty RFC 6455 token: " +:+ debug p))
    else if bool_decide (p ∈ seen) then
      Err (invalid_request ("WebSocket subprotocol appears more than once: " +:+ debug p))
    else validate_subprotocols ({[ p ]} ∪ seen) protocols
  end.

(** [request_must_be_get], openwire/websocket/handshake.rs:147-154. *)
Definition request_must_be_get (r : Request H) : outcome WireError unit :=
  if bool_decide (req_method r = Method_GET) then Ok ()
  else Err (invalid_request "WebSocket request must use the GET method").

Definition uri_with_scheme (scheme : string) (u : Uri) : Uri :=
  mkUri (Some scheme) (uri_authority u) (uri_host u) (uri_port_u16 u) (uri_path_and_query u).

(** [rewrite_scheme], openwire/websocket/handshake.rs:288-310. *)
Definition rewrite_scheme (r : Request H) : outcome WireError (Request H) :=
  let set scheme :=
    match from_parts (uri_with_scheme scheme (req_uri r)) with
    | inl e => Err (invalid_request e)
    | inr u => Ok (mkRequest (req_method r) u (req_version r) (req_headers r) (req_extensions r) (req_body r))
    end in
  match uri_scheme_str (req_uri r) with
  | Some scheme =>
    if String.eqb scheme "ws" then set "http"
    else if String.eqb scheme "wss" then set "https"
    else if String.eqb scheme "http" || String.eqb scheme "https" then Ok r
    else Err (invalid_request ("WebSocket URI must use ws/wss/http/https, got " +:+ scheme))
  | None => Err (invalid_request "WebSocket URI must include a scheme (ws/wss)")
  end.

(** [HeaderValue::from_str] where an error ends the request. *)
Definition checked_value (v : string) : outcome WireError string :=
  match header_error v with Some e => Err (invalid_request e) | None => Ok v end.

(** The extensions a handshake leaves, openwire/websocket/handshake.rs:78-98. *)
Definition handshake_extensions (e : Extensions) (m : WebSocketRequestMarker) : Extensions :=
  mkExtensions (ext_config e) (ext_options e) (ext_trace e) (ext_cached_addresses e) (ext_selected_proxy e)
    (ext_dispatcher_queued e) (ext_no_coalesced e) (Some m) (Some Alpn_Http1Only) (Some RoutePreference_Http1Only).

(** [inject_handshake], openwire/websocket/handshake.rs:51-101. *)
Definition inject_handshake (random : string + string) (r : Request H) : outcome WireError (Request H) :=
  match ext_websocket (req_extensions r) with
  | None => Panic
  | Some marker =>
    let? _ := validate_subprotocols ∅ (subprotocols marker) in
    let? _ := request_must_be_get r in
    let? r := rewrite_scheme r in
    let h := hm_insert "sec-websocket-version" "13"
               (hm_insert "connection" "Upgrade" (hm_insert "upgrade" "websocket" (req_headers r))) in
    let? key := generate_client_key random in
    let? key_value := checked_value key in
    let h := hm_insert "sec-websocket-key" key_value h in
    let marker := mkMarker (subprotocols marker) (derive_accept key) in
    let? h := match subprotocols marker with
              | [] => Ok h
              | ps => let? v := checked_value (String.concat ", " ps) in Ok (hm_insert "sec-websocket-protocol" v h)
              end in
    Ok (mkRequest (req_method r) (req_uri r) "HTTP/1.1" h (handshake_extensions (req_extensions r) marker) (req_body r))
  end.

(** ** The response *)

(** [header_value_has_token], openwire/websocket/handshake.rs:210-215. *)
Definition header_value_has_token (value expected : string) : bool :=
  from_option (λ raw, text_has_token raw expected) false (to_str value).

(** [connection_has_upgrade], openwire/websocket/handshake.rs:196-201. *)
Definition connection_has_upgrade (h : H) : bool :=
  existsb (λ v, header_value_has_token v "upgrade") (hm_get_all "connection" h).

(** [upgrade_has_websocket], openwire/websocket/handshake.rs:203-208. *)
Definition upgrade_has_websocket (h : H) : bool :=
  existsb (λ v, header_value_has_token v "websocket") (hm_get_all "upgrade" h).

(** [validate_accept_header], openwire/websocket/handshake.rs:217-237. *)
Definition validate_accept_header (h : H) (expected : string) : outcome HandshakeFailure unit :=
  match hm_get_all "sec-websocket-accept" h with
  | [] => Err InvalidAccept
  | _ :: _ :: _ => Err InvalidAccept
  | [value] =>
    match to_str value with
    | None => Err InvalidAccept
    | Some accept => if String.eqb accept expected then Ok () else Err InvalidAccept
    end
  end.

(** The loop of [validate_selected_subprotocol], openwire/websocket/handshake.rs:243-254. *)
Fixpoint select_subprotocol (selected : option string) (values : list string) : outcome HandshakeFailure (option string) :=
  match values with
  | [] => Ok selected
  | value :: values =>
    match to_str value with
    | None => Err (HandshakeFailure_Other "invalid subprotocol header")
    | Some token =>
      if contains_char "," token || is_some selected then Err (HandshakeFailure_Other "multiple subprotocols returned")
      else select_subprotocol (Some token) values
    end
  end.

(** [validate_selected_subprotocol], openwire/websocket/handshake.rs:239-268. *)
Definition validate_selected_subprotocol (h : H) (offered : list string) : outcome HandshakeFailure (option string) :=
  let? selected := select_subprotocol None (hm_get_all "sec-websocket-protocol" h) in
  match selected with
  | None => Ok None
  | Some token => if bool_decide (token ∈ offered) then Ok (Some token) else Err (SubprotocolMismatch offered token)
  end.

(** The loop of [reject_unrequested_extensions], openwire/websocket/handshake.rs:271-284. *)
Fixpoint reject_values (values : list string) : outcome HandshakeFailure unit :=
  match values with
  | [] => Ok ()
  | value :: values =>
    match to_str value with
    | None => Err (HF_UnsupportedExtension "<invalid>")
    | Some raw =>
      match find_first (λ e, negb (bool_decide (e = EmptyString))) (trim <$> split_on "," raw) with
      | Some extension => Err (HF_UnsupportedExtension extension)
      | None => reject_values values
      end
    end
  end.

(** [reject_unrequested_extensions], openwire/websocket/handshake.rs:270-286. *)
Definition reject_unrequested_extensions (h : H) : outcome HandshakeFailure unit :=
  reject_values (hm_get_all "sec-websocket-extensions" h).

(** [validate_handshake_response], openwire/websocket/handshake.rs:165-194. *)
Definition validate_handshake_response (res : Response H) (expected : string) (offered : list string)
    : outcome HandshakeFailure ValidatedHandshake :=
  if negb (res_status res =? SWITCHING_PROTOCOLS) then Err UnexpectedStatus else
  let h := res_headers res in
  if negb (upgrade_has_websocket h) then Err MissingUpgrade else
  if negb (connection_has_upgrade h) then Err MissingConnection else
  let? _ := validate_accept_header h expected in
  let? subprotocol := validate_selected_subprotocol h offered in
  let? _ := reject_unrequested_extensions h in
  Ok (mkValidated subprotocol []).

(** ** What is accepted *)

(** Some header value lists the token. *)
Definition lists_token (name token : string) (h : H) : Prop :=
  ∃ value raw, value ∈ hm_get_all name h ∧ to_str value = Some raw ∧ text_has_token raw token = true.

Lemma has_token_iff name token h :
  existsb (λ v, header_value_has_token v token) (hm_get_all name h) = true ↔ lists_token name token h.
Proof.
  rewrite existsb_elem. unfold lists_token, header_value_has_token. split.
  - intros (v & Hv & Ht). destruct (to_str v) as [raw|] eqn:E; [|done]. by exists v, raw.
  - intros (v & raw & Hv & E & Ht). exists v. by rewrite E.
Qed.

Lemma validate_accept_header_ok h expected :
  validate_accept_header h expected = Ok () ↔ ∃ value, hm_get_all "sec-websocket-accept" h = [value] ∧ to_str value = Some expected.
Proof.
  unfold validate_accept_header. destruct (hm_get_all _ h) as [|v [|v' vs]].
  - split; [done|by intros (? & ? & _)].
  - split.
    + destruct (to_str v) as [a|] eqn:E; [|done]. destruct (String.eqb_spec a expected); [|done].
      intros _. exists v. subst. done.
    + intros (? & [= <-] & ->). by rewrite String.eqb_refl.
  - split; [done|by intros (? & ? & _)].
Qed.

Lemma select_subprotocol_some t values r :
  select_subprotocol (Some t) values = Ok r ↔ values = [] ∧ r = Some t.
Proof.
  destruct values as [|v vs]; simpl; [split; [by intros [= <-]|by intros [_ ->]]|].
  destruct (to_str v); [|by split; [|intros [? _]]]. rewrite orb_true_r. by split; [|intros [? _]].
Qed.

Lemma select_subprotocol_none values r :
  select_subprotocol None values = Ok r ↔
  (values = [] ∧ r = None) ∨ ∃ v t, values = [v] ∧ to_str v = Some t ∧ contains_char "," t = false ∧ r = Some t.
Proof.
  destruct values as [|v vs].
  { simpl. split; [intros [= <-]; by left|by intros [[_ ->]|(? & ? & ? & _)]]. }
  cbn [select_subprotocol]. destruct (to_str v) as [t|] eqn:E.
  - rewrite orb_false_r. destruct (contains_char "," t) eqn:Hc.
    + split; [done|]. intros [[? _]|(v' & t' & [= <- ->] & Ht & Hc' & _)]; [done|]. congruence.
    + rewrite select_subprotocol_some. split.
      * intros [-> ->]. right. by exists v, t.
      * intros [[? _]|(v' & t' & [= <- ->] & Ht & _ & ->)]; [done|]. by simplify_eq.
  - split; [done|]. intros [[? _]|(v' & t' & [= <- ->] & Ht & _)]; [done|]. congruence.
Qed.

(** The server's choice: none, or one value with one of the offered names. *)
Definition chosen (h : H) (offered : list string) (sub : option string) : Prop :=
  match sub with
  | None => hm_get_all "sec-websocket-protocol" h = []
  | Some t => (∃ v, hm_get_all "sec-websocket-protocol" h = [v] ∧ to_str v = Some t) ∧
              contains_char "," t = false ∧ t ∈ offered
  end.

Lemma chosen_selected h offered sub :
  chosen h offered sub → select_subprotocol None (hm_get_all "sec-websocket-protocol" h) = Ok sub.
Proof.
  intros Hc. apply select_subprotocol_none. destruct sub as [t|]; [right|by left].
  destruct Hc as [(v & Hv & Ht) [Hc _]]. by exists v, t.
Qed.

Lemma validate_selected_subprotocol_ok h offered sub :
  validate_selected_subprotocol h offered = Ok sub ↔ chosen h offered sub.
Proof.
  unfold validate_selected_subprotocol.
  pose proof (chosen_selected h offered sub) as Hback.
  destruct (select_subprotocol None _) as [[t|]| |] eqn:E; cbn [obind];
    [| |by split; [|intros ?%Hback]|by split; [|intros ?%Hback]].
  - apply select_subprotocol_none in E as [[_ ?]|(v & t' & Hv & Ht & Hc & [= <-])]; [done|].
    case_bool_decide as Hin.
    + split; [intros [= <-]; cbn; eauto|]. by intros [= <-]%Hback.
    + split; [done|]. intros Hch. pose proof (Hback Hch) as [= <-]. destruct Hch as (_ & _ & ?). done.
  - apply select_subprotocol_none in E as [[Hn _]|(? & ? & _ & _ & _ & ?)]; [|done].
    split; [by intros [= <-]|]. by intros [= <-]%Hback.
Qed.

(** A list of extensions with nothing in it. *)
Definition blank_list (raw : string) : Prop := Forall (λ e, trim e = EmptyString) (split_on "," raw).

Lemma reject_values_ok values :
  reject_values values = Ok () ↔ Forall (λ v, ∃ raw, to_str v = Some raw ∧ blank_list raw) values.
Proof.
  induction values as [|v vs IH]; simpl; [split; [by constructor|done]|]. rewrite Forall_cons.
  destruct (to_str v) as [raw|] eqn:E; [|split; [done|by intros [(? & ? & _) _]]].
  pose proof (find_first_None (λ e, negb (bool_decide (e = EmptyString))) (trim <$> split_on "," raw)) as Hn.
  assert (Hb : Forall (λ y, negb (bool_decide (y = EmptyString)) = false) (trim <$> split_on "," raw) ↔ blank_list raw).
  { rewrite Forall_fmap. apply Forall_iff. intros e. unfold compose. rewrite negb_false_iff. apply bool_decide_eq_true. }
  rewrite Hb in Hn. destruct (find_first _ _).
  - split; [done|]. intros [(? & [= <-] & Hbl) _]. by apply Hn in Hbl.
  - rewrite IH. assert (blank_list raw) by by apply Hn. split; [|by intros [_ ?]]. intros ?. split; [|done]. eauto.
Qed.

(** A handshake answer is accepted exactly when it is the one RFC 6455 asks for: status 101, some
    Upgrade value naming websocket and some Connection value naming upgrade, exactly one
    Sec-WebSocket-Accept equal to the expected text, at most one subprotocol and that one offered, and
    no extension, since none was requested. *)
Theorem handshake_accepted_iff res expected offered v :
  validate_handshake_response res expected offered = Ok v ↔
  res_status res = SWITCHING_PROTOCOLS ∧
  lists_token "upgrade" "websocket" (res_headers res) ∧
  lists_token "connection" "upgrade" (res_headers res) ∧
  (∃ value, hm_get_all "sec-websocket-accept" (res_headers res) = [value] ∧ to_str value = Some expected) ∧
  chosen (res_headers res) offered (vh_subprotocol v) ∧
  Forall (λ value, ∃ raw, to_str value = Some raw ∧ blank_list raw) (hm_get_all "sec-websocket-extensions" (res_headers res)) ∧
  vh_extensions v = [].
Proof.
  rewrite <- !has_token_iff, <- validate_accept_header_ok, <- validate_selected_subprotocol_ok, <- reject_values_ok.
  unfold validate_handshake_response, upgrade_has_websocket, connection_has_upgrade, reject_unrequested_extensions.
  destruct (Z.eqb_spec (res_status res) SWITCHING_PROTOCOLS) as [?|?]; cbn [negb]; [|by split; [|intros (? & _)]].
  destruct (existsb _ (hm_get_all "upgrade" _)); cbn [negb]; [|by split; [|intros (_ & ? & _)]].
  destruct (existsb _ (hm_get_all "connection" _)); cbn [negb]; [|by split; [|intros (_ & _ & ? & _)]].
  destruct (validate_accept_header _ _) as [[]| |]; cbn [obind]; [|by split; [|intros (_ & _ & _ & ? & _)]..].
  destruct (validate_selected_subprotocol _ _) as [sub| |]; cbn [obind]; [|by split; [|intros (_ & _ & _ & _ & ? & _)]..].
  destruct (reject_values _) as [[]| |]; cbn [obind]; [|by split; [|intros (_ & _ & _ & _ & _ & ? & _)]..].
  destruct v as [sub' exts]. cbn. split; [by intros [= <- <-]|]. by intros (_ & _ & _ & _ & [= <-] & _ & ->).
Qed.

(** ** What is sent *)

Lemma validate_subprotocols_ok seen ps :
  validate_subprotocols seen ps = Ok () ↔
  Forall (λ p, is_subprotocol_token p = true) ps ∧ NoDup ps ∧ ∀ p, p ∈ ps → p ∉ seen.
Proof.
  revert seen. induction ps as [|p ps IH]; intros seen; cbn [validate_subprotocols].
  { split; [|done]. intros _. split_and!; [constructor|constructor|]. by intros p ?%elem_of_nil. }
  rewrite Forall_cons, NoDup_cons. destruct (is_subprotocol_token p); cbn [negb]; [|by split; [|intros [[? _] _]]].
  case_bool_decide as Hp.
  - split; [done|]. intros (_ & _ & Hs). destruct (Hs p); [left|done].
  - rewrite IH. split.
    + intros (Ht & Hn & Hs). split_and!; [done|done| |done|].
      * intros Hin. apply (Hs p Hin). apply elem_of_union. left. by apply elem_of_singleton.
      * intros q [->|Hq]%elem_of_cons; [done|]. intros Hseen. apply (Hs q Hq). apply elem_of_union. by right.
    + intros ([_ Ht] & [Hnp Hn] & Hs). split_and!; [done|done|]. intros q Hq [->%elem_of_singleton|Hseen]%elem_of_union.
      * done.
      * apply (Hs q); [by right|done].
Qed.

(** The http address a WebSocket address stands for. *)
Definition http_uri (u : Uri) : option Uri :=
  match uri_scheme_str u with
  | Some scheme =>
    if String.eqb scheme "ws" then (λ _, uri_with_scheme "http" u) <$> uri_authority u
    else if String.eqb scheme "wss" then (λ _, uri_with_scheme "https" u) <$> uri_authority u
    else if String.eqb scheme "http" || String.eqb scheme "https" then Some u
    else None
  | None => None
  end.

(** [Uri::from_parts] of the parts of an address with a scheme and an authority keeps them; with a scheme and
    no authority it is an error. *)
Definition from_parts_keeps : Prop := ∀ u, is_Some (uri_scheme_str u) →
  match uri_authority u with Some _ => from_parts u = inr u | None => ∃ e, from_parts u = inl e end.

Lemma rewrite_scheme_ok r r' :
  from_parts_keeps → rewrite_scheme r = Ok r' ↔
  ∃ u, http_uri (req_uri r) = Some u ∧
    r' = mkRequest (req_method r) u (req_version r) (req_headers r) (req_extensions r) (req_body r).
Proof.
  intros Hfp. unfold rewrite_scheme, http_uri. destruct (uri_scheme_str (req_uri r)) as [s|]; [|by split; [|intros (? & ? & _)]].
  assert (Hnew : ∀ scheme, match uri_authority (req_uri r) with
                           | Some _ => from_parts (uri_with_scheme scheme (req_uri r)) = inr (uri_with_scheme scheme (req_uri r))
                           | None => ∃ e, from_parts (uri_with_scheme scheme (req_uri r)) = inl e
                           end) by (intros scheme; by apply (Hfp (uri_with_scheme scheme (req_uri r)))).
  destruct (String.eqb s "ws"); [specialize (Hnew "http")|destruct (String.eqb s "wss"); [specialize (Hnew "https")|]].
  1, 2: destruct (uri_authority (req_uri r)) as [a|]; [|destruct Hnew as [e ->]; by split; [|intros (? & ? & _)]];
        rewrite Hnew; split; [intros [= <-]; eauto|]; by intros (? & [= <-] & ->).
  - destruct (_ || _); [|by split; [|intros (? & ? & _)]]. split; [intros [= <-]|by intros (? & [= <-] & ->); destruct r].
    exists (req_uri r). by destruct r.
Qed.

(** When a call may be made at all. *)
Record may_handshake (m : WebSocketRequestMarker) (bs : string) (r : Request H) : Prop := mkMay {
  may_tokens : Forall (λ p, is_subprotocol_token p = true) (subprotocols m);
  may_distinct : NoDup (subprotocols m);
  may_get : req_method r = Method_GET;
  may_uri : is_Some (http_uri (req_uri r));
  may_key : header_error (base64 bs) = None;
  may_protocol : subprotocols m = [] ∨ header_error (String.concat ", " (subprotocols m)) = None;
}.

(** The request that is sent. *)
Definition handshake_request (m : WebSocketRequestMarker) (bs : string) (r : Request H) : Request H :=
  let h := hm_insert "sec-websocket-key" (base64 bs)
             (hm_insert "sec-websocket-version" "13"
               (hm_insert "connection" "Upgrade" (hm_insert "upgrade" "websocket" (req_headers r)))) in
  mkRequest (req_method r) (default (req_uri r) (http_uri (req_uri r))) "HTTP/1.1"
    (match subprotocols m with [] => h | ps => hm_insert "sec-websocket-protocol" (String.concat ", " ps) h end)
    (handshake_extensions (req_extensions r) (mkMarker (subprotocols m) (derive_accept (base64 bs)))) (req_body r).

Lemma checked_value_ok v v' : checked_value v = Ok v' ↔ header_error v = None ∧ v' = v.
Proof. unfold checked_value. destruct (header_error v); split; [done|by intros [? _]|by intros [= <-]|by intros [_ ->]]. Qed.

Lemma inject_handshake_ok m random r r' :
  from_parts_keeps → ext_websocket (req_extensions r) = Some m →
  inject_handshake random r = Ok r' ↔ ∃ bs, random = inr bs ∧ may_handshake m bs r ∧ r' = handshake_request m bs r.
Proof.
  intros Hfp Hm. unfold inject_handshake. rewrite Hm.
  pose proof (validate_subprotocols_ok ∅ (subprotocols m)) as Hps.
  pose proof (rewrite_scheme_ok r) as Hrw.
  split.
  - intros Hr. apply obind_Ok in Hr as ([] & Hv & Hr). apply obind_Ok in Hr as ([] & Hg & Hr).
    apply obind_Ok in Hr as (r1 & (u & Hu & ->)%Hrw & Hr); [|done].
    apply obind_Ok in Hr as (key & Hk & Hr). destruct random as [e|bs]; [done|]. injection Hk as <-.
    apply obind_Ok in Hr as (kv & [Hkv ->]%checked_value_ok & Hr). apply obind_Ok in Hr as (h & Hh & [= <-]).
    apply Hps in Hv as (Ht & Hn & _). unfold request_must_be_get in Hg. case_bool_decide as Hget; [|done].
    exists bs. unfold handshake_request. rewrite Hu. cbn in Hh |- *.
    destruct (subprotocols m) as [|p ps] eqn:E.
    + injection Hh as <-. split_and!; [done| |done]. constructor; rewrite ?E; eauto.
    + apply obind_Ok in Hh as (v & [Hv ->]%checked_value_ok & [= <-]). split_and!; [done| |done].
      constructor; rewrite ?E; eauto.
  - intros (bs & -> & [Ht Hn Hget [u Hu] Hk Hp] & ->).
    rewrite (proj2 Hps) by (split_and!; [done|done|]; intros p _; apply not_elem_of_empty). cbn [obind].
    unfold request_must_be_get. rewrite bool_decide_true by done. cbn [obind].
    rewrite (proj2 (Hrw _ Hfp)) by (exists u; done). cbn [obind generate_client_key].
    rewrite (proj2 (checked_value_ok (base64 bs) _)) by done. cbn [obind subprotocols].
    unfold handshake_request. rewrite Hu. cbn.
    destruct (subprotocols m) as [|p ps] eqn:E; [done|]. destruct Hp as [?|Hp]; [done|].
    rewrite (proj2 (checked_value_ok _ _)) by done. done.
Qed.

Lemma validate_subprotocols_no_panic seen ps : no_panic (validate_subprotocols seen ps).
Proof.
  revert seen. induction ps as [|p ps IH]; intros seen; cbn [validate_subprotocols]; [done|].
  destruct (negb _); [done|]. case_bool_decide; [done|apply IH].
Qed.

Lemma checked_value_no_panic v : no_panic (checked_value v).
Proof. unfold checked_value. by destruct (header_error v). Qed.

Lemma inject_handshake_no_panic random r :
  is_Some (ext_websocket (req_extensions r)) → no_panic (inject_handshake random r).
Proof.
  intros [m Hm]. unfold inject_handshake. rewrite Hm.
  apply no_panic_obind; [apply validate_subprotocols_no_panic|intros _ _].
  apply no_panic_obind; [unfold request_must_be_get; by case_bool_decide|intros _ _].
  apply no_panic_obind; [|intros r1 _].
  { unfold rewrite_scheme. repeat case_match; done. }
  apply no_panic_obind; [by destruct random|intros key _].
  apply no_panic_obind; [apply checked_value_no_panic|intros kv _].
  apply no_panic_obind; [|done]. cbn [subprotocols]. destruct (subprotocols m); [done|].
  apply no_panic_obind; [apply checked_value_no_panic|done].
Qed.

(** Preparing a marked request for the handshake never panics, and succeeds exactly when randomness
    is available, the method is GET, the address has one of the schemes ws, wss, http and https (and an
    authority, when the scheme is replaced), and the
    subprotocols are distinct non-empty tokens whose header values the http crate accepts; in every other
    case the call fails with an error before anything is sent. *)
Theorem inject_handshake_succeeds_iff m random r :
  from_parts_keeps → ext_websocket (req_extensions r) = Some m →
  ((∃ r', inject_handshake random r = Ok r') ↔ ∃ bs, random = inr bs ∧ may_handshake m bs r) ∧
  ((∃ e, inject_handshake random r = Err e) ↔ ¬ ∃ bs, random = inr bs ∧ may_handshake m bs r).
Proof.
  intros Hfp Hm.
  assert (Hok : (∃ r', inject_handshake random r = Ok r') ↔ ∃ bs, random = inr bs ∧ may_handshake m bs r).
  { setoid_rewrite (inject_handshake_ok m random r) at 1; [|done..]. split.
    - intros (r' & bs & ? & ? & _). eauto.
    - intros (bs & ? & ?). eauto. }
  split; [done|]. rewrite <- Hok.
  pose proof (inject_handshake_no_panic random r (mk_is_Some _ _ Hm)) as Hnp.
  destruct (inject_handshake random r) as [r'|e|]; [| |done].
  - split; [by intros [? ?]|]. intros Hn. destruct Hn. by exists r'.
  - split; [by intros _ [? ?]|]. intros _. by exists e.
Qed.

(** The answer is tied to the key: the request that is sent carries one Sec-WebSocket-Key, the
    headers RFC 6455 requires, no change to any other header and, if the caller named any, exactly the
    subprotocols it named; and a server's plain answer to it is accepted exactly when its only
    Sec-WebSocket-Accept is the base64 of the SHA-1 of that very key followed by the protocol's GUID. *)
Theorem handshake_key_answered m random r r' :
  from_parts_keeps → ext_websocket (req_extensions r) = Some m → inject_handshake random r = Ok r' →
  ∃ key m',
    hm_get_all "sec-websocket-key" (req_headers r') = [key] ∧
    hm_get_all "sec-websocket-version" (req_headers r') = ["13"%string] ∧
    hm_get_all "upgrade" (req_headers r') = ["websocket"%string] ∧
    hm_get_all "connection" (req_headers r') = ["Upgrade"%string] ∧
    (subprotocols m ≠ [] → hm_get_all "sec-websocket-protocol" (req_headers r') = [String.concat ", " (subprotocols m)]) ∧
    (∀ name, name ∉ ["sec-websocket-key"; "sec-websocket-version"; "upgrade"; "connection"; "sec-websocket-protocol"]%string →
       hm_get_all name (req_headers r') = hm_get_all name (req_headers r)) ∧
    http_uri (req_uri r) = Some (req_uri r') ∧
    ext_websocket (req_extensions r') = Some m' ∧ subprotocols m' = subprotocols m ∧
    ∀ res, res_status res = SWITCHING_PROTOCOLS →
      hm_get_all "upgrade" (res_headers res) = ["websocket"%string] → to_str "websocket" = Some "websocket"%string →
      hm_get_all "connection" (res_headers res) = ["Upgrade"%string] → to_str "Upgrade" = Some "Upgrade"%string →
      hm_get_all "sec-websocket-protocol" (res_headers res) = [] →
      hm_get_all "sec-websocket-extensions" (res_headers res) = [] →
      (validate_handshake_response res (expected_accept m') (subprotocols m') = Ok (mkValidated None []) ↔
       ∃ value, hm_get_all "sec-websocket-accept" (res_headers res) = [value] ∧
         to_str value = Some (base64 (sha1 (key +:+ HANDSHAKE_MAGIC)))).
Proof.
  intros Hfp Hm (bs & -> & [Ht Hn Hget [u Hu] Hk Hp] & ->)%(inject_handshake_ok m); [|done..].
  exists (base64 bs), (mkMarker (subprotocols m) (derive_accept (base64 bs))).
  unfold handshake_request. rewrite Hu. cbn [req_headers req_uri req_extensions default ext_websocket handshake_extensions].
  assert (Hget_h : ∀ name, name ≠ "sec-websocket-protocol"%string → ∀ h : H,
    hm_get_all name (match subprotocols m with [] => h | p :: ps =>
      hm_insert "sec-websocket-protocol" (String.concat ", " (p :: ps)) h end) = hm_get_all name h).
  { intros name Hne h. destruct (subprotocols m); [done|]. rewrite hm_get_all_insert. by rewrite bool_decide_false. }
  split_and!.
  - rewrite Hget_h by done. by rewrite hm_get_all_insert.
  - rewrite Hget_h by done. by rewrite !hm_get_all_insert.
  - rewrite Hget_h by done. by rewrite !hm_get_all_insert.
  - rewrite Hget_h by done. by rewrite !hm_get_all_insert.
  - intros Hne. destruct (subprotocols m) as [|p ps]; [done|]. by rewrite hm_get_all_insert.
  - intros name Hname. rewrite !not_elem_of_cons in Hname. destruct Hname as (H1' & H2' & H3' & H4' & H5' & _).
    rewrite Hget_h by done. rewrite !hm_get_all_insert. by rewrite !bool_decide_false.
  - done.
  - done.
  - done.
  - intros res Hs Hup Hup' Hco Hco' Hpr Hex. rewrite handshake_accepted_iff.
    cbn [expected_accept subprotocols vh_subprotocol vh_extensions]. unfold chosen, derive_accept. rewrite Hex.
    split; [by intros (_ & _ & _ & ? & _)|]. intros Hv. split_and!; [done| | |done|done|constructor|done].
    + exists "websocket"%string, "websocket"%string. rewrite Hup. split_and!; [left|done|reflexivity].
    + exists "Upgrade"%string, "Upgrade"%string. rewrite Hco. split_and!; [left|done|reflexivity].
Qed.
End Handshake.

(** ** A concrete handshake *)

Module HandshakeDemo.
Abbreviation Headers := (list (string * string)).
Definition uri : Uri := mkUri (Some "wss") (Some "example.test") (Some "example.test") None "/chat".
Definition marker : WebSocketRequestMarker := marker_new ["chat"; "superchat"].
Definition request : Request Headers :=
  mkRequest Method_GET uri "HTTP/1.1" [("accept", "x")]
    (mkExtensions None None None None None false false (Some marker) None None) Body_Absent.
Definition sha1 (s : string) : string := String.substring 0 4 s.
Definition base64 (s : string) : string := "b" +:+ s.
(** The errors of [Uri::from_parts] for an address with a scheme or an authority and not both. *)
Definition from_parts (u : Uri) : string + Uri :=
  match uri_scheme_str u, uri_authority u with
  | Some _, None => inl "authority missing"
  | None, Some _ => inl "scheme missing"
  | _, _ => inr u
  end.
Lemma from_parts_ok : from_parts_keeps from_parts.
Proof. intros u [s Hs]. unfold from_parts. rewrite Hs. destruct (uri_authority u); eauto. Qed.
Definition inject := inject_handshake sha1 base64 (λ s, s) (λ _, None) from_parts (inr "nonce") request.
Definition sent : Request Headers := match inject with Ok r => r | _ => request end.
Definition answer : Response Headers :=
  mkResponse SWITCHING_PROTOCOLS "HTTP/1.1"
    [("upgrade", "WebSocket"); ("connection", "keep-alive, Upgrade"); ("sec-websocket-accept", "bbnon"); ("sec-websocket-protocol", "chat")]
    (Ok []) None false.

Example handshake_headers :
  req_headers sent = [("sec-websocket-protocol", "chat, superchat"); ("sec-websocket-key", "bnonce");
                      ("sec-websocket-version", "13"); ("connection", "Upgrade"); ("upgrade", "websocket"); ("accept", "x")].
Proof. reflexivity. Qed.

Example answer_accepted : validate_handshake_response Some answer "bbnon" ["chat"; "superchat"] = Ok (mkValidated (Some "chat"%string) []).
Proof. reflexivity. Qed.
End HandshakeDemo.

Lemma handshake_accepted_iff_witness :
  chosen Some (res_headers HandshakeDemo.answer) ["chat"; "superchat"]%string (Some "chat"%string).
Proof.
  apply (handshake_accepted_iff Some HandshakeDemo.answer "bbnon" ["chat"; "superchat"]
           (mkValidated (Some "chat"%string) [])). reflexivity.
Defined.

Lemma inject_handshake_succeeds_iff_witness :
  ∃ bs, inr "nonce"%string = @inr string string bs ∧
        may_handshake HandshakeDemo.base64 (λ _, None) HandshakeDemo.marker bs HandshakeDemo.request.
Proof.
  apply (inject_handshake_succeeds_iff HandshakeDemo.sha1 HandshakeDemo.base64 (λ s, s) (λ _, None) HandshakeDemo.from_parts
           HandshakeDemo.marker (inr "nonce"%string) HandshakeDemo.request); [apply HandshakeDemo.from_parts_ok|done|].
  by exists HandshakeDemo.sent.
Defined.

Lemma handshake_key_answered_witness :
  ∃ key, hm_get_all "sec-websocket-key" (req_headers HandshakeDemo.sent) = [key].
Proof.
  destruct (handshake_key_answered HandshakeDemo.sha1 HandshakeDemo.base64 (λ s, s) Some (λ _, None) HandshakeDemo.from_parts
              HandshakeDemo.marker (inr "nonce"%string) HandshakeDemo.request HandshakeDemo.sent)
    as (key & m' & Hkey & _); [apply HandshakeDemo.from_parts_ok|done|reflexivity|]. by exists key.
Defined.
