(* ===== verification/WsWriter.v ===== *)
(** * A WebSocket session: writer, reader and heartbeat

    openwire/src/websocket/writer.rs (the three tasks [spawn_session] starts), public.rs (the handle the
    user sends and closes with) and instrumented.rs (the events the channel reports).

    A task is a program [act]: one constructor per operation that another task can observe or that can
    wait - an atomic flag, a channel, the sink, the stream, a timer - in the order of the source, each with
    the rest of the program.  An [async fn] is a definition that takes its continuation; a loop is a
    [label] whose body is [body].  [exec] performs one operation on the shared state, or [None] while it
    has to wait; the tasks and the user interleave between any two operations.  The channels and the
    notification behave as tokio documents: bounded queues, receivers that end when the last sender is
    gone, and [Notify::notify_waiters], which wakes the futures that exist and leaves no permit.  Time is
    not counted: a timer may expire at any moment.  The session has the call context and listener, as the
    only caller gives it. *)

From S2P Require Import Prelude Net Error Http WsCodec WsSession WsHandshake.

(** [CONTROL_LANE_CAPACITY], openwire/websocket/writer.rs:19-19. *)
Definition CONTROL_LANE_CAPACITY : Z := 8.

(** [WriterCommand], openwire/websocket/writer.rs:24-38; the acknowledgement channel of a Close is counted
    in the log. *)
Inductive WriterCommand : Type :=
| Cmd_Pong (payload : bytes)
| Cmd_Ping (payload : bytes)
| Cmd_Close (code : Z) (reason : bytes)
| Cmd_CloseAck (code : Z) (reason : bytes)
| Cmd_PingTimeout
| Cmd_Cancel.

(** [CloseInitiator], as the listener is told. *)
Inductive CloseInitiator : Type := Initiator_Local | Initiator_Remote.

(** What the listener is told. *)
Inductive Event : Type :=
| Ev_Closing (code : Z) (reason : bytes) (by_ : CloseInitiator)
| Ev_Closed (code : Z) (reason : bytes)
| Ev_Failed (e : WebSocketError)
| Ev_CallFailed (e : WireError)
| Ev_CallEnd
| Ev_MessageSent (k : MessageKind) (n : Z)
| Ev_MessageReceived (k : MessageKind) (n : Z)
| Ev_PingSent
| Ev_PongReceived.

(** Which queue a sent frame came from. *)
Inductive Lane : Type := Lane_Control | Lane_Data.

Abbreviation Delivered := (WebSocketError + Message)%type.
Abbreviation StreamItem := (option (WebSocketEngineError + EngineFrame)).

(** What [try_recv] answers. *)
Inductive TryRecv : Type := Try_Got (m : Message) | Try_Empty | Try_Disconnected.

(** Which branch of the heartbeat's [select!] is taken. *)
Inductive HeartEvent : Type := Heart_Pong | Heart_Timeout | Heart_Closed.

(** What follows [drain_data_lane]. *)
Inductive AfterDrain : Type :=
| AD_Shutdown
| AD_ControlClosed
| AD_Close (code : Z) (reason : bytes) (open : bool)
| AD_Cancel.

(** The loops of the three tasks; [open] is the writer's [data_open]. *)
Inductive label : Type :=
| L_Loop (open : bool)
| L_Poll (open : bool)
| L_Drain (a : AfterDrain)
| L_CloseWait (code : Z) (reason : bytes) (open : bool)
| L_Read
| L_HeartStart
| L_Heart
| L_HeartWait (generation : Z).

Inductive act : Type :=
| Stop
| Goto (l : label)
| LoadLocal (k : bool → act)
| LoadRemote (k : bool → act)
| StoreLocal (k : act)
| StoreRemote (k : act)
| TryMarkClosed (k : bool → act)
| TryMarkTerminal (k : bool → act)
| Emit (e : Event) (k : act)
| SinkSend (lane : Lane) (f : EngineFrame) (k : option WebSocketEngineError → act)
| SinkFlush (k : act)
| OutSend (item : Delivered) (k : act)
| ControlSend (c : WriterCommand) (k : bool → act)
| FreshNotified (k : act)
| PollShutdown (k : bool → act)
| PollControl (k : poll (option WriterCommand) → act)
| PollData (k : poll (option Message) → act)
| TryRecvData (k : TryRecv → act)
| PollTimer (k : bool → act)
| SendAck (k : act)
| NextItem (k : StreamItem → act)
| MarkPong (k : act)
| LoadGeneration (k : Z → act)
| Tick (k : act)
| HeartSelect (generation : Z) (k : HeartEvent → act).

(** [map_engine_error], openwire/websocket/writer.rs:377-382. *)
Definition map_engine_error (e : WebSocketEngineError) : WebSocketError :=
  match e with Io io => WsErr_Io io | other => WsErr_Engine other end.

Section Tasks.
(** The Display text of an error, [deliver_control_frames], and whether there is a heartbeat. *)
Context (error_text : WebSocketError → string) (deliver tracked : bool).

(** [websocket_error_as_wire_error], openwire/websocket/writer.rs:384-397. *)
Definition websocket_error_as_wire_error (e : WebSocketError) : WireError :=
  match e with
  | WsErr_Io w => w
  | WsErr_Timeout _ => timeout (error_text e)
  | WsErr_LocalCancelled => error_new Kind_Canceled "websocket call cancelled"
  | WsErr_Handshake _ _ | WsErr_Engine _ | WsErr_ClosedByPeer _ _ => error_new Kind_Protocol (error_text e)
  end.

(** [emit_terminal_failure], openwire/websocket/writer.rs:399-416. *)
Definition emit_terminal_failure (e : WebSocketError) (k : act) : act :=
  TryMarkTerminal (λ first,
    if first then Emit (Ev_Failed e) (Emit (Ev_CallFailed (websocket_error_as_wire_error e)) k) else k).

(** [emit_call_end], openwire/websocket/writer.rs:418-425. *)
Definition emit_call_end (k : act) : act := TryMarkTerminal (λ first, if first then Emit Ev_CallEnd k else k).

(** ** The writer *)

(** [send_data_frame], openwire/websocket/writer.rs:99-115; [k] is given whether the writer stops. *)
Definition send_data_frame (m : Message) (k : bool → act) : act :=
  LoadRemote (λ remote,
    if remote then k false
    else SinkSend Lane_Data (frame_of_message m) (λ r,
      match r with
      | Some e => let mapped := map_engine_error e in emit_terminal_failure mapped (OutSend (inl mapped) (k true))
      | None => k false
      end)).

(** [maybe_send_one_data], openwire/websocket/writer.rs:126-138; [k] is given whether to stop and [data_open]. *)
Definition maybe_send_one_data (open : bool) (k : bool → bool → act) : act :=
  if negb open then k false open
  else TryRecvData (λ r,
    match r with
    | Try_Got m => send_data_frame m (λ stop, k stop open)
    | Try_Empty => k false open
    | Try_Disconnected => k false false
    end).

(** A Ping or Pong of [handle_control_command], openwire/websocket/writer.rs:147-180. *)
Definition send_control (f : EngineFrame) (open : bool) (k : bool → bool → act) : act :=
  LoadRemote (λ remote,
    if remote then k false open
    else SinkSend Lane_Control f (λ r,
      match r with
      | Some e =>
        let mapped := map_engine_error e in emit_terminal_failure mapped (OutSend (inl mapped) (k true open))
      | None => maybe_send_one_data open k
      end)).

(** The end of a local close, openwire/websocket/writer.rs:219-227. *)
Definition finish_close (code : Z) (reason : bytes) : act :=
  TryMarkClosed (λ first,
    if first then Emit (Ev_Closed code reason) (emit_call_end (SendAck Stop)) else SendAck Stop).

(** [handle_control_command], openwire/websocket/writer.rs:141-272; the arms that drain the data lane go on
    in [after_drain]. *)
Definition handle_control_command (cmd : WriterCommand) (open : bool) (k : bool → bool → act) : act :=
  match cmd with
  | Cmd_Ping p => send_control (EF_Ping p) open k
  | Cmd_Pong p => send_control (EF_Pong p) open k
  | Cmd_Close code reason =>
    LoadRemote (λ remote,
      if remote then SendAck (k false open)
      else StoreLocal (Emit (Ev_Closing code reason Initiator_Local) (Goto (L_Drain (AD_Close code reason open)))))
  | Cmd_CloseAck code reason => SinkSend Lane_Control (EF_Close code reason) (λ _, SinkFlush (k true open))
  | Cmd_PingTimeout =>
    LoadRemote (λ remote,
      if remote then k false open
      else StoreLocal
        (emit_terminal_failure (WsErr_Timeout TimeoutKind_Ping)
          (OutSend (inl (WsErr_Timeout TimeoutKind_Ping))
            (SinkSend Lane_Control (EF_Close 1011 (string_bytes "ping timeout")) (λ _, SinkFlush (k true open))))))
  | Cmd_Cancel => Goto (L_Drain AD_Cancel)
  end.

(** What follows [drain_data_lane] in [run_writer], openwire/websocket/writer.rs:60-78, and in
    [handle_control_command], openwire/websocket/writer.rs:190-218 and 258-273. *)
Definition after_drain (a : AfterDrain) (stop : bool) : act :=
  match a with
  | AD_Shutdown | AD_Cancel =>
    if stop then Stop else SinkFlush (emit_terminal_failure WsErr_LocalCancelled Stop)
  | AD_ControlClosed => Stop
  | AD_Close code reason open =>
    if stop then SendAck Stop
    else SinkSend Lane_Control (EF_Close code reason) (λ _, SinkFlush (Goto (L_CloseWait code reason open)))
  end.

(** [drain_data_lane], openwire/websocket/writer.rs:117-124. *)
Definition drain_data_lane (a : AfterDrain) : act :=
  TryRecvData (λ r,
    match r with
    | Try_Got m => send_data_frame m (λ stop, if stop then after_drain a true else Goto (L_Drain a))
    | Try_Empty | Try_Disconnected => after_drain a false
    end).

Definition continue_writer (stop open : bool) : act := if stop then Stop else Goto (L_Loop open).

(** [run_writer], openwire/websocket/writer.rs:58-97: the biased [select!] polls the shutdown, the control
    lane and, while it is open, the data lane. *)
Definition run_writer (open : bool) : act :=
  PollShutdown (λ notified,
    if notified then Goto (L_Drain AD_Shutdown)
    else PollControl (λ c,
      match c with
      | Ready (Some cmd) => handle_control_command cmd open continue_writer
      | Ready None => Goto (L_Drain AD_ControlClosed)
      | Pending =>
        if open then PollData (λ d,
          match d with
          | Ready (Some m) => send_data_frame m (λ stop, continue_writer stop open)
          | Ready None => Goto (L_Loop false)
          | Pending => Goto (L_Poll open)
          end)
        else Goto (L_Poll open)
      end)).

(** Waiting for the peer's answer to a local close, openwire/websocket/writer.rs:201-218. *)
Definition close_wait (code : Z) (reason : bytes) (open : bool) : act :=
  let timer := PollTimer (λ expired, if expired then finish_close code reason else Goto (L_CloseWait code reason open)) in
  PollControl (λ c,
    match c with
    | Ready (Some Cmd_Cancel) | Ready None => finish_close code reason
    | Ready (Some _) => Goto (L_CloseWait code reason open)
    | Pending =>
      if open then PollData (λ d,
        match d with
        | Ready None => Goto (L_CloseWait code reason false)
        | Ready (Some _) => Goto (L_CloseWait code reason open)
        | Pending => timer
        end)
      else timer
    end).

(** ** The reader *)

Definition read_failed (e : WebSocketError) : act :=
  emit_terminal_failure e (OutSend (inl e) (ControlSend Cmd_Cancel (λ _, Stop))).

Definition deliver_control (m : Message) (k : act) : act := if deliver then OutSend (inr m) k else k.

(** [run_reader], openwire/websocket/writer.rs:286-375. *)
Definition run_reader : act :=
  NextItem (λ item,
    match item with
    | Some (inr (EF_Ping p)) => ControlSend (Cmd_Pong p) (λ _, deliver_control (Msg_Ping p) (Goto L_Read))
    | Some (inr (EF_Pong p)) =>
      let rest := deliver_control (Msg_Pong p) (Goto L_Read) in if tracked then MarkPong rest else rest
    | Some (inr (EF_Close code reason)) =>
      LoadLocal (λ local, StoreRemote (
        let rest := OutSend (inl (WsErr_ClosedByPeer code reason))
                      (ControlSend (if local then Cmd_Cancel else Cmd_CloseAck code reason) (λ _, Stop)) in
        if local then rest
        else TryMarkClosed (λ first, if first then Emit (Ev_Closed code reason) (emit_call_end rest) else rest)))
    | Some (inr (EF_Text t)) => OutSend (inr (Msg_Text t)) (Goto L_Read)
    | Some (inr (EF_Binary b)) => OutSend (inr (Msg_Binary b)) (Goto L_Read)
    | Some (inl (Io e)) => read_failed (WsErr_Io e)
    | Some (inl other) => read_failed (WsErr_Engine other)
    | None =>
      LoadLocal (λ local,
        if local then ControlSend Cmd_Cancel (λ _, Stop)
        else read_failed (WsErr_Engine (InvalidFrame "websocket stream ended before close frame")))
    end).

(** ** The heartbeat *)

(** [run_heartbeat], openwire/websocket/writer.rs:622-652. *)
Definition heartbeat_round : act :=
  Tick (LoadGeneration (λ g, ControlSend (Cmd_Ping []) (λ ok, if ok then Goto (L_HeartWait g) else Stop))).

Definition heartbeat_wait (g : Z) : act :=
  HeartSelect g (λ e,
    match e with
    | Heart_Pong => Goto L_Heart
    | Heart_Timeout =>
      LoadGeneration (λ g', if g' =? g then ControlSend Cmd_PingTimeout (λ _, Stop) else Goto L_Heart)
    | Heart_Closed => Stop
    end).

Definition body (l : label) : act :=
  match l with
  | L_Loop open => FreshNotified (Goto (L_Poll open))
  | L_Poll open => run_writer open
  | L_Drain a => drain_data_lane a
  | L_CloseWait code reason open => close_wait code reason open
  | L_Read => run_reader
  | L_HeartStart => Tick (Goto L_Heart)
  | L_Heart => heartbeat_round
  | L_HeartWait g => heartbeat_wait g
  end.
End Tasks.

(** ** Shared state *)

(** [SessionState], openwire/websocket/writer.rs:554-560, and [PongTracker]'s generation. *)
Record SessionState : Type := mkFlags {
  local_close_started : bool;
  remote_close_started : bool;
  closed_emitted : bool;
  call_terminal_emitted : bool;
  generation : Z;
}.

(** The queues of [spawn_session], openwire/websocket/writer.rs:453-457; [ch_notified] is whether the
    writer's current [Notified] future was woken. *)
Record Channels : Type := mkChannels {
  ch_control : list WriterCommand;
  ch_data : list Message;
  ch_out : list Delivered;
  ch_notified : bool;
}.

(** What has happened: frames the sink took, listener events, acknowledged closes, messages that entered
    the data lane, messages taken from it, frames the stream gave. *)
Record Log : Type := mkLog {
  lg_wire : list (Lane * EngineFrame);
  lg_events : list Event;
  lg_acks : Z;
  lg_accepted : list Message;
  lg_taken : list Message;
  lg_received : list EngineFrame;
}.

(** Which ends of the channels are left, and the user's calls in progress; [us_closed] is
    [SenderInner::closed]. *)
Record Ends : Type := mkEnds {
  en_writer : bool;
  en_reader : bool;
  en_heart : bool;
  us_alive : bool;
  us_closed : bool;
  us_sends : list Message;
  us_close : option (Z * bytes);
  us_receiver : bool;
}.

Record Shared : Type := mkShared { sh_flags : SessionState; sh_ch : Channels; sh_log : Log; sh_ends : Ends }.

(** [SessionState::mark_local_close_started], openwire/websocket/writer.rs:563-565. *)
Definition mark_local_close_started (f : SessionState) : SessionState :=
  mkFlags true (remote_close_started f) (closed_emitted f) (call_terminal_emitted f) (generation f).
(** [SessionState::mark_remote_close_started], openwire/websocket/writer.rs:571-573. *)
Definition mark_remote_close_started (f : SessionState) : SessionState :=
  mkFlags (local_close_started f) true (closed_emitted f) (call_terminal_emitted f) (generation f).
(** [SessionState::try_mark_closed], openwire/websocket/writer.rs:579-581. *)
Definition try_mark_closed (f : SessionState) : bool * SessionState :=
  (negb (closed_emitted f),
   mkFlags (local_close_started f) (remote_close_started f) true (call_terminal_emitted f) (generation f)).
(** [SessionState::try_mark_call_terminal], openwire/websocket/writer.rs:583-585. *)
Definition try_mark_call_terminal (f : SessionState) : bool * SessionState :=
  (negb (call_terminal_emitted f),
   mkFlags (local_close_started f) (remote_close_started f) (closed_emitted f) true (generation f)).
(** [PongTracker::mark], openwire/websocket/writer.rs:602-605. *)
Definition mark_pong (f : SessionState) : SessionState :=
  mkFlags (local_close_started f) (remote_close_started f) (closed_emitted f) (call_terminal_emitted f)
    (u64_wrapping_add (generation f) 1).

Definition with_flags (g : SessionState → SessionState) (s : Shared) : Shared :=
  mkShared (g (sh_flags s)) (sh_ch s) (sh_log s) (sh_ends s).
Definition with_ch (g : Channels → Channels) (s : Shared) : Shared :=
  mkShared (sh_flags s) (g (sh_ch s)) (sh_log s) (sh_ends s).
Definition with_log (g : Log → Log) (s : Shared) : Shared :=
  mkShared (sh_flags s) (sh_ch s) (g (sh_log s)) (sh_ends s).
Definition with_ends (g : Ends → Ends) (s : Shared) : Shared :=
  mkShared (sh_flags s) (sh_ch s) (sh_log s) (g (sh_ends s)).

Definition set_control (q : list WriterCommand) : Shared → Shared :=
  with_ch (λ c, mkChannels q (ch_data c) (ch_out c) (ch_notified c)).
Definition set_data (q : list Message) : Shared → Shared :=
  with_ch (λ c, mkChannels (ch_control c) q (ch_out c) (ch_notified c)).
Definition set_out (q : list Delivered) : Shared → Shared :=
  with_ch (λ c, mkChannels (ch_control c) (ch_data c) q (ch_notified c)).
Definition set_notified (b : bool) : Shared → Shared :=
  with_ch (λ c, mkChannels (ch_control c) (ch_data c) (ch_out c) b).
Definition log_wire (lane : Lane) (f : EngineFrame) : Shared → Shared :=
  with_log (λ l, mkLog (lg_wire l ++ [(lane, f)]) (lg_events l) (lg_acks l) (lg_accepted l) (lg_taken l) (lg_received l)).
Definition log_event (e : Event) : Shared → Shared :=
  with_log (λ l, mkLog (lg_wire l) (lg_events l ++ [e]) (lg_acks l) (lg_accepted l) (lg_taken l) (lg_received l)).
Definition log_ack : Shared → Shared :=
  with_log (λ l, mkLog (lg_wire l) (lg_events l) (lg_acks l + 1) (lg_accepted l) (lg_taken l) (lg_received l)).
Definition log_accepted (m : Message) : Shared → Shared :=
  with_log (λ l, mkLog (lg_wire l) (lg_events l) (lg_acks l) (lg_accepted l ++ [m]) (lg_taken l) (lg_received l)).
Definition log_taken (m : Message) : Shared → Shared :=
  with_log (λ l, mkLog (lg_wire l) (lg_events l) (lg_acks l) (lg_accepted l) (lg_taken l ++ [m]) (lg_received l)).
Definition log_received (f : EngineFrame) : Shared → Shared :=
  with_log (λ l, mkLog (lg_wire l) (lg_events l) (lg_acks l) (lg_accepted l) (lg_taken l) (lg_received l ++ [f])).

(** [InstrumentedSink::start_send], openwire/websocket/instrumented.rs:44-59: what is reported first. *)
Definition sent_events (f : EngineFrame) : list Event :=
  match f with
  | EF_Text t => [Ev_MessageSent MK_Text (len t)]
  | EF_Binary b => [Ev_MessageSent MK_Binary (len b)]
  | EF_Ping _ => [Ev_PingSent]
  | EF_Pong _ | EF_Close _ _ => []
  end.

(** [InstrumentedStream::poll_next], openwire/websocket/instrumented.rs:79-108: what is reported of an item. *)
Definition received_events (f : EngineFrame) : list Event :=
  match f with
  | EF_Text t => [Ev_MessageReceived MK_Text (len t)]
  | EF_Binary b => [Ev_MessageReceived MK_Binary (len b)]
  | EF_Pong _ => [Ev_PongReceived]
  | EF_Close code reason => [Ev_Closing code reason Initiator_Remote]
  | EF_Ping _ => []
  end.

Definition log_events (es : list Event) (s : Shared) : Shared := foldl (λ s e, log_event e s) s es.

(** How a sink answers [send]: it took the frame, failed with it, or was never ready for it. *)
Inductive SinkResult : Type := Sink_Sent | Sink_Failed (e : WebSocketEngineError) | Sink_NotReady (e : WebSocketEngineError).

(** What the outside decides for one operation. *)
Inductive Input : Type :=
| In_None
| In_Sink (r : SinkResult)
| In_Timer (expired : bool)
| In_Item (item : StreamItem)
| In_Heart (e : HeartEvent).

Section Exec.
Context (queue_size : Z).

(** Whether the control lane, the data lane and the receiver's lane can still get something. *)
Definition control_senders (e : Ends) : bool := us_alive e || en_reader e || en_heart e.
Definition out_capacity : Z := Z.max queue_size 1.

(** Taking from the data lane. *)
Definition take_data (m : Message) (q : list Message) (s : Shared) : Shared := log_taken m (set_data q s).

(** One operation of a task. *)
Definition exec (error_text : WebSocketError → string) (deliver tracked : bool) (i : Input) (a : act) (s : Shared)
    : option (act * Shared) :=
  let c := sh_ch s in
  let e := sh_ends s in
  match a with
  | Stop => None
  | Goto l => Some (body error_text deliver tracked l, s)
  | LoadLocal k => Some (k (local_close_started (sh_flags s)), s)
  | LoadRemote k => Some (k (remote_close_started (sh_flags s)), s)
  | StoreLocal k => Some (k, with_flags mark_local_close_started s)
  | StoreRemote k => Some (k, with_flags mark_remote_close_started s)
  | TryMarkClosed k => Some (k (try_mark_closed (sh_flags s)).1, with_flags (λ f, (try_mark_closed f).2) s)
  | TryMarkTerminal k => Some (k (try_mark_call_terminal (sh_flags s)).1, with_flags (λ f, (try_mark_call_terminal f).2) s)
  | Emit ev k => Some (k, log_event ev s)
  | SinkSend lane f k =>
    match i with
    | In_Sink Sink_Sent => Some (k None, log_wire lane f (log_events (sent_events f) s))
    | In_Sink (Sink_Failed err) => Some (k (Some err), log_events (sent_events f) s)
    | In_Sink (Sink_NotReady err) => Some (k (Some err), s)
    | _ => None
    end
  | SinkFlush k => Some (k, s)
  | OutSend item k =>
    if negb (us_receiver e) then Some (k, s)
    else if len (ch_out c) <? out_capacity then Some (k, set_out (ch_out c ++ [item]) s) else None
  | ControlSend cmd k =>
    if negb (en_writer e) then Some (k false, s)
    else if len (ch_control c) <? CONTROL_LANE_CAPACITY then Some (k true, set_control (ch_control c ++ [cmd]) s) else None
  | FreshNotified k => Some (k, set_notified false s)
  | PollShutdown k => Some (k (ch_notified c), s)
  | PollControl k =>
    match ch_control c with
    | cmd :: q => Some (k (Ready (Some cmd)), set_control q s)
    | [] => Some (k (if control_senders e then Pending else Ready None), s)
    end
  | PollData k =>
    match ch_data c with
    | m :: q => Some (k (Ready (Some m)), take_data m q s)
    | [] => Some (k (if us_alive e then Pending else Ready None), s)
    end
  | TryRecvData k =>
    match ch_data c with
    | m :: q => Some (k (Try_Got m), take_data m q s)
    | [] => Some (k (if us_alive e then Try_Empty else Try_Disconnected), s)
    end
  | PollTimer k => match i with In_Timer b => Some (k b, s) | _ => None end
  | SendAck k => Some (k, log_ack s)
  | NextItem k =>
    match i with
    | In_Item (Some (inr f)) => Some (k (Some (inr f)), log_received f (log_events (received_events f) s))
    | In_Item item => Some (k item, s)
    | _ => None
    end
  | MarkPong k => Some (k, with_flags mark_pong s)
  | LoadGeneration k => Some (k (generation (sh_flags s)), s)
  | Tick k => Some (k, s)
  | HeartSelect g k =>
    match i with
    | In_Heart Heart_Pong => if generation (sh_flags s) =? g then None else Some (k Heart_Pong, s)
    | In_Heart Heart_Timeout => Some (k Heart_Timeout, s)
    | In_Heart Heart_Closed => if en_writer e then None else Some (k Heart_Closed, s)
    | _ => None
    end
  end.

(** ** The user's handle *)

Inductive UserOp : Type :=
| U_Send (m : Message)
| U_Enqueue (i : nat)
| U_Cancel (i : nat)
| U_Close (code : Z) (reason : bytes)
| U_EnqueueClose
| U_CancelClose
| U_Drop
| U_Receive
| U_DropReceiver.

Definition set_sends (l : list Message) : Shared → Shared :=
  with_ends (λ e, mkEnds (en_writer e) (en_reader e) (en_heart e) (us_alive e) (us_closed e) l (us_close e) (us_receiver e)).
Definition set_close (closed : bool) (p : option (Z * bytes)) : Shared → Shared :=
  with_ends (λ e, mkEnds (en_writer e) (en_reader e) (en_heart e) (us_alive e) closed (us_sends e) p (us_receiver e)).

(** [WebSocketSender::send] up to the queue, openwire/websocket/public.rs:52-56: the call waits, or an
    error. *)
Definition sender_send (m : Message) (s : Shared) : outcome WebSocketError Shared :=
  if us_closed (sh_ends s) then Err WsErr_LocalCancelled
  else match validate_outbound_message m with
  | Ok _ => Ok (set_sends (us_sends (sh_ends s) ++ [m]) s)
  | Err e => Err (WsErr_Engine e)
  | Panic => Panic
  end.

(** [WebSocketSender::close] up to the queue, openwire/websocket/public.rs:75-89: nothing to do, an error, or
    the call waits. *)
Definition sender_close (code : Z) (reason : bytes) (s : Shared) : outcome WebSocketError Shared :=
  if us_closed (sh_ends s) then Ok s
  else match validate_close_frame code reason with
  | Ok _ => Ok (set_close true (Some (code, reason)) s)
  | Err e => Err (WsErr_Engine e)
  | Panic => Panic
  end.

(** [Drop for SenderInner], openwire/websocket/public.rs:26-33, when the last handle goes. *)
Definition sender_drop (s : Shared) : Shared :=
  let s := if en_writer (sh_ends s) && (len (ch_control (sh_ch s)) <? CONTROL_LANE_CAPACITY)
           then set_control (ch_control (sh_ch s) ++ [Cmd_Cancel]) s else s in
  with_ends (λ e, mkEnds (en_writer e) (en_reader e) (en_heart e) false (us_closed e) (us_sends e) (us_close e) (us_receiver e))
    (set_notified true s).

(** What a user can do next; a waiting [send] may finish in any order or be dropped. *)
Definition user_step (op : UserOp) (s : Shared) : option Shared :=
  let e := sh_ends s in
  if negb (us_alive e) && match op with U_Receive | U_DropReceiver => false | _ => true end then None else
  match op with
  | U_Send m => match sender_send m s with Ok s' => Some s' | _ => Some s end
  | U_Enqueue i =>
    match us_sends e !! i with
    | None => None
    | Some m =>
      if negb (en_writer e) then Some (set_sends (delete i (us_sends e)) s)
      else if len (ch_data (sh_ch s)) <? Z.max queue_size 1 then
        Some (log_accepted m (set_data (ch_data (sh_ch s) ++ [m]) (set_sends (delete i (us_sends e)) s)))
      else None
    end
  | U_Cancel i => Some (set_sends (delete i (us_sends e)) s)
  | U_Close code reason => match sender_close code reason s with Ok s' => Some s' | _ => Some s end
  | U_EnqueueClose =>
    match us_close e with
    | None => None
    | Some (code, reason) =>
      if negb (en_writer e) then Some (set_close (us_closed e) None s)
      else if len (ch_control (sh_ch s)) <? CONTROL_LANE_CAPACITY then
        Some (set_control (ch_control (sh_ch s) ++ [Cmd_Close code reason]) (set_close (us_closed e) None s))
      else None
    end
  | U_CancelClose => Some (set_close (us_closed e) None s)
  | U_Drop => match us_sends e, us_close e with [], None => Some (sender_drop s) | _, _ => None end
  | U_Receive => match ch_out (sh_ch s) with [] => None | _ :: q => Some (set_out q s) end
  | U_DropReceiver =>
    Some (with_ends (λ e, mkEnds (en_writer e) (en_reader e) (en_heart e) (us_alive e) (us_closed e) (us_sends e) (us_close e) false)
            (set_out [] s))
  end.
End Exec.

(** ** The session *)

Record Session : Type := mkSession { ss_writer : act; ss_reader : act; ss_heart : act; ss_sh : Shared }.

Inductive Move : Type := M_Writer (i : Input) | M_Reader (i : Input) | M_Heart (i : Input) | M_User (op : UserOp).

Section System.
Context (error_text : WebSocketError → string) (deliver tracked : bool) (queue_size : Z).

Definition task_step (i : Input) (a : act) (s : Shared) : option (act * Shared) :=
  exec queue_size error_text deliver tracked i a s.

(** A task that returns drops its ends of the channels. *)
Definition finish_writer (s : Shared) : Shared :=
  with_ends (λ e, mkEnds false (en_reader e) (en_heart e) (us_alive e) (us_closed e) (us_sends e) (us_close e) (us_receiver e)) s.
Definition finish_reader (s : Shared) : Shared :=
  with_ends (λ e, mkEnds (en_writer e) false (en_heart e) (us_alive e) (us_closed e) (us_sends e) (us_close e) (us_receiver e)) s.
Definition finish_heart (s : Shared) : Shared :=
  with_ends (λ e, mkEnds (en_writer e) (en_reader e) false (us_alive e) (us_closed e) (us_sends e) (us_close e) (us_receiver e)) s.

Definition run_task (running : bool) (finish : Shared → Shared) (i : Input) (a : act) (s : Shared) : option (act * Shared) :=
  if negb running then None
  else match a with Stop => Some (Stop, finish s) | _ => task_step i a s end.

Definition move (m : Move) (σ : Session) : option Session :=
  let s := ss_sh σ in
  match m with
  | M_Writer i =>
    '(a, s') ← run_task (en_writer (sh_ends s)) finish_writer i (ss_writer σ) s;
    Some (mkSession a (ss_reader σ) (ss_heart σ) s')
  | M_Reader i =>
    '(a, s') ← run_task (en_reader (sh_ends s)) finish_reader i (ss_reader σ) s;
    Some (mkSession (ss_writer σ) a (ss_heart σ) s')
  | M_Heart i =>
    '(a, s') ← run_task (en_heart (sh_ends s)) finish_heart i (ss_heart σ) s;
    Some (mkSession (ss_writer σ) (ss_reader σ) a s')
  | M_User op => s' ← user_step queue_size op s; Some (mkSession (ss_writer σ) (ss_reader σ) (ss_heart σ) s')
  end.

(** [spawn_session], openwire/websocket/writer.rs:443-545. *)
Definition spawn_session : Session :=
  mkSession (Goto (L_Loop true)) (Goto L_Read) (if tracked then Goto L_HeartStart else Stop)
    (mkShared (mkFlags false false false false 0) (mkChannels [] [] [] false) (mkLog [] [] 0 [] [] [])
       (mkEnds true true tracked true false [] None true)).

Inductive reachable : Session → Prop :=
| Reach_start : reachable spawn_session
| Reach_move σ m σ' : reachable σ → move m σ = Some σ' → reachable σ'.

(** A run, skipping moves that have to wait. *)
Definition run (ms : list Move) : Session := foldl (λ σ m, default σ (move m σ)) spawn_session ms.

Lemma run_reachable ms : reachable (run ms).
Proof.
  unfold run. induction ms as [|m ms IH] using rev_ind; [constructor|]. rewrite foldl_snoc.
  destruct (move m _) as [σ'|] eqn:E; [by eapply Reach_move|done].
Qed.

(** ** Reading a program *)

(** [P] at the program and at everything it can become before the next loop. *)
Fixpoint Always (P : act → Prop) (a : act) : Prop :=
  P a ∧
  match a with
  | Stop | Goto _ => True
  | LoadLocal k | LoadRemote k | TryMarkClosed k | TryMarkTerminal k | PollShutdown k | PollTimer k | ControlSend _ k =>
    ∀ b, Always P (k b)
  | StoreLocal k | StoreRemote k | Emit _ k | SinkFlush k | OutSend _ k | FreshNotified k | SendAck k | MarkPong k | Tick k =>
    Always P k
  | SinkSend _ _ k => ∀ r, Always P (k r)
  | PollControl k => ∀ c, Always P (k c)
  | PollData k => ∀ d, Always P (k d)
  | TryRecvData k => ∀ r, Always P (k r)
  | NextItem k => ∀ x, Always P (k x)
  | LoadGeneration k => ∀ g, Always P (k g)
  | HeartSelect _ k => ∀ e, Always P (k e)
  end.

Lemma Always_here P a : Always P a → P a.
Proof. destruct a; by intros [? _]. Qed.

(** One operation of a task leads to something it can become, or into a loop. *)
Lemma exec_Always P i a s a' s' :
  task_step i a s = Some (a', s') → Always P a →
  (∃ l, a = Goto l ∧ a' = body error_text deliver tracked l ∧ s' = s) ∨ Always P a'.
Proof.
  unfold task_step, exec. destruct a; cbn [Always]; intros He [_ Ha]; repeat case_match; simplify_eq; eauto 10.
Qed.

(** ** One end per call *)

Definition is_terminal (e : Event) : bool := match e with Ev_CallFailed _ | Ev_CallEnd => true | _ => false end.
Definition is_closed_event (e : Event) : bool := match e with Ev_Closed _ _ => true | _ => false end.
Definition count (f : Event → bool) (s : Shared) : Z := len (filter (λ e, f e = true) (lg_events (sh_log s))).

(** A task that won [try_mark_call_terminal] ([t]) or [try_mark_closed] ([c]) reports it once, and nobody
    else reports. *)
Fixpoint tok (t c : bool) (a : act) : Prop :=
  match a with
  | Stop | Goto _ => t = false ∧ c = false
  | Emit e k =>
    match e with
    | Ev_CallFailed _ | Ev_CallEnd => t = true ∧ tok false c k
    | Ev_Closed _ _ => c = true ∧ tok t false k
    | _ => tok t c k
    end
  | TryMarkTerminal k => t = false ∧ tok true c (k true) ∧ tok false c (k false)
  | TryMarkClosed k => c = false ∧ tok t true (k true) ∧ tok t false (k false)
  | LoadLocal k | LoadRemote k | PollShutdown k | PollTimer k | ControlSend _ k => ∀ b, tok t c (k b)
  | StoreLocal k | StoreRemote k | SinkFlush k | OutSend _ k | FreshNotified k | SendAck k | MarkPong k | Tick k => tok t c k
  | SinkSend _ _ k => ∀ r, tok t c (k r)
  | PollControl k => ∀ x, tok t c (k x)
  | PollData k => ∀ x, tok t c (k x)
  | TryRecvData k => ∀ x, tok t c (k x)
  | NextItem k => ∀ x, tok t c (k x)
  | LoadGeneration k => ∀ g, tok t c (k g)
  | HeartSelect _ k => ∀ e, tok t c (k e)
  end.

(** Every branch of a program by its own continuations. *)
Ltac branches :=
  repeat match goal with
  | |- _ ∧ _ => split
  | |- ∀ _, _ => intro
  | |- context [match ?x with _ => _ end] => is_var x; destruct x
  | |- context [if ?b then _ else _] => is_var b; destruct b
  | _ => progress cbn
  | _ => progress unfold emit_terminal_failure, emit_call_end, send_data_frame, maybe_send_one_data, send_control,
      finish_close, handle_control_command, after_drain, continue_writer, read_failed, deliver_control
  end.

Lemma body_tok l : tok false false (body error_text deliver tracked l).
Proof.
  destruct l; cbn; unfold run_writer, drain_data_lane, close_wait, run_reader, heartbeat_round, heartbeat_wait;
    branches; try done.
  all: try (destruct (_ =? _); branches; done).
Qed.

Lemma count_log_event f e s : count f (log_event e s) = count f s + Z.b2z (f e).
Proof.
  unfold count, log_event, with_log. cbn. rewrite filter_app, len_app. destruct (f e) eqn:E; cbn.
  - by rewrite decide_True.
  - by rewrite decide_False by congruence.
Qed.

Lemma count_log_events f es s : Forall (λ e, f e = false) es → count f (log_events es s) = count f s.
Proof.
  unfold log_events. intros Hes. revert s. induction Hes as [|e es He _ IH]; intros s; [done|]. cbn.
  rewrite IH, count_log_event, He. cbn. lia.
Qed.

Lemma sent_events_plain f : Forall (λ e, is_terminal e = false) (sent_events f) ∧ Forall (λ e, is_closed_event e = false) (sent_events f).
Proof. destruct f; split; repeat constructor. Qed.
Lemma received_events_plain f :
  Forall (λ e, is_terminal e = false) (received_events f) ∧ Forall (λ e, is_closed_event e = false) (received_events f).
Proof. destruct f; split; repeat constructor. Qed.

Lemma log_events_flags es s : sh_flags (log_events es s) = sh_flags s.
Proof. unfold log_events. revert s. induction es as [|e es IH]; intros s; [done|]. cbn. by rewrite IH. Qed.

(** The books of one task: what it reported and still has to report, against the flags. *)
Definition books (t c t' c' : bool) (s s' : Shared) : Prop :=
  count is_terminal s' + Z.b2z t' - Z.b2z (call_terminal_emitted (sh_flags s')) =
    count is_terminal s + Z.b2z t - Z.b2z (call_terminal_emitted (sh_flags s)) ∧
  count is_closed_event s' + Z.b2z c' - Z.b2z (closed_emitted (sh_flags s')) =
    count is_closed_event s + Z.b2z c - Z.b2z (closed_emitted (sh_flags s)).

Lemma books_same t c s s' : lg_events (sh_log s') = lg_events (sh_log s) →
  call_terminal_emitted (sh_flags s') = call_terminal_emitted (sh_flags s) → closed_emitted (sh_flags s') = closed_emitted (sh_flags s) →
  books t c t c s s'.
Proof. unfold books, count. by intros -> -> ->. Qed.

Lemma books_events t c es s s' :
  Forall (λ e, is_terminal e = false) es ∧ Forall (λ e, is_closed_event e = false) es →
  lg_events (sh_log s') = lg_events (sh_log (log_events es s)) → sh_flags s' = sh_flags s → books t c t c s s'.
Proof.
  intros [Ht Hc] He Hf. unfold books, count. rewrite He, Hf.
  fold (count is_terminal (log_events es s)). fold (count is_closed_event (log_events es s)).
  by rewrite !count_log_events by done.
Qed.

Lemma exec_tok t c i a s a' s' :
  task_step i a s = Some (a', s') → tok t c a →
  ∃ t' c', tok t' c' a' ∧ books t c t' c' s s' ∧ (t' = true → t = true ∨ ∃ k, a = TryMarkTerminal k).
Proof.
  unfold task_step, exec. destruct a; cbn [tok]; intros He Ha.
  all: try (simplify_eq; exists t, c; split; [by apply Ha || exact Ha|split; [by apply books_same|by left]]).
  all: try (repeat case_match; simplify_eq/=; exists t, c; (split; [by apply Ha || exact Ha|split; [by apply books_same|by left]]); fail).
  - injection He as <- <-. destruct Ha as [-> ->]. exists false, false. split_and!; [apply body_tok|by apply books_same|done].
  - injection He as <- <-. destruct Ha as (-> & Ht & Hf). unfold books, count. cbn.
    destruct (closed_emitted (sh_flags s)); cbn; [exists t, false|exists t, true]; (split_and!; [done|cbn; lia..|by left]).
  - injection He as <- <-. destruct Ha as (-> & Ht & Hf). unfold books, count. cbn.
    destruct (call_terminal_emitted (sh_flags s)); cbn; [exists false, c|exists true, c]; (split_and!; [done|cbn; lia..|by eauto]).
  - injection He as <- <-. unfold books. rewrite !count_log_event.
    destruct e; cbn; try (exists t, c; split_and!; [done|cbn; lia..|by left]); destruct Ha as [-> Ha];
      [exists t, false|exists false, c|exists false, c]; (split_and!; [done|cbn; lia..|by auto]).
  - destruct i as [|[|err|err]| | |]; simplify_eq; exists t, c; (split; [by apply Ha|]); (split; [|by left]); [| |by apply books_same].
    + by apply (books_events _ _ (sent_events f)); [apply sent_events_plain| |rewrite <- (log_events_flags (sent_events f) s)].
    + by apply (books_events _ _ (sent_events f)); [apply sent_events_plain| |rewrite log_events_flags].
  - destruct i as [| | |[[err|f]|]|]; simplify_eq; exists t, c; (split; [by apply Ha|]); (split; [|by left]); [by apply books_same| |by apply books_same].
    by apply (books_events _ _ (received_events f)); [apply received_events_plain| |rewrite <- (log_events_flags (received_events f) s)].
Qed.

(** *** At most once *)

Lemma run_task_inv running finish i a s a' s' :
  run_task running finish i a s = Some (a', s') → (a = Stop ∧ a' = Stop ∧ s' = finish s) ∨ task_step i a s = Some (a', s').
Proof. unfold run_task. destruct running; [|done]. cbn [negb]. destruct a; auto. intros [= <- <-]. auto. Qed.

Lemma run_task_tok t c running finish i a s a' s' :
  (∀ s, lg_events (sh_log (finish s)) = lg_events (sh_log s) ∧ sh_flags (finish s) = sh_flags s) →
  run_task running finish i a s = Some (a', s') → tok t c a →
  ∃ t' c', tok t' c' a' ∧ books t c t' c' s s' ∧ (t' = true → t = true ∨ ∃ k, a = TryMarkTerminal k).
Proof.
  intros Hfin [(-> & -> & ->)|He]%run_task_inv Ht; [|by eapply exec_tok]. exists t, c.
  destruct (Hfin s) as [He Hf]. split_and!; [done|apply books_same; [done|by rewrite Hf..]|by left].
Qed.

Lemma user_step_keeps op s s' :
  user_step queue_size op s = Some s' → lg_events (sh_log s') = lg_events (sh_log s) ∧ sh_flags s' = sh_flags s ∧
  lg_wire (sh_log s') = lg_wire (sh_log s) ∧ lg_taken (sh_log s') = lg_taken (sh_log s).
Proof.
  unfold user_step, sender_send, sender_close, sender_drop. destruct (negb _ && _); [done|].
  destruct op; intros Hs; repeat case_match; simplify_eq; done.
Qed.

(** *** At least once *)

(** Every way to the end of the task marks the call as ended, finds it closed or finds a local close
    started; [lab] says which loops count as such a way. *)
Fixpoint settles (lab : label → Prop) (a : act) : Prop :=
  match a with
  | Stop => False
  | Goto l => lab l
  | TryMarkTerminal _ => True
  | TryMarkClosed k => settles lab (k true)
  | LoadLocal k => settles lab (k false)
  | LoadRemote k | PollShutdown k | PollTimer k | ControlSend _ k => ∀ b, settles lab (k b)
  | StoreLocal k | StoreRemote k | Emit _ k | SinkFlush k | OutSend _ k | FreshNotified k | SendAck k | MarkPong k | Tick k =>
    settles lab k
  | SinkSend _ _ k => ∀ r, settles lab (k r)
  | PollControl k => ∀ x, settles lab (k x)
  | PollData k => ∀ x, settles lab (k x)
  | TryRecvData k => ∀ x, settles lab (k x)
  | NextItem k => ∀ x, settles lab (k x)
  | LoadGeneration k => ∀ g, settles lab (k g)
  | HeartSelect _ k => ∀ e, settles lab (k e)
  end.

(** The next thing of note is to mark the call as ended. *)
Fixpoint must_mark (a : act) : Prop :=
  match a with TryMarkTerminal _ => True | Emit _ k => must_mark k | _ => False end.

(** The loops of a local close, of the writer, of the reader and of the heartbeat. *)
Definition closing_label (l : label) : Prop := match l with L_Drain (AD_Close _ _ _) | L_CloseWait _ _ _ => True | _ => False end.
Definition writer_label (l : label) : Prop :=
  match l with L_Loop _ | L_Poll _ | L_Drain _ | L_CloseWait _ _ _ => True | _ => False end.
Definition reader_label (l : label) : Prop := match l with L_Read => True | _ => False end.
Definition heart_label (l : label) : Prop := match l with L_HeartStart | L_Heart | L_HeartWait _ => True | _ => False end.

(** What the three tasks do not do, and what follows what they do. *)
Definition writer_op (a : act) : Prop :=
  match a with
  | Goto l => writer_label l
  | StoreLocal k => settles closing_label k
  | TryMarkClosed k => must_mark (k true)
  | LoadLocal _ | StoreRemote _ | NextItem _ => False
  | _ => True
  end.
Definition reader_op (a : act) : Prop :=
  match a with
  | Goto l => reader_label l
  | TryMarkClosed k => must_mark (k true)
  | StoreLocal _ | SinkSend _ _ _ | PollData _ | TryRecvData _ | PollControl _ => False
  | _ => True
  end.
Definition heart_op (a : act) : Prop :=
  match a with
  | Goto l => heart_label l
  | TryMarkClosed _ | TryMarkTerminal _ | StoreLocal _ | StoreRemote _ | SinkSend _ _ _ | PollData _ | TryRecvData _ | PollControl _ => False
  | _ => True
  end.

Ltac bodies :=
  cbn; unfold run_writer, drain_data_lane, close_wait, run_reader, heartbeat_round, heartbeat_wait; branches; try done;
  try (destruct (_ =? _); branches; done).

Lemma body_writer l : writer_label l → Always writer_op (body error_text deliver tracked l).
Proof. destruct l; try done; intros _; bodies. Qed.
Lemma body_reader l : reader_label l → Always reader_op (body error_text deliver tracked l).
Proof. destruct l; try done; intros _; bodies. Qed.
Lemma body_heart l : heart_label l → Always heart_op (body error_text deliver tracked l).
Proof. destruct l; try done; intros _; bodies. Qed.
Lemma body_closing l : closing_label l → settles closing_label (body error_text deliver tracked l).
Proof. destruct l as [| |[]| | | | |]; try done; intros _; bodies. Qed.
Lemma body_reading l : reader_label l → settles reader_label (body error_text deliver tracked l).
Proof. destruct l; try done; intros _; bodies. Qed.

(** Facts of the flags that only become true. *)
Definition ended (s : Shared) : Prop := call_terminal_emitted (sh_flags s) = true.
Definition closed (s : Shared) : Prop := closed_emitted (sh_flags s) = true.
Definition closing (s : Shared) : Prop := local_close_started (sh_flags s) = true.

(** What one operation does to the flags. *)
Lemma exec_flags i a s a' s' :
  task_step i a s = Some (a', s') →
  (ended s → ended s') ∧ (closed s → closed s') ∧ (closing s → closing s') ∧
  (remote_close_started (sh_flags s) = true → remote_close_started (sh_flags s') = true) ∧
  (closed s' → closed s ∨ ∃ k, a = TryMarkClosed k ∧ a' = k true) ∧
  (closing s' → closing s ∨ a = StoreLocal a').
Proof.
  unfold task_step, exec, ended, closed, closing.
  destruct a; intros He; repeat case_match; simplify_eq/=; rewrite ?log_events_flags; cbn;
    try (split_and!; solve [auto]).
  split_and!; auto. intros _. destruct (closed_emitted (sh_flags s)) eqn:E; [by left|right]. by exists k.
Qed.

Lemma exec_settles lab i a s a' s' :
  (∀ l, lab l → settles lab (body error_text deliver tracked l)) →
  task_step i a s = Some (a', s') → settles lab a →
  settles lab a' ∨ ended s' ∨ ((∃ k, a = TryMarkClosed k) ∧ closed s') ∨ ((∃ k, a = LoadLocal k) ∧ closing s').
Proof.
  intros Hlab. unfold task_step, exec, ended, closed, closing.
  destruct a; cbn [settles]; intros He Ha; repeat case_match; simplify_eq/=; try (by left; eauto); auto.
  - destruct (local_close_started (sh_flags s')) eqn:E; [right; right; right; eauto|by left].
  - destruct (closed_emitted (sh_flags s)) eqn:E; [right; right; left; eauto|by left].
Qed.

Lemma exec_must_mark i a s a' s' : task_step i a s = Some (a', s') → must_mark a → must_mark a' ∨ ended s'.
Proof.
  unfold task_step, exec, ended. destruct a; cbn [must_mark]; try done; intros He Ha; simplify_eq/=; auto.
Qed.

(** Who has still to mark the call as ended, and why somebody will. *)
Record settled (σ : Session) : Prop := mkSettled {
  sd_writer : Always writer_op (ss_writer σ);
  sd_reader : Always reader_op (ss_reader σ);
  sd_heart : Always heart_op (ss_heart σ);
  sd_reading : settles reader_label (ss_reader σ) ∨ ended (ss_sh σ) ∨ closed (ss_sh σ) ∨ closing (ss_sh σ);
  sd_closed : closed (ss_sh σ) → ended (ss_sh σ) ∨ must_mark (ss_writer σ) ∨ must_mark (ss_reader σ);
  sd_closing : closing (ss_sh σ) → ended (ss_sh σ) ∨ closed (ss_sh σ) ∨ settles closing_label (ss_writer σ);
}.

Lemma writer_settled i w r h s w' s' :
  task_step i w s = Some (w', s') → settled (mkSession w r h s) → settled (mkSession w' r h s').
Proof.
  intros He [Hw Hr Hh Hrd Hcl Hcg]. cbn in *.
  pose proof (exec_flags _ _ _ _ _ He) as (Hm1 & Hm2 & Hm3 & _ & Hcnew & Hgnew).
  pose proof (exec_Always _ _ _ _ _ _ He Hw) as Hw'. pose proof (Always_here _ _ Hw) as Hop.
  constructor; cbn; [|done|done| | |].
  - destruct Hw' as [(l & -> & -> & _)|?]; [by apply body_writer|done].
  - destruct Hrd as [?|[?|[?|?]]]; auto.
  - intros [Hc|(k & -> & ->)]%Hcnew; [|by right; left].
    destruct (Hcl Hc) as [?|[Hmm|?]]; [auto| |auto]. destruct (exec_must_mark _ _ _ _ _ He Hmm); auto.
  - intros [Hc| ->]%Hgnew; [|by right; right].
    destruct (Hcg Hc) as [?|[?|Hs]]; [auto|auto|].
    destruct (exec_settles _ _ _ _ _ _ body_closing He Hs) as [?|[?|[[_ ?]|[[k ->] _]]]]; auto. done.
Qed.

Lemma reader_settled i w r h s r' s' :
  task_step i r s = Some (r', s') → settled (mkSession w r h s) → settled (mkSession w r' h s').
Proof.
  intros He [Hw Hr Hh Hrd Hcl Hcg]. cbn in *.
  pose proof (exec_flags _ _ _ _ _ He) as (Hm1 & Hm2 & Hm3 & _ & Hcnew & Hgnew).
  pose proof (exec_Always _ _ _ _ _ _ He Hr) as Hr'. pose proof (Always_here _ _ Hr) as Hop.
  constructor; cbn; [done| |done| | |].
  - destruct Hr' as [(l & -> & -> & _)|?]; [by apply body_reader|done].
  - destruct Hrd as [Hs|[?|[?|?]]]; [|by auto..].
    destruct (exec_settles _ _ _ _ _ _ body_reading He Hs) as [?|[?|[[_ ?]|[_ ?]]]]; auto.
  - intros [Hc|(k & -> & ->)]%Hcnew; [|by right; right].
    destruct (Hcl Hc) as [?|[?|Hmm]]; [auto|auto|]. destruct (exec_must_mark _ _ _ _ _ He Hmm); auto.
  - intros [Hc| ->]%Hgnew; [|done]. destruct (Hcg Hc) as [?|[?|?]]; auto.
Qed.

Lemma heart_settled i w r h s h' s' :
  task_step i h s = Some (h', s') → settled (mkSession w r h s) → settled (mkSession w r h' s').
Proof.
  intros He [Hw Hr Hh Hrd Hcl Hcg]. cbn in *.
  pose proof (exec_flags _ _ _ _ _ He) as (Hm1 & Hm2 & Hm3 & _ & Hcnew & Hgnew).
  pose proof (exec_Always _ _ _ _ _ _ He Hh) as Hh'. pose proof (Always_here _ _ Hh) as Hop.
  constructor; cbn; [done|done| | | |].
  - destruct Hh' as [(l & -> & -> & _)|?]; [by apply body_heart|done].
  - destruct Hrd as [?|[?|[?|?]]]; auto.
  - intros [Hc|(k & -> & ->)]%Hcnew; [|done]. destruct (Hcl Hc) as [?|[?|?]]; auto.
  - intros [Hc| ->]%Hgnew; [|done]. destruct (Hcg Hc) as [?|[?|?]]; auto.
Qed.

Lemma settled_shared w r h s s' : sh_flags s' = sh_flags s → settled (mkSession w r h s) → settled (mkSession w r h s').
Proof. intros Hf [Hw Hr Hh Hrd Hcl Hcg]. unfold ended, closed, closing in *. cbn in *. constructor; unfold ended, closed, closing; cbn; rewrite ?Hf; done. Qed.

Lemma move_settled m σ σ' : move m σ = Some σ' → settled σ → settled σ'.
Proof.
  destruct σ as [w r h s]. unfold move. cbn [ss_writer ss_reader ss_heart ss_sh]. intros Hm Hs. destruct m as [i|i|i|op].
  - apply bind_Some in Hm as ([a s'] & [[-> [-> ->]]|He]%run_task_inv & [= <-]);
      [by apply (settled_shared _ _ _ s)|by eapply writer_settled].
  - apply bind_Some in Hm as ([a s'] & [[-> [-> ->]]|He]%run_task_inv & [= <-]);
      [by apply (settled_shared _ _ _ s)|by eapply reader_settled].
  - apply bind_Some in Hm as ([a s'] & [[-> [-> ->]]|He]%run_task_inv & [= <-]);
      [by apply (settled_shared _ _ _ s)|by eapply heart_settled].
  - apply bind_Some in Hm as (s' & (_ & Hf & _)%user_step_keeps & [= <-]). by apply (settled_shared _ _ _ s).
Qed.

Lemma reachable_settled σ : reachable σ → settled σ.
Proof.
  induction 1 as [|σ m σ' _ IH Hm]; [|by eapply move_settled].
  constructor; cbn; try done. all: try (by destruct tracked). by left.
Qed.

(** The books of the whole session; the heartbeat reports nothing. *)
Record books_ok (σ : Session) (tw cw tr cr ch : bool) : Prop := mkBooks {
  bk_writer : tok tw cw (ss_writer σ);
  bk_reader : tok tr cr (ss_reader σ);
  bk_heart : tok false ch (ss_heart σ);
  bk_terminal : count is_terminal (ss_sh σ) + Z.b2z tw + Z.b2z tr = Z.b2z (call_terminal_emitted (sh_flags (ss_sh σ)));
  bk_closed : count is_closed_event (ss_sh σ) + Z.b2z cw + Z.b2z cr + Z.b2z ch = Z.b2z (closed_emitted (sh_flags (ss_sh σ)));
}.

Lemma move_books σ m σ' tw cw tr cr ch :
  settled σ → move m σ = Some σ' → books_ok σ tw cw tr cr ch → ∃ tw' cw' tr' cr' ch', books_ok σ' tw' cw' tr' cr' ch'.
Proof.
  unfold move. intros Hs Hm [Hw Hr Hh Ht Hc]. destruct m as [i|i|i|op].
  - apply bind_Some in Hm as ([a s'] & Hrun & [= <-]).
    eapply run_task_tok in Hrun as (t' & c' & Htok & [H1 H2] & _); [|done|exact Hw].
    exists t', c', tr, cr, ch. constructor; cbn; [done..|lia|lia].
  - apply bind_Some in Hm as ([a s'] & Hrun & [= <-]).
    eapply run_task_tok in Hrun as (t' & c' & Htok & [H1 H2] & _); [|done|exact Hr].
    exists tw, cw, t', c', ch. constructor; cbn; [done..|lia|lia].
  - apply bind_Some in Hm as ([a s'] & Hrun & [= <-]).
    eapply run_task_tok in Hrun as (t' & c' & Htok & [H1 H2] & Hno); [|done|exact Hh].
    assert (t' = false) as ->.
    { destruct t'; [|done]. destruct (Hno eq_refl) as [?|[k Hk]]; [done|]. exfalso.
      pose proof (Always_here _ _ (sd_heart _ Hs)) as Hop. by rewrite Hk in Hop. }
    exists tw, cw, tr, cr, c'. constructor; cbn in *; [done..|lia|lia].
  - apply bind_Some in Hm as (s' & (He & Hf & _)%user_step_keeps & [= <-]).
    exists tw, cw, tr, cr, ch. constructor; cbn; unfold count in *; rewrite ?He, ?Hf; done.
Qed.

Lemma reachable_books σ : reachable σ → ∃ tw cw tr cr ch, books_ok σ tw cw tr cr ch.
Proof.
  induction 1 as [|σ m σ' Hr (tw & cw & tr & cr & ch & IH) Hm].
  - exists false, false, false, false, false. constructor; cbn; try done. by destruct tracked.
  - by eapply move_books; [apply reachable_settled| |].
Qed.

(** The session reports the end of its call once. *)
Lemma terminal_once σ :
  reachable σ →
  0 ≤ count is_terminal (ss_sh σ) ≤ 1 ∧ (ss_writer σ = Stop → ss_reader σ = Stop → count is_terminal (ss_sh σ) = 1).
Proof.
  intros Hr. destruct (reachable_books σ Hr) as (tw & cw & tr & cr & ch & [Hw Hrd Hh Ht Hc]).
  destruct (reachable_settled σ Hr) as [_ _ _ Hread Hcl Hcg]. split.
  - pose proof (len_nonneg (filter (λ e, is_terminal e = true) (lg_events (sh_log (ss_sh σ))))) as Hnn.
    unfold count in *. destruct tw, tr, (call_terminal_emitted _); cbn in *; lia.
  - intros Hws Hrs. rewrite Hws, Hrs in *. cbn in Hw, Hrd. destruct Hw as [-> _], Hrd as [-> _].
    assert (closed (ss_sh σ) → ended (ss_sh σ)) as Hce by (intros [?|[[]|[]]]%Hcl; done).
    assert (closing (ss_sh σ) → ended (ss_sh σ)) as Hge by (intros [?|[?|[]]]%Hcg; auto).
    assert (ended (ss_sh σ)) as He by (destruct Hread as [[]|[?|[?|?]]]; auto).
    rewrite He in Ht. cbn in Ht. lia.
Qed.

(** A WebSocket call ends once: however the writer, the reader, the heartbeat and the user's calls
    interleave, and whatever the sink and the stream do, the listener is told at most once that the call
    ended or failed and at most once that the session was closed; and when the writer and the reader have
    both returned it has been told of the end exactly once. *)
Theorem call_ends_once σ :
  reachable σ →
  count is_terminal (ss_sh σ) ≤ 1 ∧ count is_closed_event (ss_sh σ) ≤ 1 ∧
  (ss_writer σ = Stop → ss_reader σ = Stop → count is_terminal (ss_sh σ) = 1).
Proof.
  intros Hr. destruct (terminal_once σ Hr) as [[_ H1] H2]. split_and!; [done| |done].
  destruct (reachable_books σ Hr) as (tw & cw & tr & cr & ch & [_ _ _ _ Hc]).
  destruct cw, cr, ch, (closed_emitted _); cbn in *; lia.
Qed.

(** ** Messages leave in order *)

Definition lane_eqb (a b : Lane) : bool := match a, b with Lane_Control, Lane_Control | Lane_Data, Lane_Data => true | _, _ => false end.
Definition sent_on (lane : Lane) (s : Shared) : list EngineFrame :=
  snd <$> filter (λ p, lane_eqb p.1 lane = true) (lg_wire (sh_log s)).

Lemma sent_on_log lane lane' f s :
  sent_on lane (log_wire lane' f s) = sent_on lane s ++ (if lane_eqb lane' lane then [f] else []).
Proof.
  unfold sent_on, log_wire, with_log. cbn. rewrite filter_app, fmap_app. f_equal.
  by destruct lane', lane.
Qed.

(** A program that sends no more data, now or after any loop it goes to. *)
Definition quiet_op (a : act) : Prop :=
  match a with
  | SinkSend Lane_Data _ _ => False
  | Goto l => match l with L_CloseWait _ _ _ => True | _ => False end
  | _ => True
  end.

(** A program that sends no data while the peer has started to close. *)
Fixpoint guarded (a : act) : Prop :=
  match a with
  | SinkSend Lane_Data _ _ => False
  | SinkSend Lane_Control _ k => ∀ r, guarded (k r)
  | LoadRemote k => guarded (k true)
  | Stop => True
  | Goto l => writer_label l
  | TryMarkClosed k | TryMarkTerminal k | PollShutdown k | PollTimer k | ControlSend _ k | LoadLocal k => ∀ b, guarded (k b)
  | StoreLocal k | StoreRemote k | Emit _ k | SinkFlush k | OutSend _ k | FreshNotified k | SendAck k | MarkPong k | Tick k => guarded k
  | PollControl k => ∀ x, guarded (k x)
  | PollData k => ∀ x, guarded (k x)
  | TryRecvData k => ∀ x, guarded (k x)
  | NextItem k => ∀ x, guarded (k x)
  | LoadGeneration k => ∀ g, guarded (k g)
  | HeartSelect _ k => ∀ e, guarded (k e)
  end.

(** With [p] in hand: it is sent next or given up because the peer closes, and nothing else is taken. *)
Fixpoint disciplined (p : option Message) (a : act) : Prop :=
  match a with
  | Stop | Goto _ => p = None
  | SinkSend Lane_Data f k =>
    (∃ m, p = Some m ∧ f = frame_of_message m) ∧ disciplined None (k None) ∧ ∀ e, Always quiet_op (k (Some e))
  | SinkSend Lane_Control _ k => ∀ r, disciplined p (k r)
  | LoadRemote k =>
    disciplined p (k false) ∧ match p with None => disciplined None (k true) | Some _ => guarded (k true) end
  | PollData k =>
    p = None ∧ disciplined None (k Pending) ∧ disciplined None (k (Ready None)) ∧
    ∀ m, disciplined (Some m) (k (Ready (Some m))) ∨ Always quiet_op (k (Ready (Some m)))
  | TryRecvData k =>
    p = None ∧ disciplined None (k Try_Empty) ∧ disciplined None (k Try_Disconnected) ∧ ∀ m, disciplined (Some m) (k (Try_Got m))
  | TryMarkClosed k | TryMarkTerminal k | PollShutdown k | PollTimer k | ControlSend _ k | LoadLocal k => ∀ b, disciplined p (k b)
  | StoreLocal k | StoreRemote k | Emit _ k | SinkFlush k | OutSend _ k | FreshNotified k | SendAck k | MarkPong k | Tick k => disciplined p k
  | PollControl k => ∀ x, disciplined p (k x)
  | NextItem k => ∀ x, disciplined p (k x)
  | LoadGeneration k => ∀ g, disciplined p (k g)
  | HeartSelect _ k => ∀ e, disciplined p (k e)
  end.

Lemma body_disciplined l : writer_label l → disciplined None (body error_text deliver tracked l).
Proof.
  destruct l; try done; intros _; bodies; eauto; try (left; branches; eauto; fail).
  all: try (right; done).
Qed.
Lemma body_guarded l : writer_label l → guarded (body error_text deliver tracked l).
Proof. destruct l; try done; intros _; bodies. Qed.
Lemma body_quiet c r o : Always quiet_op (body error_text deliver tracked (L_CloseWait c r o)).
Proof. bodies. Qed.

(** Where the messages are: all sent up to the one in hand; or some were given up and none is sent any
    more. *)
Definition in_hand (p : option Message) : list EngineFrame := frame_of_message <$> option_list p.
Definition data_inv (w : act) (s : Shared) : Prop :=
  lg_accepted (sh_log s) = lg_taken (sh_log s) ++ ch_data (sh_ch s) ∧
  ((∃ p, disciplined p w ∧ frame_of_message <$> lg_taken (sh_log s) = sent_on Lane_Data s ++ in_hand p) ∨
   (sent_on Lane_Data s `prefix_of` (frame_of_message <$> lg_taken (sh_log s)) ∧
    (Always quiet_op w ∨ (remote_close_started (sh_flags s) = true ∧ guarded w)))).

Definition same_data (s s' : Shared) : Prop :=
  lg_wire (sh_log s') = lg_wire (sh_log s) ∧ lg_taken (sh_log s') = lg_taken (sh_log s) ∧
  lg_accepted (sh_log s') = lg_accepted (sh_log s) ∧ ch_data (sh_ch s') = ch_data (sh_ch s) ∧
  (remote_close_started (sh_flags s) = true → remote_close_started (sh_flags s') = true).

Lemma same_data_refl s : same_data s s.
Proof. done. Qed.

Lemma log_events_same es s : same_data s (log_events es s).
Proof.
  unfold log_events. revert s. induction es as [|e es IH]; intros s; [done|]. cbn [foldl].
  destruct (IH (log_event e s)) as (? & ? & ? & ? & ?). done.
Qed.

Lemma data_inv_neutral w s w' s' :
  same_data s s' → (∀ p, disciplined p w → disciplined p w') → (Always quiet_op w → Always quiet_op w') →
  (remote_close_started (sh_flags s) = true → guarded w → guarded w') → data_inv w s → data_inv w' s'.
Proof.
  intros (Hwire & Ht & Ha & Hd & Hrem) H1 H2 H3 [Hacc Hdis]. unfold data_inv, sent_on in *. rewrite Hwire, Ht, Ha, Hd.
  split; [done|]. destruct Hdis as [(p & Hp & Heq)|[Hpre [Hq|[Hr Hg]]]]; [left; eauto|right; auto|right; auto].
Qed.

Lemma goto_data_inv l s : writer_label l → data_inv (Goto l) s → data_inv (body error_text deliver tracked l) s.
Proof.
  intros Hl. apply data_inv_neutral; [done|..].
  - intros p ->. by apply body_disciplined.
  - intros [Hq _]. destruct l; try done. apply body_quiet.
  - intros _ _. by apply body_guarded.
Qed.

Lemma load_data_inv k s : data_inv (LoadRemote k) s → data_inv (k (remote_close_started (sh_flags s))) s.
Proof.
  intros [Hacc Hdis]. split; [done|]. cbn in Hdis. destruct (remote_close_started (sh_flags s)) eqn:Hr.
  - destruct Hdis as [(p & [_ Hp] & Heq)|[Hpre [[_ Hq]|[_ Hg]]]]; [|by right; auto|by right; auto].
    destruct p as [m|]; [right|left; by exists None]. split; [|by right]. rewrite Heq. by eexists.
  - destruct Hdis as [(p & [Hp _] & Heq)|[Hpre [[_ Hq]|[? Hg]]]]; [left; eauto|right; eauto|done].
Qed.

Lemma take_data_inv m q w w' s :
  ch_data (sh_ch s) = m :: q →
  (∀ p, disciplined p w → p = None ∧ (disciplined (Some m) w' ∨ Always quiet_op w')) →
  (Always quiet_op w → Always quiet_op w') → (guarded w → guarded w') →
  data_inv w s → data_inv w' (take_data m q s).
Proof.
  intros Hq H1 H2 H3 [Hacc Hdis]. unfold data_inv.
  change (lg_accepted (sh_log (take_data m q s))) with (lg_accepted (sh_log s)).
  change (lg_taken (sh_log (take_data m q s))) with (lg_taken (sh_log s) ++ [m]).
  change (ch_data (sh_ch (take_data m q s))) with q.
  change (sent_on Lane_Data (take_data m q s)) with (sent_on Lane_Data s).
  change (sh_flags (take_data m q s)) with (sh_flags s).
  split; [by rewrite Hacc, Hq, <- app_assoc|]. rewrite fmap_app.
  destruct Hdis as [(p & [-> Hp]%H1 & Heq)|[Hpre Hrest]].
  - unfold in_hand in Heq. cbn in Heq. rewrite app_nil_r in Heq. destruct Hp as [Hp|Hp].
    + left. exists (Some m). by rewrite Heq.
    + right. rewrite Heq. split; [by eexists|by left].
  - right. split; [by apply prefix_app_r|]. destruct Hrest as [?|[? ?]]; auto.
Qed.

Lemma send_data_inv r f k s s' :
  data_inv (SinkSend Lane_Data f k) s →
  (r = None ∧ s' = log_wire Lane_Data f (log_events (sent_events f) s)) ∨ (∃ e, r = Some e ∧ same_data s s') →
  data_inv (k r) s'.
Proof.
  intros [Hacc Hdis] Hs'. cbn in Hdis.
  destruct Hdis as [(p & ((m & -> & ->) & Hok & Hfail) & Heq)|[_ [[[] _]|[_ []]]]].
  destruct Hs' as [[-> ->]|(e & -> & (Hw & Ht & Ha & Hd & _))].
  - destruct (log_events_same (sent_events (frame_of_message m)) s) as (Hw & Ht & Ha & Hd & _).
    unfold data_inv. rewrite sent_on_log. unfold sent_on in *. cbn [log_wire with_log sh_log sh_ch sh_flags lg_accepted lg_taken lane_eqb].
    rewrite Hw, Ht, Ha, Hd. split; [done|]. left. exists None. split; [done|]. rewrite Heq. unfold in_hand. cbn. by rewrite app_nil_r.
  - unfold data_inv, sent_on in *. rewrite Hw, Ht, Ha, Hd. split; [done|]. right. rewrite Heq. split; [by eexists|left; apply Hfail].
Qed.

Lemma log_wire_control f s : sent_on Lane_Data (log_wire Lane_Control f s) = sent_on Lane_Data s.
Proof. rewrite sent_on_log. by rewrite app_nil_r. Qed.

Lemma control_data_inv f k r s s' :
  data_inv (SinkSend Lane_Control f k) s →
  s' = log_wire Lane_Control f (log_events (sent_events f) s) ∨ same_data s s' →
  data_inv (k r) s'.
Proof.
  intros Hinv Hs'.
  assert (Hmid : ∀ s1, same_data s s1 → data_inv (k r) s1).
  { intros s1 Hs1. eapply data_inv_neutral; [exact Hs1|..|exact Hinv]; cbn; [by intros p Hp|by intros [_ Hq]|by intros _ Hg]. }
  destruct Hs' as [->|?]; [|by apply Hmid].
  destruct (Hmid _ (log_events_same (sent_events f) s)) as [Hacc Hdis].
  unfold data_inv. rewrite log_wire_control. done.
Qed.

Lemma writer_data_inv i w s w' s' :
  task_step i w s = Some (w', s') → Always writer_op w → data_inv w s → data_inv w' s'.
Proof.
  unfold task_step, exec. intros He Hw Hinv. pose proof (Always_here _ _ Hw) as Hop.
  destruct w; cbn in Hop; try done.
  all: try (repeat case_match; simplify_eq/=;
            (eapply data_inv_neutral; [| | | |exact Hinv]; [done|by intros p Hp; apply Hp|by intros [_ Hq]; apply Hq|by intros _ Hg; apply Hg]); fail).
  - injection He as <- <-. by apply goto_data_inv.
  - injection He as <- <-. by apply load_data_inv.
  - destruct lane.
    + destruct i as [|[|e|e]| | |]; simplify_eq; eapply control_data_inv; try exact Hinv; [by left|right; apply log_events_same|by right].
    + destruct i as [|[|e|e]| | |]; simplify_eq; eapply send_data_inv; try exact Hinv; [by left|right..].
      * exists e. split; [done|apply log_events_same].
      * by exists e.
  - destruct (ch_data (sh_ch s)) as [|m q] eqn:Hq; injection He as <- <-.
    + eapply data_inv_neutral; [done| | | |exact Hinv]; cbn.
      * intros p (-> & ? & ? & _). by destruct (us_alive _).
      * by intros [_ Hk].
      * by intros _ Hg.
    + eapply take_data_inv; [done| | | |exact Hinv]; cbn.
      * by intros p (-> & _ & _ & Hm).
      * by intros [_ Hk].
      * by intros Hg.
  - destruct (ch_data (sh_ch s)) as [|m q] eqn:Hq; injection He as <- <-.
    + eapply data_inv_neutral; [done| | | |exact Hinv]; cbn.
      * intros p (-> & ? & ? & _). by destruct (us_alive _).
      * by intros [_ Hk].
      * by intros _ Hg.
    + eapply take_data_inv; [done| | | |exact Hinv]; cbn.
      * intros p (-> & _ & _ & Hm). auto.
      * by intros [_ Hk].
      * by intros Hg.
Qed.

(** The other tasks leave the wire and the data lane alone. *)
Lemma other_same_data (op : act → Prop) i a s a' s' :
  (∀ lane f k, ¬ op (SinkSend lane f k)) → (∀ k, ¬ op (PollData k)) → (∀ k, ¬ op (TryRecvData k)) →
  task_step i a s = Some (a', s') → Always op a → same_data s s'.
Proof.
  intros Hs Hp Ht He Ha%Always_here. unfold task_step, exec in He.
  destruct a; try (exfalso; solve [exact (Hs _ _ _ Ha)|exact (Hp _ Ha)|exact (Ht _ Ha)]);
    try (repeat case_match; simplify_eq/=; done).
  destruct i as [| | |[[err|f]|]|]; simplify_eq; try done.
  match goal with |- context [received_events ?f] => destruct (log_events_same (received_events f) s) as (? & ? & ? & ? & ?) end.
  done.
Qed.

Lemma user_data_inv op w s s' : user_step queue_size op s = Some s' → data_inv w s → data_inv w s'.
Proof.
  intros Hu [Hacc Hdis]. pose proof (user_step_keeps _ _ _ Hu) as (_ & Hf & Hw & Ht).
  assert (Hacc' : lg_accepted (sh_log s') = lg_taken (sh_log s') ++ ch_data (sh_ch s')).
  { rewrite Ht. revert Hu. unfold user_step, sender_send, sender_close, sender_drop. destruct (negb _ && _); [done|].
    destruct op; intros Hu; repeat case_match; simplify_eq/=; rewrite ?Hacc, ?app_assoc; done. }
  unfold data_inv, sent_on in *. by rewrite Hw, Hf, Ht in *.
Qed.

Lemma move_data_inv m σ σ' :
  move m σ = Some σ' → settled σ → data_inv (ss_writer σ) (ss_sh σ) → data_inv (ss_writer σ') (ss_sh σ').
Proof.
  destruct σ as [w r h s]. unfold move. cbn [ss_writer ss_reader ss_heart ss_sh].
  intros Hm [Hw Hr Hh _ _ _] Hd. cbn in *.
  assert (Hsame : ∀ s', same_data s s' → data_inv w s').
  { intros s' Hs. by eapply data_inv_neutral; [exact Hs| | | |exact Hd]. }
  destruct m as [i|i|i|op].
  - apply bind_Some in Hm as ([a s'] & [[-> [-> ->]]|He]%run_task_inv & [= <-]); [by apply Hsame|by eapply writer_data_inv].
  - apply bind_Some in Hm as ([a s'] & [[-> [-> ->]]|He]%run_task_inv & [= <-]); [by apply Hsame|].
    apply Hsame. eapply (other_same_data reader_op); [by intros ? ? ? []|by intros ? []|by intros ? []|exact He|exact Hr].
  - apply bind_Some in Hm as ([a s'] & [[-> [-> ->]]|He]%run_task_inv & [= <-]); [by apply Hsame|].
    apply Hsame. eapply (other_same_data heart_op); [by intros ? ? ? []|by intros ? []|by intros ? []|exact He|exact Hh].
  - apply bind_Some in Hm as (s' & Hu & [= <-]). by eapply user_data_inv.
Qed.

Lemma reachable_data σ : reachable σ → data_inv (ss_writer σ) (ss_sh σ).
Proof.
  induction 1 as [|σ m σ' Hr IH Hm]; [|by eapply move_data_inv; [done|apply reachable_settled|]].
  split; [done|]. left. by exists None.
Qed.

(** C1.  Messages leave in the order in which they were queued and none is skipped: at every moment the
    frames sent from the data lane are those of a prefix of the messages the session has accepted,
    whatever else the writer had to send in between, and whether it is stopped by an error, a local close,
    the peer's close or the drop of the handle. *)
Theorem data_sent_in_order σ :
  reachable σ → sent_on Lane_Data (ss_sh σ) `prefix_of` (frame_of_message <$> lg_accepted (sh_log (ss_sh σ))).
Proof.
  intros [Hacc Hdis]%reachable_data. rewrite Hacc, fmap_app.
  destruct Hdis as [(p & _ & Heq)|[Hpre _]]; [|by apply prefix_app_r].
  rewrite Heq, <- app_assoc. by eexists.
Qed.

(** ** The close frame is the last *)

Definition is_close (f : EngineFrame) : bool := match f with EF_Close _ _ => true | _ => false end.
Definition closes_nothing (m : Message) : Prop := is_close (frame_of_message m) = false.

Definition silent_op (a : act) : Prop :=
  match a with
  | SinkSend _ _ _ => False
  | Goto l => match l with L_CloseWait _ _ _ => True | _ => False end
  | _ => True
  end.
Definition last_op (a : act) : Prop :=
  match a with
  | SinkSend Lane_Control (EF_Close _ _) k => ∀ r, Always silent_op (k r)
  | Goto l => writer_label l
  | _ => True
  end.

Lemma body_last l : writer_label l → Always last_op (body error_text deliver tracked l).
Proof. destruct l; try done; intros _; bodies. Qed.
Lemma body_silent c r o : Always silent_op (body error_text deliver tracked (L_CloseWait c r o)).
Proof. bodies. Qed.

(** No close frame yet, or one at the end and a writer that sends no more. *)
Definition close_inv (w : act) (s : Shared) : Prop :=
  let wire := snd <$> lg_wire (sh_log s) in
  Forall (λ f, is_close f = false) wire ∨
  ((∃ pre c r, wire = pre ++ [EF_Close c r] ∧ Forall (λ f, is_close f = false) pre) ∧ Always silent_op w).

Lemma close_inv_same w s w' s' :
  lg_wire (sh_log s') = lg_wire (sh_log s) → (Always silent_op w → Always silent_op w') → close_inv w s → close_inv w' s'.
Proof. unfold close_inv. intros -> H1 [?|[? ?]]; auto. Qed.

Lemma close_inv_send lane f k r s s' :
  close_inv (SinkSend lane f k) s → lg_wire (sh_log s') = lg_wire (sh_log s) ++ [(lane, f)] →
  is_close f = false ∨ Always silent_op (k r) → close_inv (k r) s'.
Proof.
  unfold close_inv. intros [Hn|[_ [[] _]]] Hw Hf. rewrite Hw, fmap_app. cbn [fmap list_fmap snd].
  destruct (is_close f) eqn:E.
  - right. destruct Hf as [?|?]; [done|]. split; [|done]. destruct f; try done. by exists (snd <$> lg_wire (sh_log s)), code, reason.
  - left. apply Forall_app. split; [done|by repeat constructor].
Qed.

(** A data frame in hand is that of an accepted message. *)
Lemma data_frame_accepted f k s :
  data_inv (SinkSend Lane_Data f k) s → Forall closes_nothing (lg_accepted (sh_log s)) → is_close f = false.
Proof.
  intros [Hacc Hdis] Hall. cbn in Hdis.
  destruct Hdis as [(p & ((m & -> & ->) & _) & Heq)|[_ [[[] _]|[_ []]]]].
  rewrite Hacc, Forall_app in Hall. destruct Hall as [Hall _]. unfold closes_nothing in Hall.
  assert (Hf : Forall (λ f, is_close f = false) (frame_of_message <$> lg_taken (sh_log s))) by by apply Forall_fmap.
  rewrite Heq in Hf. apply Forall_app in Hf as [_ Hf]. by apply Forall_cons in Hf as [? _].
Qed.

Lemma writer_close_inv i w s w' s' :
  task_step i w s = Some (w', s') → Always last_op w → data_inv w s → Forall closes_nothing (lg_accepted (sh_log s)) →
  close_inv w s → close_inv w' s'.
Proof.
  unfold task_step, exec. intros He Hl Hd Hall Hinv. pose proof (Always_here _ _ Hl) as Hop.
  destruct w; try done.
  all: try (repeat case_match; simplify_eq/=;
            (eapply close_inv_same; [| |exact Hinv]; [done|by intros [_ Hq]; apply Hq]); fail).
  - injection He as <- <-. eapply close_inv_same; [done| |exact Hinv]. intros [Hq _]. destruct l; try done. apply body_silent.
  - destruct (log_events_same (sent_events f) s) as (Hw & _).
    assert (Hnot : ∀ r s', lg_wire (sh_log s') = lg_wire (sh_log s) → close_inv (k r) s').
    { intros r s1 Hs1. eapply close_inv_same; [exact Hs1| |exact Hinv]. by intros [[] _]. }
    destruct i as [|[|e|e]| | |]; simplify_eq; [|by apply Hnot..].
    eapply close_inv_send; [exact Hinv|cbn; by rewrite Hw|].
    destruct lane; [|left; by eapply data_frame_accepted]. destruct f; auto.
  - destruct i as [| | |[[err|f]|]|]; simplify_eq; (eapply close_inv_same; [| |exact Hinv]);
      [done|by intros [_ Hq]|by destruct (log_events_same (received_events f) s)|by intros [_ Hq]|done|by intros [_ Hq]].
Qed.

Lemma exec_accepted i a s a' s' : task_step i a s = Some (a', s') → lg_accepted (sh_log s') = lg_accepted (sh_log s).
Proof.
  unfold task_step, exec. destruct a; intros He; try (repeat case_match; simplify_eq/=; done).
  - destruct i as [|[|e|e]| | |]; simplify_eq; try done;
      by destruct (log_events_same (sent_events f) s) as (_ & _ & Ha & _).
  - destruct i as [| | |[[err|f]|]|]; simplify_eq; try done.
    by destruct (log_events_same (received_events f) s) as (_ & _ & Ha & _).
Qed.

Lemma user_accepted op s s' : user_step queue_size op s = Some s' → lg_accepted (sh_log s) `prefix_of` lg_accepted (sh_log s').
Proof.
  unfold user_step, sender_send, sender_close, sender_drop. destruct (negb _ && _); [done|].
  destruct op; intros Hu; repeat case_match; simplify_eq/=; try done. by eexists.
Qed.

Lemma move_close m σ σ' :
  move m σ = Some σ' → settled σ → data_inv (ss_writer σ) (ss_sh σ) →
  Always last_op (ss_writer σ) → (Forall closes_nothing (lg_accepted (sh_log (ss_sh σ))) → close_inv (ss_writer σ) (ss_sh σ)) →
  Always last_op (ss_writer σ') ∧
  (Forall closes_nothing (lg_accepted (sh_log (ss_sh σ'))) → close_inv (ss_writer σ') (ss_sh σ')).
Proof.
  destruct σ as [w r h s]. unfold move. cbn [ss_writer ss_reader ss_heart ss_sh].
  intros Hm [_ Hr Hh _ _ _] Hd Hl Hinv. cbn in *. destruct m as [i|i|i|op].
  - apply bind_Some in Hm as ([a s'] & [[-> [-> ->]]|He]%run_task_inv & [= <-]); [done|]. cbn.
    rewrite (exec_accepted _ _ _ _ _ He). split; [|by intros Ha; eapply writer_close_inv; eauto].
    destruct (exec_Always _ _ _ _ _ _ He Hl) as [(l & -> & -> & _)|?]; [|done]. apply body_last. by destruct Hl.
  - apply bind_Some in Hm as ([a s'] & [[-> [-> ->]]|He]%run_task_inv & [= <-]); [done|]. cbn.
    assert (same_data s s') as (Hw & _) by (eapply (other_same_data reader_op); [by intros ? ? ? []|by intros ? []|by intros ? []|exact He|exact Hr]).
    rewrite (exec_accepted _ _ _ _ _ He). split; [done|]. intros Ha. by eapply close_inv_same; [exact Hw| |apply Hinv].
  - apply bind_Some in Hm as ([a s'] & [[-> [-> ->]]|He]%run_task_inv & [= <-]); [done|]. cbn.
    assert (same_data s s') as (Hw & _) by (eapply (other_same_data heart_op); [by intros ? ? ? []|by intros ? []|by intros ? []|exact He|exact Hh]).
    rewrite (exec_accepted _ _ _ _ _ He). split; [done|]. intros Ha. by eapply close_inv_same; [exact Hw| |apply Hinv].
  - apply bind_Some in Hm as (s' & Hu & [= <-]). cbn. split; [done|]. intros Ha.
    pose proof (user_step_keeps _ _ _ Hu) as (_ & _ & Hw & _). eapply close_inv_same; [exact Hw|done|]. apply Hinv.
    destruct (user_accepted _ _ _ Hu) as [l Hl']. rewrite Hl', Forall_app in Ha. apply Ha.
Qed.

Lemma reachable_close σ :
  reachable σ → Always last_op (ss_writer σ) ∧
  (Forall closes_nothing (lg_accepted (sh_log (ss_sh σ))) → close_inv (ss_writer σ) (ss_sh σ)).
Proof.
  induction 1 as [|σ m σ' Hr [IH1 IH2] Hm]; [split; [done|by left]|].
  eapply move_close; [done|by apply reachable_settled|by apply reachable_data|done|done].
Qed.

(** Nothing follows a close frame: as long as the user queued no close message of its own as data,
    the session sends at most one close frame - its own, the answer to the peer's or the one after a
    missing pong - and it is the last frame on the wire; no message, ping or pong is sent after it. *)
Theorem nothing_follows_close σ pre post code reason :
  reachable σ → Forall closes_nothing (lg_accepted (sh_log (ss_sh σ))) →
  snd <$> lg_wire (sh_log (ss_sh σ)) = pre ++ EF_Close code reason :: post →
  post = [] ∧ Forall (λ f, is_close f = false) pre.
Proof.
  intros [_ Hinv]%reachable_close Ha Hw. specialize (Hinv Ha). unfold close_inv in Hinv. rewrite Hw in Hinv.
  destruct Hinv as [Hn|[(pre' & c & r & Heq & Hpre) _]].
  - apply Forall_app in Hn as [_ [? _]%Forall_cons]. done.
  - destruct post as [|f post _] using rev_ind.
    + apply app_inj_tail in Heq as [-> _]. done.
    + exfalso. rewrite app_comm_cons, app_assoc in Heq. apply app_inj_tail in Heq as [Heq _].
      rewrite <- Heq, Forall_app, Forall_cons in Hpre. by destruct Hpre as [_ [? _]].
Qed.
End System.

(** ** Sessions in action *)

Module SessionDemo.
Definition text (e : WebSocketError) : string := "error".

(** The reader takes one frame and deals with it; the writer runs with a willing sink. *)
Definition read (f : EngineFrame) : list Move := [M_Reader In_None; M_Reader (In_Item (Some (inr f))); M_Reader In_None].
Definition write (n : nat) : list Move := replicate n (M_Writer (In_Sink Sink_Sent)).
Definition send (m : Message) : list Move := [M_User (U_Send m); M_User (U_Enqueue 0)].

(** Two messages, then a close that the peer answers. *)
Definition polite : list Move :=
  send (Msg_Text [1]) ++ send (Msg_Binary [2; 3]) ++ [M_User (U_Close 1000 []); M_User U_EnqueueClose] ++ write 20 ++
  read (EF_Close 1000 []) ++ replicate 10 (M_Reader In_None) ++ replicate 20 (M_Writer (In_Timer false)) ++ write 10.

Example polite_session :
  let σ := run text false false 4 polite in
  lg_wire (sh_log (ss_sh σ)) = [(Lane_Data, EF_Text [1]); (Lane_Data, EF_Binary [2; 3]); (Lane_Control, EF_Close 1000 [])] ∧
  lg_events (sh_log (ss_sh σ)) =
    [Ev_Closing 1000 [] Initiator_Local; Ev_MessageSent MK_Text 1; Ev_MessageSent MK_Binary 2;
     Ev_Closing 1000 [] Initiator_Remote; Ev_Closed 1000 []; Ev_CallEnd] ∧
  ss_writer σ = Stop ∧ ss_reader σ = Stop ∧ lg_acks (sh_log (ss_sh σ)) = 1.
Proof. vm_compute. done. Qed.

(** The writer waits for the sink while pings fill the control lane; then the last handle goes. *)
Definition crowded : list Move :=
  read (EF_Ping []) ++ write 6 ++ mjoin (replicate 8 (read (EF_Ping []))) ++ [M_User U_Drop] ++ write 84 ++ [M_Reader In_None].
End SessionDemo.

(** The writer between two polls of an empty control lane, its data lane ended. *)
Definition polling (text : WebSocketError → string) (w : act) : Prop :=
  w = Goto (L_Poll false) ∨ w = run_writer text false ∨ ∃ k, w = PollControl k ∧ k Pending = Goto (L_Poll false).

Lemma polling_step text deliver tracked q w r h s i :
  ch_notified (sh_ch s) = false → ch_control (sh_ch s) = [] → control_senders (sh_ends s) = true → en_writer (sh_ends s) = true →
  polling text w → ∃ w', move text deliver tracked q (M_Writer i) (mkSession w r h s) = Some (mkSession w' r h s) ∧ polling text w'.
Proof.
  intros Hn Hc Hs Hw Hpc. unfold move. cbn [ss_sh ss_writer ss_reader ss_heart]. unfold run_task. rewrite Hw. cbn [negb].
  destruct Hpc as [->|[->|(k & -> & Hk)]].
  - eexists. split; [reflexivity|]. right. by left.
  - eexists. split; [reflexivity|]. right. right. rewrite Hn. eexists. split; [reflexivity|done].
  - exists (Goto (L_Poll false)). split; [|by left]. unfold task_step, exec. rewrite Hc, Hs. cbn. by rewrite Hk.
Qed.

Lemma polling_forever text deliver tracked q w r h s ins :
  ch_notified (sh_ch s) = false → ch_control (sh_ch s) = [] → control_senders (sh_ends s) = true → en_writer (sh_ends s) = true →
  polling text w →
  let σ' := foldl (λ σ i, default σ (move text deliver tracked q (M_Writer i) σ)) (mkSession w r h s) ins in
  ss_writer σ' ≠ Stop ∧ ss_sh σ' = s.
Proof.
  intros Hn Hc Hs Hw. revert w. induction ins as [|i ins IH]; intros w Hpc; cbn [foldl].
  { split; [|done]. by destruct Hpc as [->|[->|(k & -> & _)]]. }
  destruct (polling_step text deliver tracked q w r h s i) as (w' & -> & Hpc'); [done..|]. by apply IH.
Qed.

(** The drop of the last handle can be lost: it is announced by a Cancel that [try_send] cannot place while
    the control lane is full, and by [notify_waiters], which wakes only a writer that is waiting in its
    [select!] - and while the lane is full the writer is waiting for the sink.  In the state reached here
    the lane has been emptied and every pong sent, the handle is gone, nothing has been reported, and the
    writer goes on waiting however often it is woken, until the peer sends something. *)
Theorem dropped_session_can_stay_open :
  ∃ σ, reachable SessionDemo.text false false 4 σ ∧ us_alive (sh_ends (ss_sh σ)) = false ∧
    ch_control (sh_ch (ss_sh σ)) = [] ∧ lg_events (sh_log (ss_sh σ)) = [] ∧
    (∃ k, ss_reader σ = NextItem k) ∧
    ∀ ins, let σ' := foldl (λ σ i, default σ (move SessionDemo.text false false 4 (M_Writer i) σ)) σ ins in
      ss_writer σ' ≠ Stop ∧ ss_sh σ' = ss_sh σ.
Proof.
  exists (run SessionDemo.text false false 4 SessionDemo.crowded). split; [apply run_reachable|].
  split; [vm_compute; reflexivity|]. split; [vm_compute; reflexivity|]. split; [vm_compute; reflexivity|].
  split; [vm_compute; eexists; reflexivity|]. intros ins.
  set (σ := run _ _ _ _ _). destruct σ as [w r h s] eqn:E.
  apply polling_forever; unfold σ in E.
  all: vm_compute in E; injection E as <- <- <- <-; try reflexivity.
  left. reflexivity.
Qed.

Lemma call_ends_once_witness :
  count is_terminal (ss_sh (run SessionDemo.text false false 4 SessionDemo.polite)) = 1.
Proof.
  apply (call_ends_once SessionDemo.text false false 4 (run SessionDemo.text false false 4 SessionDemo.polite));
    [apply run_reachable|reflexivity|reflexivity].
Defined.

Lemma data_sent_in_order_witness :
  sent_on Lane_Data (ss_sh (run SessionDemo.text false false 4 SessionDemo.polite)) `prefix_of` [EF_Text [1]; EF_Binary [2; 3]].
Proof.
  apply (data_sent_in_order SessionDemo.text false false 4 (run SessionDemo.text false false 4 SessionDemo.polite)).
  apply run_reachable.
Defined.

Lemma nothing_follows_close_witness :
  @nil EngineFrame = [] ∧ Forall (λ f, is_close f = false) [EF_Text [1]; EF_Binary [2; 3]].
Proof.
  apply (nothing_follows_close SessionDemo.text false false 4 (run SessionDemo.text false false 4 SessionDemo.polite)
           [EF_Text [1]; EF_Binary [2; 3]] [] 1000 []).
  - apply run_reachable.
  - change (lg_accepted (sh_log (ss_sh (run SessionDemo.text false false 4 SessionDemo.polite)))) with [Msg_Text [1]; Msg_Binary [2; 3]].
    repeat constructor.
  - reflexivity.
Defined.
