(* ===== verification/Compression.v ===== *)
(** * Transparent decompression

    openwire/src/compression.rs, built with all four codings: what is asked for in Accept-Encoding, which
    responses are decoded and in which order, the limit on decoded bytes, and the look at the first two
    bytes that tells zlib-wrapped from raw DEFLATE data.

    The decoders themselves belong to async-compression; a reader is the class [BufRead], with the
    documented meaning of its operations as [BufReadLaws]: what is still to be read, and that nothing is
    lost, repeated or read past the buffer's length. *)

From stdpp Require Import pretty.
From S2P Require Import Prelude Net Error Http Request.

(** ** Readers *)

(** An [io::Error]: one that wraps a [WireError], or any other by its text. *)
Inductive IoError : Type := Io_Wire (e : WireError) | Io_Other (text : string).

(** [futures::io::AsyncRead] and [AsyncBufRead]: [poll_read] with the buffer's length. *)
Class BufRead (R : Type) : Type := {
  poll_read : Z → R → poll (IoError + bytes) * R;
  poll_fill_buf : R → poll (IoError + bytes) * R;
  consume : Z → R → R;
}.

(** What a reader in a state [ok] promises, in terms of the bytes it still holds. *)
Class BufReadLaws (R : Type) `{BufRead R} (ok : R → Prop) (rest : R → bytes) : Prop := {
  poll_read_bytes : ∀ n r bs r', ok r → 0 ≤ n → poll_read n r = (Ready (inr bs), r') → rest r = bs ++ rest r' ∧ len bs ≤ n;
  poll_read_end : ∀ n r r', ok r → 0 < n → poll_read n r = (Ready (inr []), r') → rest r = [];
  poll_read_other : ∀ n r p r', ok r → 0 ≤ n → poll_read n r = (p, r') → (∀ bs, p ≠ Ready (inr bs)) → rest r' = rest r;
  poll_read_ok : ∀ n r p r', ok r → 0 ≤ n → poll_read n r = (p, r') → ok r';
  fill_buf_prefix : ∀ r bs r', ok r → poll_fill_buf r = (Ready (inr bs), r') → bs `prefix_of` rest r;
  fill_buf_rest : ∀ r p r', ok r → poll_fill_buf r = (p, r') → ok r' ∧ rest r' = rest r;
  consume_rest : ∀ n r, ok r → 0 ≤ n ≤ len (rest r) → ok (consume n r) ∧ rest (consume n r) = drop (Z.to_nat n) (rest r);
}.

(** ** Codings *)

(** [DECODE_BUFFER_SIZE], openwire/compression.rs:30-30. *)
Definition DECODE_BUFFER_SIZE : Z := 8192.

(** [DEFAULT_MAX_DECOMPRESSED_BODY_BYTES], openwire/compression.rs:53-53. *)
Definition DEFAULT_MAX_DECOMPRESSED_BODY_BYTES : Z := 134217728.

(** [ResponseEncoding], openwire/compression.rs:148-159. *)
Inductive ResponseEncoding : Type := Brotli | Gzip | Deflate | Zstd.

#[global] Instance ResponseEncoding_eq_dec : EqDecision ResponseEncoding.
Proof. solve_decision. Defined.

(** [ResponseEncoding::parse], openwire/compression.rs:162-181. *)
Definition encoding_parse (value : string) : option ResponseEncoding :=
  if eq_ignore_ascii_case value "br" then Some Brotli
  else if eq_ignore_ascii_case value "gzip" || eq_ignore_ascii_case value "x-gzip" then Some Gzip
  else if eq_ignore_ascii_case value "deflate" then Some Deflate
  else if eq_ignore_ascii_case value "zstd" then Some Zstd
  else None.

(** [ResponseEncoding::as_str], openwire/compression.rs:183-194. *)
Definition encoding_str (e : ResponseEncoding) : string :=
  match e with Brotli => "br" | Gzip => "gzip" | Deflate => "deflate" | Zstd => "zstd" end.

(** [accepted_encodings], openwire/compression.rs:32-47. *)
Definition accepted_encodings : option string :=
  let tokens := ["br"; "gzip"; "deflate"; "zstd"]%string in
  if bool_decide (tokens = []) then None else Some (String.concat ", " tokens).

(** The tokens of one Content-Encoding value, openwire/compression.rs:124-133. *)
Fixpoint parse_encodings (parts : list string) : option (list ResponseEncoding) :=
  match parts with
  | [] => Some []
  | part :: parts =>
    let normalized := trim part in
    if bool_decide (normalized = EmptyString) || eq_ignore_ascii_case normalized "identity" then parse_encodings parts
    else e ← encoding_parse normalized; es ← parse_encodings parts; Some (e :: es)
  end.

Section Headers.
Context {H : Type} `{HeaderMap H} (to_str : string → option string).

(** [should_skip_transparent_compression], openwire/compression.rs:105-118. *)
Definition should_skip_transparent_compression (r : Request H) : bool :=
  is_some (ext_websocket (req_extensions r)) ||
  (hm_contains "accept-encoding" (req_headers r) || hm_contains "range" (req_headers r)).

(** [compression::normalize_request], openwire/compression.rs:64-74. *)
Definition compression_normalize_request (r : Request H) : Request H * bool :=
  if should_skip_transparent_compression r then (r, false)
  else match accepted_encodings with
  | None => (r, false)
  | Some accepted =>
    (mkRequest (req_method r) (req_uri r) (req_version r) (hm_insert "accept-encoding" accepted (req_headers r))
       (req_extensions r) (req_body r), true)
  end.

(** The loop of [supported_content_encodings], openwire/compression.rs:122-134. *)
Fixpoint encodings_of_values (values : list string) : option (list ResponseEncoding) :=
  match values with
  | [] => Some []
  | value :: values =>
    raw ← to_str value; es ← parse_encodings (split_on "," raw); rest ← encodings_of_values values; Some (es ++ rest)
  end.

(** [supported_content_encodings], openwire/compression.rs:120-136. *)
Definition supported_content_encodings (h : H) : option (list ResponseEncoding) :=
  encodings_of_values (hm_get_all "content-encoding" h).

(** [response_can_have_body], openwire/compression.rs:138-147. *)
Definition response_can_have_body (m : Method) (status : Z) : bool :=
  if bool_decide (m = Method_HEAD) then false
  else negb ((100 <=? status) && (status <? 200)) && negb (status =? 204) && negb (status =? NOT_MODIFIED) &&
       negb (status =? SWITCHING_PROTOCOLS).

(** ** The decoded body *)

(** [DecodedResponseBody], openwire/compression.rs:197-205, without the call context: its only use,
    [mark_body_force_discard], is the flag [poll_frame] returns. *)
Record DecodedResponseBody (R : Type) : Type := mkDecoded {
  db_reader : R;
  db_label : string;
  db_max : Z;
  db_decoded : Z;
}.
Arguments mkDecoded {R} _ _ _ _.
Arguments db_reader {R} _.
Arguments db_label {R} _.
Arguments db_max {R} _.
Arguments db_decoded {R} _.

Section Body.
Context {R : Type} `{BufRead R} (decode_layer : ResponseEncoding → R → R).

(** [DecodedResponseBody::new], openwire/compression.rs:209-229. *)
Definition decoded_new (body : R) (encodings : list ResponseEncoding) (label : string) (mx : Z) : DecodedResponseBody R :=
  mkDecoded (foldl (λ r e, decode_layer e r) body (reverse encodings)) label mx 0.

(** [decode_response], openwire/compression.rs:76-103: the headers and the body, decoded or as it came. *)
Definition decode_response (status : Z) (h : H) (body : R) (m : Method) (mx : Z) : H * (R + DecodedResponseBody R) :=
  if negb (response_can_have_body m status) then (h, inl body) else
  match supported_content_encodings h with
  | None | Some [] => (h, inl body)
  | Some encodings =>
    (hm_remove "content-length" (hm_remove "content-encoding" h),
     inr (decoded_new body encodings (String.concat ", " (encoding_str <$> encodings)) mx))
  end.

(** [io_error_to_wire], openwire/compression.rs:496-505. *)
Definition io_error_to_wire (e : IoError) (label : string) : WireError :=
  match e with
  | Io_Wire w => w
  | Io_Other text => body ("failed to decode " +:+ label +:+ " response body") text
  end.

(** [wire_error_to_io], openwire/compression.rs:492-494. *)
Definition wire_error_to_io (e : WireError) : IoError := Io_Wire e.

Definition too_large (d : DecodedResponseBody R) : WireError :=
  body ("decompressed " +:+ db_label d +:+ " response exceeded size limit " +:+ pretty (db_max d)) "decompressed body too large".

(** [DecodedResponseBody::poll_frame], openwire/compression.rs:238-278: the frame, the body afterwards and
    whether the connection must not be reused. *)
Definition decoded_poll_frame (d : DecodedResponseBody R) : poll (option (WireError + bytes)) * DecodedResponseBody R * bool :=
  let '(p, r) := poll_read DECODE_BUFFER_SIZE (db_reader d) in
  let d' := mkDecoded r (db_label d) (db_max d) (db_decoded d) in
  match p with
  | Ready (inr []) => (Ready None, d', false)
  | Ready (inr bs) =>
    match usize_checked_add (db_decoded d) (len bs) with
    | None => (Ready (Some (inl (too_large d))), d', true)
    | Some total =>
      if db_max d <? total then (Ready (Some (inl (too_large d))), d', true)
      else (Ready (Some (inr bs)), mkDecoded r (db_label d) (db_max d) total, false)
    end
  | Ready (inl e) => (Ready (Some (inl (io_error_to_wire e (db_label d)))), d', true)
  | Pending => (Pending, d', false)
  end.
End Body.
End Headers.
Arguments mkDecoded {R} _ _ _ _.
Arguments db_reader {R} _.
Arguments db_label {R} _.
Arguments db_max {R} _.
Arguments db_decoded {R} _.

(** ** Telling zlib from raw DEFLATE *)

(** [looks_like_zlib_header], openwire/compression.rs:481-490. *)
Definition looks_like_zlib_header (header : bytes) : bool :=
  match header with
  | cmf :: flg :: _ => (Z.land cmf 0x0F =? 8) && ((cmf * 256 + flg) `mod` 31 =? 0)
  | _ => true
  end.

(** [PrefixedReader], openwire/compression.rs:430-435. *)
Record PrefixedReader (R : Type) : Type := mkPrefixed {
  prefix : bytes;
  prefix_len : Z;
  prefix_pos : Z;
  inner : R;
}.
Arguments mkPrefixed {R} _ _ _ _.
Arguments prefix {R} _.
Arguments prefix_len {R} _.
Arguments prefix_pos {R} _.
Arguments inner {R} _.

Section Prefixed.
Context {R : Type} `{BufRead R}.

(** [&self.prefix[from..to]]. *)
Definition slice (l : bytes) (from to : Z) : bytes := take (Z.to_nat (to - from)) (drop (Z.to_nat from) l).

Definition with_pos (r : PrefixedReader R) (pos : Z) : PrefixedReader R :=
  mkPrefixed (prefix r) (prefix_len r) pos (inner r).
Definition with_inner (r : PrefixedReader R) (i : R) : PrefixedReader R :=
  mkPrefixed (prefix r) (prefix_len r) (prefix_pos r) i.

(** [PrefixedReader::poll_read], openwire/compression.rs:439-452. *)
Definition prefixed_poll_read (n : Z) (r : PrefixedReader R) : poll (IoError + bytes) * PrefixedReader R :=
  if prefix_pos r <? prefix_len r then
    let copy := Z.min (prefix_len r - prefix_pos r) n in
    (Ready (inr (slice (prefix r) (prefix_pos r) (prefix_pos r + copy))), with_pos r (prefix_pos r + copy))
  else let '(p, i) := poll_read n (inner r) in (p, with_inner r i).

(** [PrefixedReader::poll_fill_buf], openwire/compression.rs:457-463. *)
Definition prefixed_fill_buf (r : PrefixedReader R) : poll (IoError + bytes) * PrefixedReader R :=
  if prefix_pos r <? prefix_len r then (Ready (inr (slice (prefix r) (prefix_pos r) (prefix_len r))), r)
  else let '(p, i) := poll_fill_buf (inner r) in (p, with_inner r i).

(** [PrefixedReader::consume], openwire/compression.rs:465-477. *)
Definition prefixed_consume (amt : Z) (r : PrefixedReader R) : PrefixedReader R :=
  if prefix_pos r <? prefix_len r then
    let n := Z.min amt (prefix_len r - prefix_pos r) in
    let r := with_pos r (prefix_pos r + n) in
    let remaining := amt - n in
    if 0 <? remaining then with_inner r (consume remaining (inner r)) else r
  else with_inner r (consume amt (inner r)).

#[global] Instance prefixed_buf_read : BufRead (PrefixedReader R) := {|
  poll_read := prefixed_poll_read;
  poll_fill_buf := prefixed_fill_buf;
  consume := prefixed_consume;
|}.

(** ** The first two bytes *)

(** [DeflateAutoState], openwire/compression.rs:334-343, over the readers [D] of the two decoders. *)
Inductive DeflateAutoState (D : Type) : Type :=
| Peeking (reader : R) (peeked : bytes) (peeked_len : Z)
| Decoding (reader : D).
Arguments Peeking {D} _ _ _.
Arguments Decoding {D} _.

Context {D : Type} `{BufRead D} (zlib raw : PrefixedReader R → D).

(** [DeflateAutoDecoder::new], openwire/compression.rs:347-355. *)
Definition deflate_auto_new (reader : R) : DeflateAutoState D := Peeking reader [0; 0] 0.

(** [DeflateAutoDecoder::finish_peek], openwire/compression.rs:357-371. *)
Definition finish_peek (reader : R) (peeked : bytes) (peeked_len : Z) : D :=
  let use_zlib := looks_like_zlib_header (slice peeked 0 peeked_len) in
  let prefixed := mkPrefixed peeked peeked_len 0 reader in
  if use_zlib then zlib prefixed else raw prefixed.

(** What the peek loop ends with. *)
Inductive PeekEnd : Type :=
| Peek_Done (reader : R) (peeked : bytes) (peeked_len : Z)
| Peek_Return (p : poll (IoError + bytes)) (reader : R) (peeked : bytes) (peeked_len : Z)
| Peek_Panic.

(** [while *peeked_len < 2], openwire/compression.rs:388-400; each turn reads a byte or leaves. *)
Fixpoint peek_loop (fuel : nat) (reader : R) (peeked : bytes) (peeked_len : Z) : PeekEnd :=
  if peeked_len <? 2 then
    match fuel with
    | O => Peek_Done reader peeked peeked_len
    | S fuel =>
      let '(p, reader) := poll_read 1 reader in
      match p with
      | Ready (inr []) => Peek_Done reader peeked peeked_len
      | Ready (inr [b]) => peek_loop fuel reader (<[Z.to_nat peeked_len := b]> peeked) (peeked_len + 1)
      | Ready (inr _) => Peek_Panic
      | Ready (inl e) => Peek_Return (Ready (inl e)) reader peeked peeked_len
      | Pending => Peek_Return Pending reader peeked peeked_len
      end
    end
  else Peek_Done reader peeked peeked_len.

(** [DeflateAutoDecoder::poll_read], openwire/compression.rs:376-425; the outer loop turns at most twice. *)
Definition deflate_auto_poll_read (n : Z) (s : DeflateAutoState D) : outcome unit (poll (IoError + bytes) * DeflateAutoState D) :=
  let decode reader := let '(p, reader) := poll_read n reader in Ok (p, Decoding reader) in
  match s with
  | Peeking reader peeked peeked_len =>
    match peek_loop 2 reader peeked peeked_len with
    | Peek_Done reader peeked peeked_len => decode (finish_peek reader peeked peeked_len)
    | Peek_Return p reader peeked peeked_len => Ok (p, Peeking reader peeked peeked_len)
    | Peek_Panic => Panic
    end
  | Decoding reader => decode reader
  end.
End Prefixed.
Arguments Peeking {R D} _ _ _.
Arguments Decoding {R D} _.

(** ** What the decoded body delivers *)

Section Bounded.
#[local] Set Default Proof Using "Type*".
Context {R : Type} `{Hlaws : BufReadLaws R ok rest}.

(** [n] polls: the results in order, and the body afterwards. *)
Fixpoint poll_frames (n : nat) (d : DecodedResponseBody R) : list (poll (option (WireError + bytes))) * DecodedResponseBody R :=
  match n with
  | O => ([], d)
  | S n => let '(p, d, _) := decoded_poll_frame d in let '(ps, d) := poll_frames n d in (p :: ps, d)
  end.

(** The data and the errors among the results. *)
Definition frame_data (p : poll (option (WireError + bytes))) : bytes :=
  match p with Ready (Some (inr bs)) => bs | _ => [] end.
Definition is_error (p : poll (option (WireError + bytes))) : bool :=
  match p with Ready (Some (inl _)) => true | _ => false end.
Definition delivered (ps : list (poll (option (WireError + bytes)))) : bytes := mjoin (frame_data <$> ps).

Definition body_ok (d : DecodedResponseBody R) : Prop := ok (db_reader d) ∧ 0 ≤ db_decoded d ≤ db_max d.

(** One poll: counted, kept within the limit, and nothing lost unless it failed. *)
Lemma poll_frame_spec d p d' discard :
  body_ok d → decoded_poll_frame d = (p, d', discard) →
  body_ok d' ∧ db_max d' = db_max d ∧ db_decoded d' = db_decoded d + len (frame_data p) ∧ discard = is_error p ∧
  (is_error p = false → rest (db_reader d) = frame_data p ++ rest (db_reader d')) ∧
  (p = Ready None → rest (db_reader d') = []).
Proof.
  intros [Hok Hd]. unfold decoded_poll_frame, body_ok.
  destruct (poll_read DECODE_BUFFER_SIZE (db_reader d)) as [p0 r'] eqn:E.
  assert (Hok' : ok r') by (eapply (poll_read_ok DECODE_BUFFER_SIZE _ _ _ Hok); [done|exact E]).
  destruct p0 as [[e|[|b bs]]|].
  - intros [= <- <- <-]. cbn. split_and!; [done|len_lia..|done|done].
  - intros [= <- <- <-]. cbn. pose proof (poll_read_bytes DECODE_BUFFER_SIZE _ _ _ Hok ltac:(done) E) as [Hr _].
    pose proof (poll_read_end DECODE_BUFFER_SIZE _ _ Hok ltac:(done) E) as He.
    split_and!; [done|len_lia..|done|done|]. intros _. cbn in Hr. congruence.
  - pose proof (poll_read_bytes DECODE_BUFFER_SIZE _ _ _ Hok ltac:(done) E) as [Hr _].
    unfold usize_checked_add. destruct (Z.leb_spec (db_decoded d + len (b :: bs)) USIZE_MAX) as [Hs|Hs].
    + destruct (Z.ltb_spec (db_max d) (db_decoded d + len (b :: bs))) as [Hm|Hm]; intros [= <- <- <-]; cbn.
      * split_and!; try done; len_lia.
      * pose proof (len_nonneg (b :: bs)). split_and!; try done; len_lia.
    + intros [= <- <- <-]; cbn. split_and!; try done; len_lia.
  - intros [= <- <- <-]. cbn.
    split_and!; [done|len_lia..|done| |done]. intros _. symmetry.
    by apply (poll_read_other DECODE_BUFFER_SIZE _ _ _ Hok ltac:(done) E).
Qed.

Lemma poll_frames_spec n d ps d' :
  body_ok d → poll_frames n d = (ps, d') →
  body_ok d' ∧ db_max d' = db_max d ∧ db_decoded d' = db_decoded d + len (delivered ps) ∧
  (forallb (λ p, negb (is_error p)) ps = true → rest (db_reader d) = delivered ps ++ rest (db_reader d')) ∧
  (last ps = Some (Ready None) → rest (db_reader d') = []).
Proof.
  revert d ps. induction n as [|n IH]; intros d ps Hd; cbn [poll_frames].
  { intros [= <- <-]. change (delivered []) with (@nil Z). split_and!; try done; len_lia. }
  destruct (decoded_poll_frame d) as [[p d1] discard] eqn:E. destruct (poll_frames n d1) as [ps1 d2] eqn:E2.
  intros [= <- <-]. apply poll_frame_spec in E as (Hd1 & Hm1 & Hc1 & _ & Hr1 & Hn1); [|done].
  specialize (IH d1 ps1 Hd1 E2) as (Hd2 & Hm2 & Hc2 & Hr2 & Hn2).
  change (delivered (p :: ps1)) with (frame_data p ++ delivered ps1). split_and!; [done|lia| | |].
  - rewrite len_app. lia.
  - intros [Hp Hps]%andb_true_iff. rewrite Hr1 by by apply negb_true_iff. rewrite Hr2 by done. by rewrite app_assoc.
  - destruct ps1 as [|p1 ps1]; [|exact Hn2]. cbn. intros [= ->].
    destruct n; cbn [poll_frames] in E2.
    + injection E2 as <-. by apply Hn1.
    + destruct (decoded_poll_frame d1) as [[? ?] ?]. by destruct (poll_frames n _).
Qed.

(** C31.  Transparent decompression is bounded: however often the decoded body is polled, and whatever
    the decoder produces, the bytes it delivers are never more than the configured limit.  When no poll
    failed they are exactly the next bytes of the decoder's output, and all of it once the body has
    ended; so a response that decodes to more than the limit cannot end without an error. *)
Theorem decoded_body_bounded (decode_layer : ResponseEncoding → R → R) reader encodings label mx n ps d' :
  ok (foldl (λ r e, decode_layer e r) reader (reverse encodings)) → 0 ≤ mx →
  let d := decoded_new decode_layer reader encodings label mx in
  poll_frames n d = (ps, d') →
  len (delivered ps) ≤ mx ∧
  (forallb (λ p, negb (is_error p)) ps = true → delivered ps `prefix_of` rest (db_reader d)) ∧
  (forallb (λ p, negb (is_error p)) ps = true → last ps = Some (Ready None) →
     delivered ps = rest (db_reader d) ∧ len (rest (db_reader d)) ≤ mx).
Proof.
  intros Hok Hmx d Hps. assert (Hd : body_ok d) by (split; [done|cbn; lia]).
  apply poll_frames_spec in Hps as ([_ Hb] & Hm & Hc & Hr & Hn); [|done].
  change (db_max d) with mx in Hm. change (db_decoded d) with 0 in Hc.
  split_and!; [lia| |].
  - intros He. exists (rest (db_reader d')). by apply Hr.
  - intros He Hl. pose proof (Hr He) as Hall. rewrite (Hn Hl), app_nil_r in Hall. rewrite Hall. split; [done|lia].
Qed.
End Bounded.

(** ** The prefix is replayed, and nothing is lost *)

Section PrefixedLaws.
#[local] Set Default Proof Using "Type*".
Context {R : Type} `{Hlaws : BufReadLaws R ok rest}.

Definition prefixed_ok (r : PrefixedReader R) : Prop :=
  0 ≤ prefix_pos r ≤ prefix_len r ∧ prefix_len r ≤ len (prefix r) ∧ ok (inner r).
Definition prefixed_rest (r : PrefixedReader R) : bytes := slice (prefix r) (prefix_pos r) (prefix_len r) ++ rest (inner r).

Lemma slice_nil l a : slice l a a = [].
Proof. unfold slice. by rewrite Z.sub_diag. Qed.

Lemma slice_len l a b : 0 ≤ a ≤ b → b ≤ len l → len (slice l a b) = b - a.
Proof. intros. unfold slice. len_lia. Qed.

Lemma slice_split l a b c : 0 ≤ a ≤ b → b ≤ c → slice l a c = slice l a b ++ slice l b c.
Proof.
  intros. unfold slice. rewrite <- (take_drop (Z.to_nat (b - a)) (take (Z.to_nat (c - a)) _)).
  rewrite take_take, Nat.min_l by lia. f_equal. rewrite skipn_firstn_comm, drop_drop. f_equal; [lia|f_equal; lia].
Qed.

Lemma slice_drop l a b n : 0 ≤ a → 0 ≤ n ≤ b - a → drop (Z.to_nat n) (slice l a b) = slice l (a + n) b.
Proof. intros. unfold slice. rewrite skipn_firstn_comm, drop_drop. f_equal; [lia|f_equal; lia]. Qed.

Lemma prefixed_consume_rest n r :
  prefixed_ok r → 0 ≤ n ≤ len (prefixed_rest r) →
  prefixed_ok (prefixed_consume n r) ∧ prefixed_rest (prefixed_consume n r) = drop (Z.to_nat n) (prefixed_rest r).
Proof.
  unfold prefixed_consume, prefixed_ok, prefixed_rest. intros (Hp & Hl & Hok) Hn. rewrite len_app, slice_len in Hn by lia.
  pose proof (slice_len (prefix r) (prefix_pos r) (prefix_len r)) as Hsl.
  destruct (Z.ltb_spec (prefix_pos r) (prefix_len r)).
  - set (m := Z.min n (prefix_len r - prefix_pos r)).
    destruct (Z.ltb_spec 0 (n - m)); cbn [prefix prefix_pos prefix_len inner with_pos with_inner].
    + destruct (consume_rest (n - m) (inner r) Hok) as [Hok' Hr]; [lia|]. split; [split_and!; [lia..|done]|].
      replace (prefix_pos r + m) with (prefix_len r) by lia. rewrite slice_nil, Hr, drop_app.
      rewrite (drop_ge (slice _ _ _)) by (unfold len in *; lia). cbn [app]. f_equal. unfold len in *. lia.
    + split; [split_and!; [lia..|done]|]. replace m with n by lia.
      rewrite drop_app_le by (unfold len in *; lia). by rewrite slice_drop by lia.
  - cbn [prefix prefix_pos prefix_len inner with_inner]. replace (prefix_pos r) with (prefix_len r) in * by lia.
    rewrite slice_nil. destruct (consume_rest n (inner r) Hok) as [? ?]; [lia|]. split; [split_and!; [lia..|done]|done].
Qed.

(** The reader that replays the peeked bytes is itself a lawful buffered reader, whose content is
    the peeked bytes it has not given out yet followed by the inner reader's: however [poll_read],
    [poll_fill_buf] and [consume] are mixed, every byte is read once and in order. *)
Theorem prefixed_reader_lawful : BufReadLaws (PrefixedReader R) prefixed_ok prefixed_rest.
Proof.
  constructor; unfold poll_read, poll_fill_buf, consume; cbn [prefixed_buf_read];
    unfold prefixed_poll_read, prefixed_fill_buf, prefixed_consume, prefixed_ok, prefixed_rest.
  - intros n r bs r' (Hp & Hl & Hok) Hn. destruct (Z.ltb_spec (prefix_pos r) (prefix_len r)).
    + intros [= <- <-]. cbn [prefix prefix_pos prefix_len inner with_pos]. rewrite app_assoc, <- slice_split by lia.
      rewrite slice_len by lia. split; [done|lia].
    + destruct (poll_read n (inner r)) as [p i] eqn:E. intros [= -> <-]. cbn [prefix prefix_pos prefix_len inner with_inner].
      replace (prefix_pos r) with (prefix_len r) by lia. rewrite slice_nil.
      exact (poll_read_bytes n _ _ _ Hok Hn E).
  - intros n r r' (Hp & Hl & Hok) Hn. destruct (Z.ltb_spec (prefix_pos r) (prefix_len r)).
    + intros [= Hs <-]. exfalso. apply (f_equal len) in Hs. rewrite slice_len in Hs by lia.
      change (len (@nil Z)) with 0 in Hs. lia.
    + destruct (poll_read n (inner r)) as [p i] eqn:E. intros [= -> <-].
      replace (prefix_pos r) with (prefix_len r) by lia. rewrite slice_nil.
      exact (poll_read_end n _ i Hok Hn E).
  - intros n r p r' (Hp & Hl & Hok) Hn. destruct (Z.ltb_spec (prefix_pos r) (prefix_len r)).
    + intros [= <- <-] Hne. by destruct (Hne (slice (prefix r) (prefix_pos r) (prefix_pos r + Z.min (prefix_len r - prefix_pos r) n))).
    + destruct (poll_read n (inner r)) as [p' i] eqn:E. intros [= -> <-] Hne. cbn [prefix prefix_pos prefix_len inner with_inner].
      f_equal.
      exact (poll_read_other n _ p _ Hok Hn E Hne).
  - intros n r p r' (Hp & Hl & Hok) Hn. destruct (Z.ltb_spec (prefix_pos r) (prefix_len r)).
    + intros [= <- <-]. cbn. split_and!; [lia..|done].
    + destruct (poll_read n (inner r)) as [p' i] eqn:E. intros [= -> <-]. cbn. split_and!; [lia..|]. by eapply (poll_read_ok n).
  - intros r bs r' (Hp & Hl & Hok). destruct (Z.ltb_spec (prefix_pos r) (prefix_len r)).
    + intros [= <- <-]. by exists (rest (inner r)).
    + destruct (poll_fill_buf (inner r)) as [p' i] eqn:E. intros [= -> <-].
      replace (prefix_pos r) with (prefix_len r) by lia. rewrite slice_nil.
      exact (fill_buf_prefix _ _ _ Hok E).
  - intros r p r' (Hp & Hl & Hok). destruct (Z.ltb_spec (prefix_pos r) (prefix_len r)).
    + intros [= <- <-]. done.
    + destruct (poll_fill_buf (inner r)) as [p' i] eqn:E. intros [= -> <-]. cbn.
      destruct (fill_buf_rest _ _ _ Hok E) as [? ->]. done.
  - apply prefixed_consume_rest.
Qed.

(** The bytes peeked so far and the reader's own make up the original content. *)
Definition peek_inv (all : bytes) (reader : R) (peeked : bytes) (peeked_len : Z) : Prop :=
  ok reader ∧ length peeked = 2%nat ∧ 0 ≤ peeked_len ≤ 2 ∧ slice peeked 0 peeked_len ++ rest reader = all.

Lemma peek_store peeked l b :
  length peeked = 2%nat → 0 ≤ l < 2 → slice (<[Z.to_nat l := b]> peeked) 0 (l + 1) = slice peeked 0 l ++ [b].
Proof.
  intros Hl Hb. unfold slice. rewrite !Z.sub_0_r. change (Z.to_nat 0) with 0%nat. rewrite !drop_0.
  replace (Z.to_nat (l + 1)) with (S (Z.to_nat l)) by lia.
  rewrite (take_S_r _ _ b) by (apply list_lookup_insert_eq; lia). by rewrite (take_insert_ge _ (Z.to_nat l)) by lia.
Qed.

(** The loop leaves with two bytes, with all there is, or to wait or fail with the content intact. *)
Lemma peek_loop_spec all fuel reader peeked l :
  peek_inv all reader peeked l → 2 - l ≤ Z.of_nat fuel →
  match peek_loop fuel reader peeked l with
  | Peek_Done reader peeked l => peek_inv all reader peeked l ∧ slice peeked 0 l = take 2 all
  | Peek_Return _ reader peeked l => peek_inv all reader peeked l
  | Peek_Panic => False
  end.
Proof.
  revert reader peeked l. induction fuel as [|fuel IH]; intros reader peeked l Hinv Hf;
    pose proof Hinv as (Hok & Hp & Hl & Hall); cbn [peek_loop]; destruct (Z.ltb_spec l 2); [lia| | |].
  2: { destruct (poll_read 1 reader) as [p reader'] eqn:E.
       assert (Hok' : ok reader') by (eapply (poll_read_ok 1); [done|lia|done]).
       destruct p as [[e|bs]|].
       - split_and!; [done|done|lia..|].
         by rewrite (poll_read_other (ok := ok) (rest := rest) 1 _ _ _ Hok ltac:(lia) E).
       - destruct (poll_read_bytes 1 _ _ _ Hok ltac:(lia) E) as [Hr Hn]. destruct bs as [|b [|b' bs]].
         + pose proof (poll_read_end 1 _ _ Hok ltac:(lia) E) as He. rewrite He, app_nil_r in Hall.
           cbn [app] in Hr. split; [split_and!; [done|done|lia..|]|].
           * by rewrite <- Hr, He, app_nil_r.
           * rewrite <- Hall, take_ge; [done|]. pose proof (slice_len peeked 0 l). unfold len in *. lia.
         + apply IH; [|lia]. split_and!; [done|by rewrite length_insert|lia..|].
           rewrite peek_store by lia. by rewrite <- app_assoc, <- Hr.
         + rewrite !len_cons in Hn. pose proof (len_nonneg bs). lia.
       - split_and!; [done|done|lia..|].
         by rewrite (poll_read_other (ok := ok) (rest := rest) 1 _ _ _ Hok ltac:(lia) E). }
  all: split; [done|]; assert (l = 2) as -> by lia; rewrite <- Hall; rewrite take_app_length'; [done|];
    unfold slice; rewrite length_take, length_drop; lia.
Qed.

Context {D : Type} `{BufRead D} (zlib raw : PrefixedReader R → D).

(** Polls with buffers of the given lengths. *)
Fixpoint deflate_polls (ns : list Z) (s : DeflateAutoState (R := R) D) : outcome unit (DeflateAutoState (R := R) D) :=
  match ns with
  | [] => Ok s
  | n :: ns => let? out := deflate_auto_poll_read zlib raw n s in deflate_polls ns out.2
  end.

Lemma decoding_stays ns d : deflate_polls ns (Decoding d) = Ok (Decoding (foldl (λ d n, (poll_read n d).2) d ns)).
Proof.
  revert d. induction ns as [|n ns IH]; intros d; [done|]. cbn [deflate_polls deflate_auto_poll_read].
  destruct (poll_read n d) as [p d'] eqn:E. cbn [obind snd]. rewrite IH. cbn [foldl]. by rewrite E.
Qed.

Lemma deflate_polls_spec all ns reader peeked l :
  peek_inv all reader peeked l →
  match deflate_polls ns (Peeking reader peeked l) with
  | Ok (Peeking reader peeked l) => peek_inv all reader peeked l
  | Ok (Decoding d) =>
    ∃ pr ns', prefixed_ok pr ∧ prefixed_rest pr = all ∧
      d = foldl (λ d n, (poll_read n d).2) (if looks_like_zlib_header (take 2 all) then zlib pr else raw pr) ns'
  | _ => False
  end.
Proof.
  revert reader peeked l. induction ns as [|n ns IH]; intros reader peeked l Hinv; [done|].
  cbn [deflate_polls deflate_auto_poll_read]. pose proof (peek_loop_spec all 2 reader peeked l Hinv) as Hpk.
  pose proof Hinv as (_ & _ & Hl & _).
  destruct (peek_loop 2 reader peeked l) as [r' p' l'|p r' p' l'|]; [| |by apply Hpk; lia].
  - destruct Hpk as [(Hok & Hp & Hl' & Hall) Htake]; [lia|]. unfold finish_peek. rewrite Htake.
    set (pr := mkPrefixed p' l' 0 r'). set (d0 := if looks_like_zlib_header _ then _ else _).
    destruct (poll_read n d0) as [q d'] eqn:E. cbn [obind snd]. rewrite decoding_stays.
    exists pr, (n :: ns). split_and!.
    + unfold prefixed_ok. cbn. unfold len. split_and!; [lia..|done].
    + exact Hall.
    + cbn [foldl]. fold d0. by rewrite E.
  - cbn [obind snd]. apply IH, Hpk. lia.
Qed.

(** Looking at the first two bytes of a deflate response loses nothing: however the underlying
    reader delays, fails or splits its data, reading never panics, and the decoder that is finally chosen -
    the zlib one exactly when the content's first two bytes form a zlib header or there are fewer than
    two - is handed the whole content from its first byte. *)
Theorem deflate_peek_lossless reader ns :
  ok reader →
  match deflate_polls ns (deflate_auto_new reader) with
  | Ok (Peeking r peeked l) => slice peeked 0 l ++ rest r = rest reader
  | Ok (Decoding d) =>
    ∃ pr ns', prefixed_ok pr ∧ prefixed_rest pr = rest reader ∧
      d = foldl (λ d n, (poll_read n d).2) (if looks_like_zlib_header (take 2 (rest reader)) then zlib pr else raw pr) ns'
  | _ => False
  end.
Proof.
  intros Hok. pose proof (deflate_polls_spec (rest reader) ns reader [0; 0] 0) as Hs.
  unfold deflate_auto_new. destruct (deflate_polls ns _) as [[r p l|d]| |]; by apply Hs.
Qed.
End PrefixedLaws.

(** ** The order of the codings *)

Section Order.
Context {H : Type} `{HeaderMap H} (to_str : string → option string).
Context {R : Type} `{BufRead R} (encode decode_layer : ResponseEncoding → R → R).

(** Decoding undoes the codings in the order opposite to the one in which the server applied and
    listed them: if each decoder inverts its encoder, a body to which the codings of the Content-Encoding
    header were applied from the first to the last is decoded to the original reader, and the headers that
    described the encoded form are gone.  A response that cannot have a body, or names a coding that is
    not known, is passed on untouched. *)
Theorem decode_response_inverts status (h : H) original m mx es :
  HeaderMapLaws H →
  (∀ e r, decode_layer e (encode e r) = r) →
  supported_content_encodings to_str h = Some es →
  let received := foldl (λ r e, encode e r) original es in
  match decode_response to_str decode_layer status h received m mx with
  | (h', inr d) => response_can_have_body m status = true ∧ es ≠ [] ∧ db_reader d = original ∧ db_decoded d = 0 ∧ db_max d = mx ∧
      hm_get_all "content-encoding" h' = [] ∧ hm_get_all "content-length" h' = [] ∧
      ∀ k, k ∉ ["content-encoding"; "content-length"]%string → hm_get_all k h' = hm_get_all k h
  | (h', inl r) => h' = h ∧ r = received ∧ (response_can_have_body m status = false ∨ (es = [] ∧ r = original))
  end.
Proof.
  intros Hh Hinv Hes received. unfold decode_response. rewrite Hes.
  destruct (response_can_have_body m status); cbn [negb]; [|auto]. destruct es as [|e es]; [auto|].
  split_and!; [done|done| |done|done| | |].
  - cbn [db_reader decoded_new]. unfold received. clear received Hes.
    generalize (e :: es); intros l. revert original. induction l as [|x l IH]; intros original; [done|].
    rewrite reverse_cons, foldl_app. cbn [foldl]. by rewrite IH, Hinv.
  - by rewrite hm_get_all_remove, hm_remove_eq, bool_decide_false.
  - by rewrite hm_remove_eq.
  - intros k Hk. rewrite !not_elem_of_cons in Hk. destruct Hk as (? & ? & _).
    by rewrite !hm_get_all_remove, !bool_decide_false.
Qed.
End Order.

(** ** Readers over bytes in memory *)

#[global] Instance list_buf_read : BufRead bytes := {|
  poll_read n l := (Ready (inr (take (Z.to_nat n) l)), drop (Z.to_nat n) l);
  poll_fill_buf l := (Ready (inr l), l);
  consume n l := drop (Z.to_nat n) l;
|}.
#[global] Instance list_buf_read_laws : BufReadLaws bytes (λ _, True) (λ l, l).
Proof.
  constructor; unfold poll_read, poll_fill_buf, consume; cbn [list_buf_read].
  - intros n l bs l' _ Hn [= <- <-]. split; [by rewrite take_drop|len_lia].
  - intros n l l' _ Hn [= Ht <-]. destruct l; [done|]. destruct (Z.to_nat n) eqn:E; [lia|]. done.
  - intros n l p l' _ _ [= <- <-] Hne. by destruct (Hne (take (Z.to_nat n) l)).
  - done.
  - by intros l bs l' _ [= <- <-].
  - by intros l p l' _ [= <- <-].
  - by intros n l _ _.
Qed.

Lemma decoded_body_bounded_witness :
  let d := decoded_new (λ e l, 7 :: l) [1; 2; 3] [Gzip] "gzip" 10 in
  len (delivered (poll_frames 3 d).1) ≤ 10 ∧ delivered (poll_frames 3 d).1 = [7; 1; 2; 3].
Proof.
  intros d. split.
  - destruct (decoded_body_bounded (R := bytes) (ok := λ _, True) (rest := λ l, l) (λ e l, 7 :: l) [1; 2; 3] [Gzip] "gzip" 10 3
                (poll_frames 3 d).1 (poll_frames 3 d).2 I) as [Hb _]; [done|reflexivity|exact Hb].
  - vm_compute. reflexivity.
Defined.

Lemma prefixed_reader_lawful_witness :
  [1; 2] `prefix_of` prefixed_rest (rest := λ l : bytes, l) (mkPrefixed [1; 2] 2 0 [3; 4]).
Proof.
  pose proof (prefixed_reader_lawful (R := bytes) (ok := λ _, True) (rest := λ l, l)) as Hl.
  apply (fill_buf_prefix (BufReadLaws := Hl) (mkPrefixed [1; 2] 2 0 [3; 4]) [1; 2] (mkPrefixed [1; 2] 2 0 [3; 4]));
    [|reflexivity]. unfold prefixed_ok. cbn. repeat split; discriminate.
Defined.

Lemma deflate_peek_lossless_witness :
  ∃ pr ns', prefixed_ok (ok := λ _ : bytes, True) pr ∧ prefixed_rest (rest := λ l : bytes, l) pr = [0x78; 0x9C; 1; 2] ∧
    deflate_polls (λ pr, prefixed_rest (rest := λ l : bytes, l) pr) (λ pr, [0]) [1; 2] (deflate_auto_new [0x78; 0x9C; 1; 2]) =
      Ok (Decoding (foldl (λ d n, (poll_read n d).2) (prefixed_rest (rest := λ l : bytes, l) pr) ns')).
Proof.
  destruct (deflate_peek_lossless (R := bytes) (ok := λ _, True) (rest := λ l, l) (D := bytes)
              (λ pr, prefixed_rest (rest := λ l : bytes, l) pr) (λ pr, [0]) [0x78; 0x9C; 1; 2] [1; 2] I)
    as (pr & ns' & Hok & Hr & Hd). exists pr, ns'. split_and!; [done|done|].
  change (looks_like_zlib_header (take 2 [0x78; 0x9C; 1; 2])) with true in Hd. cbv iota in Hd. rewrite <- Hd. reflexivity.
Defined.

Lemma decode_response_inverts_witness :
  let received := 8 :: 7 :: [1; 2] in
  let decode := λ (e : ResponseEncoding) (l : bytes), tail l in
  db_reader (match (decode_response Some decode STATUS_OK [("content-encoding", "gzip, br")]%string received Method_GET 10).2 with
             | inr d => d | inl _ => decoded_new decode [] [] "" 0 end) = [1; 2].
Proof.
  pose proof (decode_response_inverts Some (λ e l, match e with Gzip => 7 :: l | _ => 8 :: l end) (λ e l, tail l) STATUS_OK
                [("content-encoding", "gzip, br")]%string [1; 2] Method_GET 10 [Gzip; Brotli] _
                ltac:(by intros []) eq_refl) as Hd.
  cbn in Hd |- *. by destruct Hd as (_ & _ & ? & _).
Defined.
