(* ===== verification/Bridge.v ===== *)
(** * The bridge between a call and the wire

    openwire/src/bridge.rs: the headers every request gets on its way to the network (Host, User-Agent,
    the body's framing, Accept-Encoding, and for a WebSocket call the handshake's), and the decoding of
    the response; with the order of the layers around the bridge in the service chain of openwire/src/client.rs.

    [HeaderValue::to_str] and [HeaderValue::from_str] are parameters, with their errors as text; so are
    what the handshake and the decoders need. *)

From stdpp Require Import pretty.
From S2P Require Import Prelude Net Error Http Proxy Policy Request FollowUp WsHandshake Compression.

(** [is_default_port], openwire/bridge.rs:135-138. *)
Definition is_default_port (scheme : option string) (port : Z) : bool :=
  match scheme with
  | Some s => (eq_ignore_ascii_case s "http" && (port =? 80)) || (eq_ignore_ascii_case s "https" && (port =? 443))
  | None => false
  end.

(** [uses_chunked_transfer_encoding], openwire/bridge.rs:178-180. *)
Definition uses_chunked_transfer_encoding (version : string) : bool := String.eqb version "HTTP/1.1".

(** [DEFAULT_USER_AGENT], openwire/bridge.rs:5-5, of this version of the crate. *)
Definition DEFAULT_USER_AGENT : string := "openwire/0.1.2".

(** A literal name that is not in a literal list. *)
Ltac not_listed := rewrite !not_elem_of_cons; split_and!; try done; apply not_elem_of_nil.

Section Bridge.
#[local] Set Default Proof Using "Type*".
Context {H : Type} `{HeaderMapLaws H}.
Context (sha1 base64 debug : string → string) (to_str : string → option string) (to_str_error : string → string)
        (header_error : string → option string) (from_parts : Uri → string + Uri).

(** [synthesized_host_header], openwire/bridge.rs:115-133. *)
Definition synthesized_host_header (uri : Uri) : outcome WireError string :=
  match uri_authority uri with
  | None => Err (invalid_request "request URI is missing an authority")
  | Some authority =>
    match uri_host uri with
    | None => Err (invalid_request "request URI is missing a host")
    | Some host =>
      let authority := match uri_port_u16 uri with
                       | Some port => if negb (is_default_port (uri_scheme_str uri) port) then authority else host
                       | None => host
                       end in
      match header_error authority with
      | Some e => Err (invalid_request ("request URI authority is not a valid Host header: " +:+ e))
      | None => Ok authority
      end
    end
  end.

(** [normalize_host_header], openwire/bridge.rs:88-113. *)
Definition normalize_host_header (strict : bool) (r : Request H) : outcome WireError (Request H) :=
  let? expected := synthesized_host_header (req_uri r) in
  match hm_get "host" (req_headers r) with
  | Some existing =>
    if strict then
      match to_str existing with
      | None => Err (invalid_request ("Host header is not valid ASCII: " +:+ to_str_error existing))
      | Some existing =>
        match to_str expected with
        | None => Err (invalid_request ("synthesized Host header is not valid ASCII: " +:+ to_str_error expected))
        | Some expected =>
          if negb (eq_ignore_ascii_case existing expected) then
            Err (invalid_request ("Host header " +:+ debug existing +:+ " does not match request URI authority"))
          else Ok r
        end
      end
    else Ok r
  | None => Ok (with_headers (hm_insert "host" expected (req_headers r)) r)
  end.

(** [normalize_user_agent_header], openwire/bridge.rs:140-146. *)
Definition normalize_user_agent_header (r : Request H) : Request H :=
  if negb (hm_contains "user-agent" (req_headers r))
  then with_headers (hm_insert "user-agent" DEFAULT_USER_AGENT (req_headers r)) r else r.

(** [normalize_body_headers], openwire/bridge.rs:148-176. *)
Definition normalize_body_headers (r : Request H) : Request H :=
  let h := req_headers r in
  if is_absent (req_body r) then with_headers (hm_remove "transfer-encoding" (hm_remove "content-length" h)) r
  else match replayable_len (req_body r) with
  | Some n => with_headers (hm_remove "transfer-encoding" (hm_insert "content-length" (pretty n) h)) r
  | None =>
    let h := hm_remove "content-length" h in
    if uses_chunked_transfer_encoding (req_version r) then with_headers (hm_insert "transfer-encoding" "chunked" h) r
    else with_headers (hm_remove "transfer-encoding" h) r
  end.

(** [normalize_request], openwire/bridge.rs:64-86: the request, and whether its response may be decoded. *)
Definition normalize_request (strict : bool) (random : string + string) (r : Request H) : outcome WireError (Request H * bool) :=
  let? r := if is_some (ext_websocket (req_extensions r))
            then inject_handshake sha1 base64 debug header_error from_parts random r else Ok r in
  let? r := normalize_host_header strict r in
  Ok (compression_normalize_request (normalize_body_headers (normalize_user_agent_header r))).

(** [BridgeInterceptor::intercept], openwire/bridge.rs:29-61, over the rest of the chain: a response is its
    status, its headers and a reader of its body. *)
Definition bridge_intercept {R} `{BufRead R} (decode_layer : ResponseEncoding → R → R) (strict : bool) (mx : Z)
    (random : string + string) (next : Request H → outcome WireError (Z * H * R)) (r : Request H)
    : outcome WireError (Z * H * (R + DecodedResponseBody R)) :=
  let? out := normalize_request strict random r in
  let '(sent, transparent) := out in
  let? response := next sent in
  let '(status, h, body) := response in
  if transparent then
    let '(h, body) := decode_response to_str decode_layer status h body (req_method r) mx in Ok (status, h, body)
  else Ok (status, h, inl body).

(** ** What reaches the wire *)

(** The headers the bridge writes after the handshake's. *)
Lemma normalize_request_inv strict random r r' t :
  normalize_request strict random r = Ok (r', t) →
  ∃ r1 r2, (if is_some (ext_websocket (req_extensions r))
            then inject_handshake sha1 base64 debug header_error from_parts random r else Ok r) = Ok r1 ∧
    normalize_host_header strict r1 = Ok r2 ∧
    compression_normalize_request (normalize_body_headers (normalize_user_agent_header r2)) = (r', t).
Proof.
  intros (r1 & Hr1 & Hr)%obind_Ok. apply obind_Ok in Hr as (r2 & Hr2 & [= Hr]). by exists r1, r2.
Qed.

(** Each step changes headers only. *)
Definition same_but_headers (r r' : Request H) : Prop :=
  req_method r' = req_method r ∧ req_uri r' = req_uri r ∧ req_version r' = req_version r ∧
  req_extensions r' = req_extensions r ∧ req_body r' = req_body r.

Lemma same_but_headers_trans a b c : same_but_headers a b → same_but_headers b c → same_but_headers a c.
Proof. unfold same_but_headers. intros (-> & -> & -> & -> & ->). done. Qed.

Lemma normalize_host_header_ok strict r r' :
  normalize_host_header strict r = Ok r' →
  same_but_headers r r' ∧
  ∃ expected, synthesized_host_header (req_uri r) = Ok expected ∧
    (∀ k, hm_get_all k (req_headers r') =
       if bool_decide (k = "host"%string) && bool_decide (hm_get_all "host" (req_headers r) = [])
       then [expected] else hm_get_all k (req_headers r)) ∧
    (strict = true → ∀ v, hm_get "host" (req_headers r) = Some v →
       ∃ a b, to_str v = Some a ∧ to_str expected = Some b ∧ eq_ignore_ascii_case a b = true).
Proof.
  intros (expected & He & Hr)%obind_Ok. unfold hm_get in *.
  destruct (hm_get_all "host" (req_headers r)) as [|v vs] eqn:Hh; cbn [head] in *.
  - injection Hr as <-. split; [done|]. exists expected. split_and!; [done| |done].
    intros k. cbn. rewrite hm_get_all_insert, andb_true_r. done.
  - assert (r' = r ∧ (strict = true → ∃ a b, to_str v = Some a ∧ to_str expected = Some b ∧ eq_ignore_ascii_case a b = true)) as [-> Hs].
    { destruct strict; [|by injection Hr as <-]. destruct (to_str v) as [a|]; [|done].
      destruct (to_str expected) as [b|]; [|done]. destruct (eq_ignore_ascii_case a b) eqn:Hab; [|done].
      injection Hr as <-. split; [done|]. intros _. by exists a, b. }
    split; [done|]. exists expected. split_and!; [done| |].
    + intros k. by rewrite andb_false_r.
    + intros Hst v' [= <-]. by apply Hs.
Qed.

Lemma normalize_user_agent_ok r :
  same_but_headers r (normalize_user_agent_header r) ∧
  ∀ k, k ≠ "user-agent"%string → hm_get_all k (req_headers (normalize_user_agent_header r)) = hm_get_all k (req_headers r).
Proof.
  unfold normalize_user_agent_header. destruct (negb _); [|done]. split; [done|]. intros k Hk. cbn.
  by rewrite hm_get_all_insert, bool_decide_false.
Qed.

(** How a body is framed: by its length, by chunks, or not at all. *)
Definition framing (version : string) (b : RequestBody) : list string * list string :=
  match b with
  | Body_Absent => ([], [])
  | Body_ExplicitEmpty => (["0"%string], [])
  | Body_Bytes bs => ([pretty (len bs)], [])
  | Body_Streaming => ([], if String.eqb version "HTTP/1.1" then ["chunked"%string] else [])
  end.

Lemma normalize_body_headers_ok r :
  same_but_headers r (normalize_body_headers r) ∧
  (hm_get_all "content-length" (req_headers (normalize_body_headers r)),
   hm_get_all "transfer-encoding" (req_headers (normalize_body_headers r))) = framing (req_version r) (req_body r) ∧
  ∀ k, k ∉ ["content-length"; "transfer-encoding"]%string →
    hm_get_all k (req_headers (normalize_body_headers r)) = hm_get_all k (req_headers r).
Proof.
  assert (Hk : ∀ k : string, k ∉ ["content-length"; "transfer-encoding"]%string → k ≠ "content-length"%string ∧ k ≠ "transfer-encoding"%string).
  { intros k Hk. rewrite !not_elem_of_cons in Hk. by destruct Hk as (? & ? & _). }
  unfold normalize_body_headers, framing, uses_chunked_transfer_encoding.
  destruct (req_body r) eqn:Hb; cbn [is_absent replayable_len];
    try destruct (String.eqb (req_version r) "HTTP/1.1"); cbn [with_headers req_headers]; split_and!; try done;
    try (intros k [? ?]%Hk); rewrite ?hm_get_all_remove, ?hm_get_all_insert, ?hm_get_all_remove;
    rewrite ?bool_decide_true, ?bool_decide_false by done; done.
Qed.

Lemma compression_normalize_ok (r : Request H) r' t :
  compression_normalize_request r = (r', t) →
  same_but_headers r r' ∧
  (∀ k, k ≠ "accept-encoding"%string → hm_get_all k (req_headers r') = hm_get_all k (req_headers r)) ∧
  t = negb (should_skip_transparent_compression r).
Proof.
  unfold compression_normalize_request. destruct (should_skip_transparent_compression r); intros [= <- <-].
  - done.
  - split_and!; [done| |done]. intros k Hk. cbn. by rewrite hm_get_all_insert, bool_decide_false.
Qed.

Lemma inject_handshake_keeps random r r1 :
  inject_handshake sha1 base64 debug header_error from_parts random r = Ok r1 →
  req_body r1 = req_body r ∧ hm_get_all "host" (req_headers r1) = hm_get_all "host" (req_headers r).
Proof.
  unfold inject_handshake. destruct (ext_websocket _) as [m|]; [|done].
  intros Hr. apply obind_Ok in Hr as ([] & _ & Hr). apply obind_Ok in Hr as ([] & _ & Hr).
  apply obind_Ok in Hr as (r0 & Hr0 & Hr). apply obind_Ok in Hr as (key & _ & Hr). apply obind_Ok in Hr as (kv & _ & Hr).
  assert (req_body r0 = req_body r ∧ req_headers r0 = req_headers r) as [Hb0 Hh0].
  { unfold rewrite_scheme in Hr0. repeat case_match; simplify_eq/=; done. }
  apply obind_Ok in Hr as (h & Hh & [= <-]). cbn. split; [done|].
  cbn [subprotocols] in Hh. destruct (subprotocols m) as [|p ps].
  - injection Hh as <-. rewrite !hm_get_all_insert, Hh0. by rewrite !bool_decide_false.
  - apply obind_Ok in Hh as (v & _ & [= <-]). rewrite !hm_get_all_insert, Hh0. by rewrite !bool_decide_false.
Qed.

Lemma handshake_step_keeps random r r1 :
  (if is_some (ext_websocket (req_extensions r))
   then inject_handshake sha1 base64 debug header_error from_parts random r else Ok r) = Ok r1 →
  req_body r1 = req_body r ∧ hm_get_all "host" (req_headers r1) = hm_get_all "host" (req_headers r).
Proof. destruct (is_some _); [apply inject_handshake_keeps|by intros [= <-]]. Qed.

(** From the host step on. *)
Lemma normalized_from r1 r2 r' t strict :
  normalize_host_header strict r1 = Ok r2 →
  compression_normalize_request (normalize_body_headers (normalize_user_agent_header r2)) = (r', t) →
  same_but_headers r1 r' ∧
  (hm_get_all "content-length" (req_headers r'), hm_get_all "transfer-encoding" (req_headers r')) =
    framing (req_version r') (req_body r') ∧
  ∀ k, k ∉ ["content-length"; "transfer-encoding"; "user-agent"; "accept-encoding"]%string →
    hm_get_all k (req_headers r') = hm_get_all k (req_headers r2).
Proof.
  intros [H12 _]%normalize_host_header_ok Hc.
  set (r3 := normalize_user_agent_header r2) in *. set (r4 := normalize_body_headers r3) in *.
  destruct (normalize_user_agent_ok r2) as [H23 Hua]. destruct (normalize_body_headers_ok r3) as (H34 & Hf & Hbh).
  apply compression_normalize_ok in Hc as (H45 & Hce & _).
  fold r3 in H23, Hua. fold r4 in H34, Hf, Hbh.
  assert (H35 : same_but_headers r3 r') by by eapply same_but_headers_trans. split_and!.
  - eapply same_but_headers_trans; [exact H12|]. by eapply same_but_headers_trans.
  - rewrite !Hce by done. rewrite Hf. destruct H35 as (_ & _ & -> & _ & ->). done.
  - intros k Hk. rewrite !not_elem_of_cons in Hk. destruct Hk as (? & ? & ? & ? & _).
    rewrite Hce by done. rewrite Hbh; [by apply Hua|]. rewrite !not_elem_of_cons. split_and!; [done|done|apply not_elem_of_nil].
Qed.

(** C23.  A request is framed one way only, and the way its body really is: whatever Content-Length and
    Transfer-Encoding the caller or an interceptor had set, the request that leaves the bridge has no
    framing header for an absent body, exactly the length of a body in memory, and for a streamed body no
    length but, on HTTP/1.1, chunked coding.  Never both headers. *)
Theorem request_framed_by_body strict random r r' t :
  normalize_request strict random r = Ok (r', t) →
  req_body r' = req_body r ∧
  (hm_get_all "content-length" (req_headers r'), hm_get_all "transfer-encoding" (req_headers r')) =
    framing (req_version r') (req_body r).
Proof.
  intros (r1 & r2 & [Hb _]%handshake_step_keeps & Hr2 & Hc)%normalize_request_inv.
  destruct (normalized_from _ _ _ _ _ Hr2 Hc) as ((_ & _ & _ & _ & Hb') & Hf & _).
  rewrite Hf, Hb', Hb. done.
Qed.

(** The Host header: a request leaves the bridge only with an address that names a host, with the
    caller's Host values if there were any and otherwise with the one of its address - the authority, without a
    port that is the scheme's default; and under the strict option a caller's Host that differs from the
    address, letter case aside, never leaves. *)
Theorem host_header_matches strict random r r' t :
  normalize_request strict random r = Ok (r', t) →
  ∃ expected, synthesized_host_header (req_uri r') = Ok expected ∧
    hm_get_all "host" (req_headers r') =
      (if bool_decide (hm_get_all "host" (req_headers r) = []) then [expected] else hm_get_all "host" (req_headers r)) ∧
    (strict = true → ∀ v, hm_get "host" (req_headers r) = Some v →
       ∃ a b, to_str v = Some a ∧ to_str expected = Some b ∧ eq_ignore_ascii_case a b = true).
Proof.
  intros (r1 & r2 & [_ Hh]%handshake_step_keeps & Hr2 & Hc)%normalize_request_inv.
  destruct (normalized_from _ _ _ _ _ Hr2 Hc) as ((_ & Hu & _) & _ & Hk).
  apply normalize_host_header_ok in Hr2 as (_ & expected & He & Hhost & Hstrict).
  exists expected. rewrite Hu. unfold hm_get in *. rewrite Hh in Hstrict. split_and!; [done| |done].
  rewrite Hk by not_listed.
  rewrite Hhost, Hh. rewrite bool_decide_true by done. done.
Qed.

(** After a redirect the request is addressed to the new server: whatever Host the first request
    carried, the redirected request leaves the bridge with exactly the Host of the redirect's target;
    across origins it carries no credential header, and it is framed by the body it now has. *)
Theorem redirect_addressed_to_target r mode status uri t proxy q strict random q' tr :
  into_redirect_request (capture r mode) status uri t proxy = Ok (Some q) →
  normalize_request strict random q = Ok (q', tr) → ext_websocket (req_extensions r) = None →
  ∃ expected same, synthesized_host_header uri = Ok expected ∧ same_origin (req_uri r) uri = Ok same ∧
    hm_get_all "host" (req_headers q') = [expected] ∧
    (same = false → ∀ name, name ∈ SENSITIVE_HEADERS → hm_get_all name (req_headers q') = []) ∧
    (hm_get_all "content-length" (req_headers q'), hm_get_all "transfer-encoding" (req_headers q')) =
      framing (req_version q') (req_body q).
Proof.
  intros (_ & same & Hsame & Hu & _ & _ & _ & Hh & Hx)%into_redirect_request_Ok Hn Hws.
  apply normalize_request_inv in Hn as (r1 & r2 & Hr1 & Hr2 & Hc).
  assert (ext_websocket (req_extensions q) = None) as Hq.
  { rewrite Hx. by destruct proxy. }
  rewrite Hq in Hr1. injection Hr1 as <-.
  destruct (normalized_from _ _ _ _ _ Hr2 Hc) as ((_ & _ & _ & _ & Hb) & Hf & Hk).
  apply normalize_host_header_ok in Hr2 as (_ & expected & He & Hhost & _).
  assert (Hq0 : hm_get_all "host" (req_headers q) = []) by by rewrite Hh.
  exists expected, same. split_and!; [by rewrite <- Hu|done| | |by rewrite Hf, Hb].
  - rewrite Hk by not_listed.
    rewrite Hhost, Hq0. done.
  - intros -> name Hname.
    assert (name ∉ ["content-length"; "transfer-encoding"; "user-agent"; "accept-encoding"]%string ∧ name ≠ "host"%string) as [Hni Hnh].
    { revert name Hname. apply Forall_forall, (bool_decide_unpack _). by vm_compute. }
    rewrite Hk, Hhost by done. rewrite bool_decide_false by done. cbn [andb]. rewrite Hh.
    unfold redirect_drops. rewrite (bool_decide_true (name ∈ SENSITIVE_HEADERS)) by done. by rewrite orb_true_r.
Qed.

(** What the steps before Accept-Encoding leave alone. *)
Lemma before_compression strict r1 r2 :
  normalize_host_header strict r1 = Ok r2 →
  let r4 := normalize_body_headers (normalize_user_agent_header r2) in
  req_extensions r4 = req_extensions r1 ∧
  ∀ k, k ∉ ["host"; "user-agent"; "content-length"; "transfer-encoding"]%string →
    hm_get_all k (req_headers r4) = hm_get_all k (req_headers r1).
Proof.
  intros (H12 & expected & _ & Hhost & _)%normalize_host_header_ok.
  destruct (normalize_user_agent_ok r2) as [H23 Hua].
  destruct (normalize_body_headers_ok (normalize_user_agent_header r2)) as (H34 & _ & Hbh). split.
  - destruct H12 as (_ & _ & _ & <- & _), H23 as (_ & _ & _ & <- & _). by destruct H34 as (_ & _ & _ & <- & _).
  - intros k Hk. rewrite !not_elem_of_cons in Hk. destruct Hk as (? & ? & ? & ? & _).
    rewrite Hbh by not_listed. rewrite Hua by done. rewrite Hhost. by rewrite bool_decide_false.
Qed.

(** A response is decoded behind the caller's back only if the caller did not ask for a coding or a
    range itself: a decoded body implies that the request had no Accept-Encoding, no Range and no
    WebSocket mark, that Accept-Encoding was sent, and that the response can have a body; the response
    then no longer carries Content-Encoding or Content-Length. *)
Theorem decoded_only_when_not_asked {R} `{BufRead R} (decode_layer : ResponseEncoding → R → R) strict mx random next r status h d :
  bridge_intercept decode_layer strict mx random next r = Ok (status, h, inr d) →
  hm_get_all "accept-encoding" (req_headers r) = [] ∧ hm_get_all "range" (req_headers r) = [] ∧
  ext_websocket (req_extensions r) = None ∧
  (∃ sent h0 body, next sent = Ok (status, h0, body) ∧
     hm_get_all "accept-encoding" (req_headers sent) = ["br, gzip, deflate, zstd"%string]) ∧
  response_can_have_body (req_method r) status = true ∧
  hm_get_all "content-encoding" h = [] ∧ hm_get_all "content-length" h = [].
Proof.
  intros ([sent tr] & Hn & Hr)%obind_Ok. apply obind_Ok in Hr as ([[st h0] body] & Hnext & Hr).
  destruct tr; [|done]. destruct (decode_response _ _ _ _ _ _ _) as [h' b'] eqn:Hd. injection Hr as -> -> ->.
  assert (Hresp : response_can_have_body (req_method r) status = true ∧ hm_get_all "content-encoding" h = [] ∧
                  hm_get_all "content-length" h = []).
  { unfold decode_response in Hd. destruct (response_can_have_body _ _); [|done]. cbn [negb] in Hd.
    destruct (supported_content_encodings _ _) as [[|e es]|]; [done| |done]. injection Hd as <- _.
    split_and!; [done| |apply hm_remove_eq]. rewrite hm_get_all_remove, hm_remove_eq. by case_bool_decide. }
  apply normalize_request_inv in Hn as (r1 & r2 & Hr1 & Hr2 & Hc).
  pose proof (compression_normalize_ok _ _ _ Hc) as (_ & _ & Ht).
  destruct (before_compression _ _ _ Hr2) as [Hx Hkeep]. set (r4 := normalize_body_headers _) in *.
  symmetry in Ht. apply negb_true_iff in Ht. unfold should_skip_transparent_compression in Ht.
  apply orb_false_iff in Ht as [Hws [Hae Hra]%orb_false_iff].
  assert (Hnil : ∀ k, hm_contains k (req_headers r4) = false → hm_get_all k (req_headers r4) = []).
  { intros k. unfold hm_contains. rewrite negb_false_iff. apply bool_decide_eq_true_1. }
  assert (ext_websocket (req_extensions r) = None ∧ r1 = r) as [Hw ->].
  { rewrite Hx in Hws. destruct (ext_websocket (req_extensions r)) as [m|] eqn:Hm; cbn in Hr1; [|by injection Hr1 as ->].
    exfalso. revert Hws. clear - Hr1 Hm. unfold inject_handshake in Hr1. rewrite Hm in Hr1.
    repeat (apply obind_Ok in Hr1 as (? & _ & Hr1)). injection Hr1 as <-. done. }
  destruct Hresp as (Hbody & Hce & Hcl). split_and!; [| |done| |done..].
  - rewrite <- Hkeep by not_listed. by apply Hnil.
  - rewrite <- Hkeep by not_listed. by apply Hnil.
  - exists sent, h0, body. split; [done|]. unfold compression_normalize_request in Hc.
    destruct (should_skip_transparent_compression r4); [done|]. cbn in Hc. injection Hc as <-. cbn. apply hm_insert_eq.
Qed.
End Bridge.

(** ** A concrete bridge *)

Module BridgeDemo.
Abbreviation Headers := (list (string * string)).
Definition uri (host : string) : Uri := mkUri (Some "https") (Some (host +:+ ":8443")) (Some host) (Some 8443) "/".
Definition request : Request Headers :=
  mkRequest Method_GET (uri "a.test") "HTTP/1.1" [("host", "old"); ("content-length", "9"); ("authorization", "k")]
    no_extensions (Body_Bytes [1; 2; 3]).
Definition target : Uri := uri "b.test".
Definition trace : PolicyTraceContext := mkTrace 0 1 0.
Definition redirected : Request Headers :=
  match into_redirect_request (capture request Capture_Rebuildable) TEMPORARY_REDIRECT target trace None with
  | Ok (Some q) => q | _ => request end.
Definition normalize (r : Request Headers) : outcome WireError (Request Headers * bool) :=
  normalize_request (λ s, s) (λ s, s) (λ s, s) Some (λ s, s) (λ _, None) inr false (inr "nonce") r.
Definition sent (r : Request Headers) : Request Headers := match normalize r with Ok (q, _) => q | _ => r end.
Definition next (r : Request Headers) : outcome WireError (Z * Headers * bytes) :=
  Ok (STATUS_OK, [("content-encoding", "gzip"); ("content-length", "4")], [7; 1; 2; 3]).

Example bridged_headers :
  req_headers (sent redirected) =
  [("accept-encoding", "br, gzip, deflate, zstd"); ("content-length", "3"); ("user-agent", "openwire/0.1.2"); ("host", "b.test:8443")].
Proof. vm_compute. reflexivity. Qed.
End BridgeDemo.

Lemma request_framed_by_body_witness :
  hm_get_all "content-length" (req_headers (BridgeDemo.sent BridgeDemo.request)) = ["3"%string].
Proof.
  destruct (request_framed_by_body (λ s, s) (λ s, s) (λ s, s) Some (λ s, s) (λ _, None) inr false (inr "nonce"%string)
              BridgeDemo.request (BridgeDemo.sent BridgeDemo.request) true) as [_ Hf].
  - vm_compute. reflexivity.
  - exact (f_equal fst Hf).
Defined.

Lemma host_header_matches_witness :
  hm_get_all "host" (req_headers (BridgeDemo.sent BridgeDemo.request)) = ["old"%string].
Proof.
  destruct (host_header_matches (λ s, s) (λ s, s) (λ s, s) Some (λ s, s) (λ _, None) inr false (inr "nonce"%string)
              BridgeDemo.request (BridgeDemo.sent BridgeDemo.request) true) as (e & _ & -> & _).
  - vm_compute. reflexivity.
  - reflexivity.
Defined.

Lemma redirect_addressed_to_target_witness :
  ∃ expected, synthesized_host_header (λ _, None) BridgeDemo.target = Ok expected ∧
    hm_get_all "host" (req_headers (BridgeDemo.sent BridgeDemo.redirected)) = [expected].
Proof.
  destruct (redirect_addressed_to_target (λ s, s) (λ s, s) (λ s, s) Some (λ s, s) (λ _, None) inr BridgeDemo.request
              Capture_Rebuildable TEMPORARY_REDIRECT BridgeDemo.target BridgeDemo.trace None BridgeDemo.redirected false
              (inr "nonce"%string) (BridgeDemo.sent BridgeDemo.redirected) true)
    as (e & same & He & _ & Hh & _).
  - vm_compute. reflexivity.
  - vm_compute. reflexivity.
  - reflexivity.
  - by exists e.
Defined.

Lemma decoded_only_when_not_asked_witness :
  let out := bridge_intercept (λ s, s) (λ s, s) (λ s, s) Some (λ s, s) (λ _, None) inr (λ _ l, tail l) false 10
               (inr "nonce"%string) BridgeDemo.next BridgeDemo.request in
  match out with Ok (_, h, inr _) => hm_get_all "content-encoding" h = [] | _ => False end.
Proof.
  intros out. destruct out as [[[status h] [b|d]]| |] eqn:E; try (vm_compute in E; discriminate).
  by apply (decoded_only_when_not_asked (λ s, s) (λ s, s) (λ s, s) Some (λ s, s) (λ _, None) inr (λ _ l, tail l) false 10
              (inr "nonce"%string) BridgeDemo.next BridgeDemo.request status h d).
Defined.
