(* ===== verification/WsCall.v ===== *)
(** * Opening a WebSocket

    openwire/src/websocket/transport.rs: a WebSocket call from its configuration to the running session -
    the checks before anything is reported, the address, the connection and the handshake under their timeouts, the
    reports to the listener - with [bind_websocket_handshake] of openwire/src/transport/protocol.rs.

    It composes the bridge (Bridge, WsHandshake), the addresses (Planning), the deadline of a context (Calls) and the
    session (WsWriter).  The proxy selector, the connector stack, hyper and the engine are parameters: functions
    to what they answer and how long they take. *)

From stdpp Require Import pretty.
From S2P Require Import Prelude Net Error Http WsCodec WsSession WsEngine Proxy Planning Policy Request FollowUp Calls WsHandshake WsWriter Compression Bridge.

(** [DEFAULT_HANDSHAKE_TIMEOUT] and the other defaults, openwire/websocket/transport.rs:26-30. *)
Definition DEFAULT_HANDSHAKE_TIMEOUT : Duration := from_secs 30.
Definition DEFAULT_CLOSE_TIMEOUT : Duration := from_secs 10.
Definition DEFAULT_MAX_FRAME_SIZE : Z := 16 * 1024 * 1024.
Definition DEFAULT_MAX_MESSAGE_SIZE : Z := 16 * 1024 * 1024.
Definition DEFAULT_SEND_QUEUE_SIZE : Z := 32.

(** [HeartbeatConfig], openwire/websocket/writer.rs:548-552. *)
Record HeartbeatConfig : Type := mkHeartbeat { hb_interval : Duration; hb_pong_timeout : Duration }.

(** [Duration::MAX] and [Duration::checked_mul] by two. *)
Definition DURATION_MAX : Duration := U64_MAX * 1000000000 + 999999999.
Definition checked_double (d : Duration) : option Duration := if 2 * d <=? DURATION_MAX then Some (2 * d) else None.

(** [invalid_runtime_config], openwire/websocket/transport.rs:210-212. *)
Definition invalid_runtime_config (message : string) : WireError := invalid_request message.

(** [validate_runtime_config], openwire/websocket/transport.rs:170-208. *)
Definition validate_runtime_config (send_queue_size : Z) (ping_interval pong_timeout : option Duration)
    : outcome WireError (option HeartbeatConfig) :=
  if send_queue_size =? 0 then Err (invalid_runtime_config "WebSocket send_queue_size must be greater than 0") else
  match ping_interval with
  | None => Ok None
  | Some interval =>
    if interval =? 0 then Err (invalid_runtime_config "WebSocket ping_interval must be greater than 0") else
    let? pong_timeout :=
      match pong_timeout with
      | Some timeout =>
        if timeout =? 0
        then Err (invalid_runtime_config "WebSocket pong_timeout must be greater than 0 when ping_interval is enabled")
        else Ok timeout
      | None =>
        match checked_double interval with
        | Some timeout => Ok timeout
        | None => Err (invalid_runtime_config "WebSocket pong_timeout default would overflow for the configured ping_interval")
        end
      end in
    Ok (Some (mkHeartbeat interval pong_timeout))
  end.

(** [tokio::time::timeout]: the future comes first when both are ready. *)
Definition with_timeout {A} (limit : Duration) (f : Duration * A) : Duration * option A :=
  if f.1 <=? limit then (f.1, Some f.2) else (limit, None).

(** [await] followed by [?] in a future that takes time. *)
Definition and_then {E A B} (m : Duration * outcome E A) (k : A → Duration * outcome E B) : Duration * outcome E B :=
  match m.2 with
  | Ok a => let r := k a in (m.1 + r.1, r.2)
  | Err e => (m.1, Err e)
  | Panic => (m.1, Panic)
  end.

Definition map_err {E F A} (f : E → F) (m : outcome E A) : outcome F A :=
  match m with Ok a => Ok a | Err e => Err (f e) | Panic => Panic end.

(** [From<WireError> for WebSocketError], openwire-core/websocket/error.rs:86-90. *)
Definition ws_error_from (e : WireError) : WebSocketError := WsErr_Io e.

Section Call.
#[local] Set Default Proof Using "Type*".
Context {H : Type} `{HeaderMapLaws H}.
Context (sha1 base64 debug : string → string) (to_str : string → option string) (to_str_error : string → string)
        (header_error : string → option string) (from_parts : Uri → string + Uri) (error_text : WebSocketError → string).

(** [WebSocketCall], openwire/client.rs:806-820, less the client and the engine. *)
Record WebSocketCall : Type := mkWsCall {
  wc_request : Request H;
  wc_handshake_timeout : option Duration;
  wc_close_timeout : option Duration;
  wc_max_frame_size : option Z;
  wc_max_message_size : option Z;
  wc_send_queue_size : option Z;
  wc_ping_interval : option Duration;
  wc_pong_timeout : option Duration;
  wc_subprotocols : list string;
  wc_deliver_control_frames : bool;
}.

(** [new_websocket], openwire/client.rs:772-788. *)
Definition new_websocket (r : Request H) : WebSocketCall := mkWsCall r None None None None None None None [] false.

(** [WebSocketHandshake], openwire-core/websocket/handshake_info.rs:6-12. *)
Record WebSocketHandshake : Type := mkHandshake {
  wh_status : Z;
  wh_headers : H;
  wh_subprotocol : option string;
  wh_extensions : list string;
}.

(** What the listener is told; after the opening, what the session tells it. *)
Inductive WsEvent : Type :=
| Ws_CallStart
| Ws_ProxySelectStart (uri : Uri)
| Ws_ProxySelectEnd (uri : Uri) (selection : ProxySelection)
| Ws_Open (h : WebSocketHandshake)
| Ws_Report (e : Event).

(** What is outside: the proxy selector; the connector stack (the routes of an address and the race over them); the
    HTTP/1 handshake, the answer to the request and the upgraded connection of hyper; the engine. *)
Record Outside (Io Sender Up Channel : Type) : Type := mkOutside {
  o_select : Uri → outcome WireError ProxySelection;
  o_connect : Address → Uri → Duration * outcome WireError Io;
  o_http1 : Io → Duration * outcome string Sender;
  o_send : Sender → Request H → Duration * outcome WireError (Response H);
  o_upgraded : Sender → Duration * outcome WireError Up;
  o_engine : Up → WebSocketEngineConfig → Duration * outcome WebSocketEngineError Channel;
}.
Arguments o_select {Io Sender Up Channel}. Arguments o_connect {Io Sender Up Channel}. Arguments o_http1 {Io Sender Up Channel}.
Arguments o_send {Io Sender Up Channel}. Arguments o_upgraded {Io Sender Up Channel}. Arguments o_engine {Io Sender Up Channel}.

Context {Io Sender Up Channel : Type} (net : Outside Io Sender Up Channel).

(** [fail_before_open], openwire/websocket/transport.rs:214-219: what the listener is told; the error is returned. *)
Definition fail_before_open (e : WebSocketError) : list WsEvent :=
  [Ws_Report (Ev_Failed e); Ws_Report (Ev_CallFailed (websocket_error_as_wire_error error_text e))].

(** [build_address], openwire/websocket/transport.rs:257-271. *)
Definition build_address (uri : Uri) : outcome WireError Address * list WsEvent :=
  match o_select net uri with
  | Ok selection =>
    let selected_proxy := head (omap candidate_of (choices selection)) in
    (from_uri uri selected_proxy, [Ws_ProxySelectStart uri; Ws_ProxySelectEnd uri selection])
  | Err e => (Err e, [Ws_ProxySelectStart uri])
  | Panic => (Panic, [Ws_ProxySelectStart uri])
  end.

(** [bind_websocket_handshake], openwire/transport/protocol.rs:88-117. *)
Definition bind_websocket_handshake (io : Io) (r : Request H) : Duration * outcome WireError (Response H * option Up) :=
  let hs := o_http1 net io in
  and_then (hs.1, map_err (protocol_binding "HTTP/1.1 client handshake failed") hs.2) (λ send,
  and_then (o_send net send r) (λ response,
  if res_status response =? SWITCHING_PROTOCOLS then
    and_then (o_upgraded net send) (λ upgraded, (0, Ok (response, Some upgraded)))
  else (0, Ok (response, None)))).

(** [run_handshake], openwire/websocket/transport.rs:221-255. *)
Definition run_handshake (io : Io) (r : Request H) (expected_accept : string) (offered : list string) (max_frame_size max_message_size : Z)
    : Duration * outcome WebSocketError (Response H * Channel * ValidatedHandshake) :=
  let bound := bind_websocket_handshake io r in
  and_then (bound.1, map_err ws_error_from bound.2) (λ '(response, upgraded),
  and_then (0, map_err (WsErr_Handshake (Some (res_status response))) (validate_handshake_response to_str response expected_accept offered)) (λ validated,
  and_then (0, match upgraded with
               | Some up => Ok up
               | None => Err (WsErr_Handshake (Some (res_status response))
                           (HandshakeFailure_Other "server returned 101 without an upgradable connection"))
               end) (λ up,
  let cfg := mkWebSocketEngineConfig Client (vh_subprotocol validated) (vh_extensions validated) max_frame_size max_message_size in
  let channel := o_engine net up cfg in
  and_then (channel.1, map_err WsErr_Engine channel.2) (λ channel, (0, Ok (response, channel, validated)))))).

(** An open WebSocket: its channel, its handshake and the configuration of its session. *)
Record WebSocket : Type := mkWebSocket {
  ws_channel : Channel;
  ws_handshake : WebSocketHandshake;
  ws_queue_size : Z;
  ws_deliver : bool;
  ws_close_timeout : Duration;
  ws_heartbeat : option HeartbeatConfig;
}.

(** How a call went: what it returned, what the listener was told, how long it took, and the request that was handed
    to the connection, if it got there, with the answer. *)
Record Opening : Type := mkOpening {
  op_result : outcome WebSocketError WebSocket;
  op_events : list WsEvent;
  op_elapsed : Duration;
  op_sent : option (Request H);
}.

Definition refused (r : outcome WebSocketError WebSocket) : Opening := mkOpening r [] 0 None.
Definition failed (e : WebSocketError) (events : list WsEvent) (elapsed : Duration) (sent : option (Request H)) : Opening :=
  mkOpening (Err e) (events ++ fail_before_open e) elapsed sent.
Definition panicked (events : list WsEvent) (elapsed : Duration) (sent : option (Request H)) : Opening :=
  mkOpening Panic events elapsed sent.

(** [request.extensions_mut().insert(WebSocketRequestMarker::new(subprotocols))]. *)
Definition mark_websocket (protocols : list string) (r : Request H) : Request H :=
  let e := req_extensions r in
  mkRequest (req_method r) (req_uri r) (req_version r) (req_headers r)
    (mkExtensions (ext_config e) (ext_options e) (ext_trace e) (ext_cached_addresses e) (ext_selected_proxy e)
       (ext_dispatcher_queued e) (ext_no_coalesced e) (Some (marker_new protocols)) (ext_alpn e) (ext_route e))
    (req_body r).

(** The end of [execute], openwire/websocket/transport.rs:139-168: the handshake answered, the session starts. *)
Definition open_session (call : WebSocketCall) (heartbeat : option HeartbeatConfig) (response : Response H) (channel : Channel)
    (validated : ValidatedHandshake) : WebSocket :=
  mkWebSocket channel
    (mkHandshake (res_status response) (res_headers response) (vh_subprotocol validated) (vh_extensions validated))
    (default DEFAULT_SEND_QUEUE_SIZE (wc_send_queue_size call)) (wc_deliver_control_frames call)
    (default DEFAULT_CLOSE_TIMEOUT (wc_close_timeout call)) heartbeat.

(** The connection and the handshake of [execute], openwire/websocket/transport.rs:80-168, once the call is reported. *)
Definition connect_and_open (call : WebSocketCall) (heartbeat : option HeartbeatConfig) (r : Request H) (expected_accept : string) : Opening :=
  let handshake_timeout := default DEFAULT_HANDSHAKE_TIMEOUT (wc_handshake_timeout call) in
  let '(address, events) := build_address (req_uri r) in
  let events := Ws_CallStart :: events in
  let '(d1, connected) := with_timeout handshake_timeout (and_then (0, address) (λ a, o_connect net a (req_uri r))) in
  match connected with
  | None => failed (WsErr_Timeout TimeoutKind_Handshake) events d1 None
  | Some (Err e) => failed (ws_error_from e) events d1 None
  | Some Panic => panicked events d1 None
  | Some (Ok io) =>
    let '(d2, shaken) := with_timeout handshake_timeout
      (run_handshake io r expected_accept (wc_subprotocols call)
         (default DEFAULT_MAX_FRAME_SIZE (wc_max_frame_size call)) (default DEFAULT_MAX_MESSAGE_SIZE (wc_max_message_size call))) in
    match shaken with
    | None => failed (WsErr_Timeout TimeoutKind_Handshake) events (d1 + d2) (Some r)
    | Some (Err e) => failed e events (d1 + d2) (Some r)
    | Some Panic => panicked events (d1 + d2) (Some r)
    | Some (Ok (response, channel, validated)) =>
      let ws := open_session call heartbeat response channel validated in
      mkOpening (Ok ws) (events ++ [Ws_Open (ws_handshake ws)]) (d1 + d2) (Some r)
    end
  end.

(** [execute], openwire/websocket/transport.rs:32-168. *)
Definition ws_execute (now : Instant) (random : string + string) (call : WebSocketCall) : Opening :=
  let handshake_timeout := default DEFAULT_HANDSHAKE_TIMEOUT (wc_handshake_timeout call) in
  let send_queue_size := default DEFAULT_SEND_QUEUE_SIZE (wc_send_queue_size call) in
  match validate_runtime_config send_queue_size (wc_ping_interval call) (wc_pong_timeout call) with
  | Err e => refused (Err (ws_error_from e))
  | Panic => refused Panic
  | Ok heartbeat =>
    match normalize_request sha1 base64 debug to_str to_str_error header_error from_parts false random
            (mark_websocket (wc_subprotocols call) (wc_request call)) with
    | Err e => refused (Err (ws_error_from e))
    | Panic => refused Panic
    | Ok (r, _) =>
      match ext_websocket (req_extensions r) with
      | None => refused (Err (WsErr_Io (internal "WebSocketRequestMarker missing after bridge normalization" "missing marker")))
      | Some marker =>
        match context_deadline now (Some handshake_timeout) with
        | Ok _ => connect_and_open call heartbeat r (expected_accept marker)
        | Err e => refused (Err (ws_error_from e))
        | Panic => refused Panic
        end
      end
    end
  end.
(** ** What opens *)

Lemma and_then_Ok {E A B} (m : Duration * outcome E A) (k : A → Duration * outcome E B) b :
  (and_then m k).2 = Ok b ↔ ∃ a, m.2 = Ok a ∧ (k a).2 = Ok b.
Proof. unfold and_then. destruct (m.2) as [a|e|]; simpl; (split; [|intros (?&?&?); congruence]); [eauto|done..]. Qed.

Lemma map_err_Ok {E F A} (f : E → F) (m : outcome E A) a : map_err f m = Ok a ↔ m = Ok a.
Proof. destruct m; simpl; split; congruence. Qed.

Lemma with_timeout_Some {A} limit (f : Duration * A) d a : with_timeout limit f = (d, Some a) → d ≤ limit ∧ f = (d, a).
Proof. destruct f as [d' a']. unfold with_timeout. simpl. destruct (Z.leb_spec d' limit); [|done]. intros [= <- <-]. done. Qed.

(** A heartbeat is configured exactly with a ping interval, and then both its times are positive. *)
Lemma validate_runtime_config_ok q ping pong hb :
  validate_runtime_config q ping pong = Ok hb ↔
  q ≠ 0 ∧
  match ping with
  | None => hb = None
  | Some i => i ≠ 0 ∧ pong ≠ Some 0 ∧ (pong = None → 2 * i ≤ DURATION_MAX) ∧ hb = Some (mkHeartbeat i (default (2 * i) pong))
  end.
Proof.
  unfold validate_runtime_config, checked_double. destruct (Z.eqb_spec q 0) as [->|Hq]; [by split; [|intros [? _]]|].
  destruct ping as [i|]; [|by split; [intros [= <-]|intros [_ ->]]].
  destruct (Z.eqb_spec i 0) as [->|Hi]; [by split; [|intros (_ & ? & _)]|].
  destruct pong as [p|]; simpl.
  - destruct (Z.eqb_spec p 0) as [->|Hp]; simpl; [by split; [|intros (_ & _ & ? & _)]|].
    split; [intros [= <-]; split_and!; congruence|by intros (_ & _ & _ & _ & ->)].
  - destruct (Z.leb_spec (2 * i) DURATION_MAX) as [Hle|Hgt]; simpl.
    + split; [by intros [= <-]|by intros (_ & _ & _ & _ & ->)].
    + split; [done|]. intros (_ & _ & _ & Hle & _). specialize (Hle eq_refl). lia.
Qed.

(** What a successful handshake went through. *)
Lemma run_handshake_Ok io r accept offered mf mm response channel validated :
  (run_handshake io r accept offered mf mm).2 = Ok (response, channel, validated) →
  (∃ send d, (o_http1 net io).2 = Ok send ∧ o_send net send r = (d, Ok response)) ∧
  validate_handshake_response to_str response accept offered = Ok validated.
Proof.
  unfold run_handshake, bind_websocket_handshake.
  intros ([res up] & Hb & Hk)%and_then_Ok. apply and_then_Ok in Hk as (v & Hv & Hk). apply and_then_Ok in Hk as (u & _ & Hk).
  apply and_then_Ok in Hk as (c & _ & [= -> -> ->]). cbn in Hb, Hv. apply map_err_Ok in Hb, Hv. split; [|done].
  apply and_then_Ok in Hb as (send & Hs & Hb). apply and_then_Ok in Hb as (res & Hr & Hb). cbn in Hs. apply map_err_Ok in Hs.
  exists send, (o_send net send r).1. split; [done|].
  assert (res = response) as -> by (destruct (_ =? _); [apply and_then_Ok in Hb as (? & _ & [= -> _])|injection Hb as -> _]; done).
  rewrite <-Hr. by destruct (o_send net send r).
Qed.

(** The native engine takes over every connection whose handshake was accepted. *)
Lemma native_engine_accepts response accept offered validated mf mm :
  validate_handshake_response to_str response accept offered = Ok validated →
  ∃ sink stream, upgrade (mkWebSocketEngineConfig Client (vh_subprotocol validated) (vh_extensions validated) mf mm) = Ok (sink, stream).
Proof. intros (_ & _ & _ & _ & _ & _ & He)%handshake_accepted_iff. unfold upgrade. cbn. rewrite He. eauto. Qed.

(** What was sent, when a call got as far as sending. *)
Lemma ws_execute_sent now random call r :
  op_sent (ws_execute now random call) = Some r →
  ∃ hb t m, validate_runtime_config (default DEFAULT_SEND_QUEUE_SIZE (wc_send_queue_size call)) (wc_ping_interval call) (wc_pong_timeout call) = Ok hb ∧
    normalize_request sha1 base64 debug to_str to_str_error header_error from_parts false random
      (mark_websocket (wc_subprotocols call) (wc_request call)) = Ok (r, t) ∧
    ext_websocket (req_extensions r) = Some m ∧
    ws_execute now random call = connect_and_open call hb r (expected_accept m).
Proof.
  unfold ws_execute. destruct (validate_runtime_config _ _ _) as [hb| |]; [|done..].
  destruct (normalize_request _ _ _ _ _ _ _ _ _ _) as [[r0 t]| |]; [|done..].
  destruct (ext_websocket (req_extensions r0)) as [m|] eqn:Em; [|done]. destruct (context_deadline _ _); [|done..].
  intros Hs. assert (r0 = r) as ->.
  { unfold connect_and_open in Hs. destruct (build_address _) as [ad evs]. destruct (with_timeout _ _) as [d1 [[io|e|]|]]; try done.
    destruct (with_timeout _ _) as [d2 [[[[res ch] v]|e|]|]]; cbn in Hs; congruence. }
  by exists hb, t, m.
Qed.

(** The key in the request and the answer the marker expects belong together. *)
Lemma normalized_key random r0 r t m m' :
  from_parts_keeps from_parts → ext_websocket (req_extensions r0) = Some m →
  normalize_request sha1 base64 debug to_str to_str_error header_error from_parts false random r0 = Ok (r, t) →
  ext_websocket (req_extensions r) = Some m' →
  ∃ bs, random = inr bs ∧ may_handshake base64 header_error m bs r0 ∧
    hm_get_all "sec-websocket-key" (req_headers r) = [base64 bs] ∧
    http_uri (req_uri r0) = Some (req_uri r) ∧
    expected_accept m' = base64 (sha1 (base64 bs +:+ HANDSHAKE_MAGIC)).
Proof.
  intros Hfp Hm Hn Hm'. apply normalize_request_inv in Hn as (r1 & r2 & Hi & Hh & Hc). rewrite Hm in Hi. cbn in Hi.
  apply (inject_handshake_ok sha1 base64 debug header_error from_parts m) in Hi as (bs & -> & Hmay & ->); [|done..].
  destruct (normalized_from _ _ _ _ _ _ _ _ _ Hh Hc) as ((_ & Hu & _ & He & _) & _ & Hk).
  exists bs. split_and!; [done|done| | |].
  - rewrite Hk by not_listed. apply normalize_host_header_ok in Hh as (_ & e & _ & Hall & _). rewrite Hall. cbn [req_headers handshake_request].
    rewrite bool_decide_false by done. cbn [andb]. destruct (subprotocols m); rewrite !hm_get_all_insert; done.
  - rewrite Hu. destruct Hmay as [_ _ _ [u Hu'] _ _]. cbn. by rewrite Hu'.
  - rewrite He in Hm'. cbn in Hm'. by injection Hm' as <-.
Qed.

Lemma connect_and_open_Ok call hb r accept ws :
  op_result (connect_and_open call hb r accept) = Ok ws →
  op_sent (connect_and_open call hb r accept) = Some r ∧
  ∃ response channel validated send d,
    o_send net send r = (d, Ok response) ∧
    validate_handshake_response to_str response accept (wc_subprotocols call) = Ok validated ∧
    ws = open_session call hb response channel validated.
Proof.
  unfold connect_and_open. destruct (build_address _) as [ad evs].
  destruct (with_timeout _ _) as [d1 [[io|e|]|]]; [|done..].
  destruct (with_timeout _ _) as [d2 [[[[res ch] v]|e|]|]] eqn:Ew; [|done..].
  cbn. intros [= <-]. split; [done|]. apply with_timeout_Some in Ew as [_ Ew].
  assert (Hr : (run_handshake io r accept (wc_subprotocols call) (default DEFAULT_MAX_FRAME_SIZE (wc_max_frame_size call))
                  (default DEFAULT_MAX_MESSAGE_SIZE (wc_max_message_size call))).2 = Ok (res, ch, v)) by by rewrite Ew.
  apply run_handshake_Ok in Hr as [(send & d & _ & Hs) Hv]. by exists res, ch, v, send, d.
Qed.

(** C36.  A WebSocket opens only on the answer to its own request: when a call succeeds, the request that was sent
    went to the http form of the caller's address with exactly one key, made from the call's random bytes; the server answered
    that very request with status 101, the upgrade headers and the digest of that key; the subprotocol
    reported is one the caller offered, or none; and the session starts with the caller's settings or their defaults: a
    queue that holds something, the close timeout, control frames delivered or not, and a heartbeat if and only if a ping
    interval was set - at that interval, with the caller's pong timeout or twice the interval, neither of them zero and the
    doubling within what a Duration holds. *)
Theorem ws_call_opens now random call ws :
  from_parts_keeps from_parts → op_result (ws_execute now random call) = Ok ws →
  ∃ r bs response send d,
    random = inr bs ∧ op_sent (ws_execute now random call) = Some r ∧
    http_uri (req_uri (wc_request call)) = Some (req_uri r) ∧
    hm_get_all "sec-websocket-key" (req_headers r) = [base64 bs] ∧
    o_send net send r = (d, Ok response) ∧ res_status response = SWITCHING_PROTOCOLS ∧
    lists_token to_str "upgrade" "websocket" (res_headers response) ∧
    lists_token to_str "connection" "upgrade" (res_headers response) ∧
    (∃ value, hm_get_all "sec-websocket-accept" (res_headers response) = [value] ∧
       to_str value = Some (base64 (sha1 (base64 bs +:+ HANDSHAKE_MAGIC)))) ∧
    chosen to_str (res_headers response) (wc_subprotocols call) (wh_subprotocol (ws_handshake ws)) ∧
    wh_status (ws_handshake ws) = res_status response ∧ wh_headers (ws_handshake ws) = res_headers response ∧
    ws_queue_size ws = default DEFAULT_SEND_QUEUE_SIZE (wc_send_queue_size call) ∧ ws_queue_size ws ≠ 0 ∧
    ws_close_timeout ws = default DEFAULT_CLOSE_TIMEOUT (wc_close_timeout call) ∧ ws_deliver ws = wc_deliver_control_frames call ∧
    ws_heartbeat ws = (λ i, mkHeartbeat i (default (2 * i) (wc_pong_timeout call))) <$> wc_ping_interval call ∧
    (∀ hb, ws_heartbeat ws = Some hb → hb_interval hb ≠ 0 ∧ hb_pong_timeout hb ≠ 0 ∧
       (wc_pong_timeout call = None → hb_pong_timeout hb ≤ DURATION_MAX)).
Proof.
  intros Hfp Hok.
  assert (Hsent : ∃ r, op_sent (ws_execute now random call) = Some r).
  { unfold ws_execute in *. destruct (validate_runtime_config _ _ _); [|done..].
    destruct (normalize_request _ _ _ _ _ _ _ _ _ _) as [[r0 t]| |]; [|done..].
    destruct (ext_websocket _); [|done]. destruct (context_deadline _ _); [|done..].
    apply connect_and_open_Ok in Hok as [Hs _]. eauto. }
  destruct Hsent as [r Hsent]. pose proof Hsent as Hs. apply ws_execute_sent in Hs as (hb & t & m & Hcfg & Hn & Hm & Hex).
  rewrite Hex in Hok. apply connect_and_open_Ok in Hok as [_ (response & channel & v & send & d & Hsend & Hv & ->)].
  eapply normalized_key in Hn as (bs & -> & _ & Hkey & Hu & Hacc); [|done|reflexivity|exact Hm].
  rewrite handshake_accepted_iff, Hacc in Hv. destruct Hv as (H1' & H2' & H3' & H4' & H5' & _).
  apply validate_runtime_config_ok in Hcfg as [Hq Hhb].
  exists r, bs, response, send, d. cbn [open_session ws_heartbeat].
  destruct (wc_ping_interval call) as [i|]; [|subst hb; by split_and!]. destruct Hhb as (Hi & Hp & Hd & ->).
  split_and!; try done. intros h [= <-]. cbn. split_and!; [done| |intros Hn; rewrite Hn; by apply Hd].
  destruct (wc_pong_timeout call); cbn; [congruence|lia].
Qed.

(** ** What is reported *)

Definition is_call_end (e : WsEvent) : bool := match e with Ws_Report e => is_terminal e | _ => false end.
Definition call_ends (evs : list WsEvent) : Z := len (filter (λ e, is_call_end e = true) evs).

(** All the listener is told about a call: by its opening, then by its session. *)
Definition whole_call (o : Opening) (σ : Session) : list WsEvent := op_events o ++ (Ws_Report <$> lg_events (sh_log (ss_sh σ))).

Lemma call_ends_app a b : call_ends (a ++ b) = call_ends a + call_ends b.
Proof. unfold call_ends. by rewrite filter_app, len_app. Qed.

Lemma call_ends_reports (s : Shared) : call_ends (Ws_Report <$> lg_events (sh_log s)) = count is_terminal s.
Proof.
  unfold call_ends, count. induction (lg_events (sh_log s)) as [|e l IH]; [done|]. rewrite fmap_cons, !filter_cons.
  repeat case_decide; try done; rewrite ?len_cons; by rewrite IH.
Qed.

Lemma build_address_events uri : call_ends (build_address uri).2 = 0.
Proof. unfold build_address. by destruct (o_select net uri). Qed.

Lemma connect_and_open_events call hb r accept :
  let o := connect_and_open call hb r accept in
  ∃ evs, call_ends evs = 0 ∧ op_events o = Ws_CallStart :: evs ++
    match op_result o with
    | Ok ws => [Ws_Open (ws_handshake ws)]
    | Err e => fail_before_open e
    | Panic => []
    end.
Proof.
  unfold connect_and_open. pose proof (build_address_events (req_uri r)) as Hb. destruct (build_address _) as [ad evs]. exists evs.
  split; [done|]. destruct (with_timeout _ _) as [d1 [[io|e|]|]]; [|cbn; by rewrite ?app_nil_r..].
  by destruct (with_timeout _ _) as [d2 [[[[res ch] v]|e|]|]]; cbn; rewrite ?app_nil_r.
Qed.

(** C7.  The listener of a WebSocket call hears of its end once, over the opening and the session together: a call that is
    refused because of its configuration or its request tells it nothing; one that fails to open reports the start and
    then exactly one failure, the error the caller gets; one that opens reports no end before the session starts, and
    then in every interleaving of the session's tasks at most one, and exactly one when the writer and the reader
    have returned. *)
Theorem ws_call_reported_once now random call :
  let o := ws_execute now random call in
  (op_events o = [] ∧ op_elapsed o = 0 ∧ op_sent o = None ∧ ∀ ws, op_result o ≠ Ok ws) ∨
  ∃ evs, op_events o = Ws_CallStart :: evs ∧
  match op_result o with
  | Ok ws =>
    call_ends (op_events o) = 0 ∧
    ∀ σ, reachable error_text (ws_deliver ws) (is_some (ws_heartbeat ws)) (ws_queue_size ws) σ →
      call_ends (whole_call o σ) ≤ 1 ∧ (ss_writer σ = Stop → ss_reader σ = Stop → call_ends (whole_call o σ) = 1)
  | Err e => call_ends (op_events o) = 1 ∧ ∃ evs', evs = evs' ++ fail_before_open e
  | Panic => call_ends (op_events o) = 0
  end.
Proof.
  cbn zeta. unfold ws_execute. destruct (validate_runtime_config _ _ _) as [hb| |]; [|by left..].
  destruct (normalize_request _ _ _ _ _ _ _ _ _ _) as [[r t]| |]; [|by left..].
  destruct (ext_websocket _) as [m|]; [|by left]. destruct (context_deadline _ _); [|by left..]. right.
  destruct (connect_and_open_events call hb r (expected_accept m)) as (evs & Hz & He). unfold whole_call. rewrite He. eexists. split; [done|].
  set (tail := match _ with Ok _ => _ | Err _ => _ | Panic => _ end) in *.
  assert (Hc : call_ends (Ws_CallStart :: evs ++ tail) = call_ends tail) by (change (call_ends ([Ws_CallStart] ++ evs ++ tail) = call_ends tail); by rewrite !call_ends_app, Hz).
  destruct (op_result _) as [ws|e|]; subst tail.
  - split; [by rewrite Hc|]. intros σ Hr. destruct (terminal_once _ _ _ _ _ Hr) as [Hle Hex].
    rewrite call_ends_app, Hc, call_ends_reports. change (call_ends [Ws_Open (ws_handshake ws)]) with 0.
    split; [lia|]. intros Hw Hrd. by rewrite (Hex Hw Hrd).
  - split; [by rewrite Hc|]. by exists evs.
  - by rewrite Hc.
Qed.

(** ** How long it takes *)

Lemma with_timeout_bound {A} limit (f : Duration * A) : (with_timeout limit f).1 ≤ limit.
Proof. unfold with_timeout. by destruct (Z.leb_spec f.1 limit). Qed.

(** The timeout bounds the connection and the handshake separately: an opening takes at most twice as long. *)
Lemma ws_call_time now random call :
  let limit := default DEFAULT_HANDSHAKE_TIMEOUT (wc_handshake_timeout call) in
  0 ≤ limit → op_elapsed (ws_execute now random call) ≤ 2 * limit.
Proof.
  cbn zeta. intros Hl. unfold ws_execute. destruct (validate_runtime_config _ _ _) as [hb| |]; [|cbn [op_elapsed refused failed panicked fst snd] in *; lia..].
  destruct (normalize_request _ _ _ _ _ _ _ _ _ _) as [[r t]| |]; [|cbn [op_elapsed refused failed panicked fst snd] in *; lia..].
  destruct (ext_websocket _) as [m|]; [|cbn [op_elapsed refused failed panicked fst snd] in *; lia]. destruct (context_deadline _ _); [|cbn [op_elapsed refused failed panicked fst snd] in *; lia..].
  unfold connect_and_open. destruct (build_address _) as [ad evs].
  pose proof (with_timeout_bound (default DEFAULT_HANDSHAKE_TIMEOUT (wc_handshake_timeout call))
    (and_then (0, ad) (λ a, o_connect net a (req_uri r)))) as H1'.
  destruct (with_timeout _ _) as [d1 [[io|e|]|]]; [|cbn [op_elapsed refused failed panicked fst snd] in *; lia..].
  match goal with |- context [with_timeout ?l ?f] => pose proof (with_timeout_bound l f) as H2' end.
  destruct (with_timeout _ _) as [d2 [[[[res ch] v]|e|]|]]; cbn [op_elapsed refused failed panicked fst snd] in *; lia.
Qed.
End Call.

(** ** A concrete call *)

Module WsCallDemo.
Import HandshakeDemo.
Definition slow : Duration := from_secs 20.
Definition direct_then_proxy (p : Proxy) (_ : Uri) : outcome WireError ProxySelection :=
  Ok (mkProxySelection [Choice_Direct; Choice_Proxy p]).
(** A server that answers the demo handshake; connecting and answering both take [d]. *)
Definition server (d : Duration) : Outside (H := Headers) unit unit unit unit :=
  mkOutside unit unit unit unit (λ _, Ok selection_direct) (λ _ _, (d, Ok ())) (λ _, (0, Ok ())) (λ _ _, (d, Ok answer))
    (λ _, (0, Ok ())) (λ _ _, (0, Ok ())).
Definition call : WebSocketCall (H := Headers) :=
  mkWsCall (mkRequest Method_GET uri "HTTP/1.1" [("accept", "x")] no_extensions Body_Absent)
    None None None None None (Some (from_secs 5)) None ["chat"; "superchat"] false.
Definition open (d : Duration) : Opening (H := Headers) :=
  ws_execute sha1 base64 (λ s, s) Some (λ s, s) (λ _, None) HandshakeDemo.from_parts SessionDemo.text (server d) 0 (inr "nonce") call.
Definition opened : WebSocket (H := Headers) (Channel := unit) :=
  match op_result (open 0) with Ok ws => ws | _ => mkWebSocket () (mkHandshake 0 [] None []) 0 false 0 None end.

Example opens : wh_subprotocol (ws_handshake opened) = Some "chat"%string ∧ ws_heartbeat opened = Some (mkHeartbeat (from_secs 5) (from_secs 10)).
Proof. by vm_compute. Qed.
(** The handshake timeout is 30 seconds, yet this call opens after 40. *)
Example opens_after_the_timeout :
  op_elapsed (open slow) = from_secs 40 ∧ is_some (match op_result (open slow) with Ok ws => Some ws | _ => None end) = true.
Proof. by vm_compute. Qed.
(** A selection that prefers a direct connection goes through its proxy. *)
Example direct_choice_skipped p :
  head (omap candidate_of (choices (mkProxySelection [Choice_Direct; Choice_Proxy p]))) = Some (selected_proxy p) ∧
  head (base_candidates (mkProxySelection [Choice_Direct; Choice_Proxy p])) = Some None.
Proof. split; reflexivity. Qed.
End WsCallDemo.
Import WsCallDemo.

Lemma ws_call_opens_witness :
  (∃ value, hm_get_all "sec-websocket-accept" (wh_headers (ws_handshake opened)) = [value] ∧ Some value = Some "bbnon"%string) ∧
  ws_heartbeat opened = Some (mkHeartbeat (from_secs 5) (2 * from_secs 5)).
Proof.
  destruct (ws_call_opens HandshakeDemo.sha1 HandshakeDemo.base64 (λ s, s) Some (λ s, s) (λ _, None) HandshakeDemo.from_parts SessionDemo.text (server 0) 0 (inr "nonce"%string) call opened)
    as (r & bs & res & send & d & [= <-] & _ & _ & _ & _ & _ & _ & _ & (value & Hv & Ht) & _ & _ & Hh & _ & _ & _ & _ & Hb & _).
  - apply HandshakeDemo.from_parts_ok.
  - vm_compute. reflexivity.
  - split; [|exact Hb]. exists value. rewrite Hh, Hv. split; [reflexivity|]. rewrite Ht. reflexivity.
Defined.

Lemma ws_call_reported_once_witness :
  let σ := run SessionDemo.text (ws_deliver opened) (is_some (ws_heartbeat opened)) (ws_queue_size opened) SessionDemo.polite in
  ss_writer σ = Stop ∧ ss_reader σ = Stop ∧ call_ends (whole_call (open 0) σ) = 1.
Proof.
  intros σ.
  destruct (ws_call_reported_once HandshakeDemo.sha1 HandshakeDemo.base64 (λ s, s) Some (λ s, s) (λ _, None) HandshakeDemo.from_parts SessionDemo.text (server 0)
              0 (inr "nonce"%string) call) as [(He & _)|(evs & _ & _ & Hr)].
  - vm_compute in He. discriminate.
  - assert (Hw : ss_writer σ = Stop) by (vm_compute; reflexivity). assert (Hrd : ss_reader σ = Stop) by (vm_compute; reflexivity).
    split; [exact Hw|]. split; [exact Hrd|]. exact (proj2 (Hr σ (run_reachable _ _ _ _ _)) Hw Hrd).
Defined.
