(* ===== verification/CacheControl.v ===== *)
(** * HTTP caching rules

    openwire-cache/src/lib.rs, the part that reads headers: Cache-Control directives, freshness and age,
    validators, Vary, and the merge of a 304 response.  The store and the interceptor are in Cache.v.

    [HeaderValue::to_str], the HTTP-date parser and [HeaderName::from_bytes] (which lower-cases a name)
    belong to other crates and are parameters.  Times are nanoseconds; [sys] is what [SystemTime::now]
    returns, [now] what [Instant::now] does. *)

From stdpp Require Import pretty.
From S2P Require Import Prelude Net Error Http Planning.

(** [MAX_DELTA_SECONDS], openwire-cache/lib.rs:19-19. *)
Definition MAX_DELTA_SECONDS : Z := 2147483648.
(** [LAST_MODIFIED_HEURISTIC_DENOMINATOR], openwire-cache/lib.rs:20-20. *)
Definition LAST_MODIFIED_HEURISTIC_DENOMINATOR : Z := 10.
Definition U128_MAX : Z := 340282366920938463463374607431768211455.

(** [Duration::as_secs], [checked_add], [saturating_add] and [SystemTime::duration_since]. *)
Definition as_secs (d : Duration) : Z := d `div` 1000000000.
Definition duration_checked_add (a b : Duration) : option Duration :=
  if a + b <=? DURATION_MAX then Some (a + b) else None.
Definition duration_saturating_add (a b : Duration) : Duration := Z.min DURATION_MAX (a + b).
Definition duration_since (later earlier : Z) : option Duration :=
  if earlier <=? later then Some (later - earlier) else None.

(** [MaxStale], openwire-cache/lib.rs:243-246. *)
Inductive MaxStale : Type := MaxStale_Any | MaxStale_Limit (limit : Duration).

(** [CacheDirectives], openwire-cache/lib.rs:230-240. *)
Record CacheDirectives : Type := mkDirectives {
  public : bool;
  no_cache : bool;
  no_store : bool;
  only_if_cached : bool;
  max_age : option Duration;
  s_maxage : option Duration;
  max_stale : option MaxStale;
  min_fresh : option Duration;
  must_revalidate : bool;
}.

Definition default_directives : CacheDirectives := mkDirectives false false false false None None None None false.

(** [RequestCachePolicy], openwire-cache/lib.rs:218-227. *)
Record RequestCachePolicy : Type := mkCachePolicy {
  is_cacheable : bool;
  has_authorization : bool;
  lookup : bool;
  store_response : bool;
  rp_only_if_cached : bool;
  rp_max_age : option Duration;
  rp_max_stale : option MaxStale;
  rp_min_fresh : option Duration;
}.

(** [CacheDirective], openwire-cache/lib.rs:320-323. *)
Record CacheDirective : Type := mkDirective { dir_name : string; dir_value : option string }.

(** [CacheValidators], openwire-cache/lib.rs:249-252. *)
Record CacheValidators : Type := mkValidators { etag : option string; last_modified : option string }.

(** [CacheValidators::has_any], openwire-cache/lib.rs:262-264. *)
Definition has_any (v : CacheValidators) : bool := is_some (etag v) || is_some (last_modified v).

(** [VaryField], openwire-cache/lib.rs:423-426. *)
Record VaryField : Type := mkVaryField { vf_name : string; vf_values : list string }.

(** [CapturedVary], openwire-cache/lib.rs:364-366. *)
Record CapturedVary : Type := mkVary { vary_fields : list VaryField }.

#[global] Instance VaryField_eq_dec : EqDecision VaryField.
Proof. solve_decision. Defined.
#[global] Instance CapturedVary_eq_dec : EqDecision CapturedVary.
Proof. solve_decision. Defined.

(** ** Cache-Control *)

(** [unquote], openwire-cache/lib.rs:445-450. *)
Definition unquote (s : string) : string :=
  let q := String "034"%char EmptyString in
  default s (strip_prefix q s ≫= strip_suffix q).

(** [parse_delta_seconds], openwire-cache/lib.rs:452-458. *)
Definition parse_delta_seconds (s : string) : option Duration :=
  (λ seconds, from_secs (Z.min seconds MAX_DELTA_SECONDS)) <$> parse_uint U128_MAX s.

(** One piece of [cache_control_directives], openwire-cache/lib.rs:429-442. *)
Definition parse_directive (raw : string) : option CacheDirective :=
  let raw := trim raw in
  if bool_decide (raw = EmptyString) then None else
  let '(name, value) := match split_once "="%char raw with
                        | Some (n, v) => (trim n, Some (unquote (trim v)))
                        | None => (raw, None)
                        end in
  Some (mkDirective (to_ascii_lowercase name) value).

(** [cache_control_directives], openwire-cache/lib.rs:428-443. *)
Definition cache_control_directives (s : string) : list CacheDirective :=
  omap parse_directive (split_on ","%char s).

(** The [match] of [CacheDirectives::from_headers], openwire-cache/lib.rs:276-312. *)
Definition apply_directive (out : CacheDirectives) (d : CacheDirective) : CacheDirectives :=
  let '(mkDirectives pub nc ns oic ma sma ms mf mr) := out in
  let named s := String.eqb (dir_name d) s in
  let delta := dir_value d ≫= parse_delta_seconds in
  if named "public"%string then mkDirectives true nc ns oic ma sma ms mf mr
  else if named "no-cache"%string then mkDirectives pub true ns oic ma sma ms mf mr
  else if named "no-store"%string then mkDirectives pub nc true oic ma sma ms mf mr
  else if named "only-if-cached"%string then mkDirectives pub nc ns true ma sma ms mf mr
  else if named "must-revalidate"%string then mkDirectives pub nc ns oic ma sma ms mf true
  else if named "max-age"%string then mkDirectives pub nc ns oic (option_or delta ma) sma ms mf mr
  else if named "s-maxage"%string then mkDirectives pub nc ns oic ma (option_or delta sma) ms mf mr
  else if named "max-stale"%string then
    let ms := match dir_value d with
              | Some v => match parse_delta_seconds v with Some n => Some (MaxStale_Limit n) | None => ms end
              | None => Some MaxStale_Any
              end in
    mkDirectives pub nc ns oic ma sma ms mf mr
  else if named "min-fresh"%string then mkDirectives pub nc ns oic ma sma ms (option_or delta mf) mr
  else out.

(** [MemoryCacheStore]'s element, [CachedResponse], openwire-cache/lib.rs:600-611. *)
Record CachedResponse (H : Type) : Type := mkCached {
  c_status : Z;
  c_version : string;
  c_headers : H;
  c_body : bytes;
  c_stored_at : Instant;
  c_initial_age : Duration;
  c_freshness_lifetime : Duration;
  c_vary : CapturedVary;
  c_must_validate : bool;
  c_must_revalidate : bool;
}.
Arguments mkCached {H} _ _ _ _ _ _ _ _ _ _.
Arguments c_status {H} _.
Arguments c_version {H} _.
Arguments c_headers {H} _.
Arguments c_body {H} _.
Arguments c_stored_at {H} _.
Arguments c_initial_age {H} _.
Arguments c_freshness_lifetime {H} _.
Arguments c_vary {H} _.
Arguments c_must_validate {H} _.
Arguments c_must_revalidate {H} _.

(** The clocks read when an entry is made, each on its own: [Instant::now], the [SystemTime::now] its age is
    computed with and the [SystemTime::now] its lifetime is computed with. *)
Record Clock : Type := mkClock { clk_instant : Instant; clk_system : Z; clk_lifetime : Z }.

Section CacheControl.
#[local] Set Default Proof Using "Type*".
Context {H : Type} `{HeaderMapLaws H}.
Context (to_str : string → option string) (parse_http_date : string → option Z)
        (header_name : string → option string).

(** Every directive of a header map's Cache-Control fields, in order. *)
Definition all_directives (name : string) (h : H) : list CacheDirective :=
  mjoin (cache_control_directives <$> omap to_str (hm_get_all name h)).

(** [CacheDirectives::from_headers], openwire-cache/lib.rs:268-316. *)
Definition directives_from_headers (h : H) : CacheDirectives :=
  foldl apply_directive default_directives (all_directives "cache-control" h).

(** [CacheValidators::from_headers], openwire-cache/lib.rs:255-260. *)
Definition validators_from_headers (h : H) : CacheValidators :=
  mkValidators (hm_get "etag" h) (hm_get "last-modified" h).

(** [request_pragma_no_cache], openwire-cache/lib.rs:355-361. *)
Definition request_pragma_no_cache (h : H) : bool :=
  existsb (λ d, String.eqb (dir_name d) "no-cache") (all_directives "pragma" h).

(** [request_cache_directives], openwire-cache/lib.rs:347-353. *)
Definition request_cache_directives (h : H) : CacheDirectives :=
  let d := directives_from_headers h in
  if negb (hm_contains "cache-control" h) && request_pragma_no_cache h
  then mkDirectives (public d) true (no_store d) (only_if_cached d) (max_age d) (s_maxage d) (max_stale d)
         (min_fresh d) (must_revalidate d)
  else d.

(** [request_cache_policy], openwire-cache/lib.rs:325-345. *)
Definition request_cache_policy (m : Method) (h : H) (body : RequestBody) : RequestCachePolicy :=
  let d := request_cache_directives h in
  let cacheable := bool_decide (m = Method_GET) && bool_decide (replayable_len body = Some 0) in
  let lookup := cacheable && negb (no_cache d) &&
    (negb (from_option (Z.eqb 0) false (max_age d)) || is_some (max_stale d)) in
  mkCachePolicy cacheable (hm_contains "authorization" h) lookup (cacheable && negb (no_store d))
    (cacheable && only_if_cached d) (max_age d) (max_stale d) (min_fresh d).

(** ** Vary *)

(** The names a Vary field lists, openwire-cache/lib.rs:373-376. *)
Definition vary_names (s : string) : list string :=
  filter (λ n, n ≠ EmptyString) (trim <$> split_on ","%char s).

(** The inner loop of [CapturedVary::capture], openwire-cache/lib.rs:373-389. *)
Fixpoint capture_names (request : H) (fields : list VaryField) (names : list string) : option (list VaryField) :=
  match names with
  | [] => Some fields
  | n :: ns =>
    if bool_decide (n = "*"%string) then None else
    name ← header_name n;
    if existsb (λ f, bool_decide (vf_name f = name)) fields then capture_names request fields ns
    else capture_names request (fields ++ [mkVaryField name (hm_get_all name request)]) ns
  end.

(** The outer loop of [CapturedVary::capture], openwire-cache/lib.rs:371-390. *)
Fixpoint capture_values (request : H) (fields : list VaryField) (values : list string) : option (list VaryField) :=
  match values with
  | [] => Some fields
  | v :: vs =>
    v ← to_str v;
    fields ← capture_names request fields (vary_names v);
    capture_values request fields vs
  end.

(** [CapturedVary::capture], openwire-cache/lib.rs:369-392. *)
Definition capture (response request : H) : option CapturedVary :=
  mkVary <$> capture_values request [] (hm_get_all "vary" response).

(** [CapturedVary::tracks_request_header], openwire-cache/lib.rs:406-408. *)
Definition tracks_request_header (v : CapturedVary) (name : string) : bool :=
  existsb (λ f, bool_decide (vf_name f = name)) (vary_fields v).

(** Update the first field of a name. *)
Fixpoint set_field (name : string) (values : list string) (fs : list VaryField) : list VaryField :=
  match fs with
  | [] => []
  | f :: fs => if bool_decide (vf_name f = name) then mkVaryField (vf_name f) values :: fs
               else f :: set_field name values fs
  end.

(** [CapturedVary::include_request_header], openwire-cache/lib.rs:394-404. *)
Definition include_request_header (v : CapturedVary) (name : string) (request : H) : CapturedVary :=
  let values := hm_get_all name request in
  mkVary (if tracks_request_header v name then set_field name values (vary_fields v)
          else vary_fields v ++ [mkVaryField name values]).

(** [CapturedVary::matches], openwire-cache/lib.rs:410-419. *)
Definition vary_matches (v : CapturedVary) (request : H) : bool :=
  forallb (λ f, bool_decide (hm_get_all (vf_name f) request = vf_values f)) (vary_fields v).

(** ** Age and freshness *)

(** [parse_http_date_header], openwire-cache/lib.rs:950-955. *)
Definition parse_http_date_header (h : H) (name : string) : option Z :=
  v ← hm_get name h; t ← to_str v; parse_http_date t.

(** [response_age], openwire-cache/lib.rs:984-992. *)
Definition response_age (h : H) : Duration :=
  from_option from_secs 0
    (v ← hm_get "age" h; t ← to_str v; first ← head (split_on ","%char t); parse_uint U64_MAX (trim first)).

(** [response_current_age], openwire-cache/lib.rs:957-962. *)
Definition response_current_age (h : H) (sys : Z) : Duration :=
  Z.max (default 0 (parse_http_date_header h "date" ≫= duration_since sys)) (response_age h).

(** [cache_control_directive_count], openwire-cache/lib.rs:917-925. *)
Definition cache_control_directive_count (h : H) (name : string) : Z :=
  len (filter (λ d, dir_name d = name) (all_directives "cache-control" h)).

(** [explicit_expires_lifetime], openwire-cache/lib.rs:931-940. *)
Definition explicit_expires_lifetime (h : H) (sys : Z) : option Duration :=
  v ← hm_get "expires" h;
  let expires := default 0 (to_str v ≫= parse_http_date) in
  let date := default sys (parse_http_date_header h "date") in
  Some (default 0 (duration_since expires date)).

(** [heuristic_freshness_lifetime], openwire-cache/lib.rs:942-948. *)
Definition heuristic_freshness_lifetime (h : H) (sys : Z) : option Duration :=
  lm ← parse_http_date_header h "last-modified";
  let date := default sys (parse_http_date_header h "date") in
  since ← duration_since date lm;
  let s := as_secs since `div` LAST_MODIFIED_HEURISTIC_DENOMINATOR in
  if 0 <? s then Some (from_secs s) else None.

(** [response_freshness_lifetime], openwire-cache/lib.rs:895-915. *)
Definition response_freshness_lifetime (h : H) (d : CacheDirectives) (sys : Z) : option Duration :=
  if 1 <? cache_control_directive_count h "max-age" then Some 0 else
  match max_age d with
  | Some a => Some a
  | None =>
    if 1 <? len (hm_get_all "expires" h) then Some 0 else
    match explicit_expires_lifetime h sys with
    | Some l => Some l
    | None =>
      match heuristic_freshness_lifetime h sys with
      | Some l => if l =? 0 then None else Some l
      | None => None
      end
    end
  end.

(** [response_allows_authorized_storage], openwire-cache/lib.rs:822-824. *)
Definition response_allows_authorized_storage (d : CacheDirectives) : bool :=
  public d || is_some (s_maxage d) || must_revalidate d.

(** [response_is_storable], openwire-cache/lib.rs:806-820. *)
Definition response_is_storable (h : H) (status : Z) (d : CacheDirectives) (v : CacheValidators)
    (lifetime : Duration) (request_has_authorization : bool) : bool :=
  (status =? STATUS_OK) && negb (hm_contains "set-cookie" h) && negb (no_store d) &&
  (negb request_has_authorization || response_allows_authorized_storage d) &&
  (negb (no_cache d) || has_any v) && (negb (lifetime =? 0) || has_any v).

(** ** Entries *)

(** [CachedResponse::new_with_vary], openwire-cache/lib.rs:638-660. *)
Definition new_with_vary (clk : Clock) (status : Z) (version : string) (h : H) (body : bytes)
    (lifetime : Duration) (vary : CapturedVary) (must_validate must_revalidate : bool) : CachedResponse H :=
  mkCached status version h body (clk_instant clk) (response_current_age h (clk_system clk)) lifetime vary
    must_validate must_revalidate.

(** [CachedResponse::current_age], openwire-cache/lib.rs:792-794. *)
Definition current_age (e : CachedResponse H) (now : Instant) : Duration :=
  duration_saturating_add (c_initial_age e) (elapsed now (c_stored_at e)).

(** [CachedResponse::effective_freshness_lifetime], openwire-cache/lib.rs:676-681. *)
Definition effective_freshness_lifetime (e : CachedResponse H) (p : RequestCachePolicy) : Duration :=
  from_option (Z.min (c_freshness_lifetime e)) (c_freshness_lifetime e) (rp_max_age p).

(** [CachedResponse::is_fresh_for], openwire-cache/lib.rs:683-701. *)
Definition is_fresh_for (age lifetime : Duration) (p : RequestCachePolicy) : bool :=
  if lifetime <=? age then false else
  match rp_min_fresh p with
  | Some mf => match duration_checked_add age mf with Some r => r <=? lifetime | None => false end
  | None => true
  end.

(** [CachedResponse::is_stale_acceptable_for], openwire-cache/lib.rs:703-719. *)
Definition is_stale_acceptable_for (e : CachedResponse H) (age lifetime : Duration) (p : RequestCachePolicy) : bool :=
  if c_must_revalidate e || is_some (rp_min_fresh p) then false else
  let staleness := saturating_sub age lifetime in
  match rp_max_stale p with
  | Some MaxStale_Any => true
  | Some (MaxStale_Limit l) => staleness <=? l
  | None => false
  end.

(** [CachedResponse::is_servable_for], openwire-cache/lib.rs:662-674. *)
Definition is_servable_for (e : CachedResponse H) (now : Instant) (p : RequestCachePolicy) : bool :=
  if c_must_validate e then false else
  let age := current_age e now in
  let lifetime := effective_freshness_lifetime e p in
  if is_fresh_for age lifetime p then true else is_stale_acceptable_for e age lifetime p.

(** [CachedResponse::matches_request], openwire-cache/lib.rs:721-730. *)
Definition matches_request (e : CachedResponse H) (p : RequestCachePolicy) (request : H) : bool :=
  if has_authorization p && negb (tracks_request_header (c_vary e) "authorization") then false
  else vary_matches (c_vary e) request.

(** [CachedResponse::same_variant_as], openwire-cache/lib.rs:732-734. *)
Definition same_variant_as (a b : CachedResponse H) : bool := bool_decide (c_vary a = c_vary b).

(** [CachedResponse::can_revalidate], openwire-cache/lib.rs:736-740. *)
Definition can_revalidate (e : CachedResponse H) (request : H) : bool :=
  negb (hm_contains "if-none-match" request) && negb (hm_contains "if-modified-since" request) &&
  has_any (validators_from_headers (c_headers e)).

(** [CachedResponse::apply_revalidation_headers], openwire-cache/lib.rs:742-750. *)
Definition apply_revalidation_headers (e : CachedResponse H) (request : H) : H :=
  let v := validators_from_headers (c_headers e) in
  let request := from_option (λ t, hm_insert "if-none-match" t request) request (etag v) in
  from_option (λ t, hm_insert "if-modified-since" t request) request (last_modified v).

(** [should_update_from_304], openwire-cache/lib.rs:980-982. *)
Definition should_update_from_304 (name : string) : bool :=
  negb (bool_decide (name ∈ ["content-length"; "content-encoding"; "transfer-encoding"]%string)).

(** One round of the loop of [merge_304_headers], openwire-cache/lib.rs:967-976. *)
Definition merge_name (validation : H) (headers : H) (name : string) : H :=
  if should_update_from_304 name
  then foldl (λ h v, hm_append name v h) (hm_remove name headers) (hm_get_all name validation)
  else headers.

(** [merge_304_headers], openwire-cache/lib.rs:964-978. *)
Definition merge_304_headers (stored validation : H) : H :=
  foldl (merge_name validation) (hm_remove "age" stored) (hm_keys validation).

(** [CachedResponse::freshen_from_not_modified], openwire-cache/lib.rs:752-790. *)
Definition freshen_from_not_modified (clk : Clock) (e : CachedResponse H) (validation request : H)
    : CachedResponse H * bool :=
  let h := merge_304_headers (c_headers e) validation in
  let d := directives_from_headers h in
  let v := validators_from_headers h in
  let lifetime := default 0 (response_freshness_lifetime h d (clk_lifetime clk)) in
  let vary := (λ v, if tracks_request_header (c_vary e) "authorization"
                    then include_request_header v "authorization" request else v) <$> capture h request in
  let store := is_some vary &&
    response_is_storable h (c_status e) d v lifetime (hm_contains "authorization" request) in
  (new_with_vary clk (c_status e) (c_version e) h (c_body e) lifetime (default (mkVary []) vary) (no_cache d)
     (must_revalidate d), store).

(** ** Facts about Vary *)

(** Every field holds the request's own values. *)
Definition captured (request : H) (fs : list VaryField) : Prop :=
  Forall (λ f, vf_values f = hm_get_all (vf_name f) request) fs.

Lemma capture_names_captured request fs ns fs' :
  captured request fs → capture_names request fs ns = Some fs' → captured request fs'.
Proof.
  revert fs. induction ns as [|n ns IH]; intros fs Hfs; cbn; [by intros [= <-]|].
  case_bool_decide; [done|]. destruct (header_name n) as [name|]; cbn; [|done].
  destruct (existsb _ fs); [by apply IH|]. apply IH. apply Forall_app. split; [done|]. by repeat constructor.
Qed.

Lemma capture_captured response request v : capture response request = Some v → captured request (vary_fields v).
Proof.
  unfold capture. rewrite fmap_Some. intros (fs & Hfs & ->). simpl.
  assert (Hg : ∀ vs fs0, captured request fs0 → capture_values request fs0 vs = Some fs → captured request fs).
  { induction vs as [|v vs IH]; intros fs0 H0'; cbn; [by intros [= <-]|].
    destruct (to_str v); cbn; [|done]. destruct (capture_names _ _ _) eqn:E; cbn; [|done].
    apply IH. by eapply capture_names_captured. }
  eapply Hg; [|done]. constructor.
Qed.

Lemma tracks_spec v name : tracks_request_header v name = true ↔ name ∈ vf_name <$> vary_fields v.
Proof.
  rewrite list_elem_of_fmap.
  unfold tracks_request_header. rewrite existsb_exists. split.
  - intros (f & Hf & Hn%bool_decide_eq_true). exists f. split; [done|by apply list_elem_of_In].
  - intros (f & Hn & Hf). exists f. split; [by apply list_elem_of_In|by apply bool_decide_eq_true].
Qed.

Lemma set_field_captured request name fs :
  captured request fs → captured request (set_field name (hm_get_all name request) fs).
Proof.
  induction 1 as [|f fs Hf Hfs IH]; cbn; [constructor|]. case_bool_decide; constructor; try done.
  simpl. congruence.
Qed.

Lemma set_field_names name values fs : vf_name <$> set_field name values fs = vf_name <$> fs.
Proof. induction fs as [|f fs IH]; cbn; [done|]. case_bool_decide; cbn; [done|]. by rewrite IH. Qed.

Lemma include_captured v name request :
  captured request (vary_fields v) → captured request (vary_fields (include_request_header v name request)).
Proof.
  intros Hv. unfold include_request_header. destruct (tracks_request_header v name); simpl.
  - by apply set_field_captured.
  - apply Forall_app. split; [done|]. by repeat constructor.
Qed.

Lemma include_tracks v name request : tracks_request_header (include_request_header v name request) name = true.
Proof.
  apply tracks_spec. unfold include_request_header. destruct (tracks_request_header v name) eqn:E; simpl.
  - rewrite set_field_names. by apply tracks_spec.
  - rewrite fmap_app, elem_of_app. right. left.
Qed.

Lemma vary_matches_field v request f :
  vary_matches v request = true → f ∈ vary_fields v → vf_values f = hm_get_all (vf_name f) request.
Proof.
  unfold vary_matches. rewrite forallb_forall. intros Hm Hf%list_elem_of_In.
  specialize (Hm f Hf). by apply bool_decide_eq_true in Hm.
Qed.

(** ** Merging a 304 *)

Lemma merge_name_get validation h name k :
  hm_get_all k (merge_name validation h name) =
  if bool_decide (k = name) && should_update_from_304 name then hm_get_all k validation else hm_get_all k h.
Proof.
  unfold merge_name. destruct (should_update_from_304 name); [|by rewrite andb_false_r].
  rewrite hm_get_all_append_all, hm_get_all_remove, andb_true_r. case_bool_decide; [by subst|].
  by rewrite app_nil_r.
Qed.

Lemma merge_names_get validation h names k :
  hm_get_all k (foldl (merge_name validation) h names) =
  if bool_decide (k ∈ names) && should_update_from_304 k then hm_get_all k validation else hm_get_all k h.
Proof.
  revert h. induction names as [|n names IH]; intros h; [done|]. cbn [foldl]. rewrite IH, merge_name_get.
  destruct (bool_decide_reflect (k = n)) as [<-|Hne].
  - rewrite (bool_decide_true (k ∈ k :: names)) by left. simpl.
    destruct (should_update_from_304 k); [|by rewrite andb_false_r]. by case_match.
  - simpl. rewrite (bool_decide_ext (k ∈ n :: names) (k ∈ names)); [done|].
    rewrite elem_of_cons. split; [intros [?|?]; done|by right].
Qed.

(** A 304 updates the stored response as RFC 9111 asks: every header the 304 carries replaces all
    stored values of that name, except the ones that describe the stored body, the stored Age is
    dropped, and every other stored header keeps its values. *)
Theorem merge_304_spec stored validation k :
  hm_get_all k (merge_304_headers stored validation) =
  if hm_contains k validation && should_update_from_304 k then hm_get_all k validation
  else if bool_decide (k = "age"%string) then [] else hm_get_all k stored.
Proof.
  unfold merge_304_headers. rewrite merge_names_get, hm_get_all_remove.
  assert (bool_decide (k ∈ hm_keys validation) = hm_contains k validation) as ->; [|done].
  apply eq_bool_prop_intro. rewrite !Is_true_true, bool_decide_eq_true, hm_contains_spec. apply hm_keys_spec.
Qed.

(** ** Freshness *)

(** What a request accepts of an entry of a given age and lifetime. *)
Definition acceptable (p : RequestCachePolicy) (e : CachedResponse H) (age lifetime : Duration) : Prop :=
  (age < lifetime ∧ ∀ mf, rp_min_fresh p = Some mf → age + mf ≤ lifetime ∧ age + mf ≤ DURATION_MAX) ∨
  (c_must_revalidate e = false ∧ rp_min_fresh p = None ∧
   (rp_max_stale p = Some MaxStale_Any ∨
    ∃ l, rp_max_stale p = Some (MaxStale_Limit l) ∧ Z.max 0 (age - lifetime) ≤ l)).

Lemma is_servable_for_iff e now p :
  is_servable_for e now p = true ↔
  c_must_validate e = false ∧ acceptable p e (current_age e now) (effective_freshness_lifetime e p).
Proof.
  clear to_str parse_http_date header_name H0 H1.
  unfold is_servable_for, acceptable. destruct (c_must_validate e); [naive_solver|].
  set (age := current_age e now). set (life := effective_freshness_lifetime e p).
  unfold is_fresh_for, is_stale_acceptable_for, duration_checked_add, saturating_sub.
  destruct (Z.leb_spec life age), (rp_min_fresh p) as [mf|], (c_must_revalidate e); simpl;
    try (destruct (Z.leb_spec (age + mf) DURATION_MAX); simpl; try (destruct (Z.leb_spec (age + mf) life)));
    destruct (rp_max_stale p) as [[|l]|]; simpl; rewrite ?Z.leb_le; naive_solver lia.
Qed.

End CacheControl.

Lemma merge_304_spec_witness :
  hm_get_all "etag" (merge_304_headers [("etag", "1"); ("age", "7"); ("content-length", "3")]
                       [("etag", "2"); ("content-length", "0")]) = ["2"]%string ∧
  hm_get_all "content-length" (merge_304_headers [("etag", "1"); ("age", "7"); ("content-length", "3")]
                       [("etag", "2"); ("content-length", "0")]) = ["3"]%string.
Proof.
  split.
  - rewrite (merge_304_spec [("etag", "1"); ("age", "7"); ("content-length", "3")]%string). reflexivity.
  - rewrite (merge_304_spec [("etag", "1"); ("age", "7"); ("content-length", "3")]%string). reflexivity.
Defined.
