(* ===== verification/Cache.v ===== *)
(** * The HTTP cache

    openwire-cache/src/lib.rs: the store and the interceptor.

    A store is a trait: the class [CacheStore], with what the interceptor relies on as [CacheStoreLaws];
    [MemoryCacheStore] is an instance.  The interceptor reads the store once before the network and
    writes to it after the response, and other calls may run between any two of its store operations.
    So it is two functions, [begin_intercept] and [finish_intercept], the second returning the store
    operations still to be made ([StoreOp]); [cache_step] interleaves the operations of many calls.

    [HashMap::keys().next()] is a parameter, [first_key]; of the url crate, the operations the cache key
    needs are the record [UrlCrate]. *)

From stdpp Require Import pretty.
From S2P Require Import Prelude Net Error Http Planning Proxy Policy Request CacheControl.

(** ** Stores *)

(** [CacheStore], openwire-cache/lib.rs:461-478. *)
Class CacheStore (H S : Type) : Type := {
  cs_get : string → S → option (CachedResponse H);
  cs_put : string → CachedResponse H → S → S;
  cs_remove : string → S → S;
  cs_get_candidates : string → S → list (CachedResponse H);
  cs_put_candidate : string → CachedResponse H → S → S;
  cs_remove_candidate : string → CachedResponse H → S → S;
}.

(** A store invents nothing and forgets a removed key. *)
Class CacheStoreLaws (H S : Type) `{CacheStore H S} : Prop := {
  cs_put_candidate_from : ∀ k k' v s e, e ∈ cs_get_candidates k' (cs_put_candidate k v s) →
    e ∈ cs_get_candidates k' s ∨ (k' = k ∧ e = v);
  cs_remove_from : ∀ k k' s e, e ∈ cs_get_candidates k' (cs_remove k s) → e ∈ cs_get_candidates k' s ∧ k' ≠ k;
  cs_remove_candidate_from : ∀ k k' v s e, e ∈ cs_get_candidates k' (cs_remove_candidate k v s) →
    e ∈ cs_get_candidates k' s;
}.

(** [DEFAULT_MEMORY_CACHE_MAX_ENTRIES], openwire-cache/lib.rs:22-22. *)
Definition DEFAULT_MEMORY_CACHE_MAX_ENTRIES : Z := 1024.
(** [DEFAULT_MEMORY_CACHE_MAX_BODY_BYTES], openwire-cache/lib.rs:24-24. *)
Definition DEFAULT_MEMORY_CACHE_MAX_BODY_BYTES : Z := 64 * 1024 * 1024.

(** [MemoryCacheStore], openwire-cache/lib.rs:481-485. *)
Record MemoryCacheStore (H : Type) : Type := mkMemory {
  entries : gmap string (list (CachedResponse H));
  max_entries : Z;
  max_body_bytes : Z;
}.
Arguments mkMemory {H} _ _ _.
Arguments entries {H} _.
Arguments max_entries {H} _.
Arguments max_body_bytes {H} _.

Section Memory.
Context {H : Type} (first_key : gmap string (list (CachedResponse H)) → option string).

(** [MemoryCacheStore::with_limits], openwire-cache/lib.rs:503-509. *)
Definition with_limits (n bytes : Z) : MemoryCacheStore H := mkMemory ∅ (Z.max n 1) bytes.

(** [Default for MemoryCacheStore], openwire-cache/lib.rs:487-494. *)
Definition memory_default : MemoryCacheStore H :=
  with_limits DEFAULT_MEMORY_CACHE_MAX_ENTRIES DEFAULT_MEMORY_CACHE_MAX_BODY_BYTES.

Definition body_len (e : CachedResponse H) : Z := len (c_body e).
Definition bytes_of (es : list (CachedResponse H)) : Z := foldr Z.add 0 (body_len <$> es).

(** [MemoryCacheStore::total_body_bytes], openwire-cache/lib.rs:511-517. *)
Definition total_body_bytes (m : gmap string (list (CachedResponse H))) : Z :=
  map_fold (λ _ es acc, bytes_of es + acc) 0 m.

(** A loop that drops keys while a test holds, openwire-cache/lib.rs:524-530. *)
Fixpoint drop_while (test : gmap string (list (CachedResponse H)) → bool) (fuel : nat)
    (m : gmap string (list (CachedResponse H))) : gmap string (list (CachedResponse H)) :=
  match fuel with
  | O => m
  | S fuel =>
    if test m then
      match first_key m with
      | Some oldest => drop_while test fuel (delete oldest m)
      | None => m
      end
    else m
  end.

(** [MemoryCacheStore::enforce_limits], openwire-cache/lib.rs:519-539: each round of either loop removes a
    key, so as many rounds as keys are enough. *)
Definition enforce_limits (m : gmap string (list (CachedResponse H))) (n bytes : Z)
    : gmap string (list (CachedResponse H)) :=
  let m := drop_while (λ m, n <? Z.of_nat (size m)) (size m) m in
  drop_while (λ m, (bytes <? total_body_bytes m) && negb (bool_decide (m = ∅))) (size m) m.

(** Replace the first candidate of the same variant, or push, openwire-cache/lib.rs:576-583. *)
Fixpoint replace_variant (v : CachedResponse H) (es : list (CachedResponse H)) : list (CachedResponse H) :=
  match es with
  | [] => [v]
  | e :: es => if same_variant_as e v then v :: es else e :: replace_variant v es
  end.

(** [MemoryCacheStore::put_candidate], openwire-cache/lib.rs:569-585. *)
Definition memory_put_candidate (k : string) (v : CachedResponse H) (s : MemoryCacheStore H) : MemoryCacheStore H :=
  if max_body_bytes s <? body_len v then s else
  let m := <[k := replace_variant v (default [] (entries s !! k))]> (entries s) in
  mkMemory (enforce_limits m (max_entries s) (max_body_bytes s)) (max_entries s) (max_body_bytes s).

(** [MemoryCacheStore::get_candidates], openwire-cache/lib.rs:560-567. *)
Definition memory_get_candidates (k : string) (s : MemoryCacheStore H) : list (CachedResponse H) :=
  default [] (entries s !! k).

(** [MemoryCacheStore::get], openwire-cache/lib.rs:544-550. *)
Definition memory_get (k : string) (s : MemoryCacheStore H) : option (CachedResponse H) :=
  entries s !! k ≫= last.

(** [MemoryCacheStore::remove], openwire-cache/lib.rs:556-558. *)
Definition memory_remove (k : string) (s : MemoryCacheStore H) : MemoryCacheStore H :=
  mkMemory (delete k (entries s)) (max_entries s) (max_body_bytes s).

(** [MemoryCacheStore::remove_candidate], openwire-cache/lib.rs:587-596. *)
Definition memory_remove_candidate (k : string) (v : CachedResponse H) (s : MemoryCacheStore H)
    : MemoryCacheStore H :=
  match entries s !! k with
  | None => s
  | Some es =>
    let es := filter (λ e, same_variant_as e v = false) es in
    mkMemory (match es with [] => delete k (entries s) | _ => <[k := es]> (entries s) end)
      (max_entries s) (max_body_bytes s)
  end.

(** [CacheStore for MemoryCacheStore], openwire-cache/lib.rs:543-597; [put] is [put_candidate]. *)
#[local] Instance memory_store : CacheStore H (MemoryCacheStore H) := {|
  cs_get := memory_get;
  cs_put := memory_put_candidate;
  cs_remove := memory_remove;
  cs_get_candidates := memory_get_candidates;
  cs_put_candidate := memory_put_candidate;
  cs_remove_candidate := memory_remove_candidate;
|}.

(** ** The memory store stays within its limits *)

(** [keys().next()] names a key of a map that has one. *)
Definition names_a_key : Prop :=
  ∀ m, match first_key m with Some k => is_Some (m !! k) | None => m = ∅ end.

Definition variants_distinct (es : list (CachedResponse H)) : Prop := NoDup (c_vary <$> es).

Record memory_ok (s : MemoryCacheStore H) : Prop := mkMemoryOk {
  mo_entries : Z.of_nat (size (entries s)) ≤ max_entries s;
  mo_bytes : total_body_bytes (entries s) ≤ max_body_bytes s;
  mo_buckets : ∀ k es, entries s !! k = Some es → es ≠ [] ∧ variants_distinct es;
}.

Lemma bytes_of_nonneg es : 0 ≤ bytes_of es.
Proof. induction es as [|e es IH]; [done|].
  change (0 ≤ len (c_body e) + bytes_of es). pose proof (len_nonneg (c_body e)). lia.
Qed.

Lemma total_insert m k es : m !! k = None → total_body_bytes (<[k := es]> m) = bytes_of es + total_body_bytes m.
Proof.
  intros Hk. unfold total_body_bytes. rewrite map_fold_insert_L; [done| |done].
  intros. lia.
Qed.

Lemma total_delete m k es : m !! k = Some es → total_body_bytes m = bytes_of es + total_body_bytes (delete k m).
Proof.
  intros Hk. rewrite <- (insert_delete_id m k es Hk) at 1. apply total_insert. apply lookup_delete_eq.
Qed.

Lemma total_nonneg m : 0 ≤ total_body_bytes m.
Proof.
  induction m as [|k es m Hk IH] using map_ind; [done|]. rewrite total_insert by done.
  pose proof (bytes_of_nonneg es). lia.
Qed.

(** Dropping keys ends with the test false, and only removes. *)
Lemma drop_while_spec test fuel m :
  names_a_key → (size m ≤ fuel)%nat → test ∅ = false →
  test (drop_while test fuel m) = false ∧ drop_while test fuel m ⊆ m.
Proof.
  intros Hfirst. revert m. induction fuel as [|fuel IH]; intros m Hsz H0; cbn.
  { assert (m = ∅) as -> by (apply map_size_empty_inv; lia). done. }
  destruct (test m) eqn:Ht; [|done]. specialize (Hfirst m) as Hk. destruct (first_key m) as [k|].
  - destruct Hk as [es Hk]. pose proof (map_size_delete_Some k m (mk_is_Some _ _ Hk)) as Hd.
    destruct (IH (delete k m)) as [? Hsub]; [lia|done|]. split; [done|].
    etransitivity; [done|]. apply delete_subseteq.
  - subst. congruence.
Qed.

Lemma total_mono m m' : m ⊆ m' → total_body_bytes m ≤ total_body_bytes m'.
Proof.
  revert m'. induction m as [|k es m Hk IH] using map_ind; intros m' Hsub; [apply total_nonneg|].
  rewrite total_insert by done.
  assert (Hm' : m' !! k = Some es) by (eapply lookup_weaken; [apply lookup_insert_eq|done]).
  rewrite (total_delete m' k es Hm'). enough (total_body_bytes m ≤ total_body_bytes (delete k m')) by lia.
  apply IH. apply map_subseteq_spec. intros k' x Hx.
  assert (k ≠ k') by congruence. rewrite lookup_delete_ne by done.
  eapply lookup_weaken; [|exact Hsub]. by rewrite lookup_insert_ne.
Qed.

Lemma enforce_limits_spec m n bytes :
  names_a_key → 0 ≤ n → 0 ≤ bytes →
  Z.of_nat (size (enforce_limits m n bytes)) ≤ n ∧ total_body_bytes (enforce_limits m n bytes) ≤ bytes ∧
  enforce_limits m n bytes ⊆ m.
Proof.
  intros Hf Hn Hb. unfold enforce_limits.
  destruct (drop_while_spec (λ m, n <? Z.of_nat (size m)) (size m) m Hf) as [H1 S1]; [done|by apply Z.ltb_ge|].
  set (m1 := drop_while _ _ m) in *.
  destruct (drop_while_spec (λ m, (bytes <? total_body_bytes m) && negb (bool_decide (m = ∅))) (size m1) m1 Hf)
    as [H2 S2]; [done|by rewrite bool_decide_true, andb_false_r|].
  set (m2 := drop_while _ _ m1) in *. apply Z.ltb_ge in H1.
  pose proof (map_subseteq_size _ _ S2). split_and!; [lia| |by etransitivity].
  apply andb_false_iff in H2 as [H2%Z.ltb_ge|H2]; [done|].
  apply negb_false_iff, bool_decide_eq_true in H2. rewrite H2. done.
Qed.
Lemma replace_variant_from v es e : e ∈ replace_variant v es → e ∈ es ∨ e = v.
Proof.
  induction es as [|x es IH]; cbn; [rewrite list_elem_of_singleton; auto|].
  destruct (same_variant_as x v); rewrite !elem_of_cons; [naive_solver|].
  intros [->|He]; [auto|]. destruct (IH He); auto.
Qed.

Lemma replace_variant_varies v es :
  c_vary <$> replace_variant v es =
  if bool_decide (c_vary v ∈ c_vary <$> es) then c_vary <$> es else (c_vary <$> es) ++ [c_vary v].
Proof.
  induction es as [|x es IH]; [done|]. cbn [replace_variant]. unfold same_variant_as.
  destruct (bool_decide_reflect (c_vary x = c_vary v)) as [E|Hne].
  - rewrite bool_decide_true by (cbn; rewrite E; left). cbn. by rewrite E.
  - cbn. rewrite IH.
    rewrite (bool_decide_ext (c_vary v ∈ c_vary x :: (c_vary <$> es)) (c_vary v ∈ c_vary <$> es)).
    + by case_bool_decide.
    + rewrite elem_of_cons. split; [intros [?|?]; congruence|by right].
Qed.

Lemma replace_variant_distinct v es : variants_distinct es → variants_distinct (replace_variant v es).
Proof.
  unfold variants_distinct. rewrite replace_variant_varies. case_bool_decide as Hv; [done|]. intros Hnd.
  apply NoDup_app. split_and!; [done| |apply NoDup_singleton].
  intros x Hx ->%list_elem_of_singleton. done.
Qed.

Lemma replace_variant_nonempty v es : replace_variant v es ≠ [].
Proof. destruct es; cbn; [done|]. by case_match. Qed.

Lemma with_limits_ok n bytes : 0 ≤ bytes → memory_ok (with_limits n bytes : MemoryCacheStore H).
Proof. intros Hb. by constructor; cbn; [rewrite map_size_empty; lia|..]. Qed.

Lemma put_candidate_ok k v s :
  names_a_key → 0 ≤ max_entries s → 0 ≤ max_body_bytes s → memory_ok s → memory_ok (memory_put_candidate k v s).
Proof.
  intros Hf Hn Hb Hs. unfold memory_put_candidate. destruct (_ <? _); [done|].
  set (m := <[k := _]> (entries s)).
  destruct (enforce_limits_spec m (max_entries s) (max_body_bytes s) Hf Hn Hb) as (H1 & H2 & Hsub).
  constructor; cbn; [done|done|]. intros k' es Hk'. apply (lookup_weaken _ m) in Hk'; [|done].
  unfold m in Hk'. apply lookup_insert_Some in Hk' as [[<- <-]|[_ Hk']]; [|by eapply mo_buckets].
  split; [apply replace_variant_nonempty|]. apply replace_variant_distinct.
  destruct (entries s !! k) as [es0|] eqn:E; cbn; [by eapply mo_buckets|constructor].
Qed.

Lemma smaller_ok s m :
  m ⊆ entries s → memory_ok s → memory_ok (mkMemory m (max_entries s) (max_body_bytes s)).
Proof.
  intros Hsub [H1 H2 H3]. pose proof (map_subseteq_size _ _ Hsub). pose proof (total_mono _ _ Hsub).
  constructor; cbn; [lia|lia|]. intros k es Hk. eapply H3, lookup_weaken; done.
Qed.

Lemma bytes_of_filter (P : CachedResponse H → Prop) `{∀ x, Decision (P x)} es : bytes_of (filter P es) ≤ bytes_of es.
Proof.
  induction es as [|e es IH]; [done|].
  assert (0 ≤ body_len e) by apply len_nonneg.
  rewrite filter_cons. case_decide; change (bytes_of (?x :: ?l)) with (body_len x + bytes_of l);
    repeat match goal with |- context [bytes_of (?x :: ?l)] => change (bytes_of (x :: l)) with (body_len x + bytes_of l) end; lia.
Qed.

Lemma remove_candidate_ok k v s : memory_ok s → memory_ok (memory_remove_candidate k v s).
Proof.
  intros Hs. unfold memory_remove_candidate. destruct (entries s !! k) as [es|] eqn:Hk; [|done].
  destruct (filter _ es) as [|e es'] eqn:Hfil; [apply smaller_ok; [apply delete_subseteq|done]|].
  rewrite <- Hfil. set (es2 := filter _ es). pose proof (bytes_of_filter (λ e, same_variant_as e v = false) es) as Hle.
  fold es2 in Hle. destruct Hs as [H1 H2 H3]. constructor; cbn.
  - rewrite map_size_insert_Some by eauto. lia.
  - rewrite <- insert_delete_eq, total_insert by apply lookup_delete_eq.
    rewrite (total_delete _ _ _ Hk) in H2. lia.
  - intros k' x. rewrite lookup_insert_Some. intros [[<- <-]|[_ Hx]]; [|by eapply H3].
    split; [unfold es2; by rewrite Hfil|]. destruct (H3 k es Hk) as [_ Hd]. unfold variants_distinct in *.
    eapply sublist_NoDup; [exact Hd|]. apply fmap_sublist, sublist_filter.
Qed.

(** What can be done to a memory store. *)
Inductive memory_op : Type :=
| Mem_put (k : string) (v : CachedResponse H)
| Mem_remove (k : string)
| Mem_remove_candidate (k : string) (v : CachedResponse H).

Definition run_memory_op (s : MemoryCacheStore H) (op : memory_op) : MemoryCacheStore H :=
  match op with
  | Mem_put k v => memory_put_candidate k v s
  | Mem_remove k => memory_remove k s
  | Mem_remove_candidate k v => memory_remove_candidate k v s
  end.

Lemma run_memory_op_limits s op :
  max_entries (run_memory_op s op) = max_entries s ∧ max_body_bytes (run_memory_op s op) = max_body_bytes s.
Proof.
  destruct op; cbn; unfold memory_put_candidate, memory_remove_candidate; repeat case_match; done.
Qed.

(** The memory store keeps its promises through any sequence of operations, whatever order the hash
    map iterates in: at most [max_entries] keys (never fewer than one allowed) and at most
    [max_body_bytes] of bodies in all, no empty bucket, and never two entries of the same variant under
    one key. *)
Theorem memory_store_bounded n bytes ops :
  names_a_key → 0 ≤ bytes →
  let s := foldl run_memory_op (with_limits n bytes) ops in
  Z.of_nat (size (entries s)) ≤ Z.max n 1 ∧ total_body_bytes (entries s) ≤ bytes ∧
  ∀ k es, entries s !! k = Some es → es ≠ [] ∧ NoDup (c_vary <$> es).
Proof.
  intros Hf Hb s.
  assert (Hinv : memory_ok s ∧ max_entries s = Z.max n 1 ∧ max_body_bytes s = bytes).
  { unfold s. clear s. induction ops as [|op ops IH] using rev_ind.
    - cbn. split_and!; [by apply with_limits_ok|done..].
    - rewrite foldl_snoc. destruct IH as (Hok & Hn & Hbb).
      destruct (run_memory_op_limits (foldl run_memory_op (with_limits n bytes) ops) op) as [-> ->].
      split_and!; [|done..]. destruct op; cbn.
      + apply put_candidate_ok; [done|lia|lia|done].
      + apply smaller_ok; [apply delete_subseteq|done].
      + by apply remove_candidate_ok. }
  destruct Hinv as ([H1 H2 H3] & Hn & Hbb). rewrite Hn in H1. rewrite Hbb in H2. done.
Qed.

(** The memory store is a store. *)
Lemma memory_store_laws : names_a_key → CacheStoreLaws H (MemoryCacheStore H).
Proof.
  intros Hf. constructor; cbn.
  - intros k k' v s e. unfold memory_put_candidate, memory_get_candidates. destruct (_ <? _); [auto|]. cbn.
    set (m := <[k := _]> (entries s)). destruct (enforce_limits _ _ _ !! k') as [es|] eqn:E; cbn; [|set_solver].
    assert (Hm : m !! k' = Some es).
    { revert E. unfold enforce_limits. intros E. eapply lookup_weaken; [exact E|].
      assert (Hsub : ∀ test fuel m, drop_while test fuel m ⊆ m).
      { intros test fuel. induction fuel as [|fuel IH]; intros m0; cbn; [done|].
        destruct (test m0); [|done]. destruct (first_key m0); [|done].
        etransitivity; [apply IH|apply delete_subseteq]. }
      etransitivity; apply Hsub. }
    unfold m in Hm. apply lookup_insert_Some in Hm as [[<- <-]|[_ Hm]]; [|rewrite Hm; auto].
    intros [?|?]%replace_variant_from; [by left|by right].
  - intros k k' s e. unfold memory_get_candidates. cbn. destruct (delete k (entries s) !! k') eqn:E; cbn; [|set_solver].
    apply lookup_delete_Some in E as [? ->]. auto.
  - intros k k' v s e. unfold memory_remove_candidate, memory_get_candidates.
    destruct (entries s !! k) as [es|] eqn:Hk; [|auto]. cbn.
    set (m := match _ with [] => _ | _ :: _ => _ end). destruct (m !! k') as [x|] eqn:E; cbn; [|set_solver].
    assert (Hm : entries s !! k' = Some x ∨ (k' = k ∧ x = filter (λ e, same_variant_as e v = false) es)).
    { unfold m in E. destruct (filter _ es) as [|y ys] eqn:Hfil.
      - apply lookup_delete_Some in E as [_ ?]. auto.
      - apply lookup_insert_Some in E as [[<- <-]|[_ ?]]; auto. }
    destruct Hm as [->|[-> ->]]; [done|]. rewrite Hk. cbn. intros [_ ?]%list_elem_of_filter. done.
Qed.
End Memory.

(** ** Keys *)

(** The url crate and [Uri]'s parser, as far as cache keys need them; setters ignore their results. *)
Record UrlCrate (U : Type) : Type := mkUrlCrate {
  url_parse : string → option U;
  url_join : U → string → option U;
  url_host_str : U → option string;
  url_set_host : string → U → U;
  url_scheme : U → string;
  url_port : U → option Z;
  url_set_port_none : U → U;
  url_path : U → string;
  url_set_path : string → U → U;
  url_as_str : U → string;
  uri_parse : string → option Uri;
}.
Arguments url_parse {U} _ _.
Arguments url_join {U} _ _ _.
Arguments url_host_str {U} _ _.
Arguments url_set_host {U} _ _ _.
Arguments url_scheme {U} _ _.
Arguments url_port {U} _ _.
Arguments url_set_port_none {U} _ _.
Arguments url_path {U} _ _.
Arguments url_set_path {U} _ _ _.
Arguments url_as_str {U} _ _.
Arguments uri_parse {U} _ _.

(** What an interceptor still has to do to the store. *)
Inductive StoreOp (H : Type) : Type :=
| Op_Remove (k : string)
| Op_RemoveCandidate (k : string) (e : CachedResponse H)
| Op_Put (k : string) (e : CachedResponse H)
| Op_RemoveMatching (k : string) (p : RequestCachePolicy) (request : H).
Arguments Op_Remove {H} _.
Arguments Op_RemoveCandidate {H} _ _.
Arguments Op_Put {H} _ _.
Arguments Op_RemoveMatching {H} _ _ _.

(** What the interceptor keeps while the network works, openwire-cache/lib.rs:56-65. *)
Record Pending (H : Type) : Type := mkPending {
  pd_policy : RequestCachePolicy;
  pd_key : option string;
  pd_headers : H;
  pd_validation : option (CachedResponse H);
  pd_invalidation : option Uri;
}.
Arguments mkPending {H} _ _ _ _ _.
Arguments pd_policy {H} _.
Arguments pd_key {H} _.
Arguments pd_headers {H} _.
Arguments pd_validation {H} _.
Arguments pd_invalidation {H} _.

Section Interceptor.
#[local] Set Default Proof Using "Type*".
Context {H U S : Type} `{HeaderMapLaws H} `{CacheStoreLaws H S}.
Context (to_str : string → option string) (parse_http_date : string → option Z)
        (header_name : string → option string) (urls : UrlCrate U) (uri_text : Uri → string).

(** [normalize_cache_uri], openwire-cache/lib.rs:998-1023. *)
Definition normalize_cache_uri (uri : Uri) : string :=
  match url_parse urls (uri_text uri) with
  | None => uri_text uri
  | Some url =>
    let url := match url_host_str urls url with
               | Some host => url_set_host urls (to_ascii_lowercase host) url
               | None => url
               end in
    let url := if (String.eqb (url_scheme urls url) "http" && bool_decide (url_port urls url = Some 80)) ||
                  (String.eqb (url_scheme urls url) "https" && bool_decide (url_port urls url = Some 443))
               then url_set_port_none urls url else url in
    let url := if bool_decide (url_path urls url = EmptyString) then url_set_path urls "/" url else url in
    url_as_str urls url
  end.

(** [cache_key], openwire-cache/lib.rs:994-996. *)
Definition cache_key (uri : Uri) : string := normalize_cache_uri uri.

(** [same_host], openwire-cache/lib.rs:889-893. *)
Definition same_host (left right : U) : bool :=
  match url_host_str urls left, url_host_str urls right with
  | Some l, Some r => eq_ignore_ascii_case l r
  | _, _ => false
  end.

(** [same_host_invalidation_uri], openwire-cache/lib.rs:879-887. *)
Definition same_host_invalidation_uri (target_uri : Uri) (value : string) : option Uri :=
  target ← url_parse urls (uri_text target_uri);
  value ← to_str value;
  uri ← url_join urls target value;
  if same_host target uri then uri_parse urls (url_as_str urls uri) else None.

(** [invalidation_keys], openwire-cache/lib.rs:863-877. *)
Definition invalidation_keys (target_uri : Uri) (response : H) : list string :=
  let values := hm_get_all "location" response ++ hm_get_all "content-location" response in
  foldl push_unique [cache_key target_uri] (cache_key <$> omap (same_host_invalidation_uri target_uri) values).

(** [request_method_invalidates_cache], openwire-cache/lib.rs:852-857. *)
Definition request_method_invalidates_cache (m : Method) : bool :=
  negb (bool_decide (m ∈ [Method_GET; Method_HEAD; Method_Other "OPTIONS"; Method_Other "TRACE"])).

(** [response_status_invalidates_cache], openwire-cache/lib.rs:859-861. *)
Definition response_status_invalidates_cache (status : Z) : bool := is_success status || is_redirection status.

(** ** The interceptor *)

(** [build_response], openwire-cache/lib.rs:1025-1036. *)
Definition build_response (status : Z) (version : string) (h : H) (body : bytes) : Response H :=
  mkResponse status version h (Ok body) None false.

(** [gateway_timeout_response], openwire-cache/lib.rs:1038-1042, with the header map [empty]. *)
Definition gateway_timeout_response (empty : H) : Response H :=
  mkResponse GATEWAY_TIMEOUT "HTTP/1.1" empty (Ok []) None false.

(** [CachedResponse::into_response], openwire-cache/lib.rs:796-803. *)
Definition into_response (e : CachedResponse H) (now : Instant) : Response H :=
  let age := Z.min (as_secs (current_age e now)) MAX_DELTA_SECONDS in
  build_response (c_status e) (c_version e) (hm_insert "age" (pretty age) (c_headers e)) (c_body e).

(** The result of looking through the candidates, openwire-cache/lib.rs:67-82, newest first. *)
Inductive Lookup : Type := Lookup_Hit (e : CachedResponse H) | Lookup_Validate (e : CachedResponse H) | Lookup_Miss.

Fixpoint find_candidate (now : Instant) (p : RequestCachePolicy) (request : H) (es : list (CachedResponse H)) : Lookup :=
  match es with
  | [] => Lookup_Miss
  | e :: es =>
    if matches_request e p request then
      if lookup p && is_servable_for e now p then Lookup_Hit e
      else if negb (rp_only_if_cached p) && can_revalidate e request then Lookup_Validate e
      else Lookup_Miss
    else find_candidate now p request es
  end.

(** [intercept] up to the network, openwire-cache/lib.rs:54-98: a response, or what to send and remember.  [now] is the clock as
    read for the age of a matching entry, [served_at] as read when the entry is turned into the response. *)
Definition begin_intercept (empty : H) (now served_at : Instant) (s : S) (r : Request H) : Response H + Pending H * Request H :=
  let h := req_headers r in
  let invalidation := if request_method_invalidates_cache (req_method r) then Some (req_uri r) else None in
  let p := request_cache_policy to_str (req_method r) h (req_body r) in
  if is_cacheable p then
    let key := cache_key (req_uri r) in
    let go v r := if rp_only_if_cached p then inl (gateway_timeout_response empty)
                  else inr (mkPending p (Some key) h v invalidation, r) in
    match find_candidate now p h (reverse (cs_get_candidates key s)) with
    | Lookup_Hit e => inl (into_response e served_at)
    | Lookup_Validate e =>
      go (Some e) (mkRequest (req_method r) (req_uri r) (req_version r) (apply_revalidation_headers e h)
                     (req_extensions r) (req_body r))
    | Lookup_Miss => go None r
    end
  else inr (mkPending p None h None invalidation, r).

(** [remove_unusable_candidate], openwire-cache/lib.rs:826-850. *)
Definition remove_unusable_candidate (key : string) (pd : Pending H) : list (StoreOp H) :=
  if has_authorization (pd_policy pd) then
    match pd_validation pd with
    | Some e => [Op_RemoveCandidate key e]
    | None => [Op_RemoveMatching key (pd_policy pd) (pd_headers pd)]
    end
  else [Op_Remove key].

(** A response that is not the answer to a validation, openwire-cache/lib.rs:129-212. *)
Definition finish_fresh (clk : Clock) (key : string) (pd : Pending H) (response : Response H)
    : list (StoreOp H) * outcome WireError (Response H) :=
  let p := pd_policy pd in
  let h := res_headers response in
  if negb (store_response p) then ([], Ok response) else
  let d := directives_from_headers to_str h in
  if no_store d then (remove_unusable_candidate key pd, Ok response) else
  let v := validators_from_headers h in
  let lifetime := default 0 (response_freshness_lifetime to_str parse_http_date h d (clk_lifetime clk)) in
  if negb (response_is_storable h (res_status response) d v lifetime (has_authorization p)) then
    (if res_status response =? STATUS_OK then remove_unusable_candidate key pd else [], Ok response)
  else match capture to_str header_name h (pd_headers pd) with
  | None => (remove_unusable_candidate key pd, Ok response)
  | Some vary =>
    let vary := if has_authorization p then include_request_header vary "authorization" (pd_headers pd) else vary in
    match res_body response with
    | Err e => ([], Err e)
    | Panic => ([], Panic)
    | Ok body =>
      ([Op_Put key (new_with_vary to_str parse_http_date clk (res_status response) (res_version response) h body
                      lifetime vary (no_cache d) (must_revalidate d))],
       Ok (build_response (res_status response) (res_version response) h body))
    end
  end.

(** [intercept] from the network's answer on, openwire-cache/lib.rs:99-213; [served_at] is when a freshened
    entry is turned into the response. *)
Definition finish_intercept (clk : Clock) (served_at : Instant) (pd : Pending H) (result : WireError + Response H)
    : list (StoreOp H) * outcome WireError (Response H) :=
  match result with
  | inl e => ([], Err e)
  | inr response =>
    let invalidate :=
      match pd_invalidation pd with
      | Some target => if response_status_invalidates_cache (res_status response)
                       then Op_Remove <$> invalidation_keys target (res_headers response) else []
      | None => []
      end in
    let '(ops, out) :=
      match pd_key pd with
      | None => ([], Ok response)
      | Some key =>
        match pd_validation pd with
        | Some e =>
          if res_status response =? NOT_MODIFIED then
            match res_body response with
            | Err err => ([], Err err)
            | Panic => ([], Panic)
            | Ok _ =>
              let '(fresh, store) :=
                freshen_from_not_modified to_str parse_http_date header_name clk e (res_headers response) (pd_headers pd) in
              ([if store then Op_Put key fresh else Op_RemoveCandidate key e], Ok (into_response fresh served_at))
            end
          else finish_fresh clk key pd response
        | None => finish_fresh clk key pd response
        end
      end in
    (invalidate ++ ops, out)
  end.

(** One store operation: the store afterwards and the operations it leads to. *)
Definition exec_op (op : StoreOp H) (s : S) : S * list (StoreOp H) :=
  match op with
  | Op_Remove k => (cs_remove k s, [])
  | Op_RemoveCandidate k e => (cs_remove_candidate k e s, [])
  | Op_Put k e => (cs_put_candidate k e s, [])
  | Op_RemoveMatching k p request =>
    (s, Op_RemoveCandidate k <$> filter (λ e, matches_request e p request = true) (cs_get_candidates k s))
  end.

(** ** Many calls at once *)

(** An exchange with the network that was stored: its key, the request's headers and the response. *)
Record Stored : Type := mkStored { st_key : string; st_request : H; st_response : Response H }.

(** The store, the calls waiting for the network, the operations each finished call still has to make,
    and the exchanges so far. *)
Record CacheSystem : Type := mkSystem {
  cy_store : S;
  cy_pending : list (Pending H);
  cy_tasks : list (list (StoreOp H));
  cy_log : list Stored;
}.

(** The exchange a call completes. *)
Definition exchange_of (pd : Pending H) (response : Response H) : list Stored :=
  match pd_key pd with Some k => [mkStored k (pd_headers pd) response] | None => [] end.

Inductive cache_step (empty : H) : CacheSystem → CacheSystem → Prop :=
| Step_begin s ps ts log now served_at r pd r' :
    begin_intercept empty now served_at s r = inr (pd, r') →
    cache_step empty (mkSystem s ps ts log) (mkSystem s (pd :: ps) ts log)
| Step_finish s ps1 pd ps2 ts log clk served_at response ops out :
    finish_intercept clk served_at pd (inr response) = (ops, out) →
    cache_step empty (mkSystem s (ps1 ++ pd :: ps2) ts log)
      (mkSystem s (ps1 ++ ps2) (ops :: ts) (exchange_of pd response ++ log))
| Step_fail s ps1 pd ps2 ts log :
    cache_step empty (mkSystem s (ps1 ++ pd :: ps2) ts log) (mkSystem s (ps1 ++ ps2) ts log)
| Step_op s ps ts1 op ops ts2 log s' more :
    exec_op op s = (s', more) →
    cache_step empty (mkSystem s ps (ts1 ++ (op :: ops) :: ts2) log)
      (mkSystem s' ps (ts1 ++ (more ++ ops) :: ts2) log).

(** *** Where entries come from *)

(** The Authorization values an entry is for. *)
Definition auth_agrees (v : CapturedVary) (auth : list string) : Prop :=
  (∀ f, f ∈ vary_fields v → vf_name f = "authorization"%string → vf_values f = auth) ∧
  (tracks_request_header v "authorization" = false → auth = []).

(** An entry holds the body of an exchange that could be stored. *)
Record from_exchange (e : CachedResponse H) (x : Stored) : Prop := mkFromExchange {
  fx_status : res_status (st_response x) = STATUS_OK ∧ c_status e = STATUS_OK;
  fx_body : res_body (st_response x) = Ok (c_body e);
  fx_set_cookie : hm_get_all "set-cookie" (res_headers (st_response x)) = [];
  fx_no_store : no_store (directives_from_headers to_str (res_headers (st_response x))) = false;
  fx_auth : auth_agrees (c_vary e) (hm_get_all "authorization" (st_request x));
}.

Definition sourced (log : list Stored) (k : string) (e : CachedResponse H) : Prop :=
  ∃ x, x ∈ log ∧ st_key x = k ∧ from_exchange e x.

Definition policy_of (p : RequestCachePolicy) (request : H) : Prop :=
  has_authorization p = hm_contains "authorization" request.

Definition pending_ok (log : list Stored) (pd : Pending H) : Prop :=
  policy_of (pd_policy pd) (pd_headers pd) ∧
  ∀ e, pd_validation pd = Some e →
    ∃ k, pd_key pd = Some k ∧ sourced log k e ∧ matches_request e (pd_policy pd) (pd_headers pd) = true.

Definition op_ok (log : list Stored) (op : StoreOp H) : Prop :=
  match op with Op_Put k e => sourced log k e | _ => True end.

Record system_ok (sys : CacheSystem) : Prop := mkSystemOk {
  so_store : ∀ k e, e ∈ cs_get_candidates k (cy_store sys) → sourced (cy_log sys) k e;
  so_pending : Forall (pending_ok (cy_log sys)) (cy_pending sys);
  so_tasks : Forall (Forall (op_ok (cy_log sys))) (cy_tasks sys);
}.

Lemma sourced_mono log more k e : sourced log k e → sourced (more ++ log) k e.
Proof. intros (x & Hx & ?). exists x. split; [|done]. apply elem_of_app. by right. Qed.

Lemma pending_ok_mono log more pd : pending_ok log pd → pending_ok (more ++ log) pd.
Proof.
  intros [Hp Hv]. split; [done|]. intros e He. destruct (Hv e He) as (k & ? & ? & ?).
  exists k. split_and!; [done|by apply sourced_mono|done].
Qed.

Lemma op_ok_mono log more op : op_ok log op → op_ok (more ++ log) op.
Proof. destruct op; [done|done|apply sourced_mono|done]. Qed.

Lemma no_auth_values (h : H) : hm_contains "authorization" h = false → hm_get_all "authorization" h = [].
Proof.
  intros Hc. destruct (hm_get_all "authorization" h) eqn:E; [done|].
  assert (hm_contains "authorization" h = true) by (apply hm_contains_spec; by rewrite E). congruence.
Qed.

(** A request an entry matches has the Authorization the entry is for. *)
Lemma matches_auth e p request auth :
  policy_of p request → matches_request e p request = true → auth_agrees (c_vary e) auth →
  hm_get_all "authorization" request = auth.
Proof.
  unfold policy_of, matches_request. intros Hp Hm [Hval Hnone].
  destruct (tracks_request_header (c_vary e) "authorization") eqn:Ht.
  - rewrite andb_false_r in Hm. apply tracks_spec, list_elem_of_fmap in Ht as (f & Hn & Hf); [|done..].
    rewrite <- (Hval f Hf (eq_sym Hn)), (vary_matches_field _ _ _ Hm Hf). by rewrite <- Hn.
  - rewrite Hnone by done. destruct (has_authorization p); [done|]. by apply no_auth_values.
Qed.

(** What a request captured agrees with its own Authorization. *)
Lemma captured_agrees v (request : H) :
  captured request (vary_fields v) →
  (hm_get_all "authorization" request ≠ [] → tracks_request_header v "authorization" = true) →
  auth_agrees v (hm_get_all "authorization" request).
Proof.
  intros Hc Ht. split.
  - intros f Hf Hn. unfold captured in Hc. rewrite Forall_forall in Hc. rewrite (Hc f Hf). by rewrite Hn.
  - intros Hno. destruct (hm_get_all "authorization" request); [done|]. by rewrite Ht in Hno.
Qed.

Lemma finish_fresh_ops clk key pd response ops out op :
  policy_of (pd_policy pd) (pd_headers pd) →
  finish_fresh clk key pd response = (ops, out) → op ∈ ops →
  op_ok [mkStored key (pd_headers pd) response] op.
Proof.
  intros Hp. unfold finish_fresh.
  assert (Hrem : ∀ o, op ∈ (remove_unusable_candidate key pd) → op_ok o op).
  { intros o. unfold remove_unusable_candidate. repeat case_match; intros ->%list_elem_of_singleton; done. }
  destruct (negb (store_response _)); [intros [= <- <-] Hop; by apply elem_of_nil in Hop|].
  destruct (no_store _) eqn:Hns; [intros [= <- <-]; apply Hrem|].
  destruct (negb (response_is_storable _ _ _ _ _ _)) eqn:Hst.
  { intros [= <- <-]. destruct (_ =? _); [apply Hrem|intros Hop; by apply elem_of_nil in Hop]. }
  destruct (capture _ _ _ _) as [v|] eqn:Hv; [|intros [= <- <-]; apply Hrem].
  destruct (res_body response) as [b| |] eqn:Hb; [|intros [= <- <-] Hop; by apply elem_of_nil in Hop..].
  intros [= <- <-] ->%list_elem_of_singleton. simpl. eexists. split; [left|]. split; [done|].
  apply negb_false_iff in Hst. unfold response_is_storable in Hst. rewrite !andb_true_iff, Z.eqb_eq in Hst.
  destruct Hst as [[[[[Hok Hsc] _] _] _] _]. constructor; cbn.
  - done.
  - done.
  - apply negb_true_iff in Hsc. destruct (hm_get_all "set-cookie" _) eqn:E; [done|].
    assert (hm_contains "set-cookie" (res_headers response) = true) by (apply hm_contains_spec; by rewrite E). congruence.
  - done.
  - apply capture_captured in Hv. apply captured_agrees.
    + destruct (has_authorization _); [by apply include_captured|done].
    + intros Hne. rewrite Hp. rewrite (proj2 (hm_contains_spec _ _) Hne). apply include_tracks.
Qed.

Lemma freshen_sourced clk log k e p validation request fresh :
  sourced log k e → policy_of p request → matches_request e p request = true →
  freshen_from_not_modified to_str parse_http_date header_name clk e validation request = (fresh, true) →
  sourced log k fresh.
Proof.
  intros (x & Hx & Hk & [[Hs Hs'] Hb Hsc Hns Hauth]) Hp Hm. unfold freshen_from_not_modified.
  destruct (capture _ _ _ _) as [v|] eqn:Hv; simpl; [|intros [= _ ?]; done].
  intros [= <- _]. exists x. split_and!; [done|done|]. constructor; cbn; try done.
  pose proof (matches_auth _ _ _ _ Hp Hm Hauth) as Hsame. rewrite <- Hsame. apply capture_captured in Hv.
  apply captured_agrees.
  - destruct (tracks_request_header (c_vary e) "authorization"); [by apply include_captured|done].
  - rewrite Hsame. intros Hne. destruct (tracks_request_header (c_vary e) "authorization") eqn:Ht; [apply include_tracks|].
    by destruct (proj2 Hauth Ht).
Qed.

Lemma finish_intercept_ops clk served_at pd response ops out log :
  pending_ok log pd → finish_intercept clk served_at pd (inr response) = (ops, out) →
  Forall (op_ok (exchange_of pd response ++ log)) ops.
Proof.
  intros [Hp Hv] Hf. apply Forall_forall. intros op Hop. unfold finish_intercept in Hf. revert Hf.
  set (inv := match pd_invalidation pd with Some _ => _ | None => _ end).
  assert (Hinv : op ∈ inv → op_ok (exchange_of pd response ++ log) op).
  { unfold inv. destruct (pd_invalidation pd); [|by intros ?%elem_of_nil].
    destruct (response_status_invalidates_cache _); [|by intros ?%elem_of_nil].
    intros (k & -> & _)%list_elem_of_fmap. done. }
  unfold exchange_of in *. destruct (pd_key pd) as [key|] eqn:Hkey.
  2: { intros [= <- _]. rewrite app_nil_r in Hop. auto. }
  assert (Hfresh : ∀ ops' out', finish_fresh clk key pd response = (ops', out') → op ∈ ops' →
                   op_ok ([mkStored key (pd_headers pd) response] ++ log) op).
  { intros ops' out' Hff Hin. pose proof (finish_fresh_ops _ _ _ _ _ _ _ Hp Hff Hin) as Hok.
    destruct op; try done. destruct Hok as (x & Hx & ?). exists x. split; [|done].
    apply elem_of_app. by left. }
  assert (Hgo : (let '(ops0, out0) := finish_fresh clk key pd response in (inv ++ ops0, out0)) = (ops, out) →
                op_ok ([mkStored key (pd_headers pd) response] ++ log) op).
  { destruct (finish_fresh clk key pd response) as [ops0 out0] eqn:Hff. intros [= <- _].
    apply elem_of_app in Hop as [?|?]; eauto. }
  destruct (pd_validation pd) as [e|]; [|done]. destruct (res_status response =? NOT_MODIFIED); [|done].
  destruct (Hv e eq_refl) as (k & [= <-] & Hsrc & Hm).
  destruct (res_body response); [|intros [= <- _]; rewrite app_nil_r in Hop; auto..].
  destruct (freshen_from_not_modified _ _ _ _ _ _ _) as [fresh store] eqn:Hfr. intros [= <- _].
  apply elem_of_app in Hop as [?| ->%list_elem_of_singleton]; [auto|].
  destruct store; [|done]. apply (sourced_mono log [_]). by eapply freshen_sourced.
Qed.

Lemma find_candidate_spec now p request es :
  match find_candidate now p request es with
  | Lookup_Hit e => e ∈ es ∧ matches_request e p request = true ∧ lookup p = true ∧ is_servable_for e now p = true
  | Lookup_Validate e => e ∈ es ∧ matches_request e p request = true
  | Lookup_Miss => True
  end.
Proof.
  induction es as [|e es IH]; cbn; [done|]. destruct (matches_request e p request) eqn:Hm.
  - destruct (lookup p && is_servable_for e now p) eqn:Hs.
    + apply andb_true_iff in Hs as [? ?]. split_and!; [left|done..].
    + destruct (negb _ && _); [|done]. split; [left|done].
  - destruct (find_candidate _ _ _ es); [|..|done]; destruct_and!; split_and!; try done; by right.
Qed.

Lemma begin_pending empty now served_at s r pd r' log :
  (∀ k e, e ∈ cs_get_candidates k s → sourced log k e) →
  begin_intercept empty now served_at s r = inr (pd, r') → pending_ok log pd.
Proof.
  intros Hs. unfold begin_intercept.
  set (p := request_cache_policy _ _ _ _). set (key := cache_key (req_uri r)).
  pose proof (find_candidate_spec now p (req_headers r) (reverse (cs_get_candidates key s))) as Hf.
  destruct (is_cacheable p); [|intros [= <- _]; split; done].
  destruct (find_candidate _ _ _ _) as [e|e|]; [done| |]; destruct (rp_only_if_cached p); try done; intros [= <- _].
  - split; [done|]. intros e' [= <-]. destruct Hf as [He Hm]. exists key. split_and!; [done| |done].
    apply Hs. by rewrite elem_of_reverse in He.
  - split; done.
Qed.

Lemma system_ok_step empty sys sys' : system_ok sys → cache_step empty sys sys' → system_ok sys'.
Proof.
  intros [Hs Hp Ht] Hstep. destruct Hstep as [s ps ts log now served_at r pd r' Hb|s ps1 pd ps2 ts log clk at_ response ops out Hf|
      s ps1 pd ps2 ts log|s ps ts1 op ops ts2 log s' more He]; cbn [cy_store cy_pending cy_tasks cy_log] in *.
  - constructor; cbn; [done| |done]. constructor; [by eapply begin_pending|done].
  - apply Forall_app in Hp as [Hp1 [Hpd Hp2]%Forall_cons]. constructor; cbn.
    + intros k e Hin. by apply sourced_mono, Hs.
    + apply Forall_app; split; (eapply Forall_impl; [done|]); intros; by apply pending_ok_mono.
    + constructor; [by eapply finish_intercept_ops|].
      eapply Forall_impl; [done|]. intros l Hl. eapply Forall_impl; [done|]. intros; by apply op_ok_mono.
  - apply Forall_app in Hp as [Hp1 [_ Hp2]%Forall_cons]. constructor; cbn; [done|by apply Forall_app|done].
  - apply Forall_app in Ht as [Ht1 [[Hop Hops]%Forall_cons Ht2]%Forall_cons].
    assert (Hmore : Forall (op_ok log) more ∧ ∀ k e, e ∈ cs_get_candidates k s' → sourced log k e).
    { destruct op as [k|k e|k e|k p request]; injection He as <- <-; split; try constructor.
      - intros k' e' [? _]%cs_remove_from. auto.
      - intros k' e' ?%cs_remove_candidate_from. auto.
      - intros k' e' [? | [-> ->]]%cs_put_candidate_from; auto.
      - apply Forall_fmap, Forall_forall. intros e _. done.
      - done. }
    constructor; cbn; [apply Hmore|done|]. apply Forall_app. split; [done|]. constructor; [|done].
    apply Forall_app. split; [apply Hmore|done].
Qed.

(** The states reachable from a store without entries. *)
Inductive cache_reachable (empty : H) : CacheSystem → Prop :=
| Reach_init s : (∀ k, cs_get_candidates k s = []) → cache_reachable empty (mkSystem s [] [] [])
| Reach_step sys sys' : cache_reachable empty sys → cache_step empty sys sys' → cache_reachable empty sys'.

Lemma cache_reachable_ok empty sys : cache_reachable empty sys → system_ok sys.
Proof.
  induction 1 as [s Hs|sys sys' _ IH Hstep]; [|by eapply system_ok_step].
  constructor; cbn; [|constructor..]. intros k e. rewrite Hs. by intros ?%elem_of_nil.
Qed.

(** C3.  The cache never serves one user's response to another, and invents nothing: however the store
    operations of concurrent calls interleave and whatever the servers answered, a response served from
    the cache carries the body of an earlier exchange for the same key whose request had exactly the same
    Authorization header, whose response was a 200 without Set-Cookie and without no-store. *)
Theorem cache_hit_provenance empty sys now served_at r response :
  cache_reachable empty sys → begin_intercept empty now served_at (cy_store sys) r = inl response →
  response = gateway_timeout_response empty ∨
  ∃ x, x ∈ cy_log sys ∧ st_key x = cache_key (req_uri r) ∧
    hm_get_all "authorization" (st_request x) = hm_get_all "authorization" (req_headers r) ∧
    res_status response = STATUS_OK ∧ res_status (st_response x) = STATUS_OK ∧
    res_body response = res_body (st_response x) ∧
    hm_get_all "set-cookie" (res_headers (st_response x)) = [] ∧
    no_store (directives_from_headers to_str (res_headers (st_response x))) = false.
Proof.
  intros Hr%cache_reachable_ok. unfold begin_intercept.
  set (p := request_cache_policy _ _ _ _). set (key := cache_key (req_uri r)).
  pose proof (find_candidate_spec now p (req_headers r) (reverse (cs_get_candidates key (cy_store sys)))) as Hf.
  destruct (is_cacheable p); [|done].
  destruct (find_candidate _ _ _ _) as [e|e|]; [|destruct (rp_only_if_cached p); [intros [= <-]; by left|done]..].
  intros [= <-]. right. destruct Hf as (He & Hm & _). rewrite elem_of_reverse in He.
  destruct (so_store _ Hr key e He) as (x & Hx & Hk & [[? ?] Hb ? ? Hauth]). exists x.
  split_and!; try done. symmetry. by eapply (matches_auth e p).
Qed.

(** C19.  A response served from the cache is one the request accepts: the entry was not marked for
    validation, and either it is younger than both its own freshness lifetime and the request's max-age,
    with the request's min-fresh to spare, or the request allows that much staleness and the response
    does not insist on revalidation.  The Age header tells the entry's age in
    seconds, by the clock as it is read again when the response is made. *)
Theorem cache_hit_fresh empty now served_at s r response :
  begin_intercept empty now served_at s r = inl response →
  response = gateway_timeout_response empty ∨
  ∃ e, e ∈ cs_get_candidates (cache_key (req_uri r)) s ∧ response = into_response e served_at ∧ c_must_validate e = false ∧
    let d := request_cache_directives to_str (req_headers r) in
    let lifetime := from_option (Z.min (c_freshness_lifetime e)) (c_freshness_lifetime e) (max_age d) in
    no_cache d = false ∧
    ((current_age e now < lifetime ∧ ∀ mf, min_fresh d = Some mf → current_age e now + mf ≤ lifetime) ∨
     (c_must_revalidate e = false ∧ min_fresh d = None ∧
      (max_stale d = Some MaxStale_Any ∨
       ∃ l, max_stale d = Some (MaxStale_Limit l) ∧ current_age e now - lifetime ≤ l))) ∧
    hm_get_all "age" (res_headers response) = [pretty (Z.min (as_secs (current_age e served_at)) MAX_DELTA_SECONDS)].
Proof.
  unfold begin_intercept. set (p := request_cache_policy _ _ _ _). set (key := cache_key (req_uri r)).
  pose proof (find_candidate_spec now p (req_headers r) (reverse (cs_get_candidates key s))) as Hf.
  destruct (is_cacheable p); [|done].
  destruct (find_candidate _ _ _ _) as [e|e|]; [|destruct (rp_only_if_cached p); [intros [= <-]; by left|done]..].
  intros [= <-]. right. destruct Hf as (He & _ & Hl & Hserv). rewrite elem_of_reverse in He.
  apply is_servable_for_iff in Hserv as [Hmv Hacc]. exists e. split_and!; [done|done|done| | |].
  - unfold p, request_cache_policy in Hl. cbn in Hl. apply andb_true_iff in Hl as [[_ Hl]%andb_true_iff _].
    by apply negb_true_iff in Hl.
  - destruct Hacc as [[Hlt Hmf]|(Hr & Hn & Hs)]; [left|right].
    + split; [exact Hlt|]. intros mf Hmf'. by apply Hmf.
    + split_and!; [done|done|]. destruct Hs as [?|(l & ? & ?)]; [by left|right]. exists l. split; [done|].
      unfold effective_freshness_lifetime in *. cbn in *. lia.
  - cbn. apply hm_insert_eq.
Qed.

(** *** Storing and serving again *)

Lemma captured_matches v (request : H) : captured request (vary_fields v) → vary_matches v request = true.
Proof using H1.
  intros Hc. apply forallb_forall. intros f Hf%list_elem_of_In. apply bool_decide_eq_true.
  unfold captured in Hc. rewrite Forall_forall in Hc. symmetry. by apply Hc.
Qed.

Lemma begin_intercept_pending empty now served_at s r pd r' :
  begin_intercept empty now served_at s r = inr (pd, r') →
  pd_policy pd = request_cache_policy to_str (req_method r) (req_headers r) (req_body r) ∧
  pd_headers pd = req_headers r ∧ (∀ k, pd_key pd = Some k → k = cache_key (req_uri r)).
Proof using H1.
  unfold begin_intercept. destruct (is_cacheable _); [|intros [= <- _]; cbn; by split_and!].
  destruct (find_candidate _ _ _ _); [done| |]; destruct (rp_only_if_cached _); try done; intros [= <- _]; cbn;
    split_and!; [done|done|by intros k [= <-]|done|done|by intros k [= <-]].
Qed.

(** An entry made for a request is one that request matches. *)
Lemma finish_fresh_put clk key pd response ops out k e :
  policy_of (pd_policy pd) (pd_headers pd) → finish_fresh clk key pd response = (ops, out) → Op_Put k e ∈ ops →
  k = key ∧ matches_request e (pd_policy pd) (pd_headers pd) = true ∧ res_body response = Ok (c_body e) ∧
  c_status e = res_status response.
Proof using H1.
  intros Hp. unfold finish_fresh.
  assert (Hrem : Op_Put k e ∉ remove_unusable_candidate key pd).
  { unfold remove_unusable_candidate. repeat case_match; by intros ?%list_elem_of_singleton. }
  destruct (negb (store_response _)); [intros [= <- <-] Hop; by apply elem_of_nil in Hop|].
  destruct (no_store _); [intros [= <- <-] Hop; done|].
  destruct (negb (response_is_storable _ _ _ _ _ _)).
  { intros [= <- <-]. destruct (_ =? _); [done|intros Hop; by apply elem_of_nil in Hop]. }
  destruct (capture _ _ _ _) as [v|] eqn:Hv; [|intros [= <- <-] Hop; done].
  destruct (res_body response) as [b| |] eqn:Hb; [|intros [= <- <-] Hop; by apply elem_of_nil in Hop..].
  intros [= <- <-] [= -> ->]%list_elem_of_singleton. apply capture_captured in Hv. split_and!; [done| |done|done].
  unfold matches_request, new_with_vary. cbn [c_vary]. destruct (has_authorization (pd_policy pd)).
  - rewrite include_tracks. by apply captured_matches, include_captured.
  - by apply captured_matches.
Qed.

(** The newest candidate that matches decides. *)
Lemma find_candidate_first now p (request : H) pre e post :
  Forall (λ x, matches_request x p request = false) post → matches_request e p request = true →
  find_candidate now p request (reverse (pre ++ e :: post)) = find_candidate now p request [e].
Proof using H1.
  intros Hpost He. rewrite reverse_app, reverse_cons, <-app_assoc. cbn [app].
  assert (Hrev : Forall (λ x, matches_request x p request = false) (reverse post)) by (by apply Forall_reverse). clear Hpost.
  induction Hrev as [|x l Hx _ IH]; cbn [app find_candidate]; [by rewrite He|by rewrite Hx].
Qed.

Lemma begin_intercept_hit empty now served_at s r e pre post :
  let p := request_cache_policy to_str (req_method r) (req_headers r) (req_body r) in
  cs_get_candidates (cache_key (req_uri r)) s = pre ++ e :: post →
  Forall (λ x, matches_request x p (req_headers r) = false) post → lookup p = true →
  matches_request e p (req_headers r) = true → is_servable_for e now p = true →
  begin_intercept empty now served_at s r = inl (into_response e served_at).
Proof using H1.
  intros p Hc Hpost Hl Hm Hs. unfold begin_intercept. fold p.
  assert (is_cacheable p = true) as ->.
  { unfold p, request_cache_policy in Hl |- *. cbn in Hl |- *. by apply andb_true_iff in Hl as [[? _]%andb_true_iff _]. }
  rewrite Hc, find_candidate_first by done. cbn [find_candidate]. by rewrite Hm, Hl, Hs.
Qed.
End Interceptor.

Section RoundTrip.
#[local] Set Default Proof Using "Type*".
Context {H U : Type} `{HeaderMapLaws H} (first_key : gmap string (list (CachedResponse H)) → option string).
Context (to_str : string → option string) (parse_http_date : string → option Z)
        (header_name : string → option string) (urls : UrlCrate U) (uri_text : Uri → string).

Lemma drop_while_false test fuel m : test m = false → drop_while first_key test fuel m = m.
Proof. destruct fuel; cbn; [done|]. by intros ->. Qed.

Lemma bytes_of_cons (e : CachedResponse H) es : bytes_of (e :: es) = body_len e + bytes_of es.
Proof. done. Qed.

Lemma bytes_of_replace (e : CachedResponse H) es : bytes_of (replace_variant e es) ≤ bytes_of es + len (c_body e).
Proof.
  induction es as [|x es IH]; [cbn; unfold bytes_of, body_len; cbn; lia|]. cbn [replace_variant].
  assert (0 ≤ body_len x) by apply len_nonneg. destruct (same_variant_as x e); rewrite !bytes_of_cons; unfold body_len in *; lia.
Qed.

(** With room, an entry joins the others of its key and nothing is evicted. *)
Lemma put_candidate_room k e (s : MemoryCacheStore H) :
  Z.of_nat (size (entries s)) < max_entries s → total_body_bytes (entries s) + len (c_body e) ≤ max_body_bytes s →
  memory_get_candidates k (memory_put_candidate first_key k e s) = replace_variant e (memory_get_candidates k s).
Proof.
  intros Hn Hb. unfold memory_put_candidate, memory_get_candidates, body_len. pose proof (total_nonneg (entries s)) as Ht.
  destruct (Z.ltb_spec (max_body_bytes s) (len (c_body e))); [lia|].
  set (m := <[k := replace_variant e (default [] (entries s !! k))]> (entries s)).
  assert (Hsz : Z.of_nat (size m) ≤ max_entries s).
  { unfold m. destruct (entries s !! k) as [es|] eqn:E; [rewrite map_size_insert_Some by eauto|rewrite map_size_insert_None by done]; lia. }
  assert (Htot : total_body_bytes m ≤ max_body_bytes s).
  { unfold m. pose proof (bytes_of_replace e (default [] (entries s !! k))) as Hr. destruct (entries s !! k) as [es|] eqn:E; cbn [default id] in *.
    - rewrite <-insert_delete_eq, total_insert by apply lookup_delete_eq. rewrite (total_delete _ _ _ E) in Hb. lia.
    - rewrite total_insert by done. change (bytes_of (@nil (CachedResponse H))) with 0 in Hr. lia. }
  unfold enforce_limits.
  rewrite (drop_while_false (λ m, max_entries s <? Z.of_nat (size m)) (size m) m) by (by apply Z.ltb_ge).
  rewrite drop_while_false by (rewrite (proj2 (Z.ltb_ge _ _)) by done; done).
  cbn. unfold m. by rewrite lookup_insert_eq.
Qed.

(** Where the entry is, and that those after it were there and are of other variants. *)
Lemma replace_variant_split (e : CachedResponse H) es :
  variants_distinct es →
  ∃ pre post, replace_variant e es = pre ++ e :: post ∧ Forall (λ x, x ∈ es ∧ same_variant_as x e = false) post.
Proof.
  unfold variants_distinct. induction es as [|x es IH]; intros Hd; [by exists [], []|]. apply NoDup_cons in Hd as [Hx Hd]. cbn [replace_variant].
  destruct (same_variant_as x e) eqn:E.
  - exists [], es. split; [done|]. apply Forall_forall. intros y Hy. split; [by right|]. unfold same_variant_as in *.
    apply bool_decide_eq_true in E. apply bool_decide_eq_false. rewrite <-E. intros Hyx. apply Hx. rewrite <-Hyx. by apply list_elem_of_fmap_2.
  - destruct (IH Hd) as (pre & post & -> & Hpost). exists (x :: pre), post. split; [done|]. eapply Forall_impl; [exact Hpost|]. cbn.
    intros y [? ?]. split; [by right|done].
Qed.

(** C35.  What the cache stores it serves: if a request misses and its response is stored - in the memory store as
    it is by then, with room for the entry, and holding no response of another variant for the same key that
    matches the request - then the same request, if it looks up and at any time at which the new entry is
    acceptable to it, is answered from the cache with the network response's own status and body, and the network
    is not asked; whether the entry is the first for its key, stands beside other variants or replaces its own. *)
Theorem cache_stores_then_serves empty now checked_at clk served_at s0 s r pd r' response ops out k e now' served_at' :
  begin_intercept (S := MemoryCacheStore H) (H2 := memory_store first_key) to_str urls uri_text empty now checked_at s0 r = inr (pd, r') →
  pd_validation pd = None →
  finish_intercept to_str parse_http_date header_name urls uri_text clk served_at pd (inr response) = (ops, out) →
  Op_Put k e ∈ ops →
  memory_ok s → Z.of_nat (size (entries s)) < max_entries s →
  total_body_bytes (entries s) + len (c_body e) ≤ max_body_bytes s →
  (∀ x, x ∈ memory_get_candidates k s → same_variant_as x e = false → matches_request x (pd_policy pd) (req_headers r) = false) →
  lookup (pd_policy pd) = true → is_servable_for e now' (pd_policy pd) = true →
  let s' := memory_put_candidate first_key k e s in
  ∃ served, begin_intercept (S := MemoryCacheStore H) (H2 := memory_store first_key) to_str urls uri_text empty now' served_at' s' r = inl served ∧
    res_body served = res_body response ∧ res_status served = res_status response.
Proof.
  intros Hb Hval Hf Hop Hok Hn Hbytes Hothers Hl Hserv s'.
  apply begin_intercept_pending in Hb as (Hp & Hh & Hkey).
  assert (Hpol : policy_of (pd_policy pd) (pd_headers pd)) by (rewrite Hp, Hh; done).
  unfold finish_intercept in Hf. rewrite Hval in Hf.
  destruct (pd_key pd) as [key|]; [|injection Hf as <- _; rewrite app_nil_r in Hop].
  2: { exfalso. revert Hop. destruct (pd_invalidation pd); [|by intros ?%elem_of_nil].
       destruct (response_status_invalidates_cache _); [|by intros ?%elem_of_nil]. by intros (? & ? & _)%list_elem_of_fmap. }
  destruct (finish_fresh _ _ _ _ _ _ _) as [ops' out'] eqn:Hff. injection Hf as <- _.
  apply elem_of_app in Hop as [Hop|Hop].
  { exfalso. revert Hop. destruct (pd_invalidation pd); [|by intros ?%elem_of_nil].
    destruct (response_status_invalidates_cache _); [|by intros ?%elem_of_nil]. by intros (? & ? & _)%list_elem_of_fmap. }
  destruct (finish_fresh_put _ _ _ _ _ _ _ _ _ _ _ Hpol Hff Hop) as (-> & Hm & Hbody & Hstatus).
  pose proof (Hkey key eq_refl) as ->. exists (into_response e served_at'). split_and!; [|cbn; congruence..].
  assert (Hd : variants_distinct (memory_get_candidates (cache_key urls uri_text (req_uri r)) s)).
  { unfold memory_get_candidates. destruct (entries s !! _) as [es|] eqn:E; [by eapply mo_buckets|constructor]. }
  destruct (replace_variant_split e _ Hd) as (pre & post & Hsplit & Hpost). rewrite Hp, Hh in *.
  eapply begin_intercept_hit; [etrans; [by apply put_candidate_room|exact Hsplit]| |done..].
  eapply Forall_impl; [exact Hpost|]. cbn. intros x [Hx Hv]. by apply Hothers.
Qed.
End RoundTrip.

(** ** A concrete cache *)

Module CacheDemo.
Abbreviation Headers := (list (string * string)).
Definition first_key (m : gmap string (list (CachedResponse Headers))) : option string := fst <$> head (map_to_list m).
#[global] Instance store : CacheStore Headers (MemoryCacheStore Headers) := memory_store first_key.

Lemma first_key_names : names_a_key first_key.
Proof.
  intros m. unfold first_key. destruct (map_to_list m) as [|[k es] l] eqn:E; cbn; [by apply map_to_list_empty_iff|].
  exists es. apply elem_of_map_to_list. rewrite E. left.
Qed.
#[global] Instance store_laws : CacheStoreLaws Headers (MemoryCacheStore Headers) := memory_store_laws first_key first_key_names.

(** No URL parses, so a key is the text of the address. *)
Definition urls : UrlCrate unit :=
  mkUrlCrate unit (λ _, None) (λ _ _, None) (λ _, None) (λ _ u, u) (λ _, "") (λ _, None) (λ u, u) (λ _, "") (λ _ u, u)
    (λ _, "") (λ _, None).
Definition uri : Uri := mkUri (Some "http") (Some "example.test") (Some "example.test") None "/a".
Definition uri_text (u : Uri) : string := uri_path_and_query u.
Definition request : Request Headers :=
  mkRequest Method_GET uri "HTTP/1.1" [("authorization", "Bearer t")] no_extensions Body_Absent.
Definition response : Response Headers :=
  mkResponse STATUS_OK "HTTP/1.1" [("cache-control", "public, max-age=60")] (Ok [1; 2; 3]) None false.
Definition clock : Clock := mkClock 0 0 0.

Definition empty_store : MemoryCacheStore Headers := with_limits 8 1024.
Definition pending : Pending Headers :=
  match begin_intercept Some urls uri_text [] 0 0 empty_store request with
  | inr (pd, _) => pd
  | inl _ => mkPending (request_cache_policy Some Method_GET [] Body_Absent) None [] None None
  end.
Definition stored : CachedResponse Headers :=
  new_with_vary Some (λ _, None) clock STATUS_OK "HTTP/1.1" (res_headers response) [1; 2; 3] (60 * 1000000000)
    (mkVary [mkVaryField "authorization" ["Bearer t"]]) false false.
Definition full_store : MemoryCacheStore Headers := memory_put_candidate first_key "/a" stored empty_store.
Definition after : CacheSystem := mkSystem full_store [] [[]] (exchange_of pending response).

(** A store that already keeps the same address for another user. *)
Definition stored_other : CachedResponse Headers :=
  new_with_vary Some (λ _, None) clock STATUS_OK "HTTP/1.1" (res_headers response) [9] (60 * 1000000000)
    (mkVary [mkVaryField "authorization" ["Bearer u"]]) false false.
Definition other_store : MemoryCacheStore Headers := memory_put_candidate first_key "/a" stored_other empty_store.
Definition two_variants : MemoryCacheStore Headers := memory_put_candidate first_key "/a" stored other_store.

Lemma other_store_ok : memory_ok other_store.
Proof. apply put_candidate_ok; [apply first_key_names|done..|]. by apply with_limits_ok. Qed.

(** The side condition of the round trip is needed.  A response takes the place of the one of its own variant,
    and the search starts at the end of the list, so a response of another variant that was first stored later
    and also matches is found before it: when that one is stale the request goes to the network. *)
Definition anonymous : Request Headers :=
  mkRequest Method_GET uri "HTTP/1.1" [("x", "1")] no_extensions Body_Absent.
Definition varied (body : list Z) : CachedResponse Headers :=
  new_with_vary Some (λ _, None) clock STATUS_OK "HTTP/1.1" (res_headers response) body (60 * 1000000000)
    (mkVary [mkVaryField "x" ["1"]]) false false.
Definition stale_unvarying : CachedResponse Headers :=
  new_with_vary Some (λ _, None) clock STATUS_OK "HTTP/1.1" (res_headers response) [7] 0 (mkVary []) false false.
Definition shadowed_store : MemoryCacheStore Headers :=
  foldl (λ s e, memory_put_candidate first_key "/a" e s) empty_store [varied [1]; stale_unvarying; varied [2]].

Example newer_entry_shadowed :
  let p := request_cache_policy Some Method_GET (req_headers anonymous) Body_Absent in
  memory_get_candidates "/a" shadowed_store = [varied [2]; stale_unvarying] ∧
  is_servable_for (varied [2]) 5 p = true ∧ matches_request (varied [2]) p (req_headers anonymous) = true ∧
  match begin_intercept Some urls uri_text [] 5 5 shadowed_store anonymous with
  | inr (pd, _) => pd_validation pd = None
  | inl _ => False
  end.
Proof. by vm_compute. Qed.

Example first_call_misses : begin_intercept Some urls uri_text [] 0 0 empty_store request = inr (pending, request).
Proof. reflexivity. Qed.

Example first_call_stores :
  (finish_intercept Some (λ _, None) Some urls uri_text clock 0 pending (inr response)).1 = [Op_Put "/a" stored].
Proof. reflexivity. Qed.

Lemma after_reachable : cache_reachable (U := unit) Some (λ _, None) Some urls uri_text [] after.
Proof.
  assert (R0 : cache_reachable (U := unit) Some (λ _, None) Some urls uri_text [] (mkSystem empty_store [] [] []))
    by (apply Reach_init; done).
  assert (R1 : cache_reachable (U := unit) Some (λ _, None) Some urls uri_text [] (mkSystem empty_store [pending] [] [])).
  { apply (Reach_step _ _ _ _ _ _ _ _ R0). by apply (Step_begin _ _ _ _ _ _ empty_store [] [] [] 0 0 request _ request). }
  assert (R2 : cache_reachable (U := unit) Some (λ _, None) Some urls uri_text []
            (mkSystem empty_store [] [[Op_Put "/a" stored]] (exchange_of pending response))).
  { apply (Reach_step _ _ _ _ _ _ _ _ R1).
    by apply (Step_finish _ _ _ _ _ _ empty_store [] pending [] [] [] clock 0 response _ (Ok response)). }
  apply (Reach_step _ _ _ _ _ _ _ _ R2).
  by apply (Step_op _ _ _ _ _ _ empty_store [] [] (Op_Put "/a" stored) [] [] (exchange_of pending response) full_store []).
Qed.
End CacheDemo.

Lemma memory_store_bounded_witness :
  let s := foldl (run_memory_op CacheDemo.first_key) (with_limits 0 1024) [Mem_put "/a" CacheDemo.stored] in
  Z.of_nat (size (entries s)) ≤ 1 ∧ total_body_bytes (entries s) ≤ 1024 ∧
  ∀ k es, entries s !! k = Some es → es ≠ [] ∧ NoDup (c_vary <$> es).
Proof. apply (memory_store_bounded CacheDemo.first_key 0 1024); [apply CacheDemo.first_key_names|done]. Defined.

Lemma cache_hit_provenance_witness :
  ∃ x, x ∈ cy_log CacheDemo.after ∧ res_body (into_response CacheDemo.stored 5) = res_body (st_response x).
Proof.
  destruct (cache_hit_provenance Some (λ _, None) Some CacheDemo.urls CacheDemo.uri_text [] CacheDemo.after 5 5
              CacheDemo.request (into_response CacheDemo.stored 5) CacheDemo.after_reachable eq_refl)
    as [?|(x & Hx & _ & _ & _ & _ & Hb & _)]; [done|]. by exists x.
Defined.

Lemma cache_hit_fresh_witness :
  hm_get_all "age" (res_headers (into_response CacheDemo.stored 5000000000)) = ["5"].
Proof.
  destruct (cache_hit_fresh Some CacheDemo.urls CacheDemo.uri_text [] 5000000000 5000000000 CacheDemo.full_store
              CacheDemo.request (into_response CacheDemo.stored 5000000000))
    as [?|(e & He & _ & _ & _)]; [by vm_compute|done|by vm_compute].
Defined.

Lemma cache_stores_then_serves_witness :
  ∃ served, begin_intercept Some CacheDemo.urls CacheDemo.uri_text [] 5 6 CacheDemo.two_variants CacheDemo.request = inl served ∧
    res_body served = Ok [1; 2; 3] ∧ res_status served = STATUS_OK.
Proof.
  apply (cache_stores_then_serves CacheDemo.first_key Some (λ _, None) Some CacheDemo.urls CacheDemo.uri_text [] 0 0
           CacheDemo.clock 0 CacheDemo.empty_store CacheDemo.other_store CacheDemo.request CacheDemo.pending CacheDemo.request
           CacheDemo.response [Op_Put "/a" CacheDemo.stored] (Ok CacheDemo.response) "/a" CacheDemo.stored 5 6);
    [reflexivity..|left|apply CacheDemo.other_store_ok|reflexivity|by vm_compute| |reflexivity|reflexivity].
  intros x Hx _. by apply list_elem_of_singleton in Hx as ->.
Defined.
