(* ===== verification/AuthChallenge.v ===== *)
(** * Authentication challenges

    openwire-core/src/auth.rs: the parser of WWW-Authenticate and Proxy-Authenticate fields.  The header
    text it is given is visible ASCII, so a character is one byte. *)

From S2P Require Import Prelude Net Error Http Request FollowUp.

(** [AuthChallengeParam], openwire-core/auth.rs:74-77. *)
Record AuthChallengeParam : Type := mkParam { param_name : string; param_value : string }.

(** [AuthChallenge], openwire-core/auth.rs:36-40. *)
Record AuthChallenge : Type := mkChallenge {
  scheme : string;
  token68 : option string;
  parameters : list AuthChallengeParam;
}.

(** [AuthChallenge::parameter], openwire-core/auth.rs:59-64. *)
Definition parameter (c : AuthChallenge) (name : string) : option string :=
  param_value <$> find_first (λ p, eq_ignore_ascii_case (param_name p) name) (parameters c).

(** [AuthChallenge::realm], openwire-core/auth.rs:67-69. *)
Definition realm (c : AuthChallenge) : option string := parameter c "realm".

(** ** Characters *)

Definition dquote : ascii := "034"%char.
Definition backslash : ascii := "\"%char.

(** The code points [lo] to [hi]. *)
Definition in_range (lo hi : nat) (c : ascii) : bool :=
  let n := nat_of_ascii c in (lo <=? n)%nat && (n <=? hi)%nat.

Definition is_ascii_alphanumeric (c : ascii) : bool :=
  in_range 48 57 c || in_range 65 90 c || in_range 97 122 c.

(** [is_token_char], openwire-core/auth.rs:378-397. *)
Definition is_token_char (c : ascii) : bool :=
  is_ascii_alphanumeric c ||
  bool_decide (c ∈ ["!"; "#"; "$"; "%"; "&"; "'"; "*"; "+"; "-"; "."; "^"; "_"; "`"; "|"; "~"]%char).

(** The characters of a token68 before its padding, openwire-core/auth.rs:405-405. *)
Definition is_token68_char (c : ascii) : bool :=
  is_ascii_alphanumeric c || bool_decide (c ∈ ["-"; "."; "_"; "~"; "+"; "/"]%char).

(** ** The parser *)

(** The loop of [is_token68], openwire-core/auth.rs:402-414, with its two variables. *)
Fixpoint token68_loop (seen_padding has_value : bool) (s : string) : bool :=
  match s with
  | EmptyString => has_value
  | String c t =>
    if bool_decide (c = "="%char) then token68_loop true has_value t
    else if is_token68_char c then if seen_padding then false else token68_loop seen_padding true t
    else false
  end.
(** [is_token68], openwire-core/auth.rs:399-415. *)
Definition is_token68 (s : string) : bool := token68_loop false false s.

(** The longest prefix of token characters and the rest. *)
Fixpoint token_prefix (s : string) : string * string :=
  match s with
  | EmptyString => (EmptyString, EmptyString)
  | String c t =>
    if is_token_char c then let '(w, r) := token_prefix t in (String c w, r) else (EmptyString, s)
  end.

(** [parse_token], openwire-core/auth.rs:369-376. *)
Definition parse_token (s : string) : option (string * string) :=
  let '(w, r) := token_prefix s in
  if bool_decide (w = EmptyString) then None else Some (w, r).

(** Put a character before the first piece. *)
Definition push_first (c : ascii) (l : list string) : list string :=
  match l with [] => [String c EmptyString] | w :: ws => String c w :: ws end.

(** The loop of [split_top_level_commas], openwire-core/auth.rs:348-366, in a quote or not and after an escape or not. *)
Fixpoint split_commas (in_quote escaped : bool) (s : string) : list string :=
  match s with
  | EmptyString => [EmptyString]
  | String c t =>
    if escaped then push_first c (split_commas in_quote false t)
    else if bool_decide (c = backslash) && in_quote then push_first c (split_commas in_quote true t)
    else if bool_decide (c = dquote) then push_first c (split_commas (negb in_quote) false t)
    else if bool_decide (c = ","%char) && negb in_quote then EmptyString :: split_commas in_quote false t
    else push_first c (split_commas in_quote false t)
  end.
(** [split_top_level_commas], openwire-core/auth.rs:342-367. *)
Definition split_top_level_commas (s : string) : list string := split_commas false false s.

(** The loop of [parse_quoted_string], openwire-core/auth.rs:326-339, after the opening quote. *)
Fixpoint quoted_rest (escaped : bool) (s : string) : option (string * string) :=
  let push c r := match r with Some (out, rest) => Some (String c out, rest) | None => None end in
  match s with
  | EmptyString => None
  | String c t =>
    if escaped then push c (quoted_rest false t)
    else if bool_decide (c = backslash) then quoted_rest true t
    else if bool_decide (c = dquote) then Some (EmptyString, t)
    else push c (quoted_rest false t)
  end.
(** [parse_quoted_string], openwire-core/auth.rs:323-340. *)
Definition parse_quoted_string (s : string) : option (string * string) :=
  match s with EmptyString => None | String _ t => quoted_rest false t end.

(** [parse_auth_param_value], openwire-core/auth.rs:314-321. *)
Definition parse_auth_param_value (s : string) : option (string * string) :=
  match s with
  | String c _ => if bool_decide (c = dquote) then parse_quoted_string s else parse_token s
  | EmptyString => parse_token s
  end.

Definition trim_start (s : string) : string := trim_start_by is_ws s.

(** [parse_auth_param], openwire-core/auth.rs:303-312. *)
Definition parse_auth_param (s : string) : option AuthChallengeParam :=
  '(name, rest) ← parse_token (trim s);
  rest ← strip_prefix "=" (trim_start rest);
  '(value, remaining) ← parse_auth_param_value (trim_start rest);
  if bool_decide (trim remaining = EmptyString) then Some (mkParam name value) else None.

(** [parse_auth_params], openwire-core/auth.rs:296-301. *)
Definition parse_auth_params (s : string) : list AuthChallengeParam :=
  omap parse_auth_param (split_top_level_commas s).

Definition starts_with_ws (s : string) : bool := match s with String c _ => is_ws c | EmptyString => false end.

(** [parse_challenge_start], openwire-core/auth.rs:271-294. *)
Definition parse_challenge_start (s : string) : option AuthChallenge :=
  '(sch, rest) ← parse_token s;
  if negb (bool_decide (rest = EmptyString)) && negb (starts_with_ws rest) then None else
  let rest := trim rest in
  if bool_decide (rest = EmptyString) then Some (mkChallenge sch None [])
  else if is_token68 rest then Some (mkChallenge sch (Some rest) [])
  else if contains_char "="%char rest then Some (mkChallenge sch None (parse_auth_params rest))
  else Some (mkChallenge sch None []).

(** One round of the loop of [parse_auth_challenge_header], openwire-core/auth.rs:245-262, on the challenges
    finished so far and the one being read. *)
Definition challenge_part (st : list AuthChallenge * option AuthChallenge) (part : string)
    : list AuthChallenge * option AuthChallenge :=
  let '(challenges, current) := st in
  let part := trim part in
  if bool_decide (part = EmptyString) then st else
  match parse_auth_param part, current with
  | Some p, Some c => (challenges, Some (mkChallenge (scheme c) (token68 c) (parameters c ++ [p])))
  | _, Some c => (challenges ++ [c], parse_challenge_start part)
  | _, None => (challenges, parse_challenge_start part)
  end.

(** [parse_auth_challenge_header], openwire-core/auth.rs:241-269. *)
Definition parse_auth_challenge_header (s : string) : list AuthChallenge :=
  let '(challenges, current) := foldl challenge_part ([], None) (split_top_level_commas s) in
  challenges ++ option_list current.

(** [parse_auth_challenges], openwire-core/auth.rs:233-239. *)
Definition parse_auth_challenges (values : list string) : list AuthChallenge :=
  mjoin (parse_auth_challenge_header <$> values).

(** [AuthContext::challenges], openwire-core/auth.rs:177-188. *)
Definition challenges {H} `{HeaderMap H} (to_str : string → option string) (ctx : AuthContext (H := H))
    : list AuthChallenge :=
  let header := match ac_kind ctx with Auth_Origin => "www-authenticate" | Auth_Proxy => "proxy-authenticate" end%string in
  parse_auth_challenges (omap to_str (hm_get_all header (ac_response_headers ctx))).

(** [AuthContext::try_clone_request], openwire-core/auth.rs:216-230. *)
Definition try_clone_request {H} (ctx : AuthContext (H := H)) : option (Request H) :=
  body ← ac_request_body ctx ≫= try_clone;
  Some (mkRequest (ac_request_method ctx) (ac_request_uri ctx) (ac_request_version ctx)
          (ac_request_headers ctx) (ac_request_extensions ctx) body).

(** ** Writing challenges *)

Fixpoint escape (s : string) : string :=
  match s with
  | EmptyString => EmptyString
  | String c t =>
    if bool_decide (c = backslash) || bool_decide (c = dquote) then String backslash (String c (escape t))
    else String c (escape t)
  end.

Definition render_param (p : AuthChallengeParam) : string :=
  (param_name p +:+ "=" +:+ String dquote (escape (param_value p) +:+ String dquote EmptyString))%string.

(** The comma-separated pieces of a challenge. *)
Definition render_parts (c : AuthChallenge) : list string :=
  match token68 c, parameters c with
  | Some t, _ => [(scheme c +:+ " " +:+ t)%string]
  | None, [] => [scheme c]
  | None, p :: ps => (scheme c +:+ " " +:+ render_param p)%string :: (render_param <$> ps)
  end.

Definition render (cs : list AuthChallenge) : string := String.concat ", " (mjoin (render_parts <$> cs)).

Example render_example :
  render [mkChallenge "Basic" None [mkParam "realm" "a, b"; mkParam "charset" "UTF-8"]; mkChallenge "Negotiate" (Some "YQ==") []]
  = ("Basic realm=" +:+ String dquote ("a, b" +:+ String dquote (", charset=" +:+ String dquote ("UTF-8" +:+ String dquote ", Negotiate YQ=="))))%string.
Proof. reflexivity. Qed.

(** ** Reading back what was written *)

(** A non-empty run of token characters. *)
Definition is_token (s : string) : bool := negb (bool_decide (s = EmptyString)) && all_chars is_token_char s.

(** The challenges the grammar of RFC 7235 allows: a token, then either a token68 or parameters. *)
Definition challenge_ok (c : AuthChallenge) : Prop :=
  is_token (scheme c) = true ∧ Forall (λ p, is_token (param_name p) = true) (parameters c) ∧
  (∀ t, token68 c = Some t → is_token68 t = true ∧ parameters c = []).

(** A property of a character, by evaluation on all 256 of them. *)
Definition all_ascii : list ascii := ascii_of_nat <$> seq 0 256.
Lemma ascii_forall (P : ascii → bool) : forallb P all_ascii = true → ∀ c, P c = true.
Proof.
  intros HP c. rewrite forallb_forall in HP. apply HP. apply list_elem_of_In.
  apply list_elem_of_fmap. exists (nat_of_ascii c). split; [by rewrite ascii_nat_embedding|].
  apply elem_of_seq. pose proof (nat_ascii_bounded c). lia.
Qed.

(** Characters that cannot end a token or change the scan for commas. *)
Definition is_plain (c : ascii) : bool :=
  negb (is_ws c) && negb (bool_decide (c = dquote)) && negb (bool_decide (c = backslash)) &&
  negb (bool_decide (c = ","%char)).

Lemma token_char_plain c : is_token_char c = true → is_plain c && negb (bool_decide (c = "="%char)) = true.
Proof.
  intros Hc. pose proof (ascii_forall (λ c, implb (is_token_char c) (is_plain c && negb (bool_decide (c = "="%char))))
    ltac:(by vm_compute) c) as HP. cbn beta in HP. by rewrite Hc in HP.
Qed.

Lemma token68_char_plain c : is_token68_char c = true → is_plain c && negb (bool_decide (c = "="%char)) = true.
Proof.
  intros Hc. pose proof (ascii_forall (λ c, implb (is_token68_char c) (is_plain c && negb (bool_decide (c = "="%char))))
    ltac:(by vm_compute) c) as HP. cbn beta in HP. by rewrite Hc in HP.
Qed.

Lemma token_plain s : all_chars is_token_char s = true → all_chars is_plain s = true.
Proof. apply all_chars_impl. intros c Hc%token_char_plain. by apply andb_true_iff in Hc as [? _]. Qed.

Lemma token68_plain p h s : token68_loop p h s = true → all_chars is_plain s = true.
Proof.
  revert p h. induction s as [|c s IH]; intros p h; simpl; [done|]. case_bool_decide as Hc.
  - subst. intros Hs. by rewrite (IH _ _ Hs).
  - destruct (is_token68_char c) eqn:Hc'; [|done]. apply token68_char_plain in Hc' as [-> _]%andb_true_iff.
    destruct p; [done|]. intros Hs. by rewrite (IH _ _ Hs).
Qed.

(** *** Trimming *)

(** Text with nothing to trim. *)
Definition tight (s : string) : Prop :=
  ∃ a m, s = String a m ∧ is_ws a = false ∧ ∃ n z, s = (n +:+ String z EmptyString)%string ∧ is_ws z = false.

Lemma trim_end_tight n z : is_ws z = false → trim_end_by is_ws (n +:+ String z "") = (n +:+ String z "")%string.
Proof.
  intros Hz. unfold trim_end_by.
  assert (string_rev (n +:+ String z "") = String z (string_rev n)) as E by (by rewrite string_rev_append).
  rewrite E. cbn [trim_start_by]. rewrite Hz, <- E. apply string_rev_involutive.
Qed.

Lemma trim_tight s : tight s → trim s = s ∧ trim (String " " s) = s.
Proof.
  intros (a & m & -> & Ha & n & z & Hn & Hz). unfold trim.
  assert (trim_start_by is_ws (String a m) = String a m) as E by (cbn [trim_start_by]; by rewrite Ha).
  change (trim_start_by is_ws (String " " (String a m))) with (trim_start_by is_ws (String a m)).
  rewrite E, Hn, trim_end_tight by done. done.
Qed.

Lemma tight_plain s : s ≠ EmptyString → all_chars is_plain s = true → tight s.
Proof.
  intros Hs Hp. destruct s as [|a m]; [done|].
  assert (Hend : ∃ n z, String a m = (n +:+ String z "")%string ∧ is_plain z = true).
  { clear Hs. revert a Hp. induction m as [|b m IH]; intros a; simpl; rewrite !andb_true_iff; intros [Ha Hm].
    - exists EmptyString, a. done.
    - destruct (IH b) as (n & z & Hn & Hz); [by rewrite <- andb_true_iff in Hm|].
      exists (String a n), z. split; [|done]. cbn. by rewrite <- Hn. }
  assert (Hws : ∀ c, is_plain c = true → is_ws c = false).
  { intros c. unfold is_plain. by destruct (is_ws c). }
  destruct Hend as (n & z & Hn & Hz). exists a, m. simpl in Hp. apply andb_true_iff in Hp as [Ha _].
  split_and!; [done|by apply Hws|]. exists n, z. auto.
Qed.

Lemma tight_app s t : tight s → tight t → ∀ u, tight (s +:+ u +:+ t)%string.
Proof.
  intros (a & m & -> & Ha & _) (_ & _ & _ & _ & n & z & Hn & Hz) u. exists a, (m +:+ u +:+ t)%string.
  split_and!; [done|done|]. exists (String a (m +:+ u +:+ n)), z. split; [|done]. rewrite Hn. cbn.
  by rewrite !string_app_assoc.
Qed.

(** *** Commas *)

(** Scanning a piece without top-level commas, from a state of the scanner to another. *)
Fixpoint scan (in_quote escaped : bool) (s : string) : option (bool * bool) :=
  match s with
  | EmptyString => Some (in_quote, escaped)
  | String c t =>
    if escaped then scan in_quote false t
    else if bool_decide (c = backslash) && in_quote then scan in_quote true t
    else if bool_decide (c = dquote) then scan (negb in_quote) false t
    else if bool_decide (c = ","%char) && negb in_quote then None
    else scan in_quote false t
  end.

Lemma scan_app q e a b : scan q e (a +:+ b)%string = '(q', e') ← scan q e a; scan q' e' b.
Proof.
  revert q e. induction a as [|c a IH]; intros q e; cbn; [done|].
  destruct e; [apply IH|]. destruct (bool_decide (c = backslash) && q); [apply IH|].
  case_bool_decide; [apply IH|]. destruct (bool_decide (c = ","%char) && negb q); [done|apply IH].
Qed.

Lemma scan_plain s : all_chars is_plain s = true → scan false false s = Some (false, false).
Proof.
  induction s as [|c s IH]; cbn; [done|]. rewrite andb_true_iff. intros [Hc Hs].
  unfold is_plain in Hc. rewrite !andb_true_iff, !negb_true_iff in Hc. destruct Hc as [[[_ ->] ->] ->]. by apply IH.
Qed.

Lemma scan_escape s : scan true false (escape s) = Some (true, false).
Proof.
  induction s as [|c s IH]; cbn; [done|]. destruct (bool_decide (c = backslash) || _) eqn:Hc; [done|].
  apply orb_false_iff in Hc as [Hc1 Hc2]. cbn. rewrite Hc1, Hc2. cbn. by rewrite andb_false_r.
Qed.

Lemma split_commas_nonempty q e s : split_commas q e s ≠ [].
Proof.
  revert q e. induction s as [|c s IH]; intros q e; cbn; [done|].
  repeat case_match; unfold push_first; repeat case_match; done.
Qed.

Lemma split_scan q e s q' e' r w ws :
  scan q e s = Some (q', e') → split_commas q' e' r = w :: ws →
  split_commas q e (s +:+ r)%string = (s +:+ w)%string :: ws.
Proof.
  intros Hs Hr. revert q e Hs. induction s as [|c s IH]; intros q e; cbn; [by intros [= -> ->]|].
  destruct e; [intros Hs; by rewrite (IH _ _ Hs)|].
  destruct (bool_decide (c = backslash) && q); [intros Hs; by rewrite (IH _ _ Hs)|].
  case_bool_decide; [intros Hs; by rewrite (IH _ _ Hs)|].
  destruct (bool_decide (c = ","%char) && negb q); [done|intros Hs; by rewrite (IH _ _ Hs)].
Qed.

(** A piece that closes its quotes and has no top-level comma. *)
Definition closed (s : string) : Prop := scan false false s = Some (false, false).

Lemma split_single s : closed s → split_top_level_commas s = [s].
Proof.
  intros Hs. unfold split_top_level_commas. rewrite <- (string_app_nil_r s) at 1.
  rewrite (split_scan _ _ _ _ _ _ EmptyString [] Hs) by done. by rewrite string_app_nil_r.
Qed.

Lemma split_concat s l :
  Forall closed (s :: l) →
  split_top_level_commas (String.concat ", " (s :: l)) = s :: (String " " <$> l).
Proof.
  revert s. induction l as [|t l IH]; intros s Hcl.
  { apply split_single. by inversion Hcl. }
  change (String.concat ", " (s :: t :: l)) with (s +:+ String "," (String " " (String.concat ", " (t :: l))))%string.
  apply Forall_cons in Hcl as [Hs Hcl]. specialize (IH t Hcl). unfold split_top_level_commas in *.
  rewrite (split_scan _ _ _ _ _ _ EmptyString (String " " <$> (t :: l)) Hs); [by rewrite string_app_nil_r|].
  cbn -[String.concat]. by rewrite IH.
Qed.

(** *** Tokens and parameters *)

Lemma parse_token_app w r :
  is_token w = true → (∀ c t, r = String c t → is_token_char c = false) → parse_token (w +:+ r) = Some (w, r).
Proof.
  unfold is_token. rewrite andb_true_iff. intros [Hne Hw] Hr. unfold parse_token.
  assert (token_prefix (w +:+ r) = (w, r)) as ->.
  { clear Hne. induction w as [|c w IH]; cbn in *.
    - destruct r as [|c t]; [done|]. cbn. by rewrite (Hr c t).
    - apply andb_true_iff in Hw as [-> Hw]. by rewrite (IH Hw). }
  destruct w; [done|]. by rewrite bool_decide_false.
Qed.

Lemma quoted_rest_escape v r : quoted_rest false (escape v +:+ String dquote r) = Some (v, r).
Proof.
  induction v as [|c v IH]; cbn; [done|]. destruct (bool_decide (c = backslash) || _) eqn:Hc; cbn.
  - by rewrite IH.
  - apply orb_false_iff in Hc as [-> ->]. by rewrite IH.
Qed.

Lemma token_first s : is_token s = true → ∃ a m, s = String a m ∧ is_token_char a = true.
Proof.
  unfold is_token. destruct s as [|a m]; [done|]. cbn [all_chars]. rewrite !andb_true_iff.
  intros (_ & Ha & _). by exists a, m.
Qed.

Lemma token_tight s : is_token s = true → tight s.
Proof.
  intros Hs. apply tight_plain; [by destruct s|]. apply token_plain. unfold is_token in Hs.
  by apply andb_true_iff in Hs as [_ ?].
Qed.

Lemma dquote_tight : tight (String dquote EmptyString).
Proof. exists dquote, EmptyString. split_and!; [done..|]. exists EmptyString, dquote. done. Qed.

Lemma render_param_shape p :
  render_param p = (param_name p +:+ ("=" +:+ String dquote (escape (param_value p))) +:+ String dquote "")%string.
Proof. reflexivity. Qed.

Lemma render_param_tight p : is_token (param_name p) = true → tight (render_param p).
Proof. intros Hp. rewrite render_param_shape. apply tight_app; [by apply token_tight|apply dquote_tight]. Qed.

Lemma render_param_closed p : is_token (param_name p) = true → closed (render_param p).
Proof.
  intros [_ Hp]%andb_true_iff. unfold closed, render_param.
  rewrite scan_app, (scan_plain _ (token_plain _ Hp)).
  transitivity (scan true false (escape (param_value p) +:+ String dquote "")); [done|].
  by rewrite scan_app, scan_escape.
Qed.

Lemma parse_render_param p : is_token (param_name p) = true → parse_auth_param (render_param p) = Some p.
Proof.
  intros Hp. unfold parse_auth_param. rewrite (proj1 (trim_tight _ (render_param_tight p Hp))).
  unfold render_param at 1.
  rewrite parse_token_app; [|done|by intros c t [= <- _]].
  transitivity ('(value, remaining) ← quoted_rest false (escape (param_value p) +:+ String dquote "");
                if bool_decide (trim remaining = EmptyString) then Some (mkParam (param_name p) value) else None);
    [done|].
  rewrite quoted_rest_escape. by destruct p.
Qed.

Lemma parse_auth_param_not_param w r :
  is_token w = true → tight (w +:+ r)%string →
  (∀ c t, r = String c t → is_token_char c = false) → strip_prefix "=" (trim_start r) = None →
  parse_auth_param (w +:+ r) = None.
Proof.
  intros Hw Ht Hr Heq. unfold parse_auth_param. rewrite (proj1 (trim_tight _ Ht)), parse_token_app by done.
  cbn [mbind option_bind]. by rewrite Heq.
Qed.

Lemma token68_first t : is_token68 t = true → ∃ a m, t = String a m ∧ is_ws a = false ∧ a ≠ "="%char.
Proof.
  unfold is_token68. destruct t as [|a m]; [done|]. cbn. case_bool_decide as Ha.
  - subst. intros H. exfalso. revert H. assert (∀ s, token68_loop true false s = false) as ->; [|done].
    induction s as [|c s IH]; cbn; [done|]. case_bool_decide; [done|]. by destruct (is_token68_char c).
  - destruct (is_token68_char a) eqn:Hc; [|done]. intros _. exists a, m. apply token68_char_plain in Hc.
    unfold is_plain in Hc. destruct (is_ws a); [done|]. done.
Qed.

Lemma token68_tight t : is_token68 t = true → tight t.
Proof. intros Ht. apply tight_plain; [by destruct t|]. by eapply token68_plain. Qed.

Lemma render_param_not_token68 p : is_token68 (render_param p) = false.
Proof.
  unfold render_param, is_token68.
  assert (∀ w a b r, token68_loop a b (w +:+ String dquote r) = false) as Hq.
  { induction w as [|c w IH]; intros a b r; cbn; [done|].
    repeat case_match; try done; apply IH. }
  rewrite <- string_app_assoc. apply Hq.
Qed.

(** *** The first piece of a challenge *)

Lemma start_plain w : is_token w = true → parse_challenge_start w = Some (mkChallenge w None []).
Proof.
  intros Hw. unfold parse_challenge_start. rewrite <- (string_app_nil_r w) at 1. by rewrite parse_token_app.
Qed.

Lemma start_with w r :
  is_token w = true → tight r →
  parse_challenge_start (w +:+ String " " r) =
    (if is_token68 r then Some (mkChallenge w (Some r) [])
     else if contains_char "="%char r then Some (mkChallenge w None (parse_auth_params r))
     else Some (mkChallenge w None [])).
Proof.
  intros Hw Hr. unfold parse_challenge_start. rewrite parse_token_app; [|done|by intros c t [= <- _]].
  cbn [mbind option_bind]. rewrite bool_decide_false by done. cbn [starts_with_ws negb andb is_ws].
  rewrite (proj2 (trim_tight r Hr)). destruct Hr as (a & m & -> & _). by rewrite bool_decide_false.
Qed.

Lemma space_not_param w r :
  is_token w = true → tight r → (∀ a m, r = String a m → a ≠ "="%char) →
  parse_auth_param (w +:+ String " " r) = None.
Proof.
  intros Hw Hr Ha. apply parse_auth_param_not_param; [done| |by intros c t [= <- _]|].
  - change (String " " r) with (" " +:+ r)%string. apply tight_app; [by apply token_tight|done].
  - destruct Hr as (a & m & -> & Hws & _). 
    change (trim_start (String " " (String a m))) with (trim_start (String a m)).
    unfold trim_start. cbn [trim_start_by]. rewrite Hws. cbn [strip_prefix].
    rewrite bool_decide_false; [done|]. intros <-. by eapply Ha.
Qed.

(** What reading the first piece gives, before the remaining parameters. *)
Definition first_of (c : AuthChallenge) : AuthChallenge :=
  mkChallenge (scheme c) (token68 c) (take 1 (parameters c)).

Lemma first_part c :
  challenge_ok c → ∃ s l, render_parts c = s :: l ∧ tight s ∧ closed s ∧
    parse_auth_param s = None ∧ parse_challenge_start s = Some (first_of c) ∧
    l = render_param <$> drop 1 (parameters c).
Proof.
  intros (Hs & Hps & Ht). unfold render_parts, first_of.
  pose proof (token_tight _ Hs) as Hst. pose proof (proj2 (proj1 (andb_true_iff _ _) Hs)) as Hall.
  destruct (token68 c) as [t|]; [|destruct (parameters c) as [|p ps]].
  - destruct (Ht t eq_refl) as [Ht68 ->]. eexists _, _. split; [reflexivity|].
    pose proof (token68_tight t Ht68). change (" " +:+ t)%string with (String " " t). split_and!.
    + change (String " " t) with (" " +:+ t)%string. by apply tight_app.
    + unfold closed. rewrite scan_app, (scan_plain _ (token_plain _ Hall)). cbn.
      apply scan_plain. by eapply token68_plain.
    + apply space_not_param; [done|done|]. intros a m ->. destruct (token68_first _ Ht68) as (? & ? & [= <- <-] & _ & ?). done.
    + by rewrite start_with, Ht68.
    + done.
  - eexists _, _. split; [reflexivity|]. split_and!; [done| | |by apply start_plain|done].
    + unfold closed. by apply scan_plain, token_plain.
    + rewrite <- (string_app_nil_r (scheme c)). apply parse_auth_param_not_param; [done| |done|done].
      by rewrite string_app_nil_r.
  - apply Forall_cons in Hps as [Hp _]. eexists _, _. split; [reflexivity|].
    pose proof (render_param_tight p Hp) as Hpt.
    change (" " +:+ render_param p)%string with (String " " (render_param p)). split_and!.
    + change (String " " (render_param p)) with (" " +:+ render_param p)%string. by apply tight_app.
    + unfold closed. rewrite scan_app, (scan_plain _ (token_plain _ Hall)). cbn. by apply render_param_closed.
    + apply space_not_param; [done|done|]. intros a m Hm ->. unfold render_param in Hm.
      destruct (token_first _ Hp) as (a' & m' & Hn & Hc). rewrite Hn in Hm. cbn in Hm. by simplify_eq.
    + rewrite start_with, render_param_not_token68 by done.
      assert (contains_char "="%char (render_param p) = true) as ->.
      { unfold render_param. rewrite contains_char_app. cbn. by rewrite orb_true_r. }
      unfold parse_auth_params. rewrite split_single by (by apply render_param_closed). cbn.
      by rewrite parse_render_param.
    + done.
Qed.

(** *** The loop *)

Lemma challenge_part_spaced st s : tight s → challenge_part st s = challenge_part st (String " " s).
Proof. intros Hs. unfold challenge_part. destruct (trim_tight s Hs) as [-> ->]. done. Qed.

Lemma challenge_part_param acc c p :
  is_token (param_name p) = true →
  challenge_part (acc, Some c) (String " " (render_param p)) =
    (acc, Some (mkChallenge (scheme c) (token68 c) (parameters c ++ [p]))).
Proof.
  intros Hp. pose proof (render_param_tight p Hp) as Ht. unfold challenge_part.
  rewrite (proj2 (trim_tight _ Ht)), parse_render_param by done.
  destruct Ht as (a & m & -> & _). by rewrite bool_decide_false.
Qed.

Lemma challenge_params acc c ps :
  Forall (λ p, is_token (param_name p) = true) ps →
  foldl challenge_part (acc, Some c) (String " " <$> (render_param <$> ps)) =
    (acc, Some (mkChallenge (scheme c) (token68 c) (parameters c ++ ps))).
Proof.
  revert c. induction ps as [|p ps IH]; intros c Hps; [cbn; rewrite app_nil_r; by destruct c|].
  apply Forall_cons in Hps as [Hp Hps]. cbn [fmap list_fmap foldl].
  rewrite challenge_part_param, IH by done. cbn. by rewrite <- app_assoc.
Qed.

Lemma challenge_parts acc cur c :
  challenge_ok c →
  foldl challenge_part (acc, cur) (String " " <$> render_parts c) = (acc ++ option_list cur, Some c).
Proof.
  intros Hc. destruct (first_part c Hc) as (s & l & -> & Hs & _ & Hnp & Hst & ->).
  cbn [fmap list_fmap foldl]. rewrite <- (challenge_part_spaced _ _ Hs).
  assert (challenge_part (acc, cur) s = (acc ++ option_list cur, Some (first_of c))) as ->.
  { unfold challenge_part. rewrite (proj1 (trim_tight _ Hs)), Hnp, Hst.
    rewrite bool_decide_false by (destruct Hs as (? & ? & -> & _); done). destruct cur; [done|]. by rewrite app_nil_r. }
  rewrite challenge_params by (apply Forall_drop; apply Hc). cbn. rewrite (take_drop 1 (parameters c)).
  by destruct c.
Qed.

Lemma challenge_all acc cur cs :
  Forall challenge_ok cs →
  (let '(a, c) := foldl challenge_part (acc, cur) (String " " <$> mjoin (render_parts <$> cs)) in
   a ++ option_list c) = acc ++ option_list cur ++ cs.
Proof.
  revert acc cur. induction cs as [|c cs IH]; intros acc cur Hcs; [cbn; by rewrite app_nil_r|].
  apply Forall_cons in Hcs as [Hc Hcs]. cbn [fmap list_fmap mjoin list_join].
  rewrite fmap_app, foldl_app, challenge_parts by done. rewrite IH by done. cbn. by rewrite <- app_assoc.
Qed.

Lemma render_parts_closed cs : Forall challenge_ok cs → Forall closed (mjoin (render_parts <$> cs)).
Proof.
  intros Hcs. apply Forall_forall. intros s Hs. apply list_elem_of_join in Hs as (l & Hs & Hl).
  apply list_elem_of_fmap in Hl as (c & -> & Hc). rewrite Forall_forall in Hcs. specialize (Hcs c Hc).
  destruct (first_part c Hcs) as (s0 & l & E & _ & Hcl & _ & _ & ->). rewrite E in Hs.
  apply elem_of_cons in Hs as [->|Hs]; [done|].
  apply list_elem_of_fmap in Hs as (p & -> & Hp). apply render_param_closed.
  destruct Hcs as (_ & Hps & _). rewrite Forall_forall in Hps. apply Hps.
  by apply (subseteq_drop 1).
Qed.

(** Challenges survive the header: any list of challenges of the grammar - several schemes in one
    field, token68 or parameters, parameter values with any characters, commas, quotes and backslashes
    included - written with quoted values, is read back exactly. *)
Theorem challenges_roundtrip cs :
  Forall challenge_ok cs → parse_auth_challenge_header (render cs) = cs.
Proof.
  intros Hcs. unfold parse_auth_challenge_header, render.
  destruct (mjoin (render_parts <$> cs)) as [|s l] eqn:E.
  { destruct cs as [|c cs]; [done|]. exfalso. apply Forall_cons in Hcs as [Hc _].
    destruct (first_part c Hc) as (s & l & Hp & _). cbn in E. by rewrite Hp in E. }
  rewrite split_concat by (rewrite <- E; by apply render_parts_closed). cbn [foldl].
  pose proof (challenge_all [] None cs Hcs) as Hall. rewrite E in Hall. cbn [fmap list_fmap foldl] in Hall.
  rewrite <- challenge_part_spaced in Hall; [exact Hall|].
  destruct cs as [|c cs]; [done|]. apply Forall_cons in Hcs as [Hc _].
  destruct (first_part c Hc) as (s' & l' & Hp & Ht & _). cbn in E. rewrite Hp in E. by injection E as <- _.
Qed.

Lemma challenges_roundtrip_witness :
  parse_auth_challenge_header
    (render [mkChallenge "Basic" None [mkParam "realm" "a, b"; mkParam "q" (String dquote "\")]; mkChallenge "N" (Some "YQ==") []])
  = [mkChallenge "Basic" None [mkParam "realm" "a, b"; mkParam "q" (String dquote "\")]; mkChallenge "N" (Some "YQ==") []].
Proof.
  apply challenges_roundtrip. repeat apply Forall_cons_2; [..|apply Forall_nil_2].
  - split_and!; [done|repeat constructor; done|done].
  - split_and!; [done|constructor|]. intros t [= <-]. done.
Defined.
