(* ===== verification/Logging.v ===== *)
(** * The logging interceptor

    openwire/src/logging.rs: what [LoggerInterceptor] writes about an exchange at each level, which headers it
    blanks, which bodies it reads, and what it passes on.

    What belongs to the http and serde crates is a parameter: [HeaderValue::to_str], the lossy reading of a header
    value, the texts of methods, addresses, reasons and errors, and the pretty printing of JSON.  A response body is read
    or not yet read, so that a theorem can say which bodies are left alone. *)

From stdpp Require Import pretty.
From S2P Require Import Prelude Net Error Http WsSession Request.

(** [LogLevel], openwire/logging.rs:33-40. *)
Inductive LogLevel : Type := Level_None | Level_Basic | Level_Headers | Level_Body.
#[global] Instance LogLevel_eq_dec : EqDecision LogLevel.
Proof. solve_decision. Defined.

(** [DEFAULT_MAX_BODY_BYTES], openwire/logging.rs:16-16. *)
Definition DEFAULT_MAX_BODY_BYTES : Z := 64 * 1024.
(** [REDACTED_VALUE], openwire/logging.rs:17-17. *)
Definition REDACTED_VALUE : string := "██".
(** [STREAMING_BODY_MESSAGE], openwire/logging.rs:18-18. *)
Definition STREAMING_BODY_MESSAGE : string := "body omitted: streaming body".

(** [LoggerConfig], openwire/logging.rs:56-62, less the logger, whose lines are the result here. *)
Record LoggerConfig : Type := mkLoggerConfig {
  lc_level : LogLevel;
  lc_max_body_bytes : Z;
  lc_redacted_headers : gset string;
}.

(** [default_redacted_headers], openwire/logging.rs:468-470. *)
Definition default_redacted_headers : gset string := {[ "authorization"; "proxy-authorization"; "cookie"; "set-cookie" ]}%string.

(** [LoggerInterceptor::with_logger], openwire/logging.rs:85-97. *)
Definition with_logger (level : LogLevel) : LoggerConfig := mkLoggerConfig level DEFAULT_MAX_BODY_BYTES default_redacted_headers.

(** [with_level], openwire/logging.rs:103-106. *)
Definition with_level (level : LogLevel) (c : LoggerConfig) : LoggerConfig :=
  mkLoggerConfig level (lc_max_body_bytes c) (lc_redacted_headers c).
(** [with_max_body_bytes], openwire/logging.rs:108-111. *)
Definition with_max_body_bytes (n : Z) (c : LoggerConfig) : LoggerConfig := mkLoggerConfig (lc_level c) n (lc_redacted_headers c).
(** [redact_header], openwire/logging.rs:113-118. *)
Definition redact_header (name : string) (c : LoggerConfig) : LoggerConfig :=
  mkLoggerConfig (lc_level c) (lc_max_body_bytes c) ({[ name ]} ∪ lc_redacted_headers c).
(** [clear_redacted_headers], openwire/logging.rs:120-123. *)
Definition clear_redacted_headers (c : LoggerConfig) : LoggerConfig := mkLoggerConfig (lc_level c) (lc_max_body_bytes c) ∅.

(** [BodyPreview], openwire/logging.rs:69-72. *)
Inductive BodyPreview : Type :=
| Preview_Text (text : string) (n : Z)
| Preview_Omitted (reason : string).

(** [ResponseBodyDecision], openwire/logging.rs:74-78. *)
Inductive ResponseBodyDecision : Type := Skip | Omit (p : BodyPreview) | Buffer.

(** [BodyPreview::end_summary], openwire/logging.rs:479-484. *)
Definition end_summary (p : BodyPreview) : string :=
  match p with
  | Preview_Text _ n => pretty n +:+ "-byte body"
  | Preview_Omitted reason => reason
  end.

(** Bytes as text. *)
Definition text_of_bytes (bs : bytes) : string := string_of_list_ascii ((λ b, Ascii.ascii_of_nat (Z.to_nat b)) <$> bs).

(** [str::lines]: split at newlines, a carriage return before one dropped, no line after the last newline. *)
Definition strip_cr (l : string) : string := default l (strip_suffix (String "013" EmptyString) l).
Definition str_lines (s : string) : list string :=
  let ls := split_on "010" s in
  match last ls with
  | Some EmptyString => strip_cr <$> take (length ls - 1) ls
  | Some l => (strip_cr <$> take (length ls - 1) ls) ++ [l]
  | None => []
  end.

(** [push_body_preview], openwire/logging.rs:357-367. *)
Definition push_body_preview (lines : list string) (p : BodyPreview) : list string :=
  lines ++ [EmptyString] ++
  match p with
  | Preview_Text text _ => if bool_decide (text = EmptyString) then [] else str_lines text
  | Preview_Omitted reason => ["<" +:+ reason +:+ ">"]
  end.

(** [format_header_name], openwire/logging.rs:443-460; header names are ASCII. *)
Definition ascii_upper (c : Ascii.ascii) : Ascii.ascii :=
  let n := Ascii.nat_of_ascii c in if (97 <=? n)%nat && (n <=? 122)%nat then Ascii.ascii_of_nat (n - 32) else c.
Definition capitalize (segment : string) : string :=
  match segment with String c s => String (ascii_upper c) s | EmptyString => EmptyString end.
Definition format_header_name (name : string) : string := String.concat "-" (capitalize <$> split_on "-" name).

(** [response_can_have_body], openwire/logging.rs:462-466. *)
Definition response_can_have_body (status : Z) : bool :=
  negb ((100 <=? status) && (status <? 200)) && negb (status =? 204) && negb (status =? NOT_MODIFIED).

(** [Display] of a method. *)
Definition show_method (m : Method) : string :=
  match m with Method_GET => "GET" | Method_HEAD => "HEAD" | Method_Other name => name end.

(** The headers the logger decides by. *)
Definition deciding : gset string := {[ "content-type"; "content-length"; "transfer-encoding"; "upgrade" ]}%string.

(** A closed membership, by evaluation. *)
Ltac evaluated := apply (bool_decide_unpack _); vm_compute; exact I.

Section Logging.
#[local] Set Default Proof Using "Type*".
Context {H : Type} `{HeaderMapLaws H}.
Context (to_str : string → option string) (lossy : string → string) (show_uri : Uri → string) (show_error : WireError → string)
        (canonical_reason : Z → option string) (render_json : bytes → option string).

(** A response whose body is still to be read - with the upper bound [size_hint] gives and what reading gives - or has
    been read. *)
Inductive LogBody : Type :=
| Unread (upper : option Z) (contents : outcome WireError bytes)
| InMemory (bs : bytes).
Record LogResponse : Type := mkLogResponse {
  lr_status : Z;
  lr_headers : H;
  lr_body : LogBody;
}.

Definition size_hint_upper (b : LogBody) : option Z := match b with Unread upper _ => upper | InMemory bs => Some (len bs) end.
Definition body_bytes (b : LogBody) : outcome WireError bytes := match b with Unread _ c => c | InMemory bs => Ok bs end.

(** [content_type], openwire/logging.rs:422-434. *)
Definition content_type (h : H) : option string :=
  v ← hm_get "content-type" h; v ← to_str v; Some (to_ascii_lowercase (trim (default v (head (split_on ";" v))))).

(** [is_json], openwire/logging.rs:391-396. *)
Definition is_json (h : H) : bool :=
  match content_type h with
  | None => false
  | Some ct => bool_decide (ct = "application/json"%string) || ends_with "+json" ct
  end.

(** [is_event_stream], openwire/logging.rs:398-400. *)
Definition is_event_stream (h : H) : bool := bool_decide (content_type h = Some "text/event-stream"%string).

(** [is_chunked], openwire/logging.rs:402-412. *)
Definition is_chunked (h : H) : bool :=
  match hm_get "transfer-encoding" h with
  | Some v =>
    match to_str v with
    | Some v => existsb (λ part, eq_ignore_ascii_case (trim part) "chunked") (split_on "," v)
    | None => false
    end
  | None => false
  end.

(** [is_upgraded], openwire/logging.rs:414-420. *)
Definition is_upgraded (h : H) : bool :=
  match hm_get "upgrade" h with
  | Some v => match to_str v with Some v => negb (bool_decide (trim v = EmptyString)) | None => false end
  | None => false
  end.

(** [header_content_length], openwire/logging.rs:436-441. *)
Definition header_content_length (h : H) : option Z :=
  v ← hm_get "content-length" h; v ← to_str v; parse_uint U64_MAX v.

Definition too_long (n limit : Z) : string :=
  "body omitted: " +:+ pretty n +:+ "-byte body exceeds " +:+ pretty limit +:+ "-byte limit".

(** [response_body_decision], openwire/logging.rs:275-306. *)
Definition response_body_decision (c : LoggerConfig) (r : LogResponse) : ResponseBodyDecision :=
  let h := lr_headers r in
  if negb (response_can_have_body (lr_status r)) then Skip
  else if (lr_status r =? SWITCHING_PROTOCOLS) || is_upgraded h then Omit (Preview_Omitted "body omitted: upgraded protocol")
  else if is_event_stream h || is_chunked h then Omit (Preview_Omitted STREAMING_BODY_MESSAGE)
  else
    match option_or (header_content_length h) (size_hint_upper (lr_body r)) with
    | Some n =>
      if lc_max_body_bytes c <? n then Omit (Preview_Omitted (too_long n (lc_max_body_bytes c)))
      else Buffer
    | None => Omit (Preview_Omitted STREAMING_BODY_MESSAGE)
    end.

(** [capture_buffered_body], openwire/logging.rs:308-344. *)
Definition capture_buffered_body (c : LoggerConfig) (h : H) (bs : bytes) : BodyPreview :=
  if bool_decide (bs = []) then Preview_Text "" 0
  else if lc_max_body_bytes c <? len bs then Preview_Omitted (too_long (len bs) (lc_max_body_bytes c))
  else
    match (if is_json h then render_json bs else None) with
    | Some text => Preview_Text text (len bs)
    | None =>
      if utf8_valid bs then Preview_Text (text_of_bytes bs) (len bs)
      else Preview_Omitted ("binary " +:+ pretty (len bs) +:+ "-byte body omitted")
    end.

(** Iterating over a header map visits each key once for each of its values. *)
Definition hm_iter (h : H) : list (string * string) := k ← hm_keys h; (λ v, (k, v)) <$> hm_get_all k h.

(** One line of [push_headers], openwire/logging.rs:348-353. *)
Definition header_line (c : LoggerConfig) (f : string * string) : string :=
  let '(name, value) := f in
  let rendered := if bool_decide (name ∈ lc_redacted_headers c) then REDACTED_VALUE else lossy value in
  format_header_name name +:+ ": " +:+ rendered.

(** [push_headers], openwire/logging.rs:346-355. *)
Definition push_headers (lines : list string) (c : LoggerConfig) (h : H) : list string :=
  lines ++ (header_line c <$> hm_iter h).

(** [capture_request_body], openwire/logging.rs:255-273. *)
Definition capture_request_body (c : LoggerConfig) (r : Request H) : option BodyPreview :=
  if is_absent (req_body r) then None else
  match try_clone (req_body r) with
  | None => Some (Preview_Omitted STREAMING_BODY_MESSAGE)
  | Some body =>
    let bs := match body with Body_Bytes bs => bs | _ => [] end in
    Some (capture_buffered_body c (req_headers r) bs)
  end.

(** [capture_request], openwire/logging.rs:169-197; a body that can be cloned is in memory, so collecting it succeeds. *)
Definition capture_request (c : LoggerConfig) (r : Request H) : list string :=
  let m := show_method (req_method r) in
  let lines := ["--> " +:+ m +:+ " " +:+ show_uri (req_uri r)] in
  if bool_decide (lc_level c = Level_Basic) then lines else
  let lines := push_headers lines c (req_headers r) in
  if bool_decide (lc_level c = Level_Headers) then lines ++ ["--> END " +:+ m] else
  match capture_request_body c r with
  | Some preview => push_body_preview lines preview ++ ["--> END " +:+ m +:+ " (" +:+ end_summary preview +:+ ")"]
  | None => lines ++ ["--> END " +:+ m]
  end.

(** The first line of [capture_response], openwire/logging.rs:205-222. *)
Definition response_line (status : Z) (uri : Uri) (millis : Z) : string :=
  let status_text := default EmptyString (canonical_reason status) in
  if bool_decide (status_text = EmptyString)
  then "<-- " +:+ pretty status +:+ " " +:+ show_uri uri +:+ " (" +:+ pretty millis +:+ " ms)"
  else "<-- " +:+ pretty status +:+ " " +:+ status_text +:+ " " +:+ show_uri uri +:+ " (" +:+ pretty millis +:+ " ms)".

(** [capture_response], openwire/logging.rs:199-253. *)
Definition capture_response (c : LoggerConfig) (r : LogResponse) (uri : Uri) (elapsed : Duration)
    : outcome WireError (LogResponse * list string) :=
  let lines := [response_line (lr_status r) uri (elapsed `div` 1000000)] in
  if bool_decide (lc_level c = Level_Basic) then Ok (r, lines) else
  let lines := push_headers lines c (lr_headers r) in
  if bool_decide (lc_level c = Level_Headers) then Ok (r, lines ++ ["<-- END HTTP"%string]) else
  match response_body_decision c r with
  | Skip => Ok (r, lines ++ ["<-- END HTTP"%string])
  | Omit preview => Ok (r, push_body_preview lines preview ++ ["<-- END HTTP (" +:+ end_summary preview +:+ ")"])
  | Buffer =>
    let? bs := body_bytes (lr_body r) in
    let preview := capture_buffered_body c (lr_headers r) bs in
    let r := mkLogResponse (lr_status r) (lr_headers r) (InMemory bs) in
    Ok (r, push_body_preview lines preview ++ ["<-- END HTTP (" +:+ end_summary preview +:+ ")"])
  end.

(** [LoggerInterceptor::intercept], openwire/logging.rs:133-166: what it returns and the lines [emit_lines] hands to the
    logger; [next] is the rest of the chain, [elapsed] how long it took. *)
Definition intercept (c : LoggerConfig) (r : Request H) (next : Request H → outcome WireError LogResponse) (elapsed : Duration)
    : outcome WireError LogResponse * list string :=
  if bool_decide (lc_level c = Level_None) then (next r, []) else
  let request_lines := capture_request c r in
  match next r with
  | Ok response =>
    match capture_response c response (req_uri r) elapsed with
    | Ok (response, lines) => (Ok response, request_lines ++ lines)
    | Err e => (Err e, request_lines)
    | Panic => (Panic, request_lines)
    end
  | Err e => (Err e, request_lines ++ ["<-- HTTP FAILED " +:+ show_uri (req_uri r) +:+ " (" +:+ show_error e +:+ ")"])
  | Panic => (Panic, request_lines)
  end.
(** ** What the log does not depend on *)

(** Two header maps that look the same with the values of the headers in [R] blanked. *)
Record same_shown (R : gset string) (h h' : H) : Prop := mkSameShown {
  ss_keys : hm_keys h = hm_keys h';
  ss_shown : ∀ k, k ∉ R → hm_get_all k h = hm_get_all k h';
  ss_blanked : ∀ k, k ∈ R → length (hm_get_all k h) = length (hm_get_all k h');
}.

#[export] Instance same_shown_equivalence R : Equivalence (same_shown R).
Proof.
  split.
  - intros h. by constructor.
  - intros h h' [E1 E2 E3]. constructor; [done| |]; intros k Hk; symmetry; auto.
  - intros h1 h2 h3 [E1 E2 E3] [F1 F2 F3]. constructor; [congruence| |]; intros k Hk; [by rewrite E2, F2|by rewrite E3, F3].
Qed.

Lemma fmap_bind {A B C} (f : B → C) (g : A → list B) (l : list A) : f <$> (l ≫= g) = l ≫= (λ x, f <$> g x).
Proof. induction l as [|x l IH]; [done|]. cbn. by rewrite fmap_app, IH. Qed.

Lemma fmap_const_length {A B} (f : A → B) (y : B) (l l' : list A) :
  length l = length l' → (∀ x, f x = y) → f <$> l = f <$> l'.
Proof. intros Hl Hf. revert l' Hl. induction l as [|x l IH]; intros [|x' l'] Hl; try done. injection Hl as Hl. cbn. by rewrite !Hf, (IH l'). Qed.

#[export] Instance push_headers_proper lines c : Proper (same_shown (lc_redacted_headers c) ==> (=)) (push_headers lines c).
Proof.
  intros h h' [Hk Hs Hb]. unfold push_headers, hm_iter. f_equal. rewrite !fmap_bind, Hk. clear Hk.
  induction (hm_keys h') as [|k ks IH]; [done|]. rewrite !bind_cons, IH. f_equal. rewrite <-!list_fmap_compose.
  destruct (decide (k ∈ lc_redacted_headers c)) as [Hin|Hout]; [|by rewrite Hs].
  apply (fmap_const_length _ (header_line c (k, EmptyString))); [by apply Hb|].
  intros v. unfold compose, header_line. by rewrite bool_decide_true.
Qed.

Lemma deciding_shown R h h' k : deciding ## R → same_shown R h h' → k ∈ deciding → hm_get k h = hm_get k h'.
Proof. intros Hd Hs Hk. unfold hm_get. rewrite (ss_shown _ _ _ Hs); [done|]. intros Hr. exact (Hd k Hk Hr). Qed.

Lemma content_type_shown R h h' : deciding ## R → same_shown R h h' → content_type h = content_type h'.
Proof. intros Hd Hs. unfold content_type. by rewrite (deciding_shown R h h' "content-type" Hd Hs) by evaluated. Qed.

Lemma capture_buffered_shown R c h h' bs :
  deciding ## R → same_shown R h h' →
  capture_buffered_body c h bs = capture_buffered_body c h' bs.
Proof. intros Hd Hs. unfold capture_buffered_body, is_json. by rewrite (content_type_shown R h h'). Qed.

(** The same request and the same response, blanked values aside. *)
Definition same_request (R : gset string) (r r' : Request H) : Prop :=
  req_method r = req_method r' ∧ req_uri r = req_uri r' ∧ req_body r = req_body r' ∧ same_shown R (req_headers r) (req_headers r').
Definition same_response (R : gset string) (r r' : LogResponse) : Prop :=
  lr_status r = lr_status r' ∧ lr_body r = lr_body r' ∧ same_shown R (lr_headers r) (lr_headers r').
Definition same_answer (R : gset string) (a a' : outcome WireError LogResponse) : Prop :=
  match a, a' with
  | Ok r, Ok r' => same_response R r r'
  | Err e, Err e' => e = e'
  | Panic, Panic => True
  | _, _ => False
  end.

Lemma capture_request_shown c r r' :
  deciding ## lc_redacted_headers c → same_request (lc_redacted_headers c) r r' →
  capture_request c r = capture_request c r'.
Proof.
  intros Hd (Hm & Hu & Hb & Hs). unfold capture_request, capture_request_body. rewrite Hm, Hu, Hb.
  rewrite (push_headers_proper _ c _ _ Hs). repeat case_match; simplify_eq/=; try done.
  all: by rewrite (capture_buffered_shown _ _ _ _ _ Hd Hs).
Qed.

Lemma decision_shown c r r' :
  deciding ## lc_redacted_headers c → same_response (lc_redacted_headers c) r r' →
  response_body_decision c r = response_body_decision c r'.
Proof.
  intros Hd (Hst & Hb & Hs). unfold response_body_decision, is_upgraded, is_event_stream, is_chunked, header_content_length.
  rewrite Hst, Hb, (content_type_shown _ _ _ Hd Hs).
  by rewrite (deciding_shown _ _ _ "upgrade" Hd Hs), (deciding_shown _ _ _ "transfer-encoding" Hd Hs), (deciding_shown _ _ _ "content-length" Hd Hs) by evaluated.
Qed.

Lemma capture_response_shown c r r' uri elapsed :
  deciding ## lc_redacted_headers c → same_response (lc_redacted_headers c) r r' →
  match capture_response c r uri elapsed,
        capture_response c r' uri elapsed with
  | Ok (_, lines), Ok (_, lines') => lines = lines'
  | Err e, Err e' => e = e'
  | Panic, Panic => True
  | _, _ => False
  end.
Proof.
  intros Hd Hs. pose proof Hs as (Hst & Hb & Hsh). unfold capture_response. rewrite Hst, (push_headers_proper _ c _ _ Hsh), (decision_shown _ _ _ Hd Hs), Hb.
  destruct (bool_decide _); [done|]. destruct (bool_decide _); [done|].
  destruct (response_body_decision _ _); [done|done|]. destruct (body_bytes _); cbn; [|done..].
  by rewrite (capture_buffered_shown _ _ _ _ _ Hd Hsh).
Qed.

(** C25.  Secrets stay out of the log: at every level, two exchanges that differ only in the values of headers the logger
    is told to redact - in the request, in the response, or both - are logged with exactly the same lines, whatever those
    values are.  (The four headers by which the logger chooses how to show a body must not themselves be redacted;
    by default they are not.) *)
Theorem redacted_values_not_logged c r r' next next' elapsed :
  deciding ## lc_redacted_headers c → same_request (lc_redacted_headers c) r r' →
  same_answer (lc_redacted_headers c) (next r) (next' r') →
  (intercept c r next elapsed).2 =
  (intercept c r' next' elapsed).2.
Proof.
  intros Hd Hr Ha. pose proof Hr as (_ & Hu & _). unfold intercept. rewrite <-(capture_request_shown _ _ _ Hd Hr), <-Hu.
  destruct (bool_decide _); [done|]. unfold same_answer in Ha. destruct (next r) as [res|e|], (next' r') as [res'|e'|]; try done.
  - pose proof (capture_response_shown _ _ _ (req_uri r) elapsed Hd Ha) as Hc.
    destruct (capture_response _ res _ _) as [[]| |], (capture_response _ res' _ _) as [[]| |]; try done. cbn. by rewrite Hc.
  - by rewrite Ha.
Qed.

(** ** What the logger passes on *)

(** The length a response is known to have: that of its header, or the bound of its body. *)
Definition known_length (r : LogResponse) : option Z := option_or (header_content_length (lr_headers r)) (size_hint_upper (lr_body r)).

Lemma decision_buffer c r :
  response_body_decision c r = Buffer ↔
  response_can_have_body (lr_status r) = true ∧ is_upgraded (lr_headers r) = false ∧
  is_event_stream (lr_headers r) = false ∧ is_chunked (lr_headers r) = false ∧
  ∃ n, known_length r = Some n ∧ n ≤ lc_max_body_bytes c.
Proof.
  unfold response_body_decision, known_length. destruct (response_can_have_body _) eqn:Eb; cbn [negb]; [|by split; [|intros [? _]]].
  assert ((lr_status r =? SWITCHING_PROTOCOLS) = false) as ->.
  { apply Z.eqb_neq. intros E. unfold response_can_have_body in Eb. by rewrite E in Eb. }
  cbn [orb]. destruct (is_upgraded _); [by split; [|intros (_ & ? & _)]|].
  destruct (is_event_stream _); [by split; [|intros (_ & _ & ? & _)]|]. cbn [orb].
  destruct (is_chunked _); [by split; [|intros (_ & _ & _ & ? & _)]|].
  destruct (option_or _ _) as [n|]; [|by split; [|intros (_ & _ & _ & _ & ? & ? & _)]].
  destruct (Z.ltb_spec (lc_max_body_bytes c) n).
  - split; [done|]. intros (_ & _ & _ & _ & n' & [= ->] & ?). lia.
  - split; [|done]. intros _. split_and!; [done..|]. by exists n.
Qed.

(** The logger changes nothing and reads no stream: it returns the error of the rest of the chain as it is, and its
    response as it is with the body untouched - except at the body level for a response that is neither upgraded, an
    event stream nor chunked and whose length is known and within the limit, when it reads the body and returns the same
    response with those bytes, or the error that reading gave. *)
Theorem logger_transparent c r next elapsed :
  let out := (intercept c r next elapsed).1 in
  match next r with
  | Ok res =>
    let read := lc_level c = Level_Body ∧ response_can_have_body (lr_status res) = true ∧ is_upgraded (lr_headers res) = false ∧
      is_event_stream (lr_headers res) = false ∧ is_chunked (lr_headers res) = false ∧
      ∃ n, known_length res = Some n ∧ n ≤ lc_max_body_bytes c in
    (¬ read → out = Ok res) ∧
    (read → out = match body_bytes (lr_body res) with
                  | Ok bs => Ok (mkLogResponse (lr_status res) (lr_headers res) (InMemory bs))
                  | other => match other with Err e => Err e | _ => Panic end
                  end)
  | failed => out = failed
  end.
Proof.
  cbn zeta. unfold intercept. destruct (lc_level c) eqn:El; cbn [bool_decide decide_rel LogLevel_eq_dec].
  all: rewrite ?bool_decide_false, ?bool_decide_true by done.
  all: destruct (next r) as [res|e|]; [|done..].
  all: unfold capture_response; rewrite ?El; rewrite ?bool_decide_false, ?bool_decide_true by done.
  1-3: by split; [|intros (? & _)].
  destruct (response_body_decision c res) eqn:Ed.
  1,2: split; [done|]; intros (_ & Hb%decision_buffer); congruence.
  apply decision_buffer in Ed. split; [by intros Hn; destruct Hn|]. intros _. by destruct (body_bytes _).
Qed.

(** A body that is shown fits the limit. *)
Lemma preview_bounded c h bs text n :
  0 ≤ lc_max_body_bytes c → capture_buffered_body c h bs = Preview_Text text n → n = len bs ∧ n ≤ lc_max_body_bytes c.
Proof.
  intros Hm. unfold capture_buffered_body. case_bool_decide as Hb; [intros [= <- <-]; subst; done|].
  destruct (Z.ltb_spec (lc_max_body_bytes c) (len bs)); [done|]. repeat case_match; intros [= <- <-]; done.
Qed.

(** A 101 answer is skipped before it is recognised as upgraded. *)
Lemma switching_protocols_skipped c r : lr_status r = SWITCHING_PROTOCOLS → response_body_decision c r = Skip.
Proof. intros E. unfold response_body_decision, response_can_have_body. by rewrite E. Qed.
End Logging.

(** ** A concrete log *)

Module LoggingDemo.
Abbreviation Headers := (list (string * string)).
Definition uri : Uri := mkUri (Some "https") (Some "api.test") (Some "api.test") None "/users".
Definition config : LoggerConfig := with_logger Level_Body.
Definition request (secret : string) : Request Headers :=
  mkRequest (Method_Other "POST") uri "HTTP/1.1" [("authorization", secret); ("x-trace-id", "7")] no_extensions (Body_Bytes [104; 105]).
Definition next (cookie : string) (_ : Request Headers) : outcome WireError (LogResponse (H := Headers)) :=
  Ok (mkLogResponse 200 [("set-cookie", cookie); ("content-length", "3")] (Unread None (Ok [111; 107; 10]))).
Definition log (secret cookie : string) : outcome WireError (LogResponse (H := Headers)) * list string :=
  intercept Some (λ s, s) (λ _, "https://api.test/users") (λ _, "error") (λ _, Some "OK") (λ _, None) config (request secret) (next cookie) (from_millis 12).

Example logged : (log "Bearer s" "sid=1").2 =
  ["--> POST https://api.test/users"; "Authorization: ██"; "X-Trace-Id: 7"; ""; "hi"; "--> END POST (2-byte body)";
   "<-- 200 OK https://api.test/users (12 ms)"; "Set-Cookie: ██"; "Content-Length: 3"; ""; "ok"; "<-- END HTTP (3-byte body)"]%string.
Proof. by vm_compute. Qed.
End LoggingDemo.
Import LoggingDemo.

Lemma redacted_values_not_logged_witness : (log "Bearer s" "sid=1").2 = (log "Basic dTpw" "sid=2").2.
Proof.
  apply (redacted_values_not_logged Some (λ s, s) (λ _, "https://api.test/users"%string) (λ _, "error"%string) (λ _, Some "OK"%string) (λ _, None)
           config (request "Bearer s") (request "Basic dTpw") (next "sid=1") (next "sid=2") (from_millis 12)).
  - evaluated.
  - split_and!; try reflexivity. constructor; [reflexivity| |]; intros k Hk.
    + unfold hm_get_all. cbn. repeat case_decide; subst; try reflexivity; exfalso; apply Hk; vm_compute; reflexivity.
    + unfold hm_get_all. cbn. repeat case_decide; subst; reflexivity.
  - split_and!; try reflexivity. constructor; [reflexivity| |]; intros k Hk.
    + unfold hm_get_all. cbn. repeat case_decide; subst; try reflexivity; exfalso; apply Hk; vm_compute; reflexivity.
    + unfold hm_get_all. cbn. repeat case_decide; subst; reflexivity.
Defined.

Lemma logger_transparent_witness :
  (log "Bearer s" "sid=1").1 = Ok (mkLogResponse 200 [("set-cookie", "sid=1"); ("content-length", "3")]%string (InMemory [111; 107; 10])).
Proof.
  apply (logger_transparent Some (λ s, s) (λ _, "https://api.test/users"%string) (λ _, "error"%string) (λ _, Some "OK"%string) (λ _, None)
           config (request "Bearer s") (next "sid=1") (from_millis 12)).
  split_and!; [vm_compute; reflexivity..|]. exists 3. split; [vm_compute; reflexivity|vm_compute; discriminate].
Defined.
