(* ===== verification/TokioNet.v ===== *)
(** * The tokio adapters

    openwire-tokio/src/lib.rs: the system resolver and the cache over any resolver, the TCP connector, and the adapter
    between the readers of hyper and of tokio.

    The resolver of the operating system, the socket calls and the clock are parameters or answers.  Lookups through the
    cache run concurrently: a lookup reads the clock, reads the cache under its lock, which it keeps while it tells the listener
    what it found, waits for the inner resolver if it found nothing, and stores the answer under the lock; [DnsWorld]
    interleaves these steps. *)

From stdpp Require Import pretty.
From S2P Require Import Prelude Net Error.

(** ** Name resolution *)

(** What the listener is told of a lookup. *)
Inductive DnsEvent : Type :=
| Dns_Start (host : string) (port : Z)
| Dns_End (host : string) (addrs : list SocketAddr)
| Dns_Failed (host : string) (e : WireError).

(** [SystemDnsResolver::resolve], openwire-tokio/lib.rs:265-294; [looked_up] is what [lookup_host] gave. *)
Definition system_resolve (looked_up : string + list SocketAddr) (host : string) (port : Z)
    : outcome WireError (list SocketAddr) * list DnsEvent :=
  match looked_up with
  | inr [] =>
    let error := dns "DNS resolution returned no socket addresses" "empty DNS result" in
    (Err error, [Dns_Start host port; Dns_Failed host error])
  | inr addrs => (Ok addrs, [Dns_Start host port; Dns_End host addrs])
  | inl e =>
    let error := dns "DNS resolution failed" e in
    (Err error, [Dns_Start host port; Dns_Failed host error])
  end.

(** [DnsCacheKey], openwire-tokio/lib.rs:310-314. *)
Record DnsCacheKey : Type := mkKey { ck_host : string; ck_port : Z }.
#[global] Instance DnsCacheKey_eq_dec : EqDecision DnsCacheKey.
Proof. solve_decision. Defined.
#[global] Instance DnsCacheKey_countable : Countable DnsCacheKey.
Proof. refine (inj_countable' (λ k, (ck_host k, ck_port k)) (λ p, mkKey p.1 p.2) _). by intros []. Defined.

(** [DnsCacheOutcome], openwire-tokio/lib.rs:322-326. *)
Inductive DnsCacheOutcome : Type := Cached_Ok (addrs : list SocketAddr) | Cached_Err (message : string).

(** [DnsCacheEntry], openwire-tokio/lib.rs:316-320. *)
Record DnsCacheEntry : Type := mkEntry { ce_expires_at : Instant; ce_outcome : DnsCacheOutcome }.

(** [CachingDnsResolver], openwire-tokio/lib.rs:302-308, the times to live; the cache is shared by its clones. *)
Record CachingDnsResolver : Type := mkCaching { positive_ttl : Duration; negative_ttl : Duration }.

(** [CachingDnsResolver::system], openwire-tokio/lib.rs:330-336. *)
Definition caching_system : CachingDnsResolver := mkCaching (from_secs 30) (from_secs 5).

(** The cache under its mutex, which is poisoned when a holder panics. *)
Record DnsCache : Type := mkCache { dc_entries : gmap DnsCacheKey DnsCacheEntry; dc_poisoned : bool }.

(** What a cached outcome answers, openwire-tokio/lib.rs:381-396. *)
Definition cached_answer (o : DnsCacheOutcome) : outcome WireError (list SocketAddr) :=
  match o with
  | Cached_Ok addrs => Ok addrs
  | Cached_Err m => Err (dns m m)
  end.

Definition answer_events (host : string) (port : Z) (a : outcome WireError (list SocketAddr)) : list DnsEvent :=
  Dns_Start host port ::
  match a with Ok addrs => [Dns_End host addrs] | Err e => [Dns_Failed host e] | Panic => [] end.

(** The lookup at the start of [CachingDnsResolver::resolve], openwire-tokio/lib.rs:377-400, under the lock; [now] is the clock as
    it was read before the lock was asked for. *)
Definition cache_lookup (c : DnsCache) (key : DnsCacheKey) (now : Instant)
    : option (outcome WireError (list SocketAddr) * list DnsEvent) :=
  if dc_poisoned c then None else
  match dc_entries c !! key with
  | Some entry =>
    if now <? ce_expires_at entry then
      let a := cached_answer (ce_outcome entry) in Some (a, answer_events (ck_host key) (ck_port key) a)
    else None
  | None => None
  end.

(** How storing an answer ends: it is returned, the sum of the clock and the time to live overflowed, or the cache is to be
    swept first. *)
Inductive Stored : Type := Stored_Return | Stored_Panic | Stored_Sweep.

(** The insertion at the end of [CachingDnsResolver::resolve], openwire-tokio/lib.rs:402-431, under the lock; [now] is the clock as
    read there.  A panic poisons the lock, and a poisoned lock is left alone. *)
Definition cache_insert (r : CachingDnsResolver) (c : DnsCache) (key : DnsCacheKey) (now : Instant)
    (answer : outcome WireError (list SocketAddr)) : DnsCache * Stored :=
  if dc_poisoned c then (c, Stored_Return) else
  match answer with
  | Ok addrs =>
    if now + positive_ttl r <=? INSTANT_MAX then
      let m := <[key := mkEntry (now + positive_ttl r) (Cached_Ok addrs)]> (dc_entries c) in
      (mkCache m false, if decide (256 < size m)%nat then Stored_Sweep else Stored_Return)
    else (mkCache (dc_entries c) true, Stored_Panic)
  | Err e =>
    if now + negative_ttl r <=? INSTANT_MAX then
      (mkCache (<[key := mkEntry (now + negative_ttl r) (Cached_Err (message e))]> (dc_entries c)) false, Stored_Return)
    else (mkCache (dc_entries c) true, Stored_Panic)
  | Panic => (c, Stored_Panic)
  end.

(** The sweep, openwire-tokio/lib.rs:412-416, with its own reading of the clock. *)
Definition cache_sweep (now : Instant) (c : DnsCache) : DnsCache :=
  mkCache (filter (λ kv, now < ce_expires_at kv.2) (dc_entries c)) (dc_poisoned c).

Section Lookups.
Context (r : CachingDnsResolver).

Definition ttl_of (a : outcome WireError (list SocketAddr)) : Duration :=
  match a with Ok _ => positive_ttl r | _ => negative_ttl r end.
(** The outcome under which an answer is remembered. *)
Definition remembered (a : outcome WireError (list SocketAddr)) : option DnsCacheOutcome :=
  match a with Ok addrs => Some (Cached_Ok addrs) | Err e => Some (Cached_Err (message e)) | Panic => None end.

(** Where a lookup is: it has read the clock and asks for the lock; it has found an answer and tells the listener, with the
    lock held; it waits for the inner resolver; it has its answer and asks for the lock; it sweeps, with the lock held; it
    has returned; the listener panicked; it was dropped while it waited. *)
Inductive LookupStage : Type :=
| Lookup_Read
| Lookup_Hit (a : outcome WireError (list SocketAddr))
| Lookup_Asking
| Lookup_Answered (a : outcome WireError (list SocketAddr))
| Lookup_Sweeping (a : outcome WireError (list SocketAddr))
| Lookup_Done (a : outcome WireError (list SocketAddr))
| Lookup_Crashed
| Lookup_Dropped.

(** One call of [resolve]: the clock it read first, what the inner resolver answered to it, and the clock it read to date the
    entry it made of that. *)
Record Lookup : Type := mkLookup {
  lk_key : DnsCacheKey;
  lk_read : Instant;
  lk_stage : LookupStage;
  lk_inner : option (outcome WireError (list SocketAddr));
  lk_stamp : option Instant;
}.
Definition to_stage (st : LookupStage) (l : Lookup) : Lookup := mkLookup (lk_key l) (lk_read l) st (lk_inner l) (lk_stamp l).
Definition stamp_at (now : Instant) (l : Lookup) : Lookup := mkLookup (lk_key l) (lk_read l) (lk_stage l) (lk_inner l) (Some now).

(** The cache, the holder of its lock if there is one, the clock and the lookups. *)
Record DnsWorld : Type := mkDns {
  dw_cache : DnsCache;
  dw_lock : option nat;
  dw_now : Instant;
  dw_lookups : list Lookup;
}.
Definition dns_start : DnsWorld := mkDns (mkCache ∅ false) None 0 [].

Inductive DnsMove : Type :=
| Dns_Tick (d : Duration)
| Dns_Begin (key : DnsCacheKey)
| Dns_Look (i : nat)
| Dns_Told (i : nat)
| Dns_ListenerPanic (i : nat)
| Dns_Answer (i : nat) (answer : outcome WireError (list SocketAddr))
| Dns_Store (i : nat)
| Dns_Sweep (i : nat)
| Dns_Drop (i : nat).

(** Lookup [i] goes on. *)
Definition goes (i : nat) (l : Lookup) (c : DnsCache) (lock : option nat) (w : DnsWorld) : DnsWorld :=
  mkDns c lock (dw_now w) (<[i := l]> (dw_lookups w)).

(** [CachingDnsResolver::resolve], openwire-tokio/lib.rs:362-433, move by move: reading the clock, the lookup under the lock -
    which is kept while the listener is told - the inner resolver, the insertion under the lock and the sweep. *)
Definition dns_move (w : DnsWorld) (v : DnsMove) : option DnsWorld :=
  match v with
  | Dns_Tick d => if d <? 0 then None else Some (mkDns (dw_cache w) (dw_lock w) (dw_now w + d) (dw_lookups w))
  | Dns_Begin key =>
    Some (mkDns (dw_cache w) (dw_lock w) (dw_now w) (dw_lookups w ++ [mkLookup key (dw_now w) Lookup_Read None None]))
  | Dns_Look i =>
    l ← dw_lookups w !! i;
    match lk_stage l, dw_lock w with
    | Lookup_Read, None =>
      match cache_lookup (dw_cache w) (lk_key l) (lk_read l) with
      | Some (a, _) => Some (goes i (to_stage (Lookup_Hit a) l) (dw_cache w) (Some i) w)
      | None => Some (goes i (to_stage Lookup_Asking l) (dw_cache w) None w)
      end
    | _, _ => None
    end
  | Dns_Told i =>
    l ← dw_lookups w !! i;
    match lk_stage l with
    | Lookup_Hit a => Some (goes i (to_stage (Lookup_Done a) l) (dw_cache w) None w)
    | _ => None
    end
  | Dns_ListenerPanic i =>
    l ← dw_lookups w !! i;
    match lk_stage l with
    | Lookup_Hit _ => Some (goes i (to_stage Lookup_Crashed l) (mkCache (dc_entries (dw_cache w)) true) None w)
    | _ => None
    end
  | Dns_Answer i answer =>
    l ← dw_lookups w !! i;
    match lk_stage l with
    | Lookup_Asking =>
      let st := match answer with Panic => Lookup_Done Panic | _ => Lookup_Answered answer end in
      Some (goes i (mkLookup (lk_key l) (lk_read l) st (Some answer) None) (dw_cache w) (dw_lock w) w)
    | _ => None
    end
  | Dns_Store i =>
    l ← dw_lookups w !! i;
    match lk_stage l, dw_lock w with
    | Lookup_Answered a, None =>
      let '(c, result) := cache_insert r (dw_cache w) (lk_key l) (dw_now w) a in
      let l := if dc_poisoned (dw_cache w) then l else stamp_at (dw_now w) l in
      match result with
      | Stored_Return => Some (goes i (to_stage (Lookup_Done a) l) c None w)
      | Stored_Panic => Some (goes i (to_stage (Lookup_Done Panic) l) c None w)
      | Stored_Sweep => Some (goes i (to_stage (Lookup_Sweeping a) l) c (Some i) w)
      end
    | _, _ => None
    end
  | Dns_Sweep i =>
    l ← dw_lookups w !! i;
    match lk_stage l with
    | Lookup_Sweeping a => Some (goes i (to_stage (Lookup_Done a) l) (cache_sweep (dw_now w) (dw_cache w)) None w)
    | _ => None
    end
  | Dns_Drop i =>
    l ← dw_lookups w !! i;
    match lk_stage l with
    | Lookup_Asking => Some (goes i (to_stage Lookup_Dropped l) (dw_cache w) (dw_lock w) w)
    | _ => None
    end
  end.

Inductive dns_reachable : DnsWorld → Prop :=
| Dns_Reach_start : dns_reachable dns_start
| Dns_Reach_move w v w' : dns_reachable w → dns_move w v = Some w' → dns_reachable w'.

(** ** Where the answers come from *)

(** Some lookup for [key] was answered [a] by the inner resolver and stored it at [t]. *)
Definition answered_stored (ls : list Lookup) (key : DnsCacheKey) (a : outcome WireError (list SocketAddr)) (t : Instant) : Prop :=
  ∃ j l, ls !! j = Some l ∧ lk_key l = key ∧ lk_inner l = Some a ∧ lk_stamp l = Some t.

(** [a] repeats what the inner resolver answered to a lookup for the same name, and that answer had not expired at the time
    lookup [l] read the clock. *)
Definition repeats (ls : list Lookup) (l : Lookup) (a : outcome WireError (list SocketAddr)) : Prop :=
  ∃ a0 t o, answered_stored ls (lk_key l) a0 t ∧ remembered a0 = Some o ∧ a = cached_answer o ∧ lk_read l < t + ttl_of a0.

(** What a lookup returns: what the inner resolver answered to it, or what it found in the cache; a panic is the inner
    resolver's, or that of an expiry the clock cannot represent. *)
Definition warranted (ls : list Lookup) (l : Lookup) (given : outcome WireError (list SocketAddr)) : Prop :=
  match given with
  | Panic => lk_inner l = Some Panic ∨ ∃ a t, lk_inner l = Some a ∧ lk_stamp l = Some t ∧ INSTANT_MAX < t + ttl_of a
  | _ => lk_inner l = Some given ∨ (lk_inner l = None ∧ repeats ls l given)
  end.

Definition lookup_fits (ls : list Lookup) (l : Lookup) : Prop :=
  match lk_stage l with
  | Lookup_Read | Lookup_Asking | Lookup_Dropped => lk_inner l = None
  | Lookup_Crashed => True
  | Lookup_Hit a => lk_inner l = None ∧ a ≠ Panic ∧ repeats ls l a
  | Lookup_Answered a => lk_inner l = Some a ∧ a ≠ Panic ∧ lk_stamp l = None
  | Lookup_Sweeping a => lk_inner l = Some a ∧ a ≠ Panic
  | Lookup_Done a => warranted ls l a
  end.

Record dns_ok (w : DnsWorld) : Prop := mkDnsOk {
  do_entries : ∀ key e, dc_entries (dw_cache w) !! key = Some e →
    ∃ a t, answered_stored (dw_lookups w) key a t ∧ ce_expires_at e = t + ttl_of a ∧ remembered a = Some (ce_outcome e);
  do_lookups : ∀ i l, dw_lookups w !! i = Some l → lookup_fits (dw_lookups w) l;
}.

(** What is known of the lookups stays so. *)
Definition grows (ls ls' : list Lookup) : Prop := ∀ key a t, answered_stored ls key a t → answered_stored ls' key a t.

Lemma fits_mono ls ls' l : grows ls ls' → lookup_fits ls l → lookup_fits ls' l.
Proof.
  intros Hg. assert (Hr : ∀ a, repeats ls l a → repeats ls' l a).
  { intros a (a0 & t & o & ? & ?). exists a0, t, o. split; [by apply Hg|done]. }
  unfold lookup_fits, warranted. destruct (lk_stage l) as [|a| | | |a| |]; [done|naive_solver|done..| |done|done]. destruct a; naive_solver.
Qed.

Lemma grows_app ls l : grows ls (ls ++ [l]).
Proof. intros key a t (j & l' & Hj & ?). exists j, l'. split; [by apply lookup_app_l_Some|done]. Qed.

Lemma grows_insert ls i l l' :
  ls !! i = Some l → lk_key l' = lk_key l → (∀ a, lk_inner l = Some a → lk_inner l' = Some a) →
  (∀ t, lk_stamp l = Some t → is_Some (lk_inner l) → lk_stamp l' = Some t) → grows ls (<[i := l']> ls).
Proof.
  intros Hi Hk Hin Hst key a t (j & l0 & Hj & E1 & E2 & E3). destruct (decide (j = i)) as [->|Hne].
  - exists i, l'. rewrite list_lookup_insert_eq by (by eapply lookup_lt_Some). assert (l0 = l) as -> by congruence.
    split_and!; [done|congruence|by apply Hin|apply Hst; [done|by eexists]].
  - exists j, l0. by rewrite list_lookup_insert_ne.
Qed.

(** A lookup goes on, and the cache changes. *)
Lemma goes_ok w i l l' c lock :
  dns_ok w → dw_lookups w !! i = Some l → grows (dw_lookups w) (<[i := l']> (dw_lookups w)) →
  (grows (dw_lookups w) (<[i := l']> (dw_lookups w)) → lookup_fits (<[i := l']> (dw_lookups w)) l') →
  (∀ key e, dc_entries c !! key = Some e → dc_entries (dw_cache w) !! key = Some e ∨
    ∃ a t, answered_stored (<[i := l']> (dw_lookups w)) key a t ∧ ce_expires_at e = t + ttl_of a ∧ remembered a = Some (ce_outcome e)) →
  dns_ok (goes i l' c lock w).
Proof.
  intros [He Hl] Hi Hg Hf Hc. constructor; cbn.
  - intros key e Hke. destruct (Hc key e Hke) as [Hold|]; [|done]. destruct (He key e Hold) as (a & t & ? & ?). exists a, t. split; [by apply Hg|done].
  - intros j lj. destruct (decide (j = i)) as [->|Hne].
    + rewrite list_lookup_insert_eq by (by eapply lookup_lt_Some). intros [= <-]. by apply Hf.
    + rewrite list_lookup_insert_ne by done. intros Hj. eapply fits_mono; [exact Hg|by eapply Hl].
Qed.

(** What an insertion leaves in the cache was there or is the new answer. *)
Lemma cache_insert_entries c key now answer c' result k e :
  cache_insert r c key now answer = (c', result) → dc_entries c' !! k = Some e →
  dc_entries c !! k = Some e ∨
  (k = key ∧ ce_expires_at e = now + ttl_of answer ∧ remembered answer = Some (ce_outcome e)).
Proof.
  unfold cache_insert. destruct (dc_poisoned c); [intros [= <- _]; by left|].
  assert (Hins : ∀ e0 : DnsCacheEntry, <[key := e0]> (dc_entries c) !! k = Some e → dc_entries c !! k = Some e ∨ (k = key ∧ e = e0)).
  { intros e0. rewrite lookup_insert_Some. naive_solver. }
  destruct answer as [addrs|e0|]; [| |intros [= <- _]; by left];
    (destruct (_ <=? _); [|intros [= <- _]; by left]); intros [= <- _]; cbn; intros [?|[-> ->]]%Hins; [by left|by right|by left|by right].
Qed.

Lemma cache_insert_panic c key now answer c' :
  answer ≠ Panic → cache_insert r c key now answer = (c', Stored_Panic) → INSTANT_MAX < now + ttl_of answer.
Proof.
  intros Ha. unfold cache_insert. destruct (dc_poisoned c); [done|]. destruct answer as [addrs|e|]; [| |done]; cbn [ttl_of].
  - destruct (Z.leb_spec (now + positive_ttl r) INSTANT_MAX); [|done]. intros [= _ E]. by case_decide.
  - by destruct (Z.leb_spec (now + negative_ttl r) INSTANT_MAX).
Qed.

Lemma sweep_entries now c k e : dc_entries (cache_sweep now c) !! k = Some e → dc_entries c !! k = Some e.
Proof. cbn. by intros [? _]%map_lookup_filter_Some. Qed.

Lemma store_ok w i l a c' result lock :
  dns_ok w → dw_lookups w !! i = Some l → lk_stage l = Lookup_Answered a →
  cache_insert r (dw_cache w) (lk_key l) (dw_now w) a = (c', result) →
  let st := match result with Stored_Return => Lookup_Done a | Stored_Panic => Lookup_Done Panic | Stored_Sweep => Lookup_Sweeping a end in
  dns_ok (goes i (to_stage st (if dc_poisoned (dw_cache w) then l else stamp_at (dw_now w) l)) c' lock w).
Proof.
  intros Hw Hi Hst Ec st. pose proof (do_lookups _ Hw i l Hi) as Hf. unfold lookup_fits in Hf. rewrite Hst in Hf. destruct Hf as (Hin & Hap & Hsl).
  eapply goes_ok; [done|done| | |].
  - eapply grows_insert; [done|by destruct (dc_poisoned _)|by destruct (dc_poisoned _)|]. cbn. intros t Ht. congruence.
  - intros _. unfold lookup_fits, warranted, st. destruct result; cbn.
    + destruct a; [left|left|done]; by destruct (dc_poisoned _).
    + right. exists a, (dw_now w). destruct (dc_poisoned (dw_cache w)) eqn:Ep; [by unfold cache_insert in Ec; rewrite Ep in Ec|].
      split_and!; [done|done|]. by eapply cache_insert_panic.
    + by destruct (dc_poisoned _).
  - intros key e Hke. destruct (cache_insert_entries _ _ _ _ _ _ _ _ Ec Hke) as [|(-> & Hx & Hr)]; [by left|].
    destruct (dc_poisoned (dw_cache w)) eqn:Ep; [unfold cache_insert in Ec; rewrite Ep in Ec; injection Ec as <- _; by left|right].
    exists a, (dw_now w). split; [|done]. exists i. eexists. rewrite list_lookup_insert_eq by (by eapply lookup_lt_Some). by split_and!.
Qed.

Lemma dns_move_ok w v w' : dns_ok w → dns_move w v = Some w' → dns_ok w'.
Proof.
  intros Hw Hm. pose proof (do_lookups _ Hw) as Hl.
  assert (Hgo : ∀ i l st c lock, dw_lookups w !! i = Some l → (∀ ls, grows (dw_lookups w) ls → lookup_fits ls (to_stage st l)) →
    (∀ key e, dc_entries c !! key = Some e → dc_entries (dw_cache w) !! key = Some e) → dns_ok (goes i (to_stage st l) c lock w)).
  { intros i l st c lock Hi Hf Hc. eapply goes_ok; [done|done|by eapply grows_insert| |]; [by apply Hf|]. intros key e Hke. left. by apply Hc. }
  destruct v as [d|key|i|i|i|i answer|i|i|i]; cbn in Hm; try (apply bind_Some in Hm as (l & Hi & Hm); pose proof (Hl i l Hi) as Hf; unfold lookup_fits in Hf).
  - destruct (d <? 0); [done|]. injection Hm as <-. by destruct Hw.
  - injection Hm as <-. destruct Hw as [He _]. constructor; cbn.
    + intros k e Hk. destruct (He k e Hk) as (a & t & ? & ?). exists a, t. split; [by apply grows_app|done].
    + intros i l [Hi|[_ Hi]]%lookup_app_Some; [eapply fits_mono; [apply grows_app|by eapply Hl]|]. by apply list_lookup_singleton_Some in Hi as [_ <-].
  - destruct (lk_stage l) eqn:Est; try done. destruct (dw_lock w); [done|]. destruct (cache_lookup _ _ _) as [[a evs]|] eqn:El; injection Hm as <-; apply Hgo; try done.
    unfold cache_lookup in El. destruct (dc_poisoned _); [done|]. destruct (dc_entries _ !! lk_key l) as [e|] eqn:Ee; [|done].
    destruct (Z.ltb_spec (lk_read l) (ce_expires_at e)) as [Hlt|]; [|done]. injection El as <- <-.
    destruct (do_entries _ Hw _ _ Ee) as (a & t & Ha & Hx & Hr). intros ls Hg. unfold lookup_fits. cbn. split_and!; [done|by destruct (ce_outcome e)|].
    exists a, t, (ce_outcome e). split_and!; [by apply Hg|done|done|cbn; lia].
  - destruct (lk_stage l) as [|a| | | | | |] eqn:Est; try done. injection Hm as <-. apply Hgo; try done. intros ls Hg. destruct Hf as (? & Hap & (a0 & t & o & ? & ? & ? & ?)).
    unfold lookup_fits, warranted. cbn. assert (Hrep : repeats ls (to_stage (Lookup_Done a) l) a) by (exists a0, t, o; split_and!; [by apply Hg|done..]).
    destruct a; [by right|by right|done].
  - destruct (lk_stage l) as [|a| | | | | |] eqn:Est; try done. injection Hm as <-. by apply Hgo.
  - destruct (lk_stage l) eqn:Est; try done. injection Hm as <-. eapply goes_ok; [done|done| | |by left].
    + eapply grows_insert; [done|done|cbn; congruence|]. intros t _ [? ?]. congruence.
    + intros _. unfold lookup_fits. destruct answer; cbn; [done|done|by left].
  - destruct (lk_stage l) as [| | |a| | | |] eqn:Est; try done. destruct (dw_lock w); [done|].
    destruct (cache_insert _ _ _ _ _) as [c' result] eqn:Ec. pose proof (λ lock, store_ok w i l a c' result lock Hw Hi Est Ec) as Hs.
    destruct result; injection Hm as <-; apply Hs.
  - destruct (lk_stage l) as [| | | |a| | |] eqn:Est; try done. injection Hm as <-. apply Hgo; [done| |intros key e; apply sweep_entries].
    intros ls _. unfold lookup_fits, warranted. cbn. destruct Hf as [? ?]. destruct a; [by left|by left|done].
  - destruct (lk_stage l) eqn:Est; try done. injection Hm as <-. by apply Hgo.
Qed.

Lemma dns_reachable_ok w : dns_reachable w → dns_ok w.
Proof. induction 1 as [|w v w' _ IH Hm]; [|by eapply dns_move_ok]. by constructor. Qed.

(** C26.  The resolver cache invents nothing and forgets in time: however lookups interleave - reading the clock, waiting for
    the lock, which is held while the listener is told, waiting for the inner resolver, storing and sweeping - what a
    lookup returns is what the inner resolver answered to that very lookup, or, when it did not ask, it repeats - the same addresses, or a DNS error
    with the same message - what the inner resolver answered to a lookup for the same host and port, and the entry
    made of that answer had not expired at the time the lookup read the clock, which is before it waited for the lock.  A lookup
    in which the listener does not panic panics only if the inner resolver did or the time its answer expires at cannot be
    represented. *)
Theorem dns_cache_provenance w i l given :
  dns_reachable w → dw_lookups w !! i = Some l → lk_stage l = Lookup_Done given →
  match given with
  | Panic => lk_inner l = Some Panic ∨ ∃ a t, lk_inner l = Some a ∧ lk_stamp l = Some t ∧ INSTANT_MAX < t + ttl_of a
  | _ => lk_inner l = Some given ∨
         (lk_inner l = None ∧ ∃ j l0 a t o, dw_lookups w !! j = Some l0 ∧ lk_key l0 = lk_key l ∧ lk_inner l0 = Some a ∧
            lk_stamp l0 = Some t ∧ remembered a = Some o ∧ given = cached_answer o ∧ lk_read l < t + ttl_of a)
  end.
Proof.
  intros Hr Hi Hst. apply dns_reachable_ok in Hr as [_ Hl]. specialize (Hl i l Hi). unfold lookup_fits in Hl. rewrite Hst in Hl.
  assert (Hrep : repeats (dw_lookups w) l given → ∃ j l0 a t o, dw_lookups w !! j = Some l0 ∧ lk_key l0 = lk_key l ∧ lk_inner l0 = Some a ∧
            lk_stamp l0 = Some t ∧ remembered a = Some o ∧ given = cached_answer o ∧ lk_read l < t + ttl_of a).
  { intros (a & t & o & (j & l0 & ? & ? & ? & ?) & ? & ? & ?). by exists j, l0, a, t, o. }
  unfold warranted in Hl. destruct given; [..|done]; (destruct Hl as [?|[? ?]]; [by left|right; split; [done|by apply Hrep]]).
Qed.

(** ** How large it gets *)

(** Storing addresses leaves at most 256 entries, or only entries that are still fresh when it sweeps. *)
Lemma positive_store_swept c key now later addrs c' result :
  dc_poisoned c = false → cache_insert r c key now (Ok addrs) = (c', result) → dc_poisoned c' = false →
  match result with
  | Stored_Sweep => map_Forall (λ _ e, later < ce_expires_at e) (dc_entries (cache_sweep later c'))
  | _ => (size (dc_entries c') ≤ 256)%nat
  end.
Proof.
  intros Hp. unfold cache_insert. rewrite Hp. destruct (_ <=? _); [|intros [= <- _]; done]. intros [= <- <-] _. cbn.
  case_decide; [|cbn; lia]. intros k e Hk. by apply map_lookup_filter_Some in Hk as [_ ?].
Qed.

(** Failed lookups are never swept: [n] of them leave [n] entries, however long ago they expired. *)
Fixpoint failing (n : nat) (c : DnsCache) : DnsCache :=
  match n with
  | O => c
  | S n => (cache_insert r (failing n c) (mkKey (pretty n) 443) 0 (Err (dns "no such host" "NXDOMAIN"))).1
  end.
Lemma failed_lookups_pile_up n :
  negative_ttl r ≤ INSTANT_MAX → size (dc_entries (failing n (mkCache ∅ false))) = n.
Proof.
  intros Ht.
  assert (Hinv : dc_poisoned (failing n (mkCache ∅ false)) = false ∧ size (dc_entries (failing n (mkCache ∅ false))) = n ∧
    ∀ m, (n ≤ m)%nat → dc_entries (failing n (mkCache ∅ false)) !! mkKey (pretty m) 443 = None).
  { induction n as [|n (IH1 & IH2 & IH3)]; [done|]. cbn [failing]. unfold cache_insert. rewrite IH1.
    destruct (Z.leb_spec (0 + negative_ttl r) INSTANT_MAX); [|lia]. cbn [fst dc_entries dc_poisoned]. split_and!; [done| |].
    - rewrite map_size_insert_None by (apply IH3; lia). by rewrite IH2.
    - intros m Hm. rewrite lookup_insert_ne; [apply IH3; lia|]. intros [= Hmn%(inj pretty)]. lia. }
  apply Hinv.
Qed.
End Lookups.

Module DnsDemo.
Definition resolver : CachingDnsResolver := caching_system.
Definition host : DnsCacheKey := mkKey "a.test" 443.
(** Two lookups ask at once.  The first answer is found 29 seconds later; the second, an error, replaces it, and is found
    four seconds after that.  The last lookup but one holds the lock in the listener while the last, which has read the clock, waits for
    it: the entry expires meanwhile, and is served. *)
Definition moves : list DnsMove :=
  [Dns_Begin host; Dns_Begin host; Dns_Look 0; Dns_Look 1; Dns_Answer 0 (Ok []); Dns_Store 0; Dns_Tick (from_secs 29);
   Dns_Begin host; Dns_Look 2; Dns_Told 2; Dns_Answer 1 (Err (canceled "gone")); Dns_Store 1;
   Dns_Tick (from_secs 4); Dns_Begin host; Dns_Look 3; Dns_Begin host; Dns_Tick (from_secs 2); Dns_Told 3; Dns_Look 4; Dns_Told 4;
   Dns_Begin host; Dns_Look 5].
Definition world : DnsWorld := foldl (λ w v, default w (dns_move resolver w v)) dns_start moves.
Definition gone : outcome WireError (list SocketAddr) := Err (dns "gone" "gone").
Example lookups :
  lk_stage <$> dw_lookups world =
    [Lookup_Done (Ok []); Lookup_Done (Err (canceled "gone")); Lookup_Done (Ok []); Lookup_Done gone; Lookup_Done gone; Lookup_Asking] ∧
  dw_now world = from_secs 35 ∧ ce_expires_at <$> dc_entries (dw_cache world) !! host = Some (from_secs 34).
Proof. by vm_compute. Qed.
Lemma world_reachable : dns_reachable resolver world.
Proof.
  unfold world. induction moves as [|v vs IH] using rev_ind; [constructor|]. rewrite foldl_snoc.
  destruct (dns_move _ _ _) as [w|] eqn:E; [|done]. econstructor; [exact IH|exact E].
Qed.
Definition served : Lookup := mkLookup host (from_secs 33) (Lookup_Done gone) None None.
End DnsDemo.
Import DnsDemo.

Lemma dns_cache_provenance_witness :
  ∃ j l0 a t, dw_lookups world !! j = Some l0 ∧ lk_inner l0 = Some a ∧ lk_stamp l0 = Some t ∧ lk_read served < t + ttl_of resolver a.
Proof.
  destruct (dns_cache_provenance resolver world 4 served gone) as [H|(_ & j & l0 & a & t & o & H1 & _ & H2 & H3 & _ & _ & H4)].
  - apply world_reachable.
  - vm_compute. reflexivity.
  - reflexivity.
  - discriminate H.
  - exists j, l0, a, t. by split_and!.
Defined.

(** ** TCP connections *)

(** [TcpSocketConfig], openwire-tokio/lib.rs:438-446. *)
Record TcpSocketConfig : Type := mkSocketConfig {
  sc_nodelay : bool;
  sc_linger : option (option Duration);
  sc_recv_buffer_size : option Z;
  sc_send_buffer_size : option Z;
}.
(** [TcpSocketConfig::default], openwire-tokio/lib.rs:448-457. *)
Definition socket_config_default : TcpSocketConfig := mkSocketConfig true None None None.

(** [nodelay], openwire-tokio/lib.rs:473-476. *)
Definition set_nodelay (enabled : bool) (c : TcpSocketConfig) : TcpSocketConfig :=
  mkSocketConfig enabled (sc_linger c) (sc_recv_buffer_size c) (sc_send_buffer_size c).
(** [linger], openwire-tokio/lib.rs:478-481. *)
Definition set_linger (linger : option Duration) (c : TcpSocketConfig) : TcpSocketConfig :=
  mkSocketConfig (sc_nodelay c) (Some linger) (sc_recv_buffer_size c) (sc_send_buffer_size c).
(** [recv_buffer_size], openwire-tokio/lib.rs:483-486. *)
Definition set_recv_buffer_size (n : Z) (c : TcpSocketConfig) : TcpSocketConfig :=
  mkSocketConfig (sc_nodelay c) (sc_linger c) (Some n) (sc_send_buffer_size c).
(** [send_buffer_size], openwire-tokio/lib.rs:488-491. *)
Definition set_send_buffer_size (n : Z) (c : TcpSocketConfig) : TcpSocketConfig :=
  mkSocketConfig (sc_nodelay c) (sc_linger c) (sc_recv_buffer_size c) (Some n).

(** The calls on a socket before it is connected. *)
Inductive SocketCall : Type :=
| Create (v4 : bool)
| Set_Nodelay (on : bool)
| Set_Linger (d : option Duration)
| Set_RecvBuffer (n : Z)
| Set_SendBuffer (n : Z).

(** [ConnectionInfo], openwire-core/transport.rs:11-17. *)
Record ConnectionInfo : Type := mkInfo {
  ci_id : Z;
  ci_remote_addr : option SocketAddr;
  ci_local_addr : option SocketAddr;
  ci_tls : bool;
}.

(** What the listener is told of a connection attempt. *)
Inductive ConnectEvent : Type :=
| Connect_Start (addr : SocketAddr)
| Connect_Failed (addr : SocketAddr) (e : WireError)
| Connect_End (id : Z) (addr : SocketAddr).

Section Tcp.
(** Whether a socket call fails, and with what; how long connecting takes, and its result: the two addresses of
    the stream, where they can be read. *)
Context (socket_call : SocketCall → option string) (connecting : Duration * (string + option SocketAddr * option SocketAddr))
        (debug : Duration → string) (elapsed_text : string).

Definition socket_do (c : SocketCall) (what : string) : outcome WireError unit :=
  match socket_call c with Some e => Err (tcp_connect what e) | None => Ok () end.

Definition when_some {A} (o : option A) (f : A → outcome WireError unit) : outcome WireError unit :=
  match o with Some a => f a | None => Ok () end.

(** The calls before the socket is connected, openwire-tokio/lib.rs:509-537. *)
Definition configure (c : TcpSocketConfig) (addr : SocketAddr) : outcome WireError unit :=
  let? _ := socket_do (Create (match sa_ip addr with V4 _ => true | V6 _ => false end)) "failed to create TCP socket" in
  let? _ := socket_do (Set_Nodelay (sc_nodelay c)) "failed to configure TCP_NODELAY" in
  let? _ := when_some (sc_linger c) (λ d, socket_do (Set_Linger d) "failed to configure SO_LINGER") in
  let? _ := when_some (sc_recv_buffer_size c) (λ n, socket_do (Set_RecvBuffer n) "failed to configure SO_RCVBUF") in
  when_some (sc_send_buffer_size c) (λ n, socket_do (Set_SendBuffer n) "failed to configure SO_SNDBUF").

(** The [connect] future, openwire-tokio/lib.rs:508-542: how long it takes and what it gives. *)
Definition connect_future (c : TcpSocketConfig) (addr : SocketAddr) : Duration * outcome WireError (option SocketAddr * option SocketAddr) :=
  match configure c addr with
  | Ok _ =>
    (connecting.1, match connecting.2 with
                   | inr addrs => Ok addrs
                   | inl e => Err (tcp_connect "TCP connect failed" e)
                   end)
  | Err e => (0, Err e)
  | Panic => (0, Panic)
  end.

(** The timeout of a connection attempt, openwire-tokio/lib.rs:543-555. *)
Definition connect_timed_out (timeout : Duration) : WireError :=
  with_connect_timeout (with_establishment Stage_Tcp true
    (with_source Kind_Timeout ("connection timed out after " +:+ debug timeout) elapsed_text)).

(** [TcpConnector::connect for TokioTcpConnector], openwire-tokio/lib.rs:499-577; also whether the context was
    marked as connected. *)
Definition tokio_connect (c : TcpSocketConfig) (addr : SocketAddr) (timeout : option Duration) (next_id : Z)
    : outcome WireError ConnectionInfo * list ConnectEvent * bool :=
  let f := connect_future c addr in
  let stream := match timeout with
                | Some t => if f.1 <=? t then f.2 else Err (connect_timed_out t)
                | None => f.2
                end in
  match stream with
  | Err e => (Err e, [Connect_Start addr; Connect_Failed addr e], false)
  | Ok (remote, local) => (Ok (mkInfo next_id remote local false), [Connect_Start addr; Connect_End next_id addr], true)
  | Panic => (Panic, [Connect_Start addr], false)
  end.

(** Every failure to connect is one of the TCP stage that may be retried on another route, and only the timeout counts as
    one. *)
Definition tcp_failure (e : WireError) : Prop :=
  ∃ timed_out, establishment e = Some (mkEstablishmentContext Stage_Tcp true timed_out) ∧ (timed_out = true ↔ kind e = Kind_Timeout).

Lemma tcp_connect_failure m src : tcp_failure (tcp_connect m src).
Proof. exists false. by split; [|split]. Qed.

(** A step that can only fail that way, and not by a timeout. *)
Definition tcp_step {A} (m : outcome WireError A) : Prop :=
  match m with Ok _ => True | Err e => tcp_failure e ∧ kind e = Kind_Connect | Panic => False end.

Lemma tcp_step_obind {A B} (m : outcome WireError A) (k : A → outcome WireError B) :
  tcp_step m → (∀ a, tcp_step (k a)) → tcp_step (obind m k).
Proof. destruct m; cbn; auto. Qed.

Lemma socket_do_step c what : tcp_step (socket_do c what).
Proof. unfold socket_do. destruct (socket_call c); [split; [apply tcp_connect_failure|done]|done]. Qed.

Lemma when_some_step {A} (o : option A) f : (∀ a, tcp_step (f a)) → tcp_step (when_some o f).
Proof. destruct o; cbn; auto. Qed.

Lemma configure_failure c addr : tcp_step (configure c addr).
Proof. unfold configure. repeat (apply tcp_step_obind; [|intros _]); auto using socket_do_step, when_some_step. Qed.

(** Connecting reports what it returns: an attempt starts once and then either ends, with the identity the connection
    gets and the context marked as connected, or fails with the error the caller gets; that error is always one of the TCP
    stage, so the next route may be tried, and it is a timeout exactly when the attempt was cut off, which happens only
    past its limit. *)
Theorem tcp_connect_reported c addr timeout id :
  let '(result, events, connected) := tokio_connect c addr timeout id in
  match result with
  | Ok info => ci_id info = id ∧ ci_tls info = false ∧ events = [Connect_Start addr; Connect_End id addr] ∧ connected = true ∧
      (∀ t, timeout = Some t → connecting.1 ≤ t)
  | Err e => events = [Connect_Start addr; Connect_Failed addr e] ∧ connected = false ∧ tcp_failure e ∧
      (kind e = Kind_Timeout → ∃ t, timeout = Some t ∧ t < (connect_future c addr).1)
  | Panic => False
  end.
Proof.
  unfold tokio_connect. pose proof (configure_failure c addr) as Hc. unfold connect_future. destruct (configure c addr) as [[]|e|]; [| |done].
  - destruct timeout as [t|]; cbn [fst snd]; [destruct (Z.leb_spec connecting.1 t)|]; destruct connecting.2 as [e|[rm lc]]; cbn;
      split_and!; try done; try apply tcp_connect_failure; try (by intros t' [= <-]).
    all: try (by exists true; split; [|split]). all: intros _; by exists t.
  - destruct Hc as [Hf Hk]. destruct timeout as [t|]; cbn [fst snd]; [destruct (Z.leb_spec 0 t)|]; cbn; split_and!; try done; rewrite ?Hk; try done.
    + by exists true; split; [|split].
    + intros _. by exists t.
Qed.
End Tcp.

(** ** Readers of hyper and readers of tokio

    Both crates read into a buffer that remembers how much of it is filled; [TokioIo] lets a reader of the one be used as a
    reader of the other by lending it the unfilled part. *)

(** [ReadBuf]: its size and what has been read into it. *)
Record ReadBuf : Type := mkReadBuf { rb_capacity : nat; rb_filled : bytes }.
Definition rb_room (b : ReadBuf) : nat := rb_capacity b - length (rb_filled b).

(** A reader: one poll with a buffer. *)
Class Reader (T : Type) : Type := reader_poll : T → ReadBuf → poll (string + unit) * ReadBuf * T.
(** What both crates ask of one: it appends to what is filled, within the buffer, and only when it says so. *)
Class ReaderLaws (T : Type) `{Reader T} : Prop := reader_appends : ∀ t b p b' t',
  (length (rb_filled b) ≤ rb_capacity b)%nat → reader_poll t b = (p, b', t') → p = Ready (inr ()) →
  ∃ new, b' = mkReadBuf (rb_capacity b) (rb_filled b ++ new) ∧ (length new ≤ rb_room b)%nat.

(** [TokioIo], openwire-tokio/lib.rs:55-59. *)
Record TokioIo (T : Type) : Type := mkIo { io_inner : T }.
Arguments mkIo {T}. Arguments io_inner {T}.

(** [tokio::io::AsyncRead for TokioIo], openwire-tokio/lib.rs:144-164: the inner reader is lent the unfilled part as
    a buffer of its own, and what it filled is added. *)
Definition tokio_io_poll_read {T} `{Reader T} (io : TokioIo T) (b : ReadBuf) : poll (string + unit) * ReadBuf * TokioIo T :=
  let lent := mkReadBuf (rb_room b) [] in
  let '(p, lent, inner) := reader_poll (io_inner io) lent in
  match p with
  | Ready (inr _) => (p, mkReadBuf (rb_capacity b) (rb_filled b ++ rb_filled lent), mkIo inner)
  | _ => (p, b, mkIo inner)
  end.
#[export] Instance tokio_io_reader {T} `{Reader T} : Reader (TokioIo T) := tokio_io_poll_read.

#[export] Instance tokio_io_laws {T} `{ReaderLaws T} : ReaderLaws (TokioIo T).
Proof.
  intros [t] b p b' t' Hle. unfold reader_poll at 1, tokio_io_reader, tokio_io_poll_read. cbn [io_inner].
  destruct (reader_poll t (mkReadBuf (rb_room b) [])) as [[q lent] inner] eqn:E. intros Hp ->.
  assert (q = Ready (inr ())) as -> by (destruct q as [[|[]]|]; by simplify_eq).
  eapply reader_appends in E as (new & -> & Hn); [|cbn; lia|done]. cbn in Hp. injection Hp as <- _.
  exists new. split; [done|]. change (rb_room (mkReadBuf (rb_room b) [])) with (rb_room b - 0)%nat in Hn. lia.
Qed.

(** A reader that looks only at the room it is given. *)
Definition room_reader (T : Type) `{Reader T} : Prop := ∀ t b p lent t',
  reader_poll t (mkReadBuf (rb_room b) []) = (p, lent, t') →
  reader_poll t b = (p, match p with Ready (inr _) => mkReadBuf (rb_capacity b) (rb_filled b ++ rb_filled lent) | _ => b end, t').

(** Wrapped once or twice, such a reader delivers the same bytes at the same polls. *)
Lemma tokio_io_transparent {T} `{Reader T} (t : T) b :
  room_reader T →
  reader_poll (mkIo t) b = (let '(p, b', t') := reader_poll t b in (p, b', mkIo t')) ∧
  reader_poll (mkIo (mkIo t)) b = (let '(p, b', t') := reader_poll t b in (p, b', mkIo (mkIo t'))).
Proof.
  intros Hroom.
  assert (Hone : ∀ b, reader_poll (mkIo t) b = (let '(p, b', t') := reader_poll t b in (p, b', mkIo t'))).
  { intros b0. unfold reader_poll at 1, tokio_io_reader at 1, tokio_io_poll_read at 1. cbn [io_inner].
    destruct (reader_poll t (mkReadBuf (rb_room b0) [])) as [[p lent] t'] eqn:E. rewrite (Hroom _ _ _ _ _ E). by destruct p as [[|]|]. }
  split; [apply Hone|]. unfold reader_poll at 1, tokio_io_reader at 1, tokio_io_poll_read at 1. cbn [io_inner]. rewrite Hone.
  destruct (reader_poll t (mkReadBuf (rb_room b) [])) as [[p lent] t'] eqn:E. rewrite (Hroom _ _ _ _ _ E). by destruct p as [[|]|].
Qed.

(** [hyper::rt::Read for TokioIo], openwire-tokio/lib.rs:84-101: the cursor of the unfilled part is lent, and advanced by what was
    filled of it. *)
Definition hyper_io_poll_read {T} `{Reader T} (io : TokioIo T) (b : ReadBuf) : poll (string + unit) * ReadBuf * TokioIo T :=
  let '(p, read_buf, inner) := reader_poll (io_inner io) (mkReadBuf (rb_room b) []) in
  match p with
  | Ready (inr _) =>
    let filled := length (rb_filled read_buf) in
    (Ready (inr tt), mkReadBuf (rb_capacity b) (rb_filled b ++ take filled (rb_filled read_buf)), mkIo inner)
  | other => (other, b, mkIo inner)
  end.

(** The two directions are one function: a reader is read through the wrapper the same way whichever crate asks. *)
Lemma io_directions_agree {T} `{Reader T} (io : TokioIo T) b : hyper_io_poll_read io b = tokio_io_poll_read io b.
Proof.
  unfold hyper_io_poll_read, tokio_io_poll_read. destruct (reader_poll (io_inner io) _) as [[p lent] inner].
  destruct p as [[e|[]]|]; [done| |done]. by rewrite firstn_all.
Qed.

(** A writer, with and without several buffers at once; bytes are written, flushed and shut down. *)
Record Writer (T : Type) : Type := mkWriter {
  poll_write : T → bytes → poll (string + Z) * T;
  poll_flush : T → poll (string + unit) * T;
  poll_shutdown : T → poll (string + unit) * T;
  is_write_vectored : T → bool;
  poll_write_vectored : T → list bytes → poll (string + Z) * T;
}.
Arguments mkWriter {_}. Arguments poll_write {_}. Arguments poll_flush {_}. Arguments poll_shutdown {_}.
Arguments is_write_vectored {_}. Arguments poll_write_vectored {_}.
(** [hyper::rt::Write for TokioIo], openwire-tokio/lib.rs:104-138, and [AsyncWrite], 167-201: every operation is the inner writer's. *)
Definition tokio_io_writer {T} (w : Writer T) : Writer (TokioIo T) :=
  let on {A} (r : A * T) : A * TokioIo T := (r.1, mkIo r.2) in
  mkWriter (λ io bs, on (poll_write w (io_inner io) bs)) (λ io, on (poll_flush w (io_inner io)))
    (λ io, on (poll_shutdown w (io_inner io))) (λ io, is_write_vectored w (io_inner io))
    (λ io bufs, on (poll_write_vectored w (io_inner io) bufs)).

(** ** The executor *)

(** The tasks of the runtime: those running, by the numbers of their handles. *)
Record Tasks : Type := mkTasks { tk_next : nat; tk_running : gset nat }.
(** [TokioExecutor::spawn], openwire-tokio/lib.rs:46-52: it never fails. *)
Definition executor_spawn (ts : Tasks) : (WireError + nat) * Tasks :=
  (inr (tk_next ts), mkTasks (S (tk_next ts)) ({[tk_next ts]} ∪ tk_running ts)).
(** [TokioTaskHandle::abort], openwire-tokio/lib.rs:20-24. *)
Definition task_abort (h : nat) (ts : Tasks) : Tasks := mkTasks (tk_next ts) (tk_running ts ∖ {[h]}).

(** A handle aborts the task it was returned for and no other. *)
Lemma abort_own_task ts h ts' : (∀ i, i ∈ tk_running ts → (i < tk_next ts)%nat) →
  executor_spawn ts = (inr h, ts') → h ∉ tk_running ts ∧ h ∈ tk_running ts' ∧ tk_running (task_abort h ts') = tk_running ts.
Proof.
  intros Hlt [= <- <-]. assert (tk_next ts ∉ tk_running ts) by (intros Hi%Hlt; lia). cbn. split_and!; [done|set_solver|].
  apply set_eq. intros i. rewrite elem_of_difference, elem_of_union, !elem_of_singleton. naive_solver.
Qed.

(** ** The timer *)

(** [TokioSleep], openwire-tokio/lib.rs:213-219, by its deadline, or a sleep of another timer. *)
Inductive Sleep : Type := Tokio_Sleep (deadline : Instant) | Foreign_Sleep (deadline : Instant).
Definition sleep_deadline (s : Sleep) : Instant := match s with Tokio_Sleep d | Foreign_Sleep d => d end.
(** [TokioTimer::sleep], openwire-tokio/lib.rs:222-226. *)
Definition timer_sleep (now : Instant) (d : Duration) : Sleep := Tokio_Sleep (now + d).
(** [TokioTimer::sleep_until], openwire-tokio/lib.rs:228-232. *)
Definition timer_sleep_until (deadline : Instant) : Sleep := Tokio_Sleep deadline.
(** [TokioTimer::reset], openwire-tokio/lib.rs:234-238: a sleep of another timer is left alone. *)
Definition timer_reset (s : Sleep) (new_deadline : Instant) : Sleep :=
  match s with Tokio_Sleep _ => Tokio_Sleep new_deadline | Foreign_Sleep d => Foreign_Sleep d end.
(** [TokioSleep::poll], openwire-tokio/lib.rs:245-251. *)
Definition poll_sleep (now : Instant) (s : Sleep) : poll unit := if sleep_deadline s <=? now then Ready tt else Pending.

(** A sleep is over from its deadline on and not before: the one it was made with, or the last it was reset to. *)
Lemma sleep_wakes_at now d resets later :
  let deadline := default (now + d) (last resets) in
  poll_sleep later (foldl timer_reset (timer_sleep now d) resets) = (if deadline <=? later then Ready tt else Pending).
Proof.
  cbn zeta. assert (H : ∀ d0, foldl timer_reset (Tokio_Sleep d0) resets = Tokio_Sleep (default d0 (last resets))).
  { induction resets as [|r resets IH]; intros d0; [done|]. cbn [foldl timer_reset]. rewrite IH, last_cons. by destruct (last resets). }
  unfold timer_sleep. by rewrite H.
Qed.
