(* ===== verification/WsAdapters.v ===== *)
(** * The WebSocket engine adapters

    openwire-fastwebsockets/src/lib.rs and openwire-tungstenite/src/lib.rs: the frames of the two crates as engine frames and
    back, the checks before an upgrade, the errors, and the sink of the fastwebsockets adapter, which turns the
    asynchronous writer of that crate into a polled one.

    The frames of the crates are classes with the documented meaning of their constructors; the writer is what its
    write and flush futures answer to a poll. *)

From S2P Require Import Prelude Net Error WsCodec WsSession WsEngine.

(** [Display] of an error text, an IO error's source and the like are parameters of type [string]. *)

(** ** fastwebsockets *)

Module Fast.

(** [fastwebsockets::Frame] by its opcode and payload, with the constructors the adapter uses. *)
Class FastFrames (F : Type) : Type := {
  ff_new : Opcode → bytes → F;
  ff_text : bytes → F;
  ff_binary : bytes → F;
  ff_pong : bytes → F;
  ff_close : Z → bytes → F;
  ff_opcode : F → Opcode;
  ff_payload : F → bytes;
}.
Class FastFramesLaws (F : Type) `{FastFrames F} : Prop := {
  ff_new_law : ∀ o p, ff_opcode (ff_new o p) = o ∧ ff_payload (ff_new o p) = p;
  ff_text_law : ∀ p, ff_opcode (ff_text p) = Text ∧ ff_payload (ff_text p) = p;
  ff_binary_law : ∀ p, ff_opcode (ff_binary p) = Binary ∧ ff_payload (ff_binary p) = p;
  ff_pong_law : ∀ p, ff_opcode (ff_pong p) = Pong ∧ ff_payload (ff_pong p) = p;
  ff_close_law : ∀ code reason, ff_opcode (ff_close code reason) = Close ∧ ff_payload (ff_close code reason) = be_bytes 2 code ++ reason;
}.

#[global] Instance pair_frames : FastFrames (Opcode * bytes) := {|
  ff_new o p := (o, p); ff_text p := (Text, p); ff_binary p := (Binary, p); ff_pong p := (Pong, p);
  ff_close code reason := (Close, be_bytes 2 code ++ reason); ff_opcode := fst; ff_payload := snd;
|}.
#[global] Instance pair_frames_laws : FastFramesLaws (Opcode * bytes).
Proof. by constructor. Qed.

(** [fastwebsockets::WebSocketError], the cases the adapter tells apart. *)
Inductive FastWebSocketError : Type :=
| Fast_IoError (io : string)
| Fast_InvalidUTF8
| Fast_PingFrameTooLarge
| Fast_FrameTooLarge
| Fast_ConnectionClosed
| Fast_Other (text : string).

(** [validate_config], openwire-fastwebsockets/lib.rs:90-106. *)
Definition validate_config (config : WebSocketEngineConfig) : outcome WebSocketEngineError unit :=
  match role config with
  | Server => Err (UnsupportedExtension "fastwebsockets engine only supports client role")
  | Client =>
    if existsb (λ e, negb (bool_decide (e = ""%string))) (extensions config)
    then Err (UnsupportedExtension (String.concat ", " (extensions config)))
    else Ok ()
  end.

(** What [upgrade] sets on the reader of the crate. *)
Record ReaderSettings : Type := mkReader { rs_auto_close : bool; rs_auto_pong : bool; rs_max_message_size : Z }.

(** [WebSocketEngine::upgrade for FastWebSocketsEngine], openwire-fastwebsockets/lib.rs:65-87. *)
Definition fast_upgrade (config : WebSocketEngineConfig) : outcome WebSocketEngineError ReaderSettings :=
  let? _ := validate_config config in Ok (mkReader false false (cfg_max_message_size config)).

(** [protocol_io_error], openwire-fastwebsockets/lib.rs:356-362. *)
Definition protocol_io_error (m io : string) : WebSocketEngineError := Io (with_source Kind_Protocol m io).
(** [closed_sink_error], openwire-fastwebsockets/lib.rs:364-366. *)
Definition closed_sink_error (m : string) : WebSocketEngineError := Io (error_new Kind_Protocol m).

(** [map_error_with_limit], openwire-fastwebsockets/lib.rs:337-354; [closed] is the text of a closed connection. *)
Definition map_error_with_limit (closed : string) (e : FastWebSocketError) (max_message_size : Z) : WebSocketEngineError :=
  match e with
  | Fast_IoError io => protocol_io_error "fastwebsockets IO error" io
  | Fast_InvalidUTF8 => InvalidUtf8
  | Fast_PingFrameTooLarge => PayloadTooLarge 125 126
  | Fast_FrameTooLarge => PayloadTooLarge max_message_size (Z.min USIZE_MAX (max_message_size + 1))
  | Fast_ConnectionClosed => InvalidFrame closed
  | Fast_Other text => InvalidFrame text
  end.
(** [map_error], openwire-fastwebsockets/lib.rs:333-335. *)
Definition map_error (closed : string) (e : FastWebSocketError) : WebSocketEngineError := map_error_with_limit closed e 0.

(** [parse_close_payload], openwire-fastwebsockets/lib.rs:315-331. *)
Definition parse_close_payload (p : bytes) : outcome WebSocketEngineError (Z * bytes) :=
  match p with
  | [] => Ok (1005, [])
  | [_] => Err (InvalidFrame "close payload of length 1")
  | b0 :: b1 :: reason =>
    let code := be_value [b0; b1] in
    if negb (utf8_valid reason) then Err InvalidUtf8 else
    let? _ := validate_close_frame code reason in Ok (code, reason)
  end.

Section Frames.
#[local] Set Default Proof Using "Type*".
Context {F : Type} `{FastFramesLaws F}.

(** [engine_to_fast], openwire-fastwebsockets/lib.rs:280-293. *)
Definition engine_to_fast (f : EngineFrame) : F :=
  match f with
  | EF_Text t => ff_text t
  | EF_Binary b => ff_binary b
  | EF_Ping b => ff_new Ping b
  | EF_Pong b => ff_pong b
  | EF_Close code reason => if (code =? 1005) && (len reason =? 0) then ff_new Close [] else ff_close code reason
  end.

(** [fast_to_engine], openwire-fastwebsockets/lib.rs:295-313. *)
Definition fast_to_engine (f : F) : outcome WebSocketEngineError EngineFrame :=
  match ff_opcode f with
  | Text => if utf8_valid (ff_payload f) then Ok (EF_Text (ff_payload f)) else Err InvalidUtf8
  | Binary => Ok (EF_Binary (ff_payload f))
  | Ping => Ok (EF_Ping (ff_payload f))
  | Pong => Ok (EF_Pong (ff_payload f))
  | Close => let? c := parse_close_payload (ff_payload f) in Ok (EF_Close c.1 c.2)
  | Continuation => Err (InvalidFrame "fragment collector returned continuation frame")
  end.

Lemma fast_roundtrip f :
  outbound_ok f → validate_outbound_engine_frame f = Ok () → fast_to_engine (engine_to_fast f) = Ok f.
Proof.
  intros Hok Hv. unfold fast_to_engine, engine_to_fast. destruct f as [t|b|b|b|code reason].
  - destruct (ff_text_law t) as [-> ->]. by destruct Hok as [_ ->].
  - by destruct (ff_binary_law b) as [-> ->].
  - by destruct (ff_new_law Ping b) as [-> ->].
  - by destruct (ff_pong_law b) as [-> ->].
  - cbn in Hv. unfold CLOSE_NO_STATUS_CODE in Hv. destruct ((code =? 1005) && (len reason =? 0)) eqn:E.
    + destruct (ff_new_law Close []) as [-> ->]. apply andb_true_iff in E as [E1%Z.eqb_eq E2%Z.eqb_eq]. apply len_zero in E2. by subst.
    + destruct (ff_close_law code reason) as [-> ->]. destruct Hok as (Hcode & _ & Hu).
      pose proof (be_value_be_bytes 2 code ltac:(change (256 ^ Z.of_nat 2) with 65536; unfold U16_MAX in *; lia)) as Hb.
      pose proof (length_be_bytes 2 code) as Hlen. destruct (be_bytes 2 code) as [|c0 [|c1 [|]]]; try done.
      cbn [app parse_close_payload]. rewrite Hb, Hu. cbn [negb]. by rewrite Hv.
Qed.
(** The reader of the crate: what its read future answers to a poll. *)
Context {R : Type} (read_poll : R → poll (FastWebSocketError + F) * R) (closed_text : string).

(** [FastEngineStream], openwire-fastwebsockets/lib.rs:219-223; whether a read is under way. *)
Record FastEngineStream : Type := mkFastStream { fst_reader : R; fst_read_fut : bool; fst_max_message_size : Z }.

(** [FastEngineStream::start_read], openwire-fastwebsockets/lib.rs:237-253: what the future yields. *)
Definition read_result (r : FastWebSocketError + F) (max_message_size : Z) : option (outcome WebSocketEngineError EngineFrame) :=
  match r with
  | inr frame => Some (fast_to_engine frame)
  | inl Fast_ConnectionClosed => None
  | inl error => Some (Err (map_error_with_limit closed_text error max_message_size))
  end.

(** [Stream::poll_next for FastEngineStream], openwire-fastwebsockets/lib.rs:262-277. *)
Definition fast_poll_next (s : FastEngineStream) : poll (option (outcome WebSocketEngineError EngineFrame)) * FastEngineStream :=
  match read_poll (fst_reader s) with
  | (Pending, r) => (Pending, mkFastStream r true (fst_max_message_size s))
  | (Ready result, r) => (Ready (read_result result (fst_max_message_size s)), mkFastStream r false (fst_max_message_size s))
  end.

End Frames.

(** ** The sink of the fastwebsockets adapter *)

Section Sink.
(** The write half of the crate: what its write future and its flush future answer to a poll. *)
Context {W : Type} (write_poll : EngineFrame → W → poll (FastWebSocketError + unit) * W)
        (flush_poll : W → poll (FastWebSocketError + unit) * W) (closed : string).

(** [FastEngineSink], openwire-fastwebsockets/lib.rs:112-117, with the frames the writer has taken ([fs_taken], and whether it
    could write them). *)
Record FastEngineSink : Type := mkFastSink {
  fs_writer : W;
  fs_buffered : option EngineFrame;
  fs_write_fut : option EngineFrame;
  fs_flush_fut : bool;
  fs_taken : list (EngineFrame * bool);
}.

(** [FastEngineSink::new], openwire-fastwebsockets/lib.rs:123-130. *)
Definition fast_sink_new (w : W) : FastEngineSink := mkFastSink w None None false [].

(** The flush future is polled, openwire-fastwebsockets/lib.rs:156-166. *)
Definition poll_flush_fut (s : FastEngineSink) : poll (outcome WebSocketEngineError unit) * FastEngineSink :=
  if fs_flush_fut s then
    match flush_poll (fs_writer s) with
    | (Pending, w) => (Pending, mkFastSink w (fs_buffered s) (fs_write_fut s) true (fs_taken s))
    | (Ready r, w) =>
      let s := mkFastSink w (fs_buffered s) (fs_write_fut s) false (fs_taken s) in
      (Ready (match r with inl e => Err (map_error closed e) | inr _ => Ok () end), s)
    end
  else (Ready (Ok ()), s).

(** [FastEngineSink::poll_pending], openwire-fastwebsockets/lib.rs:132-167. *)
Definition poll_pending (s : FastEngineSink) : poll (outcome WebSocketEngineError unit) * FastEngineSink :=
  let s := match fs_write_fut s, fs_buffered s with
           | None, Some f => mkFastSink (fs_writer s) None (Some f) (fs_flush_fut s) (fs_taken s)
           | _, _ => s
           end in
  match fs_write_fut s with
  | Some f =>
    match write_poll f (fs_writer s) with
    | (Pending, w) => (Pending, mkFastSink w (fs_buffered s) (Some f) (fs_flush_fut s) (fs_taken s))
    | (Ready (inl e), w) =>
      (Ready (Err (map_error closed e)), mkFastSink w (fs_buffered s) None (fs_flush_fut s) (fs_taken s ++ [(f, false)]))
    | (Ready (inr _), w) => poll_flush_fut (mkFastSink w (fs_buffered s) None (fs_flush_fut s) (fs_taken s ++ [(f, true)]))
    end
  | None => poll_flush_fut s
  end.

(** [FastEngineSink::start_flush], openwire-fastwebsockets/lib.rs:169-179. *)
Definition start_flush (s : FastEngineSink) : FastEngineSink :=
  mkFastSink (fs_writer s) (fs_buffered s) (fs_write_fut s) true (fs_taken s).

(** [Sink::poll_ready for FastEngineSink], openwire-fastwebsockets/lib.rs:188-190. *)
Definition fast_poll_ready (s : FastEngineSink) : poll (outcome WebSocketEngineError unit) * FastEngineSink := poll_pending s.

(** [Sink::start_send for FastEngineSink], openwire-fastwebsockets/lib.rs:192-200. *)
Definition fast_start_send (item : EngineFrame) (s : FastEngineSink) : outcome WebSocketEngineError FastEngineSink :=
  match fs_buffered s with
  | Some _ => Err (closed_sink_error "write already buffered")
  | None =>
    let? _ := validate_outbound_engine_frame item in
    Ok (mkFastSink (fs_writer s) (Some item) (fs_write_fut s) (fs_flush_fut s) (fs_taken s))
  end.

(** [Sink::poll_flush for FastEngineSink], openwire-fastwebsockets/lib.rs:202-212; [poll_close] is the same. *)
Definition fast_poll_flush (s : FastEngineSink) : poll (outcome WebSocketEngineError unit) * FastEngineSink :=
  match poll_pending s with
  | (Pending, s) => (Pending, s)
  | (Ready (Err e), s) => (Ready (Err e), s)
  | (Ready Panic, s) => (Ready Panic, s)
  | (Ready (Ok _), s) => poll_pending (start_flush s)
  end.

(** How a sink is used: a frame is sent only when the last poll for readiness said so. *)
Inductive SinkOp : Type := Op_Ready | Op_Send (f : EngineFrame) | Op_Flush.
Record SinkUse : Type := mkUse { su_sink : FastEngineSink; su_ready : bool; su_accepted : list EngineFrame }.

Definition sink_use (u : SinkUse) (o : SinkOp) : option SinkUse :=
  match o with
  | Op_Ready =>
    let '(p, s) := fast_poll_ready (su_sink u) in
    Some (mkUse s (match p with Ready (Ok _) => true | _ => false end) (su_accepted u))
  | Op_Send f =>
    if su_ready u then
      match fast_start_send f (su_sink u) with
      | Ok s => Some (mkUse s false (su_accepted u ++ [f]))
      | _ => Some (mkUse (su_sink u) false (su_accepted u))
      end
    else None
  | Op_Flush => let '(_, s) := fast_poll_flush (su_sink u) in Some (mkUse s false (su_accepted u))
  end.

Inductive sink_reachable (w : W) : SinkUse → Prop :=
| Sink_start : sink_reachable w (mkUse (fast_sink_new w) false [])
| Sink_step u o u' : sink_reachable w u → sink_use u o = Some u' → sink_reachable w u'.

Definition in_hand (s : FastEngineSink) : list EngineFrame := (fs_taken s).*1 ++ option_list (fs_write_fut s) ++ option_list (fs_buffered s).

Lemma poll_flush_fut_keeps s p s' : poll_flush_fut s = (p, s') →
  in_hand s' = in_hand s ∧ fs_write_fut s' = fs_write_fut s ∧ fs_buffered s' = fs_buffered s ∧ fs_taken s' = fs_taken s ∧
  (p = Ready (Ok ()) → fs_flush_fut s' = false).
Proof. unfold poll_flush_fut. destruct (fs_flush_fut s) eqn:E; [|by intros [= <- <-]]. destruct (flush_poll _) as [[[|]|] w]; by intros [= <- <-]. Qed.

Lemma poll_pending_keeps s p s' : poll_pending s = (p, s') → (fs_buffered s ≠ None → fs_write_fut s = None) →
  in_hand s' = in_hand s ∧ fs_buffered s' = None ∧ (∀ r, p = Ready r → fs_write_fut s' = None) ∧ (p = Ready (Ok ()) → fs_flush_fut s' = false).
Proof.
  destruct s as [w b wf ff tk]. unfold poll_pending. cbn [fs_write_fut fs_buffered fs_writer fs_flush_fut fs_taken]. intros Hp Hb.
  assert (Hgo : ∀ f, (match write_poll f w with
    | (Pending, w) => (Pending, mkFastSink w None (Some f) ff tk)
    | (Ready (inl e), w) => (Ready (Err (map_error closed e)), mkFastSink w None None ff (tk ++ [(f, false)]))
    | (Ready (inr _), w) => poll_flush_fut (mkFastSink w None None ff (tk ++ [(f, true)]))
    end) = (p, s') → in_hand s' = tk.*1 ++ [f] ∧ fs_buffered s' = None ∧ (∀ r, p = Ready r → fs_write_fut s' = None) ∧ (p = Ready (Ok ()) → fs_flush_fut s' = false)).
  { intros f. destruct (write_poll f w) as [[[e|u]|] w'].
    - intros [= <- <-]. unfold in_hand. cbn. by rewrite fmap_app, app_nil_r.
    - intros (Hi & Hw & Hbu & _ & Hf)%poll_flush_fut_keeps. rewrite Hi, Hw, Hbu. unfold in_hand. cbn. by rewrite fmap_app, app_nil_r.
    - intros [= <- <-]. unfold in_hand. cbn. done. }
  destruct b as [f|]; [rewrite Hb in Hp |- * by done; cbn in Hp; by apply Hgo|].
  destruct wf as [f|]; [cbn in Hp; by apply Hgo|].
  apply poll_flush_fut_keeps in Hp as (Hi & Hw & Hbu & _ & Hf). rewrite Hi, Hw, Hbu. by split_and!.
Qed.

Record sink_ok (u : SinkUse) : Prop := mkSinkOk {
  so_frames : in_hand (su_sink u) = su_accepted u;
  so_one : fs_buffered (su_sink u) ≠ None → fs_write_fut (su_sink u) = None;
  so_ready : su_ready u = true → fs_write_fut (su_sink u) = None ∧ fs_buffered (su_sink u) = None;
}.

Lemma fast_poll_flush_keeps s p s' : fast_poll_flush s = (p, s') → (fs_buffered s ≠ None → fs_write_fut s = None) →
  in_hand s' = in_hand s ∧ fs_buffered s' = None ∧ (p = Ready (Ok ()) → fs_write_fut s' = None ∧ fs_flush_fut s' = false).
Proof.
  unfold fast_poll_flush. intros Hp Hb. destruct (poll_pending s) as [p1 s1] eqn:E1.
  destruct (poll_pending_keeps _ _ _ E1 Hb) as (Hi & Hbu & Hw & Hf). destruct p1 as [[[]|e|]|]; try by injection Hp as <- <-.
  apply poll_pending_keeps in Hp as (Hi2 & Hbu2 & Hw2 & Hf2); [|by cbn; rewrite Hbu]. split_and!; [by rewrite Hi2, <-Hi|done|].
  intros Hp. split; [by eapply Hw2|by apply Hf2].
Qed.

Lemma sink_use_ok u o u' : sink_ok u → sink_use u o = Some u' → sink_ok u'.
Proof.
  intros [Hf Ho Hr] Hu. destruct o as [|f|]; cbn in Hu.
  - unfold fast_poll_ready in Hu. destruct (poll_pending (su_sink u)) as [p s] eqn:E. injection Hu as <-.
    destruct (poll_pending_keeps _ _ _ E Ho) as (Hi & Hb & Hw & _). constructor; cbn; [by rewrite Hi|by rewrite Hb|].
    destruct p as [[[]|e|]|]; try done. intros _. split; [by eapply Hw|done].
  - destruct (su_ready u); [|done]. destruct (Hr eq_refl) as [Hw Hb]. unfold fast_start_send in Hu. rewrite Hb in Hu.
    destruct (validate_outbound_engine_frame f) as [[]|e|]; cbn in Hu; injection Hu as <-; constructor; cbn; try done.
    unfold in_hand in *. cbn. rewrite <-Hf, Hw, Hb. cbn. by rewrite app_nil_r.
  - destruct (fast_poll_flush (su_sink u)) as [p s] eqn:E. injection Hu as <-.
    destruct (fast_poll_flush_keeps _ _ _ E Ho) as (Hi & Hb & _). constructor; cbn; [by rewrite Hi|by rewrite Hb|done].
Qed.

Lemma sink_reachable_ok w u : sink_reachable w u → sink_ok u.
Proof. induction 1 as [|u o u' _ IH Hu]; [by constructor|by eapply sink_use_ok]. Qed.

(** The fastwebsockets sink neither loses nor reorders a frame: used as a sink may be used, the frames it has accepted
    are, in order, those the writer has taken, the one it is writing and the one it holds; and when a flush reports
    success the writer has taken them all and been flushed since. *)
Theorem fast_sink_in_order w u :
  sink_reachable w u →
  (fs_taken (su_sink u)).*1 ++ option_list (fs_write_fut (su_sink u)) ++ option_list (fs_buffered (su_sink u)) = su_accepted u ∧
  (∀ s', fast_poll_flush (su_sink u) = (Ready (Ok ()), s') → (fs_taken s').*1 = su_accepted u ∧ fs_flush_fut s' = false).
Proof.
  intros Hr. destruct (sink_reachable_ok _ _ Hr) as [Hf Ho _]. split; [done|]. intros s' Hp.
  destruct (fast_poll_flush_keeps _ _ _ Hp Ho) as (Hi & Hb & Hw). destruct (Hw eq_refl) as [Hwf Hff]. split; [|done].
  rewrite <-Hf, <-Hi. unfold in_hand. rewrite Hb, Hwf. cbn. by rewrite app_nil_r.
Qed.

(** A flush that had to wait is not reported when it is done: another one is started. *)
Lemma flush_restarts s w :
  fs_write_fut s = None → fs_buffered s = None → fs_flush_fut s = true →
  flush_poll (fs_writer s) = (Ready (inr ()), w) →
  fast_poll_flush s = poll_flush_fut (mkFastSink w None None true (fs_taken s)).
Proof.
  destruct s as [w0 b wf ff tk]. cbn. intros -> -> -> Hp. unfold fast_poll_flush, poll_pending, poll_flush_fut. cbn. by rewrite Hp.
Qed.
End Sink.

(** A writer whose flush always has to wait once: its flushes complete, and no poll of the sink ever reports it. *)
Module FlushDemo.
Definition write_poll (_ : EngineFrame) (w : bool) : poll (FastWebSocketError + unit) * bool := (Ready (inr ()), w).
Definition flush_poll (w : bool) : poll (FastWebSocketError + unit) * bool := if w then (Ready (inr ()), false) else (Pending, true).
Fixpoint polls (n : nat) (s : FastEngineSink (W := bool)) : list (poll (outcome WebSocketEngineError unit)) :=
  match n with
  | O => []
  | S n => let '(p, s) := fast_poll_flush write_poll flush_poll "closed" s in p :: polls n s
  end.
Lemma flush_never_reported n : polls n (fast_sink_new false) = repeat Pending n.
Proof.
  destruct n as [|n]; [done|]. cbn. f_equal. induction n as [|n IH]; [done|]. cbn. f_equal. exact IH.
Qed.
Definition used : SinkUse (W := bool) :=
  foldl (λ u o, default u (sink_use write_poll flush_poll "closed" u o)) (mkUse (fast_sink_new true) false [])
    [Op_Ready; Op_Send (EF_Binary [1]); Op_Ready; Op_Send (EF_Ping [])].
Lemma used_reachable : sink_reachable write_poll flush_poll "closed" true used.
Proof.
  unfold used. generalize [Op_Ready; Op_Send (EF_Binary [1]); Op_Ready; Op_Send (EF_Ping [])]. intros ops.
  induction ops as [|o ops IH] using rev_ind; [constructor|]. rewrite foldl_snoc.
  destruct (sink_use _ _ _ _ o) as [u|] eqn:E; [|done]. econstructor; [exact IH|exact E].
Qed.
End FlushDemo.
End Fast.

(** ** tungstenite *)

Module Tung.

(** [tungstenite::Message]; a close code is the crate's own type. *)
Inductive TungMessage (C : Type) : Type :=
| Tung_Text (t : bytes)
| Tung_Binary (b : bytes)
| Tung_Ping (b : bytes)
| Tung_Pong (b : bytes)
| Tung_Close (frame : option (C * bytes))
| Tung_Frame.
Arguments Tung_Text {C}. Arguments Tung_Binary {C}. Arguments Tung_Ping {C}. Arguments Tung_Pong {C}. Arguments Tung_Close {C}. Arguments Tung_Frame {C}.

(** [tungstenite::Error], the cases the adapter tells apart. *)
Inductive TungError : Type := Tung_Io (io : string) | Tung_Utf8 | Tung_Capacity | Tung_Protocol (text : string) | Tung_Other (text : string).

(** [map_error], openwire-tungstenite/lib.rs:186-202. *)
Definition tung_map_error (e : TungError) : WebSocketEngineError :=
  match e with
  | Tung_Io io => Io (with_source Kind_Protocol "tungstenite IO error" io)
  | Tung_Utf8 => InvalidUtf8
  | Tung_Capacity => PayloadTooLarge 0 0
  | Tung_Protocol text => InvalidFrame text
  | Tung_Other text => InvalidFrame text
  end.

(** What [upgrade] configures. *)
Record TungConfig : Type := mkTungConfig { tc_max_message_size : option Z; tc_max_frame_size : option Z }.

(** [WebSocketEngine::upgrade for TungsteniteEngine], openwire-tungstenite/lib.rs:57-94. *)
Definition tung_upgrade (config : WebSocketEngineConfig) : outcome WebSocketEngineError TungConfig :=
  match role config with
  | Server => Err (UnsupportedExtension "tungstenite engine only supports client role")
  | Client =>
    if existsb (λ e, negb (bool_decide (e = ""%string))) (extensions config)
    then Err (UnsupportedExtension (String.concat ", " (extensions config)))
    else Ok (mkTungConfig (Some (cfg_max_message_size config)) (Some (cfg_max_frame_size config)))
  end.

Section Messages.
(** [CloseCode::from] and back. *)
Context {C : Type} (code_from : Z → C) (code_into : C → Z).
Definition close_codes_keep : Prop := ∀ code, 0 ≤ code ≤ U16_MAX → code_into (code_from code) = code.

(** [engine_to_tung], openwire-tungstenite/lib.rs:154-166. *)
Definition engine_to_tung (f : EngineFrame) : TungMessage C :=
  match f with
  | EF_Text t => Tung_Text t
  | EF_Binary b => Tung_Binary b
  | EF_Ping b => Tung_Ping b
  | EF_Pong b => Tung_Pong b
  | EF_Close code reason =>
    if (code =? 1005) && (len reason =? 0) then Tung_Close None else Tung_Close (Some (code_from code, reason))
  end.

(** [tung_to_engine], openwire-tungstenite/lib.rs:168-184. *)
Definition tung_to_engine (m : TungMessage C) : option EngineFrame :=
  match m with
  | Tung_Text t => Some (EF_Text t)
  | Tung_Binary b => Some (EF_Binary b)
  | Tung_Ping b => Some (EF_Ping b)
  | Tung_Pong b => Some (EF_Pong b)
  | Tung_Close None => Some (EF_Close 1005 [])
  | Tung_Close (Some (code, reason)) => Some (EF_Close (code_into code) reason)
  | Tung_Frame => None
  end.

(** [Sink::start_send for EngineSinkAdapter], openwire-tungstenite/lib.rs:111-117; [send] is the sink of the crate. *)
Definition tung_start_send {S} (send : TungMessage C → S → outcome TungError S) (item : EngineFrame) (s : S) : outcome WebSocketEngineError S :=
  let? _ := validate_outbound_engine_frame item in
  match send (engine_to_tung item) s with
  | Ok s => Ok s
  | Err e => Err (tung_map_error e)
  | Panic => Panic
  end.

(** [Stream::poll_next for EngineStreamAdapter], openwire-tungstenite/lib.rs:138-151: a raw frame is dropped and the task
    woken at once. *)
Definition tung_poll_next {S} (next : S → poll (option (TungError + TungMessage C)) * S) (s : S)
    : poll (option (outcome WebSocketEngineError EngineFrame)) * S * bool :=
  match next s with
  | (Pending, s) => (Pending, s, false)
  | (Ready None, s) => (Ready None, s, false)
  | (Ready (Some (inr m)), s) =>
    match tung_to_engine m with
    | Some f => (Ready (Some (Ok f)), s, false)
    | None => (Pending, s, true)
    end
  | (Ready (Some (inl e)), s) => (Ready (Some (Err (tung_map_error e))), s, false)
  end.

Lemma tung_roundtrip f : close_codes_keep → outbound_ok f → tung_to_engine (engine_to_tung f) = Some f.
Proof.
  intros Hc Hok. destruct f as [t|b|b|b|code reason]; try done. cbn. destruct ((code =? 1005) && (len reason =? 0)) eqn:E.
  - apply andb_true_iff in E as [E1%Z.eqb_eq E2%Z.eqb_eq]. apply len_zero in E2. by subst.
  - destruct Hok as [Hcode _]. cbn. by rewrite Hc.
Qed.
End Messages.
End Tung.

(** The engines are interchangeable on the wire format: a frame the session may send, handed to either adapter's crate and
    read back through the same adapter, is the same frame - text, payload, close code and reason, and a close without a
    status; and a configuration is accepted by one engine exactly when by the others. *)
Theorem adapters_roundtrip {F C} `{Fast.FastFramesLaws F} (code_from : Z → C) code_into f :
  Tung.close_codes_keep code_from code_into → outbound_ok f → validate_outbound_engine_frame f = Ok () →
  Fast.fast_to_engine (Fast.engine_to_fast (F := F) f) = Ok f ∧
  Tung.tung_to_engine code_into (Tung.engine_to_tung code_from f) = Some f ∧
  ∀ config, (∃ a, Fast.fast_upgrade config = Ok a) ↔ (∃ b, Tung.tung_upgrade config = Ok b) ∧ ∃ c, upgrade config = Ok c.
Proof.
  intros Hc Hok Hv. split_and!; [by apply Fast.fast_roundtrip|by apply Tung.tung_roundtrip|]. intros config.
  unfold Fast.fast_upgrade, Fast.validate_config, Tung.tung_upgrade, upgrade. destruct (role config); [|naive_solver].
  destruct (existsb _ _); naive_solver.
Qed.

Lemma adapters_roundtrip_witness :
  Fast.fast_to_engine (Fast.engine_to_fast (F := Opcode * bytes) (EF_Close 1000 [98; 121; 101])) = Ok (EF_Close 1000 [98; 121; 101]).
Proof.
  apply (adapters_roundtrip (F := Opcode * bytes) (λ c : Z, c) (λ c, c) (EF_Close 1000 [98; 121; 101])).
  - intros c _. reflexivity.
  - vm_compute. split; [split; discriminate|]. split; [|reflexivity]. repeat constructor; discriminate.
  - reflexivity.
Defined.

(** The fastwebsockets engine does not look at the frame limit. *)
Lemma fast_ignores_frame_limit config n :
  Fast.fast_upgrade (mkWebSocketEngineConfig (role config) (subprotocol config) (extensions config) n (cfg_max_message_size config)) = Fast.fast_upgrade config.
Proof. done. Qed.

Lemma fast_sink_in_order_witness :
  (Fast.fs_taken (Fast.su_sink Fast.FlushDemo.used)).*1 = [EF_Binary [1]] ∧ Fast.fs_buffered (Fast.su_sink Fast.FlushDemo.used) = Some (EF_Ping []) ∧
  Fast.su_accepted Fast.FlushDemo.used = [EF_Binary [1]; EF_Ping []].
Proof.
  split; [reflexivity|]. split; [reflexivity|].
  destruct (Fast.fast_sink_in_order Fast.FlushDemo.write_poll Fast.FlushDemo.flush_poll "closed" true Fast.FlushDemo.used) as [<- _];
    [apply Fast.FlushDemo.used_reachable|reflexivity].
Defined.
