(* ===== verification/Tls.v ===== *)
(** * TLS

    openwire-rustls/src/lib.rs: the connector over rustls, its builder, the protocols it offers and what it tells the listener and
    the pool; with the connection metadata of openwire-core/src/transport.rs.

    rustls is a parameter: parsing a server name and a certificate, adding a root, and the handshake, which is given what the
    connector decides - the configuration with its offered protocols and the server name. *)

From S2P Require Import Prelude Net Error Http Planning FastFallback RealConnection Pool Request Outgoing WsHandshake WsWriter Bridge WsCall TokioNet.

(** ** What a connection says of itself *)

(** [CoalescingInfo], openwire-core/transport.rs:19-34. *)
Record CoalescingInfo : Type := mkCoalescing { co_verified_server_names : list string }.
Definition no_coalescing : CoalescingInfo := mkCoalescing [].

(** [Connected], openwire-core/transport.rs:36-42. *)
Record Connected : Type := mkConnected {
  cd_info : option ConnectionInfo;
  cd_coalescing : CoalescingInfo;
  cd_proxied : bool;
  cd_negotiated_h2 : bool;
}.

(** [Connected::new], openwire-core/transport.rs:45-47. *)
Definition connected_new : Connected := mkConnected None no_coalescing false false.
(** [Connected::info], openwire-core/transport.rs:49-52. *)
Definition connected_info (i : ConnectionInfo) (c : Connected) : Connected := mkConnected (Some i) (cd_coalescing c) (cd_proxied c) (cd_negotiated_h2 c).
(** [Connected::coalescing], openwire-core/transport.rs:54-57. *)
Definition connected_coalescing (co : CoalescingInfo) (c : Connected) : Connected := mkConnected (cd_info c) co (cd_proxied c) (cd_negotiated_h2 c).
(** [Connected::proxy], openwire-core/transport.rs:59-62. *)
Definition connected_proxy (p : bool) (c : Connected) : Connected := mkConnected (cd_info c) (cd_coalescing c) p (cd_negotiated_h2 c).
(** [Connected::negotiated_h2], openwire-core/transport.rs:64-67. *)
Definition connected_negotiated_h2 (h2 : bool) (c : Connected) : Connected := mkConnected (cd_info c) (cd_coalescing c) (cd_proxied c) h2.
(** [Connected::connection_info_or_default], openwire-core/transport.rs:81-88; [next_connection_id] is the counter's answer. *)
Definition connection_info_or_default (next_connection_id : Z) (c : Connected) : ConnectionInfo :=
  default (mkInfo next_connection_id None None false) (cd_info c).

(** [CallContext::from_listener], openwire-core/context.rs:115-126: the preference of the call. *)
Definition context_alpn {H} (r : Request H) : TlsAlpnPreference := default Alpn_Auto (ext_alpn (req_extensions r)).

(** ** The connector *)

(** [rustls::Error], as far as it is looked at, within the error of the handshake. *)
Inductive RustlsError : Type := InvalidCertificate | PeerIncompatible | RustlsError_Other.
Record HandshakeError : Type := mkHandshakeError { he_text : string; he_rustls : option RustlsError }.

(** [classify_tls_handshake_error], openwire-rustls/lib.rs:301-317. *)
Definition classify_tls_handshake_error (e : HandshakeError) : WireError :=
  let non_retryable := match he_rustls e with Some InvalidCertificate | Some PeerIncompatible => true | _ => false end in
  if non_retryable then tls_non_retryable "TLS handshake failed" (he_text e) else tls "TLS handshake failed" (he_text e).

Section Rustls.
#[local] Set Default Proof Using "Type".
(** The rest of a client configuration, server names and certificates. *)
Context {V ServerName Cert : Type}.

(** [rustls::ClientConfig] with the protocols it offers. *)
Record ClientConfig : Type := mkClientConfig { alpn_protocols : list string; cf_rest : V }.

(** [ensure_default_http_alpn], openwire-rustls/lib.rs:146-150. *)
Definition ensure_default_http_alpn (c : ClientConfig) : ClientConfig :=
  if bool_decide (alpn_protocols c = []) then mkClientConfig ["h2"; "http/1.1"]%string (cf_rest c) else c.

(** [config_for_alpn_preference], openwire-rustls/lib.rs:152-164. *)
Definition config_for_alpn_preference (c : ClientConfig) (p : TlsAlpnPreference) : ClientConfig :=
  match p with
  | Alpn_Auto => c
  | Alpn_Http1Only => mkClientConfig ["http/1.1"%string] (cf_rest c)
  end.

(** [RustlsTlsConnector], openwire-rustls/lib.rs:20-23. *)
Record RustlsTlsConnector : Type := mkConnector { tc_config : ClientConfig }.

(** [RustlsTlsConnector::from_config], openwire-rustls/lib.rs:30-35. *)
Definition from_config (c : ClientConfig) : RustlsTlsConnector := mkConnector (ensure_default_http_alpn c).

(** [RustlsTlsConnectorBuilder], openwire-rustls/lib.rs:38-44. *)
Record RustlsTlsConnectorBuilder : Type := mkTlsBuilder {
  tb_config : option ClientConfig;
  tb_custom_roots : list Cert;
  tb_use_platform_verifier : bool;
}.
(** [RustlsTlsConnectorBuilder::new], openwire-rustls/lib.rs:47-54. *)
Definition tls_builder_new : RustlsTlsConnectorBuilder := mkTlsBuilder None [] true.
(** [with_client_config], openwire-rustls/lib.rs:56-59. *)
Definition with_client_config (b : RustlsTlsConnectorBuilder) (c : ClientConfig) : RustlsTlsConnectorBuilder :=
  mkTlsBuilder (Some c) (tb_custom_roots b) (tb_use_platform_verifier b).
(** [with_platform_verifier], openwire-rustls/lib.rs:61-65. *)
Definition with_platform_verifier (b : RustlsTlsConnectorBuilder) (enabled : bool) : RustlsTlsConnectorBuilder :=
  mkTlsBuilder (tb_config b) (tb_custom_roots b) enabled.

(** [add_root_certificates_pem], openwire-rustls/lib.rs:67-75: [pem] is what the parser yields, in order. *)
Fixpoint add_root_certificates_pem (b : RustlsTlsConnectorBuilder) (pem : list (string + Cert)) : outcome WireError RustlsTlsConnectorBuilder :=
  match pem with
  | [] => Ok b
  | inl e :: _ => Err (tls "failed to parse PEM root certificate" e)
  | inr cert :: pem => add_root_certificates_pem (mkTlsBuilder (tb_config b) (tb_custom_roots b ++ [cert]) (tb_use_platform_verifier b)) pem
  end.

(** What the build reads: the platform's verifier, the native roots, adding a root to a store, and the configuration of a
    verifier or of a store. *)
Context (platform_feature : bool) (platform_verifier : string + V) (native_certs : list Cert)
        (root_error : Cert → option string) (of_roots : list Cert → V).

(** The loop over the custom roots of [build], openwire-rustls/lib.rs:114-118. *)
Fixpoint add_roots (roots custom : list Cert) : outcome WireError (list Cert) :=
  match custom with
  | [] => Ok roots
  | cert :: custom =>
    match root_error cert with
    | Some e => Err (tls "failed to add custom root certificate" e)
    | None => add_roots (roots ++ [cert]) custom
    end
  end.

(** [build], openwire-rustls/lib.rs:77-143. *)
Definition tls_build (b : RustlsTlsConnectorBuilder) : outcome WireError RustlsTlsConnector :=
  match tb_config b with
  | Some config => Ok (from_config config)
  | None =>
    if platform_feature && bool_decide (tb_custom_roots b = []) && tb_use_platform_verifier b then
      match platform_verifier with
      | inl e => Err (tls "failed to initialize platform verifier" e)
      | inr v => Ok (from_config (ensure_default_http_alpn (mkClientConfig [] v)))
      end
    else
      let roots := filter (λ c, root_error c = None) native_certs in
      let? roots := add_roots roots (tb_custom_roots b) in
      if bool_decide (roots = []) then Err (tls "no root certificates were loaded" "empty root store")
      else Ok (from_config (ensure_default_http_alpn (mkClientConfig [] (of_roots roots))))
  end.

(** A session after its handshake. *)
Record Session : Type := mkSession {
  se_alpn_protocol : option string;
  se_protocol_version : option string;
  se_cipher_suite : option string;
  se_peer_certificates : option (list Cert);
}.

(** [TlsHandshake] of the listener, built by [tls_handshake_from_session]. *)
Record TlsHandshake : Type := mkTlsHandshake {
  th_alpn : option string;
  th_protocol_version : option string;
  th_cipher_suite : option string;
}.
(** [tls_handshake_from_session], openwire-rustls/lib.rs:336-346. *)
Definition tls_handshake_from_session (s : Session) : TlsHandshake :=
  mkTlsHandshake (se_alpn_protocol s) (se_protocol_version s) (se_cipher_suite s).

(** What rustls and webpki answer. *)
Context (server_name : string → string + ServerName)
        (handshake : ClientConfig → ServerName → Connected → HandshakeError + Session)
        (valid_dns_names : Cert → option (list string)).

(** [coalescing_info_from_session], openwire-rustls/lib.rs:348-370. *)
Definition coalescing_info_from_session (s : Session) : CoalescingInfo :=
  match se_peer_certificates s ≫= head with
  | None => no_coalescing
  | Some end_entity =>
    match valid_dns_names end_entity with
    | None => no_coalescing
    | Some names => mkCoalescing (to_ascii_lowercase <$> names)
    end
  end.

(** [RustlsConnection], openwire-rustls/lib.rs:232-238; the stream inside by what it says of itself. *)
Record RustlsConnection : Type := mkRustlsConnection {
  rk_inner : Connected;
  rk_info : ConnectionInfo;
  rk_coalescing : CoalescingInfo;
  rk_negotiated_h2 : bool;
}.

(** [build_connected], openwire-rustls/lib.rs:319-330. *)
Definition build_connected (info : ConnectionInfo) (co : CoalescingInfo) (inner_proxied negotiated_h2 : bool) : Connected :=
  connected_negotiated_h2 negotiated_h2 (connected_proxy inner_proxied (connected_coalescing co (connected_info info connected_new))).

(** [Connection::connected for RustlsConnection], openwire-rustls/lib.rs:239-254. *)
Definition rustls_connected (c : RustlsConnection) : Connected :=
  build_connected (rk_info c) (rk_coalescing c) (cd_proxied (rk_inner c)) (rk_negotiated_h2 c).

(** What the listener is told. *)
Inductive TlsEvent : Type :=
| Tls_Start (host : string)
| Tls_Failed (host : string) (e : WireError)
| Tls_Handshake (host : string) (h : TlsHandshake)
| Tls_End (host : string).

(** [RustlsTlsConnector::connect], openwire-rustls/lib.rs:167-228. *)
Definition rustls_connect (t : RustlsTlsConnector) (preference : TlsAlpnPreference) (next_connection_id : Z) (uri : Uri) (stream : Connected)
    : outcome WireError RustlsConnection * list TlsEvent :=
  match uri_host uri with
  | None => (Err (invalid_request "HTTPS request is missing a host"), [])
  | Some host =>
    match server_name host with
    | inl e => (Err (with_authority_from_uri uri (with_source Kind_InvalidRequest ("invalid TLS server name: " +:+ host) e)), [Tls_Start host])
    | inr name =>
      let connection_info := connection_info_or_default next_connection_id stream in
      let config := config_for_alpn_preference (tc_config t) preference in
      match handshake config name stream with
      | inl e =>
        let e := with_authority_from_uri uri (classify_tls_handshake_error e) in (Err e, [Tls_Start host; Tls_Failed host e])
      | inr session =>
        let negotiated_h2 := bool_decide (se_alpn_protocol session = Some "h2"%string) in
        let coalescing := coalescing_info_from_session session in
        (Ok (mkRustlsConnection stream
               (mkInfo (ci_id connection_info) (ci_remote_addr connection_info) (ci_local_addr connection_info) true)
               coalescing negotiated_h2),
         [Tls_Start host; Tls_Handshake host (tls_handshake_from_session session); Tls_End host])
      end
    end
  end.

(** ** What is built *)

Lemma default_alpn_nonempty c : alpn_protocols (ensure_default_http_alpn c) ≠ [].
Proof. unfold ensure_default_http_alpn. by case_bool_decide. Qed.

Lemma default_alpn_keeps c : alpn_protocols c ≠ [] → ensure_default_http_alpn c = c.
Proof. intros Hc. unfold ensure_default_http_alpn. by rewrite bool_decide_false. Qed.

Lemma add_root_certificates_pem_spec b pem b' :
  add_root_certificates_pem b pem = Ok b' ↔
  ∃ certs, pem = inr <$> certs ∧ b' = mkTlsBuilder (tb_config b) (tb_custom_roots b ++ certs) (tb_use_platform_verifier b).
Proof.
  revert b. induction pem as [|[e|c] pem IH]; intros b; cbn.
  - split; [intros [= <-]; exists []; split; [done|]; destruct b; cbn; by rewrite app_nil_r|].
    intros ([|? ?] & [=] & ->). destruct b; cbn. by rewrite app_nil_r.
  - split; [done|]. by intros ([|? ?] & [=] & _).
  - rewrite IH. cbn. split.
    + intros (certs & -> & ->). exists (c :: certs). by rewrite <-app_assoc.
    + intros ([|? certs] & [= -> ->] & ->). exists certs. by rewrite <-app_assoc.
Qed.

Lemma add_roots_spec roots custom roots' :
  add_roots roots custom = Ok roots' ↔ Forall (λ c, root_error c = None) custom ∧ roots' = roots ++ custom.
Proof.
  revert roots. induction custom as [|c custom IH]; intros roots; cbn.
  - rewrite app_nil_r. split; [by intros [= <-]|by intros [_ ->]].
  - rewrite Forall_cons. destruct (root_error c); [split; [done|by intros [[? _] _]]|]. rewrite IH, <-app_assoc. split; [by intros [? ->]|by intros [[_ ?] ->]].
Qed.

(** The roots a builder without a configuration trusts, when it does not leave it to the platform: the native ones that can be
    added and all the custom ones. *)
Lemma tls_build_spec b t :
  tls_build b = Ok t ↔
  ∃ c, t = from_config c ∧
  match tb_config b with
  | Some config => c = config
  | None =>
    c = mkClientConfig ["h2"; "http/1.1"]%string (cf_rest c) ∧
    if platform_feature && bool_decide (tb_custom_roots b = []) && tb_use_platform_verifier b then platform_verifier = inr (cf_rest c)
    else
      let roots := filter (λ c, root_error c = None) native_certs ++ tb_custom_roots b in
      Forall (λ c, root_error c = None) (tb_custom_roots b) ∧ roots ≠ [] ∧ cf_rest c = of_roots roots
  end.
Proof.
  unfold tls_build. destruct (tb_config b) as [config|]; [split; [intros [= <-]; by exists config|by intros (? & -> & ->)]|].
  destruct (_ && _ && _).
  - destruct platform_verifier as [e|v]; [split; [done|by intros (? & _ & _ & ?)]|]. split.
    + intros [= <-]. by eexists.
    + intros (c & -> & Hc & [= Hv]). rewrite Hc, <-Hv. done.
  - rewrite obind_Ok. setoid_rewrite add_roots_spec. split.
    + intros (roots & [Hf ->] & Hb). case_bool_decide; [done|]. injection Hb as <-. by eexists.
    + intros (c & -> & Hc & Hf & Hne & Hr). eexists. split; [done|]. rewrite bool_decide_false by done. rewrite Hc, Hr. done.
Qed.

(** Whatever it was built from, a connector offers some protocol. *)
Lemma built_offers_something b t : tls_build b = Ok t → alpn_protocols (tc_config t) ≠ [].
Proof. rewrite tls_build_spec. intros (c & -> & _). apply default_alpn_nonempty. Qed.

(** ** What is connected *)

(** A connection is settled on a protocol the connector offered. *)
Definition alpn_offered : Prop :=
  ∀ c name stream s p, handshake c name stream = inr s → se_alpn_protocol s = Some p → p ∈ alpn_protocols c.

Lemma rustls_connect_Ok t preference id uri stream c evs :
  rustls_connect t preference id uri stream = (Ok c, evs) →
  ∃ host name session, uri_host uri = Some host ∧ server_name host = inr name ∧
    handshake (config_for_alpn_preference (tc_config t) preference) name stream = inr session ∧
    rk_negotiated_h2 c = bool_decide (se_alpn_protocol session = Some "h2"%string) ∧
    rk_coalescing c = coalescing_info_from_session session ∧ rk_inner c = stream ∧
    ci_tls (rk_info c) = true ∧ ci_id (rk_info c) = ci_id (connection_info_or_default id stream) ∧
    evs = [Tls_Start host; Tls_Handshake host (tls_handshake_from_session session); Tls_End host].
Proof.
  unfold rustls_connect. destruct (uri_host uri) as [host|]; [|done]. destruct (server_name host) as [|name] eqn:En; [done|].
  destruct (handshake _ name stream) as [|session] eqn:E; [done|]. intros [= <- <-]. exists host, name, session. by split_and!.
Qed.

Lemma http1_only_not_h2 t id uri stream c evs :
  alpn_offered → rustls_connect t Alpn_Http1Only id uri stream = (Ok c, evs) → cd_negotiated_h2 (rustls_connected c) = false.
Proof.
  intros Ho (host & name & s & _ & _ & Hh & Hn & _)%rustls_connect_Ok. cbn. rewrite Hn. apply bool_decide_eq_false_2. intros Hs.
  pose proof (Ho _ _ _ _ _ Hh Hs) as Hin. cbn in Hin. by apply list_elem_of_singleton in Hin.
Qed.

Lemma with_authority_keeps uri e :
  kind (with_authority_from_uri uri e) = kind e ∧ establishment (with_authority_from_uri uri e) = establishment e.
Proof. unfold with_authority_from_uri. by destruct (uri_authority uri). Qed.

(** What the listener hears of a connection attempt: nothing without a host; else the start, and then - a name rustls cannot use
    apart - the end of a session or the very error that is returned. *)
Lemma tls_connect_reported t preference id uri stream :
  let '(r, evs) := rustls_connect t preference id uri stream in
  match uri_host uri with
  | None => evs = [] ∧ ∃ e, r = Err e ∧ kind e = Kind_InvalidRequest
  | Some host =>
    match server_name host with
    | inl _ => evs = [Tls_Start host] ∧ ∃ e, r = Err e ∧ kind e = Kind_InvalidRequest ∧ is_retryable_establishment e = false
    | inr _ =>
      (∃ c h, r = Ok c ∧ evs = [Tls_Start host; Tls_Handshake host h; Tls_End host]) ∨
      (∃ e, r = Err e ∧ evs = [Tls_Start host; Tls_Failed host e] ∧ kind e = Kind_Tls ∧ establishment_stage e = Some Stage_Tls)
    end
  end.
Proof.
  unfold rustls_connect. destruct (uri_host uri) as [host|]; [|by split; [|eexists]].
  unfold is_retryable_establishment, establishment_stage.
  destruct (server_name host) as [e|name]; [|destruct (handshake _ name stream) as [e|session]; [right|left; by eexists _, _]].
  - split; [done|]. eexists. split; [done|]. by destruct (with_authority_keeps uri (with_source Kind_InvalidRequest ("invalid TLS server name: " +:+ host) e)) as [-> ->].
  - eexists. do 2 (split; [done|]). destruct (with_authority_keeps uri (classify_tls_handshake_error e)) as [-> ->].
    unfold classify_tls_handshake_error. by destruct (he_rustls e) as [[]|].
Qed.

(** A certificate that does not verify, or a peer with nothing in common, ends the race of the routes at once; any other failure
    of the handshake leaves it to the other routes. *)
Lemma handshake_error_in_race {C} n (d : Dialer) i uri e :
  let err := with_authority_from_uri uri (classify_tls_handshake_error e) in
  (receive (C := C) n d (Finished i (inl err))).2
  = match he_rustls e with Some InvalidCertificate | Some PeerIncompatible => Some (inl err) | _ => None end.
Proof.
  cbn [receive]. unfold is_retryable_establishment. destruct (with_authority_keeps uri (classify_tls_handshake_error e)) as [_ ->].
  unfold classify_tls_handshake_error. by destruct (he_rustls e) as [[]|].
Qed.

(** ** What the pool makes of it *)

(** The head of [bind_fresh_connection], openwire/transport/service.rs:532-545: the pooled connection for a stream and its
    number; the stream is acquired once afterwards. *)
Definition bound_connection (now : Instant) (next_connection_id : Z) (a : Planning.Address) (connected : Connected) (max_http2_streams : Z)
    : Z * RealConnection :=
  let info := connection_info_or_default next_connection_id connected in
  let coalescing := cd_coalescing connected in
  (ci_id info, connection_new now (from_observed a (ci_remote_addr info)) (determine_protocol a (cd_negotiated_h2 connected))
     (co_verified_server_names coalescing) max_http2_streams).

(** C27.  A connection made by the TLS connector is shared with another host only when the server proved to be that host too:
    whenever the pool would let a request for another authority ride on it, the session had settled on h2 and the server's own
    certificate - the first it sent, and one that could be parsed - carries a name that covers the host of the request. *)
Theorem coalescing_certified now id next_id t preference uri stream k evs a streams request rp :
  rustls_connect t preference id uri stream = (Ok k, evs) →
  can_coalesce (bound_connection now next_id a (rustls_connected k) streams).2 request rp = true →
  ∃ session cert names n,
    (∃ name, handshake (config_for_alpn_preference (tc_config t) preference) name stream = inr session) ∧
    se_alpn_protocol session = Some "h2"%string ∧ se_peer_certificates session ≫= head = Some cert ∧
    valid_dns_names cert = Some names ∧ n ∈ names ∧
    verified_server_name_matches (to_ascii_lowercase n) (host (authority request)) = true.
Proof.
  intros (host & name & s & _ & _ & Hh & Hn & Hco & _)%rustls_connect_Ok (Hp & _ & _ & _ & _ & (n & Hin & Hm) & _)%can_coalesce_iff.
  cbn in Hp, Hin. rewrite Hn in Hp. rewrite Hco in Hin. unfold coalescing_info_from_session in Hin. exists s.
  destruct (se_peer_certificates s ≫= head) as [cert|]; [|by apply elem_of_nil in Hin].
  destruct (valid_dns_names cert) as [names|] eqn:Ev; [|by apply elem_of_nil in Hin].
  apply list_elem_of_fmap in Hin as (n' & -> & Hin). exists cert, names, n'. split_and!; [by exists name| |done..].
  unfold determine_protocol in Hp. case_bool_decide; [done|]. by case_bool_decide.
Qed.
End Rustls.

Section WebSocketTls.
#[local] Set Default Proof Using "Type*".
Context {H : Type} `{HeaderMapLaws H}.
Context (sha1 base64 debug : string → string) (to_str : string → option string) (to_str_error : string → string)
        (header_error : string → option string) (from_parts : Uri → string + Uri) (error_text : WebSocketError → string).
Context {Io Sender Up Channel : Type} (net : Outside (H := H) Io Sender Up Channel).
Context {V ServerName Cert : Type}.
Context (server_name : string → string + ServerName) (handshake : ClientConfig (V := V) → ServerName → Connected → HandshakeError + Session (Cert := Cert))
        (valid_dns_names : Cert → option (list string)).

(** The request of a WebSocket call asks for HTTP/1.1. *)
Lemma ws_request_http1_only now random call r :
  from_parts_keeps from_parts →
  op_sent (ws_execute sha1 base64 debug to_str to_str_error header_error from_parts error_text net now random call) = Some r →
  context_alpn r = Alpn_Http1Only.
Proof.
  intros Hfp (hb & t & m & _ & Hn & _ & _)%ws_execute_sent. apply normalize_request_inv in Hn as (r1 & r2 & Hi & Hh & Hc).
  assert (Hm : ext_websocket (req_extensions (mark_websocket (wc_subprotocols call) (wc_request call))) = Some (marker_new (wc_subprotocols call))) by done.
  rewrite Hm in Hi. cbn [is_some] in Hi. apply (inject_handshake_ok _ _ _ _ _ (marker_new (wc_subprotocols call))) in Hi as (bs & -> & _ & ->); [|done..].
  destruct (normalized_from _ _ _ _ _ _ _ _ _ Hh Hc) as ((_ & _ & _ & He & _) & _). unfold context_alpn. by rewrite He.
Qed.

(** A WebSocket never lands on an HTTP/2 connection: whatever protocols the TLS connector was configured to offer, and
    whatever the server prefers, the connection it makes for a WebSocket call's request did not negotiate h2, so the transport
    would speak HTTP/1.1 on it, as the upgrade needs - provided only that rustls settles on a protocol that was offered. *)
Theorem websocket_never_h2 now random call r t id uri stream c evs :
  from_parts_keeps from_parts → alpn_offered handshake →
  op_sent (ws_execute sha1 base64 debug to_str to_str_error header_error from_parts error_text net now random call) = Some r →
  rustls_connect server_name handshake valid_dns_names t (context_alpn r) id uri stream = (Ok c, evs) →
  ∀ a, determine_protocol a (cd_negotiated_h2 (rustls_connected c)) = Http1.
Proof.
  intros Hfp Ho Hs Hc a. rewrite (ws_request_http1_only _ _ _ _ Hfp Hs) in Hc. rewrite (http1_only_not_h2 _ _ _ _ _ _ _ _ _ Ho Hc).
  unfold determine_protocol. by case_bool_decide.
Qed.
End WebSocketTls.

Module TlsDemo.
#[local] Open Scope string_scope.
Abbreviation Config := (ClientConfig (V := unit)).
(** A server that takes HTTP/2 when it is offered, with a certificate for two hosts. *)
Definition server_name (s : string) : string + string := inr s.
Definition answer (c : Config) (_ : string) (_ : Connected) : HandshakeError + Session (Cert := list string) :=
  inr (mkSession (head (alpn_protocols c)) None None (Some [["example.com"; "*.Example.org"]])).
Definition uri : Uri := mkUri (Some "https") (Some "example.com") (Some "example.com") None "/".
Definition connector : RustlsTlsConnector (V := unit) := from_config (mkClientConfig [] ()).
Definition stream : Connected := connected_info (mkInfo 7 (Some (mkSocketAddr (V4 1) 443)) None false) connected_new.
Definition connect (p : TlsAlpnPreference) : outcome WireError RustlsConnection * list TlsEvent :=
  rustls_connect server_name answer Some connector p 8 uri stream.
Definition connection (p : TlsAlpnPreference) : RustlsConnection :=
  match (connect p).1 with Ok c => c | _ => mkRustlsConnection stream (mkInfo 0 None None false) no_coalescing true end.
(** The request of another host, whose name resolves to the same address. *)
Definition other : Planning.Address := mkAddress Scheme_Https (mkAuthorityKey "a.example.org" 443) None
  (Some (mkTlsIdentity "a.example.org")) Http1OrHttp2 Dns_System.
Definition other_plan : RoutePlan := mkRoutePlan [direct other (mkSocketAddr (V4 1) 443)] 0.

Lemma answer_offered : alpn_offered answer.
Proof. intros c name st s p [= <-]. cbn. destruct (alpn_protocols c); [done|]. intros [= <-]. left. Qed.

Example upgraded_only_if_asked : rk_negotiated_h2 (connection Alpn_Auto) = true ∧ rk_negotiated_h2 (connection Alpn_Http1Only) = false.
Proof. by vm_compute. Qed.
End TlsDemo.

Lemma websocket_never_h2_witness :
  determine_protocol example_address (cd_negotiated_h2 (rustls_connected (TlsDemo.connection Alpn_Http1Only))) = Http1.
Proof.
  apply (websocket_never_h2 HandshakeDemo.sha1 HandshakeDemo.base64 (λ s, s) Some (λ s, s) (λ _, None) HandshakeDemo.from_parts SessionDemo.text
    (WsCallDemo.server 0) TlsDemo.server_name TlsDemo.answer Some 0 (inr "nonce"%string) WsCallDemo.call
    (default (wc_request WsCallDemo.call) (op_sent (WsCallDemo.open 0)))
    TlsDemo.connector 8 TlsDemo.uri TlsDemo.stream (TlsDemo.connection Alpn_Http1Only) (TlsDemo.connect Alpn_Http1Only).2).
  - apply HandshakeDemo.from_parts_ok.
  - apply TlsDemo.answer_offered.
  - vm_compute. reflexivity.
  - vm_compute. reflexivity.
Defined.

Lemma coalescing_certified_witness :
  ∃ n, n ∈ ["example.com"; "*.Example.org"]%string ∧ verified_server_name_matches (to_ascii_lowercase n) "a.example.org" = true.
Proof.
  destruct (coalescing_certified TlsDemo.server_name TlsDemo.answer Some 0 8 9 TlsDemo.connector Alpn_Auto TlsDemo.uri TlsDemo.stream
    (TlsDemo.connection Alpn_Auto) (TlsDemo.connect Alpn_Auto).2 example_address 100 TlsDemo.other TlsDemo.other_plan)
    as (s & cert & names & n & [name [= <-]] & _ & [= <-] & [= <-] & Hin & Hm).
  - vm_compute. reflexivity.
  - vm_compute. reflexivity.
  - exists n. split; [exact Hin|exact Hm].
Defined.
