(* ===== verification/Cookies.v ===== *)
(** * The cookie jar

    openwire/src/cookie.rs: the default jar over the cookie_store crate - which Set-Cookie headers it stores, the Cookie
    header it builds for a request, and what it may write to the log about a cookie it cannot read.

    The store, with the rules of RFC 6265 for which cookies apply to a URL, is the crate's: a parameter, as are the parser of a
    cookie and the checks of header values. *)

From S2P Require Import Prelude Net Error Http ConnectTunnel.

(** ** Names in the log *)

(** [is_cookie_name_byte], openwire/cookie.rs:123-140. *)
Definition is_cookie_name_byte (c : Ascii.ascii) : bool :=
  let n := Z.of_nat (Ascii.nat_of_ascii c) in
  (n =? 0x21) || ((0x23 <=? n) && (n <=? 0x27)) || (n =? 0x2A) || (n =? 0x2B) || (n =? 0x2D) || (n =? 0x2E) ||
  ((0x30 <=? n) && (n <=? 0x39)) || ((0x41 <=? n) && (n <=? 0x5A)) || (n =? 0x5E) || (n =? 0x5F) || (n =? 0x60) ||
  ((0x61 <=? n) && (n <=? 0x7A)) || (n =? 0x7C) || (n =? 0x7E).

(** [is_safe_cookie_name], openwire/cookie.rs:119-121. *)
Definition is_safe_cookie_name (name : string) : bool := all_chars is_cookie_name_byte name.

(** [cookie_name_hint], openwire/cookie.rs:111-117. *)
Definition cookie_name_hint (value : string) : option string :=
  match split_once "="%char value with
  | None => None
  | Some (before, _) =>
    let name := str_trim before in
    if bool_decide (name = EmptyString) || negb (is_safe_cookie_name name) then None else Some name
  end.

(** What [tracing] is given about a cookie that is dropped: its name or [<unknown>], and its length. *)
Inductive DropNote : Type :=
| Dropped_NotText
| Dropped_Cookie (name : string) (len : Z).

Definition note_cookie (value : string) : DropNote :=
  Dropped_Cookie (default "<unknown>"%string (cookie_name_hint value)) (Z.of_nat (String.length value)).

(** ** The jar *)

(** The loop of [cookies], openwire/cookie.rs:95-105. *)
Fixpoint push_cookies (first : bool) (cookies : string) (values : list (string * string)) : string :=
  match values with
  | [] => cookies
  | (name, value) :: values =>
    let cookies := if first then cookies else cookies +:+ "; " in
    push_cookies false (cookies +:+ name +:+ "=" +:+ value) values
  end.

Section Jar.
#[local] Set Default Proof Using "Type".
(** [Cookie::parse], [HeaderValue::to_str], [HeaderValue::from_maybe_shared], and the store. *)
Context {U Cookie Store : Type} (parse : string → string + Cookie) (to_str from_maybe_shared : string → option string)
        (store_response_cookies : list Cookie → U → Store → Store) (get_request_values : Store → U → list (string * string)).

(** The closure of [set_cookies], openwire/cookie.rs:66-86, on one header. *)
Definition read_set_cookie (value : string) : DropNote + Cookie :=
  match to_str value with
  | None => inl Dropped_NotText
  | Some value => match parse value with inr cookie => inr cookie | inl _ => inl (note_cookie value) end
  end.

(** [Jar::set_cookies], openwire/cookie.rs:65-88. *)
Definition set_cookies (cookie_headers : list string) (url : U) (s : Store) : Store * list DropNote :=
  let read := read_set_cookie <$> cookie_headers in
  (store_response_cookies (omap (λ r, match r with inr c => Some c | inl _ => None end) read) url s,
   omap (λ r, match r with inl n => Some n | inr _ => None end) read).

(** [Jar::add_cookie_str], openwire/cookie.rs:47-61. *)
Definition add_cookie_str (cookie : string) (url : U) (s : Store) : Store * list DropNote :=
  match parse cookie with
  | inr c => (store_response_cookies [c] url s, [])
  | inl _ => (store_response_cookies [] url s, [note_cookie cookie])
  end.

(** [Jar::cookies], openwire/cookie.rs:90-108. *)
Definition jar_cookies (s : Store) (url : U) : option string :=
  match get_request_values s url with
  | [] => None
  | values => from_maybe_shared (push_cookies true EmptyString values)
  end.


(** ** The header *)

Definition pair_text (p : string * string) : string := p.1 +:+ "=" +:+ p.2.

(** How a server reads the header: the pieces between semicolons, less a leading space, split at the first equals sign. *)
Definition read_piece (piece : string) : option (string * string) :=
  split_once "="%char (default piece (strip_prefix " " piece)).
Definition read_header (header : string) : list (string * string) := omap read_piece (split_on ";"%char header).

(** A pair the grammar of the header can carry. *)
Definition sendable (p : string * string) : Prop :=
  contains_char "="%char p.1 = false ∧ contains_char ";"%char p.1 = false ∧ contains_char ";"%char p.2 = false ∧ strip_prefix " " p.1 = None.

Definition tail_text (values : list (string * string)) : string := foldr (λ p t, ";" +:+ (" " +:+ pair_text p) +:+ t) EmptyString values.

Lemma push_cookies_more acc values : push_cookies false acc values = acc +:+ tail_text values.
Proof.
  revert acc. induction values as [|[n v] values IH]; intros acc; cbn [push_cookies]; [by rewrite string_app_nil_r|]. rewrite IH. cbn [tail_text foldr].
  unfold pair_text. cbn [fst snd]. by rewrite !string_app_assoc.
Qed.

Lemma split_once_first c a b : contains_char c a = false → split_once c (a +:+ String c b)%string = Some (a, b).
Proof.
  induction a as [|x a IH]; cbn; [by rewrite bool_decide_true by done|]. case_bool_decide; [done|]. intros Ha. by rewrite IH.
Qed.

Lemma sendable_text p : sendable p → contains_char ";"%char (pair_text p) = false.
Proof. intros (_ & Hn & Hv & _). unfold pair_text. rewrite !contains_char_app, Hn, Hv. done. Qed.

Lemma read_piece_spaced p : sendable p → read_piece (" " +:+ pair_text p) = Some p.
Proof. intros (Hn & _). exact (eq_trans (split_once_first "="%char p.1 p.2 Hn) (f_equal Some (eq_sym (surjective_pairing p)))). Qed.

Lemma read_piece_first p : sendable p → read_piece (pair_text p) = Some p.
Proof.
  intros (Hn & _ & _ & Hs). unfold read_piece. destruct p as [n v]. assert (strip_prefix " " (pair_text (n, v)) = None) as ->.
  { unfold pair_text. destruct n as [|c n]; [done|]. cbn in *. case_bool_decide; [|done]. by destruct n. }
  exact (split_once_first "="%char n v Hn).
Qed.

Lemma read_tail p values :
  sendable p → Forall sendable values → ∀ piece, contains_char ";"%char piece = false → read_piece piece = Some p →
  read_header (piece +:+ tail_text values) = p :: values.
Proof.
  intros Hp Hvs. revert p Hp. induction Hvs as [|q values Hq _ IH]; intros p Hp piece Hc Hr; unfold read_header in *; cbn [tail_text foldr].
  - rewrite string_app_nil_r, split_on_none by done. cbn [omap list_omap]. by rewrite Hr.
  - etrans; [exact (f_equal (omap read_piece) (split_on_app ";"%char piece ((" " +:+ pair_text q) +:+ tail_text values) Hc))|].
    cbn [omap list_omap]. rewrite Hr. f_equal. apply IH; [done| |by apply read_piece_spaced]. cbn. by apply sendable_text.
Qed.

(** The Cookie header says exactly what the store has for the request, in its order, to a server that reads it as the grammar
    has it. *)
Lemma cookies_read_back s url header :
  (∀ h h', from_maybe_shared h = Some h' → h' = h) → Forall sendable (get_request_values s url) →
  jar_cookies s url = Some header → read_header header = get_request_values s url.
Proof.
  intros Hfrom Hs. unfold jar_cookies. destruct (get_request_values s url) as [|[n v] values]; [done|]. intros ->%Hfrom.
  inversion Hs as [|? ? Hp Hvs]. subst. cbn [push_cookies]. rewrite push_cookies_more.
  apply (read_tail (n, v)); [done|done|by apply (sendable_text (n, v))|by apply (read_piece_first (n, v))].
Qed.
End Jar.

(** ** The log *)

Lemma split_once_Some c s a b : split_once c s = Some (a, b) → s = (a +:+ String c b)%string ∧ contains_char c a = false.
Proof.
  revert a b. induction s as [|x s IH]; intros a b; cbn; [done|]. case_bool_decide as E; [intros [= <- <-]; by subst|].
  destruct (split_once c s) as [[l r]|]; [|done]. intros [= <- <-]. destruct (IH l r eq_refl) as [-> Hc]. split; [done|]. cbn. by rewrite bool_decide_false.
Qed.

(** The value of a cookie that could not be read is not written to the log: what is noted depends on the text before the first
    equals sign and on the length only, and the name that is noted is made of the characters of a token. *)
Lemma dropped_value_not_logged name v1 v2 :
  contains_char "="%char name = false → String.length v1 = String.length v2 →
  note_cookie (name +:+ String "=" v1) = note_cookie (name +:+ String "=" v2).
Proof.
  intros Hn Hl. unfold note_cookie, cookie_name_hint. rewrite !split_once_first by done. f_equal. f_equal. clear Hn. induction name as [|c name IH]; cbn; congruence.
Qed.

Lemma cookie_name_hint_token value name :
  cookie_name_hint value = Some name →
  name ≠ EmptyString ∧ all_chars is_cookie_name_byte name = true ∧
  ∃ before rest, value = (before +:+ String "=" rest)%string ∧ contains_char "="%char before = false ∧ name = str_trim before.
Proof.
  unfold cookie_name_hint. destruct (split_once _ value) as [[before rest]|] eqn:E; [|done]. apply split_once_Some in E as [-> Hc].
  case_bool_decide; [done|]. destruct (is_safe_cookie_name _) eqn:Es; [|done]. intros [= <-]. split_and!; [done|done|]. by exists before, rest.
Qed.

Example hints : cookie_name_hint " session =secret; Path=/" = Some "session"%string ∧ cookie_name_hint "secret" = None ∧ cookie_name_hint "se(cret)=1" = None.
Proof. by vm_compute. Qed.
