(* ===== verification/Builder.v ===== *)
(** * Building a client

    openwire/src/client.rs: the configuration of a client, its setters, what [build] makes of it for the other
    components, and the options of a call.  With bind_http1 and bind_http2 of openwire/src/transport/protocol.rs, which hand
    the protocol settings on to hyper.

    Executors, timers, connectors, interceptors, jars and selectors are opaque.  A setter that stores a value is one
    constructor of a type of settings, so that a theorem can speak of any sequence of them. *)

From S2P Require Import Prelude Net Error Http Policy Request FollowUp Scheduler Pool Calls Compression WsCall TokioNet.

(** ** The transport's configuration *)

(** [DEFAULT_MAX_CONNECTIONS_TOTAL], openwire/client.rs:91-91. *)
Definition DEFAULT_MAX_CONNECTIONS_TOTAL : Z := 256.
(** [DEFAULT_MAX_CONNECTIONS_PER_HOST], openwire/client.rs:93-93. *)
Definition DEFAULT_MAX_CONNECTIONS_PER_HOST : Z := USIZE_MAX.
(** [DEFAULT_MAX_REQUESTS_TOTAL], openwire/client.rs:95-95. *)
Definition DEFAULT_MAX_REQUESTS_TOTAL : Z := 64.
(** [DEFAULT_MAX_REQUESTS_PER_HOST], openwire/client.rs:97-97. *)
Definition DEFAULT_MAX_REQUESTS_PER_HOST : Z := USIZE_MAX.
(** [DEFAULT_POOL_MAX_LIFETIME], openwire/client.rs:99-99. *)
Definition DEFAULT_POOL_MAX_LIFETIME : Duration := from_secs 600.
(** [DEFAULT_HTTP2_MAX_LOCAL_STREAMS], openwire/connection/real_connection.rs:10-10. *)
Definition DEFAULT_HTTP2_MAX_LOCAL_STREAMS : Z := 100.

(** [TransportConfig], openwire/client.rs:104-136. *)
Record TransportConfig : Type := mkTransport {
  tr_connect_timeout : option Duration;
  tr_pool_idle_timeout : option Duration;
  tr_pool_max_idle_per_host : Z;
  tr_pool_max_lifetime : option Duration;
  tr_http2_keep_alive_interval : option Duration;
  tr_http2_keep_alive_while_idle : bool;
  tr_http2_keep_alive_timeout : option Duration;
  tr_http2_initial_stream_window_size : option Z;
  tr_http2_initial_connection_window_size : option Z;
  tr_http2_adaptive_window : option bool;
  tr_http2_max_frame_size : option Z;
  tr_http2_max_header_list_size : option Z;
  tr_http2_max_send_buf_size : option Z;
  tr_http2_header_table_size : option Z;
  tr_http2_max_concurrent_reset_streams : option Z;
  tr_http1_writev : option bool;
  tr_http1_title_case_headers : bool;
  tr_max_http2_streams : Z;
  tr_max_connections_total : Z;
  tr_max_connections_per_host : Z;
  tr_max_requests_total : Z;
  tr_max_requests_per_host : Z;
  tr_max_queued_requests : Z;
  tr_max_decompressed_body_bytes : Z;
  tr_strict_host_header : bool;
  tr_tcp_nodelay : bool;
  tr_tcp_linger : option (option Duration);
  tr_tcp_recv_buffer_size : option Z;
  tr_tcp_send_buffer_size : option Z;
}.

(** The setters of [ClientBuilder] from [pool_idle_timeout] to [http2_max_concurrent_reset_streams]. *)
Inductive PoolSetting : Type :=
| Set_pool_idle_timeout (v : Duration)
| Set_pool_max_idle_per_host (v : Z)
| Set_pool_max_lifetime (v : option Duration)
| Set_http2_keep_alive_interval (v : Duration)
| Set_http2_keep_alive_while_idle (v : bool)
| Set_http2_keep_alive_timeout (v : Duration)
| Set_http2_initial_stream_window_size (v : Z)
| Set_http2_initial_connection_window_size (v : Z)
| Set_http2_adaptive_window (v : bool)
| Set_http2_max_frame_size (v : Z)
| Set_http2_max_header_list_size (v : Z)
| Set_http2_max_send_buf_size (v : Z)
| Set_http2_header_table_size (v : Z)
| Set_http2_max_concurrent_reset_streams (v : Z).

(** [pool_idle_timeout] to [http2_max_concurrent_reset_streams], openwire/client.rs:381-453: what each of them leaves of a configuration. *)
Definition set_pool_http2 (s : PoolSetting) (c : TransportConfig) : TransportConfig :=
  mkTransport
    (tr_connect_timeout c)
    (match s with Set_pool_idle_timeout v => Some v | _ => tr_pool_idle_timeout c end)
    (match s with Set_pool_max_idle_per_host v => v | _ => tr_pool_max_idle_per_host c end)
    (match s with Set_pool_max_lifetime v => v | _ => tr_pool_max_lifetime c end)
    (match s with Set_http2_keep_alive_interval v => Some v | _ => tr_http2_keep_alive_interval c end)
    (match s with Set_http2_keep_alive_while_idle v => v | _ => tr_http2_keep_alive_while_idle c end)
    (match s with Set_http2_keep_alive_timeout v => Some v | _ => tr_http2_keep_alive_timeout c end)
    (match s with Set_http2_initial_stream_window_size v => Some v | _ => tr_http2_initial_stream_window_size c end)
    (match s with Set_http2_initial_connection_window_size v => Some v | _ => tr_http2_initial_connection_window_size c end)
    (match s with Set_http2_adaptive_window v => Some v | _ => tr_http2_adaptive_window c end)
    (match s with Set_http2_max_frame_size v => Some v | _ => tr_http2_max_frame_size c end)
    (match s with Set_http2_max_header_list_size v => Some v | _ => tr_http2_max_header_list_size c end)
    (match s with Set_http2_max_send_buf_size v => Some v | _ => tr_http2_max_send_buf_size c end)
    (match s with Set_http2_header_table_size v => Some v | _ => tr_http2_header_table_size c end)
    (match s with Set_http2_max_concurrent_reset_streams v => Some v | _ => tr_http2_max_concurrent_reset_streams c end)
    (tr_http1_writev c) (tr_http1_title_case_headers c) (tr_max_http2_streams c) (tr_max_connections_total c)
    (tr_max_connections_per_host c) (tr_max_requests_total c) (tr_max_requests_per_host c) (tr_max_queued_requests c)
    (tr_max_decompressed_body_bytes c) (tr_strict_host_header c) (tr_tcp_nodelay c) (tr_tcp_linger c)
    (tr_tcp_recv_buffer_size c) (tr_tcp_send_buffer_size c).

(** The setters of [ClientBuilder] from [http1_writev] to [tcp_send_buffer_size]. *)
Inductive WireSetting : Type :=
| Set_http1_writev (v : option bool)
| Set_http1_title_case_headers (v : bool)
| Set_tcp_nodelay (v : bool)
| Set_tcp_linger (v : option Duration)
| Set_tcp_recv_buffer_size (v : Z)
| Set_tcp_send_buffer_size (v : Z).

(** [http1_writev] to [tcp_send_buffer_size], openwire/client.rs:455-486: what each of them leaves of a configuration. *)
Definition set_wire (s : WireSetting) (c : TransportConfig) : TransportConfig :=
  mkTransport
    (tr_connect_timeout c) (tr_pool_idle_timeout c) (tr_pool_max_idle_per_host c) (tr_pool_max_lifetime c)
    (tr_http2_keep_alive_interval c) (tr_http2_keep_alive_while_idle c) (tr_http2_keep_alive_timeout c)
    (tr_http2_initial_stream_window_size c) (tr_http2_initial_connection_window_size c) (tr_http2_adaptive_window c)
    (tr_http2_max_frame_size c) (tr_http2_max_header_list_size c) (tr_http2_max_send_buf_size c)
    (tr_http2_header_table_size c) (tr_http2_max_concurrent_reset_streams c)
    (match s with Set_http1_writev v => v | _ => tr_http1_writev c end)
    (match s with Set_http1_title_case_headers v => v | _ => tr_http1_title_case_headers c end)
    (tr_max_http2_streams c) (tr_max_connections_total c) (tr_max_connections_per_host c) (tr_max_requests_total c)
    (tr_max_requests_per_host c) (tr_max_queued_requests c) (tr_max_decompressed_body_bytes c) (tr_strict_host_header
    c)
    (match s with Set_tcp_nodelay v => v | _ => tr_tcp_nodelay c end)
    (match s with Set_tcp_linger v => Some v | _ => tr_tcp_linger c end)
    (match s with Set_tcp_recv_buffer_size v => Some v | _ => tr_tcp_recv_buffer_size c end)
    (match s with Set_tcp_send_buffer_size v => Some v | _ => tr_tcp_send_buffer_size c end).

(** The setters of [ClientBuilder] from [max_http2_streams] to [strict_host_header]. *)
Inductive LimitSetting : Type :=
| Set_max_http2_streams (v : Z)
| Set_max_connections_total (v : Z)
| Set_max_connections_per_host (v : Z)
| Set_max_requests_total (v : Z)
| Set_max_requests_per_host (v : Z)
| Set_max_queued_requests (v : Z)
| Set_max_decompressed_body_bytes (v : Z)
| Set_strict_host_header (v : bool).

(** [max_http2_streams] to [strict_host_header], openwire/client.rs:488-550: what each of them leaves of a configuration. *)
Definition set_limit (s : LimitSetting) (c : TransportConfig) : TransportConfig :=
  mkTransport
    (tr_connect_timeout c) (tr_pool_idle_timeout c) (tr_pool_max_idle_per_host c) (tr_pool_max_lifetime c)
    (tr_http2_keep_alive_interval c) (tr_http2_keep_alive_while_idle c) (tr_http2_keep_alive_timeout c)
    (tr_http2_initial_stream_window_size c) (tr_http2_initial_connection_window_size c) (tr_http2_adaptive_window c)
    (tr_http2_max_frame_size c) (tr_http2_max_header_list_size c) (tr_http2_max_send_buf_size c)
    (tr_http2_header_table_size c) (tr_http2_max_concurrent_reset_streams c) (tr_http1_writev c)
    (tr_http1_title_case_headers c)
    (match s with Set_max_http2_streams v => Z.max v 1 | _ => tr_max_http2_streams c end)
    (match s with Set_max_connections_total v => v | _ => tr_max_connections_total c end)
    (match s with Set_max_connections_per_host v => v | _ => tr_max_connections_per_host c end)
    (match s with Set_max_requests_total v => v | _ => tr_max_requests_total c end)
    (match s with Set_max_requests_per_host v => v | _ => tr_max_requests_per_host c end)
    (match s with Set_max_queued_requests v => v | _ => tr_max_queued_requests c end)
    (match s with Set_max_decompressed_body_bytes v => v | _ => tr_max_decompressed_body_bytes c end)
    (match s with Set_strict_host_header v => v | _ => tr_strict_host_header c end)
    (tr_tcp_nodelay c) (tr_tcp_linger c) (tr_tcp_recv_buffer_size c) (tr_tcp_send_buffer_size c).

(** [connect_timeout], openwire/client.rs:339-342. *)
Definition with_connect_timeout (v : Duration) (c : TransportConfig) : TransportConfig :=
  mkTransport (Some v)
    (tr_pool_idle_timeout c) (tr_pool_max_idle_per_host c) (tr_pool_max_lifetime c) (tr_http2_keep_alive_interval c)
    (tr_http2_keep_alive_while_idle c) (tr_http2_keep_alive_timeout c) (tr_http2_initial_stream_window_size c)
    (tr_http2_initial_connection_window_size c) (tr_http2_adaptive_window c) (tr_http2_max_frame_size c)
    (tr_http2_max_header_list_size c) (tr_http2_max_send_buf_size c) (tr_http2_header_table_size c)
    (tr_http2_max_concurrent_reset_streams c) (tr_http1_writev c) (tr_http1_title_case_headers c) (tr_max_http2_streams c)
    (tr_max_connections_total c) (tr_max_connections_per_host c) (tr_max_requests_total c) (tr_max_requests_per_host c)
    (tr_max_queued_requests c) (tr_max_decompressed_body_bytes c) (tr_strict_host_header c) (tr_tcp_nodelay c)
    (tr_tcp_linger c) (tr_tcp_recv_buffer_size c) (tr_tcp_send_buffer_size c).

(** A setting of the transport. *)
Inductive TransportSetting : Type :=
| Set_connect_timeout (v : Duration)
| Pool_setting (s : PoolSetting)
| Wire_setting (s : WireSetting)
| Limit_setting (s : LimitSetting).
Definition set_transport (s : TransportSetting) (c : TransportConfig) : TransportConfig :=
  match s with
  | Set_connect_timeout v => with_connect_timeout v c
  | Pool_setting s => set_pool_http2 s c
  | Wire_setting s => set_wire s c
  | Limit_setting s => set_limit s c
  end.

(** The configuration of [ClientBuilder::default], openwire/client.rs:698-731. *)
Definition transport_default : TransportConfig :=
  mkTransport None (Some (from_secs 300)) 5 (Some DEFAULT_POOL_MAX_LIFETIME)
    None false None None None None None None None None None
    None false
    DEFAULT_HTTP2_MAX_LOCAL_STREAMS DEFAULT_MAX_CONNECTIONS_TOTAL DEFAULT_MAX_CONNECTIONS_PER_HOST
    DEFAULT_MAX_REQUESTS_TOTAL DEFAULT_MAX_REQUESTS_PER_HOST USIZE_MAX DEFAULT_MAX_DECOMPRESSED_BODY_BYTES false
    true None None None.

(** ** The builder *)

Section Builder.
#[local] Set Default Proof Using "Type".
(** Header maps; interceptors, listener factories, executors, timers, resolvers, TCP and TLS connectors, planners, selectors
    and jars are only handed on. *)
Context {H Interceptor Factory Executor Timer Resolver Tcp Tls Planner Selector Jar : Type}.

(** [ClientBuilder], openwire/client.rs:164-178; the jar of its [PolicyConfig] is kept beside the rest. *)
Record ClientBuilder : Type := mkBuilder {
  cb_application_interceptors : list Interceptor;
  cb_network_interceptors : list Interceptor;
  cb_event_listener_factory : Factory;
  cb_executor : Executor;
  cb_timer : Timer;
  cb_call_timeout : option Duration;
  cb_transport : TransportConfig;
  cb_cookie_jar : option Jar;
  cb_policy : @PolicyConfig H;
  cb_dns_resolver : Resolver;
  cb_tcp_connector : option Tcp;
  cb_tls_connector : option Tls;
  cb_route_planner : Planner;
  cb_proxy_selector : Selector;
}.

(** The setters of the client's parts; the two for interceptors add to a list. *)
Inductive PartSetting : Type :=
| Add_application_interceptor (v : Interceptor)
| Add_network_interceptor (v : Interceptor)
| Set_event_listener_factory (v : Factory)
| Set_executor (v : Executor)
| Set_timer (v : Timer)
| Set_call_timeout (v : Duration)
| Set_dns_resolver (v : Resolver)
| Set_tcp_connector (v : Tcp)
| Set_tls_connector (v : Tls)
| Set_route_planner (v : Planner)
| Set_cookie_jar (v : Jar)
| Set_proxy_selector (v : Selector).

(** [application_interceptor] to [proxy_selector], openwire/client.rs:222-310, and [call_timeout]. *)
Definition set_part (s : PartSetting) (b : ClientBuilder) : ClientBuilder :=
  mkBuilder
    (match s with Add_application_interceptor v => cb_application_interceptors b ++ [v] | _ => cb_application_interceptors b end)
    (match s with Add_network_interceptor v => cb_network_interceptors b ++ [v] | _ => cb_network_interceptors b end)
    (match s with Set_event_listener_factory v => v | _ => cb_event_listener_factory b end)
    (match s with Set_executor v => v | _ => cb_executor b end)
    (match s with Set_timer v => v | _ => cb_timer b end)
    (match s with Set_call_timeout v => Some v | _ => cb_call_timeout b end)
    (cb_transport b)
    (match s with Set_cookie_jar v => Some v | _ => cb_cookie_jar b end)
    (cb_policy b)
    (match s with Set_dns_resolver v => v | _ => cb_dns_resolver b end)
    (match s with Set_tcp_connector v => Some v | _ => cb_tcp_connector b end)
    (match s with Set_tls_connector v => Some v | _ => cb_tls_connector b end)
    (match s with Set_route_planner v => v | _ => cb_route_planner b end)
    (match s with Set_proxy_selector v => v | _ => cb_proxy_selector b end).

(** The setters of policies. *)
Inductive PolicySetting : Type :=
| Set_authenticator (v : @Authenticator H)
| Set_proxy_authenticator (v : @Authenticator H)
| Set_max_auth_attempts (v : Z)
| Set_follow_redirects (v : bool)
| Set_max_redirects (v : Z)
| Set_allow_insecure_redirects (v : bool)
| Set_retry_on_connection_failure (v : bool)
| Set_max_retries (v : Z)
| Set_retry_canceled_requests (v : bool)
| Set_retry_non_idempotent (v : bool)
| Set_retry_policy (v : RetryPolicy)
| Set_redirect_policy (v : RedirectPolicy).

(** [authenticator], [proxy_authenticator] and [max_auth_attempts], openwire/client.rs:312-332. *)
Definition set_auth (s : PolicySetting) (a : @AuthPolicyConfig H) : @AuthPolicyConfig H :=
  match s with
  | Set_authenticator v => mkAuthConfig (Some v) (proxy_authenticator a) (max_auth_attempts a)
  | Set_proxy_authenticator v => mkAuthConfig (authenticator a) (Some v) (max_auth_attempts a)
  | Set_max_auth_attempts v => mkAuthConfig (authenticator a) (proxy_authenticator a) v
  | _ => a
  end.

(** [follow_redirects], [max_redirects], [allow_insecure_redirects] and, further on, [redirect_policy],
    openwire/client.rs:344-366. *)
Definition set_redirect (s : PolicySetting) (c : RedirectPolicyConfig) : RedirectPolicyConfig :=
  match s with
  | Set_follow_redirects v => redirect_default_mut (set_follow_redirects v) c
  | Set_max_redirects v => redirect_default_mut (set_max_redirects v) c
  | Set_allow_insecure_redirects v => redirect_default_mut (set_allow_insecure_redirects v) c
  | Set_redirect_policy v => redirect_set_custom v c
  | _ => c
  end.

(** [retry_canceled_requests], [retry_non_idempotent] and [retry_policy], openwire/client.rs:552-576, with
    [retry_on_connection_failure] and [max_retries]. *)
Definition set_retry (s : PolicySetting) (c : RetryPolicyConfig) : RetryPolicyConfig :=
  match s with
  | Set_retry_on_connection_failure v => retry_default_mut (set_retry_on_connection_failure v) c
  | Set_max_retries v => retry_default_mut (set_max_retries v) c
  | Set_retry_canceled_requests v => retry_default_mut (set_retry_canceled_requests v) c
  | Set_retry_non_idempotent v => retry_default_mut (set_retry_non_idempotent v) c
  | Set_retry_policy v => retry_set_custom v c
  | _ => c
  end.

Definition set_policy (s : PolicySetting) (p : @PolicyConfig H) : @PolicyConfig H :=
  mkPolicyConfig (set_auth s (cfg_auth p)) (set_retry s (cfg_retry p)) (set_redirect s (cfg_redirect p)).

(** The setters of a builder, and what a chain of them leaves. *)
Inductive Setting : Type :=
| Part (s : PartSetting)
| Policy (s : PolicySetting)
| Transport (s : TransportSetting).
Definition set (b : ClientBuilder) (s : Setting) : ClientBuilder :=
  let with_ t p := mkBuilder (cb_application_interceptors b) (cb_network_interceptors b) (cb_event_listener_factory b)
    (cb_executor b) (cb_timer b) (cb_call_timeout b) t (cb_cookie_jar b) p (cb_dns_resolver b)
    (cb_tcp_connector b) (cb_tls_connector b) (cb_route_planner b) (cb_proxy_selector b) in
  match s with
  | Part s => set_part s b
  | Policy s => with_ (cb_transport b) (set_policy s (cb_policy b))
  | Transport s => with_ (set_transport s (cb_transport b)) (cb_policy b)
  end.
Definition configure (b : ClientBuilder) (ss : list Setting) : ClientBuilder := foldl set b ss.

(** [ClientBuilder::default], openwire/client.rs:689-748, for the default parts. *)
Definition builder_default (factory : Factory) (executor : Executor) (timer : Timer) (resolver : Resolver) (planner : Planner)
    (selector : Selector) : ClientBuilder :=
  mkBuilder [] [] factory executor timer None transport_default None
    (mkPolicyConfig (mkAuthConfig None None 3) (mkRetryConfig default_retry_policy None)
       (mkRedirectConfig default_redirect_policy None))
    resolver None None planner selector.

(** ** Building *)

(** [RequestAdmissionLimiter::new], openwire/connection/limits.rs:97-109. *)
Definition admission_new (max_total max_per_address max_queued : Z) : option RequestScheduler :=
  if (max_total =? USIZE_MAX) && (max_per_address =? USIZE_MAX) && (max_queued =? USIZE_MAX) then None
  else Some (mkScheduler max_total max_per_address max_queued).

(** [ConnectorStack], openwire/transport/connect.rs:36-47. *)
Record ConnectorStack : Type := mkStack {
  cs_dns_resolver : Resolver;
  cs_tcp_connector : Tcp;
  cs_tls_connector : option Tls;
  cs_connect_timeout : option Duration;
  cs_executor : Executor;
  cs_timer : Timer;
  cs_route_planner : Planner;
  cs_proxy_authenticator : option (@Authenticator H);
  cs_max_proxy_auth_attempts : Z;
}.

(** [TransportServiceInit], openwire/transport/service.rs:197-206: the exchange finder is known by the settings of its pool,
    the callback by the executor and the timer of the reaper it starts. *)
Record TransportServiceInit : Type := mkInit {
  ti_connector : ConnectorStack;
  ti_config : TransportConfig;
  ti_executor : Executor;
  ti_timer : Timer;
  ti_pool : PoolSettings;
  ti_request_admission : option RequestScheduler;
  ti_proxy_selector : Selector;
  ti_on_pooled_connection_published : option (Executor * Timer);
}.

(** [ClientInner], openwire/client.rs:50-61: the service by what [build_service_chain] is given. *)
Record ClientInner : Type := mkInner {
  ci_event_listener_factory : Factory;
  ci_executor : Executor;
  ci_timer : Timer;
  ci_request_config : EffectiveRequestConfig;
  ci_transport : TransportServiceInit;
  ci_application_interceptors : list Interceptor;
  ci_network_interceptors : list Interceptor;
  ci_cookie_jar : option Jar;
  ci_policy : @PolicyConfig H;
  ci_max_decompressed_body_bytes : Z;
  ci_strict_host_header : bool;
  ci_connector : ConnectorStack;
  ci_proxy_selector : Selector;
}.

(** [ClientBuilder::build], openwire/client.rs:586-686; [rustls] is the feature [tls-rustls], with what building its
    connector gives, and [tokio_tcp] the connector [TokioTcpConnector::from_config] makes. *)
Definition build (rustls : option (outcome WireError Tls)) (tokio_tcp : TcpSocketConfig → Tcp) (b : ClientBuilder)
    : outcome WireError ClientInner :=
  let? tls_connector := match cb_tls_connector b, rustls with
                        | Some t, _ => Ok (Some t)
                        | None, Some built => let? t := built in Ok (Some t)
                        | None, None => Ok None
                        end in
  let t := cb_transport b in
  let p := cb_policy b in
  let request_config := from_defaults (cb_call_timeout b) (tr_connect_timeout t) (cfg_retry p) (cfg_redirect p) in
  let pool := mkPoolSettings (tr_pool_idle_timeout t) (tr_pool_max_idle_per_host t) (tr_pool_max_lifetime t) in
  let on_published := if needs_reaper pool then Some (cb_executor b, cb_timer b) else None in
  let tcp_connector := match cb_tcp_connector b with
                       | Some c => c
                       | None => tokio_tcp (mkSocketConfig (tr_tcp_nodelay t) (tr_tcp_linger t)
                                              (tr_tcp_recv_buffer_size t) (tr_tcp_send_buffer_size t))
                       end in
  let request_admission := admission_new (tr_max_requests_total t) (tr_max_requests_per_host t) (tr_max_queued_requests t) in
  let connector := mkStack (cb_dns_resolver b) tcp_connector tls_connector (tr_connect_timeout t) (cb_executor b) (cb_timer b)
                     (cb_route_planner b) (proxy_authenticator (cfg_auth p)) (max_auth_attempts (cfg_auth p)) in
  let transport := mkInit connector t (cb_executor b) (cb_timer b) pool request_admission (cb_proxy_selector b) on_published in
  Ok (mkInner (cb_event_listener_factory b) (cb_executor b) (cb_timer b) request_config transport
        (cb_application_interceptors b) (cb_network_interceptors b) (cb_cookie_jar b) p
        (tr_max_decompressed_body_bytes t) (tr_strict_host_header t) connector (cb_proxy_selector b)).
End Builder.

(** ** What hyper is told *)

Inductive Http1Option : Type := H1_Writev (v : bool) | H1_TitleCaseHeaders (v : bool).
(** The options [bind_http1] gives to the builder of hyper, openwire/transport/protocol.rs:24-30, in order. *)
Definition bind_http1_options (c : TransportConfig) : list Http1Option :=
  option_list (H1_Writev <$> tr_http1_writev c) ++ (if tr_http1_title_case_headers c then [H1_TitleCaseHeaders true] else []).

Inductive Http2Option : Type :=
| H2_KeepAliveInterval (v : Duration) | H2_KeepAliveWhileIdle (v : bool) | H2_KeepAliveTimeout (v : Duration)
| H2_InitialStreamWindow (v : Z) | H2_InitialConnectionWindow (v : Z) | H2_AdaptiveWindow (v : bool)
| H2_MaxFrameSize (v : Z) | H2_MaxHeaderListSize (v : Z) | H2_MaxSendBufSize (v : Z) | H2_HeaderTableSize (v : Z)
| H2_MaxConcurrentResetStreams (v : Z).
(** The options [bind_http2] gives to the builder of hyper, openwire/transport/protocol.rs:50-81, in order. *)
Definition bind_http2_options (c : TransportConfig) : list Http2Option :=
  match tr_http2_keep_alive_interval c with
  | Some v => [H2_KeepAliveInterval v; H2_KeepAliveWhileIdle (tr_http2_keep_alive_while_idle c)]
  | None => []
  end ++ option_list (H2_KeepAliveTimeout <$> tr_http2_keep_alive_timeout c)
  ++ option_list (H2_InitialStreamWindow <$> tr_http2_initial_stream_window_size c)
  ++ option_list (H2_InitialConnectionWindow <$> tr_http2_initial_connection_window_size c)
  ++ option_list (H2_AdaptiveWindow <$> tr_http2_adaptive_window c) ++ option_list (H2_MaxFrameSize <$> tr_http2_max_frame_size c)
  ++ option_list (H2_MaxHeaderListSize <$> tr_http2_max_header_list_size c) ++ option_list (H2_MaxSendBufSize <$> tr_http2_max_send_buf_size c)
  ++ option_list (H2_HeaderTableSize <$> tr_http2_header_table_size c)
  ++ option_list (H2_MaxConcurrentResetStreams <$> tr_http2_max_concurrent_reset_streams c).

(** Hyper's handshakes: from the options and the stream to the sender and the connection task, or an error. *)
Section Bind.
Context {Io Sender1 Sender2 : Type}.
Context (handshake1 : list Http1Option → Io → outcome string Sender1) (handshake2 : list Http2Option → Io → outcome string Sender2).
(** [bind_http1], openwire/transport/protocol.rs:14-35. *)
Definition bind_http1 (stream : Io) (c : TransportConfig) : outcome WireError Sender1 :=
  map_err (protocol_binding "HTTP/1.1 client handshake failed") (handshake1 (bind_http1_options c) stream).
(** [bind_http2], openwire/transport/protocol.rs:37-86; the executor and the timer are hyper's to use. *)
Definition bind_http2 (stream : Io) (c : TransportConfig) : outcome WireError Sender2 :=
  map_err (protocol_binding "HTTP/2 client handshake failed") (handshake2 (bind_http2_options c) stream).
End Bind.

(** ** The options of a call *)

(** The setters of a [Call] and of [CallOptions]: [options] takes a bundle of them, [urgency] is a priority. *)
Inductive CallSetting : Type :=
| Call_options (o : CallOptions)
| Call_call_timeout (v : Duration)
| Call_connect_timeout (v : Duration)
| Call_follow_redirects (v : bool)
| Call_max_redirects (v : Z)
| Call_retry_on_connection_failure (v : bool)
| Call_max_retries (v : Z)
| Call_retry_canceled_requests (v : bool)
| Call_allow_insecure_redirects (v : bool)
| Call_priority (v : RequestPriority)
| Call_urgency (v : Z).

(** [CallOptions::call_timeout] to [urgency], openwire/client.rs:1248-1296: what each of them leaves. *)
Definition set_option (s : CallSetting) (o : CallOptions) : CallOptions :=
  mkCallOptions
    (match s with Call_call_timeout v => Some v | _ => co_call_timeout o end)
    (match s with Call_connect_timeout v => Some v | _ => co_connect_timeout o end)
    (match s with Call_follow_redirects v => Some v | _ => co_follow_redirects o end)
    (match s with Call_max_redirects v => Some v | _ => co_max_redirects o end)
    (match s with Call_retry_on_connection_failure v => Some v | _ => co_retry_on_connection_failure o end)
    (match s with Call_max_retries v => Some v | _ => co_max_retries o end)
    (match s with Call_retry_canceled_requests v => Some v | _ => co_retry_canceled_requests o end)
    (match s with Call_allow_insecure_redirects v => Some v | _ => co_allow_insecure_redirects o end)
    (match s with Call_priority v => Some v | Call_urgency v => Some (from_urgency v) | _ => co_priority o end).

(** [Call::options] to [Call::urgency], openwire/client.rs:982-1035: a bundle is laid over the options of the call. *)
Definition set_call (o : CallOptions) (s : CallSetting) : CallOptions :=
  match s with
  | Call_options other => apply o other
  | s => set_option s o
  end.
Definition call_options (ss : list CallSetting) : CallOptions := foldl set_call default_call_options ss.

(** What a setting says of each option. *)
Definition says (s : CallSetting) : CallOptions :=
  match s with Call_options o => o | s => set_option s default_call_options end.

(** The options of a call hold, for each knob, the last value it was given. *)
Section LastWord.
#[local] Set Default Proof Using "Type".
Context {A : Type} (co : CallOptions → option A).
Hypothesis co_apply : ∀ o o', co (apply o o') = option_or (co o') (co o).

Lemma set_call_apply o s : set_call o s = apply o (says s).
Proof. by destruct s, o. Qed.

Lemma option_or_assoc (a b c : option A) : option_or (option_or a b) c = option_or a (option_or b c).
Proof. by destruct a. Qed.

Lemma last_word_from ss o : co (foldl set_call o ss) = option_or (last (omap (co ∘ says) ss)) (co o).
Proof using co_apply.
  induction ss as [|s ss IH] using rev_ind; [done|].
  rewrite foldl_app, omap_app. simpl. rewrite set_call_apply, co_apply, IH.
  destruct (co (says s)) as [v|] eqn:Hv; simpl; unfold compose at 1; rewrite ?Hv, ?last_snoc, ?app_nil_r; done.
Qed.

Lemma last_word ss : co default_call_options = None → co (call_options ss) = last (omap (co ∘ says) ss).
Proof using co_apply.
  intros Hd. unfold call_options. rewrite last_word_from, Hd. by destruct (last _).
Qed.
End LastWord.

(** The options of a knob, by the calls that set it: the last of them decides. *)
Definition chosen {A} (co : CallOptions → option A) (ss : list CallSetting) : option A := last (omap (co ∘ says) ss).

Lemma call_options_chosen ss :
  call_options ss = mkCallOptions (chosen co_call_timeout ss) (chosen co_connect_timeout ss) (chosen co_follow_redirects ss)
    (chosen co_max_redirects ss) (chosen co_retry_on_connection_failure ss) (chosen co_max_retries ss)
    (chosen co_retry_canceled_requests ss) (chosen co_allow_insecure_redirects ss) (chosen co_priority ss).
Proof.
  unfold chosen. rewrite <- !last_word by done. by destruct (call_options ss).
Qed.

(** ** What a setting changes *)

(** The knob a setting of the transport turns. *)
Definition pool_knob (s : PoolSetting) : nat :=
  match s with
  | Set_pool_idle_timeout _ => 0 | Set_pool_max_idle_per_host _ => 1 | Set_pool_max_lifetime _ => 2
  | Set_http2_keep_alive_interval _ => 3 | Set_http2_keep_alive_while_idle _ => 4 | Set_http2_keep_alive_timeout _ => 5
  | Set_http2_initial_stream_window_size _ => 6 | Set_http2_initial_connection_window_size _ => 7
  | Set_http2_adaptive_window _ => 8 | Set_http2_max_frame_size _ => 9 | Set_http2_max_header_list_size _ => 10
  | Set_http2_max_send_buf_size _ => 11 | Set_http2_header_table_size _ => 12
  | Set_http2_max_concurrent_reset_streams _ => 13
  end%nat.
Definition wire_knob (s : WireSetting) : nat :=
  match s with
  | Set_http1_writev _ => 0 | Set_http1_title_case_headers _ => 1 | Set_tcp_nodelay _ => 2 | Set_tcp_linger _ => 3
  | Set_tcp_recv_buffer_size _ => 4 | Set_tcp_send_buffer_size _ => 5
  end%nat.
Definition limit_knob (s : LimitSetting) : nat :=
  match s with
  | Set_max_http2_streams _ => 0 | Set_max_connections_total _ => 1 | Set_max_connections_per_host _ => 2
  | Set_max_requests_total _ => 3 | Set_max_requests_per_host _ => 4 | Set_max_queued_requests _ => 5
  | Set_max_decompressed_body_bytes _ => 6 | Set_strict_host_header _ => 7
  end%nat.
Definition knob (s : TransportSetting) : nat * nat :=
  match s with
  | Set_connect_timeout _ => (0, 0)
  | Pool_setting s => (1, pool_knob s)
  | Wire_setting s => (2, wire_knob s)
  | Limit_setting s => (3, limit_knob s)
  end%nat.

(** Settings of different knobs do not disturb each other. *)
Lemma set_transport_comm s s' c : knob s ≠ knob s' → set_transport s (set_transport s' c) = set_transport s' (set_transport s c).
Proof.
  intros Hk. destruct s as [v|s|s|s], s' as [v'|s'|s'|s']; destruct c; try destruct s; try destruct s'; try reflexivity;
    by destruct Hk.
Qed.

(** The last setting of a knob is the one that counts. *)
Lemma set_transport_last s s' c : knob s = knob s' → set_transport s (set_transport s' c) = set_transport s c.
Proof.
  intros Hk. destruct s as [v|s|s|s], s' as [v'|s'|s'|s']; try discriminate Hk; destruct c; try destruct s; try destruct s';
    try discriminate Hk; reflexivity.
Qed.

(** The order in which different knobs of the transport are set is without effect. *)
Lemma set_transport_order ss ss' c :
  ss ≡ₚ ss' → NoDup (knob <$> ss) → foldl (flip set_transport) c ss = foldl (flip set_transport) c ss'.
Proof.
  intros Hp. revert c. induction Hp as [|s ss ss' Hp IH|s s' ss|ss1 ss2 ss3 H1 IH1 H2 IH2]; intros c Hn; [done|..].
  - apply IH. by apply NoDup_cons in Hn as [_ Hn].
  - simpl. unfold flip. rewrite set_transport_comm; [done|]. intros Hk. apply NoDup_cons in Hn as [Hn _].
    apply Hn. rewrite Hk. simpl. apply list_elem_of_here.
  - rewrite IH1 by done. apply IH2. by rewrite <- H1.
Qed.

Section BuilderFacts.
#[local] Set Default Proof Using "Type".
Context {H Interceptor Factory Executor Timer Resolver Tcp Tls Planner Selector Jar : Type}.
Implicit Types b : @ClientBuilder H Interceptor Factory Executor Timer Resolver Tcp Tls Planner Selector Jar.

(** Building fails only for the connector of rustls, and only when no TLS connector is given. *)
Lemma build_fails rustls tokio_tcp b e :
  build rustls tokio_tcp b = Err e ↔ cb_tls_connector b = None ∧ rustls = Some (Err e).
Proof.
  unfold build. destruct (cb_tls_connector b) as [t|], rustls as [[t'|e'|]|]; simpl; naive_solver.
Qed.

(** Tuning the default retry or redirect policy after a policy was given takes that policy away again. *)
Lemma tuning_drops_custom b n :
  retry_custom (cfg_retry (cb_policy (set b (Policy (Set_max_retries n))))) = None ∧
  redirect_custom (cfg_redirect (cb_policy (set b (Policy (Set_max_redirects n))))) = None.
Proof. done. Qed.

(** C33.  The settings of a call reach the timeouts and the policies it runs with: whatever calls built up the
    client and whatever sequence of setters the call saw, the context and the follow-up loop get, for each knob, the
    last value the call gave it and else the client's.  A retry or redirect policy of the client's own is kept as it
    is, the options of the call notwithstanding, and what no call can set, retries of requests that are not
    idempotent, stays the client's. *)
Theorem call_settings_reach_policies rustls tokio_tcp b client cs now config deadline :
  build rustls tokio_tcp b = Ok client →
  build_context (ci_request_config client) (call_options cs) now = Ok (config, deadline) →
  let retry := cfg_retry (cb_policy b) in
  let redirect := cfg_redirect (cb_policy b) in
  let run := apply_request_overrides (ci_policy client) (Some config) (call_options cs) in
  ec_call_timeout config = option_or (chosen co_call_timeout cs) (cb_call_timeout b) ∧
  ec_connect_timeout config = option_or (chosen co_connect_timeout cs) (tr_connect_timeout (cb_transport b)) ∧
  ec_priority config = default NORMAL (chosen co_priority cs) ∧
  cfg_auth run = cfg_auth (cb_policy b) ∧
  cfg_retry run = match retry_custom retry with
                  | Some _ => retry
                  | None => mkRetryConfig
                      (mkDefaultRetry
                         (default (retry_on_connection_failure (retry_default retry)) (chosen co_retry_on_connection_failure cs))
                         (default (max_retries (retry_default retry)) (chosen co_max_retries cs))
                         (default (retry_canceled_requests (retry_default retry)) (chosen co_retry_canceled_requests cs))
                         (retry_non_idempotent (retry_default retry))) None
                  end ∧
  cfg_redirect run = match redirect_custom redirect with
                     | Some _ => redirect
                     | None => mkRedirectConfig
                         (mkDefaultRedirect
                            (default (follow_redirects (redirect_default redirect)) (chosen co_follow_redirects cs))
                            (default (max_redirects (redirect_default redirect)) (chosen co_max_redirects cs))
                            (default (allow_insecure_redirects (redirect_default redirect))
                               (chosen co_allow_insecure_redirects cs))) None
                     end.
Proof.
  intros Hb Hc. destruct b as [ai ni f ex ti ct t j [a [[r1 r2 r3 r4] rc] [[d1 d2 d3] dc]] dns tc tls pl se].
  unfold build in Hb. apply obind_Ok in Hb as (tlsc & _ & Hb). injection Hb as <-.
  unfold build_context in Hc. apply obind_Ok in Hc as (dl & _ & Hc). injection Hc as <- _.
  rewrite call_options_chosen. unfold apply_request_overrides, has_retry_overrides, has_redirect_overrides, with_overrides, from_defaults.
  simpl. repeat split; [destruct rc as [p|]|destruct dc as [p|]]; rewrite ?andb_false_r; try done.
  - by destruct (chosen co_retry_on_connection_failure cs), (chosen co_max_retries cs), (chosen co_retry_canceled_requests cs).
  - by destruct (chosen co_follow_redirects cs), (chosen co_max_redirects cs), (chosen co_allow_insecure_redirects cs).
Qed.
End BuilderFacts.

(** ** Copies of a call *)

(** [clone_request], openwire/client.rs:1488-1498. *)
Definition clone_request {H} (r : Request H) : option (Request H) :=
  b ← try_clone (req_body r); Some (mkRequest (req_method r) (req_uri r) (req_version r) (req_headers r) (req_extensions r) b).

(** [Call::try_clone], openwire/client.rs:971-980: the request, the options and the state of the copy. *)
Definition call_try_clone {H} (r : Request H) (o : CallOptions) : option (Request H * CallOptions * CallState) :=
  r ← clone_request r; Some (r, o, call_state_new).

(** A copy of a call is the same request with the same options, neither executed nor canceled; there is one unless the body is a
    stream. *)
Lemma call_try_clone_iff {H} (r r' : Request H) o o' st :
  call_try_clone r o = Some (r', o', st) ↔ req_body r ≠ Body_Streaming ∧ r' = r ∧ o' = o ∧ st = call_state_new.
Proof.
  unfold call_try_clone, clone_request. destruct r as [m u v h x []]; cbn; naive_solver.
Qed.

(** ** The settings of a WebSocket call *)

Inductive WsSetting : Type :=
| Ws_handshake_timeout (v : Duration)
| Ws_close_timeout (v : Duration)
| Ws_max_frame_size (v : Z)
| Ws_max_message_size (v : Z)
| Ws_send_queue_size (v : Z)
| Ws_ping_interval (v : Duration)
| Ws_pong_timeout (v : Duration)
| Ws_subprotocols (v : list string)
| Ws_deliver_control_frames (v : bool).

(** [WebSocketCall::handshake_timeout] to [deliver_control_frames], openwire/client.rs:824-871. *)
Definition set_ws {H} (c : @WebSocketCall H) (s : WsSetting) : @WebSocketCall H :=
  mkWsCall (wc_request c)
    (match s with Ws_handshake_timeout v => Some v | _ => wc_handshake_timeout c end)
    (match s with Ws_close_timeout v => Some v | _ => wc_close_timeout c end)
    (match s with Ws_max_frame_size v => Some v | _ => wc_max_frame_size c end)
    (match s with Ws_max_message_size v => Some v | _ => wc_max_message_size c end)
    (match s with Ws_send_queue_size v => Some v | _ => wc_send_queue_size c end)
    (match s with Ws_ping_interval v => Some v | _ => wc_ping_interval c end)
    (match s with Ws_pong_timeout v => Some v | _ => wc_pong_timeout c end)
    (match s with Ws_subprotocols v => v | _ => wc_subprotocols c end)
    (match s with Ws_deliver_control_frames v => v | _ => wc_deliver_control_frames c end).

(** The settings never touch the request. *)
Lemma set_ws_request {H} (c : @WebSocketCall H) ss : wc_request (foldl set_ws c ss) = wc_request c.
Proof. induction ss as [|s ss IH] using rev_ind; [done|]. by rewrite foldl_app. Qed.

(** ** Examples *)

Module BuilderDemo.
Definition plain : @ClientBuilder unit nat unit unit unit unit TcpSocketConfig unit unit unit unit :=
  builder_default () () () () () ().
Definition ready : list (@Setting unit nat unit unit unit unit TcpSocketConfig unit unit unit unit) :=
  [Policy (Set_max_retries 4); Transport (Limit_setting (Set_max_http2_streams 0)); Part (Add_network_interceptor 7%nat);
   Transport (Pool_setting (Set_pool_max_idle_per_host 2)); Policy (Set_max_redirects 3); Part (Add_network_interceptor 8%nat)].
Definition client := build (Some (Ok ())) id (configure plain ready).
Definition fallback : @ClientInner unit nat unit unit unit unit TcpSocketConfig unit unit unit unit :=
  mkInner () () () (from_defaults None None (mkRetryConfig default_retry_policy None) (mkRedirectConfig default_redirect_policy None))
    (mkInit (mkStack () (mkSocketConfig true None None None) None None () () () None 3) transport_default () ()
       (mkPoolSettings None 0 None) None () None) [] [] None (cb_policy plain) 0 false
    (mkStack () (mkSocketConfig true None None None) None None () () () None 3) ().
Definition built : ClientInner := match client with Ok c => c | _ => fallback end.
Definition call : list CallSetting :=
  [Call_max_retries 9; Call_options (mkCallOptions (Some 30) None None (Some 1) None None None None None); Call_max_retries 2;
   Call_urgency 12].
End BuilderDemo.

(** A client with four retries and three redirects, and a call that asks for two and one. *)
Lemma call_settings_reach_policies_witness :
  let config := with_overrides (ci_request_config BuilderDemo.built) (call_options BuilderDemo.call) in
  let run := apply_request_overrides (ci_policy BuilderDemo.built) (Some config) (call_options BuilderDemo.call) in
  BuilderDemo.client = Ok BuilderDemo.built ∧ ec_call_timeout config = Some 30 ∧ ec_priority config = mkPriority 7 ∧
  cfg_retry run = mkRetryConfig (mkDefaultRetry true 2 false false) None ∧
  cfg_redirect run = mkRedirectConfig (mkDefaultRedirect true 1 false) None.
Proof.
  cbv zeta. split; [vm_compute; reflexivity|].
  destruct (call_settings_reach_policies (Some (Ok ())) id (configure BuilderDemo.plain BuilderDemo.ready) BuilderDemo.built
    BuilderDemo.call 0 (with_overrides (ci_request_config BuilderDemo.built) (call_options BuilderDemo.call)) (Some 30))
    as (H1 & _ & H3 & _ & H5 & H6); [vm_compute; reflexivity..|].
  rewrite H1, H3, H5, H6. vm_compute. repeat split.
Defined.

(** Zero streams are made one; the interceptors keep their order; the connector of tokio gets the socket settings. *)
Example configured :
  (tr_max_http2_streams (ti_config (ci_transport BuilderDemo.built)), ci_network_interceptors BuilderDemo.built,
   max_idle_per_address (ti_pool (ci_transport BuilderDemo.built)), ti_on_pooled_connection_published (ci_transport BuilderDemo.built),
   cs_tcp_connector (ci_connector BuilderDemo.built)) = (1, [7%nat; 8%nat], 2, Some ((), ()), mkSocketConfig true None None None).
Proof. vm_compute. reflexivity. Qed.

(** The limits a client has by default: 64 requests in all, and no limit for an address. *)
Example default_request_limits :
  let t := transport_default in
  admission_new (tr_max_requests_total t) (tr_max_requests_per_host t) (tr_max_queued_requests t) =
  Some (mkScheduler 64 USIZE_MAX USIZE_MAX).
Proof. vm_compute. reflexivity. Qed.

(** A policy of the caller's own is gone once the default one is tuned after it; tuned before, it stays. *)
Example custom_policy_order p :
  let after b (ss : list (@Setting unit nat unit unit unit unit TcpSocketConfig unit unit unit unit)) := retry_custom (cfg_retry (cb_policy (configure b ss))) in
  after BuilderDemo.plain [Policy (Set_retry_policy p); Policy (Set_max_retries 2)] = None ∧
  after BuilderDemo.plain [Policy (Set_max_retries 2); Policy (Set_retry_policy p)] = Some p.
Proof. done. Qed.

(** Without an interval hyper is not told about keep-alives, though a timeout is still passed on. *)
Example keep_alive_options :
  bind_http2_options (set_transport (Pool_setting (Set_http2_keep_alive_timeout 5))
    (set_transport (Pool_setting (Set_http2_keep_alive_while_idle true)) transport_default)) = [H2_KeepAliveTimeout 5].
Proof. vm_compute. reflexivity. Qed.
